(* ===== verification/_CoqProject ===== *)
-Q . S2P
Prelude.v
Monad.v
Neon.v
Float32.v
Demosaic.v
DemosaicSpec.v
ColorConv.v
InFlight.v
Kernel.v
Pipeline.v
Isp.v
Capture.v
AutoFocus.v
Medians.v
PipelineInv.v
PipelineSpec.v
CaptureSpec.v
IspSpec.v
FrameSpec.v
AutoFocusSpec.v
Metadata.v
HalMetadata.v
MetadataSpec.v
MetadataBox.v
MetadataBoxSpec.v
CameraUtils.v
MetadataBoxDemo.v
HalImage.v
Jpeg.v
FenceCleanup.v
Hal.v
HalModule.v
HalInv.v
HalSpec.v
HalLife.v
HalTheorems.v
HalStarve.v
HalDemo.v
SensorQueue.v
MultiHal.v
MultiHalScan.v
MultiHalSpec.v
MultiHalHandles.v
Params.v
VendorTags.v
VendorTagsSpec.v
VendorOps.v
Cond.v
Light.v
Gatekeeper.v
Services.v
Mixer.v
MixerMore.v
DynArray.v
AudioConfig.v
AudioRoute.v
AudioMachine.v
AudioRouteSpec.v
AudioStreams.v
AudioDemo.v
Pcm.v
PcmSpec.v
PcmMmap.v
PcmMmapSpec.v
PcmName.v
AudioOffload.v
AudioAsync.v
AudioOffloadSpec.v
AudioHal.v
AudioCapture.v
AudioHalSpec.v
AudioSession.v
AudioCalls.v
AudioHalDemo.v
AudioParse.v
AudioParseSpec.v
AudioHandlers.v
AudioLoad.v
AudioLoadSpec.v
AudioLoadDemo.v
