(* ===== verification/Prelude.v ===== *)
(** * Verification of the Mocha (Xiaomi Mi Pad) device tree

    The repository is the Android device tree of a tablet.  Its own C++ code
    is a camera HAL with a software ISP, a sensor multi-HAL, an audio HAL with
    its configuration manager over a mixer and PCM library, compatibility
    libraries for a proprietary camera HAL, and a few small services.  This library models that code and proves it correct, or proves
    where it is not.

    ** Parts and how they interact

    The framework calls the camera device (camera/MochaCameraHAL.cpp).  The
    device owns a [CameraPipeline] (camera/CameraPipeline.cpp), which talks to
    the V4L2 and I2C drivers, and which owns the demosaicer and the colour
    converter (camera/isp).  A capture request is entered in the in-flight
    tracker (camera/InFlightTracker.h), a frame is captured and processed into
    each output buffer, a BLOB output is scaled, compressed
    (camera/JpegEncoder.cpp), given an EXIF segment and a footer, and the
    result with its metadata packet goes back to the framework.  The sensor
    multi-HAL (sensors/multihal.cpp) merges sub-HALs: a thread per sub-HAL
    fills a circular buffer (sensors/SensorEventQueue.cpp), poll drains all of
    them.  The audio configuration manager (configmgr/audio_config.c) reads an
    XML file into tables of devices, paths, use cases and streams, and from
    then on turns the opening, rerouting and closing of streams into writes to
    the controls of the sound card (tinyalsa/src/mixer.c).  The audio device
    (audio/audio_hw.c) opens a stream of the manager for every stream of the
    framework, a PCM device (tinyalsa/src/pcm.c) or a compressed device while
    the stream is active, and a stream for the voice trigger; a thread reports
    to the framework when compressed playback can go on.  The compatibility
    libraries (libmocha) hold camera parameters, metadata containers and vendor
    tags, which travel between processes in parcels, and condition variables.
    Lights, gatekeeper, vibrator and key disabler are independent of these and
    of each other.

    ** Files

    Foundations.  [Prelude] (this file): machine integers, buffers with
    checked accesses, loops, tactics.  [Monad]: record update, the state monad
    [ST] and its rules.  [Neon]: the NEON intrinsics in use.  [Float32]: binary32.
    [Kernel]: the interface of the drivers and of the C library, with laws.

    Camera pipeline.  [Demosaic] and [ColorConv]: camera/isp/DemosaicNEON.cpp
    and ColorConvNEON.cpp.  [InFlight]: camera/InFlightTracker.h.  [Pipeline],
    [Isp], [Capture], [AutoFocus]: the methods of camera/CameraPipeline.cpp
    (device and streaming; exposure, white balance and processing; captureFrame;
    the focus scan).  A class is a record of its fields, a method a function in
    [ST] over the record and the state of the kernel.

    Camera HAL, all of camera/MochaCameraHAL.cpp.  [Metadata], [HalMetadata]:
    the packet library's interface and the packets.  [HalImage]: upscaling and
    EXIF.  [Jpeg]: camera/JpegEncoder.cpp over the interface of libjpeg.
    [FenceCleanup]: the descriptor cleanup.  [Hal]: the device and its
    operations.  [HalModule]: the module's entry points.

    Sensors.  [SensorQueue] and [MultiHal].

    Audio.  [Mixer], [MixerMore]: tinyalsa/src/mixer.c over the interface of the
    ALSA control device (what the configuration manager calls; the rest).  [DynArray], [AudioConfig], [AudioRoute], [AudioParse]:
    configmgr/audio_config.c (its growing arrays; the tables and the streams;
    routing and use cases; the parser of the XML file, driven by the callbacks
    of expat).  [Pcm], [PcmMmap], [PcmName]: tinyalsa/src/pcm.c over the interface of
    the driver (open, configure, read and write; the mapped ring; open by name).
    [AudioOffload], [AudioAsync], [AudioHal], [AudioCapture]: audio/audio_hw.c
    (compressed playback; its thread as a step relation; the device, PCM
    playback and the voice trigger; input and its resampler).

    Compatibility libraries.  [Params]: libmocha/camera/CameraParameters.cpp.
    [MetadataBox]: CameraMetadata.cpp over the interface of the packet library,
    with packets at addresses of a heap and objects by name, since objects pass
    packets to each other.  [CameraUtils]: CameraUtils.cpp.  [VendorTags]:
    VendorTagDescriptor.cpp.  [Cond]: libmocha/bionic/pthread_cond.cpp, with the
    threads, the mutex and the futex as a step relation.

    Services.  [Light]: hidl/light/Light.cpp.  [Gatekeeper]: gatekeeper/.  [Services]:
    hidl/vibrator/Vibrator.cpp and touch/KeyDisabler.cpp.

    ** What the theorems show

    Pixels.  [DemosaicSpec] gives every output pixel of the demosaicer, the
    columns that keep the previous frame, and where its vector code departs
    from its scalar code; [ColorConv] the two conversions; [FrameSpec] composes
    them, with the automatic exposure and white balance as configured, into one
    formula for a frame.
    State machines.  [PipelineInv] and [PipelineSpec]: after every sequence of
    operations the pipeline satisfies an invariant on states and resources, and
    close releases every descriptor; it releases every mapping too unless a
    configure met an object that still held buffers, which then leak.  [HalInv], [HalSpec], [HalLife], [HalTheorems]: the
    same for the whole device, exactly one completion per request, the
    outcomes of a configuration; [HalStarve]: a flush ends the delivery of
    frames.  [HalDemo] runs a concrete session.  Control loops.  [CaptureSpec],
    [IspSpec], [AutoFocusSpec], [Medians]: bounds of every control written (and
    the one case in which the exposure leaves its range), the frame-period estimate, the decision and confinement of a focus scan.
    Packets.  [MetadataSpec], [Jpeg], [HalImage].  Sensors.  [SensorQueue]: the
    ring refines a bounded queue.  [MultiHalScan]: a pass of poll terminates
    and is fair.  [MultiHalSpec]: a step relation for the threads; events are
    delivered once and in order, and no wakeup is lost.  [MultiHalHandles]:
    handles round-trip.  Audio.  [DynArray]: the growing array refines a list.
    [AudioMachine], [AudioRouteSpec], [AudioStreams]: after any sequence of
    calls the counters of the devices are those of an abstract machine that
    only knows which stream holds which device.  This, and the session theorems
    below, is for configurations whose devices have distinct bits and an off
    path wherever they have an on path ([layout_wf]); the shipped
    audio.mocha.xml has neither, and [AudioDemo] shows what then goes wrong.  [AudioParseSpec],
    [AudioHandlers], [AudioLoad], [AudioLoadSpec]: on every well-formed file
    the parser ends, defined, with well-formed tables, which under [layout_wf]
    are the state the routing theorem starts from.  [AudioDemo], [AudioLoadDemo]: both on a
    concrete card and file, and the defects found.  [PcmSpec]: opening and
    closing balance descriptors, transfers end and their results tell whether
    the device runs.  [PcmMmapSpec]: the pointers of the mapped ring, and that a
    transfer puts the caller's frames where they belong when the status is
    exchanged by ioctl, and always fails when the status is mapped.  [MixerMore]: a value
    set is the value read.  [AudioOffloadSpec]: a compressed stream through any
    operations uses open devices only and leaves none open; undefined are
    exactly the operations that use the device in standby.  [AudioAsync]: the
    accounts of requests and callbacks, and the wakeups that are lost.
    [AudioHalSpec], [AudioSession], [AudioCalls]: after any session of the
    audio device (under [layout_wf]) the streams of the configuration have the users that hold
    them, the PCM devices of the active streams are open and no others, and
    the next call is defined; a read delivers the device's data or, when the
    device fails, silence.  [AudioHalDemo]: a concrete session, a lost
    reference, a volume out of range.  Compatibility libraries.  [Params]:
    flatten/unflatten and number round trips.  [MetadataBoxSpec]:
    a container is a map that grows as needed, is frozen
    while locked and survives a parcel; [MetadataBoxDemo]: its faults when
    memory is short or it meets its own packet.  [VendorTagsSpec],
    [VendorOps]: a descriptor answers as the operations it was
    made from, on both sides of a parcel.  [Cond]: no wakeup is lost between
    the unlock and the wait, short of 2 ^ 30 signals.  Services.  [Light]: what the LED and the backlights show after any
    history, or that a blinking colour had no nearest one.  [Gatekeeper]: what the verification cache can accept, and that
    failure records last.  [Services]: the amplitude scale, stream failures.

    ** Conventions and bounds

    [None] is undefined behaviour (an access out of bounds, a null pointer) or
    the end of the process; a theorem that gives a result states [Some].
    Integers are [Z] with the wrap-around of their type written out.  Loops are
    structural on their index lists, on the constants of the source (six
    retries, twelve frame deltas, eleven coarse and eleven fine focus
    positions) or on fuel that is proved enough: the rows of an image in
    [Jpeg], (events + 1) * (queues + 1) iterations in [MultiHalScan], the length
    of the string plus one in [Params].  A PCM write is two rounds, a read one
    more than the overruns the driver gives in a row; the boundary of a PCM
    buffer is found within 32 doublings.  [AudioCalls] takes the streams of the
    configuration to be PCM or hardware ones, and inputs to have the rate of
    their device: the resampler is modelled, and outside that theorem.

    ** Assumptions

    Code outside the repository is a parameter with documented laws: [Kernel]
    (descriptors are fresh, calls return errors), [ErrnoPositive],
    [CameraMetadataOk], [LibjpegOk], [HalEnv] (gralloc and framework),
    [SubHal], [AlsaOk], [AlsaKeeps] and [AudioHOk] (the ALSA control device and
    its mixer), [Files] (the file system as the parser sees it), [PcmDevOk] (the PCM
    driver), [Compress] (tinycompress), [HalLib] (libcutils, the clock, the
    resampler, log), [pow], and for the gatekeeper its base class and hash
    functions; [PacketLibOk] and [BlobParcelOk] (the packet library and parcels
    under the metadata container), [ParcelOk] (parcels of vendor tags).
    [LibjpegOk] allows the library to exit the process in every call.  Each law
    has an instance in a witness.  [long] and pointers have 32 bits.

    ** Not modelled

    The unshorten decoder of audio/audio_hw.c (its library is not in the
    repository), camera/CameraWrapper.cpp, Camera3Wrapper.cpp and camera/v4l2/
    (not in the build), the binder proxies of libmocha/camera (they marshal
    calls of interfaces outside the repository), the floating-point parameters
    of CameraParameters.cpp, shims, keymaster, power, memtrack and the main
    functions of the services (registration and I/O only).  Of the faults that
    the guard of the camera HAL catches, only one inside the gralloc lock is
    modelled as caught: other accesses out of bounds are undefined, guarded or
    not.  Undefinedness of a whole capture
    request is not excluded: it needs bounds of the exposure arithmetic for
    arbitrary driver answers. *)

From stdpp Require Export prelude list gmap.
From Stdlib Require Export ZArith Lia.

#[global] Open Scope Z_scope.
#[global] Set Default Goal Selector "!".

Declare Scope mocha_scope.
Delimit Scope mocha_scope with mocha.
#[global] Open Scope mocha_scope.

(** ** Machine integers

    A [w]-bit unsigned value is its representative in [[0, 2^w)], a signed one
    its two's-complement representative.  Unsigned arithmetic wraps by
    definition; a conversion to a narrower type is the corresponding function
    below. *)

Definition u8 (z : Z) : Z := z mod 2 ^ 8.
Definition u16 (z : Z) : Z := z mod 2 ^ 16.
Definition u32 (z : Z) : Z := z mod 2 ^ 32.
Definition i16 (z : Z) : Z := (z + 2 ^ 15) mod 2 ^ 16 - 2 ^ 15.
Definition i32 (z : Z) : Z := (z + 2 ^ 31) mod 2 ^ 32 - 2 ^ 31.
Definition i64 (z : Z) : Z := (z + 2 ^ 63) mod 2 ^ 64 - 2 ^ 63.

Definition INT_MAX : Z := 2 ^ 31 - 1.
Definition INT_MIN : Z := - 2 ^ 31.

Definition is_byte (z : Z) : Prop := 0 <= z < 256.

#[export] Instance is_byte_dec z : Decision (is_byte z).
Proof. unfold is_byte. apply _. Defined.

Lemma u8_range z : is_byte (u8 z).
Proof. unfold is_byte, u8. apply Z.mod_pos_bound. lia. Qed.

Lemma u8_id z : is_byte z → u8 z = z.
Proof. intros. unfold u8. apply Z.mod_small. exact H. Qed.

Lemma u32_range z : 0 <= u32 z < 2 ^ 32.
Proof. unfold u32. apply Z.mod_pos_bound. lia. Qed.

Lemma u32_id z : 0 <= z < 2 ^ 32 → u32 z = z.
Proof. intros. unfold u32. by apply Z.mod_small. Qed.

Lemma i32_id z : - 2 ^ 31 <= z < 2 ^ 31 → i32 z = z.
Proof. intros. unfold i32. rewrite Z.mod_small; lia. Qed.

Lemma i32_range z : - 2 ^ 31 <= i32 z < 2 ^ 31.
Proof. unfold i32. pose proof (Z.mod_pos_bound (z + 2 ^ 31) (2 ^ 32)). lia. Qed.

Lemma i16_id z : - 2 ^ 15 <= z < 2 ^ 15 → i16 z = z.
Proof. intros. unfold i16. rewrite Z.mod_small; lia. Qed.

Lemma i64_id z : - 2 ^ 63 <= z < 2 ^ 63 → i64 z = z.
Proof. intros. unfold i64. rewrite Z.mod_small; lia. Qed.

Create HintDb ints.
Create Rewrite HintDb ints.
#[export] Hint Resolve u8_range u32_range i32_range : ints.
#[export] Hint Rewrite u8_id u32_id i32_id i16_id i64_id using lia : ints.

(** Shifting right by a constant is a Euclidean division. *)
Lemma shiftr_div (a n : Z) : 0 <= n → a ≫ n = a / 2 ^ n.
Proof. intros. by apply Z.shiftr_div_pow2. Qed.

(** Two's-complement masking is a remainder. *)
Lemma land_ones_mod (a n : Z) : 0 <= n → Z.land a (Z.ones n) = a mod 2 ^ n.
Proof. intros. by apply Z.land_ones. Qed.

(** ** Options: undefined behaviour is [None] *)

Lemma bind_Some_inv {A B} (m : option A) (f : A → option B) b :
  m ≫= f = Some b → ∃ a, m = Some a ∧ f a = Some b.
Proof. apply bind_Some. Qed.

(** Read a hypothesis [m ≫= f = Some b] off into its steps. *)
Ltac inv_bind :=
  repeat match goal with
  | H : mbind _ ?m = Some _ |- _ =>
      let x := fresh "x" in let E := fresh "E" in
      apply bind_Some_inv in H as (x & E & H)
  | H : Some _ = Some _ |- _ => injection H as H; try subst
  | H : None = Some _ |- _ => discriminate H
  | H : Some _ = None |- _ => discriminate H
  end.

(** Case analysis on the [bool] and [bool_decide] tests of a definition. *)
Ltac case_bools :=
  repeat first
    [ case_bool_decide
    | match goal with
      | |- context [if ?b then _ else _] => destruct b eqn:?
      end ].

Ltac zbool :=
  repeat match goal with
  | H : (_ <? _) = true |- _ => apply Z.ltb_lt in H
  | H : (_ <? _) = false |- _ => apply Z.ltb_ge in H
  | H : (_ <=? _) = true |- _ => apply Z.leb_le in H
  | H : (_ <=? _) = false |- _ => apply Z.leb_gt in H
  | H : (_ =? _) = true |- _ => apply Z.eqb_eq in H
  | H : (_ =? _) = false |- _ => apply Z.eqb_neq in H
  | H : (_ >? _) = true |- _ => rewrite Z.gtb_ltb in H
  | H : (_ >? _) = false |- _ => rewrite Z.gtb_ltb in H
  | H : (_ >=? _) = true |- _ => rewrite Z.geb_leb in H
  | H : (_ >=? _) = false |- _ => rewrite Z.geb_leb in H
  | H : (_ && _) = true |- _ => apply andb_true_iff in H as [? ?]
  | H : (_ || _) = false |- _ => apply orb_false_iff in H as [? ?]
  | H : negb _ = true |- _ => apply negb_true_iff in H
  | H : negb _ = false |- _ => apply negb_false_iff in H
  end.

(** ** Byte buffers

    A C buffer is the list of its elements.  An access outside it is undefined
    behaviour and evaluates to [None]; a function that returns [Some] has
    therefore made no access out of bounds. *)

Definition blen {A} (b : list A) : Z := Z.of_nat (length b).

Definition ld {A} (b : list A) (i : Z) : option A :=
  if bool_decide (0 <= i) then b !! Z.to_nat i else None.

(** [memcpy (b + off, vs, n)], or [n] consecutive stores. *)
Definition stn {A} (b : list A) (off : Z) (vs : list A) : option (list A) :=
  if bool_decide (0 <= off ∧ off + blen vs <= blen b)
  then Some (list_inserts (Z.to_nat off) vs b) else None.

Definition st {A} (b : list A) (i : Z) (v : A) : option (list A) := stn b i [v].

(** [n] consecutive loads at [off]. *)
Definition ldn {A} (b : list A) (off n : Z) : option (list A) :=
  if bool_decide (0 <= n ∧ 0 <= off ∧ off + n <= blen b)
  then Some (take (Z.to_nat n) (drop (Z.to_nat off) b)) else None.

(** The value of a byte buffer at an index that is in bounds. *)
Definition bget (b : list Z) (i : Z) : Z := default 0 (ld b i).

Definition is_bytes (b : list Z) : Prop := Forall is_byte b.

Lemma blen_nonneg {A} (b : list A) : 0 <= blen b.
Proof. unfold blen. lia. Qed.

Lemma ld_Some_bounds {A} (b : list A) i v : ld b i = Some v → 0 <= i < blen b.
Proof.
  unfold ld, blen. case_bool_decide; [|done].
  intros ?%lookup_lt_Some. lia.
Qed.

Lemma ld_lt {A} (b : list A) i : 0 <= i < blen b → ∃ v, ld b i = Some v.
Proof.
  unfold ld, blen. intros [? ?]. rewrite bool_decide_true by lia.
  apply lookup_lt_is_Some_2. lia.
Qed.

Lemma ld_ge {A} (b : list A) i : i < 0 ∨ blen b <= i → ld b i = None.
Proof.
  unfold ld, blen. intros ?. case_bool_decide; [|done].
  apply lookup_ge_None_2. lia.
Qed.

Lemma ld_zero {A} (b : list A) : ld b 0 = b !! 0%nat.
Proof. done. Qed.

Lemma ld_one {A} (b : list A) : ld b 1 = b !! 1%nat.
Proof. done. Qed.
Lemma ld_two {A} (b : list A) : ld b 2 = b !! 2%nat.
Proof. done. Qed.
Lemma ld_three {A} (b : list A) : ld b 3 = b !! 3%nat.
Proof. done. Qed.

Lemma ld_bget (b : list Z) i : 0 <= i < blen b → ld b i = Some (bget b i).
Proof. intros [v Hv]%ld_lt. unfold bget. by rewrite Hv. Qed.

Lemma bget_byte (b : list Z) i : is_bytes b → is_byte (bget b i).
Proof.
  intros Hb. unfold bget, ld. case_bool_decide; [|done].
  destruct (b !! Z.to_nat i) eqn:E; [|done]. by eapply Forall_lookup_1.
Qed.

Lemma ld_byte (b : list Z) i v : is_bytes b → ld b i = Some v → is_byte v.
Proof. intros ? Hv. pose proof (bget_byte b i H). unfold bget in *. by rewrite Hv in *. Qed.

Lemma ld_eq {A} (b b' : list A) : (∀ i, ld b i = ld b' i) → b = b'.
Proof.
  intros H. apply list_eq. intros i. specialize (H (Z.of_nat i)).
  unfold ld in H. rewrite !bool_decide_true in H by lia. by rewrite Nat2Z.id in H.
Qed.

Lemma stn_Some {A} (b : list A) off vs :
  0 <= off → off + blen vs <= blen b →
  stn b off vs = Some (list_inserts (Z.to_nat off) vs b).
Proof. intros. unfold stn. by rewrite bool_decide_true. Qed.

(** What a successful store does: the length is kept, and exactly the bytes
    of the stored range change. *)
Lemma stn_spec {A} (b b' : list A) off vs :
  stn b off vs = Some b' →
  blen b' = blen b ∧
  ∀ j, ld b' j = if bool_decide (off <= j < off + blen vs)
                 then ld vs (j - off) else ld b j.
Proof.
  unfold stn. case_bool_decide as Hb; [|done]. intros [= <-].
  unfold blen in *. rewrite length_inserts. split; [done|].
  intros j. unfold ld. destruct (decide (0 <= j)).
  2:{ rewrite bool_decide_false by lia. rewrite bool_decide_false by lia. done. }
  rewrite (bool_decide_true (0 <= j)) by lia.
  case_bool_decide as Hj.
  - rewrite bool_decide_true by lia.
    rewrite list_lookup_inserts by lia. f_equal. lia.
  - destruct (decide (j < off)).
    + rewrite list_lookup_inserts_lt by lia. done.
    + rewrite list_lookup_inserts_ge by lia. done.
Qed.

Lemma stn_defined {A} (b : list A) off vs :
  0 <= off → off + blen vs <= blen b → ∃ b', stn b off vs = Some b'.
Proof. intros. rewrite stn_Some by done. eauto. Qed.

Lemma stn_in_bounds {A} (b b' : list A) off vs :
  stn b off vs = Some b' → 0 <= off ∧ off + blen vs <= blen b.
Proof. unfold stn. by case_bool_decide. Qed.

Lemma ldn_Some {A} (b : list A) off n vs :
  ldn b off n = Some vs →
  blen vs = n ∧ 0 <= off ∧ off + n <= blen b ∧
  ∀ k, 0 <= k < n → ld vs k = ld b (off + k).
Proof.
  unfold ldn. case_bool_decide as Hb; [|done]. intros [= <-].
  unfold blen in *. rewrite length_take, length_drop.
  split_and!; [lia..|]. intros k Hk. unfold ld.
  rewrite !bool_decide_true by lia.
  rewrite lookup_take_lt by lia. rewrite lookup_drop. f_equal. lia.
Qed.

Lemma ldn_defined {A} (b : list A) off n :
  0 <= n → 0 <= off → off + n <= blen b → ∃ vs, ldn b off n = Some vs.
Proof. intros. unfold ldn. rewrite bool_decide_true by done. eauto. Qed.

(** [memcpy] inside one buffer (the ranges may not overlap in C; the code
    never copies overlapping ones). *)
Definition copyn {A} (b : list A) (dst src n : Z) : option (list A) :=
  vs ← ldn b src n; stn b dst vs.

Lemma copyn_spec {A} (b : list A) dst src n :
  0 <= n → 0 <= src → src + n <= blen b → 0 <= dst → dst + n <= blen b →
  ∃ b', copyn b dst src n = Some b' ∧ blen b' = blen b ∧
    ∀ j, ld b' j = if bool_decide (dst <= j < dst + n) then ld b (src + (j - dst)) else ld b j.
Proof.
  intros. unfold copyn. destruct (ldn_defined b src n) as [vs E]; [lia..|].
  rewrite E. apply ldn_Some in E as (Hn & _ & _ & Hk). simpl.
  destruct (stn_defined b dst vs) as [b' E]; [lia..|].
  exists b'. split; [done|]. apply stn_spec in E as [? E]. split; [done|].
  intros j. rewrite E, Hn. case_bool_decide; [|done]. apply Hk. lia.
Qed.

Lemma is_bytes_ld (b : list Z) : is_bytes b ↔ ∀ i v, ld b i = Some v → is_byte v.
Proof.
  split; [intros ? ? ?; by apply ld_byte|].
  intros H. apply Forall_lookup_2. intros i v E. apply (H (Z.of_nat i)).
  unfold ld. rewrite bool_decide_true by lia. by rewrite Nat2Z.id.
Qed.

Lemma bget_cons v vs i : bget (v :: vs) i = if bool_decide (i = 0) then v else bget vs (i - 1).
Proof.
  unfold bget, ld. case_bool_decide as E; case_bool_decide; subst; simpl; try done; try lia.
  - rewrite bool_decide_true by lia.
    replace (Z.to_nat i) with (S (Z.to_nat (i - 1))) by lia. done.
  - rewrite bool_decide_false by lia. done.
Qed.

Create HintDb buffers.
Create Rewrite HintDb buffers.
#[export] Hint Resolve blen_nonneg bget_byte : buffers.
#[export] Hint Rewrite @ld_zero @ld_one @ld_two @ld_three : buffers.

(** Equality of two expressions over loads, the addresses by arithmetic. *)
Ltac same_loads :=
  repeat lazymatch goal with
  | |- bget ?b ?i = bget ?b ?j => first [apply (f_equal (bget b)); lia | progress f_equal]
  | |- _ => progress f_equal
  end.

(** ** Counted loops: [for (i = a; i < b; i += s) body] *)

Definition zrange_len (a b s : Z) : Z := Z.max 0 ((b - a + s - 1) / s).

Definition zrange (a b s : Z) : list Z := (λ k, a + s * k) <$> seqZ 0 (zrange_len a b s).

(** The value of the index when the loop has ended. *)
Definition range_end (a b s : Z) : Z := a + s * zrange_len a b s.

Fixpoint foldM {A B} (f : B → A → option B) (l : list A) (acc : B) : option B :=
  match l with
  | [] => Some acc
  | x :: l' => acc' ← f acc x; foldM f l' acc'
  end.

Definition for_range {B} (a b s : Z) (body : B → Z → option B) (acc : B) : option B :=
  foldM body (zrange a b s) acc.

Lemma foldM_app {A B} (f : B → A → option B) l1 l2 acc :
  foldM f (l1 ++ l2) acc = foldM f l1 acc ≫= foldM f l2.
Proof.
  revert acc. induction l1 as [|x l1 IH]; intros acc; simpl; [done|].
  destruct (f acc x); simpl; [apply IH|done].
Qed.

Lemma zrange_len_step (a b s : Z) :
  0 < s → a < b → zrange_len a b s = 1 + zrange_len (a + s) b s.
Proof.
  intros. unfold zrange_len.
  replace (b - a + s - 1) with ((b - (a + s) + s - 1) + 1 * s) by ring.
  rewrite Z.div_add by lia.
  assert (0 <= (b - (a + s) + s - 1) / s) by (apply Z.div_pos; lia). lia.
Qed.

Lemma zrange_len_done (a b s : Z) : 0 < s → b <= a → zrange_len a b s = 0.
Proof.
  intros. unfold zrange_len.
  assert ((b - a + s - 1) / s < 1) by (apply Z.div_lt_upper_bound; lia). lia.
Qed.

Lemma zrange_nil a b s : 0 < s → b <= a → zrange a b s = [].
Proof. intros. unfold zrange. by rewrite zrange_len_done. Qed.

Lemma zrange_cons a b s : 0 < s → a < b → zrange a b s = a :: zrange (a + s) b s.
Proof.
  intros. unfold zrange. rewrite zrange_len_step by lia.
  assert (0 <= zrange_len (a + s) b s) by (unfold zrange_len; lia).
  rewrite seqZ_cons by lia. rewrite fmap_cons. f_equal; [lia|].
  replace (Z.pred (1 + zrange_len (a + s) b s)) with (zrange_len (a + s) b s) by lia.
  rewrite <- (fmap_add_seqZ 1 0). rewrite <- list_fmap_compose.
  apply list_fmap_ext. intros i k _. simpl. lia.
Qed.

Lemma range_end_done a b s : 0 < s → b <= a → range_end a b s = a.
Proof. intros. unfold range_end. rewrite zrange_len_done by lia. lia. Qed.

Lemma range_end_step a b s : 0 < s → a < b → range_end a b s = range_end (a + s) b s.
Proof. intros. unfold range_end. rewrite (zrange_len_step a) by lia. lia. Qed.

Lemma range_end_unit a b : a <= b → range_end a b 1 = b.
Proof. intros. unfold range_end, zrange_len. rewrite Z.div_1_r. lia. Qed.

(** Induction along a counted loop. *)
Lemma zrange_ind (b s : Z) (P : Z → Prop) :
  0 < s → (∀ a, b <= a → P a) → (∀ a, a < b → P (a + s) → P a) → ∀ a, P a.
Proof.
  intros Hs Hdone Hstep a.
  remember (Z.to_nat (b - a)) as n eqn:En.
  revert a En. induction (lt_wf n) as [n _ IH]. intros a ->.
  destruct (decide (b <= a)); [by apply Hdone|].
  apply Hstep; [lia|]. eapply IH; [|done]. lia.
Qed.

Lemma range_end_ge a b s : 0 < s → b <= range_end a b s.
Proof.
  intros Hs. revert a. apply (zrange_ind b s); [done|..].
  - intros. rewrite range_end_done by lia. lia.
  - intros. rewrite range_end_step by lia. done.
Qed.

Lemma elem_of_zrange a b s i :
  0 < s → i ∈ zrange a b s ↔ ∃ k, 0 <= k ∧ i = a + s * k ∧ i < b.
Proof.
  intros Hs. revert a. apply (zrange_ind b s); [done|..].
  - intros a ?. rewrite zrange_nil by lia. split; [by intros ?%not_elem_of_nil|].
    intros (k & ? & -> & ?). nia.
  - intros a ? IH. rewrite zrange_cons by lia. rewrite elem_of_cons, IH. split.
    + intros [->|(k & ? & -> & ?)]; [exists 0; lia|exists (k + 1); lia].
    + intros (k & ? & -> & ?). destruct (decide (k = 0)) as [->|]; [left; lia|].
      right. exists (k - 1). lia.
Qed.

(** The invariant rule for a counted loop: total (the loop is defined) and
    exact (the invariant holds at the final index). *)
Lemma for_range_inv {B} (P : Z → B → Prop) a b s (body : B → Z → option B) acc :
  0 < s → P a acc →
  (∀ i x, a <= i < b → (s | i - a) → P i x → ∃ y, body x i = Some y ∧ P (i + s) y) →
  ∃ r, for_range a b s body acc = Some r ∧ P (range_end a b s) r.
Proof.
  intros Hs. unfold for_range. revert acc.
  enough (∀ i, a <= i → (s | i - a) → ∀ acc, P i acc →
    (∀ i x, a <= i < b → (s | i - a) → P i x → ∃ y, body x i = Some y ∧ P (i + s) y) →
    ∃ r, foldM body (zrange i b s) acc = Some r ∧ P (range_end i b s) r) as H.
  { intros acc. apply H; [lia|]. exists 0. lia. }
  intros i Hi0 Hdiv. revert i Hi0 Hdiv.
  refine (zrange_ind b s _ Hs _ _).
  - intros i ? _ _ acc HP _. rewrite zrange_nil, range_end_done by lia. simpl; eauto.
  - intros i Hi IH Hai Hd acc HP Hbody. rewrite zrange_cons, range_end_step by lia. simpl.
    destruct (Hbody i acc) as (y & -> & Hy); [lia|done..|]. simpl.
    apply IH; try done; [lia|].
    replace (i + s - a) with ((i - a) + 1 * s) by ring.
    apply Z.divide_add_r; [done|]. by exists 1.
Qed.

(** A loop that stops on undefined behaviour has gone through an invariant. *)
Lemma foldM_inv {A B} (P : list A → B → Prop) (f : B → A → option B) l acc r :
  P l acc → (∀ x l' y y', P (x :: l') y → f y x = Some y' → P l' y') →
  foldM f l acc = Some r → P [] r.
Proof.
  intros HP Hstep. revert acc HP. induction l as [|x l IH]; intros acc HP E; simpl in E.
  - by injection E as <-.
  - apply bind_Some_inv in E as (y & E & E'). eauto.
Qed.

(** ** Allocation

    [malloc], [realloc] and [new[]] may fail and return memory with
    indeterminate contents: an allocator is a function from the size to the
    fresh block, [None] when the allocation fails. *)

Definition allocator := Z → option (list Z).

Class AllocOk (heap : allocator) : Prop := {
  alloc_len : ∀ n b, heap n = Some b → blen b = n;
  alloc_bytes : ∀ n b, heap n = Some b → is_bytes b;
}.

(** [realloc] keeps the old contents as a prefix. *)
Definition realloc (heap : allocator) (old : list Z) (n : Z) : option (list Z) :=
  fresh ← heap n; Some (take (Z.to_nat n) (old ++ drop (length old) fresh)).

(** A heap that always succeeds and returns zeroed memory. *)
Definition zero_heap : allocator :=
  λ n, if bool_decide (0 <= n) then Some (replicate (Z.to_nat n) 0) else None.

#[export] Instance zero_heap_ok : AllocOk zero_heap.
Proof.
  split; intros n b; unfold zero_heap; case_bool_decide; try done; intros [= <-].
  - unfold blen. rewrite length_replicate. lia.
  - apply Forall_replicate. done.
Qed.

(** A signed [int] expression whose value does not fit is undefined. *)
Definition ck32 (z : Z) : option Z :=
  if bool_decide (INT_MIN <= z <= INT_MAX) then Some z else None.

Lemma ck32_Some z : INT_MIN <= z <= INT_MAX → ck32 z = Some z.
Proof. intros. unfold ck32. by rewrite bool_decide_true. Qed.

(** ** Buffers filled from a base

    [filled f base n b0 b]: [b] is [b0] with the [n] elements from [base] on
    replaced by [f 0, f 1, ...]. *)

Definition filled {A} (f : Z → option A) (base n : Z) (b0 b : list A) : Prop :=
  blen b = blen b0 ∧
  ∀ j, ld b j = if bool_decide (base <= j < base + n) then f (j - base) else ld b0 j.

Lemma filled_0 {A} (f : Z → option A) base b : filled f base 0 b b.
Proof. split; [done|]. intros j. by rewrite bool_decide_false by lia. Qed.

Lemma filled_stn {A} (f : Z → option A) base n b0 b vs :
  filled f base n b0 b → 0 <= base → 0 <= n → base + n + blen vs <= blen b0 →
  (∀ k, 0 <= k < blen vs → ld vs k = f (n + k)) →
  ∃ b', stn b (base + n) vs = Some b' ∧ filled f base (n + blen vs) b0 b'.
Proof.
  intros [Hl Hf] ? ? ? Hk. pose proof (blen_nonneg vs).
  destruct (stn_defined b (base + n) vs) as [b' E]; [lia..|].
  exists b'. split; [done|]. apply stn_spec in E as [El E].
  split; [lia|]. intros j. rewrite E, Hf.
  repeat case_bool_decide; try lia; try done;
    rewrite Hk by lia; f_equal; lia.
Qed.

Lemma filled_st {A} (f : Z → option A) base n b0 b v i :
  filled f base n b0 b → 0 <= base → 0 <= n → base + n < blen b0 → f n = Some v → i = base + n →
  ∃ b', st b i v = Some b' ∧ filled f base (n + 1) b0 b'.
Proof.
  intros ? ? ? ? Hv ->. unfold st.
  apply (filled_stn f base n b0 b [v]); try done.
  - change (blen [v]) with 1. lia.
  - change (blen [v]) with 1. intros k ?. replace k with 0 by lia. by rewrite Z.add_0_r.
Qed.

Lemma filled_length {A} (f : Z → option A) base n b0 b : filled f base n b0 b → blen b = blen b0.
Proof. by intros [? _]. Qed.

Lemma filled_in {A} (f : Z → option A) base n b0 b k :
  filled f base n b0 b → 0 <= k < n → ld b (base + k) = f k.
Proof.
  intros [_ Hf] ?. rewrite Hf, bool_decide_true by lia. f_equal. lia.
Qed.

Lemma filled_out {A} (f : Z → option A) base n b0 b j :
  filled f base n b0 b → j < base ∨ base + n <= j → ld b j = ld b0 j.
Proof. intros [_ Hf] ?. by rewrite Hf, bool_decide_false by lia. Qed.

Lemma filled_bytes f base n b0 b :
  filled f base n b0 b → is_bytes b0 →
  (∀ k v, 0 <= k < n → f k = Some v → is_byte v) → is_bytes b.
Proof.
  intros [_ Hf] H0 Hk. apply is_bytes_ld. intros j v. rewrite Hf.
  case_bool_decide; [apply Hk; lia|by apply ld_byte].
Qed.

(** Pixel [x], channel [k] of an interleaved image with [n] channels. *)
Lemma px_index n x k : 0 <= k < n → (n * x + k) / n = x ∧ (n * x + k) mod n = k.
Proof.
  intros. replace (n * x + k) with (k + x * n) by ring.
  rewrite Z.div_add, Z.div_small, Z.mod_add, Z.mod_small by lia. lia.
Qed.

(** Pixel [(y, x)], channel [k] of an interleaved image [w] pixels wide with
    [n] channels: the addresses of different pixels are apart. *)
Definition px_addr (n w y x k : Z) : Z := (y * w + x) * n + k.

Lemma px_addr_same n w y x k y0 x0 :
  0 <= x < w → 0 <= x0 < w → 0 <= k < n →
  px_addr n w y0 x0 0 <= px_addr n w y x k < px_addr n w y0 x0 n ↔ y = y0 ∧ x = x0.
Proof.
  intros. unfold px_addr. split; [|intros [-> ->]; lia].
  intros [? ?]. assert (y * w + x = y0 * w + x0) as E by nia.
  assert (∀ a b, 0 <= b < w → (a * w + b) / w = a) as Hdiv.
  { intros. rewrite Z.div_add_l, Z.div_small by lia. lia. }
  assert (y = y0) as -> by (rewrite <- (Hdiv y x), E, Hdiv; lia). lia.
Qed.

Lemma px_addr_row n w y x k y0 :
  0 <= x < w → 0 <= k < n →
  px_addr n w y0 0 0 <= px_addr n w y x k < px_addr n w (y0 + 1) 0 0 ↔ y = y0.
Proof.
  intros. unfold px_addr. split; [intros [H1 H2]|intros ->; nia].
  assert (y0 * w <= y * w + x < (y0 + 1) * w) by nia. nia.
Qed.

Lemma px_addr_bounds n w h y x k :
  0 <= y < h → 0 <= x < w → 0 <= k < n → 0 <= px_addr n w y x k < w * h * n.
Proof.
  intros. unfold px_addr. assert (0 <= y * w + x <= w * h - 1) by nia.
  generalize dependent (y * w + x). intros. nia.
Qed.
