(* ===== verification/Monad.v ===== *)
(** * Stateful code: record update and the state monad

    A C++ method becomes a function on its object's state.  [ST S A] is the
    type of computations on a state [S] that return an [A]; undefined
    behaviour (and an abort of the process) is [None].  The predicate
    transformers [wp] (the computation is defined and ends in [Q]) and [wlp]
    (if it is defined, it ends in [Q]) come with one rule per construct. *)

From S2P Require Import Prelude.

(** ** Record update: [r <| field := v |>] *)

(** The eta-expansion of a record: its constructor applied to its own
    projections. *)
Class Eta (R : Type) := eta_of : R → R.

Class FieldSet {R T} (p : R → T) := field_set : T → R → R.
#[global] Hint Mode FieldSet - - ! : typeclass_instances.
Arguments field_set {R T} p {_} v r.

Ltac solve_field_set :=
  lazymatch goal with
  | |- @FieldSet ?R ?T ?p =>
      let inst := constr:(ltac:(typeclasses eauto) : Eta R) in
      let body := eval hnf in inst in
      lazymatch eval pattern p in body with
      | ?F _ => let f := eval cbv beta in (λ (v : T) (r : R), F (λ _, v) r) in exact f
      end
  end.

#[global] Hint Extern 1 (FieldSet _) => solve_field_set : typeclass_instances.

Notation "r <| p := v |>" := (field_set p v r)
  (at level 1, left associativity, p at level 200, v at level 200, format "r  <| p  :=  v |>").

(** ** The state monad *)

Definition ST (S A : Type) : Type := S → option (A * S).

#[export] Instance ST_ret S : MRet (ST S) := λ A a s, Some (a, s).
#[export] Instance ST_bind S : MBind (ST S) :=
  λ A B k m s, match m s with Some (a, s') => k a s' | None => None end.

Definition get_st {S} : ST S S := λ s, Some (s, s).
Definition put_st {S} (s : S) : ST S () := λ _, Some ((), s).
Definition modify {S} (f : S → S) : ST S () := λ s, Some ((), f s).
Definition gets {S A} (f : S → A) : ST S A := λ s, Some (f s, s).
(** Undefined behaviour, or an abort. *)
Definition ub {S A} : ST S A := λ _, None.
Definition lift {S A} (o : option A) : ST S A := λ s, match o with Some a => Some (a, s) | None => None end.
Definition when {S} (b : bool) (m : ST S ()) : ST S () := if b then m else mret ().

(** Iterate over a list of loop indices. *)
Fixpoint forM {S A} (l : list A) (body : A → ST S ()) : ST S () :=
  match l with [] => mret () | x :: l' => body x;; forM l' body end.

(** A loop over a list that can be left early with a value. *)
Fixpoint forM_exit {S A B} (l : list A) (body : A → ST S (option B)) : ST S (option B) :=
  match l with
  | [] => mret None
  | x :: l' => r ← body x; match r with Some b => mret (Some b) | None => forM_exit l' body end
  end.

Definition wp {S A} (m : ST S A) (Q : A → S → Prop) (s : S) : Prop :=
  match m s with Some (a, s') => Q a s' | None => False end.
Definition wlp {S A} (m : ST S A) (Q : A → S → Prop) (s : S) : Prop :=
  match m s with Some (a, s') => Q a s' | None => True end.

Section Rules.
Context {S : Type}.
Implicit Types (s : S).

Lemma wlp_bind {A B} (m : ST S A) (k : A → ST S B) Q s :
  wlp m (λ a, wlp (k a) Q) s → wlp (m ≫= k) Q s.
Proof. unfold wlp, mbind, ST_bind. by destruct (m s) as [[a s']|]. Qed.
Lemma wlp_ret {A} (a : A) Q s : Q a s → wlp (mret a) Q s.
Proof. done. Qed.
Lemma wlp_gets {A} (f : S → A) Q s : Q (f s) s → wlp (gets f) Q s.
Proof. done. Qed.
Lemma wlp_get Q s : Q s s → wlp get_st Q s.
Proof. done. Qed.
Lemma wlp_put s' Q s : Q () s' → wlp (put_st s') Q s.
Proof. done. Qed.
Lemma wlp_modify f Q s : Q () (f s) → wlp (modify f) Q s.
Proof. done. Qed.
Lemma wlp_ub {A} (Q : A → S → Prop) s : wlp ub Q s.
Proof. done. Qed.
Lemma wlp_lift {A} (o : option A) Q s : (∀ a, o = Some a → Q a s) → wlp (lift o) Q s.
Proof. unfold wlp, lift. destruct o; auto. Qed.
Lemma wlp_if {A} (b : bool) (m1 m2 : ST S A) Q s :
  (b = true → wlp m1 Q s) → (b = false → wlp m2 Q s) → wlp (if b then m1 else m2) Q s.
Proof. destruct b; auto. Qed.
Lemma wlp_mono {A} (m : ST S A) (Q Q' : A → S → Prop) s :
  wlp m Q s → (∀ a s', Q a s' → Q' a s') → wlp m Q' s.
Proof. unfold wlp. destruct (m s) as [[a s']|]; auto. Qed.
Lemma wlp_when (b : bool) (m : ST S ()) Q s :
  (b = true → wlp m Q s) → (b = false → Q () s) → wlp (when b m) Q s.
Proof. intros Ht Hf. destruct b; [by apply Ht|by apply Hf]. Qed.
(** A loop keeps an invariant its body keeps. *)
Lemma wlp_forM {A} (I : S → Prop) (l : list A) body s :
  I s → (∀ x s, x ∈ l → I s → wlp (body x) (λ _, I) s) → wlp (forM l body) (λ _, I) s.
Proof.
  intros HI Hb. revert s HI. induction l as [|x l IH]; intros s HI; [done|]. simpl.
  apply wlp_bind. eapply wlp_mono; [apply Hb; [left|done]|].
  intros [] s' ?. apply IH; [|done]. intros y t ?. apply Hb. by right.
Qed.
Lemma wlp_forM_exit {A B} (I : S → Prop) (Q : option B → S → Prop) (l : list A) body s :
  I s → (∀ x s, x ∈ l → I s →
    wlp (body x) (λ r s', match r with Some b => Q (Some b) s' | None => I s' end) s) →
  (∀ s, I s → Q None s) → wlp (forM_exit l body) Q s.
Proof.
  intros HI Hb HN. revert s HI. induction l as [|x l IH]; intros s HI; [by apply HN|]. simpl.
  apply wlp_bind. eapply wlp_mono; [apply Hb; [left|done]|].
  intros [b|] s' ?; [done|]. apply IH; [|done]. intros y t ?. apply Hb. by right.
Qed.

(** Counted loops with an indexed invariant. *)
Lemma wlp_forM_range (P : Z → S → Prop) a b body s :
  P a s → (∀ i s, a <= i < b → P i s → wlp (body i) (λ _, P (i + 1)) s) →
  wlp (forM (zrange a b 1) body) (λ _, P (Z.max a b)) s.
Proof.
  revert a s. refine (zrange_ind b 1 _ _ _ _); [lia|..].
  - intros a ? s HP _. rewrite zrange_nil, Z.max_l by lia. done.
  - intros a ? IH s HP Hb. rewrite zrange_cons by lia. simpl. apply wlp_bind.
    eapply wlp_mono; [apply Hb; [lia|done]|]. intros [] s' ?.
    replace (Z.max a b) with (Z.max (a + 1) b) by lia. apply IH; [done|].
    intros i t ?. apply Hb. lia.
Qed.
Lemma wlp_forM_exit_range {B} (P : Z → S → Prop) (Q : option B → S → Prop) a b body s :
  P a s →
  (∀ i s, a <= i < b → P i s →
    wlp (body i) (λ r s', match r with Some e => Q (Some e) s' | None => P (i + 1) s' end) s) →
  (∀ s, P (Z.max a b) s → Q None s) → wlp (forM_exit (zrange a b 1) body) Q s.
Proof.
  revert a s. refine (zrange_ind b 1 _ _ _ _); [lia|..].
  - intros a ? s HP _. rewrite zrange_nil, Z.max_l by lia. intros HN. by apply HN.
  - intros a ? IH s HP Hb HN. rewrite zrange_cons by lia. simpl. apply wlp_bind.
    eapply wlp_mono; [apply Hb; [lia|done]|]. intros [e|] s' ?; [done|].
    replace (Z.max a b) with (Z.max (a + 1) b) in HN by lia. apply IH; [done| |done].
    intros i t ?. apply Hb. lia.
Qed.

Lemma wp_bind {A B} (m : ST S A) (k : A → ST S B) Q s :
  wp m (λ a, wp (k a) Q) s → wp (m ≫= k) Q s.
Proof. unfold wp, mbind, ST_bind. by destruct (m s) as [[a s']|]. Qed.
Lemma wp_mono {A} (m : ST S A) (Q Q' : A → S → Prop) s :
  wp m Q s → (∀ a s', Q a s' → Q' a s') → wp m Q' s.
Proof. unfold wp. destruct (m s) as [[a s']|]; auto. Qed.
Lemma wp_lift {A} (o : option A) (Q : A → S → Prop) s : (∃ a, o = Some a ∧ Q a s) → wp (lift o) Q s.
Proof. by intros (a & -> & ?). Qed.
Lemma wp_forM_range (P : Z → S → Prop) a b body s :
  P a s → (∀ i s, a <= i < b → P i s → wp (body i) (λ _, P (i + 1)) s) →
  wp (forM (zrange a b 1) body) (λ _, P (Z.max a b)) s.
Proof.
  revert a s. refine (zrange_ind b 1 _ _ _ _); [lia|..].
  - intros a ? s HP _. rewrite zrange_nil, Z.max_l by lia. done.
  - intros a ? IH s HP Hb. rewrite zrange_cons by lia. simpl. apply wp_bind.
    eapply wp_mono; [apply Hb; [lia|done]|]. intros [] s' ?.
    replace (Z.max a b) with (Z.max (a + 1) b) by lia. apply IH; [done|].
    intros i t ?. apply Hb. lia.
Qed.
(** Definedness and partial correctness combine. *)
Lemma wp_and {A} (m : ST S A) (Q1 Q2 : A → S → Prop) s :
  wp m Q1 s → wlp m Q2 s → wp m (λ a s', Q1 a s' ∧ Q2 a s') s.
Proof. unfold wp, wlp. by destruct (m s) as [[a s']|]. Qed.
Lemma wp_wlp {A} (m : ST S A) Q s : wp m Q s → wlp m Q s.
Proof. unfold wp, wlp. by destruct (m s) as [[a s']|]. Qed.
Lemma wp_run {A} (m : ST S A) Q s : wp m Q s ↔ ∃ a s', m s = Some (a, s') ∧ Q a s'.
Proof.
  unfold wp. destruct (m s) as [[a s']|]; split; [eauto|by intros (? & ? & [= -> ->] & ?)|done|].
  by intros (? & ? & ? & ?).
Qed.
Lemma wlp_run {A} (m : ST S A) Q s : wlp m Q s ↔ ∀ a s', m s = Some (a, s') → Q a s'.
Proof.
  unfold wlp. destruct (m s) as [[a s']|]; split; [by intros ? ? ? [= -> ->]|auto|done|done].
Qed.
End Rules.

(** One step of symbolic execution in [wlp]; the case analyses leave their
    equations in the context. *)
Ltac wlp_step :=
  lazymatch goal with
  | |- wlp (mbind _ _) _ _ => apply wlp_bind
  | |- wlp (mret _) _ _ => apply wlp_ret
  | |- wlp (gets _) _ _ => apply wlp_gets
  | |- wlp get_st _ _ => apply wlp_get
  | |- wlp (put_st _) _ _ => apply wlp_put
  | |- wlp (modify _) _ _ => apply wlp_modify
  | |- wlp ub _ _ => apply wlp_ub
  | |- wlp (lift _) _ _ => apply wlp_lift; intros ? ?
  | |- wlp (when _ _) _ _ => apply wlp_when; intros ?
  | |- wlp (if ?b then _ else _) _ _ => first [apply wlp_if; intros ? | destruct b eqn:?]
  | |- wlp (let '(_, _) := ?x in _) _ _ => destruct x eqn:?
  | |- wlp (match ?x with _ => _ end) _ _ => destruct x eqn:?
  end.
Ltac wlp_steps := repeat (wlp_step; cbn beta zeta).
