(* ===== verification/Neon.v ===== *)
(** * ARM NEON intrinsics

    The intrinsics of <arm_neon.h> that the ISP code calls, on vectors
    represented as the list of their lanes (lane 0 first).  Lane arithmetic is
    done at the lane width of the intrinsic: the suffix says which.  Loads and
    stores go through the bounds-checked buffers of the prelude. *)

From S2P Require Import Prelude.

(** ** Loads and stores *)

Definition vld1_u8 (b : list Z) (off : Z) : option (list Z) := ldn b off 8.

Fixpoint every (n k : nat) (l : list Z) : list Z :=
  (* the elements of [l] at positions congruent to [k] modulo [S n] *)
  match l with
  | [] => []
  | x :: l' => match k with O => x :: every n n l' | S k' => every n k' l' end
  end.

(** De-interleaving load of [n] lanes of three channels. *)
Definition vld3 (n : Z) (b : list Z) (off : Z) : option (list Z * list Z * list Z) :=
  vs ← ldn b off (3 * n);
  Some (every 2 0 vs, every 2 1 vs, every 2 2 vs).

Definition vld3_u8 := vld3 8.
Definition vld3q_u8 := vld3 16.

Definition vst1_u8 (b : list Z) (off : Z) (v : list Z) : option (list Z) := stn b off v.

Fixpoint interleave2 (a b : list Z) : list Z :=
  match a, b with x :: a', y :: b' => x :: y :: interleave2 a' b' | _, _ => [] end.

Definition vst2_u8 (b : list Z) (off : Z) (v0 v1 : list Z) : option (list Z) :=
  stn b off (interleave2 v0 v1).

Fixpoint interleave4 (a b c d : list Z) : list Z :=
  match a, b, c, d with
  | x :: a', y :: b', z :: c', t :: d' => x :: y :: z :: t :: interleave4 a' b' c' d'
  | _, _, _, _ => []
  end.

Definition vst4_u8 (b : list Z) (off : Z) (v0 v1 v2 v3 : list Z) : option (list Z) :=
  stn b off (interleave4 v0 v1 v2 v3).

(** ** Lane shuffles *)

Definition vuzp_u8 (a b : list Z) : list Z * list Z := (every 1 0 (a ++ b), every 1 1 (a ++ b)).
Definition vext_u8 (a b : list Z) (n : nat) : list Z := take 8 (drop n (a ++ b)).
Definition vget_low (v : list Z) : list Z := take (Nat.div (length v) 2) v.
Definition vget_high (v : list Z) : list Z := drop (Nat.div (length v) 2) v.
Definition vcombine (lo hi : list Z) : list Z := lo ++ hi.
Definition vdup (n : nat) (x : Z) : list Z := replicate n x.

(** ** Lane arithmetic *)

Definition vaddl_u8 (a b : list Z) : list Z := zip_with (λ x y, u16 (x + y)) a b.
Definition vaddq_u16 (a b : list Z) : list Z := zip_with (λ x y, u16 (x + y)) a b.
Definition vshrn_n_u16 (a : list Z) (n : Z) : list Z := (λ x, u8 (x ≫ n)) <$> a.
Definition vrhadd_u8 (a b : list Z) : list Z := zip_with (λ x y, u8 ((x + y + 1) ≫ 1)) a b.
Definition vmovl_u8 (a : list Z) : list Z := a.
Definition vreinterpretq_s16_u16 (a : list Z) : list Z := i16 <$> a.
Definition vmull_s16 (a b : list Z) : list Z := zip_with (λ x y, i32 (x * y)) a b.
Definition vmlal_s16 (acc a b : list Z) : list Z :=
  zip_with (λ x y, i32 (x + y)) acc (zip_with (λ x y, x * y) a b).
Definition vaddq_s32 (a b : list Z) : list Z := zip_with (λ x y, i32 (x + y)) a b.
Definition vshrn_n_s32 (a : list Z) (n : Z) : list Z := (λ x, i16 (x ≫ n)) <$> a.
Definition vaddq_s16 (a b : list Z) : list Z := zip_with (λ x y, i16 (x + y)) a b.
Definition vqmovun_s16 (a : list Z) : list Z := (λ x, Z.max 0 (Z.min 255 x)) <$> a.
Definition vmull_u16 (a b : list Z) : list Z := zip_with (λ x y, u32 (x * y)) a b.
Definition vaddq_u32 (a b : list Z) : list Z := zip_with (λ x y, u32 (x + y)) a b.
Definition vshrn_n_u32 (a : list Z) (n : Z) : list Z := (λ x, u16 (x ≫ n)) <$> a.
Definition vqmovn_u16 (a : list Z) : list Z := (λ x, Z.min 255 x) <$> a.

(** ** Vectors of known length

    The proofs about one batch enumerate its lanes: a list of known length is
    the list of its elements. *)

Lemma list_of_len8 {A} (l : list A) : blen l = 8 →
  ∃ a0 a1 a2 a3 a4 a5 a6 a7, l = [a0; a1; a2; a3; a4; a5; a6; a7].
Proof.
  unfold blen. intros H. do 8 (destruct l as [|? l]; [simpl in H; lia|]).
  destruct l; [|simpl in H; lia]. eauto 20.
Qed.

(** The eight lanes loaded by [vld1_u8]. *)
Lemma vld1_u8_lanes (b : list Z) off :
  0 <= off → off + 8 <= blen b →
  vld1_u8 b off = Some ((λ k, bget b (off + k)) <$> [0; 1; 2; 3; 4; 5; 6; 7]).
Proof.
  intros. unfold vld1_u8.
  destruct (ldn_defined b off 8) as [vs E]; [lia..|]. rewrite E. f_equal.
  apply ldn_Some in E as (Hlen & _ & _ & Hk).
  destruct (list_of_len8 vs Hlen) as (a0&a1&a2&a3&a4&a5&a6&a7&->).
  unfold bget. cbn [fmap list_fmap].
  rewrite <- !Hk by lia. reflexivity.
Qed.

(** [n] consecutive loads, as the image of the offsets. *)
Lemma ldn_bget (b : list Z) off n :
  0 <= n → 0 <= off → off + n <= blen b →
  ldn b off n = Some ((λ k, bget b (off + k)) <$> seqZ 0 n).
Proof.
  intros. destruct (ldn_defined b off n) as [vs E]; [lia..|]. rewrite E. f_equal.
  apply ldn_Some in E as (Hlen & _ & _ & Hk).
  assert (blen ((λ k, bget b (off + k)) <$> seqZ 0 n) = n) as Hl'.
  { unfold blen. rewrite length_fmap, length_seqZ. lia. }
  apply ld_eq. intros i. destruct (decide (0 <= i < n)).
  - rewrite Hk by lia. rewrite ld_bget by lia.
    unfold ld. rewrite bool_decide_true by lia.
    rewrite list_lookup_fmap, lookup_seqZ_lt by lia. simpl. do 3 f_equal. lia.
  - rewrite !ld_ge by lia. done.
Qed.
