(* ===== verification/Float32.v ===== *)
(** * Single-precision floats

    [float] is IEEE 754 binary32 with round-to-nearest-even: the operations of
    the standard library's [SpecFloat] at precision 24 and maximal exponent
    128.  Everything is executable; a conversion to an integer type that the
    value does not fit is undefined behaviour. *)

From S2P Require Import Prelude.
From Stdlib Require Import Floats.SpecFloat.

Definition f32 := spec_float.

Definition fadd : f32 → f32 → f32 := SFadd 24 128.
Definition fsub : f32 → f32 → f32 := SFsub 24 128.
Definition fmul : f32 → f32 → f32 := SFmul 24 128.
Definition fdiv : f32 → f32 → f32 := SFdiv 24 128.

(** C's [<], [>] and [==] on floats: false when an operand is a NaN. *)
Definition flt (a b : f32) : bool := SFltb a b.
Definition fgt (a b : f32) : bool := SFltb b a.
Definition feq (a b : f32) : bool := SFeqb a b.

(** [(float)z] *)
Definition f_of_Z (z : Z) : f32 := binary_normalize 24 128 z 0 false.

(** The literal [n.ddd] written as the quotient of two exact integers: the
    correctly rounded quotient is the literal's value. *)
Definition f_lit (num den : Z) : f32 := fdiv (f_of_Z num) (f_of_Z den).
Definition f_half : f32 := f_lit 1 2.

(** Truncation toward zero. *)
Definition f_trunc (f : f32) : option Z :=
  match f with
  | S754_zero _ => Some 0
  | S754_finite s m e =>
      let a := if 0 <=? e then Zpos m * 2 ^ e else Zpos m / 2 ^ (- e) in
      Some (if s then - a else a)
  | _ => None
  end.

(** [(int)f], also [(long)f] on the 32-bit target. *)
Definition f_to_int (f : f32) : option Z := f_trunc f ≫= ck32.

(** [(uint8_t)f] for a float: the truncated value must be a byte. *)
Definition f_to_u8 (f : f32) : option Z :=
  z ← f_trunc f; if bool_decide (is_byte z) then Some z else None.

Example f_of_Z_exact : f_trunc (f_of_Z 255) = Some 255.
Proof. reflexivity. Qed.
Example f_lit_085 : f_lit 85 100 = S754_finite false 14260634 (-24).
Proof. reflexivity. Qed.
Example f_trunc_neg : f_trunc (f_lit (-7) 2) = Some (-3).
Proof. reflexivity. Qed.

Lemma f_to_int_range f z : f_to_int f = Some z → INT_MIN <= z <= INT_MAX.
Proof.
  unfold f_to_int. intros (t & _ & E)%bind_Some_inv. unfold ck32 in E.
  case_bool_decide; [|done]. by injection E as <-.
Qed.

(** ** Order

    The clamps of the code only need the order of non-NaN floats. *)

Definition is_nan (f : f32) : bool := match f with S754_nan => true | _ => false end.

(** [x] clamped the way the code writes it: two tests, the lower one first. *)
Definition fclamp (lo hi x : f32) : f32 :=
  let x := if flt x lo then lo else x in if fgt x hi then hi else x.

Lemma fclamp_upper lo hi x : flt hi hi = false → fgt (fclamp lo hi x) hi = false.
Proof.
  unfold fclamp, fgt, flt. intros Hh. repeat case_match; auto.
Qed.

Lemma fclamp_lower lo hi x :
  flt lo lo = false → flt hi lo = false → flt (fclamp lo hi x) lo = false.
Proof.
  unfold fclamp, fgt, flt. intros Hl Hhl. repeat case_match; auto.
Qed.
