(* ===== verification/Demosaic.v ===== *)
(** * The Bayer demosaicer (camera/isp/DemosaicNEON.{h,cpp})

    [DemosaicNEON] turns a frame of right-aligned 10-bit Bayer samples into
    interleaved RGB.  The state is the parameters, the 8-bit scratch buffer
    and the black/white-level LUT; [initialize] builds them and [process] runs
    [raw10_to_8bit], then [neon_row] on every interior row, then [fill_edges].
    Pointers into a buffer are offsets into it. *)

From S2P Require Import Prelude Neon.

Record DemosaicParams := {
  dp_width : Z; dp_height : Z;      (* uint16_t *)
  dp_bayerPattern : Z;              (* uint8_t: 0=RGGB 1=GRBG 2=GBRG 3=BGGR *)
  dp_offset_x : Z; dp_offset_y : Z; (* uint8_t *)
  dp_blackLevel : Z; dp_whiteLevel : Z; (* uint16_t, 8-bit domain *)
}.

Record DemosaicNEON := {
  mParams : DemosaicParams;
  mInitialized : bool;
  mBayerBuf : option (list Z);
  mBayerBufSize : Z;
  mNormLut : list Z;
}.

(** The constructor: parameters zeroed, no scratch buffer. *)
Definition DemosaicNEON_new : DemosaicNEON := {|
  mParams := {| dp_width := 0; dp_height := 0; dp_bayerPattern := 0; dp_offset_x := 0;
                dp_offset_y := 0; dp_blackLevel := 0; dp_whiteLevel := 0 |};
  mInitialized := false; mBayerBuf := None; mBayerBufSize := 0;
  mNormLut := replicate 256 0 |}.

(** ** initialize *)

(** One entry of the normalization LUT. *)
Definition norm_entry (bl wl i : Z) : Z :=
  let den := if wl - bl <? 1 then 1 else wl - bl in
  let v := if i - bl <? 0 then 0 else i - bl in
  let v := Z.quot (v * 255) den in
  u8 (if v >? 255 then 255 else v).

Definition normLut (p : DemosaicParams) : list Z :=
  let wl := if dp_whiteLevel p =? 0 then 255 else dp_whiteLevel p in
  norm_entry (dp_blackLevel p) wl <$> zrange 0 256 1.

(** The return value and the new state; [None] is the overflow of the [int]
    product [width * height + 16]. *)
Definition initialize (heap : allocator) (d : DemosaicNEON) (p : DemosaicParams)
  : option (Z * DemosaicNEON) :=
  if (dp_width p =? 0) || (dp_height p =? 0) then Some (-1, d) else
  let d1 := {| mParams := p; mInitialized := mInitialized d; mBayerBuf := mBayerBuf d;
               mBayerBufSize := mBayerBufSize d; mNormLut := normLut p |} in
  needed ← ck32 (dp_width p * dp_height p + 16);
  if needed >? mBayerBufSize d1 then
    match realloc heap (default [] (mBayerBuf d1)) (needed + 64) with
    | None => Some (-1, d1)
    | Some buf =>
        Some (0, {| mParams := p; mInitialized := true; mBayerBuf := Some buf;
                    mBayerBufSize := needed + 64; mNormLut := mNormLut d1 |})
    end
  else Some (0, {| mParams := p; mInitialized := true; mBayerBuf := mBayerBuf d1;
                   mBayerBufSize := mBayerBufSize d1; mNormLut := mNormLut d1 |}).

(** ** raw10_to_8bit *)

Definition raw10_to_8bit (inb out : list Z) (total : Z) (lut : list Z) : option (list Z) :=
  for_range 0 total 1 (λ out i,
    lo ← ld inb (i * 2); hi ← ld inb (i * 2 + 1);
    let v := Z.land (Z.lor lo (hi ≪ 8)) 0x3FF in
    e ← ld lut (v ≫ 2);
    st out i e) out.

(** ** neon_row *)

Definition clamp (v : Z) : Z := u8 (if v ≫ 8 =? 0 then v else if v <? 0 then 0 else 255).

(** Column 0 has no left neighbour: the right one is used twice. *)
Definition neon_row_col0 (b8 : list Z) (row up dn t : Z) : option (list Z) :=
  val ← ld b8 row;
  r1 ← ld b8 (row + 1); u0 ← ld b8 up; d0 ← ld b8 dn;
  if t =? 0 then
    u1 ← ld b8 (up + 1); d1 ← ld b8 (dn + 1);
    Some [clamp val; clamp ((r1 + r1 + u0 + d0) ≫ 2); clamp ((u1 + u1 + d1 + d1) ≫ 2)]
  else if t =? 1 then
    Some [clamp ((r1 + r1) ≫ 1); clamp val; clamp ((u0 + d0) ≫ 1)]
  else if t =? 2 then
    Some [clamp ((u0 + d0) ≫ 1); clamp val; clamp ((r1 + r1) ≫ 1)]
  else
    u1 ← ld b8 (up + 1); d1 ← ld b8 (dn + 1);
    Some [clamp ((u1 + u1 + d1 + d1) ≫ 2); clamp ((r1 + r1 + u0 + d0) ≫ 2); clamp val].

(** The scalar formulas at a column [x] with both neighbours: the code writes
    them out three times (column 1, even and odd columns of the remainder). *)
Definition scalar_px (b8 : list Z) (row up dn x t : Z) : option (list Z) :=
  val ← ld b8 (row + x);
  if t =? 0 then
    rl ← ld b8 (row + x - 1); rr ← ld b8 (row + x + 1); u ← ld b8 (up + x); d ← ld b8 (dn + x);
    ul ← ld b8 (up + x - 1); ur ← ld b8 (up + x + 1);
    dl ← ld b8 (dn + x - 1); dr ← ld b8 (dn + x + 1);
    Some [clamp val; clamp ((rl + rr + u + d) ≫ 2); clamp ((ul + ur + dl + dr) ≫ 2)]
  else if t =? 1 then
    rl ← ld b8 (row + x - 1); rr ← ld b8 (row + x + 1); u ← ld b8 (up + x); d ← ld b8 (dn + x);
    Some [clamp ((rl + rr) ≫ 1); clamp val; clamp ((u + d) ≫ 1)]
  else if t =? 2 then
    rl ← ld b8 (row + x - 1); rr ← ld b8 (row + x + 1); u ← ld b8 (up + x); d ← ld b8 (dn + x);
    Some [clamp ((u + d) ≫ 1); clamp val; clamp ((rl + rr) ≫ 1)]
  else
    rl ← ld b8 (row + x - 1); rr ← ld b8 (row + x + 1); u ← ld b8 (up + x); d ← ld b8 (dn + x);
    ul ← ld b8 (up + x - 1); ur ← ld b8 (up + x + 1);
    dl ← ld b8 (dn + x - 1); dr ← ld b8 (dn + x + 1);
    Some [clamp ((ul + ur + dl + dr) ≫ 2); clamp ((rl + rr + u + d) ≫ 2); clamp val].

Definition neon_row_col1 (b8 : list Z) (row up dn t : Z) : option (list Z) :=
  scalar_px b8 row up dn 1 t.

(** The vectors one NEON batch computes at column [x]. *)
Record batch_vecs := {
  v_ev_center : list Z; v_od_center : list Z;
  v_hv_g : list Z; v_diag_b : list Z;
  v_od_h_r : list Z; v_od_v_b : list Z; v_ev_v_r : list Z;
  v_od_hv_g : list Z; v_od_diag_r8 : list Z; v_ev_h_b : list Z;
}.

Definition neon_batch_vecs (b8 : list Z) (row up dn x : Z) : option batch_vecs :=
  r_lo ← vld1_u8 b8 (row + x - 1);
  r_hi ← vld1_u8 b8 (row + x + 1);
  u_v ← vld1_u8 b8 (up + x);
  d_v ← vld1_u8 b8 (dn + x);
  u_lo ← vld1_u8 b8 (up + x - 1);
  d_lo ← vld1_u8 b8 (dn + x - 1);
  let ev_center := snd (vuzp_u8 r_lo r_lo) in
  let ev_left := fst (vuzp_u8 r_lo r_lo) in
  let od_center := fst (vuzp_u8 r_hi r_hi) in
  let od_right := snd (vuzp_u8 r_hi r_hi) in
  let ev_right := od_center in
  let u_even := fst (vuzp_u8 u_v u_v) in
  let u_odd := snd (vuzp_u8 u_v u_v) in
  let d_even := fst (vuzp_u8 d_v d_v) in
  let d_odd := snd (vuzp_u8 d_v d_v) in
  let u_diag := fst (vuzp_u8 u_lo u_lo) in
  let d_diag := fst (vuzp_u8 d_lo d_lo) in
  let hv_g := vshrn_n_u16 (vaddq_u16 (vaddl_u8 ev_left ev_right) (vaddl_u8 u_even d_even)) 2 in
  let diag_b := vshrn_n_u16 (vaddq_u16 (vaddl_u8 u_diag d_diag) (vaddl_u8 u_odd d_odd)) 2 in
  let od_h_r := vrhadd_u8 ev_center (vext_u8 ev_center od_right 1) in
  let od_v_b := vshrn_n_u16 (vaddl_u8 u_odd d_odd) 1 in
  let ev_v_sum := vaddl_u8 u_even d_even in
  let ev_v_r := vshrn_n_u16 ev_v_sum 1 in
  let od_h_sum := vaddl_u8 ev_center (vext_u8 ev_center od_right 1) in
  let od_hv_sum := vaddq_u16 od_h_sum (vaddl_u8 u_odd d_odd) in
  let od_hv_g := vshrn_n_u16 od_hv_sum 2 in
  let od_diag_l := vaddl_u8 u_even d_even in
  let od_diag_r := vaddl_u8 (vext_u8 u_even u_even 1) (vext_u8 d_even d_even 1) in
  let od_diag_sum := vaddq_u16 od_diag_l od_diag_r in
  let od_diag_r8 := vshrn_n_u16 od_diag_sum 2 in
  let ev_h_b := vrhadd_u8 ev_left od_center in
  Some {| v_ev_center := ev_center; v_od_center := od_center; v_hv_g := hv_g;
          v_diag_b := diag_b; v_od_h_r := od_h_r; v_od_v_b := od_v_b; v_ev_v_r := ev_v_r;
          v_od_hv_g := od_hv_g; v_od_diag_r8 := od_diag_r8; v_ev_h_b := ev_h_b |}.

(** The [switch (ev_type)] and [switch (od_type)] that pick the channels. *)
Definition select_ev (v : batch_vecs) (t : Z) : list Z * list Z * list Z :=
  if t =? 0 then (v_ev_center v, v_hv_g v, v_diag_b v)
  else if t =? 1 then (v_od_h_r v, v_ev_center v, v_od_v_b v)
  else if t =? 2 then (v_ev_v_r v, v_ev_center v, v_ev_h_b v)
  else (v_diag_b v, v_hv_g v, v_ev_center v).

Definition select_od (v : batch_vecs) (t : Z) : list Z * list Z * list Z :=
  if t =? 0 then (v_od_center v, v_od_hv_g v, v_od_diag_r8 v)
  else if t =? 1 then (v_od_h_r v, v_od_center v, v_od_v_b v)
  else if t =? 2 then (v_od_v_b v, v_od_center v, v_od_v_b v)
  else (v_od_diag_r8 v, v_od_hv_g v, v_od_center v).

(** Lane [i] of the selected channels. *)
Definition lane_px (sel : list Z * list Z * list Z) (i : Z) : option (list Z) :=
  let '(rv, gv, bv) := sel in
  r ← ld rv i; g ← ld gv i; b ← ld bv i; Some [r; g; b].

Definition neon_store (rgb : list Z) (out_base x : Z) (v : batch_vecs) (ev od : Z)
  : option (list Z) :=
  for_range 0 4 1 (λ rgb i,
    e ← lane_px (select_ev v ev) i;
    rgb ← stn rgb (out_base + (x + 2 * i) * 3) e;
    o ← lane_px (select_od v od) i;
    stn rgb (out_base + (x + 2 * i + 1) * 3) o) rgb.

Definition neon_row_batches (b8 : list Z) (row up dn : Z) (rgb : list Z)
    (w out_base ev od : Z) : option (list Z) :=
  for_range 2 (w - 9) 8 (λ rgb x,
    v ← neon_batch_vecs b8 row up dn x;
    neon_store rgb out_base x v ev od) rgb.

Definition neon_row_remainder (b8 : list Z) (row up dn : Z) (rgb : list Z)
    (w out_base x0 ev od : Z) : option (list Z) :=
  for_range x0 (w - 2) 2 (λ rgb x,
    e ← scalar_px b8 row up dn x ev;
    rgb ← stn rgb (out_base + x * 3) e;
    o ← scalar_px b8 row up dn (x + 1) od;
    stn rgb (out_base + (x + 1) * 3) o) rgb.

Definition neon_row (b8 : list Z) (row up dn : Z) (rgb : list Z) (w out_base ev od : Z)
  : option (list Z) :=
  c0 ← neon_row_col0 b8 row up dn ev;
  rgb ← stn rgb out_base c0;
  c1 ← neon_row_col1 b8 row up dn od;
  rgb ← stn rgb (out_base + 3) c1;
  rgb ← neon_row_batches b8 row up dn rgb w out_base ev od;
  neon_row_remainder b8 row up dn rgb w out_base (range_end 2 (w - 9) 8) ev od.

(** ** fill_edges and process *)

Definition fill_edges (rgb : list Z) (w h : Z) : option (list Z) :=
  let s := w * 3 in
  rgb ← copyn rgb 0 s s;
  rgb ← copyn rgb ((h - 1) * s) ((h - 2) * s) s;
  for_range 0 h 1 (λ rgb y,
    let off := y * s in
    rgb ← copyn rgb off (off + 3) 3;
    copyn rgb (off + (w - 1) * 3) (off + (w - 2) * 3) 3) rgb.

Definition pos_color : list (list Z) := [[0; 1; 2; 3]; [1; 0; 3; 2]; [2; 3; 0; 1]; [3; 2; 1; 0]].

(** The Bayer site types of the even and odd columns of row [y]. *)
Definition row_types (p : DemosaicParams) (y : Z) : option (Z * Z) :=
  let oy := Z.land (dp_offset_y p) 1 in
  let ox := Z.land (dp_offset_x p) 1 in
  let r := Z.land (y + oy) 1 in
  pc ← ld pos_color (dp_bayerPattern p);
  ev ← ld pc (r * 2 + ox); od ← ld pc (r * 2 + 1 - ox);
  Some (ev, od).

(** [process (bayerInput, rgbOutput)]: the new output buffer and the new
    state (the scratch buffer is overwritten). *)
Definition process (d : DemosaicNEON) (bayerInput rgbOutput : list Z)
  : option (DemosaicNEON * list Z) :=
  match mInitialized d, mBayerBuf d with
  | true, Some buf =>
      let p := mParams d in
      let w := dp_width p in let h := dp_height p in
      b8 ← raw10_to_8bit bayerInput buf (w * h) (mNormLut d);
      rgb ← for_range 1 (h - 1) 1 (λ rgb y,
        '(ev, od) ← row_types p y;
        neon_row b8 (y * w) ((y - 1) * w) ((y + 1) * w) rgb w (y * (w * 3)) ev od) rgbOutput;
      rgb ← fill_edges rgb w h;
      Some ({| mParams := p; mInitialized := true; mBayerBuf := Some b8;
               mBayerBufSize := mBayerBufSize d; mNormLut := mNormLut d |}, rgb)
  | _, _ => Some (d, rgbOutput)
  end.

(** ** One NEON batch, lane by lane *)

Definition avg2 (a b : Z) : Z := (a + b) ≫ 1.
Definition ravg2 (a b : Z) : Z := (a + b + 1) ≫ 1.
Definition avg4 (a b c d : Z) : Z := (a + b + c + d) ≫ 2.

(** The column the batch at [x] takes for the right neighbour of the odd
    column [x + 2 i + 1]: lane 3 wraps round to the first column. *)
Definition next_col (x i : Z) : Z := if i =? 3 then x else x + 2 * i + 2.

(** What lane [i] of the batch at [x] stores for the even column [x + 2 i]. *)
Definition ev_lane (b8 : list Z) (row up dn x i t : Z) : list Z :=
  let c := x + 2 * i in
  let B k := bget b8 (row + k) in let U k := bget b8 (up + k) in let D k := bget b8 (dn + k) in
  if t =? 0 then
    [B c; avg4 (B (c - 1)) (B (c + 1)) (U c) (D c);
     avg4 (U (c - 1)) (D (c - 1)) (U (c + 1)) (D (c + 1))]
  else if t =? 1 then [ravg2 (B c) (B (next_col x i)); B c; avg2 (U (c + 1)) (D (c + 1))]
  else if t =? 2 then [avg2 (U c) (D c); B c; ravg2 (B (c - 1)) (B (c + 1))]
  else [avg4 (U (c - 1)) (D (c - 1)) (U (c + 1)) (D (c + 1));
        avg4 (B (c - 1)) (B (c + 1)) (U c) (D c); B c].

(** ... and for the odd column [x + 2 i + 1]. *)
Definition od_lane (b8 : list Z) (row up dn x i t : Z) : list Z :=
  let c := x + 2 * i + 1 in let n := next_col x i in
  let B k := bget b8 (row + k) in let U k := bget b8 (up + k) in let D k := bget b8 (dn + k) in
  if t =? 0 then
    [B c; avg4 (B (c - 1)) (B n) (U c) (D c);
     avg4 (U (c - 1)) (D (c - 1)) (U n) (D n)]
  else if t =? 1 then [ravg2 (B (c - 1)) (B n); B c; avg2 (U c) (D c)]
  else if t =? 2 then [avg2 (U c) (D c); B c; avg2 (U c) (D c)]
  else [avg4 (U (c - 1)) (D (c - 1)) (U n) (D n);
        avg4 (B (c - 1)) (B n) (U c) (D c); B c].

Lemma lane_avg4 a b c d : is_byte a → is_byte b → is_byte c → is_byte d →
  u8 (u16 (u16 (a + b) + u16 (c + d)) ≫ 2) = avg4 a b c d.
Proof.
  unfold is_byte, avg4, u16. intros.
  rewrite (Z.mod_small (a + b)), (Z.mod_small (c + d)), (Z.mod_small (_ + _)) by lia.
  rewrite Z.add_assoc. apply u8_id. unfold is_byte. rewrite shiftr_div by lia.
  split; [apply Z.div_pos; lia|apply Z.div_lt_upper_bound; lia].
Qed.

Lemma lane_avg2 a b : is_byte a → is_byte b → u8 (u16 (a + b) ≫ 1) = avg2 a b.
Proof.
  unfold is_byte, avg2, u16. intros. rewrite Z.mod_small by lia.
  apply u8_id. unfold is_byte. rewrite shiftr_div by lia.
  split; [apply Z.div_pos; lia|apply Z.div_lt_upper_bound; lia].
Qed.

Lemma lane_ravg2 a b : is_byte a → is_byte b → u8 ((a + b + 1) ≫ 1) = ravg2 a b.
Proof.
  unfold is_byte, ravg2. intros.
  apply u8_id. unfold is_byte. rewrite shiftr_div by lia.
  split; [apply Z.div_pos; lia|apply Z.div_lt_upper_bound; lia].
Qed.

Lemma clamp_byte v : is_byte v → clamp v = v.
Proof.
  unfold is_byte, clamp. intros. rewrite shiftr_div, Z.div_small by lia. simpl.
  by apply u8_id.
Qed.

Lemma avg2_byte a b : is_byte a → is_byte b → is_byte (avg2 a b).
Proof. intros. rewrite <- lane_avg2 by done. apply u8_range. Qed.
Lemma ravg2_byte a b : is_byte a → is_byte b → is_byte (ravg2 a b).
Proof. intros. rewrite <- lane_ravg2 by done. apply u8_range. Qed.
Lemma avg4_byte a b c d :
  is_byte a → is_byte b → is_byte c → is_byte d → is_byte (avg4 a b c d).
Proof. intros. rewrite <- lane_avg4 by done. apply u8_range. Qed.

#[export] Hint Resolve avg2_byte ravg2_byte avg4_byte clamp_byte : buffers.
Create Rewrite HintDb demosaic.
#[export] Hint Rewrite lane_avg4 lane_avg2 lane_ravg2 using (auto with buffers) : demosaic.

Lemma lanes4 (P : Z → Prop) : P 0 → P 1 → P 2 → P 3 → ∀ i, 0 <= i < 4 → P i.
Proof.
  intros ? ? ? ? i ?.
  assert (i = 0 ∨ i = 1 ∨ i = 2 ∨ i = 3) as [-> | [-> | [-> | ->]]] by lia; done.
Qed.

(** Every vector of a batch, with its lanes written out. *)
Lemma neon_batch_lanes b8 row up dn x :
  is_bytes b8 →
  0 <= row + x - 1 → row + x + 9 <= blen b8 →
  0 <= up + x - 1 → up + x + 8 <= blen b8 →
  0 <= dn + x - 1 → dn + x + 8 <= blen b8 →
  ∃ v, neon_batch_vecs b8 row up dn x = Some v ∧
    ∀ i, 0 <= i < 4 → ∀ t,
      lane_px (select_ev v t) i = Some (ev_lane b8 row up dn x i t) ∧
      lane_px (select_od v t) i = Some (od_lane b8 row up dn x i t).
Proof.
  intros Hb ? ? ? ? ? ?. unfold neon_batch_vecs.
  rewrite !vld1_u8_lanes by lia. cbn -[Z.add Z.shiftr u8 u16 bget].
  eexists; split; [reflexivity|].
  intros i Hi. pattern i. revert i Hi.
  apply lanes4; intros t; unfold select_ev, select_od, ev_lane, od_lane, next_col;
    destruct (t =? 0), (t =? 1), (t =? 2); unfold lane_px;
    cbn -[Z.add Z.sub Z.mul Z.shiftr u8 u16 bget ld];
    autorewrite with demosaic buffers; cbn -[Z.add Z.sub Z.mul bget];
    split; same_loads.
Qed.

(** ** The scalar formulas, and the batch compared with them *)

(** Bilinear interpolation at column [x], read off the neighbourhood. *)
Definition scalar_ref (b8 : list Z) (row up dn x t : Z) : list Z :=
  let B k := bget b8 (row + k) in let U k := bget b8 (up + k) in let D k := bget b8 (dn + k) in
  let hv := avg4 (B (x - 1)) (B (x + 1)) (U x) (D x) in
  let diag := avg4 (U (x - 1)) (U (x + 1)) (D (x - 1)) (D (x + 1)) in
  if t =? 0 then [B x; hv; diag]
  else if t =? 1 then [avg2 (B (x - 1)) (B (x + 1)); B x; avg2 (U x) (D x)]
  else if t =? 2 then [avg2 (U x) (D x); B x; avg2 (B (x - 1)) (B (x + 1))]
  else [diag; hv; B x].

(** Column 0: the right neighbour stands for the left one. *)
Definition col0_ref (b8 : list Z) (row up dn t : Z) : list Z :=
  let B k := bget b8 (row + k) in let U k := bget b8 (up + k) in let D k := bget b8 (dn + k) in
  let hv := avg4 (B 1) (B 1) (U 0) (D 0) in
  let diag := avg4 (U 1) (U 1) (D 1) (D 1) in
  if t =? 0 then [B 0; hv; diag]
  else if t =? 1 then [avg2 (B 1) (B 1); B 0; avg2 (U 0) (D 0)]
  else if t =? 2 then [avg2 (U 0) (D 0); B 0; avg2 (B 1) (B 1)]
  else [diag; hv; B 0].

(** A window of three rows that lies inside the buffer on columns [lo..hi]. *)
Definition window (b8 : list Z) (row up dn lo hi : Z) : Prop :=
  0 <= row + lo ∧ row + hi < blen b8 ∧ 0 <= up + lo ∧ up + hi < blen b8 ∧
  0 <= dn + lo ∧ dn + hi < blen b8.

Lemma scalar_px_eq b8 row up dn x t :
  is_bytes b8 → window b8 row up dn (x - 1) (x + 1) →
  scalar_px b8 row up dn x t = Some (scalar_ref b8 row up dn x t).
Proof.
  intros Hb (? & ? & ? & ? & ? & ?). unfold scalar_px.
  rewrite !ld_bget by lia. cbn -[Z.shiftr].
  unfold scalar_ref. fold (avg4). rewrite !Z.add_sub_assoc, !Z.add_assoc.
  repeat match goal with |- context [(?a + ?b) ≫ 1] => fold (avg2 a b) end.
  repeat match goal with |- context [(?a + ?b + ?c + ?d) ≫ 2] => fold (avg4 a b c d) end.
  rewrite !clamp_byte by auto with buffers.
  destruct (t =? 0), (t =? 1), (t =? 2); reflexivity.
Qed.

Lemma col0_eq b8 row up dn t :
  is_bytes b8 → window b8 row up dn 0 1 →
  neon_row_col0 b8 row up dn t = Some (col0_ref b8 row up dn t).
Proof.
  intros Hb (? & ? & ? & ? & ? & ?). unfold neon_row_col0.
  rewrite !ld_bget by lia. cbn -[Z.shiftr].
  unfold col0_ref. rewrite !Z.add_0_r.
  repeat match goal with |- context [(?a + ?b) ≫ 1] => fold (avg2 a b) end.
  repeat match goal with |- context [(?a + ?b + ?c + ?d) ≫ 2] => fold (avg4 a b c d) end.
  rewrite !clamp_byte by auto with buffers.
  destruct (t =? 0), (t =? 1), (t =? 2); reflexivity.
Qed.

Lemma ravg2_avg2 a b : avg2 a b <= ravg2 a b <= avg2 a b + 1.
Proof.
  unfold avg2, ravg2. rewrite !shiftr_div by lia. change (2 ^ 1) with 2.
  Z.to_euclidean_division_equations. lia.
Qed.

Lemma avg4_swap a b c d : avg4 a b c d = avg4 a c b d.
Proof. unfold avg4. f_equal. lia. Qed.

(** [px] is [px'] rounded up by at most one in each channel. *)
Definition close_px (px px' : list Z) : Prop := Forall2 (λ a b, b <= a <= b + 1) px px'.

Lemma ev_lane_close b8 row up dn x i t :
  t ≠ 1 → close_px (ev_lane b8 row up dn x i t) (scalar_ref b8 row up dn (x + 2 * i) t).
Proof.
  intros Ht. unfold ev_lane, scalar_ref, close_px.
  rewrite (avg4_swap (bget b8 (up + _)) (bget b8 (up + _)) (bget b8 (dn + _))).
  destruct (t =? 0), (t =? 1) eqn:?, (t =? 2); zbool; try done;
    repeat constructor; try apply ravg2_avg2; lia.
Qed.

Lemma od_lane_close b8 row up dn x i t :
  i ≠ 3 → t ≠ 2 →
  close_px (od_lane b8 row up dn x i t) (scalar_ref b8 row up dn (x + 2 * i + 1) t).
Proof.
  intros Hi Ht. unfold od_lane, scalar_ref, close_px, next_col.
  rewrite (proj2 (Z.eqb_neq i 3)) by done.
  rewrite (avg4_swap (bget b8 (up + _)) (bget b8 (up + _)) (bget b8 (dn + _))).
  replace (x + 2 * i + 1 + 1) with (x + 2 * i + 2) by lia.
  destruct (t =? 0), (t =? 1), (t =? 2) eqn:?; zbool; try done;
    repeat constructor; try apply ravg2_avg2; lia.
Qed.

(** ** A whole row *)

(** The pixel [neon_row] stores at column [x]: the edge formula, the scalar
    formula, or the lane of the batch the column belongs to. *)
Definition row_px (b8 : list Z) (row up dn w ev od x : Z) : list Z :=
  if x =? 0 then col0_ref b8 row up dn ev
  else if (x <? 2) || (range_end 2 (w - 9) 8 <=? x) then
    scalar_ref b8 row up dn x (if Z.even x then ev else od)
  else
    let xb := x - (x - 2) mod 8 in let i := (x - 2) mod 8 / 2 in
    if Z.even x then ev_lane b8 row up dn xb i ev else od_lane b8 row up dn xb i od.

(** The bytes of a row, and the number of columns the row function writes. *)
Definition row_byte b8 row up dn w ev od (j : Z) : option Z :=
  ld (row_px b8 row up dn w ev od (j / 3)) (j mod 3).

Definition row_cols (w : Z) : Z := range_end (range_end 2 (w - 9) 8) (w - 2) 2.

Lemma blen3 {A} (a b c : A) : blen [a; b; c] = 3.
Proof. done. Qed.

Lemma blen_scalar_ref b8 row up dn x t : blen (scalar_ref b8 row up dn x t) = 3.
Proof. unfold scalar_ref. by destruct (t =? 0), (t =? 1), (t =? 2). Qed.
Lemma blen_col0_ref b8 row up dn t : blen (col0_ref b8 row up dn t) = 3.
Proof. unfold col0_ref. by destruct (t =? 0), (t =? 1), (t =? 2). Qed.
Lemma blen_ev_lane b8 row up dn x i t : blen (ev_lane b8 row up dn x i t) = 3.
Proof. unfold ev_lane. by destruct (t =? 0), (t =? 1), (t =? 2). Qed.
Lemma blen_od_lane b8 row up dn x i t : blen (od_lane b8 row up dn x i t) = 3.
Proof. unfold od_lane. by destruct (t =? 0), (t =? 1), (t =? 2). Qed.
#[export] Hint Rewrite blen_scalar_ref blen_col0_ref blen_ev_lane blen_od_lane : buffers.

Section Row.
Context (b8 : list Z) (row up dn w ev od : Z).
Context (Hb : is_bytes b8) (Hw : 3 <= w) (Hwin : window b8 row up dn 0 (w - 1)).

Local Abbreviation px := (row_px b8 row up dn w ev od).
Local Abbreviation row_byte := (row_byte b8 row up dn w ev od).

Lemma row_byte_px x k : 0 <= k < 3 → row_byte (3 * x + k) = ld (px x) k.
Proof using. intros. unfold Demosaic.row_byte. by destruct (px_index 3 x k) as [-> ->]. Qed.

(** Storing the next pixel of the row. *)
Lemma row_store rgb0 rgb base x p :
  filled row_byte base (3 * x) rgb0 rgb →
  0 <= base → 0 <= x → base + 3 * x + 3 <= blen rgb0 → blen p = 3 → px x = p →
  ∃ rgb', stn rgb (base + x * 3) p = Some rgb' ∧ filled row_byte base (3 * (x + 1)) rgb0 rgb'.
Proof using.
  intros Hf ? ? ? Hp Hpx.
  destruct (filled_stn row_byte base (3 * x) rgb0 rgb p) as (rgb' & E & Hf'); try done; [lia..| |].
  - intros k Hk. rewrite row_byte_px by lia. by rewrite Hpx.
  - exists rgb'. rewrite (Z.mul_comm x 3). split; [done|].
    by replace (3 * (x + 1)) with (3 * x + blen p) by lia.
Qed.

(** The first column after the batches. *)
Local Abbreviation xe := (range_end 2 (w - 9) 8).

Lemma xe_bounds : 2 <= xe ∧ xe <= Z.max 2 (w - 2) ∧ (8 | xe - 2) ∧ Z.even xe = true.
Proof using.
  unfold range_end, zrange_len. split_and!.
  - lia.
  - destruct (decide (w - 9 <= 2)).
    + assert ((w - 9 - 2 + 8 - 1) / 8 < 1) by (apply Z.div_lt_upper_bound; lia). lia.
    + pose proof (Z.mul_div_le (w - 9 - 2 + 8 - 1) 8). lia.
  - exists (Z.max 0 ((w - 9 - 2 + 8 - 1) / 8)). lia.
  - rewrite Z.even_add, Z.even_mul. done.
Qed.

Lemma px_scalar x :
  x = 1 ∨ xe <= x → px x = scalar_ref b8 row up dn x (if Z.even x then ev else od).
Proof using.
  pose proof xe_bounds as (? & _). intros Hx. unfold row_px.
  rewrite (proj2 (Z.eqb_neq x 0)) by lia.
  destruct (Z.ltb_spec x 2), (Z.leb_spec xe x); simpl; try done. lia.
Qed.

Lemma batch_col x i q : 0 <= i < 4 → 0 <= q < 2 → (8 | x - 2) → 2 <= x → x < xe →
  px (x + 2 * i + q) = if q =? 0 then ev_lane b8 row up dn x i ev else od_lane b8 row up dn x i od.
Proof using.
  intros Hi Hq [m Hm] ? ?. pose proof xe_bounds as (? & _ & [m' Hm'] & _). unfold row_px.
  rewrite (proj2 (Z.eqb_neq _ 0)) by lia.
  assert ((x + 2 * i + q - 2) mod 8 = 2 * i + q) as ->.
  { replace (x + 2 * i + q - 2) with (2 * i + q + m * 8) by lia.
    rewrite Z.mod_add, Z.mod_small by lia. done. }
  destruct (Z.ltb_spec (x + 2 * i + q) 2), (Z.leb_spec xe (x + 2 * i + q)); simpl; try lia.
  replace (x + 2 * i + q - (2 * i + q)) with x by lia.
  replace ((2 * i + q) / 2) with i by (Z.to_euclidean_division_equations; lia).
  replace (x + 2 * i + q) with (q + 2 * (m * 4 + 1 + i)) by lia.
  rewrite Z.even_add_mul_2.
  assert (q = 0 ∨ q = 1) as [-> | ->] by lia; done.
Qed.

Lemma neon_row_batches_spec rgb0 rgb base :
  filled row_byte base (3 * 2) rgb0 rgb → 0 <= base → base + 3 * w <= blen rgb0 →
  ∃ rgb', neon_row_batches b8 row up dn rgb w base ev od = Some rgb' ∧
          filled row_byte base (3 * xe) rgb0 rgb'.
Proof using Hb Hwin.
  intros Hf ? ?. unfold neon_row_batches. destruct Hwin as (? & ? & ? & ? & ? & ?).
  apply (for_range_inv (λ x r, filled row_byte base (3 * x) rgb0 r)); [done..|].
  intros x r Hx Hd Hr.
  destruct (neon_batch_lanes b8 row up dn x) as (v & -> & Hv); [done|lia..|]. simpl.
  assert (x < xe) as Hxe by (pose proof (range_end_ge 2 (w - 9) 8); lia).
  unfold neon_store.
  destruct (for_range_inv (λ i r, filled row_byte base (3 * (x + 2 * i)) rgb0 r) 0 4 1
    (λ rgb i, e ← lane_px (select_ev v ev) i;
      rgb ← stn rgb (base + (x + 2 * i) * 3) e;
      o ← lane_px (select_od v od) i;
      stn rgb (base + (x + 2 * i + 1) * 3) o) r) as (r' & E & Hr').
  - done.
  - by rewrite Z.mul_0_r, Z.add_0_r.
  - intros i s Hi _ Hs. destruct (Hv i) with (t := ev) as [-> _]; [lia|].
    destruct (Hv i) with (t := od) as [_ ->]; [lia|]. cbn [mbind option_bind].
    destruct (row_store rgb0 s base (x + 2 * i) (ev_lane b8 row up dn x i ev))
      as (s1 & -> & Hs1); [done|lia..|by autorewrite with buffers| |].
    { rewrite <- (Z.add_0_r (x + 2 * i)). by rewrite (batch_col x i 0) by (done || lia). }
    cbn [mbind option_bind].
    destruct (row_store rgb0 s1 base (x + 2 * i + 1) (od_lane b8 row up dn x i od))
      as (s2 & -> & Hs2); [done|lia..|by autorewrite with buffers| |].
    { by rewrite (batch_col x i 1) by (done || lia). }
    exists s2. split; [done|].
    by replace (x + 2 * (i + 1)) with (x + 2 * i + 1 + 1) by lia.
  - exists r'. split; [done|]. exact Hr'.
Qed.

Lemma neon_row_remainder_spec rgb0 rgb base :
  filled row_byte base (3 * xe) rgb0 rgb → 0 <= base → base + 3 * w <= blen rgb0 →
  ∃ rgb', neon_row_remainder b8 row up dn rgb w base xe ev od = Some rgb' ∧
          filled row_byte base (3 * row_cols w) rgb0 rgb'.
Proof using Hb Hwin.
  intros Hf ? ?. unfold neon_row_remainder. pose proof xe_bounds as (? & ? & _ & Hev).
  destruct Hwin as (? & ? & ? & ? & ? & ?).
  apply (for_range_inv (λ x r, filled row_byte base (3 * x) rgb0 r)); [done..|].
  intros x r Hx [m Hm] Hr.
  assert (Z.even x = true) as Ex.
  { replace x with (xe + 2 * m) by lia. by rewrite Z.even_add_mul_2. }
  rewrite !scalar_px_eq by (done || (repeat split; lia)). cbn [mbind option_bind].
  destruct (row_store rgb0 r base x (scalar_ref b8 row up dn x ev)) as (s & -> & Hs);
    [done|lia..|by autorewrite with buffers|by rewrite px_scalar, Ex by lia|].
  cbn [mbind option_bind].
  destruct (row_store rgb0 s base (x + 1) (scalar_ref b8 row up dn (x + 1) od))
    as (s' & -> & Hs'); [done|lia..|by autorewrite with buffers| |].
  { rewrite px_scalar by lia. rewrite Z.even_add, Ex. done. }
  exists s'. split; [done|]. by replace (x + 2) with (x + 1 + 1) by lia.
Qed.

(** [neon_row] is defined and writes exactly the columns below [row_cols]. *)
Lemma neon_row_spec rgb base :
  0 <= base → base + 3 * w <= blen rgb →
  ∃ rgb', neon_row b8 row up dn rgb w base ev od = Some rgb' ∧
          filled row_byte base (3 * row_cols w) rgb rgb'.
Proof using Hb Hw Hwin.
  intros ? ?. unfold neon_row, neon_row_col1. destruct Hwin as (? & ? & ? & ? & ? & ?).
  rewrite col0_eq, scalar_px_eq by (done || (repeat split; lia)). cbn [mbind option_bind].
  destruct (row_store rgb rgb base 0 (col0_ref b8 row up dn ev)) as (r0 & E0 & Hr0);
    [apply filled_0|lia..|by autorewrite with buffers|done|].
  rewrite Z.mul_0_l, Z.add_0_r in E0. rewrite E0. cbn [mbind option_bind].
  destruct (row_store rgb r0 base 1 (scalar_ref b8 row up dn 1 od)) as (r1 & E1 & Hr1);
    [done|lia..|by autorewrite with buffers|by rewrite px_scalar by lia|].
  rewrite Z.mul_1_l in E1. rewrite E1. cbn [mbind option_bind].
  destruct (neon_row_batches_spec rgb r1 base) as (r2 & -> & Hr2); [done|lia..|].
  cbn [mbind option_bind]. by apply neon_row_remainder_spec.
Qed.
End Row.

(** ** The 8-bit conversion *)

Definition raw8 (inb lut : list Z) (i : Z) : Z :=
  bget lut (Z.land (Z.lor (bget inb (i * 2)) (bget inb (i * 2 + 1) ≪ 8)) 0x3FF ≫ 2).

Lemma raw10_index v : 0 <= Z.land v 0x3FF ≫ 2 < 256.
Proof.
  change 0x3FF with (Z.ones 10). rewrite land_ones_mod, shiftr_div by lia.
  pose proof (Z.mod_pos_bound v (2 ^ 10)).
  split; [apply Z.div_pos; lia|apply Z.div_lt_upper_bound; lia].
Qed.

Lemma raw10_to_8bit_spec inb out total lut :
  0 <= total → 2 * total <= blen inb → total <= blen out → blen lut = 256 →
  ∃ out', raw10_to_8bit inb out total lut = Some out' ∧
          filled (λ i, Some (raw8 inb lut i)) 0 total out out'.
Proof.
  intros ? ? ? Hlut. unfold raw10_to_8bit.
  destruct (for_range_inv (λ i r, filled (λ i, Some (raw8 inb lut i)) 0 i out r) 0 total 1
    (λ out i, lo ← ld inb (i * 2); hi ← ld inb (i * 2 + 1);
      let v := Z.land (Z.lor lo (hi ≪ 8)) 0x3FF in
      e ← ld lut (v ≫ 2); st out i e) out) as (r & E & Hr).
  - done.
  - apply filled_0.
  - intros i r Hi _ Hr. rewrite !(ld_bget inb) by lia. cbn [mbind option_bind].
    rewrite (ld_bget lut) by (rewrite Hlut; apply raw10_index). cbn [mbind option_bind].
    eapply filled_st; [exact Hr|lia..|done|lia].
  - exists r. split; [done|]. by rewrite range_end_unit in Hr by lia.
Qed.

(** ** The edges *)

Definition clampi (lo hi v : Z) : Z := Z.max lo (Z.min hi v).

(** Copying a pixel inside an image, in coordinates. *)
Lemma copy_px (rgb : list Z) w h y xd xs :
  0 <= y < h → 0 <= xd < w → 0 <= xs < w → w * h * 3 <= blen rgb →
  ∃ rgb', copyn rgb (px_addr 3 w y xd 0) (px_addr 3 w y xs 0) 3 = Some rgb' ∧
    blen rgb' = blen rgb ∧
    ∀ y' x k, 0 <= x < w → 0 <= k < 3 →
      ld rgb' (px_addr 3 w y' x k) =
      ld rgb (px_addr 3 w y' (if bool_decide (y' = y ∧ x = xd) then xs else x) k).
Proof.
  intros Hy Hd Hs Hlen.
  pose proof (px_addr_bounds 3 w h y xd 2). pose proof (px_addr_bounds 3 w h y xs 2).
  destruct (copyn_spec rgb (px_addr 3 w y xd 0) (px_addr 3 w y xs 0) 3)
    as (r & E & Hl & Hr); [unfold px_addr in *; lia..|].
  exists r. split_and!; [done|done|]. intros y' x k ? ?. rewrite Hr.
  pose proof (px_addr_same 3 w y' x k y xd) as Hsame.
  case_bool_decide as D; case_bool_decide as D'; try done.
  - destruct D' as [-> ->]. f_equal. unfold px_addr. ring.
  - exfalso. apply D', Hsame; [lia..|]. unfold px_addr in *. lia.
  - exfalso. apply D. apply Hsame in D'; [|lia..]. unfold px_addr in *. lia.
Qed.

(** Copying a row. *)
Lemma copy_row (rgb : list Z) w h yd ys :
  0 < w → 0 <= yd < h → 0 <= ys < h → w * h * 3 <= blen rgb →
  ∃ rgb', copyn rgb (yd * (w * 3)) (ys * (w * 3)) (w * 3) = Some rgb' ∧
    blen rgb' = blen rgb ∧
    ∀ y x k, 0 <= x < w → 0 <= k < 3 →
      ld rgb' (px_addr 3 w y x k) = ld rgb (px_addr 3 w (if y =? yd then ys else y) x k).
Proof.
  intros ? ? ? Hlen.
  destruct (copyn_spec rgb (yd * (w * 3)) (ys * (w * 3)) (w * 3)) as (r & E & Hl & Hr); [nia..|].
  exists r. split_and!; [done|done|]. intros y x k ? ?. rewrite Hr.
  pose proof (px_addr_row 3 w y x k yd) as Hrow.
  case_bool_decide as D; destruct (Z.eqb_spec y yd) as [->|Hne]; try done.
  - f_equal. unfold px_addr. ring.
  - exfalso. apply Hne, Hrow; [lia..|]. unfold px_addr in *. lia.
  - exfalso. apply D. unfold px_addr in *. lia.
Qed.

(** The column loop of [fill_edges]. *)
Lemma fill_cols_spec (rgb : list Z) w h :
  3 <= w → 0 <= h → w * h * 3 <= blen rgb →
  ∃ rgb', for_range 0 h 1 (λ rgb y,
      rgb ← copyn rgb (y * (w * 3)) (y * (w * 3) + 3) 3;
      copyn rgb (y * (w * 3) + (w - 1) * 3) (y * (w * 3) + (w - 2) * 3) 3) rgb = Some rgb' ∧
    blen rgb' = blen rgb ∧
    ∀ y x k, 0 <= y < h → 0 <= x < w → 0 <= k < 3 →
      ld rgb' (px_addr 3 w y x k) = ld rgb (px_addr 3 w y (clampi 1 (w - 2) x) k).
Proof.
  intros Hw Hh Hlen.
  edestruct (for_range_inv (λ y r, blen r = blen rgb ∧
    ∀ y' x k, 0 <= x < w → 0 <= k < 3 →
      ld r (px_addr 3 w y' x k) =
      ld rgb (px_addr 3 w y' (if bool_decide (0 <= y' < y) then clampi 1 (w - 2) x else x) k)) 0 h 1)
    as (r & E & Hl & Hr); [done| | |exists r; split; [exact E|split; [exact Hl|]]].
  - split; [done|]. intros y' x k ? ?. by rewrite bool_decide_false by lia.
  - intros y r Hy _ [Hl Hr]. cbn beta.
    destruct (copy_px r w h y 0 1) as (s1 & E1 & Hs1 & S1); [lia..|].
    destruct (copy_px s1 w h y (w - 1) (w - 2)) as (s2 & E2 & Hs2 & S2); [lia..|].
    replace (px_addr 3 w y 0 0) with (y * (w * 3)) in E1 by (unfold px_addr; ring).
    replace (px_addr 3 w y 1 0) with (y * (w * 3) + 3) in E1 by (unfold px_addr; ring).
    rewrite E1. cbn [mbind option_bind]. exists s2. split_and!; [|lia|].
    { rewrite <- E2. f_equal; unfold px_addr; ring. }
    intros y' x k ? ?. rewrite S2, S1, Hr by (repeat case_bool_decide; lia).
    f_equal. f_equal. unfold clampi. repeat case_bool_decide; lia.
  - intros y x k ? ? ?. rewrite range_end_unit in Hr by lia.
    rewrite Hr by lia. by rewrite bool_decide_true by lia.
Qed.

(** [fill_edges] replicates the interior: pixel [(y, x)] is the old pixel at
    the nearest interior coordinates. *)
Lemma fill_edges_spec (rgb : list Z) w h :
  3 <= w → 3 <= h → w * h * 3 <= blen rgb →
  ∃ rgb', fill_edges rgb w h = Some rgb' ∧ blen rgb' = blen rgb ∧
    ∀ y x k, 0 <= y < h → 0 <= x < w → 0 <= k < 3 →
      ld rgb' (px_addr 3 w y x k) = ld rgb (px_addr 3 w (clampi 1 (h - 2) y) (clampi 1 (w - 2) x) k).
Proof.
  intros Hw Hh Hlen. unfold fill_edges.
  destruct (copy_row rgb w h 0 1) as (r1 & E1 & Hl1 & H1); [lia..|].
  rewrite Z.mul_0_l, Z.mul_1_l in E1. rewrite E1. cbn [mbind option_bind].
  destruct (copy_row r1 w h (h - 1) (h - 2)) as (r2 & -> & Hl2 & H2); [lia..|].
  cbn [mbind option_bind].
  destruct (fill_cols_spec r2 w h) as (r & E & Hl & Hr); [lia..|].
  exists r. split_and!; [exact E|lia|]. intros y x k ? ? ?.
  rewrite Hr, H2, H1 by (unfold clampi; lia). f_equal. f_equal. unfold clampi.
  repeat case_match; zbool; lia.
Qed.
