(* ===== verification/DemosaicSpec.v ===== *)
(** * Correctness of the demosaicer

    The whole-frame theorems about [DemosaicNEON]: [initialize] establishes
    the state [process] relies on, [process] makes no access out of bounds and
    every pixel of its output is the one the Bayer formulas give, and where
    the vectorised formulas depart from the scalar ones. *)

From S2P Require Import Prelude Neon Demosaic.

(** ** The normalization LUT *)

Lemma normLut_length p : blen (normLut p) = 256.
Proof. unfold normLut, blen. by rewrite length_fmap. Qed.

Lemma norm_entry_range bl wl i : is_byte (norm_entry bl wl i).
Proof. apply u8_range. Qed.

Lemma normLut_bytes p : is_bytes (normLut p).
Proof. apply Forall_fmap, Forall_true. intros. apply norm_entry_range. Qed.

Lemma zrange_unit_lookup n i : 0 <= i < n → zrange 0 n 1 !! Z.to_nat i = Some i.
Proof.
  intros. unfold zrange. rewrite list_lookup_fmap, lookup_seqZ_lt.
  - simpl. f_equal. lia.
  - unfold zrange_len. rewrite Z.div_1_r. lia.
Qed.

Lemma normLut_at p i : 0 <= i < 256 →
  bget (normLut p) i =
  norm_entry (dp_blackLevel p) (if dp_whiteLevel p =? 0 then 255 else dp_whiteLevel p) i.
Proof.
  intros. unfold bget, ld, normLut. rewrite bool_decide_true by lia.
  by rewrite list_lookup_fmap, zrange_unit_lookup.
Qed.

(** With the white level above the black level, the entry is the truncated
    linear stretch, saturated at both ends. *)
Lemma norm_entry_eq bl wl i :
  bl < wl → 
  norm_entry bl wl i = Z.min 255 (Z.max 0 (i - bl) * 255 / (wl - bl)).
Proof.
  intros. unfold norm_entry. rewrite (proj2 (Z.ltb_ge (wl - bl) 1)) by lia.
  assert ((if i - bl <? 0 then 0 else i - bl) = Z.max 0 (i - bl)) as ->.
  { destruct (Z.ltb_spec (i - bl) 0); lia. }
  rewrite Z.quot_div_nonneg by lia.
  assert (0 <= Z.max 0 (i - bl) * 255 / (wl - bl)) by (apply Z.div_pos; lia).
  rewrite u8_id.
  - destruct (_ >? 255) eqn:?; zbool; lia.
  - unfold is_byte. destruct (_ >? 255) eqn:?; zbool; lia.
Qed.

(** ** initialize *)

(** What [process] needs of an initialized object. *)
Definition demosaic_ready (d : DemosaicNEON) : Prop :=
  let p := mParams d in
  mInitialized d = true ∧ 0 < dp_width p ∧ 0 < dp_height p ∧
  mNormLut d = normLut p ∧
  ∃ buf, mBayerBuf d = Some buf ∧ is_bytes buf ∧ blen buf = mBayerBufSize d ∧
         dp_width p * dp_height p + 16 <= blen buf.

(** The scratch buffer is what its recorded size says. *)
Definition demosaic_wf (d : DemosaicNEON) : Prop :=
  is_bytes (default [] (mBayerBuf d)) ∧ blen (default [] (mBayerBuf d)) = mBayerBufSize d.

Lemma demosaic_new_wf : demosaic_wf DemosaicNEON_new.
Proof. split; [constructor|done]. Qed.

Lemma realloc_spec heap `{!AllocOk heap} old n b :
  blen old <= n → is_bytes old → realloc heap old n = Some b → blen b = n ∧ is_bytes b.
Proof.
  intros Hn Hold E. unfold realloc in E. apply bind_Some_inv in E as (fresh & Ef & [= <-]).
  pose proof (alloc_len _ _ Ef). pose proof (alloc_bytes _ _ Ef). unfold blen in *. split.
  - rewrite length_take, length_app, length_drop. lia.
  - apply Forall_take, Forall_app. split; [done|]. by apply Forall_drop.
Qed.

Lemma initialize_ready heap `{!AllocOk heap} d p d' :
  demosaic_wf d → 0 <= dp_width p → 0 <= dp_height p →
  initialize heap d p = Some (0, d') → demosaic_ready d' ∧ mParams d' = p.
Proof.
  intros [Hb Hl] ? ? E. unfold initialize in E.
  destruct ((dp_width p =? 0) || (dp_height p =? 0)) eqn:Ez; [by injection E|].
  zbool. apply bind_Some_inv in E as (needed & En & E).
  unfold ck32 in En. case_bool_decide; [|done]. injection En as <-. cbn in E.
  destruct (_ >? _) eqn:Eg; zbool.
  - destruct (realloc _ _ _) as [buf|] eqn:Er; [|by injection E].
    injection E as <-. apply realloc_spec in Er as [? ?]; [|done|lia|done].
    split; [|done]. split_and!; [done|simpl; lia..|done|]. exists buf. simpl. split_and!; auto; lia.
  - injection E as <-. split; [|done].
    split_and!; [done|simpl; lia..|done|]. simpl.
    destruct (mBayerBuf d) as [buf|]; simpl in *.
    + exists buf. split_and!; auto; lia.
    + exfalso. change (blen []) with 0 in *. nia.
Qed.

(** ** The row loop *)

(** The pixel the row loop stores at [(y, x)]. *)
Definition img_px (b8 : list Z) (p : DemosaicParams) (y x : Z) : list Z :=
  let w := dp_width p in
  match row_types p y with
  | Some (ev, od) => row_px b8 (y * w) ((y - 1) * w) ((y + 1) * w) w ev od x
  | None => []
  end.

Lemma px3_bytes a b c : is_byte a → is_byte b → is_byte c → is_bytes [a; b; c].
Proof.
  intros. apply Forall_cons; split; [done|]. apply Forall_cons; split; [done|].
  apply Forall_cons; split; [done|constructor].
Qed.

Lemma img_px_bytes b8 p y x : is_bytes b8 → is_bytes (img_px b8 p y x).
Proof.
  intros Hb. unfold img_px. destruct (row_types p y) as [[ev od]|]; [|constructor].
  unfold row_px, col0_ref, scalar_ref, ev_lane, od_lane. repeat case_match; apply px3_bytes;
    auto using bget_byte, avg2_byte, ravg2_byte, avg4_byte.
Qed.

Lemma row_types_defined p y :
  0 <= dp_bayerPattern p < 4 → ∃ ev od, row_types p y = Some (ev, od).
Proof.
  intros Hp. unfold row_types. change 1 with (Z.ones 1). rewrite !land_ones_mod by lia.
  change (2 ^ 1) with 2.
  pose proof (Z.mod_pos_bound (y + dp_offset_y p mod 2) 2).
  pose proof (Z.mod_pos_bound (dp_offset_x p) 2).
  generalize dependent ((y + dp_offset_y p mod 2) mod 2). generalize dependent (dp_offset_x p mod 2).
  intros ox Hox r Hr.
  assert (ox = 0 ∨ ox = 1) as [-> | ->] by lia; assert (r = 0 ∨ r = 1) as [-> | ->] by lia;
  assert (dp_bayerPattern p = 0 ∨ dp_bayerPattern p = 1 ∨ dp_bayerPattern p = 2 ∨
          dp_bayerPattern p = 3) as [-> | [-> | [-> | ->]]] by lia; vm_compute; eauto.
Qed.

Lemma row_cols_eq w : 3 <= w → row_cols w = if Z.even w then w - 2 else w - 1.
Proof.
  intros. unfold row_cols. pose proof (xe_bounds w) as (? & ? & _ & Hev).
  unfold range_end at 1, zrange_len. set (xe := range_end 2 (w - 9) 8) in *.
  apply Z.even_spec in Hev as [m Hm].
  destruct (Z.even w) eqn:Ew.
  - apply Z.even_spec in Ew as [n ->]. rewrite Hm.
    replace (2 * n - 2 - 2 * m + 2 - 1) with (2 * (n - m) - 1) by lia.
    assert ((2 * (n - m) - 1) / 2 = n - m - 1) as -> by (Z.to_euclidean_division_equations; lia). lia.
  - assert (Z.odd w = true) as Ho by (rewrite <- Z.negb_even, Ew; done).
    apply Z.odd_spec in Ho as [n ->]. rewrite Hm.
    replace (2 * n + 1 - 2 - 2 * m + 2 - 1) with (2 * (n - m)) by lia.
    rewrite (Z.mul_comm 2 (n - m)), Z.div_mul by lia. lia.
Qed.

Lemma process_rows_spec b8 p (rgb : list Z) :
  let w := dp_width p in let h := dp_height p in
  is_bytes b8 → 3 <= w → 3 <= h → 0 <= dp_bayerPattern p < 4 → w * h <= blen b8 →
  w * h * 3 <= blen rgb →
  ∃ r, for_range 1 (h - 1) 1 (λ rgb y,
      '(ev, od) ← row_types p y;
      neon_row b8 (y * w) ((y - 1) * w) ((y + 1) * w) rgb w (y * (w * 3)) ev od) rgb = Some r ∧
    blen r = blen rgb ∧
    ∀ y x k, 0 <= y < h → 0 <= x < w → 0 <= k < 3 →
      ld r (px_addr 3 w y x k) =
      if bool_decide (1 <= y < h - 1 ∧ x < row_cols w) then ld (img_px b8 p y x) k
      else ld rgb (px_addr 3 w y x k).
Proof.
  intros w h Hb Hw Hh Hp Hl Hlen. pose proof (row_cols_eq w Hw) as Hc.
  assert (row_cols w <= w - 1) by (rewrite Hc; destruct (Z.even w); lia).
  edestruct (for_range_inv (λ y' r, blen r = blen rgb ∧
    ∀ y x k, 0 <= y < h → 0 <= x < w → 0 <= k < 3 →
      ld r (px_addr 3 w y x k) =
      if bool_decide (1 <= y < y' ∧ x < row_cols w) then ld (img_px b8 p y x) k
      else ld rgb (px_addr 3 w y x k)) 1 (h - 1) 1)
    as (r & E & Hlr & Hr); [done| | |exists r; split; [exact E|split; [exact Hlr|]]].
  - split; [done|]. intros. by rewrite bool_decide_false by lia.
  - intros y r Hy _ [Hlr Hr]. cbn beta.
    destruct (row_types_defined p y Hp) as (ev & od & Et). rewrite Et. cbn [mbind option_bind].
    destruct (neon_row_spec b8 (y * w) ((y - 1) * w) ((y + 1) * w) w ev od)
      with (rgb := r) (base := y * (w * 3)) as (r' & E & [Hl' Hf]);
      [done|lia|repeat split; nia|nia|nia|].
    exists r'. split_and!; [exact E|lia|].
    intros y' x k ? ? ?. rewrite Hf. case_bool_decide as D.
    + assert (y' = y) as ->. { apply (px_addr_row 3 w y' x k y); [lia..|]. unfold px_addr in *. nia. }
      replace (px_addr 3 w y x k - y * (w * 3)) with (3 * x + k) by (unfold px_addr; ring).
      rewrite row_byte_px by lia.
      rewrite bool_decide_true by (unfold px_addr in *; nia). unfold img_px. by rewrite Et.
    + rewrite Hr by lia. destruct (decide (y' = y)) as [->|Hne].
      * assert (¬ x < row_cols w) by (intros ?; apply D; unfold px_addr; nia).
        by rewrite !bool_decide_false by lia.
      * repeat case_bool_decide; (done || lia).
  - intros y x k ? ? ?. rewrite range_end_unit in Hr by lia. by apply Hr.
Qed.

(** ** process *)

(** The frame as [process] leaves it: bounds, and every byte. *)
Lemma process_total d inb (rgb : list Z) :
  let p := mParams d in let w := dp_width p in let h := dp_height p in
  demosaic_ready d → 3 <= w → 3 <= h → 0 <= dp_bayerPattern p < 4 →
  2 * (w * h) <= blen inb → w * h * 3 <= blen rgb →
  ∃ d' rgb' b8, process d inb rgb = Some (d', rgb') ∧
    demosaic_ready d' ∧ mParams d' = p ∧ mBayerBuf d' = Some b8 ∧ is_bytes b8 ∧
    (∀ i, 0 <= i < w * h → bget b8 i = raw8 inb (normLut p) i) ∧
    blen rgb' = blen rgb ∧
    ∀ y x k, 0 <= y < h → 0 <= x < w → 0 <= k < 3 →
      let y0 := clampi 1 (h - 2) y in let x0 := clampi 1 (w - 2) x in
      ld rgb' (px_addr 3 w y x k) =
      if bool_decide (x0 < row_cols w) then ld (img_px b8 p y0 x0) k
      else ld rgb (px_addr 3 w y0 x0 k).
Proof.
  intros p w h (Hi & ? & ? & Hlut & buf & Hbuf & Hbb & Hbl & Hsz) Hw Hh Hp Hin Hout.
  unfold process. rewrite Hi, Hbuf. fold p w h.
  destruct (raw10_to_8bit_spec inb buf (w * h) (mNormLut d)) as (b8 & -> & Hf);
    [nia|lia|fold p w h in Hsz; lia|by rewrite Hlut, normLut_length|].
  assert (is_bytes b8) as Hb8.
  { eapply filled_bytes; [exact Hf|done|]. intros k v _ [= <-]. apply bget_byte.
    rewrite Hlut. apply normLut_bytes. }
  assert (blen b8 = blen buf) as Hl8 by apply Hf. cbn [mbind option_bind].
  destruct (process_rows_spec b8 p rgb) as (r1 & E1 & Hl1 & H1);
    [done..|fold p w h in Hsz; lia|done|]. fold w h in E1, H1. rewrite E1.
  cbn [mbind option_bind].
  destruct (fill_edges_spec r1 w h) as (r2 & -> & Hl2 & H2); [lia..|]. cbn [mbind option_bind].
  do 3 eexists. split; [reflexivity|]. split.
  { split_and!; [done|simpl; lia..|done|]. exists b8. simpl.
    fold p w h in Hsz |- *. split_and!; auto; lia. }
  split_and!; [done..| |lia|].
  - intros i ?. pose proof (filled_in _ _ _ _ _ i Hf) as E.
    rewrite Z.add_0_l in E. unfold bget at 1. rewrite E by lia. simpl. by rewrite Hlut.
  - intros y x k ? ? ?. rewrite H2 by lia. rewrite H1 by (unfold clampi; lia).
    rewrite (bool_decide_ext _ (clampi 1 (w - 2) x < row_cols w)); [done|].
    split; [by intros [_ ?]|]. intros ?. split; [unfold clampi; lia|done].
Qed.

(** Which columns the row loop leaves alone, after the edges are copied. *)
Lemma stale_cols {A} w x (P : Z → A) (b : A) x0 :
  3 <= w → x0 = clampi 1 (w - 2) x → 0 <= x < w →
  (if bool_decide (x0 < row_cols w) then b else P x0) =
  (if Z.even w && (w - 2 <=? x) then P (w - 2) else b).
Proof.
  intros Hw -> Hx. rewrite row_cols_eq by done. unfold clampi.
  destruct (Z.even w) eqn:Ew; cbn [andb].
  - assert (w ≠ 3) by (intros ->; done).
    case_bool_decide; destruct (Z.leb_spec (w - 2) x); try lia; [done|].
    f_equal. lia.
  - by rewrite bool_decide_true by lia.
Qed.

(** The scratch plane [process] interpolates in: the frame's samples, shifted
    to 8 bits and normalised. *)
Definition bayer8 (d : DemosaicNEON) (inb b8 : list Z) : Prop :=
  is_bytes b8 ∧
  ∀ i, 0 <= i < dp_width (mParams d) * dp_height (mParams d) →
       bget b8 i = raw8 inb (normLut (mParams d)) i.

(** A 12 x 4 RGGB object and frame on which the theorems are instantiated:
    wide enough for one NEON batch. *)
Definition ex_params : DemosaicParams :=
  {| dp_width := 12; dp_height := 4; dp_bayerPattern := 0; dp_offset_x := 0; dp_offset_y := 0;
     dp_blackLevel := 16; dp_whiteLevel := 255 |}.
Definition ex_demosaic : DemosaicNEON :=
  match initialize zero_heap DemosaicNEON_new ex_params with
  | Some (_, d) => d | None => DemosaicNEON_new end.
Definition ex_frame : list Z := (λ k, (k * 37) mod 256) <$> zrange 0 96 1.
Definition ex_rgb : list Z := replicate 144 0.

Lemma ex_demosaic_ready : demosaic_ready ex_demosaic.
Proof.
  apply (initialize_ready zero_heap DemosaicNEON_new ex_params ex_demosaic
           demosaic_new_wf); vm_compute; done.
Qed.

Lemma ex_demosaic_params : mParams ex_demosaic = ex_params.
Proof. vm_compute. reflexivity. Qed.

Lemma ex_frame_bytes : is_bytes ex_frame.
Proof. apply (bool_decide_unpack _). vm_compute. exact I. Qed.

(** C8: demosaicing a frame is memory safe and every byte of the output is
    determined.  For an initialised object and buffers of the documented sizes
    [process] makes no access out of bounds and keeps the output's length and
    the object's invariant.  Pixel [(y, x)] is the pixel the row code computes
    at the nearest interior row and column ([img_px]: the vector batch or the
    scalar remainder, whose formulas differ, see [neon_batch_divergence]),
    except that with an even width the last two columns are not computed from
    the frame at all: they hold what the buffer held at column [w - 2] of that
    row before the call. *)
Theorem process_pixels d inb (rgb : list Z)
  (Hready : demosaic_ready d)
  (Hw : 3 <= dp_width (mParams d)) (Hh : 3 <= dp_height (mParams d))
  (Hpat : 0 <= dp_bayerPattern (mParams d) < 4)
  (Hin : 2 * (dp_width (mParams d) * dp_height (mParams d)) <= blen inb)
  (Hout : dp_width (mParams d) * dp_height (mParams d) * 3 <= blen rgb) :
  let w := dp_width (mParams d) in let h := dp_height (mParams d) in
  ∃ d' rgb' b8, process d inb rgb = Some (d', rgb') ∧
    demosaic_ready d' ∧ blen rgb' = blen rgb ∧ bayer8 d inb b8 ∧
    ∀ y x k, 0 <= y < h → 0 <= x < w → 0 <= k < 3 →
      let y0 := clampi 1 (h - 2) y in let x0 := clampi 1 (w - 2) x in
      ld rgb' (px_addr 3 w y x k) =
      if Z.even w && (w - 2 <=? x) then ld rgb (px_addr 3 w y0 (w - 2) k)
      else ld (img_px b8 (mParams d) y0 x0) k.
Proof.
  intros w h.
  destruct (process_total d inb rgb) as (d' & rgb' & b8 & E & Hr & Hp & Hb & Hby & H8 & Hl & Hpx);
    [done..|].
  exists d', rgb', b8. split; [done|]. split; [done|]. split; [done|]. split; [by split|].
  fold w h in Hpx. intros y x k ? ? ? y0 x0. rewrite Hpx by done. cbn zeta. fold y0 x0.
  apply (stale_cols w x (λ c, ld rgb (px_addr 3 w y0 c k))); done.
Qed.

Lemma process_pixels_witness :
  ∃ d' rgb', process ex_demosaic ex_frame ex_rgb = Some (d', rgb') ∧ blen rgb' = 144.
Proof.
  destruct (process_pixels ex_demosaic ex_frame ex_rgb) as (d' & rgb' & _ & E & _ & Hl & _);
    [exact ex_demosaic_ready|vm_compute; done..|].
  exists d', rgb'. split; [exact E|exact Hl].
Defined.

(** With an even width (both sensors run at 1280 columns) the row loop
    stops two columns short, so the last two columns of every output row keep
    whatever the RGB buffer held at column [w - 2] before the call: they do
    not depend on the frame. *)
Theorem process_stale_columns d inb (rgb : list Z)
  (Hready : demosaic_ready d)
  (Hw : 4 <= dp_width (mParams d)) (Hev : Z.even (dp_width (mParams d)) = true)
  (Hh : 3 <= dp_height (mParams d)) (Hpat : 0 <= dp_bayerPattern (mParams d) < 4)
  (Hin : 2 * (dp_width (mParams d) * dp_height (mParams d)) <= blen inb)
  (Hout : dp_width (mParams d) * dp_height (mParams d) * 3 <= blen rgb) :
  ∃ d' rgb', process d inb rgb = Some (d', rgb') ∧
    ∀ y x k, 0 <= y < dp_height (mParams d) → 0 <= k < 3 →
      dp_width (mParams d) - 2 <= x < dp_width (mParams d) →
      ld rgb' (px_addr 3 (dp_width (mParams d)) y x k) =
      ld rgb (px_addr 3 (dp_width (mParams d)) (clampi 1 (dp_height (mParams d) - 2) y)
                (dp_width (mParams d) - 2) k).
Proof.
  destruct (process_total d inb rgb) as (d' & rgb' & b8 & E & _ & _ & _ & _ & _ & _ & Hpx);
    [done || lia..|].
  exists d', rgb'. split; [done|]. intros y x k ? ? ?. rewrite Hpx by lia.
  rewrite row_cols_eq, Hev by lia.
  rewrite bool_decide_false by (unfold clampi; lia). do 2 f_equal. unfold clampi. lia.
Qed.

Lemma process_stale_columns_witness :
  ∃ d' rgb', process ex_demosaic ex_frame (replicate 144 77) = Some (d', rgb') ∧
    ld rgb' (px_addr 3 12 1 11 0) = Some 77.
Proof.
  destruct (process_stale_columns ex_demosaic ex_frame (replicate 144 77)) as (d' & rgb' & E & H);
    [exact ex_demosaic_ready|vm_compute; done..|].
  exists d', rgb'. split; [exact E|].
  rewrite ex_demosaic_params in H. change (dp_width ex_params) with 12 in H.
  change (dp_height ex_params) with 4 in H. rewrite H; [vm_compute; reflexivity|lia..].
Defined.

(** The vectorised batch agrees with the scalar formulas, up to rounding
    up by one, at every even site other than G1 and at every odd site other
    than G2 except the last pixel of the batch: the sites of the RGGB sensor. *)
Theorem neon_batch_rounding b8 row up dn x ev od
  (Hb : is_bytes b8) (Hwin : window b8 row up dn (x - 1) (x + 8))
  (Hev : ev ≠ 1) (Hod : od ≠ 2) :
  ∃ v, neon_batch_vecs b8 row up dn x = Some v ∧
    ∀ i, 0 <= i < 4 →
      (∃ px px', lane_px (select_ev v ev) i = Some px ∧
         scalar_px b8 row up dn (x + 2 * i) ev = Some px' ∧ close_px px px') ∧
      (i < 3 → ∃ px px', lane_px (select_od v od) i = Some px ∧
         scalar_px b8 row up dn (x + 2 * i + 1) od = Some px' ∧ close_px px px').
Proof.
  destruct Hwin as (? & ? & ? & ? & ? & ?).
  destruct (neon_batch_lanes b8 row up dn x) as (v & -> & Hv); [done|lia..|].
  exists v. split; [done|]. intros i Hi. split.
  - eexists _, _. destruct (Hv i Hi ev) as [-> _].
    rewrite scalar_px_eq by (done || (repeat split; lia)).
    split_and!; [done..|]. by apply ev_lane_close.
  - intros ?. eexists _, _. destruct (Hv i Hi od) as [_ ->].
    rewrite scalar_px_eq by (done || (repeat split; lia)).
    split_and!; [done..|]. apply od_lane_close; lia.
Qed.

Lemma neon_batch_rounding_witness :
  ∃ v, neon_batch_vecs ex_frame 12 0 24 2 = Some v ∧
    ∃ px px', lane_px (select_ev v 0) 0 = Some px ∧
      scalar_px ex_frame 12 0 24 2 0 = Some px' ∧ close_px px px'.
Proof.
  destruct (neon_batch_rounding ex_frame 12 0 24 2 0 1) as (v & E & H);
    [exact ex_frame_bytes|vm_compute; repeat split; done|lia|lia|].
  exists v. split; [exact E|]. destruct (H 0) as [H0 _]; [lia|]. exact H0.
Defined.

(** Where the batch is wrong.  The last odd pixel of a batch takes column
    [x] for its right neighbour instead of [x + 8]; an even G1 site takes its
    red from green samples and its blue from the next column; an odd G2 site
    takes its blue vertically, from the red rows.  (G1 even and G2 odd sites
    are those of the BGGR front sensor.) *)
Theorem neon_batch_divergence b8 row up dn x
  (Hb : is_bytes b8) (Hwin : window b8 row up dn (x - 1) (x + 8)) :
  let B k := bget b8 (row + x + k) in
  let U k := bget b8 (up + x + k) in let D k := bget b8 (dn + x + k) in
  ∃ v, neon_batch_vecs b8 row up dn x = Some v ∧
    lane_px (select_od v 1) 3 = Some [ravg2 (B 6) (B 0); B 7; avg2 (U 7) (D 7)] ∧
    lane_px (select_od v 3) 3 =
      Some [avg4 (U 6) (D 6) (U 0) (D 0); avg4 (B 6) (B 0) (U 7) (D 7); B 7] ∧
    ∀ i, 0 <= i < 3 →
      lane_px (select_ev v 1) i =
        Some [ravg2 (B (2 * i)) (B (2 * i + 2)); B (2 * i); avg2 (U (2 * i + 1)) (D (2 * i + 1))] ∧
      lane_px (select_od v 2) i =
        Some [avg2 (U (2 * i + 1)) (D (2 * i + 1)); B (2 * i + 1);
              avg2 (U (2 * i + 1)) (D (2 * i + 1))].
Proof.
  destruct Hwin as (? & ? & ? & ? & ? & ?). intros B U D.
  destruct (neon_batch_lanes b8 row up dn x) as (v & -> & Hv); [done|lia..|].
  exists v. split; [done|].
  split_and!.
  - destruct (Hv 3) with (t := 1) as [_ ->]; [lia|]. unfold B, U, D, od_lane, next_col.
    cbn -[Z.add Z.sub Z.mul bget]. same_loads.
  - destruct (Hv 3) with (t := 3) as [_ ->]; [lia|]. unfold B, U, D, od_lane, next_col.
    cbn -[Z.add Z.sub Z.mul bget]. same_loads.
  - intros i Hi. destruct (Hv i) with (t := 1) as [-> _]; [lia|].
    destruct (Hv i) with (t := 2) as [_ ->]; [lia|].
    unfold B, U, D, ev_lane, od_lane, next_col. rewrite (proj2 (Z.eqb_neq i 3)) by lia.
    cbn -[Z.add Z.sub Z.mul bget]. split; same_loads.
Qed.

(** On this window the batch's last red sample is off by 127. *)
Lemma neon_batch_divergence_witness :
  let b8 := [0;0;0;0;0;0;0;0;0;0;255;0] in
  ∃ v, neon_batch_vecs b8 0 0 0 2 = Some v ∧
    lane_px (select_od v 1) 3 = Some [0; 0; 0] ∧
    scalar_px b8 0 0 0 9 1 = Some [127; 0; 0].
Proof.
  destruct (neon_batch_divergence [0;0;0;0;0;0;0;0;0;0;255;0] 0 0 0 2) as (v & E & H & _);
    [apply (bool_decide_unpack _); vm_compute; exact I|vm_compute; repeat split; done|].
  exists v. split_and!; [exact E|exact H|reflexivity].
Defined.

(** The black/white-level table is the saturated linear stretch of the
    comment: entry [v] is [(v - bl) * 255 / (wl - bl)] clamped to a byte, so
    black maps to 0, white to 255, and the table is monotone. *)
Theorem norm_lut_correct p
  (Hbl : 0 <= dp_blackLevel p) (Hwl : dp_blackLevel p < dp_whiteLevel p <= 255) :
  let bl := dp_blackLevel p in let wl := dp_whiteLevel p in
  (∀ i, 0 <= i < 256 →
     bget (normLut p) i = Z.min 255 (Z.max 0 (i - bl) * 255 / (wl - bl))) ∧
  bget (normLut p) bl = 0 ∧ bget (normLut p) wl = 255 ∧
  ∀ i j, 0 <= i <= j → j < 256 → bget (normLut p) i <= bget (normLut p) j.
Proof.
  intros bl wl.
  assert (∀ i, 0 <= i < 256 →
     bget (normLut p) i = Z.min 255 (Z.max 0 (i - bl) * 255 / (wl - bl))) as He.
  { intros i Hi. rewrite normLut_at by done. rewrite (proj2 (Z.eqb_neq _ 0)) by lia.
    apply norm_entry_eq. lia. }
  split_and!; [done|..].
  - rewrite He by lia. rewrite Z.sub_diag, Z.div_0_l by lia. done.
  - rewrite He by lia. rewrite Z.max_r by lia.
    rewrite Z.mul_comm, Z.div_mul by lia. done.
  - intros i j ? ?. rewrite !He by lia.
    apply Z.min_le_compat_l, Z.div_le_mono; lia.
Qed.

Lemma norm_lut_correct_witness :
  bget (normLut ex_params) 16 = 0 ∧ bget (normLut ex_params) 255 = 255.
Proof. destruct (norm_lut_correct ex_params) as (_ & H0 & H1 & _); [done|done|]. split; [exact H0|exact H1]. Defined.
