(* ===== verification/ColorConv.v ===== *)
(** * Colour conversion (camera/isp/ColorConvNEON.{h,cpp})

    [ColorConvNEON] converts the interleaved RGB frame to NV12 or to RGBA.
    Every routine has a vector loop and a scalar remainder; the theorems show
    that both compute the same reference formula. *)

From S2P Require Import Prelude Neon Float32.

Record ColorConvNEON := { mWidth : Z; mHeight : Z; mInitialized : bool }.

Definition ColorConvNEON_new : ColorConvNEON :=
  {| mWidth := 0; mHeight := 0; mInitialized := false |}.

Definition initialize (c : ColorConvNEON) (width height : Z) : Z * ColorConvNEON :=
  if (width =? 0) || (height =? 0) then (-1, c)
  else (0, {| mWidth := width; mHeight := height; mInitialized := true |}).

(** ** rgbToNv12 *)

(** One multiply-accumulate chain [c0 * r + c1 * g + c2 * b], rounded, shifted
    and biased, on eight lanes, the low and high halves separately. *)
Definition mac8 (c0 c1 c2 bias : Z) (r16 g16 b16 : list Z) : list Z :=
  let C0 := vdup 8 c0 in let C1 := vdup 8 c1 in let C2 := vdup 8 c2 in
  let lo := vmull_s16 (vget_low C0) (vget_low r16) in
  let lo := vmlal_s16 lo (vget_low C1) (vget_low g16) in
  let lo := vmlal_s16 lo (vget_low C2) (vget_low b16) in
  let hi := vmull_s16 (vget_high C0) (vget_high r16) in
  let hi := vmlal_s16 hi (vget_high C1) (vget_high g16) in
  let hi := vmlal_s16 hi (vget_high C2) (vget_high b16) in
  let v16 := vcombine (vshrn_n_s32 (vaddq_s32 lo (vdup 4 128)) 8)
                      (vshrn_n_s32 (vaddq_s32 hi (vdup 4 128)) 8) in
  vqmovun_s16 (vaddq_s16 v16 (vdup 8 bias)).

Definition widen (v : list Z) : list Z := vreinterpretq_s16_u16 (vmovl_u8 v).

(** The Y plane, at offset [yOff] of the output. *)
Definition yPlane_row (c : ColorConvNEON) (rgb : list Z) (yOff : Z) (out : list Z) (y : Z)
  : option (list Z) :=
  let width := mWidth c in
  let row_base := y * width in
  out ← for_range 0 (width - 7) 8 (λ out x,
    '(r8, g8, b8) ← vld3_u8 rgb ((row_base + x) * 3);
    vst1_u8 out (yOff + row_base + x) (mac8 66 129 25 16 (widen r8) (widen g8) (widen b8))) out;
  for_range (range_end 0 (width - 7) 8) width 1 (λ out x,
    let p := (row_base + x) * 3 in
    r ← ld rgb p; g ← ld rgb (p + 1); b ← ld rgb (p + 2);
    st out (yOff + row_base + x) (u8 (((66 * r + 129 * g + 25 * b + 128) ≫ 8) + 16))) out.

(** One chroma row: the even columns of the even rows. *)
Definition uvPlane_row (c : ColorConvNEON) (rgb : list Z) (uvOff : Z) (out : list Z) (y : Z)
  : option (list Z) :=
  let width := mWidth c in
  let uv_row := (y / 2) * width in
  out ← for_range 0 (width - 15) 16 (λ out x,
    '(r16, g16, b16) ← vld3q_u8 rgb ((y * width + x) * 3);
    let r_even := fst (vuzp_u8 (vget_low r16) (vget_high r16)) in
    let g_even := fst (vuzp_u8 (vget_low g16) (vget_high g16)) in
    let b_even := fst (vuzp_u8 (vget_low b16) (vget_high b16)) in
    let u := mac8 (-38) (-74) 112 128 (widen r_even) (widen g_even) (widen b_even) in
    let v := mac8 112 (-94) (-18) 128 (widen r_even) (widen g_even) (widen b_even) in
    vst2_u8 out (uvOff + uv_row + x) u v) out;
  for_range (range_end 0 (width - 15) 16) width 2 (λ out x,
    if x + 1 >=? width then Some out else
    let p := (y * width + x) * 3 in
    r ← ld rgb p; g ← ld rgb (p + 1); b ← ld rgb (p + 2);
    out ← st out (uvOff + uv_row + x) (u8 (((-38 * r - 74 * g + 112 * b + 128) ≫ 8) + 128));
    st out (uvOff + uv_row + x + 1) (u8 (((112 * r - 94 * g - 18 * b + 128) ≫ 8) + 128))) out.

Definition rgbToNv12 (c : ColorConvNEON) (rgb : list Z) (yOff uvOff : Z) (out : list Z)
  : option (list Z) :=
  if mInitialized c then
    out ← for_range 0 (mHeight c) 1 (yPlane_row c rgb yOff) out;
    for_range 0 (mHeight c) 2 (uvPlane_row c rgb uvOff) out
  else Some out.

(** ** rgbToRgba *)

Definition rgbToRgba (rgb rgba : list Z) (width height : Z) : option (list Z) :=
  let total := u32 (width * height) in
  rgba ← for_range 0 (total - 7) 8 (λ rgba i,
    '(r, g, b) ← vld3_u8 rgb (i * 3);
    vst4_u8 rgba (i * 4) r g b (vdup 8 255)) rgba;
  for_range (range_end 0 (total - 7) 8) total 1 (λ rgba i,
    r ← ld rgb (i * 3); g ← ld rgb (i * 3 + 1); b ← ld rgb (i * 3 + 2);
    stn rgba (i * 4) [r; g; b; 255]) rgba.

(** ** rgbToRgbaWbGamma *)

(** [(int)(gain * 256.0f + 0.5f)]: the gain in Q8.8. *)
Definition gain_q8 (gain : f32) : option Z := f_to_int (fadd (fmul gain (f_of_Z 256)) f_half).

(** White balance on eight lanes: widened to 32 bits, rounded, narrowed with
    saturation.  [vdupq_n_u16] keeps the low 16 bits of the gain. *)
Definition wb8 (v8 : list Z) (gain : Z) : list Z :=
  let v16 := vmovl_u8 v8 in
  let G := vdup 8 (u16 gain) in
  let lo := vmull_u16 (vget_low v16) (vget_low G) in
  let hi := vmull_u16 (vget_high v16) (vget_high G) in
  vqmovn_u16 (vcombine (vshrn_n_u32 (vaddq_u32 lo (vdup 4 128)) 8)
                       (vshrn_n_u32 (vaddq_u32 hi (vdup 4 128)) 8)).

Definition wbGamma_row (rgb gammaLut : list Z) (width height rG gG bG : Z) (flipV : bool)
    (rgba : list Z) (y : Z) : option (list Z) :=
  let stride := width * 4 in
  let srcRow := if flipV then height - 1 - y else y in
  let src := srcRow * width * 3 in
  let dst := y * stride in
  rgba ← for_range 0 (width - 7) 8 (λ rgba x,
    '(r8, g8, b8) ← vld3_u8 rgb (src + x * 3);
    r ← mapM (ld gammaLut) (wb8 r8 rG);
    g ← mapM (ld gammaLut) (wb8 g8 gG);
    b ← mapM (ld gammaLut) (wb8 b8 bG);
    stn rgba (dst + x * 4) (interleave4 r g b (vdup 8 255))) rgba;
  for_range (range_end 0 (width - 7) 8) width 1 (λ rgba x,
    let si := (srcRow * width + x) * 3 in
    let di := y * stride + x * 4 in
    r0 ← ld rgb si; g0 ← ld rgb (si + 1); b0 ← ld rgb (si + 2);
    let r := (r0 * rG + 128) ≫ 8 in
    let g := (g0 * gG + 128) ≫ 8 in
    let b := (b0 * bG + 128) ≫ 8 in
    r ← ld gammaLut (if r >? 255 then 255 else r);
    g ← ld gammaLut (if g >? 255 then 255 else g);
    b ← ld gammaLut (if b >? 255 then 255 else b);
    stn rgba di [r; g; b; 255]) rgba.

Definition rgbToRgbaWbGamma (rgb rgba : list Z) (width height : Z) (rGain gGain bGain : f32)
    (gammaLut : list Z) (flipV : bool) : option (list Z) :=
  rG ← gain_q8 rGain; gG ← gain_q8 gGain; bG ← gain_q8 bGain;
  for_range 0 height 1 (wbGamma_row rgb gammaLut width height rG gG bG flipV) rgba.

(** ** The vector arithmetic computes the reference formulas *)

(** [(c0 * r + c1 * g + c2 * b + 128) >> 8) + bias] in unbounded integers. *)
Definition mac_ref (c0 c1 c2 bias r g b : Z) : Z :=
  ((c0 * r + c1 * g + c2 * b + 128) ≫ 8) + bias.

Definition y_ref := mac_ref 66 129 25 16.
Definition u_ref := mac_ref (-38) (-74) 112 128.
Definition v_ref := mac_ref 112 (-94) (-18) 128.

(** Coefficients for which no intermediate overflows and no lane saturates. *)
Definition mac_fits (c0 c1 c2 bias : Z) : Prop :=
  -256 <= c0 <= 256 ∧ -256 <= c1 <= 256 ∧ -256 <= c2 <= 256 ∧ -256 <= bias <= 256 ∧
  ∀ r g b, is_byte r → is_byte g → is_byte b → is_byte (mac_ref c0 c1 c2 bias r g b).

Ltac mac_range :=
  unfold is_byte, mac_ref; intros; rewrite ?shiftr_div by lia;
  Z.to_euclidean_division_equations; lia.

Lemma y_range r g b : is_byte r → is_byte g → is_byte b → 16 <= y_ref r g b <= 235.
Proof. unfold y_ref. mac_range. Qed.
Lemma u_range r g b : is_byte r → is_byte g → is_byte b → 16 <= u_ref r g b <= 240.
Proof. unfold u_ref. mac_range. Qed.
Lemma v_range r g b : is_byte r → is_byte g → is_byte b → 16 <= v_ref r g b <= 240.
Proof. unfold v_ref. mac_range. Qed.

Lemma y_fits : mac_fits 66 129 25 16.
Proof.
  repeat split; try lia; pose proof (y_range r g b H H0 H1) as Hr; unfold y_ref in Hr; lia.
Qed.
Lemma u_fits : mac_fits (-38) (-74) 112 128.
Proof.
  repeat split; try lia; pose proof (u_range r g b H H0 H1) as Hr; unfold u_ref in Hr; lia.
Qed.
Lemma v_fits : mac_fits 112 (-94) (-18) 128.
Proof.
  repeat split; try lia; pose proof (v_range r g b H H0 H1) as Hr; unfold v_ref in Hr; lia.
Qed.

Lemma mac_lane c0 c1 c2 bias r g b :
  mac_fits c0 c1 c2 bias → is_byte r → is_byte g → is_byte b →
  Z.max 0 (Z.min 255 (i16 (i16 (i32 (i32 (i32 (i32 (c0 * i16 r) + c1 * i16 g) + c2 * i16 b)
    + 128) ≫ 8) + bias))) = mac_ref c0 c1 c2 bias r g b.
Proof.
  intros (H0 & H1 & H2 & Hbias & Hr) Hbr Hbg Hbb. pose proof (Hr r g b Hbr Hbg Hbb) as Hres.
  unfold is_byte in *. rewrite !(i16_id r), !(i16_id g), !(i16_id b) by lia.
  rewrite (i32_id (c0 * r)), (i32_id (_ + c1 * g)), (i32_id (_ + c2 * b)), (i32_id (_ + 128)) by nia.
  unfold mac_ref in *. set (s := _ ≫ 8) in *.
  rewrite (i16_id s), (i16_id (s + bias)) by lia. lia.
Qed.

(** The eight lanes of the chain. *)
Lemma mac8_lanes c0 c1 c2 bias (R G B : Z → Z) :
  mac_fits c0 c1 c2 bias →
  (∀ k, is_byte (R k)) → (∀ k, is_byte (G k)) → (∀ k, is_byte (B k)) →
  let ks := [0; 1; 2; 3; 4; 5; 6; 7] in
  mac8 c0 c1 c2 bias (widen (R <$> ks)) (widen (G <$> ks)) (widen (B <$> ks)) =
  (λ k, mac_ref c0 c1 c2 bias (R k) (G k) (B k)) <$> ks.
Proof.
  intros Hf HR HG HB ks. unfold mac8, widen, ks.
  cbn -[Z.add Z.mul Z.shiftr i16 i32 Z.max Z.min mac_ref].
  rewrite !mac_lane by auto. done.
Qed.

(** De-interleaving loads, channel by channel. *)
Lemma vld3_u8_lanes (b : list Z) off :
  0 <= off → off + 24 <= blen b →
  let ks := [0; 1; 2; 3; 4; 5; 6; 7] in
  vld3_u8 b off = Some ((λ k, bget b (off + 3 * k)) <$> ks,
                        (λ k, bget b (off + 3 * k + 1)) <$> ks,
                        (λ k, bget b (off + 3 * k + 2)) <$> ks).
Proof.
  intros ? ? ks. unfold vld3_u8, vld3, ks. rewrite ldn_bget by lia.
  change (seqZ 0 (3 * 8)) with
    [0;1;2;3;4;5;6;7;8;9;10;11;12;13;14;15;16;17;18;19;20;21;22;23].
  cbn -[Z.add Z.mul bget]. same_loads.
Qed.

(** The even lanes of a 16-lane load. *)
Lemma vld3q_u8_even (b : list Z) off :
  0 <= off → off + 48 <= blen b →
  let ks := [0; 1; 2; 3; 4; 5; 6; 7] in
  ∃ r g bl, vld3q_u8 b off = Some (r, g, bl) ∧
    fst (vuzp_u8 (vget_low r) (vget_high r)) = ((λ k, bget b (off + 6 * k)) <$> ks) ∧
    fst (vuzp_u8 (vget_low g) (vget_high g)) = ((λ k, bget b (off + 6 * k + 1)) <$> ks) ∧
    fst (vuzp_u8 (vget_low bl) (vget_high bl)) = ((λ k, bget b (off + 6 * k + 2)) <$> ks).
Proof.
  intros ? ? ks. unfold vld3q_u8, vld3, ks. rewrite ldn_bget by lia.
  change (seqZ 0 (3 * 16)) with
    [0;1;2;3;4;5;6;7;8;9;10;11;12;13;14;15;16;17;18;19;20;21;22;23;
     24;25;26;27;28;29;30;31;32;33;34;35;36;37;38;39;40;41;42;43;44;45;46;47].
  cbn -[Z.add Z.mul bget]. do 3 eexists. split; [reflexivity|].
  cbn -[Z.add Z.mul bget]. split_and!; same_loads.
Qed.

Lemma ld_lanes8 (F : Z → Z) k : 0 <= k < 8 → ld (F <$> [0; 1; 2; 3; 4; 5; 6; 7]) k = Some (F k).
Proof.
  intros. assert (k = 0 ∨ k = 1 ∨ k = 2 ∨ k = 3 ∨ k = 4 ∨ k = 5 ∨ k = 6 ∨ k = 7) as Hk by lia.
  by destruct Hk as [-> | [-> | [-> | [-> | [-> | [-> | [-> | ->]]]]]]].
Qed.

(** The end of the vector loop of step [s] over [n] elements. *)
Lemma vec_end_bounds n s : 0 < s → 0 <= n →
  0 <= range_end 0 (n - (s - 1)) s <= n ∧ (s | range_end 0 (n - (s - 1)) s).
Proof.
  intros. unfold range_end, zrange_len. rewrite Z.add_0_l. split.
  - destruct (decide (n - (s - 1) <= 0)).
    + assert ((n - (s - 1) - 0 + s - 1) / s < 1) by (apply Z.div_lt_upper_bound; lia). nia.
    + pose proof (Z.mul_div_le (n - (s - 1) - 0 + s - 1) s).
      assert (0 <= (n - (s - 1) - 0 + s - 1) / s) by (apply Z.div_pos; lia).
      rewrite Z.max_r by lia. nia.
  - apply Z.divide_factor_l.
Qed.

Lemma ld_interleave2 (U V : Z → Z) k : 0 <= k < 16 →
  ld (interleave2 (U <$> [0; 1; 2; 3; 4; 5; 6; 7]) (V <$> [0; 1; 2; 3; 4; 5; 6; 7])) k =
  Some (if Z.even k then U (k / 2) else V (k / 2)).
Proof.
  intros. assert (k ∈ seqZ 0 16) as Hk by (apply elem_of_seqZ; lia).
  change (seqZ 0 16) with [0;1;2;3;4;5;6;7;8;9;10;11;12;13;14;15] in Hk.
  repeat (apply elem_of_cons in Hk as [-> | Hk]; [reflexivity|]). by apply not_elem_of_nil in Hk.
Qed.

(** A byte index inside chroma row [m]. *)
Lemma uv_index w m x : 0 <= x < w → (m * w + x) / w = m ∧ (m * w + x) mod w = x.
Proof.
  intros. rewrite (Z.add_comm (m * w)).
  rewrite Z.div_add, Z.div_small, Z.mod_add, Z.mod_small by lia. lia.
Qed.

(** The scalar remainder writes the same expressions. *)
Lemma u_scalar r g b : ((-38 * r - 74 * g + 112 * b + 128) ≫ 8) + 128 = u_ref r g b.
Proof. unfold u_ref, mac_ref. do 2 f_equal. lia. Qed.
Lemma v_scalar r g b : ((112 * r - 94 * g - 18 * b + 128) ≫ 8) + 128 = v_ref r g b.
Proof. unfold v_ref, mac_ref. do 2 f_equal. lia. Qed.

Section Planes.
Context (rgb : list Z) (Hrgb : is_bytes rgb).

Local Abbreviation R i := (bget rgb (i * 3)).
Local Abbreviation G i := (bget rgb (i * 3 + 1)).
Local Abbreviation B i := (bget rgb (i * 3 + 2)).

(** The luma of pixel [i] of the frame. *)
Definition y_at (i : Z) : Z := y_ref (R i) (G i) (B i).

Lemma yPlane_row_spec c yOff out0 out y :
  let w := mWidth c in
  0 <= w → 0 <= y → 0 <= yOff → (y * w + w) * 3 <= blen rgb → yOff + y * w + w <= blen out0 →
  filled (λ i, Some (y_at i)) yOff (y * w) out0 out →
  ∃ out', yPlane_row c rgb yOff out y = Some out' ∧
          filled (λ i, Some (y_at i)) yOff ((y + 1) * w) out0 out'.
Proof using Hrgb.
  intros w ? ? ? Hin Hout Hf. unfold yPlane_row. fold w.
  pose proof (vec_end_bounds w 8) as [Hxe _]; [lia..|]. change (8 - 1) with 7 in Hxe.
  assert (0 <= y * w) by nia.
  edestruct (for_range_inv (λ x o, filled (λ i, Some (y_at i)) yOff (y * w + x) out0 o)
    0 (w - 7) 8) as (o1 & E1 & Ho1); [done|by rewrite Z.add_0_r| |rewrite E1; cbn [mbind option_bind]].
  { intros x o Hx _ Ho. cbn beta.
    rewrite vld3_u8_lanes by nia. cbn [mbind option_bind].
    rewrite mac8_lanes by (apply y_fits || auto with buffers). unfold vst1_u8.
    rewrite <- Z.add_assoc, (Z.add_assoc (y * w)).
    match goal with |- context [stn o _ ?vs] =>
      destruct (filled_stn _ yOff (y * w + x) out0 o vs Ho) as (o' & E & Ho') end.
    - done.
    - nia.
    - change (blen (_ <$> _)) with 8. nia.
    - change (blen (_ <$> _)) with 8. intros k Hk. rewrite ld_lanes8 by done.
      unfold y_at, y_ref. f_equal. f_equal; same_loads.
    - exists o'. split; [exact E|exact Ho']. }
  edestruct (for_range_inv (λ x o, filled (λ i, Some (y_at i)) yOff (y * w + x) out0 o)
    (range_end 0 (w - 7) 8) w 1) as (o2 & E2 & Ho2); [done|exact Ho1| |exists o2; split; [exact E2|]].
  { intros x o Hx _ Ho. cbn beta zeta. rewrite !ld_bget by lia. cbn [mbind option_bind].
    destruct (filled_st (λ i, Some (y_at i)) yOff (y * w + x) out0 o (y_at (y * w + x))
      (yOff + y * w + x)) as (o' & E & Ho'); [done|lia|lia|lia|done|lia|].
    exists o'. rewrite <- E, Z.add_assoc. split; [|done]. f_equal.
    pose proof (y_range (R (y * w + x)) (G (y * w + x)) (B (y * w + x))).
    apply u8_id. unfold is_byte, y_at, y_ref, mac_ref in *.
    pose proof (bget_byte rgb ((y * w + x) * 3) Hrgb). 
    pose proof (bget_byte rgb ((y * w + x) * 3 + 1) Hrgb).
    pose proof (bget_byte rgb ((y * w + x) * 3 + 2) Hrgb). unfold is_byte in *. lia. }
  rewrite range_end_unit in Ho2 by lia. by replace ((y + 1) * w) with (y * w + w) by ring.
Qed.

(** Byte [j] of the chroma plane: U at even offsets, V at odd ones, of the
    even column and row the byte stands for. *)
Definition uv_at (w j : Z) : Z :=
  let p := 2 * (j / w) * w + (j mod w - (j mod w) mod 2) in
  if Z.even (j mod w) then u_ref (R p) (G p) (B p) else v_ref (R p) (G p) (B p).

Lemma uv_at_even w m x : 0 <= x < w → Z.even x = true →
  uv_at w (m * w + x) = u_ref (R (2 * m * w + x)) (G (2 * m * w + x)) (B (2 * m * w + x)).
Proof using.
  intros Hx Ex. unfold uv_at. destruct (uv_index w m x Hx) as [-> ->]. rewrite Ex.
  apply Z.even_spec in Ex as [q ->]. rewrite (Z.mul_comm 2 q), Z.mod_mul by lia.
  by rewrite Z.sub_0_r.
Qed.

Lemma uv_at_odd w m x : 0 <= x → x + 1 < w → Z.even x = true →
  uv_at w (m * w + (x + 1)) = v_ref (R (2 * m * w + x)) (G (2 * m * w + x)) (B (2 * m * w + x)).
Proof using.
  intros Hx ? Ex. unfold uv_at. destruct (uv_index w m (x + 1)) as [-> ->]; [lia|].
  rewrite Z.even_add, Ex. simpl.
  apply Z.even_spec in Ex as [q ->].
  replace ((2 * q + 1) mod 2) with 1 by (rewrite Z.add_comm, (Z.mul_comm 2 q), Z.mod_add by lia; done).
  by replace (2 * q + 1 - 1) with (2 * q) by lia.
Qed.

Lemma chroma_bytes p : is_byte (u_ref (R p) (G p) (B p)) ∧ is_byte (v_ref (R p) (G p) (B p)).
Proof using Hrgb.
  pose proof (u_range (R p) (G p) (B p)). pose proof (v_range (R p) (G p) (B p)).
  unfold is_byte in *.
  pose proof (bget_byte rgb (p * 3) Hrgb). pose proof (bget_byte rgb (p * 3 + 1) Hrgb).
  pose proof (bget_byte rgb (p * 3 + 2) Hrgb). unfold is_byte in *. lia.
Qed.

(** One NEON group of eight chroma pairs. *)
Lemma uv_batch w m x uvOff out0 o :
  0 <= m → 0 <= x → x + 16 <= w → (2 | x) → 0 <= uvOff → (2 * m * w + w) * 3 <= blen rgb →
  uvOff + m * w + w <= blen out0 →
  filled (λ j, Some (uv_at w j)) uvOff (m * w + x) out0 o →
  ∃ o', ('(r16, g16, b16) ← vld3q_u8 rgb ((2 * m * w + x) * 3);
    let r_even := fst (vuzp_u8 (vget_low r16) (vget_high r16)) in
    let g_even := fst (vuzp_u8 (vget_low g16) (vget_high g16)) in
    let b_even := fst (vuzp_u8 (vget_low b16) (vget_high b16)) in
    let u := mac8 (-38) (-74) 112 128 (widen r_even) (widen g_even) (widen b_even) in
    let v := mac8 112 (-94) (-18) 128 (widen r_even) (widen g_even) (widen b_even) in
    vst2_u8 o (uvOff + m * w + x) u v) = Some o' ∧
    filled (λ j, Some (uv_at w j)) uvOff (m * w + (x + 16)) out0 o'.
Proof using Hrgb.
  intros ? ? ? [q Hq] ? ? ? Ho. assert (0 <= m * w) by nia.
  destruct (vld3q_u8_even rgb ((2 * m * w + x) * 3)) as (r & g & bl & -> & Er & Eg & Eb); [lia..|].
  cbn [mbind option_bind]. cbn zeta. rewrite Er, Eg, Eb.
  rewrite !mac8_lanes by (apply u_fits || apply v_fits || auto with buffers). unfold vst2_u8.
  rewrite <- Z.add_assoc.
  match goal with |- context [stn o _ ?vs] =>
    destruct (filled_stn _ uvOff (m * w + x) out0 o vs Ho) as (o' & E & Ho') end; [lia..| | |].
  - change (blen (interleave2 _ _)) with 16. lia.
  - change (blen (interleave2 _ _)) with 16. intros k Hk. rewrite ld_interleave2 by done. f_equal.
    replace (m * w + x + k) with (m * w + (x + k)) by lia.
    destruct (Z.even k) eqn:Ek.
    + rewrite uv_at_even; [|lia|by rewrite Z.even_add, Ek, Hq, Z.even_mul, orb_true_r].
      apply Z.even_spec in Ek as [j ->]. rewrite (Z.mul_comm 2 j), Z.div_mul by lia.
      unfold u_ref. same_loads.
    + assert (Z.odd k = true) as Hodd by (rewrite <- Z.negb_even, Ek; done).
      apply Z.odd_spec in Hodd as [j ->].
      replace (x + (2 * j + 1)) with (x + 2 * j + 1) by lia.
      rewrite uv_at_odd; [|lia|lia|by rewrite Z.even_add_mul_2, Hq, Z.even_mul, orb_true_r].
      replace ((2 * j + 1) / 2) with j by (Z.to_euclidean_division_equations; lia).
      unfold v_ref. same_loads.
  - exists o'. split; [exact E|]. by rewrite Z.add_assoc.
Qed.

(** One chroma pair of the scalar remainder. *)
Lemma uv_pair w m x uvOff out0 o :
  0 <= m → 0 <= x < w → Z.even x = true → Z.even w = true → 0 <= uvOff →
  (2 * m * w + w) * 3 <= blen rgb → uvOff + m * w + w <= blen out0 →
  filled (λ j, Some (uv_at w j)) uvOff (m * w + x) out0 o →
  ∃ o', (if x + 1 >=? w then Some o else
    let p := (2 * m * w + x) * 3 in
    r ← ld rgb p; g ← ld rgb (p + 1); b ← ld rgb (p + 2);
    out ← st o (uvOff + m * w + x) (u8 (((-38 * r - 74 * g + 112 * b + 128) ≫ 8) + 128));
    st out (uvOff + m * w + x + 1) (u8 (((112 * r - 94 * g - 18 * b + 128) ≫ 8) + 128))) = Some o' ∧
    filled (λ j, Some (uv_at w j)) uvOff (m * w + (x + 2)) out0 o'.
Proof using Hrgb.
  intros ? ? Ex Hev ? ? ? Ho. assert (0 <= m * w) by nia.
  assert (x + 1 < w) by (apply Z.even_spec in Hev as [? ?], Ex as [? ?]; lia).
  destruct (x + 1 >=? w) eqn:Eg; zbool; [lia|]. cbn zeta.
  rewrite !ld_bget by lia. cbn [mbind option_bind]. rewrite u_scalar, v_scalar.
  destruct (chroma_bytes (2 * m * w + x)) as [Hu Hv]. rewrite !u8_id by done.
  destruct (filled_st (λ j, Some (uv_at w j)) uvOff (m * w + x) out0 o
    (uv_at w (m * w + x)) (uvOff + m * w + x)) as (o' & E & Ho'); [done|lia..|done|lia|].
  rewrite uv_at_even in E by (done || lia). rewrite E. cbn [mbind option_bind].
  destruct (filled_st (λ j, Some (uv_at w j)) uvOff (m * w + x + 1) out0 o'
    (uv_at w (m * w + x + 1)) (uvOff + m * w + x + 1)) as (o3 & E3 & Ho3); [done|lia..|done|lia|].
  rewrite <- (Z.add_assoc (m * w)), uv_at_odd in E3 by (done || lia).
  exists o3. split; [exact E3|]. by replace (m * w + (x + 2)) with (m * w + x + 1 + 1) by lia.
Qed.

Lemma uvPlane_row_spec c uvOff out0 out m :
  let w := mWidth c in
  0 <= w → Z.even w = true → 0 <= m → 0 <= uvOff →
  (2 * m * w + w) * 3 <= blen rgb → uvOff + m * w + w <= blen out0 →
  filled (λ j, Some (uv_at w j)) uvOff (m * w) out0 out →
  ∃ out', uvPlane_row c rgb uvOff out (2 * m) = Some out' ∧
          filled (λ j, Some (uv_at w j)) uvOff ((m + 1) * w) out0 out'.
Proof using Hrgb.
  intros w ? Hev ? ? Hin Hout Hf. unfold uvPlane_row. fold w.
  replace (2 * m / 2) with m by (rewrite Z.mul_comm, Z.div_mul; lia).
  pose proof (vec_end_bounds w 16) as [Hxe Hdiv]; [lia..|]. change (16 - 1) with 15 in *.
  assert (0 <= m * w) by nia.
  edestruct (for_range_inv (λ x o, filled (λ j, Some (uv_at w j)) uvOff (m * w + x) out0 o)
    0 (w - 15) 16) as (o1 & E1 & Ho1); [done|by rewrite Z.add_0_r| |rewrite E1; cbn [mbind option_bind]].
  { intros x o Hx [q Hq] Ho. apply uv_batch; try done; try lia. exists (8 * q). lia. }
  edestruct (for_range_inv (λ x o, filled (λ j, Some (uv_at w j)) uvOff (m * w + x) out0 o)
    (range_end 0 (w - 15) 16) w 2) as (o2 & E2 & Ho2); [done|exact Ho1| |exists o2; split; [exact E2|]].
  { intros x o Hx [q Hq] Ho. destruct Hdiv as [d Hd]. apply uv_pair; try done; try lia.
    replace x with (2 * (q + d * 8)) by lia. by rewrite Z.even_mul. }
  assert (range_end (range_end 0 (w - 15) 16) w 2 = w) as Hend.
  { destruct Hdiv as [d Hd]. apply Z.even_spec in Hev as [v Hv]. rewrite Hd.
    unfold range_end at 1, zrange_len. rewrite Hv.
    replace (2 * v - d * 16 + 2 - 1) with (1 + (v - d * 8) * 2) by lia.
    rewrite Z.div_add by lia. change (1 / 2) with 0. lia. }
  rewrite Hend in Ho2. by replace ((m + 1) * w) with (m * w + w) by ring.
Qed.
End Planes.

(** ** NV12 *)

(** Both planes of the NV12 image, for an even width. *)
Lemma rgbToNv12_total c rgb yOff uvOff (out : list Z) :
  let w := mWidth c in let h := mHeight c in
  mInitialized c = true → is_bytes rgb → 0 <= w → Z.even w = true → 0 <= h →
  w * h * 3 <= blen rgb → 0 <= yOff → yOff + w * h <= uvOff →
  uvOff + ((h + 1) / 2) * w <= blen out →
  ∃ out', rgbToNv12 c rgb yOff uvOff out = Some out' ∧ blen out' = blen out ∧
    (∀ i, 0 <= i < w * h → ld out' (yOff + i) = Some (y_at rgb i)) ∧
    (∀ j, 0 <= j < ((h + 1) / 2) * w → ld out' (uvOff + j) = Some (uv_at rgb w j)).
Proof.
  intros w h Hi Hrgb ? Hev ? Hin ? ? Hout. unfold rgbToNv12. rewrite Hi. fold h.
  assert (0 <= (h + 1) / 2 * w) by (apply Z.mul_nonneg_nonneg; [apply Z.div_pos; lia|lia]).
  edestruct (for_range_inv (λ y o, filled (λ i, Some (y_at rgb i)) yOff (y * w) out o) 0 h 1)
    as (o1 & E1 & Ho1); [done|apply filled_0| |rewrite E1; cbn [mbind option_bind]].
  { intros y o ? _ Ho. apply yPlane_row_spec; fold w; first [done|lia|nia]. }
  rewrite range_end_unit in Ho1 by lia.
  edestruct (for_range_inv (λ y o, filled (λ j, Some (uv_at rgb w j)) uvOff (y / 2 * w) o1 o) 0 h 2)
    as (o2 & E2 & Ho2); [done|apply filled_0| |].
  { intros y o Hy [q Hq] Ho. replace y with (2 * q) in * by lia.
    rewrite (Z.mul_comm 2 q) in Ho. rewrite Z.div_mul in Ho by lia.
    replace ((2 * q + 2) / 2) with (q + 1)
      by (replace (2 * q + 2) with ((q + 1) * 2) by ring; rewrite Z.div_mul; lia).
    assert (q + 1 <= (h + 1) / 2) by (apply Z.div_le_lower_bound; lia).
    pose proof (filled_length _ _ _ _ _ Ho1).
    apply uvPlane_row_spec; fold w; first [done|lia|nia]. }
  exists o2. split; [exact E2|]. destruct Ho1 as [Hl1 Hf1], Ho2 as [Hl2 Hf2].
  split; [lia|].
  assert (range_end 0 h 2 / 2 * w = (h + 1) / 2 * w) as Hrow.
  { f_equal. unfold range_end, zrange_len. rewrite Z.add_0_l, Z.mul_comm, Z.div_mul by lia.
    replace (h - 0 + 2 - 1) with (h + 1) by lia.
    assert (0 <= (h + 1) / 2) by (apply Z.div_pos; lia). lia. }
  rewrite Hrow in Hf2. split.
  - intros i ?. rewrite Hf2, bool_decide_false by lia. rewrite Hf1, bool_decide_true by (rewrite Z.mul_comm; lia).
    do 2 f_equal. lia.
  - intros j ?. rewrite Hf2, bool_decide_true by lia. do 2 f_equal. lia.
Qed.

(** C10: RGB to NV12 is memory safe and exact: for an initialised converter
    and an even width, every luma byte is [((66r + 129g + 25b + 128) >> 8) + 16]
    of its pixel and every chroma pair the U and V of the even pixel it stands
    for, whether the vector loop or the scalar remainder wrote it; luma stays
    in [16, 235] and chroma in [16, 240], so nothing saturates. *)
Theorem rgbToNv12_correct c rgb yOff uvOff (out : list Z)
  (Hinit : mInitialized c = true) (Hrgb : is_bytes rgb)
  (Hw : 0 <= mWidth c) (Hev : Z.even (mWidth c) = true) (Hh : 0 <= mHeight c)
  (Hin : mWidth c * mHeight c * 3 <= blen rgb)
  (HyOff : 0 <= yOff) (HuvOff : yOff + mWidth c * mHeight c <= uvOff)
  (Hout : uvOff + ((mHeight c + 1) / 2) * mWidth c <= blen out) :
  ∃ out', rgbToNv12 c rgb yOff uvOff out = Some out' ∧ blen out' = blen out ∧
    (∀ i, 0 <= i < mWidth c * mHeight c →
       ld out' (yOff + i) =
         Some (y_ref (bget rgb (i * 3)) (bget rgb (i * 3 + 1)) (bget rgb (i * 3 + 2))) ∧
       16 <= bget out' (yOff + i) <= 235) ∧
    (∀ m x, 0 <= 2 * m < mHeight c → 0 <= 2 * x < mWidth c →
       let p := 2 * m * mWidth c + 2 * x in
       ld out' (uvOff + (m * mWidth c + 2 * x)) =
         Some (u_ref (bget rgb (p * 3)) (bget rgb (p * 3 + 1)) (bget rgb (p * 3 + 2))) ∧
       ld out' (uvOff + (m * mWidth c + (2 * x + 1))) =
         Some (v_ref (bget rgb (p * 3)) (bget rgb (p * 3 + 1)) (bget rgb (p * 3 + 2))) ∧
       16 <= bget out' (uvOff + (m * mWidth c + 2 * x)) <= 240 ∧
       16 <= bget out' (uvOff + (m * mWidth c + (2 * x + 1))) <= 240).
Proof.
  destruct (rgbToNv12_total c rgb yOff uvOff out) as (o & E & Hl & Hy & Huv); [done..|].
  exists o. split; [done|]. split; [done|]. split.
  - intros i Hi. unfold bget at 4 5. rewrite Hy by done. split; [done|].
    apply y_range; auto with buffers.
  - intros m x Hm Hx p.
    assert (m + 1 <= (mHeight c + 1) / 2) by (apply Z.div_le_lower_bound; lia).
    assert (2 * x + 1 < mWidth c) by (apply Z.even_spec in Hev as [? ?]; lia).
    assert (ld o (uvOff + (m * mWidth c + 2 * x)) =
      Some (u_ref (bget rgb (p * 3)) (bget rgb (p * 3 + 1)) (bget rgb (p * 3 + 2)))) as EU.
    { rewrite Huv by nia. by rewrite uv_at_even by (lia || by rewrite Z.even_mul). }
    assert (ld o (uvOff + (m * mWidth c + (2 * x + 1))) =
      Some (v_ref (bget rgb (p * 3)) (bget rgb (p * 3 + 1)) (bget rgb (p * 3 + 2)))) as EV.
    { rewrite Huv by nia. by rewrite uv_at_odd by (lia || by rewrite Z.even_mul). }
    split; [done|]. split; [done|]. unfold bget at 1 2 3 4. rewrite EU, EV.
    split; [apply u_range|apply v_range]; auto with buffers.
Qed.

Lemma rgbToNv12_correct_witness :
  let c := {| mWidth := 18; mHeight := 2; mInitialized := true |} in
  let rgb := (λ k, (k * 29) mod 256) <$> zrange 0 108 1 in
  ∃ out', rgbToNv12 c rgb 0 36 (replicate 54 0) = Some out' ∧ blen out' = 54.
Proof.
  destruct (rgbToNv12_correct {| mWidth := 18; mHeight := 2; mInitialized := true |}
    ((λ k, (k * 29) mod 256) <$> zrange 0 108 1) 0 36 (replicate 54 0)) as (o & E & Hl & _);
    [done|apply (bool_decide_unpack _); vm_compute; exact I|vm_compute; done..|].
  exists o. split; [exact E|exact Hl].
Defined.

(** ** RGBA *)

(** An RGBA image given pixel by pixel. *)
Definition rgba_byte (px : Z → list Z) (j : Z) : option Z := ld (px (j / 4)) (j mod 4).

Lemma rgba_byte_px px i k : 0 <= k < 4 → rgba_byte px (4 * i + k) = ld (px i) k.
Proof. intros. unfold rgba_byte. by destruct (px_index 4 i k) as [-> ->]. Qed.

Lemma ld_interleave4 (R G B A : Z → Z) k : 0 <= k < 32 →
  let ks := [0; 1; 2; 3; 4; 5; 6; 7] in
  ld (interleave4 (R <$> ks) (G <$> ks) (B <$> ks) (A <$> ks)) k =
  ld [R (k / 4); G (k / 4); B (k / 4); A (k / 4)] (k mod 4).
Proof.
  intros Hk0 ks. assert (k ∈ seqZ 0 32) as Hk by (apply elem_of_seqZ; lia).
  change (seqZ 0 32) with
    [0;1;2;3;4;5;6;7;8;9;10;11;12;13;14;15;16;17;18;19;20;21;22;23;24;25;26;27;28;29;30;31] in Hk.
  repeat (apply elem_of_cons in Hk as [-> | Hk]; [reflexivity|]). by apply not_elem_of_nil in Hk.
Qed.

(** Storing eight pixels at once, and one pixel. *)
Lemma rgba_store8 px base i (R G B : Z → Z) out0 o :
  let ks := [0; 1; 2; 3; 4; 5; 6; 7] in
  filled (rgba_byte px) base (4 * i) out0 o → 0 <= base → 0 <= i → base + 4 * (i + 8) <= blen out0 →
  (∀ k, 0 <= k < 8 → px (i + k) = [R k; G k; B k; 255]) →
  ∃ o', stn o (base + i * 4) (interleave4 (R <$> ks) (G <$> ks) (B <$> ks) (vdup 8 255)) = Some o' ∧
        filled (rgba_byte px) base (4 * (i + 8)) out0 o'.
Proof.
  intros ks Ho ? ? ? Hpx.
  change (vdup 8 255) with ((λ _, 255) <$> ks).
  destruct (filled_stn _ base (4 * i) out0 o
    (interleave4 (R <$> ks) (G <$> ks) (B <$> ks) ((λ _, 255) <$> ks)) Ho) as (o' & E & Ho');
    [lia..| | |].
  - change (blen (interleave4 _ _ _ _)) with 32. lia.
  - change (blen (interleave4 _ _ _ _)) with 32. intros k Hk.
    unfold ks. rewrite ld_interleave4 by done.
    pose proof (Z.div_mod k 4). pose proof (Z.mod_pos_bound k 4).
    replace (4 * i + k) with (4 * (i + k / 4) + k mod 4) by lia.
    rewrite rgba_byte_px by lia.
    rewrite Hpx; [done|]. split; [apply Z.div_pos; lia|apply Z.div_lt_upper_bound; lia].
  - exists o'. rewrite (Z.mul_comm i 4). split; [exact E|].
    by replace (4 * (i + 8)) with (4 * i + 32) by lia.
Qed.

Lemma rgba_store1 px base i p out0 o :
  filled (rgba_byte px) base (4 * i) out0 o → 0 <= base → 0 <= i → base + 4 * (i + 1) <= blen out0 →
  blen p = 4 → px i = p →
  ∃ o', stn o (base + i * 4) p = Some o' ∧ filled (rgba_byte px) base (4 * (i + 1)) out0 o'.
Proof.
  intros Ho ? ? ? Hp Hpx.
  destruct (filled_stn _ base (4 * i) out0 o p Ho) as (o' & E & Ho'); [lia..| |].
  - intros k Hk. rewrite rgba_byte_px by lia. by rewrite Hpx.
  - exists o'. rewrite (Z.mul_comm i 4). split; [exact E|].
    by replace (4 * (i + 1)) with (4 * i + blen p) by lia.
Qed.

Definition opaque_px (rgb : list Z) (i : Z) : list Z :=
  [bget rgb (i * 3); bget rgb (i * 3 + 1); bget rgb (i * 3 + 2); 255].

Lemma rgbToRgba_total rgb (rgba : list Z) width height :
  0 <= width → 0 <= height → width * height < 2 ^ 32 →
  width * height * 3 <= blen rgb → width * height * 4 <= blen rgba →
  ∃ rgba', rgbToRgba rgb rgba width height = Some rgba' ∧ blen rgba' = blen rgba ∧
    ∀ i k, 0 <= i → 0 <= k < 4 →
      ld rgba' (i * 4 + k) =
      if bool_decide (i < width * height) then ld (opaque_px rgb i) k else ld rgba (i * 4 + k).
Proof.
  intros Hw Hh Hfit Hin Hout.
  set (total := width * height) in *. assert (0 <= total) by (unfold total; nia).
  unfold rgbToRgba. fold total. rewrite u32_id by lia.
  pose proof (vec_end_bounds total 8) as [Hxe _]; [lia..|]. change (8 - 1) with 7 in Hxe.
  edestruct (for_range_inv (λ i o, filled (rgba_byte (opaque_px rgb)) 0 (4 * i) rgba o) 0 (total - 7) 8)
    as (o1 & E1 & Ho1); [done|apply filled_0| |rewrite E1; cbn [mbind option_bind]].
  { intros i o Hi _ Ho. cbn beta. rewrite vld3_u8_lanes by lia. cbn [mbind option_bind]. unfold vst4_u8.
    rewrite <- (Z.add_0_l (i * 4)).
    apply (rgba_store8 (opaque_px rgb) 0 i); try done; try lia.
    intros k Hk. unfold opaque_px. same_loads. }
  edestruct (for_range_inv (λ i o, filled (rgba_byte (opaque_px rgb)) 0 (4 * i) rgba o)
    (range_end 0 (total - 7) 8) total 1) as (o2 & E2 & Ho2);
    [done|exact Ho1| |exists o2; split; [exact E2|]].
  { intros i o Hi _ Ho. cbn beta. rewrite !ld_bget by lia. cbn [mbind option_bind].
    rewrite <- (Z.add_0_l (i * 4)). by apply (rgba_store1 (opaque_px rgb) 0 i); try lia. }
  rewrite range_end_unit in Ho2 by lia. destruct Ho2 as [Hl Hf].
  split; [done|]. intros i k ? ?. rewrite Hf.
  rewrite (bool_decide_ext _ (i < total)) by lia.
  case_bool_decide; [|done]. replace (i * 4 + k - 0) with (4 * i + k) by lia. by rewrite rgba_byte_px.
Qed.

(** RGB to RGBA is memory safe and copies every pixel with alpha 255:
    exactly the first [4 * width * height] bytes of the output are written. *)
Theorem rgbToRgba_correct rgb (rgba : list Z) width height
  (Hw : 0 <= width) (Hh : 0 <= height) (Hfit : width * height < 2 ^ 32)
  (Hin : width * height * 3 <= blen rgb) (Hout : width * height * 4 <= blen rgba) :
  ∃ rgba', rgbToRgba rgb rgba width height = Some rgba' ∧ blen rgba' = blen rgba ∧
    ∀ i k, 0 <= i → 0 <= k < 4 →
      ld rgba' (i * 4 + k) =
      if bool_decide (i < width * height) then ld (opaque_px rgb i) k else ld rgba (i * 4 + k).
Proof. by apply rgbToRgba_total. Qed.

Lemma rgbToRgba_correct_witness :
  ∃ rgba', rgbToRgba (zrange 0 33 1) (replicate 44 0) 11 1 = Some rgba' ∧ blen rgba' = 44.
Proof.
  destruct (rgbToRgba_correct (zrange 0 33 1) (replicate 44 0) 11 1) as (o & E & Hl & _);
    [vm_compute; done..|]. exists o. split; [exact E|exact Hl].
Defined.

(** ** RGBA with white balance and gamma *)

Definition wb_ref (v gain : Z) : Z := Z.min 255 ((v * gain + 128) ≫ 8).

Lemma wb_ref_byte v gain : is_byte v → 0 <= gain → is_byte (wb_ref v gain).
Proof.
  unfold is_byte, wb_ref. intros. rewrite shiftr_div by lia.
  assert (0 <= (v * gain + 128) / 2 ^ 8) by (apply Z.div_pos; nia). lia.
Qed.

Lemma wb_lane v gain : is_byte v → 0 <= gain < 65536 →
  Z.min 255 (u16 (u32 (u32 (v * u16 gain) + 128) ≫ 8)) = wb_ref v gain.
Proof.
  unfold is_byte, wb_ref, u16, u32. intros.
  rewrite (Z.mod_small gain), (Z.mod_small (v * gain)), (Z.mod_small (_ + 128)) by nia.
  rewrite shiftr_div by lia. rewrite Z.mod_small; [done|].
  split; [apply Z.div_pos; nia|apply Z.div_lt_upper_bound; nia].
Qed.

Lemma wb8_lanes (V : Z → Z) gain :
  (∀ k, is_byte (V k)) → 0 <= gain < 65536 →
  let ks := [0; 1; 2; 3; 4; 5; 6; 7] in
  wb8 (V <$> ks) gain = (λ k, wb_ref (V k) gain) <$> ks.
Proof.
  intros HV Hg ks. unfold wb8, ks. cbn -[Z.add Z.mul Z.shiftr u16 u32 Z.min wb_ref].
  rewrite !wb_lane by auto. done.
Qed.

Lemma mapM_lut lut (F : Z → Z) ks :
  blen lut = 256 → (∀ k, is_byte (F k)) →
  mapM (ld lut) (F <$> ks) = Some ((λ k, bget lut (F k)) <$> ks).
Proof.
  intros Hl HF. apply mapM_Some_2. rewrite Forall2_fmap_l, Forall2_fmap_r.
  apply Forall_Forall2_diag, Forall_true. intros k. simpl.
  apply ld_bget. rewrite Hl. apply HF.
Qed.

Section WbGamma.
Context (rgb lut : list Z) (w h rG gG bG : Z) (flip : bool).
Context (Hrgb : is_bytes rgb) (Hlut : blen lut = 256).
Context (Hr : 0 <= rG < 65536) (Hg : 0 <= gG < 65536) (Hb : 0 <= bG < 65536).
Context (Hw : 0 <= w) (Hin : w * h * 3 <= blen rgb).

(** Output pixel [i] (row [i / w]): the source pixel, in the flipped row,
    white-balanced and mapped through the LUT. *)
Definition wb_px (i : Z) : list Z :=
  let s := (if flip then h - 1 - i / w else i / w) * w + i mod w in
  [bget lut (wb_ref (bget rgb (s * 3)) rG); bget lut (wb_ref (bget rgb (s * 3 + 1)) gG);
   bget lut (wb_ref (bget rgb (s * 3 + 2)) bG); 255].

Local Abbreviation srcRow y := (if flip then h - 1 - y else y)%Z.

Lemma wb_px_at y x : 0 <= x < w → let s := srcRow y * w + x in
  wb_px (y * w + x) =
  [bget lut (wb_ref (bget rgb (s * 3)) rG); bget lut (wb_ref (bget rgb (s * 3 + 1)) gG);
   bget lut (wb_ref (bget rgb (s * 3 + 2)) bG); 255].
Proof using. intros Hx s. unfold wb_px. by destruct (uv_index w y x Hx) as [-> ->]. Qed.

Lemma scalar_lut v g : is_byte v → 0 <= g →
  ld lut (if (v * g + 128) ≫ 8 >? 255 then 255 else (v * g + 128) ≫ 8) =
  Some (bget lut (wb_ref v g)).
Proof using Hlut.
  intros Hv Hg'. pose proof (wb_ref_byte v g Hv Hg') as Hr'. unfold is_byte, wb_ref in *.
  destruct (_ >? 255) eqn:E; zbool.
  - rewrite Z.min_l by lia. apply ld_bget. lia.
  - rewrite Z.min_r in * by lia. apply ld_bget. lia.
Qed.

Lemma wbGamma_row_spec (out0 out : list Z) y :
  0 <= y < h → w * h * 4 <= blen out0 →
  filled (rgba_byte wb_px) 0 (4 * (y * w)) out0 out →
  ∃ out', wbGamma_row rgb lut w h rG gG bG flip out y = Some out' ∧
          filled (rgba_byte wb_px) 0 (4 * ((y + 1) * w)) out0 out'.
Proof using Hrgb Hlut Hr Hg Hb Hw Hin.
  intros Hy Hout Hf. unfold wbGamma_row.
  pose proof (vec_end_bounds w 8) as [Hxe _]; [lia..|]. change (8 - 1) with 7 in Hxe.
  set (sr := if flip then h - 1 - y else y).
  assert (0 <= sr < h) as Hsr by (unfold sr; destruct flip; lia).
  assert (0 <= sr * w ∧ sr * w + w <= w * h ∧ 0 <= y * w ∧ y * w + w <= w * h) as (? & ? & ? & ?) by nia.
  edestruct (for_range_inv (λ x o, filled (rgba_byte wb_px) 0 (4 * (y * w + x)) out0 o) 0 (w - 7) 8)
    as (o1 & E1 & Ho1); [done|by rewrite Z.add_0_r| |rewrite E1; cbn [mbind option_bind]].
  { intros x o Hx _ Ho. cbn beta. rewrite vld3_u8_lanes by lia. cbn [mbind option_bind].
    rewrite !wb8_lanes by auto with buffers.
    rewrite !mapM_lut by (done || (intros; apply wb_ref_byte; [auto with buffers|lia])).
    cbn [mbind option_bind].
    destruct (rgba_store8 wb_px 0 (y * w + x)
      (λ k, bget lut (wb_ref (bget rgb (sr * w * 3 + x * 3 + 3 * k)) rG))
      (λ k, bget lut (wb_ref (bget rgb (sr * w * 3 + x * 3 + 3 * k + 1)) gG))
      (λ k, bget lut (wb_ref (bget rgb (sr * w * 3 + x * 3 + 3 * k + 2)) bG)) out0 o Ho)
      as (o' & E & Ho'); [lia..| |].
    - intros k Hk. rewrite <- Z.add_assoc, wb_px_at by lia. fold sr. same_loads.
    - exists o'. rewrite <- E. split; [f_equal; lia|].
      by replace (y * w + (x + 8)) with (y * w + x + 8) by lia. }
  edestruct (for_range_inv (λ x o, filled (rgba_byte wb_px) 0 (4 * (y * w + x)) out0 o)
    (range_end 0 (w - 7) 8) w 1) as (o2 & E2 & Ho2);
    [done|exact Ho1| |exists o2; split; [exact E2|]].
  { intros x o Hx _ Ho. cbn beta zeta. rewrite !(ld_bget rgb) by lia. cbn [mbind option_bind].
    rewrite !scalar_lut by (auto with buffers || lia). cbn [mbind option_bind].
    destruct (rgba_store1 wb_px 0 (y * w + x) (wb_px (y * w + x)) out0 o Ho) as (o' & E & Ho');
      [lia..|done|done|].
    rewrite wb_px_at in E by lia. fold sr in E. exists o'. rewrite <- E. split; [f_equal; lia|].
    by replace (y * w + (x + 1)) with (y * w + x + 1) by lia. }
  rewrite range_end_unit in Ho2 by lia. by replace ((y + 1) * w) with (y * w + w) by ring.
Qed.
End WbGamma.

(** RGB to RGBA with white balance and gamma: for Q8.8 gains that fit 16
    bits, the vector loop and the remainder compute the same rounded,
    saturated product, and the output is the LUT image of the (vertically
    flipped) frame with alpha 255. *)
Theorem rgbToRgbaWbGamma_correct rgb (rgba lut : list Z) width height rGain gGain bGain rG gG bG flipV
  (Hrgb : is_bytes rgb) (Hlut : blen lut = 256)
  (Hr : gain_q8 rGain = Some rG) (Hg : gain_q8 gGain = Some gG) (Hb : gain_q8 bGain = Some bG)
  (HrG : 0 <= rG < 65536) (HgG : 0 <= gG < 65536) (HbG : 0 <= bG < 65536)
  (Hw : 0 <= width) (Hh : 0 <= height)
  (Hin : width * height * 3 <= blen rgb) (Hout : width * height * 4 <= blen rgba) :
  ∃ rgba', rgbToRgbaWbGamma rgb rgba width height rGain gGain bGain lut flipV = Some rgba' ∧
    blen rgba' = blen rgba ∧
    ∀ y x, 0 <= y < height → 0 <= x < width →
      let s := ((if flipV then height - 1 - y else y) * width + x) * 3 in
      let d := (y * width + x) * 4 in
      ld rgba' d = Some (bget lut (wb_ref (bget rgb s) rG)) ∧
      ld rgba' (d + 1) = Some (bget lut (wb_ref (bget rgb (s + 1)) gG)) ∧
      ld rgba' (d + 2) = Some (bget lut (wb_ref (bget rgb (s + 2)) bG)) ∧
      ld rgba' (d + 3) = Some 255.
Proof.
  unfold rgbToRgbaWbGamma. rewrite Hr, Hg, Hb. cbn [mbind option_bind].
  edestruct (for_range_inv
    (λ y o, filled (rgba_byte (wb_px rgb lut width height rG gG bG flipV)) 0 (4 * (y * width)) rgba o)
    0 height 1) as (o & E & Ho); [done|apply filled_0| |exists o; split; [exact E|]].
  { intros y o' Hy _ Ho'. by apply wbGamma_row_spec. }
  rewrite range_end_unit in Ho by lia. destruct Ho as [Hl Hf]. split; [done|].
  intros y x Hy Hx. set (d := (y * width + x) * 4).
  assert (∀ k, 0 <= k < 4 → ld o (d + k) =
    ld (wb_px rgb lut width height rG gG bG flipV (y * width + x)) k) as Hk.
  { intros k Hk. rewrite Hf, bool_decide_true by (unfold d; nia).
    replace (d + k - 0) with (4 * (y * width + x) + k) by (unfold d; ring).
    by rewrite rgba_byte_px. }
  rewrite wb_px_at in Hk by lia.
  rewrite <- (Z.add_0_r d) at 1. rewrite !Hk by lia. done.
Qed.

Lemma rgbToRgbaWbGamma_correct_witness :
  ∃ rgba', rgbToRgbaWbGamma (replicate 27 100) (replicate 36 0) 9 1 (f_lit 3 2) (f_of_Z 1) (f_of_Z 2)
             (zrange 0 256 1) false = Some rgba' ∧
    ld rgba' 0 = Some 150 ∧ ld rgba' 34 = Some 200.
Proof.
  destruct (rgbToRgbaWbGamma_correct (replicate 27 100) (replicate 36 0) (zrange 0 256 1) 9 1
    (f_lit 3 2) (f_of_Z 1) (f_of_Z 2) 384 256 512 false) as (o & E & _ & H);
    [apply (bool_decide_unpack _); vm_compute; exact I|vm_compute; done..|].
  exists o. split; [exact E|].
  destruct (H 0 0) as (H0 & _); [lia..|]. destruct (H 0 8) as (_ & _ & H2 & _); [lia..|].
  split; [refine (eq_trans H0 _)|refine (eq_trans H2 _)]; vm_compute; reflexivity.
Defined.
