(* ===== verification/InFlight.v ===== *)
(** * The in-flight request tracker (camera/InFlightTracker.h)

    A mutex-protected [std::map] from frame numbers to requests.  Every method
    takes the mutex for its whole body, so each is one atomic step on the map;
    [std::map] iterates in key order. *)

From S2P Require Import Prelude.
From stdpp Require Import sorting.

Record InFlightRequest := { frameNumber : Z; outputBuffer : Z; markedError : bool }.

Abbreviation tracker := (gmap Z InFlightRequest).

Definition add (frame outBuf : Z) (mContexts : tracker) : tracker :=
  <[frame := {| frameNumber := frame; outputBuffer := outBuf; markedError := false |}]> mContexts.

(** [erase (frame) > 0] *)
Definition remove (frame : Z) (mContexts : tracker) : bool * tracker :=
  (bool_decide (is_Some (mContexts !! frame)), delete frame mContexts).

Definition mark (r : InFlightRequest) : InFlightRequest :=
  {| frameNumber := frameNumber r; outputBuffer := outputBuffer r; markedError := true |}.

Definition markAllAsError (mContexts : tracker) : tracker := mark <$> mContexts.

Definition isError (frame : Z) (mContexts : tracker) : bool :=
  match mContexts !! frame with None => false | Some r => markedError r end.

Definition count (mContexts : tracker) : nat := size mContexts.

(** The frames in key order, and the emptied map. *)
Definition drainAll (mContexts : tracker) : list Z * tracker :=
  (merge_sort Z.le (map_to_list mContexts).*1, ∅).

(** Every request is stored under its own frame number. *)
Definition tracker_wf (m : tracker) : Prop := map_Forall (λ k r, frameNumber r = k) m.

Lemma add_wf f b m : tracker_wf m → tracker_wf (add f b m).
Proof. intros. by apply map_Forall_insert_2. Qed.
Lemma remove_wf f m : tracker_wf m → tracker_wf (remove f m).2.
Proof. intros. by apply map_Forall_delete. Qed.
Lemma mark_wf m : tracker_wf m → tracker_wf (markAllAsError m).
Proof. intros Hm. apply map_Forall_fmap. intros k r E. simpl. by apply Hm. Qed.

Lemma isError_add f b m g : isError g (add f b m) = if decide (f = g) then false else isError g m.
Proof. unfold isError, add. rewrite lookup_insert. by case_decide. Qed.

Lemma remove_add f b m : m !! f = None → (remove f (add f b m)) = (true, m).
Proof.
  intros. unfold remove, add. rewrite lookup_insert_eq. simpl.
  by rewrite delete_insert_id.
Qed.

Lemma isError_mark f m : isError f (markAllAsError m) = bool_decide (f ∈ dom m).
Proof.
  unfold isError, markAllAsError. rewrite lookup_fmap.
  destruct (m !! f) eqn:E; simpl; symmetry.
  - apply bool_decide_eq_true_2. apply elem_of_dom. eauto.
  - apply bool_decide_eq_false_2. by apply not_elem_of_dom.
Qed.

(** Draining is complete: the frames returned are the tracked frames, each
    once, in increasing order, and nothing stays tracked; marking before a
    drain loses no frame. *)
Theorem drainAll_complete (m : tracker) :
  let '(frames, m') := drainAll (markAllAsError m) in
  m' = ∅ ∧ count m' = 0%nat ∧ NoDup frames ∧ StronglySorted Z.le frames ∧
  (∀ f, f ∈ frames ↔ f ∈ dom m) ∧ length frames = count m ∧
  ∀ f, isError f (markAllAsError m) = bool_decide (f ∈ frames).
Proof.
  simpl. set (l := (map_to_list (markAllAsError m)).*1).
  assert (merge_sort Z.le l ≡ₚ l) as Hp by apply merge_sort_Permutation.
  assert (∀ f, f ∈ merge_sort Z.le l ↔ f ∈ dom m) as Hin.
  { intros f. rewrite Hp. unfold l, markAllAsError. rewrite list_elem_of_fmap.
    rewrite elem_of_dom. split.
    - intros ([k r] & -> & (r' & _ & E)%elem_of_map_to_list%lookup_fmap_Some). simpl. eauto.
    - intros [r E]. exists (f, mark r). split; [done|].
      apply elem_of_map_to_list. rewrite lookup_fmap, E. done. }
  split_and!.
  - done.
  - unfold count. apply map_size_empty.
  - rewrite Hp. apply NoDup_fst_map_to_list.
  - apply StronglySorted_merge_sort; apply _.
  - done.
  - rewrite Hp. unfold l. rewrite length_fmap, length_map_to_list.
    unfold markAllAsError, count. apply map_size_fmap.
  - intros f. rewrite isError_mark. apply bool_decide_ext. by rewrite Hin.
Qed.
