(* ===== verification/Kernel.v ===== *)
(** * The operating system below the camera HAL

    The V4L2 and I2C drivers, the C library and the allocator are not part of
    the repository.  They are a parameter: an instance of [Kernel] gives, for
    every call the code makes, the reply as a function of the whole history of
    calls and replies, so the theorems hold for every driver behaviour.  A
    call appends one event to the history; statements about what the program
    did to the device are statements about the history. *)

From S2P Require Import Prelude Monad Float32.
From stdpp Require Export strings.

#[local] Open Scope Z_scope.

(** The result of a call that can fail with an [errno]. *)
Inductive sysres (A : Type) := SOk (a : A) | SErr (errno : Z).
Arguments SOk {_} _.
Arguments SErr {_} _.

#[export] Instance sysres_eq_dec A `{!EqDecision A} : EqDecision (sysres A).
Proof. solve_decision. Defined.

(** A dequeued V4L2 buffer. *)
Record dqbuf := { dq_index : Z; dq_bytesused : Z; dq_tv_sec : Z; dq_tv_usec : Z }.

(** A gralloc lock: a fault inside the call, an error code, or the address of
    the mapped buffer ([None] a null pointer). *)
Inductive lockres := LockFault | LockErr (ret : Z) | LockOk (vaddr : option Z).

(** One call with its reply, most recent first in a history.  The last groups
    are the camera framework's callbacks, the descriptors it hands over with a
    request, the gralloc module and a debug file. *)
Inductive event :=
| EOpen (path : string) (r : sysres Z)
| EClose (fd : Z)
| EQueryCap (fd : Z) (r : sysres Z)
| ESFmt (fd width height pixfmt : Z) (r : sysres ())
| EReqBufs (fd count : Z) (r : sysres Z)
| EQueryBuf (fd index : Z) (r : sysres (Z * Z))
| EMmap (len fd off : Z) (r : sysres Z)
| EMunmap (addr len : Z)
| EQBuf (fd index : Z) (r : sysres ())
| EDQBuf (fd : Z) (r : sysres dqbuf)
| EStreamOn (fd : Z) (r : sysres ())
| EStreamOff (fd : Z)
| ESCtrl (fd id value : Z) (r : sysres ())
| EGCtrl (fd id : Z) (r : sysres Z)
| EI2cSlave (fd addr : Z) (r : sysres ())
| EWrite (fd : Z) (bytes : list Z) (n : Z)
| EPoll (fd timeout : Z) (r : sysres (Z * Z))
| EUsleep (us : Z)
| EClock (sec nsec : Z)
| EProperty (name : string) (value : option string)
| ENotifyShutter (frame timestamp : Z)
| ENotifyError (frame code : Z)
| EResult (frame : Z) (meta : option (list (string * list Z))) (statuses : list Z) (partial : Z)
| EFenceClose (fd : Z)
| EHwModule (ret : Z)
| ELock (ycbcr : bool) (handle usage width height : Z) (r : lockres)
| EUnlock (handle : Z)
| EFile (path : string) (bytes : option (list Z)).

Abbreviation history := (list event).

Class Kernel := {
  k_open : history → string → sysres Z;
  k_querycap : history → Z → sysres Z;
  k_s_fmt : history → Z → Z → Z → Z → sysres ();
  k_reqbufs : history → Z → Z → sysres Z;
  k_querybuf : history → Z → Z → sysres (Z * Z);   (* length, offset *)
  k_mmap : history → Z → Z → Z → sysres Z;         (* SErr: MAP_FAILED *)
  k_qbuf : history → Z → Z → sysres ();
  k_dqbuf : history → Z → sysres dqbuf;
  k_streamon : history → Z → sysres ();
  k_s_ctrl : history → Z → Z → Z → sysres ();
  k_g_ctrl : history → Z → Z → sysres Z;
  k_i2c_slave : history → Z → Z → sysres ();
  k_write : history → Z → list Z → Z;
  k_poll : history → Z → Z → sysres (Z * Z);       (* return value, revents *)
  k_clock : history → Z * Z;                       (* CLOCK_MONOTONIC: s, ns *)
  k_property : history → string → option string;   (* None: not set *)
  k_frame : history → Z → list Z;                  (* bytes mapped at an address *)
  k_alloc : history → allocator;                   (* malloc / new[] *)
  libm_powf : f32 → f32 → f32;
}.

(** An object of the program together with the history of calls. *)
Record world (S : Type) := World { obj : S; hist : history }.
Arguments World {_} _ _.
Arguments obj {_} _.
Arguments hist {_} _.

(** ** Calls *)

Section Calls.
Context `{!Kernel} {S : Type}.

Definition call {A} (reply : history → A) (ev : A → event) : ST (world S) A :=
  λ w, let a := reply (hist w) in Some (a, World (obj w) (ev a :: hist w)).

Definition sys_open path := call (λ h, k_open h path) (EOpen path).
Definition sys_close fd := call (λ _, ()) (λ _, EClose fd).
Definition io_querycap fd := call (λ h, k_querycap h fd) (EQueryCap fd).
Definition io_s_fmt fd w h pf := call (λ hs, k_s_fmt hs fd w h pf) (ESFmt fd w h pf).
Definition io_reqbufs fd n := call (λ h, k_reqbufs h fd n) (EReqBufs fd n).
Definition io_querybuf fd i := call (λ h, k_querybuf h fd i) (EQueryBuf fd i).
Definition sys_mmap len fd off := call (λ h, k_mmap h len fd off) (EMmap len fd off).
Definition sys_munmap addr len := call (λ _, ()) (λ _, EMunmap addr len).
Definition io_qbuf fd i := call (λ h, k_qbuf h fd i) (EQBuf fd i).
Definition io_dqbuf fd := call (λ h, k_dqbuf h fd) (EDQBuf fd).
Definition io_streamon fd := call (λ h, k_streamon h fd) (EStreamOn fd).
Definition io_streamoff fd := call (λ _, ()) (λ _, EStreamOff fd).
Definition io_s_ctrl fd id v := call (λ h, k_s_ctrl h fd id v) (ESCtrl fd id v).
Definition io_g_ctrl fd id := call (λ h, k_g_ctrl h fd id) (EGCtrl fd id).
Definition io_i2c_slave fd a := call (λ h, k_i2c_slave h fd a) (EI2cSlave fd a).
Definition sys_write fd bytes := call (λ h, k_write h fd bytes) (EWrite fd bytes).
Definition sys_poll fd t := call (λ h, k_poll h fd t) (EPoll fd t).
Definition sys_usleep us := call (λ _, ()) (λ _, EUsleep us).
Definition sys_clock := call k_clock (λ '(s, n), EClock s n).
Definition sys_property name := call (λ h, k_property h name) (EProperty name).

(** The object. *)
Definition get : ST (world S) S := gets obj.
Definition upd (f : S → S) : ST (world S) () := modify (λ w, World (f (obj w)) (hist w)).
Definition read_mem (addr : Z) : ST (world S) (list Z) := gets (λ w, k_frame (hist w) addr).

Lemma wlp_call {A} (reply : history → A) ev Q w :
  Q (reply (hist w)) (World (obj w) (ev (reply (hist w)) :: hist w)) → wlp (call reply ev) Q w.
Proof. done. Qed.
End Calls.

Arguments call : simpl never.

(** ** The constants of the headers the code includes *)

Definition EAGAIN : Z := 11.
Definition ENOMEM : Z := 12.
Definition EFAULT : Z := 14.
Definition EBUSY : Z := 16.
Definition ENODEV : Z := 19.
Definition EINVAL : Z := 22.
Definition ENOSYS : Z := 38.
Definition POLLIN : Z := 1.
Definition V4L2_CAP_VIDEO_CAPTURE : Z := 0x1.
Definition V4L2_CAP_STREAMING : Z := 0x4000000.
Definition V4L2_CID_EXPOSURE : Z := 0x980911.
Definition V4L2_CID_GAIN : Z := 0x980913.
Definition V4L2_CID_FOCUS_ABSOLUTE : Z := 0x9a090a.
Definition HAL_PIXEL_FORMAT_RGBA_8888 : Z := 1.
Definition HAL_PIXEL_FORMAT_BLOB : Z := 33.
Definition HAL_PIXEL_FORMAT_IMPLEMENTATION_DEFINED : Z := 34.
Definition HAL_PIXEL_FORMAT_YCBCR_420_888 : Z := 35.

(** Extend the symbolic execution with the calls. *)
Ltac wlp_call_step :=
  lazymatch goal with
  | |- wlp (call _ _) _ _ => apply wlp_call; cbn [obj hist]
  | |- wlp ?m _ _ =>
      let m' := eval unfold sys_open, sys_close, io_querycap, io_s_fmt, io_reqbufs, io_querybuf,
        sys_mmap, sys_munmap, io_qbuf, io_dqbuf, io_streamon, io_streamoff, io_s_ctrl, io_g_ctrl,
        io_i2c_slave, sys_write, sys_poll, sys_usleep, sys_clock, sys_property, get, upd, read_mem in m in
      progress change m with m'
  end.

(** ** A concrete kernel

    Everything succeeds: descriptors count up from 3, four buffers of 96 bytes
    mapped at different addresses, frames that arrive every 40 ms in buffer
    order, [powf] the identity on its first argument.  The theorems that
    assume something of the environment are instantiated with it. *)

Definition count_ev (f : event → bool) (h : history) : Z := blen (filter f h).

Definition demo_kernel : Kernel := {|
  k_open h _ := SOk (3 + count_ev (λ e, match e with EOpen _ _ => true | _ => false end) h);
  k_querycap _ _ := SOk (Z.lor V4L2_CAP_VIDEO_CAPTURE V4L2_CAP_STREAMING);
  k_s_fmt _ _ _ _ _ := SOk ();
  k_reqbufs _ _ n := SOk n;
  k_querybuf _ _ i := SOk (96, i * 4096);
  k_mmap h _ _ off := SOk (0x10000 + off);
  k_qbuf _ _ _ := SOk ();
  k_dqbuf h _ :=
    let n := count_ev (λ e, match e with EDQBuf _ _ => true | _ => false end) h in
    SOk {| dq_index := n mod 4; dq_bytesused := 96; dq_tv_sec := (n + 1) * 40 / 1000;
           dq_tv_usec := ((n + 1) * 40 mod 1000) * 1000 |};
  k_streamon _ _ := SOk ();
  k_s_ctrl _ _ _ _ := SOk ();
  k_g_ctrl _ _ _ := SOk 100;
  k_i2c_slave _ _ _ := SOk ();
  k_write _ _ bytes := blen bytes;
  k_poll _ _ _ := SOk (1, POLLIN);
  k_clock h := (blen h, 0);
  k_property _ _ := None;
  k_frame _ a := (λ k, (k * 37 + a) mod 256) <$> zrange 0 96 1;
  k_alloc _ := zero_heap;
  libm_powf x _ := x;
|}.

(** ** Operations that leave a view of the object alone

    [Keeps V N m]: on every run of [m] the view [V] of the object is
    unchanged and every event [m] adds to the history satisfies [N]. *)

Section Keeps.
Context `{!Kernel} {S T : Type} (V : S → T) (N : event → Prop).

Definition evolves (w w' : world S) : Prop :=
  V (obj w') = V (obj w) ∧ ∃ evs, hist w' = evs ++ hist w ∧ Forall N evs.

#[export] Instance evolves_preorder : PreOrder evolves.
Proof.
  split.
  - intros w. split; [done|]. by exists [].
  - intros w1 w2 w3 [E1 (l1 & H1 & F1)] [E2 (l2 & H2 & F2)]. split; [congruence|].
    exists (l2 ++ l1). rewrite H2, H1, app_assoc. split; [done|]. by apply Forall_app.
Qed.

Definition Keeps {A} (m : ST (world S) A) : Prop := ∀ w, wlp m (λ _ w', evolves w w') w.

Lemma Keeps_bind {A B} (m : ST (world S) A) (k : A → ST (world S) B) :
  Keeps m → (∀ a, Keeps (k a)) → Keeps (m ≫= k).
Proof.
  intros Hm Hk w. apply wlp_bind. eapply wlp_mono; [apply Hm|].
  intros a w' Hw. eapply wlp_mono; [apply Hk|]. intros b w'' Hw'. by transitivity w'.
Qed.
Lemma Keeps_ret {A} (a : A) : Keeps (mret a).
Proof. intros w. apply wlp_ret. reflexivity. Qed.
Lemma Keeps_gets {A} (f : world S → A) : Keeps (gets f).
Proof. intros w. apply wlp_gets. reflexivity. Qed.
Lemma Keeps_get : Keeps get.
Proof. apply Keeps_gets. Qed.
Lemma Keeps_read_mem a : Keeps (read_mem a).
Proof. apply Keeps_gets. Qed.
Lemma Keeps_lift {A} (o : option A) : Keeps (lift o).
Proof. intros w. apply wlp_lift. intros. reflexivity. Qed.
Lemma Keeps_upd f : (∀ p, V (f p) = V p) → Keeps (upd f).
Proof. intros Hf w. apply wlp_modify. split; [apply Hf|]. by exists []. Qed.
Lemma Keeps_call {A} (reply : history → A) ev : (∀ a, N (ev a)) → Keeps (call reply ev).
Proof. intros Hev w. apply wlp_call. split; [done|]. exists [ev (reply (hist w))]. auto. Qed.
Lemma Keeps_when b (m : ST (world S) ()) : Keeps m → Keeps (when b m).
Proof. intros ?. destruct b; [done|apply Keeps_ret]. Qed.
Lemma Keeps_forM {A} (l : list A) body : (∀ x, Keeps (body x)) → Keeps (forM l body).
Proof.
  intros Hb. induction l; simpl; [apply Keeps_ret|]. apply Keeps_bind; auto.
Qed.
Lemma Keeps_forM_exit {A B} (l : list A) (body : A → ST (world S) (option B)) :
  (∀ x, Keeps (body x)) → Keeps (forM_exit l body).
Proof.
  intros Hb. induction l; simpl; [apply Keeps_ret|].
  apply Keeps_bind; [done|]. intros [b|]; [apply Keeps_ret|done].
Qed.
End Keeps.

Lemma Keeps_weaken `{!Kernel} {S T T' A} (V : S → T) (V' : S → T') (N N' : event → Prop)
  (m : ST (world S) A) :
  (∀ p q, V p = V q → V' p = V' q) → (∀ e, N e → N' e) → Keeps V N m → Keeps V' N' m.
Proof.
  intros HV HN Hm w. eapply wlp_mono; [apply Hm|]. intros a w' [E (evs & Eh & F)].
  split; [by apply HV|]. exists evs. split; [done|]. eapply Forall_impl; [exact F|]. auto.
Qed.

(** Decompose a [Keeps] goal along the program; lemmas on whole operations
    are in the database [keeps]. *)
Create HintDb keeps.

Ltac keeps_step :=
  lazymatch goal with
  | |- Keeps _ _ (mbind _ _) => apply Keeps_bind; [|intros ?]
  | |- Keeps _ _ (mret _) => apply Keeps_ret
  | |- Keeps _ _ (gets _) => apply Keeps_gets
  | |- Keeps _ _ get => apply Keeps_get
  | |- Keeps _ _ (read_mem _) => apply Keeps_read_mem
  | |- Keeps _ _ (lift _) => apply Keeps_lift
  | |- Keeps _ _ (upd _) => apply Keeps_upd; intros ?; repeat case_match; reflexivity
  | |- Keeps _ _ (when _ _) => apply Keeps_when
  | |- Keeps _ _ (forM _ _) => apply Keeps_forM; intros ?
  | |- Keeps _ _ (forM_exit _ _) => apply Keeps_forM_exit; intros ?
  | |- Keeps _ _ (match ?x with _ => _ end) => destruct x
  end.
Ltac keeps := repeat first [keeps_step | solve [auto 2 with keeps] ].
