(* ===== verification/Pipeline.v ===== *)
(** * The capture pipeline: device, buffers and streaming
    (camera/CameraPipeline.{h,cpp})

    The state of a [CameraPipeline] object, its life cycle (open, configure,
    startStreaming, stopStreaming, close) and the sensor controls.  Every
    system call goes through the [Kernel] parameter and is recorded in the
    history.  The theorems: the state machine's invariant holds after every
    operation for every behaviour of the kernel, the descriptors and
    mappings the object holds are exactly those the history has not released,
    and [close] releases them all. *)

From S2P Require Import Prelude Monad Float32 Kernel Demosaic DemosaicSpec ColorConv.

#[local] Open Scope Z_scope.

(** ** Data *)

Inductive PipelineState := PIPELINE_CLOSED | PIPELINE_OPENED | PIPELINE_STREAMING.

#[export] Instance PipelineState_eq_dec : EqDecision PipelineState.
Proof. solve_decision. Defined.

Record PipelineConfig := {
  cfg_width : Z; cfg_height : Z; cfg_pixelFormat : Z;          (* uint32_t *)
  cfg_bayerPattern : Z; cfg_offset_x : Z; cfg_offset_y : Z;    (* uint8_t *)
  cfg_flipV : bool; cfg_enableISP : bool;
  cfg_blackLevel : Z; cfg_whiteLevel : Z;                      (* uint16_t *)
  cfg_wbGain : list f32;                                       (* float[4] *)
  cfg_ccm : list f32;                                          (* float[9] *)
  cfg_gamma : f32;
  cfg_enableAE : bool; cfg_enableAWB : bool;
  cfg_targetLuma : f32; cfg_digitalGain : f32;
}.

(** [vb_start = None] is a null pointer. *)
Record V4l2Buffer := { vb_start : option Z; vb_length : Z; vb_allocated : bool }.

(** The two counters are the function-local statics of [captureFrame] and
    [processBayerToYuv]; they only pace the debug logging. *)
Record CameraPipeline := mkPipeline {
  mFd : Z;
  mSensorFd : Z;
  mCameraId : Z;
  mState : PipelineState;
  mStreaming : bool;
  mDemosaic : option DemosaicNEON;
  mColorConv : option ColorConvNEON;
  mConfig : PipelineConfig;
  mBuffers : list V4l2Buffer;      (* V4l2Buffer[4] *)
  mBufferCount : Z;
  mCurrentBuffer : Z;
  mRgbBuffer : option (list Z);
  mRgbBufferSize : Z;
  mCurrentExposure : Z;
  mCurrentGain : Z;
  mExposureStepLines : Z;
  mMainHalfNs : Z;
  mVtsLines : Z;
  mExpMin : Z;
  mExpMax : Z;
  mExpUnitsPerLine : Z;
  mLinePeriodNs : Z;
  mFramePeriodNs : Z;
  mPrevFrameTsNs : Z;
  mTsDeltas : list Z;              (* int64_t[16] *)
  mDeltaCount : Z;
  mTimingFrozen : bool;
  mAeHoldFrames : Z;
  mAwbGains : list f32;            (* float[4] *)
  mHasAwbInit : bool;
  mGammaLut : list Z;              (* uint8_t[256] *)
  mLastGamma : f32;
  mFocusPosition : Z;
  mAfState : Z;
  mAfLastScanNs : Z;
  rawDebugCount : Z;
  dbgCount : Z;
}.

#[export] Instance CameraPipeline_eta : Eta CameraPipeline := λ p, mkPipeline
  (mFd p) (mSensorFd p) (mCameraId p) (mState p) (mStreaming p) (mDemosaic p) (mColorConv p)
  (mConfig p) (mBuffers p) (mBufferCount p) (mCurrentBuffer p) (mRgbBuffer p) (mRgbBufferSize p)
  (mCurrentExposure p) (mCurrentGain p) (mExposureStepLines p) (mMainHalfNs p) (mVtsLines p)
  (mExpMin p) (mExpMax p) (mExpUnitsPerLine p) (mLinePeriodNs p) (mFramePeriodNs p)
  (mPrevFrameTsNs p) (mTsDeltas p) (mDeltaCount p) (mTimingFrozen p) (mAeHoldFrames p)
  (mAwbGains p) (mHasAwbInit p) (mGammaLut p) (mLastGamma p) (mFocusPosition p) (mAfState p)
  (mAfLastScanNs p) (rawDebugCount p) (dbgCount p).

Definition no_buffer : V4l2Buffer :=
  {| vb_start := None; vb_length := 0; vb_allocated := false |}.

(** The constructor initialises the object in place: the members it does not
    name (the camera id, the configuration, the delta and gamma arrays and the
    function statics) keep the contents [raw] of the storage. *)
Definition CameraPipeline_new (raw : CameraPipeline) : CameraPipeline := {|
  mFd := -1; mSensorFd := -1; mCameraId := mCameraId raw; mState := PIPELINE_CLOSED;
  mStreaming := false; mDemosaic := None; mColorConv := None; mConfig := mConfig raw;
  mBuffers := [no_buffer; no_buffer; no_buffer; no_buffer];
  mBufferCount := 0; mCurrentBuffer := 0; mRgbBuffer := None; mRgbBufferSize := 0;
  mCurrentExposure := 800; mCurrentGain := 60; mExposureStepLines := 0; mMainHalfNs := 10000000;
  mVtsLines := 2510; mExpMin := 10; mExpMax := 2500; mExpUnitsPerLine := 1;
  mLinePeriodNs := 0; mFramePeriodNs := 0; mPrevFrameTsNs := 0; mTsDeltas := mTsDeltas raw;
  mDeltaCount := 0; mTimingFrozen := false; mAeHoldFrames := 0;
  mAwbGains := [f_of_Z 1; f_of_Z 1; f_of_Z 1; f_of_Z 1]; mHasAwbInit := false;
  mGammaLut := mGammaLut raw; mLastGamma := f_of_Z 0; mFocusPosition := 0; mAfState := 0;
  mAfLastScanNs := 0; rawDebugCount := rawDebugCount raw; dbgCount := dbgCount raw |}.

(** The OV5693 register table: 1280x720, one CSI lane. *)
Definition ov5693_regs_1280x720 : list (Z * Z) := [
   (0x0100, 0x00); (0x0103, 0x01); (0x3001, 0x0a); (0x3002, 0x80); (0x3006, 0x00); (0x3011, 0x21);
   (0x3012, 0x09); (0x3013, 0x10); (0x3014, 0x00); (0x3015, 0x08); (0x3016, 0xf0); (0x3017, 0xf0);
   (0x3018, 0xf0); (0x301b, 0xb4); (0x301d, 0x02); (0x3021, 0x00); (0x3022, 0x01); (0x3028, 0x44);
   (0x3098, 0x03); (0x3099, 0x1e); (0x309a, 0x02); (0x309b, 0x01); (0x309c, 0x00); (0x30a0, 0xd2);
   (0x30a2, 0x01); (0x30b2, 0x00); (0x30b3, 0x68); (0x30b4, 0x03); (0x30b5, 0x04); (0x30b6, 0x01);
   (0x3104, 0x21); (0x3106, 0x00); (0x3406, 0x01); (0x3500, 0x00); (0x3501, 0x2e); (0x3502, 0x80);
   (0x3503, 0x07); (0x3504, 0x00); (0x3505, 0x00); (0x3506, 0x00); (0x3507, 0x02); (0x3508, 0x00);
   (0x3509, 0x10); (0x350a, 0x00); (0x350b, 0x40); (0x3601, 0x0a); (0x3602, 0x38); (0x3612, 0x80);
   (0x3620, 0x54); (0x3621, 0xc7); (0x3622, 0x0f); (0x3625, 0x10); (0x3630, 0x55); (0x3631, 0xf4);
   (0x3632, 0x00); (0x3633, 0x34); (0x3634, 0x02); (0x364d, 0x0d); (0x364f, 0xdd); (0x3660, 0x04);
   (0x3662, 0x10); (0x3663, 0xf1); (0x3665, 0x00); (0x3666, 0x20); (0x3667, 0x00); (0x366a, 0x80);
   (0x3680, 0xe0); (0x3681, 0x00); (0x3700, 0x42); (0x3701, 0x14); (0x3702, 0xa0); (0x3703, 0xd8);
   (0x3704, 0x78); (0x3705, 0x02); (0x3708, 0xe6); (0x3709, 0xc7); (0x370a, 0x00); (0x370b, 0x20);
   (0x370c, 0x0c); (0x370d, 0x11); (0x370e, 0x00); (0x370f, 0x40); (0x3710, 0x00); (0x371a, 0x1c);
   (0x371b, 0x05); (0x371c, 0x01); (0x371e, 0xa1); (0x371f, 0x0c); (0x3721, 0x00); (0x3724, 0x10);
   (0x3726, 0x00); (0x372a, 0x01); (0x3730, 0x10); (0x3738, 0x22); (0x3739, 0xe5); (0x373a, 0x50);
   (0x373b, 0x02); (0x373c, 0x41); (0x373f, 0x02); (0x3740, 0x42); (0x3741, 0x02); (0x3742, 0x18);
   (0x3743, 0x01); (0x3744, 0x02); (0x3747, 0x10); (0x374c, 0x04); (0x3751, 0xf0); (0x3752, 0x00);
   (0x3753, 0x00); (0x3754, 0xc0); (0x3755, 0x00); (0x3756, 0x1a); (0x3758, 0x00); (0x3759, 0x0f);
   (0x376b, 0x44); (0x375c, 0x04); (0x3774, 0x10); (0x3776, 0x00); (0x377f, 0x08); (0x3780, 0x22);
   (0x3781, 0x0c); (0x3784, 0x2c); (0x3785, 0x1e); (0x378f, 0xf5); (0x3791, 0xb0); (0x3795, 0x00);
   (0x3796, 0x64); (0x3797, 0x11); (0x3798, 0x30); (0x3799, 0x41); (0x379a, 0x07); (0x379b, 0xb0);
   (0x379c, 0x0c); (0x37c5, 0x00); (0x37c6, 0x00); (0x37c7, 0x00); (0x37c9, 0x00); (0x37ca, 0x00);
   (0x37cb, 0x00); (0x37de, 0x00); (0x37df, 0x00); (0x3800, 0x00); (0x3801, 0x00); (0x3802, 0x00);
   (0x3803, 0xf4); (0x3804, 0x0a); (0x3805, 0x3f); (0x3806, 0x06); (0x3807, 0xab); (0x3808, 0x05);
   (0x3809, 0x00); (0x380a, 0x02); (0x380b, 0xd0); (0x380c, 0x06); (0x380d, 0xd8); (0x380e, 0x02);
   (0x380f, 0xf8); (0x3810, 0x00); (0x3811, 0x02); (0x3812, 0x00); (0x3813, 0x02); (0x3814, 0x31);
   (0x3815, 0x31); (0x3820, 0x04); (0x3821, 0x1f); (0x3823, 0x00); (0x3824, 0x00); (0x3825, 0x00);
   (0x3826, 0x00); (0x3827, 0x00); (0x382a, 0x04); (0x3a04, 0x06); (0x3a05, 0x14); (0x3a06, 0x00);
   (0x3a07, 0xfe); (0x3b00, 0x00); (0x3b02, 0x00); (0x3b03, 0x00); (0x3b04, 0x00); (0x3b05, 0x00);
   (0x3e07, 0x20); (0x4000, 0x08); (0x4001, 0x04); (0x4002, 0x45); (0x4004, 0x08); (0x4005, 0x18);
   (0x4006, 0x20); (0x4008, 0x24); (0x4009, 0x10); (0x400c, 0x00); (0x400d, 0x00); (0x4058, 0x00);
   (0x404e, 0x37); (0x404f, 0x8f); (0x4058, 0x00); (0x4101, 0xb2); (0x4303, 0x00); (0x4304, 0x08);
   (0x4307, 0x30); (0x4311, 0x04); (0x4315, 0x01); (0x4511, 0x05); (0x4512, 0x00); (0x4800, 0x20);
   (0x4806, 0x00); (0x4816, 0x52); (0x481f, 0x30); (0x4826, 0x2c); (0x4831, 0x64); (0x4d00, 0x04);
   (0x4d01, 0x71); (0x4d02, 0xfd); (0x4d03, 0xf5); (0x4d04, 0x0c); (0x4d05, 0xcc); (0x4837, 0x0a);
   (0x5000, 0x06); (0x5001, 0x01); (0x5002, 0x00); (0x5003, 0x20); (0x5046, 0x0a); (0x5013, 0x00);
   (0x5046, 0x0a); (0x5780, 0x1c); (0x5786, 0x20); (0x5787, 0x10); (0x5788, 0x18); (0x578a, 0x04);
   (0x578b, 0x02); (0x578c, 0x02); (0x578e, 0x06); (0x578f, 0x02); (0x5790, 0x02); (0x5791, 0xff);
   (0x5842, 0x01); (0x5843, 0x2b); (0x5844, 0x01); (0x5845, 0x92); (0x5846, 0x01); (0x5847, 0x8f);
   (0x5848, 0x01); (0x5849, 0x0c); (0x5e00, 0x00); (0x5e10, 0x0c); (0x3011, 0x11); (0x3015, 0x28);
   (0x380c, 0x0a); (0x380d, 0x80); (0x380e, 0x03); (0x380f, 0xe0); (0x0100, 0x01)].

(** ** Operations *)

Section Pipeline.
Context `{!Kernel}.

Abbreviation PM := (ST (world CameraPipeline)).

Definition getBuf (i : Z) : PM V4l2Buffer := p ← get; lift (ld (mBuffers p) i).
Definition setBuf (i : Z) (b : V4l2Buffer) : PM () :=
  p ← get; bs ← lift (st (mBuffers p) i b); upd (λ p, p <| mBuffers := bs |>).

Definition getState : PM PipelineState := p ← get; mret (mState p).

Definition setExposure (exposure : Z) : PM Z :=
  p ← get;
  r ← io_s_ctrl (mFd p) V4L2_CID_EXPOSURE exposure;
  match r with
  | SOk _ => upd (λ p, p <| mCurrentExposure := exposure |>);; mret 0
  | SErr _ => mret (-1)
  end.

Definition setGain (gain : Z) : PM Z :=
  p ← get;
  r ← io_s_ctrl (mFd p) V4L2_CID_GAIN gain;
  match r with
  | SOk _ => upd (λ p, p <| mCurrentGain := gain |>);; mret 0
  | SErr _ => mret (-1)
  end.

Definition getExposure : PM Z :=
  p ← get;
  r ← io_g_ctrl (mFd p) V4L2_CID_EXPOSURE;
  match r with
  | SOk v => upd (λ p, p <| mCurrentExposure := v |>);; mret v
  | SErr _ => mret (mCurrentExposure p)
  end.

Definition getGain : PM Z :=
  p ← get;
  r ← io_g_ctrl (mFd p) V4L2_CID_GAIN;
  match r with
  | SOk v => upd (λ p, p <| mCurrentGain := v |>);; mret v
  | SErr _ => mret (mCurrentGain p)
  end.

Definition ck64 (z : Z) : option Z :=
  if bool_decide (- 2 ^ 63 <= z < 2 ^ 63) then Some z else None.

(** C integer division: truncating, undefined on a zero divisor. *)
Definition cdiv (a b : Z) : option Z := if b =? 0 then None else Some (Z.quot a b).

Definition getExposureNs (p : CameraPipeline) : option Z :=
  let lineNs := if mLinePeriodNs p >? 0 then mLinePeriodNs p else 15780 in
  lines ← cdiv (mCurrentExposure p) (mExpUnitsPerLine p);
  let lines := if lines <? 1 then 1 else lines in
  ck64 (lines * lineNs).

Definition initFocuser : PM Z := upd (λ p, p <| mFocusPosition := -1 |>);; mret 0.
Definition deinitFocuser : PM () := mret ().

(** The value [::open] returns. *)
Definition fd_of (r : sysres Z) : Z := match r with SOk fd => fd | SErr _ => -1 end.

Definition open (cameraId : Z) : PM Z :=
  p ← get;
  if negb (bool_decide (mState p = PIPELINE_CLOSED)) then mret (- EBUSY) else
  upd (λ p, p <| mCameraId := cameraId |>);;
  let devPath := if cameraId =? 0 then "/dev/video0"%string else "/dev/video1"%string in
  r ← sys_open devPath;
  upd (λ p, p <| mFd := fd_of r |>);;
  if fd_of r <? 0 then mret (- ENODEV) else
  cap ← io_querycap (fd_of r);
  let give_back := sys_close (fd_of r);; upd (λ p, p <| mFd := -1 |>);; mret (- ENODEV) in
  match cap with
  | SErr _ => give_back
  | SOk caps =>
      if (Z.land caps V4L2_CAP_VIDEO_CAPTURE =? 0) || (Z.land caps V4L2_CAP_STREAMING =? 0)
      then give_back else
      (if cameraId =? 0 then initFocuser;; mret () else
       s ← sys_open "/dev/i2c-2";
       upd (λ p, p <| mSensorFd := fd_of s |>);;
       if fd_of s <? 0 then mret () else
       a ← io_i2c_slave (fd_of s) 0x36;
       match a with
       | SErr _ => sys_close (fd_of s);; upd (λ p, p <| mSensorFd := -1 |>)
       | SOk _ => mret ()
       end);;
      upd (λ p, p <| mState := PIPELINE_OPENED |>);;
      mret 0
  end.

Definition stopStreaming : PM Z :=
  p ← get;
  if negb (mStreaming p) then mret 0 else
  io_streamoff (mFd p);;
  forM (zrange 0 (mBufferCount p) 1) (λ i,
    b ← getBuf i;
    match vb_start b with
    | Some a =>
        sys_munmap a (vb_length b);;
        setBuf i {| vb_start := None; vb_length := vb_length b; vb_allocated := false |}
    | None => mret ()
    end);;
  upd (λ p, p <| mBufferCount := 0 |>);;
  upd (λ p, p <| mStreaming := false |> <| mState := PIPELINE_OPENED |>);;
  mret 0.

Definition close : PM Z :=
  stopStreaming;;
  p ← get;
  forM (zrange 0 (mBufferCount p) 1) (λ i,
    b ← getBuf i;
    match vb_start b, vb_allocated b with
    | Some a, true =>
        sys_munmap a (vb_length b);;
        setBuf i {| vb_start := None; vb_length := vb_length b; vb_allocated := false |}
    | _, _ => mret ()
    end);;
  upd (λ p, p <| mBufferCount := 0 |>);;
  upd (λ p, match mRgbBuffer p with
            | Some _ => p <| mRgbBuffer := None |> <| mRgbBufferSize := 0 |>
            | None => p end);;
  p ← get;
  when (mFd p >=? 0) (sys_close (mFd p);; upd (λ p, p <| mFd := -1 |>));;
  when (mSensorFd p >=? 0) (sys_close (mSensorFd p);; upd (λ p, p <| mSensorFd := -1 |>));;
  deinitFocuser;;
  upd (λ p, p <| mState := PIPELINE_CLOSED |>);;
  mret 0.

(** *** configure, part by part *)

(** The sensor's exposure range and the anti-banding target. *)
Definition configure_timing : PM () :=
  upd (λ p, if mCameraId p =? 0
    then p <| mVtsLines := 2510 |> <| mExpUnitsPerLine := 1 |> <| mExpMin := 10 |> <| mExpMax := 2500 |>
    else p <| mVtsLines := 992 |> <| mExpUnitsPerLine := 16 |> <| mExpMin := 160 |> <| mExpMax := 15800 |>);;
  upd (λ p, p <| mTimingFrozen := false |> <| mDeltaCount := 0 |> <| mPrevFrameTsNs := 0 |>
              <| mFramePeriodNs := 0 |> <| mLinePeriodNs := 0 |> <| mExposureStepLines := 0 |>
              <| mMainHalfNs := 0 |> <| mAeHoldFrames := 0 |>);;
  v ← sys_property "persist.vendor.camera.antibanding";
  let abProp := default "auto"%string v in
  if bool_decide (abProp = "off"%string) || bool_decide (abProp = "0"%string) then mret ()
  else
    let mainsHz := if bool_decide (abProp = "60"%string) then 60 else 50 in
    upd (λ p, p <| mMainHalfNs := 500000000 / mainsHz |>).

(** The error path: release the buffers mapped so far. *)
Definition unmap_first (n : Z) : PM () :=
  forM (zrange 0 n 1) (λ j,
    b ← getBuf j;
    match vb_start b with Some a => sys_munmap a (vb_length b) | None => mret () end;;
    setBuf j {| vb_start := None; vb_length := vb_length b; vb_allocated := false |}).

Definition map_buffer (i : Z) : PM (option Z) :=
  p ← get;
  q ← io_querybuf (mFd p) i;
  match q with
  | SErr e =>
      unmap_first i;; upd (λ p, p <| mBufferCount := 0 |>);; mret (Some (- e))
  | SOk (length, offset) =>
      b ← getBuf i;
      setBuf i {| vb_start := vb_start b; vb_length := length; vb_allocated := vb_allocated b |};;
      m ← sys_mmap length (mFd p) offset;
      match m with
      | SErr _ =>
          setBuf i {| vb_start := None; vb_length := length; vb_allocated := vb_allocated b |};;
          unmap_first i;; upd (λ p, p <| mBufferCount := 0 |>);; mret (Some (- ENOMEM))
      | SOk a =>
          setBuf i {| vb_start := Some a; vb_length := length; vb_allocated := true |};; mret None
      end
  end.

Definition demosaicParams_of (config : PipelineConfig) : DemosaicParams := {|
  dp_width := u16 (cfg_width config); dp_height := u16 (cfg_height config);
  dp_bayerPattern := cfg_bayerPattern config;
  dp_offset_x := cfg_offset_x config; dp_offset_y := cfg_offset_y config;
  dp_blackLevel := cfg_blackLevel config;
  dp_whiteLevel := if cfg_whiteLevel config =? 0 then 255 else cfg_whiteLevel config |}.

(** The ISP stages and the RGB buffer; a failing [new[]] aborts. *)
Definition configure_isp (config : PipelineConfig) : PM (option Z) :=
  upd (λ p, p <| mDemosaic := Some DemosaicNEON_new |>);;
  h ← gets hist;
  '(ret, d) ← lift (Demosaic.initialize (k_alloc h) DemosaicNEON_new (demosaicParams_of config));
  upd (λ p, p <| mDemosaic := Some d |>);;
  if negb (ret =? 0) then mret (Some ret) else
  let '(ret, c) := ColorConv.initialize ColorConvNEON_new (u16 (cfg_width config)) (u16 (cfg_height config)) in
  upd (λ p, p <| mColorConv := Some c |>);;
  if negb (ret =? 0) then mret (Some ret) else
  let size := u32 (cfg_width config * cfg_height config * 3) in
  upd (λ p, p <| mRgbBuffer := None |> <| mRgbBufferSize := size |>);;
  buf ← lift (k_alloc h size);
  upd (λ p, p <| mRgbBuffer := Some buf |>);;
  mret None.

(** One entry of a gamma table:
    [(uint8_t)(powf(i / 255.0f, gamma) * 255.0f + 0.5f)]. *)
Definition gamma_entry (gamma : f32) (i : Z) : option Z :=
  f_to_u8 (fadd (fmul (libm_powf (fdiv (f_of_Z i) (f_of_Z 255)) gamma) (f_of_Z 255)) f_half).

Definition gamma_lut (gamma : f32) : option (list Z) := mapM (gamma_entry gamma) (zrange 0 256 1).

Definition configure_gamma (config : PipelineConfig) : PM () :=
  upd (λ p, p <| mHasAwbInit := false |>);;
  p ← get;
  when (negb (feq (mLastGamma p) (cfg_gamma config)))
    (lut ← lift (gamma_lut (cfg_gamma config));
     upd (λ p, p <| mGammaLut := lut |> <| mLastGamma := cfg_gamma config |>)).

Definition configure (config : PipelineConfig) : PM Z :=
  p ← get;
  if bool_decide (mState p = PIPELINE_STREAMING) then mret (- EBUSY) else
  upd (λ p, p <| mConfig := config |>);;
  configure_timing;;
  p ← get;
  if mFd p <? 0 then mret (- ENODEV) else
  f ← io_s_fmt (mFd p) (cfg_width config) (cfg_height config) (cfg_pixelFormat config);
  match f with
  | SErr e => mret (- e)
  | SOk _ =>
      q ← io_reqbufs (mFd p) 4;
      match q with
      | SErr e => mret (- e)
      | SOk count =>
          if count <? 2 then mret (- ENOMEM) else
          upd (λ p, p <| mBufferCount := i32 count |>);;
          r ← forM_exit (zrange 0 (i32 count) 1) map_buffer;
          match r with
          | Some e => mret e
          | None =>
              r ← (if cfg_enableISP config then configure_isp config else mret None);
              match r with
              | Some e => mret e
              | None => configure_gamma config;; mret 0
              end
          end
      end
  end.

(** *** Streaming *)

Definition ov5693_init_via_i2c (i2c_fd : Z) : PM () :=
  if i2c_fd <? 0 then mret () else
  forM ov5693_regs_1280x720 (λ '(reg, val),
    sys_write i2c_fd [Z.land (reg ≫ 8) 0xff; Z.land reg 0xff; val];; mret ()).

Definition startStreaming : PM Z :=
  p ← get;
  if negb (bool_decide (mState p = PIPELINE_OPENED)) then mret (- EINVAL) else
  r ← forM_exit (zrange 0 (mBufferCount p) 1) (λ i,
    q ← io_qbuf (mFd p) i;
    match q with SErr e => mret (Some (- e)) | SOk _ => mret None end);
  match r with
  | Some e => mret e
  | None =>
      s ← io_streamon (mFd p);
      match s with
      | SErr e => mret (- e)
      | SOk _ =>
          (if mCameraId p =? 0 then
             upd (λ p, p <| mCurrentExposure := 800 |> <| mCurrentGain := 60 |>);;
             setExposure 800;; setGain 60;; mret ()
           else
             sys_usleep 300000;;
             ov5693_init_via_i2c (mSensorFd p);;
             upd (λ p, p <| mCurrentExposure := 11904 |> <| mCurrentGain := 64 |>));;
          upd (λ p, p <| mStreaming := true |> <| mState := PIPELINE_STREAMING |>);;
          mret 0
      end
  end.

End Pipeline.
