(* ===== verification/Isp.v ===== *)
(** * The software ISP of the pipeline (camera/CameraPipeline.cpp)

    Auto exposure, auto white balance, white-balance/colour-matrix, gamma,
    vertical flip and the per-frame composition [processBayerToYuv].  Floats
    are IEEE single precision ([Float32]); [long] is 32 bits wide on the
    target. *)

From S2P Require Import Prelude Monad Float32 Kernel Demosaic DemosaicSpec ColorConv Pipeline.

#[local] Open Scope Z_scope.

Section Isp.
Context `{!Kernel}.

Abbreviation PM := (ST (world CameraPipeline)).

(** ** Auto exposure *)

(** Sum of the luma of every eighth pixel of every eighth row, and the number
    of samples. *)
Definition ae_sample (rgb : list Z) (w h : Z) : option (Z * Z) :=
  for_range 0 h 8 (λ acc y,
    for_range 0 w 8 (λ '(sum, count) x,
      off ← ck32 ((y * w + x) * 3);
      r ← ld rgb off; g ← ld rgb (off + 1); b ← ld rgb (off + 2);
      Some (sum + ((r * 77 + g * 150 + b * 29) ≫ 8), count + 1)) acc) (0, 0).

(** [(float)sum / count / 255.0f] *)
Definition ae_avgLuma (sum count : Z) : f32 :=
  fdiv (fdiv (f_of_Z sum) (f_of_Z count)) (f_of_Z 255).

Definition in_band (avgLuma target lo hi : f32) : bool :=
  fgt avgLuma (fmul target lo) && flt avgLuma (fmul target hi).

Definition ae_ratio (avgLuma target : f32) : f32 :=
  let ratio := fdiv target (if fgt avgLuma (f_lit 1 1000) then avgLuma else f_lit 1 1000) in
  fclamp (f_lit 6 10) (f_lit 17 10) ratio.

Definition gain_min (p : CameraPipeline) : Z := if mCameraId p =? 0 then 1 else 16.
Definition gainMax : Z := 240.

Definition iclamp (lo hi v : Z) : Z := let v := if v <? lo then lo else v in if v >? hi then hi else v.

(** [(int)(n / d + 0.5f)] for integers [n] and [d]. *)
Definition div_half (n d : Z) : option Z := q ← cdiv n d; f_to_int (fadd (f_of_Z q) f_half).

(** The exposure and gain before quantisation, and the effective exposure. *)
Definition ae_split (p : CameraPipeline) (ratio : f32) : option (Z * Z * Z) :=
  newEff ← f_to_int (fmul (fmul (f_of_Z (mCurrentExposure p)) (f_of_Z (mCurrentGain p))) ratio);
  newExp ← div_half newEff (mCurrentGain p);
  '(newExp, newGain) ←
    (if newExp >? mExpMax p then
       g ← div_half newEff (mExpMax p); Some (mExpMax p, g)
     else if newExp <? mExpMin p then
       g ← div_half newEff (mExpMin p); Some (mExpMin p, g)
     else Some (newExp, mCurrentGain p));
  Some (newEff, newExp, iclamp (gain_min p) gainMax newGain).

(** Snap the exposure to the mains grid; the gain absorbs the residual. *)
Definition ae_quantize (p : CameraPipeline) (newEff newExp newGain : Z) : option (Z * Z) :=
  if (mMainHalfNs p >? 0) && (mExposureStepLines p >? 1) then
    let s := mExposureStepLines p in
    sum ← ck32 (newExp + Z.quot s 2);
    let q := Z.quot sum s * s in
    let qMax := Z.quot (mExpMax p) s * s in
    let q := if q >? qMax then qMax else q in
    let q := if q <? s then s else q in
    if negb (q =? newExp) then
      n ← ck32 (newEff + Z.quot q 2);
      g ← cdiv n q;
      up7 ← ck32 (mCurrentGain p * 7);
      dn10 ← ck32 (mCurrentGain p * 10);
      gCapUp ← ck32 (mCurrentGain p + Z.quot up7 10);
      let gCapDn := Z.quot dn10 17 in
      let g := if g >? gCapUp then gCapUp else g in
      let g := if (g <? gCapDn) && (g <? mCurrentGain p) then gCapDn else g in
      Some (q, iclamp (gain_min p) gainMax g)
    else Some (newExp, newGain)
  else Some (newExp, newGain).

Definition ae_target (p : CameraPipeline) (ratio : f32) : option (Z * Z) :=
  '(newEff, newExp, newGain) ← ae_split p ratio;
  ae_quantize p newEff newExp newGain.

Definition ae_apply (newExp newGain : Z) : PM () :=
  p ← get;
  when (negb (newExp =? mCurrentExposure p) || negb (newGain =? mCurrentGain p))
    (when (negb (newGain =? mCurrentGain p)) (setGain newGain;; mret ());;
     when (negb (newExp =? mCurrentExposure p)) (setExposure newExp;; mret ());;
     upd (λ p, p <| mAeHoldFrames := 6 |>)).

Definition doAutoExposure (rgbBuffer : option (list Z)) : PM () :=
  p ← get;
  match rgbBuffer with
  | None => mret ()
  | Some rgb =>
      if negb (cfg_enableAE (mConfig p)) then mret () else
      '(sum, count) ← lift (ae_sample rgb (i32 (cfg_width (mConfig p))) (i32 (cfg_height (mConfig p))));
      if count =? 0 then mret () else
      let avgLuma := ae_avgLuma sum count in
      let target := cfg_targetLuma (mConfig p) in
      if in_band avgLuma target (f_lit 85 100) (f_lit 115 100)
      then upd (λ p, p <| mAeHoldFrames := 0 |>) else
      let held := mAeHoldFrames p >? 0 in
      when held (upd (λ p, p <| mAeHoldFrames := mAeHoldFrames p - 1 |>));;
      if held && in_band avgLuma target (f_lit 1 4) (f_of_Z 4) then mret () else
      '(newExp, newGain) ← lift (ae_target p (ae_ratio avgLuma target));
      ae_apply newExp newGain
  end.

(** ** Auto white balance *)

Record awb_acc := { sumR : Z; sumG : Z; sumB : Z; pixelCount : Z }.

Definition awb_sample (rgb : list Z) (w h : Z) : option awb_acc :=
  for_range 0 h 16 (λ acc y,
    for_range 0 w 16 (λ acc x,
      off ← ck32 ((y * w + x) * 3);
      r ← ld rgb off; g ← ld rgb (off + 1); b ← ld rgb (off + 2);
      let lum := r + g + b in
      Some (if (lum <? 60) || (lum >? 690) then acc else
            {| sumR := sumR acc + r; sumG := sumG acc + g; sumB := sumB acc + b;
               pixelCount := pixelCount acc + 1 |})) acc)
    {| sumR := 0; sumG := 0; sumB := 0; pixelCount := 0 |}.

(** [alpha] and [1.0f - alpha] *)
Definition awb_alpha : f32 := f_lit 15 100.
Definition awb_mix (old new : f32) : f32 :=
  fadd (fmul old (fsub (f_of_Z 1) awb_alpha)) (fmul new awb_alpha).

Definition awb_clamp (g : f32) : f32 :=
  if flt g f_half then f_half else if fgt g (f_of_Z 4) then f_of_Z 4 else g.

Definition doAutoWhiteBalance (rgbBuffer : option (list Z)) : PM () :=
  p ← get;
  match rgbBuffer with
  | None => mret ()
  | Some rgb =>
      if negb (cfg_enableAWB (mConfig p)) then mret () else
      acc ← lift (awb_sample rgb (i32 (cfg_width (mConfig p))) (i32 (cfg_height (mConfig p))));
      if pixelCount acc <? 100 then mret () else
      let avg s := fdiv (f_of_Z s) (f_of_Z (pixelCount acc)) in
      let avgR := avg (sumR acc) in let avgG := avg (sumG acc) in let avgB := avg (sumB acc) in
      if flt avgR (f_of_Z 5) || flt avgG (f_of_Z 5) || flt avgB (f_of_Z 5) then mret () else
      let rGain := awb_clamp (fdiv avgG avgR) in
      let bGain := awb_clamp (fdiv avgG avgB) in
      if negb (mHasAwbInit p)
      then upd (λ p, p <| mAwbGains := [rGain; f_of_Z 1; bGain; f_of_Z 1] |> <| mHasAwbInit := true |>)
      else
        g0 ← lift (ld (mAwbGains p) 0);
        g2 ← lift (ld (mAwbGains p) 2);
        upd (λ p, p <| mAwbGains := [awb_mix g0 rGain; f_of_Z 1; awb_mix g2 bGain; f_of_Z 1] |>)
  end.

(** ** Colour: white balance, matrix, gamma, flip *)

(** [(uint8_t)(v > 255.0f ? 255 : (v < 0.0f ? 0 : v))] *)
Definition to_byte (v : f32) : option Z :=
  f_to_u8 (if fgt v (f_of_Z 255) then f_of_Z 255 else if flt v (f_of_Z 0) then f_of_Z 0 else v).

Definition ccm_identity (m : list f32) : option bool :=
  m0 ← ld m 0; m1 ← ld m 1; m2 ← ld m 2; m3 ← ld m 3; m4 ← ld m 4;
  m5 ← ld m 5; m6 ← ld m 6; m7 ← ld m 7; m8 ← ld m 8;
  let one x := feq x (f_of_Z 1) in let zero x := feq x (f_of_Z 0) in
  Some (one m0 && one m4 && one m8 && zero m1 && zero m2 && zero m3 && zero m5 && zero m6 && zero m7).

(** [m[k]*r + m[k+1]*g + m[k+2]*b] *)
Definition ccm_row (m : list f32) (k : Z) (r g b : f32) : option f32 :=
  a0 ← ld m k; a1 ← ld m (k + 1); a2 ← ld m (k + 2);
  Some (fadd (fadd (fmul a0 r) (fmul a1 g)) (fmul a2 b)).

(** One pixel of [applyWbAndCcm]. *)
Definition wb_ccm_px (m : list f32) (identity : bool) (rG gG bG : f32) (r8 g8 b8 : Z)
  : option (list Z) :=
  let r := fmul (f_of_Z r8) rG in
  let g := fmul (f_of_Z g8) gG in
  let b := fmul (f_of_Z b8) bG in
  '(nr, ng, nb) ←
    (if identity then Some (r, g, b) else
     nr ← ccm_row m 0 r g b; ng ← ccm_row m 3 r g b; nb ← ccm_row m 6 r g b; Some (nr, ng, nb));
  r8 ← to_byte nr; g8 ← to_byte ng; b8 ← to_byte nb; Some [r8; g8; b8].

Definition applyWbAndCcm (m : list f32) (rgb : list Z) (total : Z) (rG gG bG : f32)
  : option (list Z) :=
  identity ← ccm_identity m;
  for_range 0 total 1 (λ rgb i,
    off ← ck32 (i * 3);
    r8 ← ld rgb off; g8 ← ld rgb (off + 1); b8 ← ld rgb (off + 2);
    px ← wb_ccm_px m identity rG gG bG r8 g8 b8;
    stn rgb off px) rgb.

Definition applyGamma (rgb : list Z) (width height : Z) (gamma : f32) : option (list Z) :=
  lut ← gamma_lut gamma;
  total ← ck32 (width * height);
  n ← ck32 (total * 3);
  for_range 0 n 1 (λ rgb i, v ← ld rgb i; v' ← ld lut v; st rgb i v') rgb.

(** The three [memcpy]s of a row swap through [tmp]. *)
Definition flipVertical (buf : list Z) (width height bpp : Z) : option (list Z) :=
  rowSize ← ck32 (width * bpp);
  for_range 0 (Z.quot height 2) 1 (λ buf y,
    topOff ← ck32 (y * rowSize);
    botOff ← ck32 ((height - 1 - y) * rowSize);
    tmp ← ldn buf topOff rowSize;
    buf ← copyn buf topOff botOff rowSize;
    stn buf botOff tmp) buf.

(** ** One frame *)

(** The debug statistics of every hundredth frame only read the buffer. *)
Definition post_demosaic_stats (rgb : list Z) (total : Z) : option () :=
  for_range 0 total 100 (λ _ i,
    ld rgb (i * 3);; ld rgb (i * 3 + 1);; ld rgb (i * 3 + 2);; Some ()) ().

(** The white-balance gain of channel [k], times the digital gain. *)
Definition wb_gain (p : CameraPipeline) (k : Z) : option f32 :=
  g ← ld (if cfg_enableAWB (mConfig p) then mAwbGains p else cfg_wbGain (mConfig p)) k;
  Some (fmul g (cfg_digitalGain (mConfig p))).

(** The output conversion: what is written to [output] for the format. *)
Definition write_output (p : CameraPipeline) (c : ColorConvNEON) (rgb output : list Z)
    (outputFormat : Z) : option (list Z) :=
  let width := cfg_width (mConfig p) in let height := cfg_height (mConfig p) in
  if outputFormat =? HAL_PIXEL_FORMAT_YCBCR_420_888 then
    rgbToNv12 c rgb 0 (u32 (width * height)) output
  else if (outputFormat =? HAL_PIXEL_FORMAT_RGBA_8888)
          || (outputFormat =? HAL_PIXEL_FORMAT_IMPLEMENTATION_DEFINED) then
    output ← rgbToRgba rgb output width height;
    if cfg_flipV (mConfig p) then flipVertical output (i32 width) (i32 height) 4 else Some output
  else
    v ← ldn rgb 0 (mRgbBufferSize p); stn output 0 v.

(** The stages work in place on [mRgbBuffer]. *)
Definition set_rgb (rgb : list Z) : PM () := upd (λ p, p <| mRgbBuffer := Some rgb |>).

Definition processBayerToYuv (bayerData : option (list Z)) (output : list Z) (outputFormat : Z)
  : PM (Z * list Z) :=
  p ← get;
  match bayerData, mDemosaic p, mColorConv p with
  | Some bayer, Some d, Some c =>
      (match mRgbBuffer p with
       | None => mret ()
       | Some rgb =>
           '(d, rgb) ← lift (process d bayer rgb);
           upd (λ p, p <| mDemosaic := Some d |>);; set_rgb rgb
       end);;
      n ← lift (ck32 (dbgCount p + 1));
      upd (λ p, p <| dbgCount := n |>);;
      rgb ← gets (λ w, mRgbBuffer (obj w));
      let total := i32 (u32 (cfg_width (mConfig p) * cfg_height (mConfig p))) in
      when (Z.rem n 100 =? 0) (lift (rgb ← rgb; post_demosaic_stats rgb total));;
      when (cfg_enableAE (mConfig p)) (doAutoExposure rgb);;
      when (cfg_enableAWB (mConfig p)) (doAutoWhiteBalance rgb);;
      p ← get;
      rG ← lift (wb_gain p 0); gG ← lift (wb_gain p 1); bG ← lift (wb_gain p 2);
      rgb ← lift (mRgbBuffer p);
      rgb ← lift (applyWbAndCcm (cfg_ccm (mConfig p)) rgb total rG gG bG);
      rgb ← lift (applyGamma rgb (i32 (cfg_width (mConfig p))) (i32 (cfg_height (mConfig p)))
                    (cfg_gamma (mConfig p)));
      set_rgb rgb;;
      output ← lift (write_output p c rgb output outputFormat);
      mret (0, output)
  | _, _, _ => mret (- EINVAL, output)
  end.

End Isp.
