(* ===== verification/Capture.v ===== *)
(** * Capturing a frame (camera/CameraPipeline.cpp, [captureFrame])

    Waiting for a buffer, measuring the frame period, processing the frame and
    giving the buffer back. *)

From S2P Require Import Prelude Monad Float32 Kernel Demosaic DemosaicSpec ColorConv Pipeline Isp.

#[local] Open Scope Z_scope.

(** ** Sorting the frame deltas *)

(** [while (j > 0 && sorted[j-1] > sorted[j]) { swap; j--; }] *)
Fixpoint sink (j : nat) (sorted : list Z) : option (list Z) :=
  match j with
  | O => Some sorted
  | S j' =>
      a ← ld sorted (Z.of_nat j'); b ← ld sorted (Z.of_nat j);
      if a >? b then
        s ← st sorted (Z.of_nat j) a;
        s ← st s (Z.of_nat j') b;
        sink j' s
      else Some sorted
  end.

Definition sort_deltas (deltas : list Z) (n : Z) (sorted : list Z) : option (list Z) :=
  for_range 0 n 1 (λ sorted i,
    v ← ld deltas i; s ← st sorted i v; sink (Z.to_nat i) s) sorted.

Section Capture.
Context `{!Kernel}.

Abbreviation PM := (ST (world CameraPipeline)).

Definition max_retries : nat := 6.

(** The poll loop: [None] when a buffer is ready, otherwise the value the
    function returns.  The argument is the number of attempts left. *)
Fixpoint poll_loop (fd : Z) (left : nat) : PM (option Z) :=
  match left with
  | O => mret None
  | S left' =>
      r ← sys_poll fd 300;
      match r with
      | SErr e => mret (Some (- e))
      | SOk (pollRet, revents) =>
          if pollRet =? 0 then
            match left' with O => mret (Some (- EAGAIN)) | S _ => poll_loop fd left' end
          else if Z.land revents POLLIN =? 0 then mret (Some (- EAGAIN))
          else mret None
      end
  end.

Definition ts_ns (b : dqbuf) : option Z :=
  s ← ck64 (dq_tv_sec b * 1000000000); ck64 (s + dq_tv_usec b * 1000).

(** Twelve deltas have been measured: freeze the frame period (their median)
    and derive the line period and the exposure grid. *)
Definition freeze_timing : PM () :=
  p ← get;
  sorted ← lift (sort_deltas (mTsDeltas p) (mDeltaCount p) (replicate 16 0));
  med ← lift (ld sorted (Z.quot (mDeltaCount p) 2));
  line ← lift (cdiv med (mVtsLines p));
  upd (λ p, p <| mFramePeriodNs := med |> <| mTimingFrozen := true |> <| mLinePeriodNs := line |>);;
  if (mMainHalfNs p >? 0) && (line >? 0) then
    let lines := i32 (Z.quot (mMainHalfNs p + Z.quot line 2) line) in
    let lines := if lines <? 1 then 1 else lines in
    s ← lift (ck32 (lines * mExpUnitsPerLine p));
    upd (λ p, p <| mExposureStepLines := s |>);;
    sum ← lift (ck32 (mCurrentExposure p + Z.quot s 2));
    q ← lift (cdiv sum s);
    q ← lift (ck32 (q * s));
    let q := if q >? mExpMax p then Z.quot (mExpMax p) s * s else q in
    let q := if q <? s then s else q in
    when (negb (q =? mCurrentExposure p)) (setExposure q;; mret ())
  else mret ().

Definition update_timing (b : dqbuf) : PM () :=
  p ← get;
  tsNs ← lift (ts_ns b);
  if mTimingFrozen p then upd (λ p, p <| mPrevFrameTsNs := tsNs |>) else
  delta ← lift (ck64 (tsNs - mPrevFrameTsNs p));
  upd (λ p, p <| mPrevFrameTsNs := tsNs |>);;
  if (delta >? 5000000) && (delta <? 200000000) then
    when (mDeltaCount p <? 16)
      (ds ← lift (st (mTsDeltas p) (mDeltaCount p) delta);
       upd (λ p, p <| mTsDeltas := ds |> <| mDeltaCount := mDeltaCount p + 1 |>));;
    p ← get;
    when (mDeltaCount p >=? 12) freeze_timing
  else mret ().

(** The debug dump of every hundredth frame: the samples it reads from the
    mapped buffer (addresses are for a 1280-pixel wide frame). *)
Definition raw_debug_addrs (frameSize : Z) : list Z :=
  zrange 0 (if frameSize <? 4000 then i32 frameSize else 4000) 1 ++ zrange 0 32 1 ++
  (r ← [0; 1; 2; 3]; c ← [0; 1; 2; 3]; k ← [0; 1]; [(r * 1280 + c) * 2 + k]) ++
  (r ← [0; 1; 2; 3]; c ← [0; 1; 2; 3]; k ← [0; 1]; [((360 + r) * 1280 + (640 + c)) * 2 + k]).

Definition raw_debug (frame : list Z) (frameSize : Z) : option () :=
  foldM (λ _ a, ld frame a;; Some ()) (raw_debug_addrs frameSize) ().

(** What is mapped at [mBuffers[i].start]; [None] is the null pointer. *)
Definition read_start (b : V4l2Buffer) : PM (option (list Z)) :=
  match vb_start b with Some a => f ← read_mem a; mret (Some f) | None => mret None end.

(** [captureFrame] returns its status and the contents of the output buffer. *)
Definition captureFrame (outputBuffer : option (list Z)) (outputFormat : Z)
  : PM (Z * option (list Z)) :=
  p ← get;
  match mState p, outputBuffer with
  | PIPELINE_STREAMING, Some out =>
      r ← poll_loop (mFd p) max_retries;
      match r with
      | Some e => mret (e, outputBuffer)
      | None =>
          r ← io_dqbuf (mFd p);
          match r with
          | SErr e => mret (if e =? EAGAIN then - EAGAIN else - e, outputBuffer)
          | SOk buf =>
              update_timing buf;;
              p ← get;
              if dq_index buf >=? u32 (mBufferCount p) then mret (- EINVAL, outputBuffer) else
              b ← getBuf (dq_index buf);
              frameBuffer ← read_start b;
              n ← lift (ck32 (rawDebugCount p + 1));
              upd (λ p, p <| rawDebugCount := n |>);;
              when (Z.rem (rawDebugCount p) 100 =? 0) (lift (f ← frameBuffer; raw_debug f (dq_bytesused buf)));;
              '(ret, out) ←
                (match cfg_enableISP (mConfig p), mDemosaic p, mColorConv p with
                 | true, Some _, Some _ => processBayerToYuv frameBuffer out outputFormat
                 | _, _, _ =>
                     v ← lift (f ← frameBuffer; ldn f 0 (dq_bytesused buf));
                     o ← lift (stn out 0 v); mret (0, o)
                 end);
              r ← io_qbuf (mFd p) (dq_index buf);
              match r with
              | SErr e => mret (- e, Some out)
              | SOk _ => mret (ret, Some out)
              end
          end
      end
  | _, _ => mret (- EINVAL, outputBuffer)
  end.

End Capture.
