(* ===== verification/AutoFocus.v ===== *)
(** * Contrast-detection auto focus (camera/CameraPipeline.cpp)

    The focus motor, the sharpness metrics, the measurement of one lens
    position and the coarse-to-fine scan. *)

From S2P Require Import Prelude Monad Float32 Kernel Demosaic DemosaicSpec ColorConv Pipeline Isp Capture.

#[local] Open Scope Z_scope.

(** ** Sharpness metrics *)

(** Green sample of pixel [x] in the row that starts at [row]. *)
Definition green (rgb : list Z) (row x : Z) : option Z := ld rgb (row + (x * 3 + 1)).

Definition abs_diff (rgb : list Z) (row x1 x2 : Z) : option Z :=
  a ← green rgb row x1; b ← green rgb row x2; Some (Z.abs (a - b)).

Definition sobelEnergy (rgb : option (list Z)) (w h : Z) : option Z :=
  match rgb with
  | None => Some 0
  | Some rgb =>
      if (w <? 3) || (h <? 3) then Some 0 else
      for_range 1 (h - 1) 1 (λ total y,
        for_range 1 (w - 1) 1 (λ total x,
          g ← abs_diff rgb (y * (w * 3)) (x + 1) (x - 1);
          ck32 (total + g)) total) 0
  end.

(** The eight gradients of one unrolled step. *)
Definition sobel_chunk (rgb : list Z) (row x : Z) : option Z :=
  g0 ← abs_diff rgb row (x + 1) (x - 1);
  g1 ← abs_diff rgb row (x + 2) (x + 0);
  g2 ← abs_diff rgb row (x + 3) (x + 1);
  g3 ← abs_diff rgb row (x + 4) (x + 2);
  g4 ← abs_diff rgb row (x + 5) (x + 3);
  g5 ← abs_diff rgb row (x + 6) (x + 4);
  g6 ← abs_diff rgb row (x + 7) (x + 5);
  g7 ← abs_diff rgb row (x + 8) (x + 6);
  Some (g0 + g1 + g2 + g3 + g4 + g5 + g6 + g7).

Definition sobelEnergyNw (rgb : option (list Z)) (w h : Z) : option Z :=
  match rgb with
  | None => Some 0
  | Some rgb =>
      if (w <? 3) || (h <? 3) then Some 0 else
      for_range 1 (h - 1) 1 (λ total y,
        let row := y * (w * 3) in
        total ← for_range 1 (w - 9) 8 (λ total x, g ← sobel_chunk rgb row x; ck32 (total + g)) total;
        for_range (range_end 1 (w - 9) 8) (w - 1) 1 (λ total x,
          g ← abs_diff rgb row (x + 1) (x - 1);
          ck32 (total + g)) total) 0
  end.

Definition afSharpness (rgb : option (list Z)) (w h : Z) : option Z :=
  match rgb with
  | None => Some 0
  | Some rgb =>
      if (w <? 64) || (h <? 64) then Some 0 else
      let stride := w * 3 in
      let x0 := Z.quot w 5 in let x1 := w - Z.quot w 5 in
      let y0 := Z.quot h 5 in let y1 := h - Z.quot h 5 in
      '(total, valid, _) ←
        for_range (y0 + 1) (y1 - 1) 2 (λ acc y,
          let row := y * stride in let up := row - stride in let dn := row + stride in
          for_range (x0 + 1) (x1 - 1) 2 (λ '(total, valid, clipped) x,
            let i := x * 3 + 1 in
            c ← ld rgb (row + i);
            if (c >=? 250) || (c <=? 6) then Some (total, valid, clipped + 1) else
            r ← ld rgb (row + (i + 3)); l ← ld rgb (row + (i - 3));
            d ← ld rgb (dn + i); u ← ld rgb (up + i);
            Some (total + (Z.abs (r - l) + Z.abs (d - u)), valid + 1, clipped)) acc) (0, 0, 0);
      if valid <? 2000 then Some 0 else
      Some (if total >? 0x7fffffff then 0x7fffffff else total)
  end.

(** ** The median of the measurements *)

(** [while (j >= 0 && sorted[j] > v) { sorted[j+1] = sorted[j]; j--; }
    sorted[j+1] = v;] with [n = j + 1]. *)
Fixpoint shift_in (n : nat) (v : Z) (sorted : list Z) : option (list Z) :=
  match n with
  | O => st sorted 0 v
  | S j =>
      a ← ld sorted (Z.of_nat j);
      if a >? v then s ← st sorted (Z.of_nat n) a; shift_in j v s
      else st sorted (Z.of_nat n) v
  end.

Definition sort_energies (sorted : list Z) (nEng : Z) : option (list Z) :=
  for_range 1 nEng 1 (λ sorted i, v ← ld sorted i; shift_in (Z.to_nat i) v sorted) sorted.

Section AutoFocus.
Context `{!Kernel}.

Abbreviation PM := (ST (world CameraPipeline)).

Definition setFocus (position : Z) : PM Z :=
  let position := if position <? 0 then 0 else position in
  let position := if position >? 1023 then 1023 else position in
  p ← get;
  r ← io_s_ctrl (mFd p) V4L2_CID_FOCUS_ABSOLUTE position;
  match r with
  | SOk _ => upd (λ p, p <| mFocusPosition := position |>);; mret 0
  | SErr _ => mret (-1)
  end.

Definition captureForAf : PM Z :=
  p ← get;
  if negb (bool_decide (mState p = PIPELINE_STREAMING)) then mret (- EINVAL) else
  r ← sys_poll (mFd p) 500;
  match r with
  | SErr _ => mret (- EAGAIN)
  | SOk (pollRet, revents) =>
      if pollRet <=? 0 then mret (- EAGAIN) else
      if Z.land revents POLLIN =? 0 then mret (- EAGAIN) else
      r ← io_dqbuf (mFd p);
      match r with
      | SErr e => mret (- e)
      | SOk buf =>
          if dq_index buf >=? u32 (mBufferCount p) then mret (- EINVAL) else
          b ← getBuf (dq_index buf);
          energy ←
            (match cfg_enableISP (mConfig p), mDemosaic p with
             | true, Some d =>
                 (match vb_start b, mRgbBuffer p with
                  | Some a, Some rgb =>
                      frameBuffer ← read_mem a;
                      '(d, rgb) ← lift (process d frameBuffer rgb);
                      upd (λ p, p <| mDemosaic := Some d |>);; set_rgb rgb
                  | _, _ => mret ()
                  end);;
                 p ← get;
                 lift (afSharpness (mRgbBuffer p) (i32 (cfg_width (mConfig p)))
                         (i32 (cfg_height (mConfig p))))
             | _, _ => mret 0
             end);
          r ← io_qbuf (mFd p) (dq_index buf);
          match r with SErr e => mret (- e) | SOk _ => mret energy end
      end
  end.

(** ** The scan *)

Definition sweepMin : Z := 140.
Definition sweepMax : Z := 640.
Definition coarseStep : Z := 50.
Definition fineStep : Z := 10.
Definition settleMs : Z := 60.

(** The locals of [startAfScan]; [energies] holds the first [nEng] elements
    of the array. *)
Record af_locals := mkAf { bestEnergy : Z; bestPos : Z; energies : list Z; fails : Z }.

Definition nEng (l : af_locals) : Z := blen (energies l).

(** One measurement; [None] is the [break] of the sweep after four failures
    in a row. *)
Definition af_measure (pos : Z) (l : af_locals) : PM (af_locals * bool) :=
  setFocus pos;;
  sys_usleep (settleMs * 1000);;
  energy ← captureForAf;
  if energy <=? 0 then
    let f := fails l + 1 in
    mret (mkAf (bestEnergy l) (bestPos l) (energies l) f, f >=? 4)
  else
    let es := if nEng l <? 40 then energies l ++ [energy] else energies l in
    mret (if energy >? bestEnergy l then mkAf energy pos es 0
          else mkAf (bestEnergy l) (bestPos l) es 0, false).

(** A sweep over the given positions; [skip] is the position the fine sweep
    does not measure again (it is compared with the current best). *)
Fixpoint af_sweep (skipBest : bool) (positions : list Z) (l : af_locals) : PM af_locals :=
  match positions with
  | [] => mret l
  | pos :: rest =>
      if skipBest && (pos =? bestPos l) then af_sweep skipBest rest l else
      '(l, stop) ← af_measure pos l;
      if (stop : bool) then mret l else af_sweep skipBest rest l
  end.

Definition af_lock (l : af_locals) : PM () :=
  setFocus (bestPos l);;
  sys_usleep (settleMs * 1000);;
  upd (λ p, p <| mAfState := 2 |>).

Definition af_finish (l : af_locals) : PM () :=
  '(sec, nsec) ← sys_clock;
  now ← lift (ck64 (sec * 1000000000 + nsec));
  upd (λ p, p <| mAfLastScanNs := now |>);;
  if (bestEnergy l >? 0) && (nEng l >=? 5) then
    sorted ← lift (sort_energies (energies l) (nEng l));
    median ← lift (ld sorted (Z.quot (nEng l) 2));
    t ← lift (ck32 (median + Z.quot median 3));
    if bestEnergy l >=? t then af_lock l
    else upd (λ p, if mAfState p =? 2 then p else p <| mAfState := 3 |>)
  else if bestEnergy l >? 0 then af_lock l
  else upd (λ p, p <| mAfState := 3 |>).

Definition startAfScan : PM () :=
  p ← get;
  if negb (bool_decide (mState p = PIPELINE_STREAMING)) then upd (λ p, p <| mAfState := 0 |>) else
  upd (λ p, p <| mAfState := 1 |>);;
  l ← af_sweep false (zrange sweepMin (sweepMax + 1) coarseStep) (mkAf 0 400 [] 0);
  let fineStart := bestPos l - coarseStep in
  let fineStart := if fineStart <? sweepMin then sweepMin else fineStart in
  let fineEnd := bestPos l + coarseStep in
  let fineEnd := if fineEnd >? sweepMax then sweepMax else fineEnd in
  l ← af_sweep true (zrange fineStart (fineEnd + 1) fineStep) l;
  af_finish l.

Definition cancelAf : PM () := upd (λ p, p <| mAfState := 0 |>).

Definition afAgeMs : PM Z :=
  p ← get;
  if mAfLastScanNs p =? 0 then mret 0x7fffffffffffffff else
  '(sec, nsec) ← sys_clock;
  now ← lift (ck64 (sec * 1000000000 + nsec));
  diff ← lift (ck64 (now - mAfLastScanNs p));
  let age := Z.quot diff 1000000 in
  mret (if age >? 0 then age else 0).

End AutoFocus.
