(* ===== verification/Medians.v ===== *)
(** * The two insertion sorts

    The pipeline sorts frame deltas (by swaps) and focus energies (by shifts)
    in place to take a median.  Both compute the reference sort. *)

From S2P Require Import Prelude Monad Kernel Pipeline Capture AutoFocus.
From stdpp Require Import sorting.

#[local] Open Scope Z_scope.

(** ** The slot after a prefix *)

Lemma ld_mid {A} (l post : list A) v : ld (l ++ v :: post) (blen l) = Some v.
Proof.
  unfold ld, blen. rewrite bool_decide_true by lia. rewrite Nat2Z.id.
  by apply list_lookup_middle.
Qed.

Lemma st_mid {A} (l post : list A) c v : st (l ++ c :: post) (blen l) v = Some (l ++ v :: post).
Proof.
  unfold st. rewrite stn_Some.
  - f_equal. simpl. unfold blen. rewrite Nat2Z.id, insert_app_r_alt, Nat.sub_diag by lia. done.
  - apply blen_nonneg.
  - unfold blen. rewrite length_app. simpl. lia.
Qed.

Lemma blen_app {A} (l k : list A) : blen (l ++ k) = blen l + blen k.
Proof. unfold blen. rewrite length_app. lia. Qed.

Lemma snoc_inv {A} (l : list A) n : length l = S n → ∃ l' a, l = l' ++ [a] ∧ length l' = n.
Proof.
  intros E. destruct (exists_last (l:=l)) as (l' & a & ->); [by destruct l|].
  exists l', a. rewrite length_app in E. simpl in E. split; [done|lia].
Qed.

(** Putting the larger element at the end of a sorted list. *)
Lemma sorted_snoc (l' m : list Z) a v :
  StronglySorted Z.le (l' ++ [a]) → m ≡ₚ v :: l' → StronglySorted Z.le m → v <= a →
  StronglySorted Z.le (m ++ [a]).
Proof.
  intros Hs Hm Hsm Hv. apply StronglySorted_app_2; [|done|repeat constructor].
  intros x y Hx ->%list_elem_of_singleton. rewrite Hm in Hx. apply elem_of_cons in Hx as [->|Hx]; [done|].
  eapply StronglySorted_app_1_elem_of; [exact Hs|done|]. by apply list_elem_of_singleton.
Qed.

Lemma sorted_append (l : list Z) a v :
  StronglySorted Z.le (l ++ [a]) → a <= v → StronglySorted Z.le ((l ++ [a]) ++ [v]).
Proof.
  intros Hs Hv. apply StronglySorted_app_2; [|done|repeat constructor].
  intros x y Hx ->%list_elem_of_singleton. apply elem_of_app in Hx as [Hx| ->%list_elem_of_singleton]; [|lia].
  transitivity a; [|lia]. eapply StronglySorted_app_1_elem_of; [exact Hs|done|].
  by apply list_elem_of_singleton.
Qed.

Lemma sink_spec l v post :
  StronglySorted Z.le l →
  ∃ m, sink (length l) (l ++ v :: post) = Some (m ++ post) ∧ m ≡ₚ v :: l ∧ StronglySorted Z.le m.
Proof.
  remember (length l) as n eqn:En. revert l v post En. induction n as [|n IH]; intros l v post En Hs.
  - destruct l; [|done]. exists [v]. split_and!; [done..|repeat constructor].
  - destruct (snoc_inv l n) as (l' & a & -> & Hn); [done|]. cbn [sink].
    replace (Z.of_nat n) with (blen l') by (unfold blen; lia).
    replace (Z.of_nat (S n)) with (blen (l' ++ [a])) by (unfold blen; rewrite length_app; simpl; lia).
    rewrite ld_mid. rewrite <- app_assoc. cbn [app]. rewrite ld_mid. cbn [mbind option_bind].
    destruct (a >? v) eqn:Hc; zbool.
    + rewrite (app_assoc l' [a] (v :: post) : l' ++ a :: v :: post = (l' ++ [a]) ++ v :: post).
      rewrite st_mid. cbn [mbind option_bind]. rewrite <- app_assoc. cbn [app].
      rewrite st_mid. cbn [mbind option_bind].
      destruct (IH l' v (a :: post)) as (m & Em & Hm & Hsm); [done|by eapply StronglySorted_app_1_l|].
      exists (m ++ [a]). rewrite Em, <- app_assoc. split_and!; [done| |].
      * rewrite Hm. cbn [app]. by rewrite (Permutation_app_comm l' [a]).
      * eapply sorted_snoc; [exact Hs|exact Hm|exact Hsm|lia].
    + exists ((l' ++ [a]) ++ [v]). rewrite <- !app_assoc. split_and!; [done| |].
      * by rewrite (app_assoc l'), (Permutation_app_comm (l' ++ [a]) [v]).
      * rewrite app_assoc. by apply sorted_append.
Qed.

Lemma shift_in_spec l v c post :
  StronglySorted Z.le l →
  ∃ m, shift_in (length l) v (l ++ c :: post) = Some (m ++ post) ∧ m ≡ₚ v :: l ∧ StronglySorted Z.le m.
Proof.
  remember (length l) as n eqn:En. revert l c post En. induction n as [|n IH]; intros l c post En Hs.
  - destruct l; [|done]. exists [v]. split_and!; [|done|repeat constructor]. apply (st_mid []).
  - destruct (snoc_inv l n) as (l' & a & -> & Hn); [done|]. cbn [shift_in].
    replace (Z.of_nat n) with (blen l') by (unfold blen; lia).
    replace (Z.of_nat (S n)) with (blen (l' ++ [a])) by (unfold blen; rewrite length_app; simpl; lia).
    assert (ld ((l' ++ [a]) ++ c :: post) (blen l') = Some a) as ->.
    { rewrite <- app_assoc. apply ld_mid. }
    cbn [mbind option_bind]. rewrite !st_mid. rewrite <- !app_assoc. cbn [app mbind option_bind].
    destruct (a >? v) eqn:Hc; zbool.
    + destruct (IH l' a (a :: post)) as (m & Em & Hm & Hsm); [done|by eapply StronglySorted_app_1_l|].
      exists (m ++ [a]). rewrite Em, <- app_assoc. split_and!; [done| |].
      * rewrite Hm. cbn [app]. by rewrite (Permutation_app_comm l' [a]).
      * eapply sorted_snoc; [exact Hs|exact Hm|exact Hsm|lia].
    + exists ((l' ++ [a]) ++ [v]). rewrite <- !app_assoc. split_and!; [done| |].
      * by rewrite (app_assoc l'), (Permutation_app_comm (l' ++ [a]) [v]).
      * rewrite app_assoc. by apply sorted_append.
Qed.

(** ** The sorts *)

Lemma merge_sort_unique (m l : list Z) : StronglySorted Z.le m → m ≡ₚ l → m = merge_sort Z.le l.
Proof.
  intros Hs Hp. eapply (StronglySorted_unique Z.le); [done|apply StronglySorted_merge_sort; apply _|].
  by rewrite merge_sort_Permutation.
Qed.

Lemma take_snoc {A} (l : list A) i v : ld l i = Some v → 0 <= i →
  take (Z.to_nat (i + 1)) l = take (Z.to_nat i) l ++ [v].
Proof.
  intros E ?. unfold ld in E. rewrite bool_decide_true in E by lia.
  replace (Z.to_nat (i + 1)) with (S (Z.to_nat i)) by lia. by apply take_S_r.
Qed.

(** The first [n] elements of the array end up in order. *)
Lemma sort_deltas_spec deltas n arr :
  0 <= n <= blen deltas → n <= blen arr →
  ∃ post, sort_deltas deltas n arr = Some (merge_sort Z.le (take (Z.to_nat n) deltas) ++ post).
Proof.
  intros Hn Ha. unfold sort_deltas.
  set (P := λ (i : Z) (s : list Z), blen s = blen arr ∧
    ∃ m post, s = m ++ post ∧ m ≡ₚ take (Z.to_nat i) deltas ∧ StronglySorted Z.le m).
  edestruct (for_range_inv P 0 n 1) as (s & E & Hs); [lia| | |rewrite E].
  { split; [reflexivity|]. exists [], arr. split_and!; [done..|constructor]. }
  2:{ rewrite range_end_unit in Hs by lia. destruct Hs as (_ & m & post & -> & Hm & Hsm).
      exists post. by rewrite <- (merge_sort_unique m). }
  intros i s Hi _ (Hl & m & post & -> & Hm & Hsm). cbn beta.
  destruct (ld_lt deltas i) as [v Ev]; [lia|]. rewrite Ev. cbn [mbind option_bind].
  assert (blen m = i) as Hbm.
  { unfold blen in *. rewrite Hm, length_take. lia. }
  destruct post as [|c post]; [rewrite blen_app in Hl; unfold blen in *; simpl in *; lia|].
  assert (st (m ++ c :: post) i v = Some (m ++ v :: post)) as -> by (rewrite <- Hbm; apply st_mid). cbn [mbind option_bind].
  replace (Z.to_nat i) with (length m) by (unfold blen in *; lia).
  destruct (sink_spec m v post Hsm) as (m' & E' & Hm' & Hs'). exists (m' ++ post). split; [done|].
  assert (length m' = S (length m)) as Hlm by (by rewrite Hm').
  split; [rewrite <- Hl, !blen_app; unfold blen; simpl; lia|].
  exists m', post. split_and!; [done| |done]. rewrite Hm', (take_snoc deltas i v Ev), Hm by lia.
  by rewrite Permutation_app_comm.
Qed.

Lemma sort_energies_spec es :
  sort_energies es (blen es) = Some (merge_sort Z.le es).
Proof.
  destruct es as [|e0 es0] eqn:Ees; [done|]. rewrite <- Ees. set (n := blen es).
  assert (1 <= n) as Hn by (unfold n; rewrite Ees; unfold blen; simpl; lia). unfold sort_energies.
  set (P := λ (i : Z) (s : list Z),
    ∃ m, s = m ++ drop (Z.to_nat i) es ∧ m ≡ₚ take (Z.to_nat i) es ∧ StronglySorted Z.le m).
  edestruct (for_range_inv P 1 n 1) as (s & E & Hs); [lia| | |rewrite E].
  { exists [e0]. rewrite Ees. split_and!; [done..|repeat constructor]. }
  2:{ rewrite range_end_unit in Hs by lia. destruct Hs as (m & -> & Hm & Hsm). unfold n, blen in *.
      rewrite Nat2Z.id in *. rewrite drop_all, app_nil_r, (merge_sort_unique m es); [done|done|].
      by rewrite Hm, firstn_all. }
  intros i s Hi _ (m & -> & Hm & Hsm). cbn beta.
  destruct (ld_lt es i) as [v Ev]; [fold n; lia|].
  assert (blen m = i) as Hbm by (unfold n, blen in *; rewrite Hm, length_take; lia).
  assert (drop (Z.to_nat i) es = v :: drop (Z.to_nat (i + 1)) es) as Hd.
  { unfold ld in Ev. rewrite bool_decide_true in Ev by lia.
    replace (Z.to_nat (i + 1)) with (S (Z.to_nat i)) by lia. by apply drop_S. }
  rewrite Hd.
  assert (∀ r, ld (m ++ v :: r) i = Some v) as -> by (intros r; rewrite <- Hbm; apply ld_mid). cbn [mbind option_bind].
  replace (Z.to_nat i) with (length m) by (unfold blen in *; lia).
  destruct (shift_in_spec m v v (drop (Z.to_nat (i + 1)) es) Hsm) as (m' & E' & Hm' & Hs').
  exists (m' ++ drop (Z.to_nat (i + 1)) es). split; [done|]. exists m'. split_and!; [done| |done].
  rewrite Hm', (take_snoc es i v Ev), Hm by lia. by rewrite Permutation_app_comm.
Qed.
