(* ===== verification/PipelineInv.v ===== *)
(** * The pipeline's state machine and its resources

    The invariant of a [CameraPipeline] object and the accounting of file
    descriptors and buffer mappings against the history of system calls, for
    every behaviour of the kernel. *)

From S2P Require Import Prelude Monad Float32 Kernel Demosaic DemosaicSpec ColorConv Pipeline Isp Capture AutoFocus.

#[local] Open Scope Z_scope.

(** ** Accounting *)

Definition one (P : Prop) `{!Decision P} : Z := if bool_decide P then 1 else 0.

Lemma one_iff (P Q : Prop) `{!Decision P, !Decision Q} : (P ↔ Q) → one P = one Q.
Proof. intros E. unfold one. by rewrite (bool_decide_ext P Q E). Qed.
Lemma one_false (P : Prop) `{!Decision P} : ~ P → one P = 0.
Proof. intros. unfold one. by rewrite bool_decide_false. Qed.

(** How often the block [(a, l)] has been mapped and not unmapped. *)
Definition map_delta (a l : Z) (e : event) : Z :=
  match e with
  | EMmap len _ _ (SOk a') => one (a' = a ∧ len = l)
  | EMunmap a' l' => - one (a' = a ∧ l' = l)
  | _ => 0
  end.
Definition map_balance (a l : Z) (h : history) : Z := foldr (λ e n, map_delta a l e + n) 0 h.

(** How often the descriptor [fd] has been opened and not closed. *)
Definition fd_delta (fd : Z) (e : event) : Z :=
  match e with
  | EOpen _ (SOk fd') => one (fd' = fd)
  | EClose fd' => - one (fd' = fd)
  | _ => 0
  end.
Definition fd_balance (fd : Z) (h : history) : Z := foldr (λ e n, fd_delta fd e + n) 0 h.

(** What the object holds. *)
Definition holds (a l : Z) (b : V4l2Buffer) : Z := one (vb_start b = Some a ∧ vb_length b = l).
Definition held_maps (a l : Z) (bs : list V4l2Buffer) : Z := foldr (λ b n, holds a l b + n) 0 bs.
Definition held_fds (fd : Z) (p : CameraPipeline) : Z := one (mFd p = fd) + one (mSensorFd p = fd).

Definition live (b : V4l2Buffer) : Prop := is_Some (vb_start b) ∧ vb_allocated b = true.
Definition dead (b : V4l2Buffer) : Prop := vb_start b = None ∧ vb_allocated b = false.

(** The buffers [lo <= j < hi] are mapped, and only they if the object is
    [tidy]: [configure] on an object that still holds buffers can leave
    mappings behind in the slots it does not fill. *)
Definition mapped_window (tidy : bool) (lo hi : Z) (bs : list V4l2Buffer) : Prop :=
  ∀ j b, ld bs j = Some b →
    if bool_decide (lo <= j < hi) then live b else tidy = true → dead b.

(** What the slots hold is mapped, and nothing else is if the object is
    [tidy]: no mapping is lost. *)
Definition maps_accounted (tidy : bool) (w : world CameraPipeline) : Prop :=
  ∀ a l, held_maps a l (mBuffers (obj w)) <= map_balance a l (hist w) ∧
    (tidy = true → map_balance a l (hist w) = held_maps a l (mBuffers (obj w))).
Definition fds_accounted (w : world CameraPipeline) : Prop :=
  ∀ fd, 0 <= fd → fd_balance fd (hist w) = held_fds fd (obj w).

(** The invariant: the flag and the state agree, an object is closed exactly
    when it has no device, the first [mBufferCount] buffers are mapped, what
    the slots hold is mapped as often as they hold it, and every descriptor is
    accounted for.  For a [tidy] object moreover no other slot holds a mapping
    and no mapping is lost. *)
Record pipe_inv_ (tidy : bool) (w : world CameraPipeline) : Prop := {
  inv_streaming : mStreaming (obj w) = bool_decide (mState (obj w) = PIPELINE_STREAMING);
  inv_closed : mState (obj w) = PIPELINE_CLOSED ↔ mFd (obj w) < 0;
  inv_sensor : mState (obj w) = PIPELINE_CLOSED → mSensorFd (obj w) < 0;
  inv_empty : mState (obj w) = PIPELINE_CLOSED → mBufferCount (obj w) = 0;
  inv_len : blen (mBuffers (obj w)) = 4;
  inv_count : mBufferCount (obj w) <= 4;
  inv_window : mapped_window tidy 0 (mBufferCount (obj w)) (mBuffers (obj w));
  inv_maps : maps_accounted tidy w;
  inv_fds : fds_accounted w;
}.

Abbreviation pipe_inv := (pipe_inv_ true).

(** A tidy object satisfies what is asked of any. *)
Lemma inv_weaken t w : pipe_inv w → pipe_inv_ t w.
Proof.
  intros []. split; try done.
  - intros j b Hj. specialize (inv_window0 j b Hj). case_bool_decide; auto.
  - intros a l. destruct (inv_maps0 a l) as [? ?]. auto.
Qed.

(** ** Operations that do not touch the resources *)

Definition res_view (p : CameraPipeline) :=
  (mFd p, mSensorFd p, mState p, mStreaming p, mBuffers p, mBufferCount p).

(** Neither a resource nor a message to the camera framework. *)
Definition neutral (e : event) : Prop :=
  match e with
  | EOpen _ _ | EClose _ | EMmap _ _ _ _ | EMunmap _ _
  | ENotifyShutter _ _ | ENotifyError _ _ | EResult _ _ _ _ => False
  | _ => True
  end.

Lemma balance_neutral evs h a l fd :
  Forall neutral evs →
  map_balance a l (evs ++ h) = map_balance a l h ∧ fd_balance fd (evs ++ h) = fd_balance fd h.
Proof.
  induction 1 as [|e evs He _ [IH1 IH2]]; [done|]. simpl. rewrite IH1, IH2.
  by destruct e; simpl in *.
Qed.

Lemma evolves_inv t w w' : evolves res_view neutral w w' → pipe_inv_ t w → pipe_inv_ t w'.
Proof.
  intros [[= E1 E2 E3 E4 E5 E6] (evs & Eh & Hn)] [].
  assert (∀ a l, map_balance a l (hist w') = map_balance a l (hist w)) as Hm.
  { intros. rewrite Eh. by apply balance_neutral. }
  assert (∀ fd, fd_balance fd (hist w') = fd_balance fd (hist w)) as Hf.
  { intros. rewrite Eh. by apply (balance_neutral _ _ 0 0). }
  split; rewrite ?E1, ?E2, ?E3, ?E4, ?E5, ?E6; try done.
  - intros a l. rewrite Hm, E5. done.
  - intros fd ?. rewrite Hf. unfold held_fds. rewrite E1, E2. by apply inv_fds0.
Qed.

Abbreviation Quiet := (Keeps res_view neutral).

Section Quiet.
Context `{!Kernel}.

Lemma quiet_call {A} (reply : history → A) ev : (∀ a, neutral (ev a)) → Quiet (call reply ev : ST (world CameraPipeline) A).
Proof. apply Keeps_call. Qed.

Ltac quiet_call := intros; apply quiet_call; intros; repeat case_match; exact I.

Lemma quiet_s_ctrl fd i v : Quiet (io_s_ctrl fd i v). Proof. quiet_call. Qed.
Lemma quiet_g_ctrl fd i : Quiet (io_g_ctrl fd i). Proof. quiet_call. Qed.
Lemma quiet_poll fd t : Quiet (sys_poll fd t). Proof. quiet_call. Qed.
Lemma quiet_usleep t : Quiet (sys_usleep t). Proof. quiet_call. Qed.
Lemma quiet_clock : Quiet sys_clock. Proof. quiet_call. Qed.
Lemma quiet_property s : Quiet (sys_property s). Proof. quiet_call. Qed.
Lemma quiet_qbuf fd i : Quiet (io_qbuf fd i). Proof. quiet_call. Qed.
Lemma quiet_dqbuf fd : Quiet (io_dqbuf fd). Proof. quiet_call. Qed.
Lemma quiet_streamon fd : Quiet (io_streamon fd). Proof. quiet_call. Qed.
Lemma quiet_streamoff fd : Quiet (io_streamoff fd). Proof. quiet_call. Qed.
Lemma quiet_write fd b : Quiet (sys_write fd b). Proof. quiet_call. Qed.
Lemma quiet_querycap fd : Quiet (io_querycap fd). Proof. quiet_call. Qed.
Lemma quiet_querybuf fd i : Quiet (io_querybuf fd i). Proof. quiet_call. Qed.
Lemma quiet_s_fmt fd x y z : Quiet (io_s_fmt fd x y z). Proof. quiet_call. Qed.
Lemma quiet_reqbufs fd n : Quiet (io_reqbufs fd n). Proof. quiet_call. Qed.
Lemma quiet_i2c_slave fd a : Quiet (io_i2c_slave fd a). Proof. quiet_call. Qed.
#[local] Hint Resolve quiet_s_ctrl quiet_g_ctrl quiet_poll quiet_usleep quiet_clock quiet_property
  quiet_qbuf quiet_dqbuf quiet_streamon quiet_streamoff quiet_write quiet_querycap quiet_querybuf
  quiet_s_fmt quiet_reqbufs quiet_i2c_slave : keeps.

Lemma quiet_getBuf i : Quiet (getBuf i). Proof. unfold getBuf. keeps. Qed.
Lemma quiet_setExposure v : Quiet (setExposure v). Proof. unfold setExposure. keeps. Qed.
Lemma quiet_setGain v : Quiet (setGain v). Proof. unfold setGain. keeps. Qed.
Lemma quiet_getExposure : Quiet getExposure. Proof. unfold getExposure. keeps. Qed.
Lemma quiet_getGain : Quiet getGain. Proof. unfold getGain. keeps. Qed.
Lemma quiet_timing : Quiet configure_timing.
Proof. unfold configure_timing. keeps. Qed.
#[local] Hint Resolve quiet_getBuf quiet_setExposure quiet_setGain quiet_timing : keeps.
Lemma quiet_isp c : Quiet (configure_isp c). Proof. unfold configure_isp. keeps. Qed.
Lemma quiet_gamma c : Quiet (configure_gamma c). Proof. unfold configure_gamma. keeps. Qed.
Lemma quiet_i2c_init fd : Quiet (ov5693_init_via_i2c fd).
Proof. unfold ov5693_init_via_i2c. keeps. Qed.
Lemma quiet_ae_apply e g : Quiet (ae_apply e g). Proof. unfold ae_apply. keeps. Qed.
#[local] Hint Resolve quiet_ae_apply : keeps.
Lemma quiet_ae rgb : Quiet (doAutoExposure rgb). Proof. unfold doAutoExposure. keeps. Qed.
Lemma quiet_awb rgb : Quiet (doAutoWhiteBalance rgb). Proof. unfold doAutoWhiteBalance. keeps. Qed.
Lemma quiet_set_rgb rgb : Quiet (set_rgb rgb). Proof. unfold set_rgb. keeps. Qed.
#[local] Hint Resolve quiet_ae quiet_awb quiet_set_rgb : keeps.
Lemma quiet_processBayer b o f : Quiet (processBayerToYuv b o f).
Proof. unfold processBayerToYuv. keeps. Qed.
Lemma quiet_poll_loop fd n : Quiet (poll_loop fd n).
Proof. induction n as [|n IH]; simpl; [keeps|]. keeps. Qed.
Lemma quiet_freeze : Quiet freeze_timing. Proof. unfold freeze_timing. keeps. Qed.
#[local] Hint Resolve quiet_processBayer quiet_poll_loop quiet_freeze : keeps.
Lemma quiet_update_timing b : Quiet (update_timing b). Proof. unfold update_timing. keeps. Qed.
#[local] Hint Resolve quiet_update_timing : keeps.
Lemma quiet_captureFrame o f : Quiet (captureFrame o f).
Proof. unfold captureFrame, read_start. keeps. Qed.
Lemma quiet_setFocus v : Quiet (setFocus v). Proof. unfold setFocus. keeps. Qed.
Lemma quiet_captureForAf : Quiet captureForAf. Proof. unfold captureForAf. keeps. Qed.
#[local] Hint Resolve quiet_setFocus quiet_captureForAf : keeps.
Lemma quiet_af_measure x l : Quiet (af_measure x l). Proof. unfold af_measure. keeps. Qed.
#[local] Hint Resolve quiet_af_measure : keeps.
Lemma quiet_af_sweep b ps l : Quiet (af_sweep b ps l).
Proof. revert l. induction ps; intros l; simpl; keeps. Qed.
Lemma quiet_af_lock l : Quiet (af_lock l). Proof. unfold af_lock. keeps. Qed.
#[local] Hint Resolve quiet_af_sweep quiet_af_lock : keeps.
Lemma quiet_af_finish l : Quiet (af_finish l). Proof. unfold af_finish. keeps. Qed.
#[local] Hint Resolve quiet_af_finish : keeps.
Lemma quiet_startAfScan : Quiet startAfScan. Proof. unfold startAfScan. keeps. Qed.
Lemma quiet_cancelAf : Quiet cancelAf. Proof. unfold cancelAf. keeps. Qed.
Lemma quiet_afAgeMs : Quiet afAgeMs. Proof. unfold afAgeMs. keeps. Qed.
End Quiet.

#[export] Hint Resolve quiet_captureFrame quiet_startAfScan quiet_cancelAf quiet_afAgeMs quiet_setFocus
  quiet_setExposure quiet_setGain quiet_getExposure quiet_getGain quiet_timing quiet_isp quiet_gamma
  quiet_i2c_init quiet_usleep quiet_qbuf quiet_streamon quiet_streamoff : keeps.

(** ** The buffers *)

Lemma held_maps_insert a l bs i b b' :
  bs !! i = Some b →
  held_maps a l (<[i := b']> bs) = held_maps a l bs - holds a l b + holds a l b'.
Proof.
  revert i. induction bs as [|c bs IH]; intros i E; [done|].
  destruct i as [|i]; simpl in *; [injection E as ->; lia|]. rewrite IH by done. lia.
Qed.

Lemma st_insert {A} (bs : list A) i v bs' :
  st bs i v = Some bs' → 0 <= i < blen bs ∧ bs' = <[Z.to_nat i := v]> bs.
Proof.
  intros E. pose proof (stn_in_bounds _ _ _ _ E) as [? Hb]. change (blen [v]) with 1 in Hb.
  split; [lia|]. unfold st in E. rewrite stn_Some in E by (change (blen [v]) with 1; lia).
  by injection E as <-.
Qed.

Lemma ld_lookup {A} (bs : list A) i : 0 <= i → ld bs i = bs !! Z.to_nat i.
Proof. intros. unfold ld. by rewrite bool_decide_true. Qed.

Lemma held_maps_st a l bs bs' i b b' :
  st bs i b' = Some bs' → ld bs i = Some b →
  held_maps a l bs' = held_maps a l bs - holds a l b + holds a l b'.
Proof.
  intros [Hi ->]%st_insert E. rewrite ld_lookup in E by lia. by apply held_maps_insert.
Qed.

Lemma window_st t lo hi lo' hi' bs bs' i b' :
  st bs i b' = Some bs' → mapped_window t lo hi bs →
  (if bool_decide (lo' <= i < hi') then live b' else t = true → dead b') →
  (∀ j, j ≠ i → lo <= j < hi ↔ lo' <= j < hi') →
  mapped_window t lo' hi' bs'.
Proof.
  intros E Hw Hb Hj j c Hc. apply stn_spec in E as [_ E]. rewrite E in Hc.
  change (blen [b']) with 1 in Hc. case_bool_decide as Hij.
  - replace j with i in * by lia. rewrite Z.sub_diag, ld_zero in Hc. injection Hc as <-. done.
  - pose proof (Hw j c Hc) as H. pose proof (Hj j ltac:(lia)). repeat case_bool_decide; tauto.
Qed.

Lemma st_len {A} (bs bs' : list A) i v : st bs i v = Some bs' → blen bs' = blen bs.
Proof. intros E. by apply stn_spec in E as [? _]. Qed.

Lemma holds_nonneg a l b : 0 <= holds a l b.
Proof. unfold holds, one. case_bool_decide; lia. Qed.

(** The second store to a slot wins. *)
Lemma st_st {A} (bs bs1 bs2 : list A) i b1 b2 :
  st bs i b1 = Some bs1 → st bs1 i b2 = Some bs2 → st bs i b2 = Some bs2.
Proof.
  intros [Hi ->]%st_insert [_ ->]%st_insert. unfold st. rewrite stn_Some by (change (blen [b2]) with 1; lia).
  simpl. by rewrite list_insert_insert_eq.
Qed.

Lemma holds_dead a l b : vb_start b = None → holds a l b = 0.
Proof. intros E. apply one_false. rewrite E. by intros [? _]. Qed.

Lemma holds_live a l b a' : vb_start b = Some a' → holds a l b = one (a' = a ∧ vb_length b = l).
Proof. intros E. apply one_iff. rewrite E. split; intros [? ?]; split; congruence. Qed.

(** The buffer part of the invariant, with the window [lo, hi) mapped. *)
Definition bufs_inv (t : bool) (lo hi : Z) (w : world CameraPipeline) : Prop :=
  blen (mBuffers (obj w)) = 4 ∧ mapped_window t lo hi (mBuffers (obj w)) ∧ maps_accounted t w.

Lemma maps_release t w bs' i b a l' :
  maps_accounted t w → ld (mBuffers (obj w)) i = Some b → vb_start b = Some a →
  st (mBuffers (obj w)) i {| vb_start := None; vb_length := l'; vb_allocated := false |} = Some bs' →
  ∀ a' l, held_maps a' l bs' <= map_balance a' l (EMunmap a (vb_length b) :: hist w) ∧
    (t = true → map_balance a' l (EMunmap a (vb_length b) :: hist w) = held_maps a' l bs').
Proof.
  intros Hm E Ea Es a' l. simpl. rewrite (held_maps_st _ _ _ _ _ _ _ Es E).
  rewrite (holds_dead _ _ {| vb_start := None; vb_length := l'; vb_allocated := false |}) by done.
  rewrite (holds_live _ _ _ _ Ea). destruct (Hm a' l) as [? He]. split; [lia|].
  intros Ht. rewrite (He Ht). lia.
Qed.

(** The fields outside the buffers, and the descriptors. *)
Definition other_view (p : CameraPipeline) := (mFd p, mSensorFd p, mState p, mStreaming p).

Definition same_rest (w0 w : world CameraPipeline) : Prop :=
  other_view (obj w) = other_view (obj w0) ∧
  ∀ fd, fd_balance fd (hist w) = fd_balance fd (hist w0).

Lemma same_rest_refl w : same_rest w w.
Proof. by split. Qed.

Lemma same_rest_step w0 w p' evs :
  same_rest w0 w → other_view p' = other_view (obj w) →
  (∀ fd, fd_balance fd (evs ++ hist w) = fd_balance fd (hist w)) →
  same_rest w0 (World p' (evs ++ hist w)).
Proof. intros [? Hf] ? Hd. split; [simpl; congruence|]. intros fd. simpl. by rewrite Hd, Hf. Qed.

Section Lifecycle.
Context `{!Kernel}.

(** Running an operation whose effect on the resources is nil. *)
Lemma quiet_rule {A} (m : ST (world CameraPipeline) A) Q w :
  Quiet m → (∀ a w', evolves res_view neutral w w' → Q a w') → wlp m Q w.
Proof. intros Hm HQ. eapply wlp_mono; [apply Hm|]. auto. Qed.

Lemma evolves_bufs t lo hi w w' :
  evolves res_view neutral w w' → bufs_inv t lo hi w → bufs_inv t lo hi w'.
Proof.
  intros [[= E1 E2 E3 E4 E5 E6] (evs & Eh & Hn)] (? & ? & Hm). unfold bufs_inv. rewrite E5.
  split_and!; [done..|]. intros a l. rewrite Eh, E5. by rewrite (proj1 (balance_neutral _ _ a l 0 Hn)).
Qed.

Lemma evolves_rest w0 w w' : evolves res_view neutral w w' → same_rest w0 w → same_rest w0 w'.
Proof.
  intros [[= E1 E2 E3 E4 E5 E6] (evs & Eh & Hn)] [? Hf]. split.
  - unfold other_view in *. congruence.
  - intros fd. rewrite Eh, (proj2 (balance_neutral _ _ 0 0 fd Hn)). done.
Qed.

(** Unmapping buffer [lo] of the window. *)
Lemma release_rule t lo hi w0 w b (Q : () → world CameraPipeline → Prop) :
  bufs_inv t lo hi w → same_rest w0 w → ld (mBuffers (obj w)) lo = Some b → lo < hi →
  (∀ w', bufs_inv t (lo + 1) hi w' → same_rest w0 w' → mBufferCount (obj w') = mBufferCount (obj w) → Q () w') →
  ∃ a, vb_start b = Some a ∧ vb_allocated b = true ∧
  wlp (sys_munmap a (vb_length b);;
       setBuf lo {| vb_start := None; vb_length := vb_length b; vb_allocated := false |}) Q w.
Proof.
  intros (Hl & Hw & Hm) Hr E Hlt HQ. pose proof (Hw _ _ E) as Hlive.
  rewrite bool_decide_true in Hlive by lia. destruct Hlive as [[a Ea] Hal].
  exists a. split_and!; [done..|]. apply wlp_bind. wlp_call_step. apply wlp_call.
  unfold setBuf. apply wlp_bind. apply wlp_gets. cbn [obj]. apply wlp_bind.
  apply wlp_lift. intros bs' Es. apply wlp_modify. apply HQ; [|by apply (same_rest_step w0 w _ [_])|done].
  split_and!.
  - simpl. by rewrite (st_len _ _ _ _ Es).
  - simpl. eapply window_st; [done..| |lia]. rewrite bool_decide_false by lia. done.
  - intros a' l'. exact (maps_release t w bs' lo b a _ Hm E Ea Es a' l').
Qed.

Lemma inv_bufs t w : pipe_inv_ t w → bufs_inv t 0 (mBufferCount (obj w)) w.
Proof. by intros []. Qed.

(** An empty window is the same as no mapped buffer. *)
Lemma bufs_inv_empty t lo hi n k w : hi <= lo → k <= n → bufs_inv t lo hi w → bufs_inv t n k w.
Proof.
  intros ? ? (? & Hw & ?). split_and!; [done| |done]. intros j b Hj. specialize (Hw j b Hj).
  rewrite bool_decide_false in * by lia. done.
Qed.

(** The loop of [stopStreaming] (and of [close]) leaves no buffer mapped. *)
Lemma release_loop t w0 w n body :
  bufs_inv t 0 n w → same_rest w0 w → mBufferCount (obj w) = n →
  (∀ i w, 0 <= i < n → bufs_inv t i n w → same_rest w0 w → mBufferCount (obj w) = n →
     wlp (body i) (λ _ w', bufs_inv t (i + 1) n w' ∧ same_rest w0 w' ∧ mBufferCount (obj w') = n) w) →
  wlp (forM (zrange 0 n 1) body)
    (λ _ w', bufs_inv t 0 0 w' ∧ same_rest w0 w') w.
Proof.
  intros ? ? ? Hb. eapply wlp_mono.
  { apply (wlp_forM_range (λ i w', bufs_inv t i n w' ∧ same_rest w0 w' ∧ mBufferCount (obj w') = n));
      [done|]. intros i s Hi (? & ? & ?). by apply Hb. }
  intros [] w' (? & ? & ?). split; [|done]. eapply bufs_inv_empty; [| |done]; lia.
Qed.

Lemma stop_inv t w :
  pipe_inv_ t w →
  wlp stopStreaming (λ r w', pipe_inv_ t w' ∧ r = 0 ∧ mStreaming (obj w') = false ∧
    (mStreaming (obj w) = true → mBufferCount (obj w') = 0) ∧
    (mState (obj w') = PIPELINE_CLOSED ↔ mState (obj w) = PIPELINE_CLOSED)) w.
Proof.
  intros Hinv. unfold stopStreaming. apply wlp_bind, wlp_gets. apply wlp_if; intros Hs; zbool.
  { apply wlp_ret. split_and!; try done. congruence. }
  apply wlp_bind, quiet_rule; [auto with keeps|]. intros [] w1 H1.
  assert (mBufferCount (obj w1) = mBufferCount (obj w)) as Hn.
  { destruct H1 as [[= ] _]. done. }
  apply wlp_bind. eapply wlp_mono.
  { apply (release_loop t w w1 (mBufferCount (obj w))); [|..|done|].
    - by eapply evolves_bufs, inv_bufs.
    - by eapply evolves_rest, same_rest_refl.
    - intros i s Hi Hb Hr Hn'. unfold getBuf. apply wlp_bind, wlp_bind, wlp_gets, wlp_lift.
      intros b Eb. edestruct release_rule as (a & Ea & _ & Hwlp); [exact Hb|exact Hr|exact Eb|lia| |].
      2:{ rewrite Ea. exact Hwlp. }
      intros w' ? ? E. split_and!; [done..|congruence]. }
  intros [] w2 (Hb & [Hr Hf]). injection Hr as R1 R2 R3 R4.
  apply wlp_bind, wlp_modify. apply wlp_bind, wlp_modify. apply wlp_ret. cbn [obj hist].
  destruct Hb as (Hl & Hw & Hm).
  assert (mState (obj w) ≠ PIPELINE_CLOSED) as Hnc.
  { pose proof (inv_streaming _ _ Hinv) as E. rewrite Hs in E. symmetry in E.
    apply bool_decide_eq_true in E. congruence. }
  split_and!; try done.
  split; simpl; try done.
  - split; [done|]. rewrite R1. intros ?%(inv_closed _ _ Hinv). done.
  - intros fd ?. simpl. rewrite Hf, (inv_fds _ _ Hinv) by done. unfold held_fds. simpl. by rewrite R1, R2.
Qed.

(** Closing a descriptor the object holds, field by field. *)
Lemma close_fds {A} (k : ST (world CameraPipeline) A) Q w2 :
  (∀ fd, 0 <= fd → fd_balance fd (hist w2) = held_fds fd (obj w2)) →
  (∀ w', (∀ fd, 0 <= fd → fd_balance fd (hist w') = held_fds fd (obj w')) ∧
       mFd (obj w') < 0 ∧ mSensorFd (obj w') < 0 ∧
       (∀ a l, map_balance a l (hist w') = map_balance a l (hist w2)) ∧
       mBuffers (obj w') = mBuffers (obj w2) ∧ mBufferCount (obj w') = mBufferCount (obj w2) ∧
       mStreaming (obj w') = mStreaming (obj w2) ∧ mRgbBuffer (obj w') = mRgbBuffer (obj w2) →
     wlp k Q w') →
  wlp (when (mFd (obj w2) >=? 0) (sys_close (mFd (obj w2));; upd (λ p, p <| mFd := -1 |>));;
       when (mSensorFd (obj w2) >=? 0)
         (sys_close (mSensorFd (obj w2));; upd (λ p, p <| mSensorFd := -1 |>));; k) Q w2.
Proof.
  intros Hf Hk. destruct w2 as [p h]; simpl in *. apply wlp_bind.
  apply wlp_when; intros H1; zbool.
  all: try (apply wlp_bind; wlp_call_step; apply wlp_call, wlp_modify); simpl.
  all: apply wlp_bind, wlp_when; intros H2; zbool.
  all: try (apply wlp_bind; wlp_call_step; apply wlp_call, wlp_modify); simpl.
  all: apply Hk; simpl; split_and!; try done; try lia.
  all: intros fd ?; specialize (Hf fd ltac:(done)); simpl; rewrite Hf; unfold held_fds; simpl.
  all: rewrite ?(one_false (-1 = fd)) by lia; try lia.
  all: try rewrite (one_false (mSensorFd p = fd)) by lia; try rewrite (one_false (mFd p = fd)) by lia; lia.
Qed.

Lemma close_inv t w :
  pipe_inv_ t w →
  wlp close (λ r w', pipe_inv_ t w' ∧ r = 0 ∧ mState (obj w') = PIPELINE_CLOSED ∧
                     mRgbBuffer (obj w') = None) w.
Proof.
  intros Hinv. unfold close. apply wlp_bind. eapply wlp_mono; [by apply stop_inv|].
  intros r w1 (Hinv1 & -> & Hs & _). apply wlp_bind, wlp_gets.
  apply wlp_bind. eapply wlp_mono.
  { apply (release_loop t w1 w1 (mBufferCount (obj w1))); [by apply inv_bufs|apply same_rest_refl|done|].
    intros i s Hi Hb Hr Hn'. unfold getBuf. apply wlp_bind, wlp_bind, wlp_gets, wlp_lift.
    intros b Eb. edestruct release_rule as (a & Ea & Hal & Hwlp); [exact Hb|exact Hr|exact Eb|lia| |].
    2:{ rewrite Ea, Hal. exact Hwlp. }
    intros w' ? ? E. split_and!; [done..|congruence]. }
  intros [] w2 (Hb & [Hr Hf]). injection Hr as R1 R2 R3 R4.
  apply wlp_bind, wlp_modify. apply wlp_bind, wlp_modify. apply wlp_bind, wlp_gets. cbn [obj hist].
  set (q := match mRgbBuffer _ with Some _ => _ | None => _ end).
  assert (mFd q = mFd (obj w1) ∧ mSensorFd q = mSensorFd (obj w1) ∧ mBuffers q = mBuffers (obj w2) ∧
    mBufferCount q = 0 ∧ mStreaming q = false ∧ mRgbBuffer q = None) as (Q1 & Q2 & Q3 & Q4 & Q5 & Q6).
  { unfold q. simpl. case_match; simpl; split_and!; congruence. }
  apply (close_fds _ _ (World q (hist w2))).
  { intros fd ?. simpl. rewrite Hf, (inv_fds _ _ Hinv1) by done. unfold held_fds. by rewrite Q1, Q2. }
  cbn [obj hist]. intros w3 (Hfd & Hd & Hsd & Hm3 & E1 & E2 & E3 & E4).
  apply wlp_bind, wlp_ret. apply wlp_bind, wlp_modify, wlp_ret.
  destruct Hb as (Hl & Hw & Hm).
  split_and!; [|done|done|simpl; congruence].
  split; simpl; rewrite ?E1, ?E2, ?E3, ?Q3, ?Q4, ?Q5; try done.
  intros a l. simpl. rewrite Hm3, E1, Q3. apply Hm.
Qed.

Lemma fd_delta_open fd path r : 0 <= fd → fd_delta fd (EOpen path r) = one (fd_of r = fd).
Proof. intros. destruct r; simpl; [done|]. by rewrite one_false by lia. Qed.

(** Nothing but the descriptors, the state and fields outside the invariant
    changed: the invariant is a matter of the descriptors alone. *)
Lemma inv_from_fds t w p' h' :
  pipe_inv_ t w → mStreaming (obj w) = false →
  (mBuffers p', mBufferCount p', mStreaming p') =
    (mBuffers (obj w), mBufferCount (obj w), mStreaming (obj w)) →
  mState p' ≠ PIPELINE_STREAMING → (mState p' = PIPELINE_CLOSED ↔ mFd p' < 0) →
  (mState p' = PIPELINE_CLOSED → mSensorFd p' < 0 ∧ mBufferCount p' = 0) →
  (∀ a l, map_balance a l h' = map_balance a l (hist w)) →
  (∀ fd, 0 <= fd → fd_balance fd h' = held_fds fd p') →
  pipe_inv_ t (World p' h').
Proof.
  intros Hinv Hs [= E1 E2 E3] Hst Hcl Hse Hm Hf.
  split; simpl; rewrite ?E1, ?E2, ?E3; try apply Hinv; try done.
  - rewrite Hs. by rewrite bool_decide_false.
  - intros ?. by apply Hse.
  - intros ?. rewrite <- E2. by apply Hse.
  - intros a l. simpl. rewrite Hm, E1. apply Hinv.
Qed.

Lemma fd_balance_cons fd e h : fd_balance fd (e :: h) = fd_delta fd e + fd_balance fd h.
Proof. done. Qed.

Arguments fd_balance : simpl never.

(** The descriptors after the given events, from those before. *)
Ltac fd_count :=
  let Hb := fresh "Hb" in
  intros ? ? Hb ? ?; repeat match goal with e := _ : event |- _ => subst e end;
  rewrite ?fd_balance_cons, ?fd_delta_open, Hb by done; unfold held_fds; simpl; lia.

Lemma open_inv t id w : pipe_inv_ t w → wlp (open id) (λ _ w', pipe_inv_ t w') w.
Proof.
  intros Hinv. unfold open. apply wlp_bind, wlp_gets.
  apply wlp_if; intros Hst; [by apply wlp_ret|]. apply negb_false_iff, bool_decide_eq_true in Hst.
  pose proof (inv_streaming _ _ Hinv) as Hs. rewrite bool_decide_false in Hs by congruence.
  pose proof (proj1 (inv_closed _ _ Hinv) Hst) as Hfd0. pose proof (inv_sensor _ _ Hinv Hst) as Hsd0.
  pose proof (inv_empty _ _ Hinv Hst) as Hn0.
  assert (∀ fd, 0 <= fd → fd_balance fd (hist w) = 0 ∧ one (mSensorFd (obj w) = fd) = 0) as Hbal.
  { intros fd ?. rewrite (inv_fds _ _ Hinv) by done. unfold held_fds. by rewrite !one_false by lia. }
  assert (∀ evs p',
    (mBuffers p', mBufferCount p', mStreaming p') =
      (mBuffers (obj w), mBufferCount (obj w), mStreaming (obj w)) →
    mState p' ≠ PIPELINE_STREAMING → (mState p' = PIPELINE_CLOSED ↔ mFd p' < 0) →
    (mState p' = PIPELINE_CLOSED → mSensorFd p' < 0) →
    (∀ a l, map_balance a l (evs ++ hist w) = map_balance a l (hist w)) →
    (∀ fd, 0 <= fd → fd_balance fd (hist w) = 0 → one (mSensorFd (obj w) = fd) = 0 →
       one (-1 = fd) = 0 → fd_balance fd (evs ++ hist w) = held_fds fd p') →
    pipe_inv_ t (World p' (evs ++ hist w))) as Hfin.
  { intros evs p' E ? ? ? ? Hf. apply (inv_from_fds t w); try done.
    - intros ?. split; [auto|]. injection E as _ -> _. done.
    - intros fd ?. destruct (Hbal fd) as [? ?]; [done|]. apply Hf; try done. by apply one_false; lia. }
  clear Hbal. apply wlp_bind, wlp_modify. apply wlp_bind, wlp_call. apply wlp_bind, wlp_modify.
  cbn [obj hist]. set (r := k_open _ _). set (E1 := EOpen _ r). apply wlp_if; intros Hr; zbool.
  { apply wlp_ret, (Hfin [E1]); try done; simpl; [congruence..|].
    fd_count. }
  apply wlp_bind, wlp_call. cbn [obj hist]. set (cap := k_querycap _ _). set (E2 := EQueryCap _ cap).
  match goal with |- wlp (match cap with SOk _ => _ | SErr _ => ?m end) _ ?s =>
    assert (wlp m (λ _, pipe_inv_ t) s) as Hback end.
  { apply wlp_bind, wlp_call, wlp_bind, wlp_modify, wlp_ret. cbn [obj hist].
    apply (Hfin [EClose (fd_of r); E2; E1]); try done; simpl; [congruence..|].
    fd_count. }
  destruct cap as [caps|]; [|exact Hback]. apply wlp_if; intros _; [exact Hback|]. clear Hback.
  apply wlp_bind, wlp_if; intros Hid.
  { apply wlp_bind, wlp_bind, wlp_modify, wlp_ret, wlp_ret, wlp_bind, wlp_modify, wlp_ret.
    cbn [obj hist]. apply (Hfin [E2; E1]); try done; simpl; [split; [done|lia]|].
    fd_count. }
  apply wlp_bind, wlp_call, wlp_bind, wlp_modify. cbn [obj hist].
  set (s := k_open _ _). set (E3 := EOpen _ s). apply wlp_if; intros Hsf; zbool.
  { apply wlp_ret, wlp_bind, wlp_modify, wlp_ret. cbn [obj hist].
    apply (Hfin [E3; E2; E1]); try done; simpl; [split; [done|lia]|].
    fd_count. }
  apply wlp_bind, wlp_call. cbn [obj hist]. set (a := k_i2c_slave _ _ _). set (E4 := EI2cSlave _ _ a).
  destruct a as [[]|].
  - apply wlp_ret, wlp_bind, wlp_modify, wlp_ret. cbn [obj hist].
    apply (Hfin [E4; E3; E2; E1]); try done; simpl; [split; [done|lia]|].
    fd_count.
  - apply wlp_bind, wlp_call, wlp_modify, wlp_bind, wlp_modify, wlp_ret. cbn [obj hist].
    apply (Hfin [EClose (fd_of s); E4; E3; E2; E1]); try done; simpl; [split; [done|lia]|].
    fd_count.
Qed.
(** ** configure *)

Lemma setBuf_rule i b' (Q : () → world CameraPipeline → Prop) w :
  (∀ bs', st (mBuffers (obj w)) i b' = Some bs' →
     Q () (World ((obj w) <| mBuffers := bs' |>) (hist w))) →
  wlp (setBuf i b') Q w.
Proof.
  intros H1. apply wlp_bind, wlp_gets, wlp_bind, wlp_lift. intros bs' Es. by apply wlp_modify, H1.
Qed.

(** Overwriting a buffer outside the window with an unmapped one. *)
Lemma bufs_inv_dead t lo hi w i b b' bs' :
  bufs_inv t lo hi w → ld (mBuffers (obj w)) i = Some b → ~ (lo <= i < hi) →
  vb_start b' = None → (t = true → dead b') →
  st (mBuffers (obj w)) i b' = Some bs' →
  bufs_inv t lo hi (World ((obj w) <| mBuffers := bs' |>) (hist w)).
Proof.
  intros (Hl & Hw & Hm) Eb Hi Hs Hd Es. split_and!; simpl.
  - by rewrite (st_len _ _ _ _ Es).
  - eapply window_st; [done..| |done]. by rewrite bool_decide_false.
  - intros a l. simpl. rewrite (held_maps_st _ _ _ _ _ _ _ Es Eb), (holds_dead _ _ b') by done.
    destruct (Hm a l) as [? He]. pose proof (holds_nonneg a l b). split; [lia|].
    intros Ht. pose proof (Hw _ _ Eb) as Hb. rewrite bool_decide_false in Hb by done.
    rewrite (He Ht), (holds_dead _ _ b) by apply (Hb Ht). lia.
Qed.

Lemma unmap_first_rule t w0 w n :
  bufs_inv t 0 n w → same_rest w0 w →
  wlp (unmap_first n) (λ _ w', bufs_inv t 0 0 w' ∧ same_rest w0 w') w.
Proof.
  intros Hb Hr. unfold unmap_first.
  eapply wlp_mono; [apply (wlp_forM_range (λ i w', bufs_inv t i n w' ∧ same_rest w0 w')); [done|]|].
  2:{ intros [] w' [? ?]. split; [|done]. eapply bufs_inv_empty; [| |done]; lia. }
  intros i s Hi [Hbi Hri]. unfold getBuf. apply wlp_bind, wlp_bind, wlp_gets, wlp_lift.
  intros b Eb. edestruct release_rule as (a & Ea & _ & Hwlp); [exact Hbi|exact Hri|exact Eb|lia| |].
  2:{ rewrite Ea. exact Hwlp. }
  intros w' ? ? ?. done.
Qed.

(** Mapping one more buffer, or unwinding. *)
Lemma map_buffer_rule t w0 w i n :
  bufs_inv t 0 i w → 0 <= i → same_rest w0 w → mBufferCount (obj w) = n →
  wlp (map_buffer i) (λ r w', same_rest w0 w' ∧
    match r with
    | Some _ => bufs_inv t 0 0 w' ∧ mBufferCount (obj w') = 0
    | None => bufs_inv t 0 (i + 1) w' ∧ mBufferCount (obj w') = n ∧ i < 4
    end) w.
Proof.
  intros Hb Hi Hr Hn. unfold map_buffer. apply wlp_bind, wlp_gets.
  apply wlp_bind, quiet_rule; [apply quiet_querybuf|]. intros q w1 H1.
  assert (∀ w2 (e : Z), bufs_inv t 0 i w2 → same_rest w0 w2 →
    wlp (unmap_first i;; upd (λ p, p <| mBufferCount := 0 |>);; mret (Some e))
      (λ (r : option Z) w', same_rest w0 w' ∧
        match r with
        | Some _ => bufs_inv t 0 0 w' ∧ mBufferCount (obj w') = 0
        | None => bufs_inv t 0 (i + 1) w' ∧ mBufferCount (obj w') = n ∧ i < 4
        end) w2) as Hunwind.
  { intros w2 e ? ?. apply wlp_bind. eapply wlp_mono; [by apply (unmap_first_rule t w0)|].
    intros [] w3 [Hb3 Hr3]. apply wlp_bind, wlp_modify, wlp_ret. done. }
  pose proof (evolves_bufs _ _ _ _ _ H1 Hb) as Hb1. pose proof (evolves_rest _ _ _ H1 Hr) as Hr1.
  assert (mBufferCount (obj w1) = n) as Hn1 by (destruct H1 as [[= ] _]; congruence).
  destruct q as [[len off]|e]; [|by apply Hunwind].
  apply wlp_bind. unfold getBuf at 1. apply wlp_bind, wlp_gets, wlp_lift. intros b Eb.
  pose proof Hb1 as (Hl1 & Hw1 & _). pose proof (ld_Some_bounds _ _ _ Eb).
  pose proof (Hw1 _ _ Eb) as Hd. rewrite bool_decide_false in Hd by lia.
  apply wlp_bind, setBuf_rule. intros bs1 Es1.
  apply wlp_bind, wlp_call. cbn [obj hist]. set (m := k_mmap _ _ _ _). set (E := EMmap _ _ _ m).
  destruct m as [a|e].
  - apply wlp_bind, setBuf_rule. intros bs2 Es2. apply wlp_ret. cbn [obj hist] in *.
    pose proof (st_st _ _ _ _ _ _ Es1 Es2) as Es.
    split; [by apply (same_rest_step w0 w1 _ [E])|]. split_and!; [simpl|done|lia].
    destruct Hb1 as (_ & _ & Hm1). split_and!; simpl.
    + by rewrite (st_len _ _ _ _ Es).
    + eapply window_st; [done..| |lia]. by rewrite bool_decide_true by lia.
    + intros a' l. simpl. rewrite (held_maps_st _ _ _ _ _ _ _ Es Eb).
      erewrite (holds_live _ _ {| vb_start := Some a |} a) by done. simpl.
      destruct (Hm1 a' l) as [? He]. pose proof (holds_nonneg a' l b). split; [lia|].
      intros Ht. rewrite (He Ht), (holds_dead _ _ b) by apply (Hd Ht). lia.
  - apply wlp_bind, setBuf_rule. intros bs2 Es2. cbn [obj hist] in *.
    apply Hunwind; [|by apply (same_rest_step w0 w1 _ [E])].
    refine (bufs_inv_dead t 0 i (World (obj w1) (E :: hist w1)) i b _ bs2
      _ Eb ltac:(lia) _ _ (st_st _ _ _ _ _ _ Es1 Es2)); [exact Hb1|done|].
    intros Ht. by split; [|apply (Hd Ht)].
Qed.

Lemma inv_rest t w0 w n :
  pipe_inv_ t w0 → mState (obj w0) ≠ PIPELINE_CLOSED → same_rest w0 w → bufs_inv t 0 n w →
  mBufferCount (obj w) = n → n <= 4 → pipe_inv_ t w.
Proof.
  intros Hinv Hc [[= R1 R2 R3 R4] Hf] (Hl & Hw & Hm) Hn ?.
  split; rewrite ?R1, ?R2, ?R3, ?R4, ?Hn; try apply Hinv; try done.
  intros fd ?. rewrite Hf, (inv_fds _ _ Hinv) by done. unfold held_fds. by rewrite R1, R2.
Qed.

(** [configure]: called with no buffer mapped it leaves a tidy object tidy. *)
Lemma configure_inv t c w :
  pipe_inv_ t w → (t = true → mBufferCount (obj w) = 0) →
  wlp (configure c) (λ _ w', pipe_inv_ t w') w.
Proof.
  intros Hinv H0. unfold configure. apply wlp_bind, wlp_gets.
  apply wlp_if; intros Hs; [by apply wlp_ret|].
  apply wlp_bind, wlp_modify. apply wlp_bind, quiet_rule; [auto with keeps|]. intros [] w1 Hev.
  assert (evolves res_view neutral w w1) as H1.
  { etransitivity; [|exact Hev]. split; [done|]. by exists []. }
  clear Hev. pose proof (evolves_inv _ _ _ H1 Hinv) as Hinv1.
  assert (t = true → mBufferCount (obj w1) = 0) as H01
    by (intros Ht; destruct H1 as [[= ] _]; rewrite <- (H0 Ht); congruence).
  apply wlp_bind, wlp_gets. apply wlp_if; intros Hfd; [by apply wlp_ret|]. zbool.
  assert (mState (obj w1) ≠ PIPELINE_CLOSED) as Hnc.
  { intros ?%(inv_closed _ _ Hinv1). lia. }
  apply wlp_bind, quiet_rule; [apply quiet_s_fmt|]. intros [[]|e] w2 H2.
  2:{ apply wlp_ret. by eapply evolves_inv. }
  apply wlp_bind, quiet_rule; [apply quiet_reqbufs|]. intros [n|e] w3 H3.
  2:{ apply wlp_ret. eapply evolves_inv; [done|]. by eapply evolves_inv. }
  assert (evolves res_view neutral w1 w3) as H13 by (etransitivity; done).
  apply wlp_if; intros Hn; [apply wlp_ret; by eapply evolves_inv|]. zbool.
  apply wlp_bind, wlp_modify.
  set (w4 := World _ _). assert (same_rest w1 w4) as Hr4.
  { exact (evolves_rest w1 w1 w3 H13 (same_rest_refl w1)). }
  assert (bufs_inv t 0 0 w4) as Hb4.
  { refine (evolves_bufs t 0 0 w1 w3 H13 _). destruct (inv_bufs _ _ Hinv1) as (? & Hw & ?).
    split_and!; [done| |done]. intros j b Hj. rewrite bool_decide_false by lia. intros Ht.
    specialize (Hw j b Hj). rewrite (H01 Ht), bool_decide_false in Hw by lia. auto. }
  apply wlp_bind. apply (wlp_forM_exit_range
    (λ i w', bufs_inv t 0 i w' ∧ same_rest w1 w' ∧ mBufferCount (obj w') = i32 n ∧ i <= 4)).
  { by split_and!. }
  { intros i s Hi (Hb & Hr & Hc & ?). eapply wlp_mono; [apply (map_buffer_rule t w1 s i (i32 n)); [done|lia|done..]|].
    intros [e|] w'; [intros (? & ? & ?)|intros (? & ? & ? & ?); split_and!; [done..|lia]].
    apply wlp_ret. by eapply (inv_rest t w1). }
  intros w5 (Hb5 & Hr5 & Hc5 & ?).
  assert (pipe_inv_ t w5) as Hinv5.
  { eapply (inv_rest t w1 w5 (i32 n)); [done..| |done|lia].
    destruct (decide (0 <= i32 n)); [by replace (Z.max 0 (i32 n)) with (i32 n) in Hb5 by lia|].
    eapply bufs_inv_empty; [| |done]; lia. }
  apply wlp_bind, quiet_rule; [destruct (cfg_enableISP c); [auto with keeps|apply Keeps_ret]|].
  intros [e|] w6 H6; [apply wlp_ret; by eapply evolves_inv|].
  apply wlp_bind, quiet_rule; [auto with keeps|]. intros [] w7 H7. apply wlp_ret.
  eapply evolves_inv; [done|]. by eapply evolves_inv.
Qed.

Lemma start_inv t w : pipe_inv_ t w → wlp startStreaming (λ _ w', pipe_inv_ t w') w.
Proof.
  intros Hinv. unfold startStreaming. apply wlp_bind, wlp_gets.
  apply wlp_if; intros Hst; [by apply wlp_ret|]. apply negb_false_iff, bool_decide_eq_true in Hst.
  apply wlp_bind, quiet_rule.
  { apply Keeps_forM_exit. intros i. keeps. }
  intros [e|] w1 H1; [apply wlp_ret; by eapply evolves_inv|].
  apply wlp_bind, quiet_rule; [auto with keeps|]. intros [[]|e] w2 H2.
  2:{ apply wlp_ret. eapply evolves_inv; [done|]. by eapply evolves_inv. }
  apply wlp_bind, quiet_rule; [keeps|]. intros [] w3 H3.
  apply wlp_bind, wlp_modify, wlp_ret.
  assert (evolves res_view neutral w w3) as Hev by (etransitivity; [|done]; etransitivity; done).
  pose proof (evolves_inv _ _ _ Hev Hinv) as []. destruct Hev as [[= E1 E2 E3 E4 E5 E6] _].
  split; simpl; try done. split; [done|]. rewrite E1. intros ?%(inv_closed _ _ Hinv). congruence.
Qed.

End Lifecycle.
