(* ===== verification/PipelineSpec.v ===== *)
(** * What the pipeline's state machine guarantees

    Sequences of public operations on a [CameraPipeline], in any order, and the
    theorems about the states they lead to. *)

From S2P Require Import Prelude Monad Float32 Kernel Demosaic DemosaicSpec ColorConv Pipeline Isp Capture AutoFocus PipelineInv.

#[local] Open Scope Z_scope.

(** The public operations that change the object. *)
Inductive pipe_op :=
| OpOpen (cameraId : Z) | OpClose | OpConfigure (config : PipelineConfig)
| OpStart | OpStop | OpCapture (out : option (list Z)) (fmt : Z)
| OpSetExposure (v : Z) | OpSetGain (v : Z) | OpGetExposure | OpGetGain
| OpSetFocus (v : Z) | OpAfScan | OpCancelAf | OpAfAge.

Section Machine.
Context `{!Kernel}.

Definition run_op (o : pipe_op) : ST (world CameraPipeline) () :=
  match o with
  | OpOpen id => open id;; mret ()
  | OpClose => close;; mret ()
  | OpConfigure c => configure c;; mret ()
  | OpStart => startStreaming;; mret ()
  | OpStop => stopStreaming;; mret ()
  | OpCapture out fmt => captureFrame out fmt;; mret ()
  | OpSetExposure v => setExposure v;; mret ()
  | OpSetGain v => setGain v;; mret ()
  | OpGetExposure => getExposure;; mret ()
  | OpGetGain => getGain;; mret ()
  | OpSetFocus v => setFocus v;; mret ()
  | OpAfScan => startAfScan
  | OpCancelAf => cancelAf
  | OpAfAge => afAgeMs;; mret ()
  end.

(** Run a list of operations. *)
Fixpoint run_ops (os : list pipe_op) (w : world CameraPipeline) : option (world CameraPipeline) :=
  match os with
  | [] => Some w
  | o :: os' => match run_op o w with Some (_, w') => run_ops os' w' | None => None end
  end.

(** No [configure] of the sequence meets an object that still holds buffers.
    The HAL only configures a pipeline it has just opened. *)
Fixpoint tidy (os : list pipe_op) (w : world CameraPipeline) : bool :=
  match os with
  | [] => true
  | o :: os' =>
      match o with OpConfigure _ => mBufferCount (obj w) =? 0 | _ => true end &&
      match run_op o w with Some (_, w') => tidy os' w' | None => true end
  end.

Definition fresh (raw : CameraPipeline) : world CameraPipeline := World (CameraPipeline_new raw) [].

Lemma fresh_inv raw : pipe_inv (fresh raw).
Proof.
  split; simpl; try done.
  - intros j b E. rewrite bool_decide_false by lia. pose proof (ld_Some_bounds _ _ _ E) as Hb.
    unfold blen in Hb. simpl in Hb. unfold ld in E. rewrite bool_decide_true in E by lia.
    assert (j = 0 ∨ j = 1 ∨ j = 2 ∨ j = 3) as [->|[->|[->| ->]]] by lia; by injection E as <-.
  - intros fd ?. unfold held_fds. simpl. by rewrite !one_false by lia.
Qed.

Lemma discard_inv {A} t (m : ST (world CameraPipeline) A) w :
  wlp m (λ _ w', pipe_inv_ t w') w → wlp (m;; mret ()) (λ _ w', pipe_inv_ t w') w.
Proof. intros ?. apply wlp_bind. eapply wlp_mono; [done|]. intros a w' ?. by apply wlp_ret. Qed.

Lemma quiet_inv {A} t (m : ST (world CameraPipeline) A) w :
  Quiet m → pipe_inv_ t w → wlp m (λ _ w', pipe_inv_ t w') w.
Proof. intros ? ?. apply quiet_rule; [done|]. intros a w' ?. by eapply evolves_inv. Qed.

Lemma run_op_inv t o w :
  (t = true → ∀ c, o = OpConfigure c → mBufferCount (obj w) = 0) →
  pipe_inv_ t w → wlp (run_op o) (λ _ w', pipe_inv_ t w') w.
Proof.
  intros Hr Hinv. destruct o; simpl in *; try apply discard_inv;
    try (by apply quiet_inv; [auto with keeps|]).
  - by apply open_inv.
  - eapply wlp_mono; [by apply close_inv|]. by intros ? ? (? & _).
  - apply configure_inv; [done|]. intros Ht. by apply (Hr Ht config).
  - by apply start_inv.
  - eapply wlp_mono; [by apply stop_inv|]. by intros ? ? (? & _).
Qed.

Lemma run_ops_inv t os w w' :
  (t = true → tidy os w = true) → run_ops os w = Some w' → pipe_inv_ t w → pipe_inv_ t w'.
Proof.
  revert w. induction os as [|o os IH]; intros w Ht E Hinv; simpl in *; [by injection E as <-|].
  assert (t = true → ∀ c, o = OpConfigure c → mBufferCount (obj w) = 0) as Hc.
  { intros Htt c ->. specialize (Ht Htt). zbool. lia. }
  pose proof (run_op_inv t o w Hc Hinv) as Hw. rewrite wlp_run in Hw.
  destruct (run_op o w) as [[[] w1]|] eqn:E1; [|done].
  apply (IH w1); [|done|by eapply Hw]. intros Htt. specialize (Ht Htt).
  by apply andb_true_iff in Ht as [_ ?].
Qed.

(** After any sequence of operations on a new object; tidy after a tidy one. *)
Lemma pipe_session_inv raw os w : run_ops os (fresh raw) = Some w → pipe_inv_ (tidy os (fresh raw)) w.
Proof.
  intros E. eapply run_ops_inv; [|exact E|apply inv_weaken, fresh_inv]. done.
Qed.

(** *** [close] is defined *)

Definition bufs4 (w : world CameraPipeline) : Prop :=
  blen (mBuffers (obj w)) = 4 ∧ mBufferCount (obj w) <= 4.

Lemma release_loop_defined w n body :
  bufs4 w → n <= 4 → mBufferCount (obj w) = n →
  (∀ i w, 0 <= i < 4 → blen (mBuffers (obj w)) = 4 →
     wp (body i) (λ _ w', blen (mBuffers (obj w')) = 4) w) →
  wp (forM (zrange 0 n 1) body) (λ _ w', blen (mBuffers (obj w')) = 4) w.
Proof.
  intros [? ?] ? ? Hb.
  apply (wp_forM_range (λ _ w', blen (mBuffers (obj w')) = 4)); [done|].
  intros i s ? ?. apply Hb; [lia|done].
Qed.

Lemma setBuf_defined i b w :
  0 <= i < 4 → blen (mBuffers (obj w)) = 4 → wp (setBuf i b) (λ _ w', blen (mBuffers (obj w')) = 4) w.
Proof.
  intros ? Hl. unfold setBuf. apply wp_bind. unfold wp at 1. simpl. apply wp_bind, wp_lift.
  destruct (stn_defined (mBuffers (obj w)) i [b]) as [bs' E]; [lia|change (blen [b]) with 1; lia|].
  exists bs'. split; [exact E|]. unfold wp. simpl. by rewrite (st_len _ _ _ _ E).
Qed.

Lemma stop_defined w : bufs4 w → wp stopStreaming (λ _ w', bufs4 w') w.
Proof.
  intros Hb. unfold stopStreaming. apply wp_bind. unfold wp at 1. simpl.
  destruct (mStreaming (obj w)); simpl; [|done].
  apply wp_bind. unfold wp at 1. simpl. apply wp_bind.
  eapply wp_mono; [apply release_loop_defined; [done|apply Hb|done|]|].
  - intros i w' Hi Hl. unfold getBuf. apply wp_bind, wp_bind. unfold wp at 1. simpl. apply wp_lift.
    destruct (ld_lt (mBuffers (obj w')) i) as [b E]; [lia|]. exists b. split; [done|].
    destruct (vb_start b); [|done]. apply wp_bind. unfold wp at 1. simpl. by apply setBuf_defined.
  - intros [] w' ?. by unfold wp, bufs4.
Qed.

Lemma close_defined w : bufs4 w → wp close (λ _ _, True) w.
Proof.
  intros Hb. unfold close. apply wp_bind. eapply wp_mono; [by apply stop_defined|].
  intros r w1 Hb1. apply wp_bind. unfold wp at 1. simpl. apply wp_bind.
  eapply wp_mono; [apply release_loop_defined; [done|apply Hb1|done|]|].
  - intros i w' Hi Hl. unfold getBuf. apply wp_bind, wp_bind. unfold wp at 1. simpl. apply wp_lift.
    destruct (ld_lt (mBuffers (obj w')) i) as [b E]; [lia|]. exists b. split; [done|].
    destruct (vb_start b), (vb_allocated b); try done.
    apply wp_bind. unfold wp at 1. simpl. by apply setBuf_defined.
  - intros [] w' ?. do 3 (apply wp_bind; unfold wp at 1; simpl).
    case_match; simpl; unfold when;
      destruct (mFd (obj w') >=? 0), (mSensorFd (obj w') >=? 0); exact I.
Qed.

Lemma held_maps_dead a l bs : (∀ j b, ld bs j = Some b → dead b) → held_maps a l bs = 0.
Proof.
  induction bs as [|b bs IH]; intros Hd; simpl; [done|].
  rewrite IH, holds_dead; [done| |].
  - apply (Hd 0 b). done.
  - intros j c Hj. pose proof (ld_Some_bounds _ _ _ Hj). apply (Hd (j + 1) c).
    rewrite ld_lookup in * by lia. by replace (Z.to_nat (j + 1)) with (S (Z.to_nat j)) by lia.
Qed.

Lemma held_maps_nonneg a l bs : 0 <= held_maps a l bs.
Proof. induction bs as [|b bs IH]; simpl; [lia|]. pose proof (holds_nonneg a l b). lia. Qed.

Lemma closed_releases t w :
  pipe_inv_ t w → mState (obj w) = PIPELINE_CLOSED →
  (∀ a l, 0 <= map_balance a l (hist w) ∧ (t = true → map_balance a l (hist w) = 0)) ∧
  (∀ fd, 0 <= fd → fd_balance fd (hist w) = 0).
Proof.
  intros Hinv Hc. split.
  - intros a l. destruct (inv_maps _ _ Hinv a l) as [? He]. split; [pose proof (held_maps_nonneg a l (mBuffers (obj w))); lia|].
    intros Ht. rewrite (He Ht). apply held_maps_dead. intros j b Hj.
    pose proof (inv_window _ _ Hinv j b Hj) as Hd. rewrite (inv_empty _ _ Hinv Hc) in Hd.
    rewrite bool_decide_false in Hd by lia. auto.
  - intros fd ?. rewrite (inv_fds _ _ Hinv) by done. unfold held_fds.
    pose proof (proj1 (inv_closed _ _ Hinv) Hc). pose proof (inv_sensor _ _ Hinv Hc).
    by rewrite !one_false by lia.
Qed.

(** C11: whatever the drivers reply, the state after any sequence of
    operations on a new object satisfies the pipeline's invariant: the
    streaming flag agrees with the state, the device is open exactly when the
    state is not CLOSED, the first [mBufferCount] of the four buffer slots hold
    a mapping, every mapping a slot holds is mapped (so none is ever released
    twice), and the descriptors the object holds are exactly those opened and
    not closed.  When no [configure] of the sequence met an object that still
    held buffers ([tidy]; otherwise [reconfigure_leaks]), the other slots are
    empty and the mappings held are exactly those acquired and not released. *)
Theorem pipeline_invariant raw os w (Hrun : run_ops os (fresh raw) = Some w) :
  pipe_inv_ (tidy os (fresh raw)) w.
Proof. by apply pipe_session_inv. Qed.

(** C12: after any sequence of operations on a new object [close] is defined,
    returns 0 and leaves the object CLOSED without an RGB buffer; every
    descriptor the code ever opened has then been closed, and no buffer was
    unmapped more often than it was mapped.  When no [configure] of the
    sequence met an object that still held buffers, every buffer ever mapped
    has been unmapped, exactly as often as it was mapped. *)
Theorem close_releases_everything raw os w (Hrun : run_ops os (fresh raw) = Some w) :
  ∃ w', close w = Some (0, w') ∧ mState (obj w') = PIPELINE_CLOSED ∧ mRgbBuffer (obj w') = None ∧
    (∀ fd, 0 <= fd → fd_balance fd (hist w') = 0) ∧ (∀ a l, 0 <= map_balance a l (hist w')) ∧
    (tidy os (fresh raw) = true → ∀ a l, map_balance a l (hist w') = 0).
Proof.
  pose proof (pipe_session_inv _ _ _ Hrun) as Hinv. set (t := tidy os (fresh raw)) in *.
  assert (wp close (λ r w', True ∧ pipe_inv_ t w' ∧ r = 0 ∧ mState (obj w') = PIPELINE_CLOSED ∧
                            mRgbBuffer (obj w') = None) w) as Hw.
  { apply wp_and; [|by apply close_inv]. apply close_defined. split; apply Hinv. }
  apply wp_run in Hw as (r & w' & E & _ & Hinv' & -> & Hc & Hr). exists w'.
  destruct (closed_releases t w' Hinv' Hc) as [Hm Hf]. split_and!; try done.
  - intros a l. apply Hm.
  - intros Ht a l. by apply Hm.
Qed.

(** *** Stopping loses the buffers *)

Lemma starved_capture out fmt w :
  mBufferCount (obj w) = 0 → wlp (captureFrame (Some out) fmt) (λ '(_, out') _, out' = Some out) w.
Proof.
  intros H0. unfold captureFrame. apply wlp_bind, wlp_gets.
  destruct (mState (obj w)); [by apply wlp_ret..|].
  apply wlp_bind, quiet_rule; [apply quiet_poll_loop|]. intros [e|] w1 H1; [by apply wlp_ret|].
  apply wlp_bind, quiet_rule; [apply quiet_dqbuf|]. intros [b|e] w2 H2; [|by apply wlp_ret].
  apply wlp_bind, quiet_rule; [apply quiet_update_timing|]. intros [] w3 H3.
  apply wlp_bind, wlp_gets.
  assert (mBufferCount (obj w3) = 0) as E3.
  { destruct H1 as [[= ] _], H2 as [[= ] _], H3 as [[= ] _]. congruence. }
  rewrite E3. change (u32 0) with 0. apply wlp_if; intros Hi; [by apply wlp_ret|]. zbool.
  apply wlp_bind. unfold getBuf. apply wlp_bind, wlp_gets, wlp_lift. intros c Hc.
  pose proof (ld_Some_bounds _ _ _ Hc). lia.
Qed.

(** Streaming stopped and started again without a new [configure] never
    delivers a frame: [stopStreaming] unmaps the buffers and forgets them,
    [startStreaming] queues none, and every [captureFrame] that returns does
    so without touching the caller's buffer. *)
Theorem restart_starves w out fmt (Hinv : pipe_inv w) (Hs : mStreaming (obj w) = true) :
  wlp (stopStreaming;; startStreaming;; captureFrame (Some out) fmt)
    (λ '(_, out') w', out' = Some out ∧ mBufferCount (obj w') = 0) w.
Proof.
  apply wlp_bind. eapply wlp_mono; [by apply stop_inv|]. intros r w1 (Hinv1 & _ & _ & H0 & _).
  specialize (H0 Hs). apply wlp_bind.
  assert (wlp startStreaming (λ _ w', mBufferCount (obj w') = 0) w1) as Hst.
  { unfold startStreaming. apply wlp_bind, wlp_gets. rewrite H0.
    apply wlp_if; intros _; [by apply wlp_ret|]. rewrite zrange_nil by lia. simpl.
    apply wlp_bind, wlp_ret. apply wlp_bind, quiet_rule; [auto with keeps|].
    intros [[]|e] w2 [[= ] _]; [|apply wlp_ret; congruence].
    apply wlp_bind, quiet_rule; [keeps|]. intros [] w3 [[= ] _].
    apply wlp_bind, wlp_modify, wlp_ret. simpl. congruence. }
  eapply wlp_mono; [exact Hst|]. intros r2 w2 H2.
  pose proof (starved_capture out fmt w2 H2) as Hc. rewrite wlp_run in Hc. rewrite wlp_run.
  intros [r' out'] w3 E. split; [by apply (Hc (r', out') w3)|].
  pose proof (quiet_captureFrame (Some out) fmt w2) as Hq. rewrite wlp_run in Hq.
  destruct (Hq _ _ E) as [[= ] _]. congruence.
Qed.
End Machine.

(** ** Instances

    A raw object, a 12 x 4 configuration and a session on the concrete
    kernel. *)

#[local] Existing Instance demo_kernel.

Definition demo_config : PipelineConfig := {|
  cfg_width := 12; cfg_height := 4; cfg_pixelFormat := 0; cfg_bayerPattern := 0;
  cfg_offset_x := 0; cfg_offset_y := 0; cfg_flipV := true; cfg_enableISP := true;
  cfg_blackLevel := 16; cfg_whiteLevel := 0;
  cfg_wbGain := [f_of_Z 1; f_of_Z 1; f_of_Z 1; f_of_Z 1];
  cfg_ccm := [f_of_Z 1; f_of_Z 0; f_of_Z 0; f_of_Z 0; f_of_Z 1; f_of_Z 0; f_of_Z 0; f_of_Z 0; f_of_Z 1];
  cfg_gamma := f_half; cfg_enableAE := true; cfg_enableAWB := true;
  cfg_targetLuma := f_lit 45 100; cfg_digitalGain := f_of_Z 1 |}.

(** Storage before construction; the debug counter of an earlier frame. *)
Definition demo_raw : CameraPipeline := mkPipeline
  0 0 0 PIPELINE_CLOSED false None None demo_config [] 0 0 None 0 0 0 0 0 0 0 0 0 0 0 0
  (replicate 16 0) 0 false 0 [] false (replicate 256 0) (f_of_Z 0) 0 0 0 1 0.

Definition demo_run (os : list pipe_op) : world CameraPipeline :=
  default (fresh demo_raw) (run_ops os (fresh demo_raw)).

Definition demo_session : list pipe_op :=
  [OpOpen 0; OpConfigure demo_config; OpStart; OpCapture (Some (replicate 192 0)) HAL_PIXEL_FORMAT_RGBA_8888].

Lemma pipe_demo_runs : run_ops demo_session (fresh demo_raw) = Some (demo_run demo_session).
Proof. vm_compute. reflexivity. Qed.

Lemma demo_session_tidy : tidy demo_session (fresh demo_raw) = true.
Proof. vm_compute. reflexivity. Qed.

Lemma pipeline_invariant_witness :
  pipe_inv (demo_run demo_session) ∧ mState (obj (demo_run demo_session)) = PIPELINE_STREAMING.
Proof.
  split; [|vm_compute; reflexivity].
  pose proof (pipeline_invariant demo_raw demo_session _ pipe_demo_runs) as H.
  rewrite demo_session_tidy in H. exact H.
Defined.

Lemma close_releases_everything_witness :
  ∃ w', close (demo_run demo_session) = Some (0, w') ∧
    map_balance 0x10000 96 (hist w') = 0 ∧ fd_balance 3 (hist w') = 0.
Proof.
  destruct (close_releases_everything demo_raw demo_session (demo_run demo_session)
    pipe_demo_runs) as (w' & E & _ & _ & Hf & _ & Hm).
  exists w'. split; [exact E|]. split; [apply (Hm demo_session_tidy)|apply Hf; lia].
Defined.

Lemma demo_session_inv : pipe_inv (demo_run demo_session).
Proof. rewrite <- demo_session_tidy. by apply pipe_session_inv, pipe_demo_runs. Qed.

Lemma restart_starves_witness :
  ∃ w', (stopStreaming;; startStreaming;; captureFrame (Some [7]) HAL_PIXEL_FORMAT_RGBA_8888)
          (demo_run demo_session) = Some ((- EINVAL, Some [7]), w') ∧ mBufferCount (obj w') = 0.
Proof.
  pose proof (restart_starves (demo_run demo_session) [7] HAL_PIXEL_FORMAT_RGBA_8888
    demo_session_inv ltac:(vm_compute; reflexivity)) as Hw.
  rewrite wlp_run in Hw.
  assert (∃ w', (stopStreaming;; startStreaming;; captureFrame (Some [7]) HAL_PIXEL_FORMAT_RGBA_8888)
          (demo_run demo_session) = Some ((- EINVAL, Some [7]), w')) as [w' E].
  { eexists. vm_compute. reflexivity. }
  exists w'. split; [exact E|]. apply (Hw _ _ E).
Defined.

(** [configure] called again on an object that still holds buffers forgets
    the old mappings: after [close] they are still mapped. *)
Example reconfigure_leaks :
  ∃ w', (open 0;; configure demo_config;;
         configure demo_config;; close) (fresh demo_raw) = Some (0, w') ∧
    map_balance 0x10000 96 (hist w') = 1.
Proof. eexists. split; [vm_compute; reflexivity|]. vm_compute. reflexivity. Qed.
