(* ===== verification/CaptureSpec.v ===== *)
(** * What [captureFrame] guarantees

    The frame-period measurement behind the anti-banding grid, and the traffic
    with the driver: a bounded number of polls, and every buffer taken from
    the driver is given back. *)

From S2P Require Import Prelude Monad Float32 Kernel Demosaic DemosaicSpec ColorConv Pipeline Isp Capture AutoFocus Medians PipelineInv PipelineSpec.
From stdpp Require Import sorting.

#[local] Open Scope Z_scope.

(** ** Timing *)

Lemma cdiv_pos a b : 0 < b → cdiv a b = Some (Z.quot a b).
Proof. intros. unfold cdiv. by rewrite (proj2 (Z.eqb_neq b 0)) by lia. Qed.

(** The exposure step for a line period: the mains half-period in lines,
    rounded, at least one, in sensor units. *)
Definition grid_step (p : CameraPipeline) (line : Z) : Z :=
  Z.max 1 ((mMainHalfNs p + line / 2) / line) * mExpUnitsPerLine p.

(** What a sensor mode looks like after [configure]. *)
Record timing_setup (p : CameraPipeline) : Prop := {
  ts_len : blen (mTsDeltas p) = 16;
  ts_vts : 0 < mVtsLines p;
  ts_half : 0 <= mMainHalfNs p <= 10000000;
  ts_units : 1 <= mExpUnitsPerLine p <= 16;
  ts_max : 0 <= mExpMax p;
  ts_exp : 0 <= mCurrentExposure p <= 2 ^ 20;
}.

Section Timing.
Context `{!Kernel}.

(** The write that puts the exposure on the grid, if any. *)
Definition snapped (w w' : world CameraPipeline) (s : Z) : Prop :=
  (hist w' = hist w ∧ (s | mCurrentExposure (obj w)) ∧ s <= mCurrentExposure (obj w)) ∨
  ∃ q r, hist w' = ESCtrl (mFd (obj w)) V4L2_CID_EXPOSURE q r :: hist w ∧
         (s | q) ∧ s <= q <= Z.max s (mExpMax (obj w)).

Lemma snap_value s m e : 0 < s → 0 <= m → 0 <= e →
  let q := Z.quot (e + Z.quot s 2) s * s in
  let q1 := if q >? m then Z.quot m s * s else q in
  let q2 := if q1 <? s then s else q1 in
  (s | q2) ∧ s <= q2 <= Z.max s m.
Proof.
  intros Hs Hm He q q1 q2. pose proof (Z.mul_quot_le m s ltac:(lia) ltac:(lia)).
  assert ((s | q1) ∧ q1 <= m) as [Hq1 ?].
  { unfold q1. case_match; zbool; split; try lia; [apply Z.divide_factor_r|]. unfold q. apply Z.divide_factor_r. }
  unfold q2. case_match; zbool; split; try lia; try done.
Qed.

Lemma freeze_timing_spec w :
  timing_setup (obj w) → mDeltaCount (obj w) = 12 → Forall (λ d, 5000000 < d < 200000000) (take 12 (mTsDeltas (obj w))) →
  wp freeze_timing (λ _ w',
    let p := obj w in let p' := obj w' in
    mTimingFrozen p' = true ∧ mPrevFrameTsNs p' = mPrevFrameTsNs p ∧
    merge_sort Z.le (take 12 (mTsDeltas p)) !! 6%nat = Some (mFramePeriodNs p') ∧
    mLinePeriodNs p' = mFramePeriodNs p' / mVtsLines p ∧
    (0 < mMainHalfNs p → 0 < mLinePeriodNs p' →
       mExposureStepLines p' = grid_step p (mLinePeriodNs p') ∧ snapped w w' (mExposureStepLines p'))) w.
Proof.
  intros [] Hc Hd. unfold freeze_timing. apply wp_bind. unfold wp at 1. cbn [get gets].
  destruct (sort_deltas_spec (mTsDeltas (obj w)) (mDeltaCount (obj w)) (replicate 16 0)) as [post E];
    [lia|rewrite Hc; done|]. rewrite Hc in E. change (Z.to_nat 12) with 12%nat in E.
  set (ms := merge_sort Z.le (take 12 (mTsDeltas (obj w)))) in *.
  assert (length ms = 12%nat) as Hml.
  { unfold ms. rewrite merge_sort_Permutation, length_take. unfold blen in *. lia. }
  destruct (lookup_lt_is_Some_2 ms 6) as [med Hmed]; [lia|].
  assert (5000000 < med < 200000000) as Hmr.
  { rewrite Forall_forall in Hd. apply Hd. unfold ms in Hmed. apply list_elem_of_lookup_2 in Hmed.
    by rewrite merge_sort_Permutation in Hmed. }
  rewrite Hc. apply wp_bind, wp_lift. eexists. split; [exact E|]. apply wp_bind, wp_lift. exists med. split.
  { unfold ld. rewrite bool_decide_true by (vm_compute; done). change (Z.to_nat (12 ÷ 2)) with 6%nat.
    by rewrite lookup_app_l by lia. }
  rewrite cdiv_pos by done. apply wp_bind, wp_lift. eexists. split; [done|].
  apply wp_bind. unfold wp at 1. cbn [upd modify].
  assert (Z.quot med (mVtsLines (obj w)) = med / mVtsLines (obj w)) as Hq by (apply Z.quot_div_nonneg; lia).
  rewrite !Hq. set (line := med / mVtsLines (obj w)) in *.
  assert (0 <= line < 200000000) as Hline.
  { unfold line. split; [apply Z.div_pos; lia|]. apply Z.div_lt_upper_bound; nia. }
  destruct ((mMainHalfNs (obj w) >? 0) && (line >? 0)) eqn:Hon.
  2:{ unfold wp. simpl. split_and!; [done..|]. intros. exfalso.
      apply andb_false_iff in Hon as [?|?]; zbool; lia. }
  zbool. set (n := (mMainHalfNs (obj w) + line / 2) / line).
  assert (0 <= n <= 10000001) as Hn.
  { unfold n. assert (0 <= line / 2) by (apply Z.div_pos; lia).
    split; [apply Z.div_pos; lia|]. apply Z.div_le_upper_bound; [lia|].
    pose proof (Z.div_le_upper_bound line 2 line ltac:(lia) ltac:(lia)). nia. }
  assert (Z.quot (mMainHalfNs (obj w) + Z.quot line 2) line = n) as ->.
  { rewrite (Z.quot_div_nonneg line 2) by lia. apply Z.quot_div_nonneg; [|lia].
    pose proof (Z.div_pos line 2). lia. }
  rewrite i32_id by lia.
  assert ((if n <? 1 then 1 else n) = Z.max 1 n) as -> by (case_match; zbool; lia).
  set (s := Z.max 1 n * mExpUnitsPerLine (obj w)).
  assert (1 <= s <= 160000016) as Hs by (unfold s; nia).
  rewrite (ck32_Some s) by (unfold INT_MIN, INT_MAX; lia). apply wp_bind, wp_lift. eexists. split; [done|].
  apply wp_bind. unfold wp at 1. cbn [upd modify].
  assert (0 <= Z.quot s 2 <= s) as Hs2. { rewrite Z.quot_div_nonneg by lia. pose proof (Z.div_le_upper_bound s 2 s). pose proof (Z.div_pos s 2). lia. }
  rewrite ck32_Some by (unfold INT_MIN, INT_MAX; lia). apply wp_bind, wp_lift. eexists. split; [done|].
  rewrite cdiv_pos by lia. apply wp_bind, wp_lift. eexists. split; [done|].
  pose proof (Z.mul_quot_le (mCurrentExposure (obj w) + Z.quot s 2) s ltac:(lia) ltac:(lia)) as Hql.
  pose proof (Z.quot_pos (mCurrentExposure (obj w) + Z.quot s 2) s ltac:(lia) ltac:(lia)) as Hqp.
  rewrite ck32_Some by (unfold INT_MIN, INT_MAX; nia). apply wp_bind, wp_lift. eexists. split; [done|].
  cbn zeta. pose proof (snap_value s (mExpMax (obj w)) (mCurrentExposure (obj w)) ltac:(lia) ltac:(lia) ltac:(lia)) as Hsn.
  cbn zeta in Hsn. set (q := if _ <? s then s else _) in *.
  destruct (q =? mCurrentExposure (obj w)) eqn:Heq; cbn [negb when]; zbool.
  - unfold wp. simpl. split_and!; [done..|]. intros _ _. split; [done|]. left. simpl.
    rewrite <- Heq. split_and!; [done|apply Hsn|apply Hsn].
  - unfold setExposure, wp, mbind, ST_bind, get, gets, io_s_ctrl, call, mret, ST_ret. cbn.
    destruct (k_s_ctrl (hist w) (mFd (obj w)) V4L2_CID_EXPOSURE q); cbn; (split_and!; [done..|]); intros _ _; (split; [done|]); right; eexists q, _; (split; [done|exact Hsn]).
Qed.

(** The measurement behind anti-banding.  When the twelfth valid frame
    delta arrives the timing is frozen, without any undefined arithmetic: the
    frame period is the (upper) median of the twelve deltas in the order of
    the reference sort, the line period is its share per sensor line, and with
    anti-banding on the exposure step is the mains half-period rounded to
    whole lines; the exposure is then on that grid already, or the one control
    write issued puts it on the grid within the sensor's range. *)
Theorem timing_median w b ts
  (Hsetup : timing_setup (obj w)) (Hfrozen : mTimingFrozen (obj w) = false)
  (Hcount : mDeltaCount (obj w) = 11)
  (Hvalid : Forall (λ d, 5000000 < d < 200000000) (take 11 (mTsDeltas (obj w))))
  (Hts : ts_ns b = Some ts)
  (Hdelta : 5000000 < ts - mPrevFrameTsNs (obj w) < 200000000) :
  wp (update_timing b) (λ _ w',
    let p := obj w in let p' := obj w' in
    mTimingFrozen p' = true ∧ mPrevFrameTsNs p' = ts ∧
    merge_sort Z.le (take 11 (mTsDeltas p) ++ [ts - mPrevFrameTsNs p]) !! 6%nat = Some (mFramePeriodNs p') ∧
    mLinePeriodNs p' = mFramePeriodNs p' / mVtsLines p ∧
    (0 < mMainHalfNs p → 0 < mLinePeriodNs p' →
       mExposureStepLines p' = grid_step p (mLinePeriodNs p') ∧ snapped w w' (mExposureStepLines p'))) w.
Proof.
  unfold update_timing. apply wp_bind. unfold wp at 1. cbn [get gets].
  apply wp_bind, wp_lift. exists ts. split; [done|]. rewrite Hfrozen.
  set (delta := ts - mPrevFrameTsNs (obj w)) in *.
  apply wp_bind, wp_lift. exists delta. split.
  { unfold ck64. by rewrite bool_decide_true by lia. }
  apply wp_bind. unfold wp at 1. cbn [upd modify].
  rewrite (proj2 (Z.gtb_lt delta 5000000)), (proj2 (Z.ltb_lt delta 200000000)) by lia. cbn [andb].
  rewrite Hcount. cbn [when Z.ltb Z.compare Pos.compare Pos.compare_cont].
  pose proof Hsetup as [].
  destruct (stn_defined (mTsDeltas (obj w)) 11 [delta]) as [ds Eds]; [lia|change (blen [delta]) with 1; lia|].
  apply wp_bind, wp_bind, wp_lift. exists ds. split; [exact Eds|]. unfold wp at 1. cbn [upd modify].
  apply wp_bind. unfold wp at 1. cbn [get gets obj].
  apply st_insert in Eds as [_ ->]. change (Z.to_nat 11) with 11%nat in *.
  set (ds := <[11%nat := delta]> (mTsDeltas (obj w))).
  assert (take 12 ds = take 11 (mTsDeltas (obj w)) ++ [delta]) as Htake.
  { assert (ds !! 11%nat = Some delta) as E.
    { unfold ds. apply list_lookup_insert_eq. unfold blen in *. lia. }
    rewrite (take_S_r _ _ _ E). f_equal. unfold ds. by apply take_insert_ge. }
  set (w1 := World _ _).
  assert (timing_setup (obj w1)) as Hs1.
  { split; simpl; try done. unfold ds, blen in *. by rewrite length_insert. }
  assert (mDeltaCount (obj w1) = 12) as Hc1 by (simpl; lia). match goal with |- context [?x >=? 12] => change x with (mDeltaCount (obj w1)) end. rewrite Hc1. cbn [when Z.geb Z.compare Pos.compare Pos.compare_cont].
  eapply wp_mono.
  { apply freeze_timing_spec; [done|done|].
    simpl. rewrite Htake. apply Forall_app. split; [done|]. by constructor. }
  intros [] w' (Hf & Hp & Hm & Hl & Hg). simpl in *. rewrite Htake in Hm.
  split_and!; done.
Qed.
End Timing.

(** ** The traffic of one capture *)

Definition is_ctrl (e : event) : Prop := match e with ESCtrl _ _ _ _ => True | _ => False end.
Definition is_poll (fd : Z) (e : event) : Prop := match e with EPoll fd' t _ => fd' = fd ∧ t = 300 | _ => False end.

Abbreviation CtrlOnly := (Keeps res_view is_ctrl).

Section Trace.
Context `{!Kernel}.

Lemma ctrl_s_ctrl fd i v : CtrlOnly (io_s_ctrl fd i v).
Proof. apply Keeps_call. done. Qed.
#[local] Hint Resolve ctrl_s_ctrl : keeps.
Lemma ctrl_setExposure v : CtrlOnly (setExposure v). Proof. unfold setExposure. keeps. Qed.
Lemma ctrl_setGain v : CtrlOnly (setGain v). Proof. unfold setGain. keeps. Qed.
#[local] Hint Resolve ctrl_setExposure ctrl_setGain : keeps.
Lemma ctrl_ae_apply e g : CtrlOnly (ae_apply e g). Proof. unfold ae_apply. keeps. Qed.
#[local] Hint Resolve ctrl_ae_apply : keeps.
Lemma ctrl_ae rgb : CtrlOnly (doAutoExposure rgb). Proof. unfold doAutoExposure. keeps. Qed.
Lemma ctrl_awb rgb : CtrlOnly (doAutoWhiteBalance rgb). Proof. unfold doAutoWhiteBalance. keeps. Qed.
#[local] Hint Resolve ctrl_ae ctrl_awb : keeps.
Lemma ctrl_processBayer b o f : CtrlOnly (processBayerToYuv b o f).
Proof. unfold processBayerToYuv, set_rgb. keeps. Qed.
Lemma ctrl_freeze : CtrlOnly freeze_timing. Proof. unfold freeze_timing. keeps. Qed.
#[local] Hint Resolve ctrl_processBayer ctrl_freeze : keeps.
Lemma ctrl_update_timing b : CtrlOnly (update_timing b). Proof. unfold update_timing. keeps. Qed.

Lemma poll_loop_trace fd n w :
  wlp (poll_loop fd n) (λ r w', obj w' = obj w ∧
    ∃ evs, hist w' = evs ++ hist w ∧ (length evs <= n)%nat ∧ Forall (is_poll fd) evs) w.
Proof.
  revert w. induction n as [|n IH]; intros w; cbn [poll_loop].
  { apply wlp_ret. split; [done|]. exists []. split_and!; [done|done|constructor]. }
  apply wlp_bind, wlp_call. set (r := k_poll _ _ _). cbn [obj hist].
  assert (∀ o : option Z, wlp (mret o) (λ _ w', obj w' = obj w ∧
    ∃ evs, hist w' = evs ++ hist w ∧ (length evs <= S n)%nat ∧ Forall (is_poll fd) evs)
    (World (obj w) (EPoll fd 300 r :: hist w))) as Hret.
  { intros o. apply wlp_ret. split; [done|]. exists [EPoll fd 300 r].
    split_and!; [done|simpl; lia|]. by repeat constructor. }
  destruct r as [[pollRet revents]|e]; [|apply Hret].
  apply wlp_if; intros _; [|apply wlp_if; intros _; apply Hret].
  destruct n as [|n']; [apply Hret|].
  eapply wlp_mono; [apply IH|]. intros o w' [Ho (evs & Eh & Hl & Hf)]. cbn [obj hist] in *.
  split; [done|]. exists (evs ++ [EPoll fd 300 (SOk (pollRet, revents))]).
  rewrite Eh, <- app_assoc. split_and!; [done|rewrite length_app; simpl in *; lia|].
  apply Forall_app. split; [done|]. by repeat constructor.
Qed.

Definition polled (fd : Z) (polls : list event) : Prop :=
  Forall (is_poll fd) polls ∧ (length polls <= max_retries)%nat.

(** The four shapes a capture's events can have, most recent first. *)
Inductive capture_trace (fd count : Z) : list event → Z → Prop :=
| trace_no_frame polls r : polled fd polls → capture_trace fd count polls r
| trace_no_buffer polls e : polled fd polls → capture_trace fd count (EDQBuf fd (SErr e) :: polls) (- e)
| trace_bad_index polls ctrls b :
    polled fd polls → Forall is_ctrl ctrls → u32 count <= dq_index b →
    capture_trace fd count (ctrls ++ EDQBuf fd (SOk b) :: polls) (- EINVAL)
| trace_returned polls ctrls b q r :
    polled fd polls → Forall is_ctrl ctrls → dq_index b < u32 count →
    capture_trace fd count (EQBuf fd (dq_index b) q :: ctrls ++ EDQBuf fd (SOk b) :: polls) r.

Lemma evolves_ctrl w w' : evolves res_view is_ctrl w w' →
  mFd (obj w') = mFd (obj w) ∧ mBufferCount (obj w') = mBufferCount (obj w) ∧
  ∃ cs, hist w' = cs ++ hist w ∧ Forall is_ctrl cs.
Proof. intros [[= ] ?]. done. Qed.

Lemma ctrl_rule {A} (m : ST (world CameraPipeline) A) Q w :
  CtrlOnly m → (∀ a w', mFd (obj w') = mFd (obj w) → mBufferCount (obj w') = mBufferCount (obj w) →
    ∀ cs, hist w' = cs ++ hist w → Forall is_ctrl cs → Q a w') → wlp m Q w.
Proof.
  intros Hm HQ. eapply wlp_mono; [apply Hm|]. intros a w' (? & ? & cs & ? & ?)%evolves_ctrl. eauto.
Qed.

(** C33: one capture and the driver.  Whatever the driver replies, a capture
    polls the pipeline's device at most six times (300 ms each, so it waits at
    most 1.8 s), dequeues at most one buffer, and in between only writes
    sensor controls; when it has dequeued a buffer the pipeline knows, its
    last call gives exactly that buffer back.  The only buffer not returned
    is one whose index the pipeline rejects with [-EINVAL]. *)
Theorem capture_returns_buffer out fmt w :
  wlp (captureFrame out fmt) (λ '(r, _) w', ∃ evs, hist w' = evs ++ hist w ∧
    capture_trace (mFd (obj w)) (mBufferCount (obj w)) evs r) w.
Proof.
  unfold captureFrame. apply wlp_bind, wlp_gets.
  assert (∀ r : Z, capture_trace (mFd (obj w)) (mBufferCount (obj w)) [] r) as Hnil.
  { intros r. apply trace_no_frame. split; [constructor|simpl; lia]. }
  destruct (mState (obj w)); [apply wlp_ret; by exists []..|]. destruct out as [out|]; [|apply wlp_ret; by exists []].
  apply wlp_bind. eapply wlp_mono; [apply poll_loop_trace|].
  intros r w1 (E1 & polls & Eh1 & Hl & Hf). assert (polled (mFd (obj w)) polls) as Hp by done.
  destruct r as [e|]; [apply wlp_ret; exists polls; split; [done|]; by apply trace_no_frame|].
  apply wlp_bind, wlp_call. cbn [obj hist]. set (r := k_dqbuf _ _). rewrite Eh1.
  destruct r as [b|e].
  2:{ apply wlp_ret. exists (EDQBuf (mFd (obj w)) (SErr e) :: polls). split; [done|].
      destruct (e =? EAGAIN) eqn:Ee; zbool; subst; by apply trace_no_buffer. }
  apply wlp_bind, ctrl_rule; [apply ctrl_update_timing|]. cbn [obj hist].
  intros _ w2 F2 C2 cs2 Eh2 Hc2. rewrite E1 in *. apply wlp_bind, wlp_gets. apply wlp_if; intros Hi; zbool.
  { apply wlp_ret. exists (cs2 ++ EDQBuf (mFd (obj w)) (SOk b) :: polls). rewrite Eh2, <- app_assoc.
    split; [done|]. apply trace_bad_index; [done..|]. by rewrite <- C2. }
  apply wlp_bind. unfold getBuf. apply wlp_bind, wlp_gets, wlp_lift. intros vb _.
  apply wlp_bind. eapply (wlp_mono _ (λ _ w3, w3 = w2)).
  { unfold read_start. destruct (vb_start vb); [by apply wlp_bind, wlp_gets, wlp_ret|by apply wlp_ret]. }
  intros fb ? ->. apply wlp_bind, wlp_lift. intros n _.
  apply wlp_bind, wlp_modify. apply wlp_bind. eapply (wlp_mono _ (λ _ w3, w3 = World _ (hist w2))).
  { apply wlp_when; intros _; [apply wlp_lift; by intros|done]. }
  intros [] w3 ->. apply wlp_bind, ctrl_rule.
  { repeat case_match; first [apply ctrl_processBayer|keeps]. }
  cbn [obj hist]. intros [ret out'] w4 F4 C4 cs4 Eh4 Hc4. apply wlp_bind, wlp_call. cbn [obj hist].
  set (q := k_qbuf _ _ _).
  enough (∃ evs, EQBuf (mFd (obj w2)) (dq_index b) q :: hist w4 = evs ++ hist w ∧
    ∀ r, capture_trace (mFd (obj w)) (mBufferCount (obj w)) evs r) as (evs & Ee & Ht).
  { destruct q; apply wlp_ret; exists evs; split; [done|apply Ht|done|apply Ht]. }
  exists (EQBuf (mFd (obj w)) (dq_index b) q :: (cs4 ++ cs2) ++ EDQBuf (mFd (obj w)) (SOk b) :: polls).
  split; [by rewrite F2, Eh4, Eh2; cbn [app]; rewrite <- !app_assoc|].
  intros r. apply trace_returned; [done|by apply Forall_app|]. by rewrite <- C2.
Qed.
End Trace.

(** ** Instances *)

#[local] Existing Instance demo_kernel.

(** A running 30 ms camera that has measured eleven deltas. *)
Definition measured_w : world CameraPipeline :=
  let w := demo_run demo_session in
  World ((obj w) <| mTsDeltas := replicate 6 33000000 ++ replicate 10 41000000 |> <| mDeltaCount := 11 |>) (hist w).

Definition next_frame : dqbuf := {| dq_index := 1; dq_bytesused := 96; dq_tv_sec := 0; dq_tv_usec := 80000 |}.

Lemma timing_median_witness :
  ∃ w', update_timing next_frame measured_w = Some ((), w') ∧ mTimingFrozen (obj w') = true ∧
        mFramePeriodNs (obj w') = 40000000 ∧ mExposureStepLines (obj w') = grid_step (obj measured_w) 15936.
Proof.
  assert (mVtsLines (obj measured_w) = 2510 ∧ 0 < mMainHalfNs (obj measured_w)) as [Hv Hh] by (split_and!; vm_compute; reflexivity).
  assert (timing_setup (obj measured_w)) as H1 by (split; vm_compute; repeat split; congruence).
  assert (mTimingFrozen (obj measured_w) = false ∧ mDeltaCount (obj measured_w) = 11 ∧
    take 11 (mTsDeltas (obj measured_w)) = replicate 6 33000000 ++ replicate 5 41000000 ∧
    ts_ns next_frame = Some 80000000 ∧ mPrevFrameTsNs (obj measured_w) = 40000000) as (H2 & H3 & H4 & H5 & H6)
    by (split_and!; vm_compute; reflexivity).
  assert (Forall (λ d, 5000000 < d < 200000000) (take 11 (mTsDeltas (obj measured_w)))) as H7
    by (rewrite H4; repeat constructor).
  pose proof (timing_median measured_w next_frame 80000000 H1 H2 H3 H7 H5 ltac:(rewrite H6; lia)) as Hw.
  revert Hw H4 H6 Hv Hh. clear. generalize measured_w. intros w Hw H4 H6 Hv Hh.
  apply wp_run in Hw as ([] & w' & E & Hf & _ & Hm & Hl & Hg). exists w'. split; [exact E|]. split; [exact Hf|].
  rewrite H4, H6 in Hm.
  match type of Hm with ?l = Some _ =>
    assert (l = Some 40000000) as Hl6 by (vm_compute; reflexivity); rewrite Hl6 in Hm end.
  injection Hm as Hm. rewrite <- Hm, Hv in Hl.
  change (40000000 / 2510) with 15936 in Hl.
  split; [by rewrite <- Hm|]. rewrite Hl in Hg. apply Hg; [exact Hh|lia].
Defined.
