(* ===== verification/IspSpec.v ===== *)
(** * What the software ISP guarantees

    Bounds and grid of the auto-exposure writes, the pointwise colour stages,
    the vertical flip, and the pixels a whole frame ends up with. *)

From S2P Require Import Prelude Monad Float32 Kernel Demosaic DemosaicSpec ColorConv Pipeline Isp PipelineSpec.

#[local] Open Scope Z_scope.

(** ** Auto exposure *)

Lemma iclamp_range lo hi v : lo <= hi → lo <= iclamp lo hi v <= hi.
Proof. intros. unfold iclamp. repeat case_match; zbool; lia. Qed.

Section AutoExposure.
Context `{!Kernel}.

Definition grid_on (p : CameraPipeline) : bool := (mMainHalfNs p >? 0) && (mExposureStepLines p >? 1).

(** What an exposure write may be.  With the mains grid active: a multiple of
    the grid step [s], from one step up to [mExpMax], or a single step when
    that exceeds [mExpMax].  So it is in the sensor's range when the grid is
    not active, or when one step is in that range. *)
Definition exposure_ok (p : CameraPipeline) (v : Z) : Prop :=
  let s := mExposureStepLines p in
  (grid_on p = true → (s | v) ∧ s <= v <= Z.max s (mExpMax p)) ∧
  ((grid_on p = true → mExpMin p <= s <= mExpMax p) → mExpMin p <= v <= mExpMax p).

Definition gain_ok (p : CameraPipeline) (v : Z) : Prop := gain_min p <= v <= gainMax.

Lemma gain_min_le p : gain_min p <= gainMax.
Proof. unfold gain_min, gainMax. case_match; lia. Qed.

Lemma ae_split_range p ratio e x g :
  mExpMin p <= mExpMax p → ae_split p ratio = Some (e, x, g) →
  mExpMin p <= x <= mExpMax p ∧ gain_ok p g.
Proof.
  intros Hr E. unfold ae_split in E. inv_bind.
  destruct x2 as [x2 g2]. inv_bind. split; [|apply iclamp_range, gain_min_le].
  destruct (_ >? _) eqn:E3; [inv_bind; lia|]. destruct (_ <? _) eqn:E4; inv_bind; zbool; lia.
Qed.

Lemma grid_snap s m q : 1 < s → 0 <= m →
  let q' := if q >? Z.quot m s * s then Z.quot m s * s else q in
  let q'' := if q' <? s then s else q' in
  (s | q) → (s | q'') ∧ s <= q'' <= Z.max s m.
Proof.
  intros Hs Hm q' q'' Hq. pose proof (Z.mul_quot_le m s ltac:(lia) ltac:(lia)).
  assert (s | q') as Hq'. { unfold q'. case_match; [apply Z.divide_factor_r|done]. }
  assert (q' <= m). { unfold q'. case_match; zbool; lia. }
  unfold q''. case_match; zbool; split; try lia; try done.
Qed.

Lemma ae_target_ok p ratio x g :
  mExpMin p <= mExpMax p → 0 <= mExpMax p → ae_target p ratio = Some (x, g) →
  exposure_ok p x ∧ gain_ok p g.
Proof.
  intros Hr Hmax E. unfold ae_target in E. inv_bind. destruct x0 as [[e x0] g0].
  apply ae_split_range in E0 as [Hx Hg]; [|done]. unfold ae_quantize in E.
  unfold exposure_ok, grid_on. destruct (_ && _) eqn:Hgrid; [|injection E as <- <-; split; [split; [done|by intros _]|done]].
  zbool. apply bind_Some_inv in E as (sum & Esum & E). cbn zeta in E.
  match type of E with (if negb (?q =? _) then _ else _) = _ => set (q' := q) in * end.
  assert ((mExposureStepLines p | q') ∧ mExposureStepLines p <= q' <= Z.max (mExposureStepLines p) (mExpMax p)) as Hq.
  { apply grid_snap; [lia|lia|]. apply Z.divide_factor_r. }
  assert ((true = true → mExpMin p <= mExposureStepLines p <= mExpMax p) → mExpMin p <= q' <= mExpMax p) as Hin.
  { intros Hs. specialize (Hs eq_refl). lia. }
  destruct (q' =? x0) eqn:Eq; simpl in E.
  - injection E as <- <-. zbool. rewrite <- Eq. done.
  - inv_bind. split; [done|]. apply iclamp_range, gain_min_le.
Qed.

(** Every event is a control write of the auto exposure, in range. *)
Definition ae_write_ok (p : CameraPipeline) (e : event) : Prop :=
  match e with
  | ESCtrl fd id v _ =>
      fd = mFd p ∧ ((id = V4L2_CID_GAIN ∧ gain_ok p v) ∨ (id = V4L2_CID_EXPOSURE ∧ exposure_ok p v))
  | _ => False
  end.

(** The fields the auto exposure never writes. *)
Definition ae_view (p : CameraPipeline) :=
  p <| mCurrentExposure := 0 |> <| mCurrentGain := 0 |> <| mAeHoldFrames := 0 |>.

(** At most [n] control writes happened since [w0], all of them in range. *)
Definition ae_within (n : nat) (w0 w : world CameraPipeline) : Prop :=
  ae_view (obj w) = ae_view (obj w0) ∧
  ∃ evs, hist w = evs ++ hist w0 ∧ (length evs <= n)%nat ∧ Forall (ae_write_ok (obj w0)) evs.

Lemma ae_within_refl w : ae_within 0 w w.
Proof. split; [done|]. exists []. split_and!; [done|simpl; lia|constructor]. Qed.

Lemma ae_within_mono n m w0 w : (n <= m)%nat → ae_within n w0 w → ae_within m w0 w.
Proof. intros ? [? (evs & ? & ? & ?)]. split; [done|]. exists evs. split_and!; [done|lia|done]. Qed.

Lemma ae_within_upd n w0 w f :
  ae_within n w0 w → (∀ p, ae_view (f p) = ae_view p) → ae_within n w0 (World (f (obj w)) (hist w)).
Proof. intros [E ?] Hf. split; [|done]. simpl. by rewrite Hf. Qed.

Lemma ae_view_fd p q : ae_view q = ae_view p → mFd q = mFd p.
Proof. intros E. exact (f_equal mFd E). Qed.

Lemma ae_within_write n w0 w id v r :
  ae_within n w0 w →
  (id = V4L2_CID_GAIN ∧ gain_ok (obj w0) v) ∨ (id = V4L2_CID_EXPOSURE ∧ exposure_ok (obj w0) v) →
  ae_within (S n) w0 (World (obj w) (ESCtrl (mFd (obj w)) id v r :: hist w)).
Proof.
  intros [E (evs & Eh & ? & ?)] Hv. split; [done|]. eexists (_ :: evs). simpl. rewrite Eh.
  split_and!; [done|lia|]. constructor; [|done]. simpl. split; [by apply ae_view_fd|done].
Qed.

Lemma setGain_within n w0 w v :
  ae_within n w0 w → gain_ok (obj w0) v → wlp (setGain v;; mret ()) (λ _, ae_within (S n) w0) w.
Proof.
  intros Hn Hv. unfold setGain. apply wlp_bind, wlp_bind, wlp_gets, wlp_bind, wlp_call.
  pose proof (ae_within_write n w0 w V4L2_CID_GAIN v (k_s_ctrl (hist w) (mFd (obj w)) V4L2_CID_GAIN v)
    Hn ltac:(auto)) as Hw.
  case_match; [|by apply wlp_ret, wlp_ret]. apply wlp_bind, wlp_modify, wlp_ret, wlp_ret.
  by apply (ae_within_upd _ _ (World _ _)).
Qed.

Lemma setExposure_within n w0 w v :
  ae_within n w0 w → exposure_ok (obj w0) v → wlp (setExposure v;; mret ()) (λ _, ae_within (S n) w0) w.
Proof.
  intros Hn Hv. unfold setExposure. apply wlp_bind, wlp_bind, wlp_gets, wlp_bind, wlp_call.
  pose proof (ae_within_write n w0 w V4L2_CID_EXPOSURE v (k_s_ctrl (hist w) (mFd (obj w)) V4L2_CID_EXPOSURE v)
    Hn ltac:(auto)) as Hw.
  case_match; [|by apply wlp_ret, wlp_ret]. apply wlp_bind, wlp_modify, wlp_ret, wlp_ret.
  by apply (ae_within_upd _ _ (World _ _)).
Qed.

Lemma ae_apply_ok w0 w x g :
  ae_within 0 w0 w → exposure_ok (obj w0) x → gain_ok (obj w0) g →
  wlp (ae_apply x g) (λ _, ae_within 2 w0) w.
Proof.
  intros H0 Hx Hg. unfold ae_apply. apply wlp_bind, wlp_gets.
  apply wlp_when; intros _; [|by eapply ae_within_mono; [|done]; lia].
  apply wlp_bind. eapply (wlp_mono _ (λ _, ae_within 1 w0)).
  { apply wlp_when; intros _; [by apply setGain_within|]. eapply ae_within_mono; [|done]. lia. }
  intros [] w1 H1. apply wlp_bind. eapply (wlp_mono _ (λ _, ae_within 2 w0)).
  { apply wlp_when; intros _; [by apply setExposure_within|]. eapply ae_within_mono; [|done]. lia. }
  intros [] w2 H2. apply wlp_modify. by apply ae_within_upd.
Qed.

(** C34: whatever the image, one auto-exposure step issues at most two control
    writes, on the pipeline's own device: the gain, in [[gain_min, 240]], and
    the exposure.  With anti-banding active the exposure is a multiple of the
    mains half-cycle step, from one step up to the larger of one step and
    [mExpMax].  It is in [[mExpMin, mExpMax]] when anti-banding is off or one
    step is in that range; a step outside it is written all the same
    ([ae_leaves_range]).  Nothing else of the object changes. *)
Theorem ae_writes_in_range rgb w (Hr : mExpMin (obj w) <= mExpMax (obj w)) (Hm : 0 <= mExpMax (obj w)) :
  wlp (doAutoExposure rgb) (λ _ w', ae_within 2 w w') w.
Proof.
  unfold doAutoExposure. apply wlp_bind, wlp_gets.
  pose proof (ae_within_refl w) as H0. assert (ae_within 2 w w) as Hd by (eapply ae_within_mono; [|done]; lia).
  destruct rgb as [rgb|]; [|by apply wlp_ret]. apply wlp_if; intros _; [by apply wlp_ret|].
  apply wlp_bind, wlp_lift. intros [sum count] _. apply wlp_if; intros _; [by apply wlp_ret|].
  cbn zeta. apply wlp_if; intros _; [apply wlp_modify; by apply ae_within_upd|].
  apply wlp_bind. eapply (wlp_mono _ (λ _, ae_within 0 w)).
  { apply wlp_when; intros _; [|done]. apply wlp_modify. by apply ae_within_upd. }
  intros [] w1 H1. apply wlp_if; intros _; [apply wlp_ret; eapply ae_within_mono; [|done]; lia|].
  apply wlp_bind, wlp_lift. intros [x g] E. apply ae_target_ok in E as [? ?]; [|done..].
  by apply ae_apply_ok.
Qed.
End AutoExposure.

(** ** Sampling *)

(** The averaged luma of an image of the configured size is defined, and an
    average of bytes. *)
Lemma ae_sample_total rgb w h :
  is_bytes rgb → 0 <= w → 0 <= h → w * h * 3 <= INT_MAX → w * h * 3 <= blen rgb →
  ∃ sum count, ae_sample rgb w h = Some (sum, count) ∧ 0 <= sum <= 255 * count.
Proof.
  intros Hb Hw Hh Hi Hl. unfold ae_sample.
  set (body := λ (acc : Z * Z) (y : Z), for_range _ _ _ _ acc).
  destruct (for_range_inv (λ _ (a : Z * Z), 0 <= a.1 <= 255 * a.2) 0 h 8 body (0, 0))
    as ([s c] & E & Hr); [lia|simpl; lia| |exists s, c; split; [exact E|exact Hr]].
  intros y acc Hy _ Ha. unfold body.
  edestruct (for_range_inv (λ _ (a : Z * Z), 0 <= a.1 <= 255 * a.2) 0 w 8) as (r & E & Hr);
    [lia|exact Ha| |exists r; split; [exact E|exact Hr]].
  intros x [s1 c1] Hx _ Ha1. simpl in *.
  assert (0 <= (y * w + x) * 3 ∧ (y * w + x) * 3 + 2 < w * h * 3) as [? ?] by nia.
  rewrite ck32_Some by (unfold INT_MIN; lia). cbn [mbind option_bind].
  rewrite !ld_bget by lia. cbn [mbind option_bind].
  eexists. split; [reflexivity|]. cbn [fst snd].
  pose proof (bget_byte rgb ((y * w + x) * 3) Hb). pose proof (bget_byte rgb ((y * w + x) * 3 + 1) Hb).
  pose proof (bget_byte rgb ((y * w + x) * 3 + 2) Hb). unfold is_byte in *.
  rewrite shiftr_div by lia. change (2 ^ 8) with 256.
  match goal with |- context [?e / 256] => pose proof (Z.div_pos e 256); pose proof (Z.div_le_upper_bound e 256 255) end.
  lia.
Qed.

Section Hold.
Context `{!Kernel}.

Definition cfg_w (p : CameraPipeline) : Z := i32 (cfg_width (mConfig p)).
Definition cfg_h (p : CameraPipeline) : Z := i32 (cfg_height (mConfig p)).

(** The luma of an image relative to the target: outside the dead band, but
    within a factor of four. *)
Definition moderate (p : CameraPipeline) (rgb : list Z) : bool :=
  match ae_sample rgb (cfg_w p) (cfg_h p) with
  | Some (sum, count) =>
      let luma := ae_avgLuma sum count in let target := cfg_targetLuma (mConfig p) in
      negb (count =? 0) && negb (in_band luma target (f_lit 85 100) (f_lit 115 100)) &&
      in_band luma target (f_lit 1 4) (f_of_Z 4)
  | None => false
  end.

Lemma ae_held rgb w :
  cfg_enableAE (mConfig (obj w)) = true → moderate (obj w) rgb = true → 0 < mAeHoldFrames (obj w) →
  doAutoExposure (Some rgb) w =
    Some ((), World ((obj w) <| mAeHoldFrames := mAeHoldFrames (obj w) - 1 |>) (hist w)).
Proof.
  intros Hae Hm Hh. unfold moderate in Hm. unfold cfg_w, cfg_h in Hm.
  unfold doAutoExposure, get, gets, mbind, ST_bind, lift. rewrite Hae. cbn [negb].
  destruct (ae_sample _ _ _) as [[sum count]|]; [|done]. zbool. cbn zeta in *.
  rewrite (proj2 (Z.eqb_neq count 0)) by done.
  repeat match goal with H : in_band _ _ _ _ = _ |- _ => rewrite H; clear H end.
  rewrite (proj2 (Z.gtb_lt _ _)) by lia. done.
Qed.

(** The auto-exposure step of one frame after the other. *)
Definition ae_frames (imgs : list (list Z)) : ST (world CameraPipeline) () :=
  forM imgs (λ rgb, doAutoExposure (Some rgb)).

(** After a change the exposure is held: as long as the hold counter
    lasts (six frames after every write), frames whose luma is off target but
    within a factor of four cause no control write and change neither the
    exposure nor the gain; each only counts the hold down. *)
Theorem ae_hold_keeps_exposure imgs w
  (Hae : cfg_enableAE (mConfig (obj w)) = true)
  (Himgs : Forall (λ rgb, moderate (obj w) rgb = true) imgs)
  (Hhold : blen imgs <= mAeHoldFrames (obj w)) :
  ae_frames imgs w =
    Some ((), World ((obj w) <| mAeHoldFrames := mAeHoldFrames (obj w) - blen imgs |>) (hist w)).
Proof.
  unfold ae_frames. destruct w as [p h]. cbn [obj hist] in *.
  revert p Hae Himgs Hhold. induction imgs as [|rgb imgs IH]; intros p Hae Himgs Hhold.
  - simpl. unfold blen. simpl. destruct p. cbn. by rewrite Z.sub_0_r.
  - apply Forall_cons in Himgs as [H1 H2]. unfold blen in *. simpl length in *. cbn [forM].
    unfold mbind at 1, ST_bind at 1. rewrite ae_held by (simpl; try done; lia).
    cbn [obj hist]. rewrite IH; [|done|done|simpl; lia].
    do 3 f_equal. unfold field_set. simpl. f_equal. lia.
Qed.
End Hold.

(** ** Pointwise stages *)

Section Colour.
Context `{!Kernel}.

(** Pixel [i] after white balance and colour matrix. *)
Definition ccm_px (m : list f32) (id : bool) (rG gG bG : f32) (rgb : list Z) (i : Z) : list Z :=
  default [] (wb_ccm_px m id rG gG bG (bget rgb (3 * i)) (bget rgb (3 * i + 1)) (bget rgb (3 * i + 2))).

Definition px_byte (px : Z → list Z) (j : Z) : option Z := ld (px (j / 3)) (j mod 3).

Lemma wb_ccm_px_len m id rG gG bG r g b px : wb_ccm_px m id rG gG bG r g b = Some px → blen px = 3 ∧ is_bytes px.
Proof.
  assert (∀ v z, to_byte v = Some z → is_byte z) as Hb.
  { intros v z. unfold to_byte, f_to_u8. intros (t & _ & E)%bind_Some_inv.
    case_bool_decide; [|done]. by injection E as <-. }
  unfold wb_ccm_px. intros ([[nr ng] nb] & _ & E)%bind_Some_inv. inv_bind.
  split; [done|]. apply Forall_cons; split; [eauto|]. apply Forall_cons; split; [eauto|].
  apply Forall_cons; split; [eauto|constructor].
Qed.

Lemma applyWbAndCcm_spec m rgb total rG gG bG id :
  ccm_identity m = Some id → 0 <= total → total * 3 <= INT_MAX → total * 3 <= blen rgb →
  (∀ i, 0 <= i < total → is_Some (wb_ccm_px m id rG gG bG
     (bget rgb (3 * i)) (bget rgb (3 * i + 1)) (bget rgb (3 * i + 2)))) →
  ∃ rgb', applyWbAndCcm m rgb total rG gG bG = Some rgb' ∧
    filled (px_byte (ccm_px m id rG gG bG rgb)) 0 (total * 3) rgb rgb'.
Proof.
  intros Hid Ht Hi Hl Hpx. unfold applyWbAndCcm. rewrite Hid. cbn [mbind option_bind].
  set (f := px_byte (ccm_px m id rG gG bG rgb)).
  edestruct (for_range_inv (λ n b, filled f 0 (3 * n) rgb b) 0 total 1) as (r & E & Hr);
    [lia|apply filled_0| |exists r; split; [exact E|]].
  2:{ rewrite range_end_unit in Hr by lia. by rewrite Z.mul_comm. }
  intros n b Hn _ Hf. simpl. rewrite ck32_Some by (unfold INT_MIN; lia).
  pose proof (filled_length _ _ _ _ _ Hf) as Hlen. cbn [mbind option_bind].
  assert (∀ k, 0 <= k < 3 → ld b (n * 3 + k) = Some (bget rgb (3 * n + k))) as Hk.
  { intros k ?. rewrite (filled_out _ _ _ _ _ _ Hf) by lia.
    rewrite <- ld_bget by lia. f_equal. lia. }
  pose proof (Hk 0 ltac:(lia)) as Hk0. rewrite !Z.add_0_r in Hk0.
  rewrite Hk0, !Hk by lia. cbn [mbind option_bind].
  destruct (Hpx n) as [px Epx]; [lia|]. rewrite Epx. cbn [mbind option_bind].
  destruct (wb_ccm_px_len _ _ _ _ _ _ _ _ _ Epx) as [Hp _].
  destruct (filled_stn f 0 (3 * n) rgb b px) as (b' & E & Hb'); [done|lia..| |].
  { intros k Hkk. unfold f, px_byte. destruct (px_index 3 n k) as [-> ->]; [lia|].
    unfold ccm_px. by rewrite Epx. }
  exists b'. replace (n * 3) with (0 + 3 * n) by lia. split; [exact E|].
  rewrite Hp in Hb'. by replace (3 * (n + 1)) with (3 * n + 3) by lia.
Qed.

Lemma gamma_lut_spec gamma lut : gamma_lut gamma = Some lut → blen lut = 256 ∧ is_bytes lut.
Proof.
  unfold gamma_lut. intros E. apply mapM_Some in E. split.
  - unfold blen. rewrite <- (Forall2_length _ _ _ E). reflexivity.
  - apply Forall_lookup_2. intros i v Hv.
    destruct (Forall2_lookup_r _ _ _ _ _ E Hv) as (j & _ & Ej). unfold gamma_entry, f_to_u8 in Ej.
    apply bind_Some_inv in Ej as (t & _ & Ej). case_bool_decide; [|done]. by injection Ej as <-.
Qed.

Lemma applyGamma_spec rgb w h gamma lut :
  gamma_lut gamma = Some lut → (∀ j, 0 <= j < w * h * 3 → is_byte (bget rgb j)) →
  0 <= w → 0 <= h → w * h * 3 <= INT_MAX → w * h * 3 <= blen rgb →
  ∃ rgb', applyGamma rgb w h gamma = Some rgb' ∧
    filled (λ j, Some (bget lut (bget rgb j))) 0 (w * h * 3) rgb rgb'.
Proof.
  intros Hlut Hb Hw Hh Hi Hl. destruct (gamma_lut_spec _ _ Hlut) as [Hll _].
  assert (0 <= w * h) by nia.
  unfold applyGamma. rewrite Hlut. cbn [mbind option_bind].
  rewrite (ck32_Some (w * h)) by (unfold INT_MIN; lia). cbn [mbind option_bind].
  rewrite ck32_Some by (unfold INT_MIN; lia). cbn [mbind option_bind].
  edestruct (for_range_inv (λ n b, filled (λ j, Some (bget lut (bget rgb j))) 0 n rgb b) 0 (w * h * 3) 1)
    as (r & E & Hr); [lia|apply filled_0| |exists r; split; [exact E|]].
  2:{ by rewrite range_end_unit in Hr by lia. }
  intros n b Hn _ Hf. simpl. rewrite (filled_out _ _ _ _ _ _ Hf), ld_bget by lia. cbn [mbind option_bind].
  pose proof (Hb n ltac:(lia)) as Hbn. unfold is_byte in Hbn. rewrite ld_bget by lia. cbn [mbind option_bind].
  eapply filled_st; [done|lia..| |lia]. done.
Qed.
End Colour.

(** ** Vertical flip *)

Lemma row_in R a r k : 0 <= k < R → a * R <= r * R + k < a * R + R ↔ r = a.
Proof. intros. split; [intros [? ?]; nia|intros ->; lia]. Qed.

Definition flipped (R h : Z) (b0 b : list Z) : Prop :=
  blen b = blen b0 ∧
  (∀ r k, 0 <= r < h → 0 <= k < R → ld b (r * R + k) = ld b0 ((h - 1 - r) * R + k)) ∧
  (∀ j, h * R <= j → ld b j = ld b0 j).

(** One swap. *)
Lemma swap_rows R h y (b : list Z) :
  0 <= R → 0 <= y < h - 1 - y → h * R <= blen b →
  ∃ b', (tmp ← ldn b (y * R) R; b1 ← copyn b (y * R) ((h - 1 - y) * R) R; stn b1 ((h - 1 - y) * R) tmp)
          = Some b' ∧ blen b' = blen b ∧
    ∀ j, ld b' j = if bool_decide ((h - 1 - y) * R <= j < (h - 1 - y) * R + R)
                   then ld b (y * R + (j - (h - 1 - y) * R))
                   else if bool_decide (y * R <= j < y * R + R)
                        then ld b ((h - 1 - y) * R + (j - y * R)) else ld b j.
Proof.
  intros HR Hy Hl. assert (0 <= y * R ∧ y * R + R <= (h - 1 - y) * R ∧ (h - 1 - y) * R + R <= h * R) as (? & ? & ?) by nia.
  destruct (ldn_defined b (y * R) R) as [tmp Et]; [lia..|]. rewrite Et. cbn [mbind option_bind].
  apply ldn_Some in Et as (Htl & _ & _ & Ht).
  destruct (copyn_spec b (y * R) ((h - 1 - y) * R) R) as (b1 & E1 & Hl1 & Hc1); [lia..|].
  rewrite E1. cbn [mbind option_bind].
  destruct (stn_defined b1 ((h - 1 - y) * R) tmp) as [b2 E2]; [lia..|].
  exists b2. split; [done|]. apply stn_spec in E2 as [Hl2 Hc2]. split; [lia|].
  intros j. rewrite Hc2, Htl. case_bool_decide; [apply Ht; lia|]. by rewrite Hc1.
Qed.

Lemma flipVertical_flips buf width height bpp :
  0 <= width → 0 <= height → 0 <= bpp → height * (width * bpp) <= INT_MAX → width * bpp <= INT_MAX →
  height * (width * bpp) <= blen buf →
  ∃ buf', flipVertical buf width height bpp = Some buf' ∧ flipped (width * bpp) height buf buf'.
Proof.
  intros Hw Hh Hbp Hi Hi1 Hl. set (R := width * bpp) in *. assert (0 <= R) as HR by (unfold R; nia).
  unfold flipVertical. fold R. rewrite ck32_Some by (unfold INT_MIN; lia).
  cbn [mbind option_bind].
  set (P := λ y (b : list Z), blen b = blen buf ∧
    (∀ r k, 0 <= r < height → 0 <= k < R →
       ld b (r * R + k) = ld buf ((if bool_decide (r < y ∨ height - 1 - r < y) then height - 1 - r else r) * R + k)) ∧
    (∀ j, height * R <= j → ld b j = ld buf j)).
  assert (Z.quot height 2 = height / 2) as Hq by (apply Z.quot_div_nonneg; lia).
  assert (0 <= height / 2 ∧ height - 1 <= 2 * (height / 2) <= height) as [Hh2 Hh3].
  { pose proof (Z.div_mod height 2 ltac:(lia)). pose proof (Z.mod_pos_bound height 2 ltac:(lia)). lia. }
  edestruct (for_range_inv P 0 (Z.quot height 2) 1) as (r & E & Hr); [lia| | |exists r; split; [exact E|]].
  { split_and!; [done| |done]. intros r k ? ?. by rewrite bool_decide_false by lia. }
  2:{ rewrite range_end_unit, Hq in Hr by lia. destruct Hr as (? & Hrow & ?). split_and!; [done| |done].
      intros r' k ? ?. rewrite Hrow by done. case_bool_decide; [done|]. do 3 f_equal. lia. }
  intros y b Hy _ (Hbl & Hrow & Hrest). rewrite Hq in Hy.
  assert (0 <= y * R <= INT_MAX ∧ 0 <= (height - 1 - y) * R <= INT_MAX) as [? ?] by nia.
  rewrite !ck32_Some by (unfold INT_MIN; lia). cbn [mbind option_bind].
  destruct (swap_rows R height y b) as (b' & E & Hl' & Hb'); [lia..|].
  exists b'. split; [exact E|]. split_and!; [lia| |].
  - intros r k Hr Hk. rewrite Hb'.
    rewrite (bool_decide_ext _ _ (row_in R (height - 1 - y) r k Hk)).
    rewrite (bool_decide_ext _ _ (row_in R y r k Hk)).
    case_bool_decide as Hd1; [|case_bool_decide as Hd2].
    + subst r. replace (y * R + _) with (y * R + k) by lia. rewrite Hrow by lia.
      rewrite bool_decide_false, bool_decide_true by lia. do 3 f_equal; lia.
    + subst r. replace ((height - 1 - y) * R + _) with ((height - 1 - y) * R + k) by lia. rewrite Hrow by lia.
      rewrite bool_decide_false, bool_decide_true by lia. done.
    + rewrite Hrow by lia. repeat case_bool_decide; try lia; done.
  - intros j Hj. rewrite Hb', !bool_decide_false by nia. by apply Hrest.
Qed.

(** Flipping an image upside down is in bounds, puts row [height-1-r] of
    the input in row [r], changes nothing after the image, and undoes itself
    when applied twice. *)
Theorem flipVertical_correct buf width height bpp
  (Hw : 0 <= width) (Hh : 0 <= height) (Hb : 0 <= bpp)
  (Hi : height * (width * bpp) <= INT_MAX) (Hr : width * bpp <= INT_MAX)
  (Hl : height * (width * bpp) <= blen buf) :
  ∃ buf', flipVertical buf width height bpp = Some buf' ∧ flipped (width * bpp) height buf buf' ∧
          flipVertical buf' width height bpp = Some buf.
Proof.
  destruct (flipVertical_flips buf width height bpp) as (b1 & E1 & Hf1); [done..|].
  exists b1. split_and!; [done..|]. destruct Hf1 as (Hl1 & Hr1 & Ho1).
  destruct (flipVertical_flips b1 width height bpp) as (b2 & E2 & Hl2 & Hr2 & Ho2); [rewrite ?Hl1; done..|].
  rewrite E2. f_equal. set (R := width * bpp) in *. apply ld_eq. intros j.
  destruct (decide (j < 0)); [by rewrite !ld_ge by lia|].
  destruct (decide (height * R <= j)); [rewrite Ho2, Ho1 by done; done|].
  assert (0 < R) by nia. pose proof (Z.div_mod j R ltac:(lia)) as Ej. pose proof (Z.mod_pos_bound j R ltac:(lia)).
  assert (0 <= j / R < height) by (split; [apply Z.div_pos; lia|apply Z.div_lt_upper_bound; lia]).
  replace j with (j / R * R + j mod R) by lia.
  rewrite Hr2, Hr1 by lia. do 3 f_equal; lia.
Qed.

Lemma flipVertical_correct_witness :
  ∃ b, flipVertical (zrange 0 27 1) 2 3 4 = Some b ∧ ld b 0 = Some 16 ∧ ld b 26 = Some 26.
Proof.
  destruct (flipVertical_correct (zrange 0 27 1) 2 3 4) as (b & E & (_ & Hr & Ho) & _);
    [vm_compute; done..|].
  exists b. split; [exact E|]. split.
  - etransitivity; [exact (Hr 0 0 ltac:(lia) ltac:(lia))|vm_compute; reflexivity].
  - rewrite Ho by lia. vm_compute. reflexivity.
Defined.

(** ** Instances *)

#[local] Existing Instance demo_kernel.

(** The object of the running session, and a dark image. *)
Definition demo_w : world CameraPipeline := demo_run demo_session.
Definition dark_image : list Z := replicate 144 50.

Lemma ae_writes_in_range_witness :
  ∃ w', doAutoExposure (Some dark_image) demo_w = Some ((), w') ∧ ae_within 2 demo_w w' ∧
        mCurrentExposure (obj w') = 1360.
Proof.
  assert (∃ w', doAutoExposure (Some dark_image) demo_w = Some ((), w') ∧
                mCurrentExposure (obj w') = 1360) as (w' & E & Hx).
  { eexists. split; vm_compute; reflexivity. }
  exists w'. split; [exact E|]. split; [|exact Hx].
  pose proof (ae_writes_in_range (Some dark_image) demo_w ltac:(vm_compute; done) ltac:(vm_compute; done)) as Hw.
  rewrite wlp_run in Hw. exact (Hw () w' E).
Defined.

(** A half-cycle of more lines than the sensor takes (a frame shorter than the
    half-cycle) is written as it is, beyond [mExpMax]. *)
Theorem ae_leaves_range :
  let w := World ((obj demo_w) <| mExposureStepLines := 3000 |> <| mMainHalfNs := 10000000 |>) (hist demo_w) in
  mExpMax (obj w) = 2500 ∧
  ∃ w', doAutoExposure (Some dark_image) w = Some ((), w') ∧ mCurrentExposure (obj w') = 3000.
Proof. split; [vm_compute; reflexivity|]. eexists. split; vm_compute; reflexivity. Qed.

(** Right after that write the counter is 6: two more dark frames. *)
Definition demo_w_held : world CameraPipeline :=
  match doAutoExposure (Some dark_image) demo_w with Some (_, w) => w | None => demo_w end.

Lemma ae_hold_keeps_exposure_witness :
  ae_frames [dark_image; dark_image] demo_w_held =
    Some ((), World ((obj demo_w_held) <| mAeHoldFrames := 4 |>) (hist demo_w_held)).
Proof.
  rewrite (ae_hold_keeps_exposure [dark_image; dark_image] demo_w_held).
  - vm_compute. reflexivity.
  - vm_compute. reflexivity.
  - repeat constructor.
  - vm_compute. congruence.
Defined.
