(* ===== verification/FrameSpec.v ===== *)
(** * A frame end to end

    The pixels [processBayerToYuv] leaves in an RGBA output buffer, as one
    formula over the raw Bayer frame: demosaic, the automatic exposure and white
    balance where they are on, gains and colour matrix, gamma, alpha, flip. *)

From S2P Require Import Prelude Monad Float32 Kernel Demosaic DemosaicSpec ColorConv Pipeline Isp PipelineInv PipelineSpec CaptureSpec IspSpec.

#[local] Open Scope Z_scope.

Section Frame.
Context `{!Kernel}.

(** The configuration a frame is processed under: the objects and buffers
    [configure] makes, a frame size that fits [int], nine matrix entries and a
    gamma whose table is defined. *)
Record frame_setup (p : CameraPipeline) (d : DemosaicNEON) (rgb0 : list Z) (id : bool)
    (lut : list Z) : Prop := {
  fs_demosaic : mDemosaic p = Some d;
  fs_ready : demosaic_ready d;
  fs_pattern : 0 <= dp_bayerPattern (mParams d) < 4;
  fs_colorconv : is_Some (mColorConv p);
  fs_rgb : mRgbBuffer p = Some rgb0;
  fs_rgb_bytes : is_bytes rgb0;
  fs_width : dp_width (mParams d) = cfg_width (mConfig p);
  fs_height : dp_height (mParams d) = cfg_height (mConfig p);
  fs_min : 3 <= cfg_width (mConfig p) ∧ 3 <= cfg_height (mConfig p);
  fs_fits : cfg_width (mConfig p) * cfg_height (mConfig p) * 4 <= INT_MAX;
  fs_rgb_len : cfg_width (mConfig p) * cfg_height (mConfig p) * 3 <= blen rgb0;
  fs_count : 0 <= dbgCount p < INT_MAX;
  fs_identity : ccm_identity (cfg_ccm (mConfig p)) = Some id;
  fs_lut : gamma_lut (cfg_gamma (mConfig p)) = Some lut;
}.

(** The automatic steps of a frame, as [processBayerToYuv] calls them. *)
Definition auto_3a (cfg : PipelineConfig) (rgb : list Z) : ST (world CameraPipeline) () :=
  when (cfg_enableAE cfg) (doAutoExposure (Some rgb));;
  when (cfg_enableAWB cfg) (doAutoWhiteBalance (Some rgb)).

(** The object with the demosaiced frame in its buffer. *)
Definition demosaiced_obj (p : CameraPipeline) (d : DemosaicNEON) (rgb : list Z) : CameraPipeline :=
  p <| mDemosaic := Some d |> <| mRgbBuffer := Some rgb |> <| dbgCount := dbgCount p + 1 |>.

(** The gains the colour stages read, with which every product has a byte
    (no float of the colour stages is a NaN). *)
Record frame_gains (p : CameraPipeline) (id : bool) (rG gG bG : f32) : Prop := {
  fg_gains : wb_gain p 0 = Some rG ∧ wb_gain p 1 = Some gG ∧ wb_gain p 2 = Some bG;
  fg_defined : ∀ r g b, is_byte r → is_byte g → is_byte b →
    is_Some (wb_ccm_px (cfg_ccm (mConfig p)) id rG gG bG r g b);
}.

(** The automatic steps leave the configuration, the objects and the buffer
    alone; all they say to the driver is control writes. *)
Definition isp_view (p : CameraPipeline) := (mConfig p, mDemosaic p, mColorConv p, mRgbBuffer p).

Lemma isp_s_ctrl fd i v : Keeps isp_view is_ctrl (io_s_ctrl fd i v).
Proof. apply Keeps_call. done. Qed.
#[local] Hint Resolve isp_s_ctrl : keeps.
Lemma isp_setExposure v : Keeps isp_view is_ctrl (setExposure v).
Proof. unfold setExposure. keeps. Qed.
Lemma isp_setGain v : Keeps isp_view is_ctrl (setGain v).
Proof. unfold setGain. keeps. Qed.
#[local] Hint Resolve isp_setExposure isp_setGain : keeps.
Lemma isp_auto_3a cfg rgb : Keeps isp_view is_ctrl (auto_3a cfg rgb).
Proof. unfold auto_3a, doAutoExposure, doAutoWhiteBalance, ae_apply. keeps. Qed.

(** The colour stages on one demosaiced pixel. *)
Definition colour_px (p : CameraPipeline) (id : bool) (rG gG bG : f32) (lut px : list Z) : list Z :=
  (bget lut <$> default [] (wb_ccm_px (cfg_ccm (mConfig p)) id rG gG bG (bget px 0) (bget px 1) (bget px 2)))
  ++ [255].

(** The demosaiced pixel at [(y, x)]. *)
Definition demosaiced (d : DemosaicNEON) (b8 rgb0 : list Z) (y x : Z) : list Z :=
  let w := dp_width (mParams d) in let h := dp_height (mParams d) in
  let y0 := clampi 1 (h - 2) y in let x0 := clampi 1 (w - 2) x in
  if bool_decide (x0 < row_cols w) then img_px b8 (mParams d) y0 x0
  else [bget rgb0 (px_addr 3 w y0 x0 0); bget rgb0 (px_addr 3 w y0 x0 1); bget rgb0 (px_addr 3 w y0 x0 2)].

Lemma bget_of_ld b i v : ld b i = Some v → bget b i = v.
Proof. intros E. unfold bget. by rewrite E. Qed.

Lemma clampi_bounds lo hi v : lo <= hi → lo <= clampi lo hi v <= hi.
Proof. unfold clampi. lia. Qed.

Lemma img_px_len b8 p y x : 0 <= dp_bayerPattern p < 4 → blen (img_px b8 p y x) = 3.
Proof.
  intros. unfold img_px. destruct (row_types_defined p y) as (ev & od & ->); [done|].
  unfold row_px, col0_ref, scalar_ref, ev_lane, od_lane. by repeat case_match.
Qed.

Lemma demosaiced_bytes d b8 rgb0 y x : is_bytes b8 → is_bytes rgb0 → is_bytes (demosaiced d b8 rgb0 y x).
Proof.
  intros. unfold demosaiced. case_bool_decide; [by apply img_px_bytes|].
  apply px3_bytes; by apply bget_byte.
Qed.

(** [process] in terms of [demosaiced]. *)
Lemma process_demosaiced p d rgb0 id lut bayer :
  frame_setup p d rgb0 id lut →
  2 * (cfg_width (mConfig p) * cfg_height (mConfig p)) <= blen bayer →
  ∃ d' rgb1 b8, process d bayer rgb0 = Some (d', rgb1) ∧ bayer8 d bayer b8 ∧
    blen rgb1 = blen rgb0 ∧
    ∀ y x k, 0 <= y < cfg_height (mConfig p) → 0 <= x < cfg_width (mConfig p) → 0 <= k < 3 →
      bget rgb1 (px_addr 3 (cfg_width (mConfig p)) y x k) = bget (demosaiced d b8 rgb0 y x) k.
Proof.
  intros [] Hbay. rewrite <- fs_width0, <- fs_height0 in *. destruct fs_min0 as [Hw Hh].
  destruct (process_total d bayer rgb0) as (d' & rgb1 & b8 & E & _ & _ & _ & Hb8 & H8 & Hl & Hpx); [done..|].
  exists d', rgb1, b8. split_and!; [done|by split|done|].
  intros y x k Hy Hx Hk. apply bget_of_ld. rewrite Hpx by done. cbn zeta. unfold demosaiced.
  set (y0 := clampi _ _ y). set (x0 := clampi _ _ x).
  case_bool_decide; [apply ld_bget; rewrite img_px_len by done; lia|].
  pose proof (clampi_bounds 1 (dp_height (mParams d) - 2) y ltac:(lia)).
  pose proof (clampi_bounds 1 (dp_width (mParams d) - 2) x ltac:(lia)).
  rewrite ld_bget; [|pose proof (px_addr_bounds 3 (dp_width (mParams d)) (dp_height (mParams d)) y0 x0 k); lia].
  f_equal. assert (k = 0 ∨ k = 1 ∨ k = 2) as [->|[->| ->]] by lia; done.
Qed.
(** White balance, matrix and gamma, in place: pixel [i] of the result. *)
Lemma colour_stages p rgb1 id rG gG bG lut Wd Hd :
  0 <= Wd → 0 <= Hd → Wd * Hd * 4 <= INT_MAX → Wd * Hd * 3 <= blen rgb1 →
  (∀ j, 0 <= j < Wd * Hd * 3 → is_byte (bget rgb1 j)) →
  ccm_identity (cfg_ccm (mConfig p)) = Some id → gamma_lut (cfg_gamma (mConfig p)) = Some lut →
  (∀ r g b, is_byte r → is_byte g → is_byte b →
    is_Some (wb_ccm_px (cfg_ccm (mConfig p)) id rG gG bG r g b)) →
  ∃ rgb2 rgb3, applyWbAndCcm (cfg_ccm (mConfig p)) rgb1 (Wd * Hd) rG gG bG = Some rgb2 ∧
    applyGamma rgb2 Wd Hd (cfg_gamma (mConfig p)) = Some rgb3 ∧ blen rgb3 = blen rgb1 ∧
    ∀ i, 0 <= i < Wd * Hd →
      opaque_px rgb3 i =
      colour_px p id rG gG bG lut [bget rgb1 (3 * i); bget rgb1 (3 * i + 1); bget rgb1 (3 * i + 2)].
Proof.
  intros HW HH Hfit Hl Hby Hid Hlut Hccm. assert (0 <= Wd * Hd) as H0 by nia.
  destruct (applyWbAndCcm_spec (cfg_ccm (mConfig p)) rgb1 (Wd * Hd) rG gG bG id) as (rgb2 & E2 & Hf2);
    [done|lia..| |].
  { intros i ?. apply Hccm; apply Hby; lia. }
  assert (∀ i, 0 <= i < Wd * Hd → ∃ r g b,
    wb_ccm_px (cfg_ccm (mConfig p)) id rG gG bG (bget rgb1 (3 * i)) (bget rgb1 (3 * i + 1)) (bget rgb1 (3 * i + 2))
      = Some [r; g; b] ∧ is_bytes [r; g; b] ∧
    ∀ k, 0 <= k < 3 → bget rgb2 (3 * i + k) = bget [r; g; b] k) as Hpx.
  { intros i ?. destruct (Hccm (bget rgb1 (3 * i)) (bget rgb1 (3 * i + 1)) (bget rgb1 (3 * i + 2))) as [px Epx];
      [apply Hby; lia..|].
    pose proof (wb_ccm_px_len _ _ _ _ _ _ _ _ _ Epx) as [Hpl Hpb].
    destruct px as [|r [|g [|b [|]]]]; try (unfold blen in Hpl; simpl in Hpl; lia).
    exists r, g, b. split_and!; [done..|]. intros k ?. unfold bget at 1.
    pose proof (filled_in _ _ _ _ _ (3 * i + k) Hf2 ltac:(lia)) as E. rewrite Z.add_0_l in E.
    rewrite E. unfold px_byte. destruct (px_index 3 i k) as [-> ->]; [lia|].
    unfold ccm_px. by rewrite Epx. }
  pose proof (filled_length _ _ _ _ _ Hf2) as Hl2.
  destruct (applyGamma_spec rgb2 Wd Hd (cfg_gamma (mConfig p)) lut) as (rgb3 & E3 & Hf3); [done| |lia..|].
  { intros j Hj. pose proof (Z.div_mod j 3 ltac:(lia)). pose proof (Z.mod_pos_bound j 3 ltac:(lia)).
    destruct (Hpx (j / 3)) as (r & g & b & _ & Hb & Hk); [lia|].
    replace j with (3 * (j / 3) + j mod 3) by lia. rewrite Hk by lia. by apply bget_byte. }
  exists rgb2, rgb3. split_and!; [done..|rewrite (filled_length _ _ _ _ _ Hf3); lia|].
  intros i Hi. destruct (Hpx i Hi) as (r & g & b & Epx & _ & Hk). unfold colour_px, opaque_px.
  change (bget [?a; ?b; ?c] 0) with a. change (bget [?a; ?b; ?c] 1) with b. change (bget [?a; ?b; ?c] 2) with c.
  rewrite Epx. simpl.
  assert (∀ k, 0 <= k < 3 → bget rgb3 (i * 3 + k) = bget lut (bget [r; g; b] k)) as Hg.
  { intros k ?. unfold bget at 1. pose proof (filled_in _ _ _ _ _ (i * 3 + k) Hf3 ltac:(lia)) as E.
    rewrite Z.add_0_l in E. rewrite E. simpl. rewrite <- Hk by done. do 2 f_equal. lia. }
  rewrite <- (Z.add_0_r (i * 3)) at 1. rewrite !Hg by lia. done.
Qed.

(** The RGBA output and the flip. *)
Lemma write_rgba p c rgb3 out Wd Hd :
  cfg_width (mConfig p) = Wd → cfg_height (mConfig p) = Hd → 3 <= Wd → 3 <= Hd → Wd * Hd * 4 <= INT_MAX →
  Wd * Hd * 3 <= blen rgb3 → Wd * Hd * 4 <= blen out →
  ∃ out', write_output p c rgb3 out HAL_PIXEL_FORMAT_RGBA_8888 = Some out' ∧ blen out' = blen out ∧
    ∀ y x k, 0 <= y < Hd → 0 <= x < Wd → 0 <= k < 4 →
      ld out' (px_addr 4 Wd (if cfg_flipV (mConfig p) then Hd - 1 - y else y) x k) =
      ld (opaque_px rgb3 (y * Wd + x)) k.
Proof.
  intros EW EH HW HH Hfit Hl Ho. unfold write_output. rewrite EW, EH.
  change (HAL_PIXEL_FORMAT_RGBA_8888 =? HAL_PIXEL_FORMAT_YCBCR_420_888) with false. cbn [orb].
  change (HAL_PIXEL_FORMAT_RGBA_8888 =? HAL_PIXEL_FORMAT_RGBA_8888) with true. cbn [orb].
  unfold INT_MAX in *. assert (Wd <= 2 ^ 30 ∧ Hd <= 2 ^ 30) as [? ?] by nia.
  destruct (rgbToRgba_total rgb3 out Wd Hd) as (o1 & E1 & Hl1 & Hpx); [lia..|].
  rewrite E1. cbn [mbind option_bind]. rewrite !i32_id by lia.
  assert (∀ y x k, 0 <= y < Hd → 0 <= x < Wd → 0 <= k < 4 →
    ld o1 (px_addr 4 Wd y x k) = ld (opaque_px rgb3 (y * Wd + x)) k) as Hpx1.
  { intros y x k ? ? ?. unfold px_addr. rewrite Hpx by nia. by rewrite bool_decide_true by nia. }
  destruct (cfg_flipV (mConfig p)).
  - destruct (flipVertical_flips o1 Wd Hd 4) as (o2 & E2 & Hl2 & Hr & _); [unfold INT_MAX; nia..|].
    exists o2. split_and!; [done|lia|]. intros y x k ? ? ?.
    replace (px_addr 4 Wd (Hd - 1 - y) x k) with ((Hd - 1 - y) * (Wd * 4) + (x * 4 + k)) by (unfold px_addr; lia).
    rewrite Hr by lia. replace (Hd - 1 - (Hd - 1 - y)) with y by lia.
    rewrite <- Hpx1 by done. f_equal. unfold px_addr. lia.
  - exists o1. split_and!; [done..|]. intros. by apply Hpx1.
Qed.

Lemma post_demosaic_stats_defined rgb total :
  total * 3 <= blen rgb → post_demosaic_stats rgb total = Some ().
Proof.
  intros Hl. unfold post_demosaic_stats.
  edestruct (for_range_inv (λ _ (u : ()), True) 0 total 100) as ([] & E & _); [lia|done| |exact E].
  intros i [] Hi _ _. rewrite !ld_bget by lia. simpl. eauto.
Qed.

(** What [processBayerToYuv] does after the automatic steps: the colour stages
    in place, the output conversion and the flip. *)
Definition colour_output (c : ColorConvNEON) (total : Z) (out : list Z) (fmt : Z)
  : ST (world CameraPipeline) (Z * list Z) :=
  p ← get;
  rG ← lift (wb_gain p 0); gG ← lift (wb_gain p 1); bG ← lift (wb_gain p 2);
  rgb ← lift (mRgbBuffer p);
  rgb ← lift (applyWbAndCcm (cfg_ccm (mConfig p)) rgb total rG gG bG);
  rgb ← lift (applyGamma rgb (i32 (cfg_width (mConfig p))) (i32 (cfg_height (mConfig p)))
                (cfg_gamma (mConfig p)));
  set_rgb rgb;;
  output ← lift (write_output p c rgb out fmt);
  mret (0, output).

Lemma processBayer_split w d rgb0 id lut c bayer out fmt d' rgb1 :
  let p := obj w in
  frame_setup p d rgb0 id lut → mColorConv p = Some c →
  process d bayer rgb0 = Some (d', rgb1) → blen rgb1 = blen rgb0 →
  processBayerToYuv (Some bayer) out fmt w =
  (auto_3a (mConfig p) rgb1;; colour_output c (cfg_width (mConfig p) * cfg_height (mConfig p)) out fmt)
    (World (demosaiced_obj p d' rgb1) (hist w)).
Proof.
  intros p [] Hc E1 Hl. unfold INT_MAX in *.
  assert (0 <= cfg_width (mConfig p) * cfg_height (mConfig p)) by nia.
  unfold processBayerToYuv, auto_3a, get, gets, mbind, ST_bind, lift, set_rgb, upd, modify, mret, ST_ret.
  fold p. rewrite fs_demosaic0, Hc, fs_rgb0, E1. cbn -[post_demosaic_stats]. fold p.
  rewrite ck32_Some by (unfold INT_MIN, INT_MAX; lia). cbn -[post_demosaic_stats].
  rewrite u32_id, i32_id by lia.
  change (p <| mDemosaic := _ |> <| mRgbBuffer := _ |> <| dbgCount := _ |>) with (demosaiced_obj p d' rgb1).
  rewrite post_demosaic_stats_defined by lia.
  unfold when at 1. unfold mret, ST_ret.
  assert (∀ (b : bool) (s : world CameraPipeline),
    (if b then λ s, Some ((), s) else λ s, Some ((), s)) s = Some ((), s)) as Hif by (by intros []).
  rewrite Hif. cbv beta iota.
  destruct (when _ (doAutoExposure _) _) as [[[] w2]|]; [|done].
  destruct (when _ (doAutoWhiteBalance _) _) as [[[] w3]|]; done.
Qed.

(** The demosaiced buffer, and the pixels of the output computed from it. *)
Definition demosaic_done (p : CameraPipeline) (d : DemosaicNEON) (b8 rgb0 rgb1 : list Z) : Prop :=
  ∀ y x k, 0 <= y < cfg_height (mConfig p) → 0 <= x < cfg_width (mConfig p) → 0 <= k < 3 →
    bget rgb1 (px_addr 3 (cfg_width (mConfig p)) y x k) = bget (demosaiced d b8 rgb0 y x) k.

Lemma demosaic_done_bytes p d b8 rgb0 rgb1 (Wd := cfg_width (mConfig p)) (Hd := cfg_height (mConfig p)) :
  3 <= Wd → 3 <= Hd → is_bytes b8 → is_bytes rgb0 → demosaic_done p d b8 rgb0 rgb1 →
  ∀ j, 0 <= j < Wd * Hd * 3 → is_byte (bget rgb1 j).
Proof.
  intros HW HH H8 H0 Hpx j Hj. pose proof (Z.div_mod j 3 ltac:(lia)). pose proof (Z.mod_pos_bound j 3 ltac:(lia)).
  pose proof (Z.div_mod (j / 3) Wd ltac:(lia)). pose proof (Z.mod_pos_bound (j / 3) Wd ltac:(lia)).
  assert (0 <= j / 3 < Wd * Hd) by lia.
  assert (0 <= j / 3 / Wd < Hd) by (split; [apply Z.div_pos; lia|apply Z.div_lt_upper_bound; lia]).
  replace j with (px_addr 3 Wd (j / 3 / Wd) (j / 3 mod Wd) (j mod 3)) by (unfold px_addr; lia).
  unfold demosaic_done in Hpx. fold Wd Hd in Hpx. rewrite Hpx by lia. by apply bget_byte, demosaiced_bytes.
Qed.

(** The colour stages and the output of a demosaiced frame. *)
Lemma colour_output_pixels w2 d b8 rgb0 rgb1 c out id rG gG bG lut :
  let p := obj w2 in let Wd := cfg_width (mConfig p) in let Hd := cfg_height (mConfig p) in
  3 <= Wd → 3 <= Hd → Wd * Hd * 4 <= INT_MAX → Wd * Hd * 3 <= blen rgb1 → Wd * Hd * 4 <= blen out →
  is_bytes b8 → is_bytes rgb0 → mRgbBuffer p = Some rgb1 → demosaic_done p d b8 rgb0 rgb1 →
  ccm_identity (cfg_ccm (mConfig p)) = Some id → gamma_lut (cfg_gamma (mConfig p)) = Some lut →
  frame_gains p id rG gG bG →
  ∃ w' out', colour_output c (Wd * Hd) out HAL_PIXEL_FORMAT_RGBA_8888 w2 = Some ((0, out'), w') ∧
    hist w' = hist w2 ∧ blen out' = blen out ∧
    ∀ y x k, 0 <= y < Hd → 0 <= x < Wd → 0 <= k < 4 →
      ld out' (px_addr 4 Wd (if cfg_flipV (mConfig p) then Hd - 1 - y else y) x k) =
      ld (colour_px p id rG gG bG lut (demosaiced d b8 rgb0 y x)) k.
Proof.
  intros p Wd Hd HW HH Hfit Hl Ho H8 H0 Hrgb Hpx Hid Hlut [(G0 & G1 & G2) Hccm].
  pose proof (demosaic_done_bytes _ _ _ _ _ HW HH H8 H0 Hpx) as Hby.
  destruct (colour_stages p rgb1 id rG gG bG lut Wd Hd) as (rgb2 & rgb3 & E2 & E3 & Hl3 & Hcol); [lia..|done|done|done|done|].
  destruct (write_rgba p c rgb3 out Wd Hd) as (out' & E4 & Hlo & Hpo); [done|done|lia..|].
  exists (World (p <| mRgbBuffer := Some rgb3 |>) (hist w2)), out'. unfold INT_MAX in *.
  split; [|split_and!; [done..|]].
  - unfold colour_output, get, gets, mbind, ST_bind, lift, set_rgb, upd, modify, mret, ST_ret.
    fold p Wd Hd. rewrite G0, G1, G2, Hrgb. cbv iota beta. rewrite E2.
    rewrite !i32_id by nia. rewrite E3. cbv iota beta. by rewrite E4.
  - intros y x k ? ? ?. rewrite Hpo by done. rewrite Hcol by nia. f_equal. unfold colour_px.
    assert (∀ k, 0 <= k < 3 → bget rgb1 (3 * (y * Wd + x) + k) = bget (demosaiced d b8 rgb0 y x) k) as Hk.
    { intros k' ?. rewrite <- Hpx by done. f_equal. unfold px_addr. fold Wd. lia. }
    pose proof (Hk 0 ltac:(lia)) as Hk0. rewrite Z.add_0_r in Hk0. by rewrite Hk0, !Hk by lia.
Qed.

(** C9: end to end, with the automatic steps as configured (the HAL runs both).
    A raw frame is demosaiced into the pipeline's buffer, each pixel as
    [demosaiced] says (with an even width the last two columns hold what the
    buffer held before: the previous frame).  Then the automatic exposure and
    white balance see that buffer.  Where they are undefined (overflow in the
    exposure arithmetic) so is the call; otherwise they only write controls and
    leave gains behind, and provided no product with these gains is a NaN the
    call returns 0, talks to the driver no further, and every RGBA pixel (rows
    flipped when the sensor is mounted upside down) is the demosaiced pixel
    times these gains, through the colour matrix, clamping and gamma, with
    alpha 255. *)
Theorem frame_pixels w d rgb0 id lut bayer out
  (Hsetup : frame_setup (obj w) d rgb0 id lut)
  (Hbayer : 2 * (cfg_width (mConfig (obj w)) * cfg_height (mConfig (obj w))) <= blen bayer)
  (Hout : cfg_width (mConfig (obj w)) * cfg_height (mConfig (obj w)) * 4 <= blen out) :
  let p := obj w in let Wd := cfg_width (mConfig p) in let Hd := cfg_height (mConfig p) in
  ∃ d' rgb1 b8, process d bayer rgb0 = Some (d', rgb1) ∧ bayer8 d bayer b8 ∧
    demosaic_done p d b8 rgb0 rgb1 ∧
    match auto_3a (mConfig p) rgb1 (World (demosaiced_obj p d' rgb1) (hist w)) with
    | None => processBayerToYuv (Some bayer) out HAL_PIXEL_FORMAT_RGBA_8888 w = None
    | Some (_, w2) =>
        (∃ evs, hist w2 = evs ++ hist w ∧ Forall is_ctrl evs) ∧
        ∀ rG gG bG, frame_gains (obj w2) id rG gG bG →
        ∃ w' out',
          processBayerToYuv (Some bayer) out HAL_PIXEL_FORMAT_RGBA_8888 w = Some ((0, out'), w') ∧
          hist w' = hist w2 ∧ blen out' = blen out ∧
          ∀ y x k, 0 <= y < Hd → 0 <= x < Wd → 0 <= k < 4 →
            ld out' (px_addr 4 Wd (if cfg_flipV (mConfig p) then Hd - 1 - y else y) x k) =
            ld (colour_px p id rG gG bG lut (demosaiced d b8 rgb0 y x)) k
    end.
Proof.
  intros p Wd Hd. destruct (process_demosaiced _ _ _ _ _ bayer Hsetup Hbayer) as (d' & rgb1 & b8 & E1 & H8 & Hl1 & Hpx).
  destruct (fs_colorconv _ _ _ _ _ Hsetup) as [c Hc]. pose proof (fs_min _ _ _ _ _ Hsetup) as [HW HH].
  exists d', rgb1, b8. split; [done|]. split; [done|]. split; [done|].
  rewrite (processBayer_split w d rgb0 id lut c bayer out _ d' rgb1 Hsetup Hc E1 Hl1).
  pose proof (isp_auto_3a (mConfig p) rgb1 (World (demosaiced_obj p d' rgb1) (hist w))) as Hk.
  unfold wlp in Hk. fold p. unfold mbind, ST_bind.
  destruct (auto_3a _ _ _) as [[[] w2]|]; [|done]. destruct Hk as [Ev Hev]. split; [exact Hev|].
  intros rG gG bG Hg. change (obj (World ?a ?b)) with a in Ev. injection Ev as Ecfg _ _ Ergb.
  destruct (colour_output_pixels w2 d b8 rgb0 rgb1 c out id rG gG bG lut)
    as (w' & out' & E & Hh & Hlo & Hpo); rewrite ?Ecfg; try apply Hsetup; try done.
  - rewrite Hl1. apply Hsetup.
  - apply H8.
  - intros y x k. unfold demosaic_done in Hpx. rewrite Ecfg. apply Hpx.
  - rewrite Ecfg in *. exists w', out'. split_and!; [done..|]. intros y x k ? ? ?.
    unfold colour_px in *. rewrite Ecfg in Hpo. by apply Hpo.
Qed.
End Frame.

(** ** Instance: a 12 x 4 frame under the HAL's settings, both automatic
    steps on *)

Lemma bytes_all (f : Z → bool) :
  forallb f (zrange 0 256 1) = true → ∀ v, is_byte v → f v = true.
Proof.
  intros Hf v Hv. rewrite forallb_forall in Hf. apply Hf. apply list_elem_of_In.
  apply elem_of_zrange; [lia|]. exists v. unfold is_byte in Hv. lia.
Qed.

#[local] Existing Instance demo_kernel.

Definition auto_config : PipelineConfig := {|
  cfg_width := 12; cfg_height := 4; cfg_pixelFormat := 0; cfg_bayerPattern := 0;
  cfg_offset_x := 0; cfg_offset_y := 0; cfg_flipV := true; cfg_enableISP := true;
  cfg_blackLevel := 16; cfg_whiteLevel := 255;
  cfg_wbGain := cfg_wbGain demo_config; cfg_ccm := cfg_ccm demo_config;
  cfg_gamma := f_lit 4545 10000; cfg_enableAE := true; cfg_enableAWB := true;
  cfg_targetLuma := f_lit 42 100; cfg_digitalGain := f_of_Z 1 |}.

Definition auto_w : world CameraPipeline := demo_run [OpOpen 0; OpConfigure auto_config; OpStart].
Definition dark_frame : list Z := replicate 96 0.

Lemma auto_setup :
  frame_setup (obj auto_w) (default DemosaicNEON_new (mDemosaic (obj auto_w))) (replicate 144 0) true
    (zrange 0 256 1).
Proof.
  split; try (vm_compute; done).
  - split_and!; [vm_compute; done..|]. exists (replicate 128 0).
    split_and!; [vm_compute; reflexivity|by apply Forall_replicate|vm_compute; done..].
  - vm_compute. eauto.
  - by apply Forall_replicate.
Qed.

Lemma unit_gains p :
  wb_gain p 0 = Some (f_of_Z 1) → wb_gain p 1 = Some (f_of_Z 1) → wb_gain p 2 = Some (f_of_Z 1) →
  frame_gains p true (f_of_Z 1) (f_of_Z 1) (f_of_Z 1).
Proof.
  intros H0 H1 H2. split; [done|]. intros r g b Hr Hg Hb.
  assert (∀ v, is_byte v → to_byte (fmul (f_of_Z v) (f_of_Z 1)) = Some v) as Hv.
  { intros v Hv.
    assert (bool_decide (to_byte (fmul (f_of_Z v) (f_of_Z 1)) = Some v) = true) as E.
    { revert v Hv. apply bytes_all. vm_compute. reflexivity. }
    by apply bool_decide_eq_true in E. }
  unfold wb_ccm_px. cbn [mbind option_bind]. rewrite !Hv by done. simpl. eauto.
Qed.

Lemma some_pair_inj {A B} (a c : A) (b d : B) : Some (a, b) = Some (c, d) → a = c ∧ b = d.
Proof. by intros [= -> ->]. Qed.

Definition dark_demosaiced : DemosaicNEON * list Z :=
  default (DemosaicNEON_new, [])
    (process (default DemosaicNEON_new (mDemosaic (obj auto_w))) dark_frame (replicate 144 0)).

(** The automatic exposure sees a black image and raises the exposure. *)
Definition auto_w2 : world CameraPipeline :=
  match auto_3a (mConfig (obj auto_w)) dark_demosaiced.2
          (World (demosaiced_obj (obj auto_w) dark_demosaiced.1 dark_demosaiced.2) (hist auto_w)) with
  | Some (_, w) => w | None => auto_w
  end.

Lemma dark_process :
  process (default DemosaicNEON_new (mDemosaic (obj auto_w))) dark_frame (replicate 144 0)
  = Some (dark_demosaiced.1, dark_demosaiced.2).
Proof. vm_compute. reflexivity. Qed.

Lemma dark_auto :
  auto_3a (mConfig (obj auto_w)) dark_demosaiced.2
    (World (demosaiced_obj (obj auto_w) dark_demosaiced.1 dark_demosaiced.2) (hist auto_w))
  = Some ((), auto_w2).
Proof. vm_compute. reflexivity. Qed.

Lemma dark_gains : frame_gains (obj auto_w2) true (f_of_Z 1) (f_of_Z 1) (f_of_Z 1).
Proof. apply unit_gains; vm_compute; reflexivity. Qed.

Lemma frame_pixels_witness :
  ∃ w' out', processBayerToYuv (Some dark_frame) (replicate 192 0) HAL_PIXEL_FORMAT_RGBA_8888 auto_w
      = Some ((0, out'), w') ∧ blen out' = 192 ∧ hist w' = hist auto_w2 ∧
        mCurrentExposure (obj auto_w) < mCurrentExposure (obj auto_w2).
Proof.
  destruct (frame_pixels auto_w _ _ _ _ dark_frame (replicate 192 0) auto_setup)
    as (d' & rgb1 & b8 & E & _ & _ & Hm); [vm_compute; congruence..|].
  rewrite dark_process in E. apply some_pair_inj in E as [<- <-]. rewrite dark_auto in Hm.
  destruct Hm as [_ Hm].
  destruct (Hm _ _ _ dark_gains) as (w' & out' & Ep & Hh & Hl & _).
  exists w', out'. split; [exact Ep|]. split; [exact Hl|]. split; [exact Hh|].
  vm_compute. reflexivity.
Defined.
