(* ===== verification/AutoFocusSpec.v ===== *)
(** * What auto focus guarantees

    The unrolled sharpness metric equals the plain one, the scan metric is
    safe and ignores flat and clipped scenes, a scan moves the lens only
    within its working range with the exposure frozen, and the final decision
    is the comparison of the best measurement with the median. *)

From S2P Require Import Prelude Monad Float32 Kernel Demosaic DemosaicSpec ColorConv Pipeline Isp Capture AutoFocus Medians PipelineInv PipelineSpec.
From stdpp Require Import sorting.

#[local] Open Scope Z_scope.

(** ** The unrolled Sobel metric *)

Lemma ck32_inv a z : ck32 a = Some z → z = a.
Proof. unfold ck32. case_bool_decide; [by intros [= <-]|done]. Qed.

Lemma foldM_ext_inv {A B} (P : B → Prop) (f g : B → A → option B) l acc :
  (∀ x y, P y → f y x = g y x) → (∀ x y y', P y → g y x = Some y' → P y') → P acc →
  foldM f l acc = foldM g l acc.
Proof.
  intros He Hp. revert acc. induction l as [|x l IH]; intros acc Ha; simpl; [done|].
  rewrite He by done. destruct (g acc x) eqn:E; simpl; [|done]. apply IH. by eapply Hp.
Qed.

Lemma foldM_preserves {A B} (P : B → Prop) (f : B → A → option B) l acc r :
  (∀ x y y', P y → f y x = Some y' → P y') → P acc → foldM f l acc = Some r → P r.
Proof. intros Hp Ha. by apply (foldM_inv (λ _, P)); [|intros; eapply Hp]. Qed.

Lemma abs_diff_nonneg rgb row a b g : abs_diff rgb row a b = Some g → 0 <= g.
Proof. unfold abs_diff. intros. inv_bind. lia. Qed.

Section Sobel.
Context (rgb : list Z) (row w : Z).

Definition sobel_step (total x : Z) : option Z := g ← abs_diff rgb row (x + 1) (x - 1); ck32 (total + g).
Definition chunk_step (total x : Z) : option Z := g ← sobel_chunk rgb row x; ck32 (total + g).

Lemma sobel_step_nonneg x t t' : 0 <= t → sobel_step t x = Some t' → 0 <= t'.
Proof.
  unfold sobel_step. intros ? (g & Hg%abs_diff_nonneg & ->%ck32_inv)%bind_Some_inv. lia.
Qed.

Lemma chunk_eq t x : 0 <= t →
  foldM sobel_step [x; x + 1; x + 2; x + 3; x + 4; x + 5; x + 6; x + 7] t = chunk_step t x.
Proof.
  intros Ht. unfold chunk_step, sobel_chunk, sobel_step. cbn [foldM].
  replace (x + 1 - 1) with (x + 0) by lia. replace (x + 1 + 1) with (x + 2) by lia.
  replace (x + 2 - 1) with (x + 1) by lia. replace (x + 2 + 1) with (x + 3) by lia.
  replace (x + 3 - 1) with (x + 2) by lia. replace (x + 3 + 1) with (x + 4) by lia.
  replace (x + 4 - 1) with (x + 3) by lia. replace (x + 4 + 1) with (x + 5) by lia.
  replace (x + 5 - 1) with (x + 4) by lia. replace (x + 5 + 1) with (x + 6) by lia.
  replace (x + 6 - 1) with (x + 5) by lia. replace (x + 6 + 1) with (x + 7) by lia.
  replace (x + 7 - 1) with (x + 6) by lia. replace (x + 7 + 1) with (x + 8) by lia.
  repeat match goal with
  | |- context [abs_diff rgb row ?a ?b] =>
      let g := fresh "g" in let E := fresh "E" in
      destruct (abs_diff rgb row a b) as [g|] eqn:E;
      [apply abs_diff_nonneg in E|cbn [mbind option_bind]; repeat (destruct (ck32 _); cbn [mbind option_bind]); done]
  end.
  cbn [mbind option_bind].
  unfold ck32. unfold INT_MIN, INT_MAX.
  repeat (case_bool_decide; cbn [mbind option_bind]; try done; try lia). f_equal. lia.
Qed.

(** A row, in chunks of eight and a remainder. *)
Lemma sobel_row a t : 0 <= t →
  foldM sobel_step (zrange a (w - 1) 1) t =
  (t' ← foldM chunk_step (zrange a (w - 9) 8) t;
   foldM sobel_step (zrange (range_end a (w - 9) 8) (w - 1) 1) t').
Proof.
  revert a t. refine (zrange_ind (w - 9) 8 _ _ _ _); [lia|..].
  - intros a ? t Ht. rewrite (zrange_nil a (w - 9)), range_end_done by lia. done.
  - intros a ? IH t Ht. rewrite (zrange_cons a (w - 9)), range_end_step by lia. cbn [foldM].
    assert (zrange a (w - 1) 1 =
      [a; a + 1; a + 2; a + 3; a + 4; a + 5; a + 6; a + 7] ++ zrange (a + 8) (w - 1) 1) as ->.
    { do 8 (rewrite zrange_cons by lia). cbn [app].
      f_equal. do 7 (first [f_equal; [lia|]|f_equal]). f_equal; lia. }
    rewrite foldM_app, chunk_eq by done. destruct (chunk_step t a) as [t'|] eqn:E; [|done]. cbn [mbind option_bind].
    apply IH. rewrite <- chunk_eq in E by done.
    eapply (foldM_preserves (λ t, 0 <= t)); [|exact Ht|exact E]. intros ? ? ?. apply sobel_step_nonneg.
Qed.
End Sobel.

(** C38: the loop that measures eight columns at a time computes the same
    energy as the plain loop, for every buffer and every size: the same
    result, and undefined (a read outside the buffer, an overflowing sum) in
    exactly the same cases. *)
Theorem sobelEnergyNw_eq rgb w h : sobelEnergyNw rgb w h = sobelEnergy rgb w h.
Proof.
  destruct rgb as [rgb|]; [|done]. unfold sobelEnergyNw, sobelEnergy.
  destruct ((w <? 3) || (h <? 3)); [done|]. unfold for_range.
  apply (foldM_ext_inv (λ t, 0 <= t)); [|intros y t t' Ht E|done].
  - intros y t Ht. symmetry. exact (sobel_row rgb (y * (w * 3)) w 1 t Ht).
  - eapply (foldM_preserves (λ t, 0 <= t)); [|exact Ht|exact E].
    intros x u u' Hu. exact (sobel_step_nonneg rgb (y * (w * 3)) x u u' Hu).
Qed.

(** ** The scan metric *)

(** Green sample of pixel [(y, x)]. *)
Definition green_at (rgb : list Z) (w y x : Z) : Z := bget rgb (3 * (y * w + x) + 1).

Definition flat (rgb : list Z) (w h : Z) : Prop :=
  ∃ c, ∀ y x, 0 <= y < h → 0 <= x < w → green_at rgb w y x = c.
Definition clipped_out (rgb : list Z) (w h : Z) : Prop :=
  ∀ y x, 0 <= y < h → 0 <= x < w → green_at rgb w y x <= 6 ∨ 250 <= green_at rgb w y x.

Definition sharp_inv (rgb : list Z) (w h : Z) (acc : Z * Z * Z) : Prop :=
  let '(total, valid, _) := acc in
  0 <= total ∧ 0 <= valid ∧ (flat rgb w h → total = 0) ∧ (clipped_out rgb w h → valid = 0).

Lemma green_ld rgb w h y x : 0 <= y < h → 0 <= x < w → w * h * 3 <= blen rgb →
  ∀ i, i = 3 * (y * w + x) + 1 → ld rgb i = Some (green_at rgb w y x).
Proof.
  intros ? ? Hl i ->. apply ld_bget. assert (0 <= y * w + x < w * h) by nia. lia.
Qed.

Lemma sharp_step rgb w h y x total valid clipped :
  1 <= y < h - 1 → 1 <= x < w - 1 → w * h * 3 <= blen rgb → sharp_inv rgb w h (total, valid, clipped) →
  let row := y * (w * 3) in let up := row - w * 3 in let dn := row + w * 3 in let i := x * 3 + 1 in
  ∃ acc', (c ← ld rgb (row + i);
     if (c >=? 250) || (c <=? 6) then Some (total, valid, clipped + 1) else
     r ← ld rgb (row + (i + 3)); l ← ld rgb (row + (i - 3));
     d ← ld rgb (dn + i); u ← ld rgb (up + i);
     Some (total + (Z.abs (r - l) + Z.abs (d - u)), valid + 1, clipped)) = Some acc' ∧ sharp_inv rgb w h acc'.
Proof.
  intros Hy Hx Hl (Ht & Hv & Hf & Hc) row up dn i.
  rewrite (green_ld rgb w h y x ltac:(lia) ltac:(lia) Hl (row + i)) by (unfold row, i; lia). cbn [mbind option_bind].
  destruct ((_ >=? 250) || (_ <=? 6)) eqn:Hclip; [eexists; split; [done|]; by split_and!|].
  apply orb_false_iff in Hclip as [? ?]. zbool.
  rewrite (green_ld rgb w h y (x + 1) ltac:(lia) ltac:(lia) Hl (row + (i + 3))) by (unfold row, i; lia).
  rewrite (green_ld rgb w h y (x - 1) ltac:(lia) ltac:(lia) Hl (row + (i - 3))) by (unfold row, i; lia).
  rewrite (green_ld rgb w h (y + 1) x ltac:(lia) ltac:(lia) Hl (dn + i)) by (unfold dn, row, i; lia).
  rewrite (green_ld rgb w h (y - 1) x ltac:(lia) ltac:(lia) Hl (up + i)) by (unfold up, row, i; lia).
  cbn [mbind option_bind]. eexists. split; [done|]. split_and!; [lia|lia| |].
  - intros Hflat. rewrite Hf by done. destruct Hflat as [c Hcc]. rewrite !Hcc by lia. lia.
  - intros Hclp. destruct (Hclp y x); lia.
Qed.

(** The auto-focus metric never reads outside an image of the stated
    size and its value fits an [int]; a flat image and an image whose green
    samples are all clipped (at most 6 or at least 250) measure 0, so neither
    can look like a sharp peak. *)
Theorem afSharpness_sound rgb w h (Hl : w * h * 3 <= blen rgb) :
  ∃ e, afSharpness (Some rgb) w h = Some e ∧ 0 <= e <= INT_MAX ∧
    (flat rgb w h ∨ clipped_out rgb w h → e = 0).
Proof.
  unfold afSharpness. destruct ((w <? 64) || (h <? 64)) eqn:Hs; [exists 0; split_and!; done|]. zbool.
  rewrite !Z.quot_div_nonneg by lia. cbn zeta.
  assert (∀ n, 64 <= n → 12 <= n / 5 ∧ 5 * (n / 5) <= n) as Hq.
  { intros n ?. pose proof (Z.div_mod n 5 ltac:(lia)). pose proof (Z.mod_pos_bound n 5 ltac:(lia)). lia. }
  pose proof (Hq w ltac:(lia)). pose proof (Hq h ltac:(lia)).
  set (body := λ (acc : Z * Z * Z) (y : Z), for_range _ _ _ _ acc).
  destruct (for_range_inv (λ _, sharp_inv rgb w h) (h / 5 + 1) (h - h / 5 - 1) 2 body (0, 0, 0))
    as ([[total valid] clipped] & E & Ht & Hv & Hf & Hc); [lia|by split_and!| |].
  - intros y acc Hy _ Ha. unfold body.
    edestruct (for_range_inv (λ _, sharp_inv rgb w h) (w / 5 + 1) (w - w / 5 - 1) 2) as (r & E & Hr);
      [lia|exact Ha| |exists r; split; [exact E|exact Hr]].
    intros x [[total valid] clipped] Hx _ Hi. apply (sharp_step rgb w h); [lia|lia|done|done].
  - rewrite E. cbn [mbind option_bind]. destruct (valid <? 2000) eqn:Hv2; zbool; [exists 0; split_and!; done|].
    eexists. split; [done|]. unfold INT_MAX.
    split; [case_match; zbool; lia|]. intros [Hflat|Hclip]; [rewrite Hf by done; done|rewrite Hc in Hv2 by done; lia].
Qed.

Lemma afSharpness_sound_witness :
  ∃ e, afSharpness (Some (replicate (Z.to_nat 12288) 128)) 64 64 = Some e ∧ e = 0.
Proof.
  destruct (afSharpness_sound (replicate (Z.to_nat 12288) 128) 64 64) as (e & E & _ & H0).
  - unfold blen. rewrite length_replicate. lia.
  - exists e. split; [exact E|]. apply H0. left. exists 128. intros y x ? ?. unfold green_at, bget, ld.
    rewrite bool_decide_true by lia. by rewrite lookup_replicate_2 by lia.
Defined.

(** ** The scan *)

(** Exposure and gain, which a scan must not touch, and the rest of the
    object it does not write. *)
Definition frozen_view (p : CameraPipeline) :=
  (mCurrentExposure p, mCurrentGain p, mAeHoldFrames p, mAwbGains p, mState p, mConfig p).

(** What a scan may do to the device [fd]: move the lens within
    [sweepMin, sweepMax], wait, and take and return frames. *)
Definition af_event (fd : Z) (e : event) : Prop :=
  match e with
  | ESCtrl fd' id v _ => fd' = fd ∧ id = V4L2_CID_FOCUS_ABSOLUTE ∧ sweepMin <= v <= sweepMax
  | EPoll fd' _ _ | EDQBuf fd' _ | EQBuf fd' _ _ => fd' = fd
  | EUsleep _ | EClock _ _ => True
  | _ => False
  end.

(** The locals of a scan: the best measurement is the largest one recorded. *)
Record af_wf (l : af_locals) : Prop := {
  wf_pos : sweepMin <= bestPos l <= sweepMax;
  wf_max : Forall (λ e, 0 < e <= bestEnergy l) (energies l);
  wf_best : energies l = [] ∧ bestEnergy l = 0 ∨ bestEnergy l ∈ energies l;
}.

Section Scan.
Context `{!Kernel}.

(** The scan's steps keep [frozen_view] and the device, and add only scan
    events. *)
Definition scan_view (p : CameraPipeline) := (frozen_view p, mFd p, mAfState p).

Definition scanned (w w' : world CameraPipeline) : Prop := evolves scan_view (af_event (mFd (obj w))) w w'.

Lemma scanned_trans w1 w2 w3 : scanned w1 w2 → scanned w2 w3 → scanned w1 w3.
Proof.
  unfold scanned. intros H12 H23. assert (mFd (obj w2) = mFd (obj w1)) as E by (destruct H12 as [[= ] _]; done).
  rewrite E in H23. by transitivity w2.
Qed.

Lemma scanned_refl w : scanned w w.
Proof. unfold scanned. reflexivity. Qed.

Lemma scanned_upd w f : (∀ p, scan_view (f p) = scan_view p) → scanned w (World (f (obj w)) (hist w)).
Proof. intros Hf. split; [apply Hf|]. by exists []. Qed.

Lemma scanned_event w e : af_event (mFd (obj w)) e → scanned w (World (obj w) (e :: hist w)).
Proof. intros. split; [done|]. exists [e]. auto. Qed.

(** An operation on the device is a step of the scan. *)
Definition Scans {A} (m : ST (world CameraPipeline) A) : Prop := ∀ w, wlp m (λ _ w', scanned w w') w.

Lemma Scans_bind {A B} (m : ST (world CameraPipeline) A) (k : A → ST (world CameraPipeline) B) :
  Scans m → (∀ a, Scans (k a)) → Scans (m ≫= k).
Proof.
  intros Hm Hk w. apply wlp_bind. eapply wlp_mono; [apply Hm|]. intros a w1 H1.
  eapply wlp_mono; [apply Hk|]. intros b w2 H2. exact (scanned_trans _ _ _ H1 H2).
Qed.

Lemma setFocus_scans pos : sweepMin <= pos <= sweepMax → Scans (setFocus pos).
Proof.
  intros Hp w. unfold setFocus.
  destruct (pos <? 0) eqn:E1; zbool; [unfold sweepMin in *; lia|].
  destruct (pos >? 1023) eqn:E2; zbool; [unfold sweepMax in *; lia|].
  apply wlp_bind, wlp_gets, wlp_bind, wlp_call. cbn [obj hist]. set (r := k_s_ctrl _ _ _ _).
  assert (scanned w (World (obj w) (ESCtrl (mFd (obj w)) V4L2_CID_FOCUS_ABSOLUTE pos r :: hist w))) as H1.
  { by apply scanned_event. }
  destruct r; [|by apply wlp_ret]. apply wlp_bind, wlp_modify, wlp_ret.
  eapply scanned_trans; [exact H1|]. by apply (scanned_upd (World _ _)).
Qed.

Lemma captureForAf_scans : Scans captureForAf.
Proof.
  intros w. unfold captureForAf. apply wlp_bind, wlp_gets. pose proof (scanned_refl w) as H0.
  apply wlp_if; intros _; [by apply wlp_ret|]. apply wlp_bind, wlp_call. cbn [obj hist].
  set (r := k_poll _ _ _). set (w1 := World _ _).
  assert (scanned w w1) as H1 by by apply scanned_event.
  destruct r as [[n revents]|]; [|by apply wlp_ret]. apply wlp_if; intros _; [by apply wlp_ret|].
  apply wlp_if; intros _; [by apply wlp_ret|]. apply wlp_bind, wlp_call. set (r := k_dqbuf _ _). set (w2 := World _ _).
  assert (scanned w w2) as H2. { eapply scanned_trans; [exact H1|]. by apply scanned_event. }
  destruct r as [b|]; [|by apply wlp_ret]. apply wlp_if; intros _; [by apply wlp_ret|].
  apply wlp_bind. unfold getBuf. apply wlp_bind, wlp_gets, wlp_lift. intros vb _.
  apply wlp_bind. eapply (wlp_mono _ (λ _ w3, scanned w w3)).
  - assert (∀ w4, scanned w w4 → wlp (p ← get;
      lift (afSharpness (mRgbBuffer p) (i32 (cfg_width (mConfig p))) (i32 (cfg_height (mConfig p)))))
      (λ _ w3, scanned w w3) w4) as Hm.
    { intros w4 ?. apply wlp_bind, wlp_gets, wlp_lift. by intros. }
    destruct (cfg_enableISP (mConfig (obj w))), (mDemosaic (obj w)) as [d|]; try by apply wlp_ret.
    apply wlp_bind. destruct (vb_start vb), (mRgbBuffer (obj w)) as [rgb|]; try (by apply wlp_ret, Hm).
    apply wlp_bind, wlp_gets, wlp_bind, wlp_lift. intros [d' rgb'] _. apply wlp_bind, wlp_modify, wlp_modify.
    apply Hm. eapply scanned_trans; [exact H2|].
    apply (scanned_upd w2 (λ p, p <| mDemosaic := Some d' |> <| mRgbBuffer := Some rgb' |>)). done.
  - intros e w3 H3. apply wlp_bind, wlp_call.
    assert (mFd (obj w3) = mFd (obj w)) as Hfd by (destruct H3 as [[= ] _]; done).
    set (r := k_qbuf _ _ _). eassert (scanned w (World (obj w3) (EQBuf _ _ r :: hist w3))) as H4.
    { eapply scanned_trans; [exact H3|]. apply scanned_event. simpl. symmetry. exact Hfd. }
    destruct r; by apply wlp_ret.
Qed.

Lemma af_measure_spec pos l w :
  sweepMin <= pos <= sweepMax → af_wf l → nEng l < 40 →
  wlp (af_measure pos l) (λ '(l', _) w', scanned w w' ∧ af_wf l' ∧ nEng l' <= nEng l + 1) w.
Proof.
  intros Hp Hl Hn. unfold af_measure. apply wlp_bind. eapply wlp_mono; [by apply setFocus_scans|].
  intros r0 w1 H1. apply wlp_bind, wlp_call. cbn [obj hist]. set (w2 := World _ _).
  assert (scanned w w2) as H2. { eapply scanned_trans; [exact H1|]. by apply scanned_event. }
  apply wlp_bind. eapply wlp_mono; [apply captureForAf_scans|]. intros e w3 H3.
  pose proof (scanned_trans _ _ _ H2 H3) as Hs.
  destruct Hl as [Hwp Hwm Hwb]. apply wlp_if; intros He; zbool.
  { apply wlp_ret. split_and!; [done|by split|unfold nEng; simpl; lia]. }
  apply wlp_ret. rewrite (proj2 (Z.ltb_lt _ _) Hn).
  split; [done|]. split; [|unfold nEng; case_match; simpl; rewrite blen_app; unfold blen; simpl; lia].
  destruct (e >? bestEnergy l) eqn:Hb; zbool.
  - split; simpl; [done| |by right; apply elem_of_app; right; left].
    apply Forall_app. split; [|by repeat constructor].
    eapply Forall_impl; [exact Hwm|]. intros x ?. simpl in *. lia.
  - split; simpl; [done| |].
    + apply Forall_app. split; [done|]. by repeat constructor.
    + destruct Hwb as [[-> Hz]|Hwb]; [lia|]. right. apply elem_of_app. by left.
Qed.

Lemma af_sweep_spec skip ps l w :
  Forall (λ x, sweepMin <= x <= sweepMax) ps → af_wf l → nEng l + blen ps <= 40 →
  wlp (af_sweep skip ps l) (λ l' w', scanned w w' ∧ af_wf l' ∧ nEng l' <= nEng l + blen ps) w.
Proof.
  intros Hps. revert l w. induction Hps as [|x ps Hx _ IH]; intros l w Hl Hn; cbn [af_sweep].
  { apply wlp_ret. split_and!; [apply scanned_refl|done|unfold blen; simpl; lia]. }
  assert (blen (x :: ps) = 1 + blen ps) as Hb by (unfold blen; simpl; lia). rewrite Hb in *.
  pose proof (blen_nonneg ps).
  apply wlp_if; intros _.
  - eapply wlp_mono; [apply IH; [done|lia]|]. intros l' w' (? & ? & ?). split_and!; [done..|lia].
  - apply wlp_bind. eapply wlp_mono; [apply af_measure_spec; [done|done|lia]|].
    intros [l1 stop] w1 (H1 & Hl1 & Hn1). apply wlp_if; intros _.
    + apply wlp_ret. split_and!; [done..|lia].
    + eapply wlp_mono; [apply IH; [done|lia]|]. intros l' w' (H3 & ? & ?).
      split_and!; [exact (scanned_trans _ _ _ H1 H3)|done|lia].
Qed.

(** ** The decision *)

(** The upper median of the measurements. *)
Definition af_median (l : af_locals) : Z :=
  default 0 (merge_sort Z.le (energies l) !! Z.to_nat (nEng l / 2)).

(** Lock on the best position: something was measured, and (with at least
    five measurements) the peak is a third above the median. *)
Definition af_locks (l : af_locals) : bool :=
  (0 <? nEng l) && ((nEng l <? 5) || (af_median l + af_median l / 3 <=? bestEnergy l)).

Definition af_finished (w w' : world CameraPipeline) (l : af_locals) : Prop :=
  ∃ clk, let '(s, n) := (clk : Z * Z) in
  mAfLastScanNs (obj w') = s * 1000000000 + n ∧
  if af_locks l then
    mAfState (obj w') = 2 ∧
    ∃ r, hist w' = EUsleep 60000 :: ESCtrl (mFd (obj w)) V4L2_CID_FOCUS_ABSOLUTE (bestPos l) r :: EClock s n :: hist w
  else mAfState (obj w') = 3 ∧ hist w' = EClock s n :: hist w.

Lemma af_wf_energy l : af_wf l → (bestEnergy l >? 0) = (0 <? nEng l).
Proof.
  intros [_ Hm Hb]. unfold nEng. destruct Hb as [[-> ->]|Hb]; [done|].
  rewrite Forall_forall in Hm. specialize (Hm _ Hb).
  rewrite (proj2 (Z.gtb_lt _ _)) by lia. symmetry. apply Z.ltb_lt.
  destruct (energies l); [by apply not_elem_of_nil in Hb|]. unfold blen. simpl. lia.
Qed.

Lemma af_lock_spec l w clk :
  af_wf l → wp (af_lock l) (λ _ w', mAfLastScanNs (obj w') = mAfLastScanNs (obj w) ∧ mAfState (obj w') = 2 ∧
    ∃ r, hist w' = EUsleep 60000 :: ESCtrl (mFd (obj w)) V4L2_CID_FOCUS_ABSOLUTE (bestPos l) r :: clk :: hist w)
    (World (obj w) (clk :: hist w)).
Proof.
  intros [Hp _ _]. unfold sweepMin, sweepMax in Hp. unfold af_lock, setFocus.
  destruct (bestPos l <? 0) eqn:E1; zbool; [lia|]. destruct (bestPos l >? 1023) eqn:E2; zbool; [lia|].
  unfold wp, mbind, ST_bind, get, gets, io_s_ctrl, sys_usleep, call, upd, modify, mret, ST_ret. cbn [obj hist].
  destruct (k_s_ctrl _ _ _ _) as [[]|]; cbn; eauto.
Qed.

(** The monotonic clock fits 64 bits of nanoseconds. *)
Definition clock_ok (h : history) : Prop :=
  is_Some (ck64 ((k_clock h).1 * 1000000000 + (k_clock h).2)).

(** C36: the decision that ends a scan.  With well-formed measurements [l]
    (the invariant the sweeps establish) up to 1.5e9, so that the threshold
    fits [int], during a scan ([mAfState = 1]) and with a clock that fits 64
    bits, it is defined, and it locks exactly when at least one position was
    measured and either fewer than five were or the best energy is at least
    the upper median plus the integer third of the median (not 1.3 times the
    median, as the comment has it).  When it locks its last command moves the
    lens to the position of the largest measurement; otherwise, also when no
    position could be measured, it reports failure (state 3) and commands no
    further movement, so the lens stays at the last position of the sweep. *)
Theorem af_finish_decides l w
  (Hwf : af_wf l) (Hfit : Forall (λ e, e <= 1500000000) (energies l))
  (Hst : mAfState (obj w) = 1)
  (Hclk : clock_ok (hist w)) :
  wp (af_finish l) (λ _ w', af_finished w w' l) w.
Proof.
  unfold af_finish. apply wp_bind. unfold wp at 1. cbn [sys_clock call].
  unfold clock_ok in Hclk. unfold sys_clock, call.
  destruct (k_clock (hist w)) as [s n] eqn:Ec. cbn [fst snd] in Hclk. destruct Hclk as [now Hnow].
  apply wp_bind, wp_lift. exists now. split; [done|]. apply wp_bind. unfold wp at 1. cbn [upd modify obj hist].
  assert (now = s * 1000000000 + n) as En.
  { unfold ck64 in Hnow. case_bool_decide; [|done]. by injection Hnow. }
  set (w1 := World ((obj w) <| mAfLastScanNs := now |>) (hist w)).
  assert (wp (af_lock l) (λ _ w', af_locks l = true → af_finished w w' l) (World (obj w1) (EClock s n :: hist w1))) as Hlock.
  { eapply wp_mono; [by apply af_lock_spec|]. intros [] w' (Hl & Hs & r & Hh) Hlk.
    exists (s, n). rewrite Hl, Hlk. split; [exact En|]. split; [done|]. by exists r. }
  assert (∀ p, mAfState p = 3 → mAfLastScanNs p = now → af_locks l = false →
    af_finished w (World p (EClock s n :: hist w)) l) as Hfail.
  { intros p ? Hl Hlk. exists (s, n). rewrite Hlk. simpl. rewrite Hl. split_and!; done. }
  rewrite (af_wf_energy l Hwf). unfold af_locks in *.
  destruct (0 <? nEng l) eqn:E0; cbn [andb orb] in *.
  2:{ unfold wp. simpl. by apply Hfail. }
  destruct (nEng l >=? 5) eqn:E5; zbool.
  2:{ rewrite (proj2 (Z.ltb_lt (nEng l) 5)) in Hlock by lia. eapply wp_mono; [exact Hlock|]. auto. }
  rewrite (proj2 (Z.ltb_ge (nEng l) 5)) in * by lia. cbn [orb] in *.
  apply wp_bind, wp_lift. exists (merge_sort Z.le (energies l)). split; [apply sort_energies_spec|].
  rewrite Z.quot_div_nonneg by lia.
  assert (0 <= nEng l / 2 < nEng l) as Hidx by (split; [apply Z.div_pos; lia|apply Z.div_lt_upper_bound; lia]).
  assert (length (merge_sort Z.le (energies l)) = length (energies l)) as Hlen by by rewrite merge_sort_Permutation.
  destruct (lookup_lt_is_Some_2 (merge_sort Z.le (energies l)) (Z.to_nat (nEng l / 2))) as [med Hmed].
  { rewrite Hlen. unfold nEng, blen in *. lia. }
  apply wp_bind, wp_lift. exists med. split; [by rewrite ld_lookup by lia|].
  assert (af_median l = med) as Hm by (unfold af_median; by rewrite Hmed). rewrite Hm in *.
  assert (0 < med <= 1500000000) as Hr.
  { destruct Hwf as [_ Hmx _]. rewrite Forall_forall in Hfit, Hmx.
    apply list_elem_of_lookup_2 in Hmed. rewrite merge_sort_Permutation in Hmed.
    specialize (Hfit _ Hmed). specialize (Hmx _ Hmed). lia. }
  rewrite Z.quot_div_nonneg by lia.
  assert (0 <= med / 3 <= 500000000) by (split; [apply Z.div_pos; lia|apply Z.div_le_upper_bound; lia]).
  apply wp_bind, wp_lift. exists (med + med / 3). split; [apply ck32_Some; unfold INT_MIN, INT_MAX; lia|].
  rewrite Z.geb_leb. destruct (med + med / 3 <=? bestEnergy l) eqn:Hd.
  - eapply wp_mono; [exact Hlock|]. auto.
  - unfold wp. simpl. rewrite Hst. by apply Hfail.
Qed.

Definition calm (w w' : world CameraPipeline) : Prop := evolves frozen_view (af_event (mFd (obj w))) w w'.

Lemma scanned_calm w w' : scanned w w' → calm w w'.
Proof. intros [[= ] ?]. split; [|done]. unfold frozen_view. congruence. Qed.

Lemma calm_trans w1 w2 w3 : scanned w1 w2 → calm w2 w3 → calm w1 w3.
Proof.
  intros H12 H23. pose proof (scanned_calm _ _ H12) as Hc. unfold calm in *.
  assert (mFd (obj w2) = mFd (obj w1)) as E by (destruct H12 as [[= ] _]; done).
  rewrite E in H23. by transitivity w2.
Qed.

Lemma calm_upd w f : (∀ p, frozen_view (f p) = frozen_view p) → calm w (World (f (obj w)) (hist w)).
Proof. intros Hf. split; [apply Hf|]. by exists []. Qed.

Lemma af_lock_confined l w :
  af_wf l → wlp (af_lock l) (λ _ w', calm w w' ∧ mAfState (obj w') = 2) w.
Proof.
  intros [Hp _ _]. unfold af_lock. apply wlp_bind. eapply wlp_mono; [by apply setFocus_scans|].
  intros r w1 H1. apply wlp_bind, wlp_call, wlp_modify. cbn [obj hist]. split; [|done].
  eapply calm_trans; [|by apply (calm_upd (World _ _))].
  eapply scanned_trans; [exact H1|]. by apply scanned_event.
Qed.

Lemma af_finish_confined l w :
  af_wf l → mAfState (obj w) = 1 →
  wlp (af_finish l) (λ _ w', calm w w' ∧ (mAfState (obj w') = 2 ∨ mAfState (obj w') = 3)) w.
Proof.
  intros Hl Hst. unfold af_finish, sys_clock. apply wlp_bind, wlp_call. destruct (k_clock (hist w)) as [s n].
  apply wlp_bind, wlp_lift. intros now _. apply wlp_bind, wlp_modify. cbn [obj hist]. set (w1 := World _ _).
  assert (scanned w w1) as H1.
  { eapply scanned_trans; [by apply (scanned_event _ (EClock s n))|].
    by apply (scanned_upd (World _ _) (λ p, p <| mAfLastScanNs := now |>)). }
  assert (wlp (af_lock l) (λ _ w', calm w w' ∧ (mAfState (obj w') = 2 ∨ mAfState (obj w') = 3)) w1) as Hlock.
  { eapply wlp_mono; [by apply af_lock_confined|]. intros [] w' [Hc ?]. split; [|by left].
    by eapply calm_trans. }
  assert (∀ f, (∀ p, frozen_view (f p) = frozen_view p) → mAfState (f (obj w1)) = 3 →
    wlp (upd f) (λ _ w', calm w w' ∧ (mAfState (obj w') = 2 ∨ mAfState (obj w') = 3)) w1) as Hupd.
  { intros f Hf ?. apply wlp_modify. split; [|by right]. eapply calm_trans; [exact H1|]. by apply calm_upd. }
  apply wlp_if; intros _.
  - apply wlp_bind, wlp_lift. intros sorted _. apply wlp_bind, wlp_lift. intros med _.
    apply wlp_bind, wlp_lift. intros t _. apply wlp_if; intros _; [done|]. apply Hupd.
    + intros p. by case_match.
    + simpl. by rewrite Hst.
  - apply wlp_if; intros _; [done|]. by apply Hupd.
Qed.

Lemma blen_zrange a b s : blen (zrange a b s) = zrange_len a b s.
Proof. unfold zrange, blen. rewrite length_fmap, length_seqZ. unfold zrange_len. lia. Qed.

(** C37: a scan is confined.  On a streaming pipeline every command it issues
    goes to the pipeline's own device and either moves the lens within the
    working range [140, 640] or takes and returns a frame; exposure, gain and
    white balance stay frozen for the whole scan, and it ends LOCKED (2) or
    FAILED (3).  When the pipeline is not streaming it does nothing but reset
    the state. *)
Theorem af_scan_confined w :
  wlp startAfScan (λ _ w',
    if bool_decide (mState (obj w) = PIPELINE_STREAMING) then
      evolves frozen_view (af_event (mFd (obj w))) w w' ∧ (mAfState (obj w') = 2 ∨ mAfState (obj w') = 3)
    else hist w' = hist w ∧ obj w' = (obj w) <| mAfState := 0 |>) w.
Proof.
  unfold startAfScan. apply wlp_bind, wlp_gets. case_bool_decide as Hs; cbn [negb]; [|by apply wlp_modify].
  apply wlp_bind, wlp_modify. set (w1 := World _ _). apply wlp_bind.
  eapply wlp_mono; [apply (af_sweep_spec false _ _ w1)|].
  { apply Forall_forall. intros x Hx%elem_of_zrange; [|done]. unfold sweepMin, sweepMax, coarseStep in *.
    destruct Hx as (k & ? & -> & ?). lia. }
  { split; simpl; [unfold sweepMin, sweepMax; lia|constructor|by left]. }
  { vm_compute. congruence. }
  change (nEng (mkAf 0 400 [] 0) + blen (zrange sweepMin (sweepMax + 1) coarseStep)) with 11.
  intros l w2 (H2 & Hl & Hn). pose proof (wf_pos _ Hl) as Hpos. cbn zeta. apply wlp_bind.
  set (fs := if bestPos l - coarseStep <? sweepMin then _ else _).
  set (fe := if bestPos l + coarseStep >? sweepMax then _ else _).
  assert (sweepMin <= fs ∧ fe <= sweepMax ∧ fe <= fs + 100) as (Hfs & Hfe & Hlen).
  { unfold fs, fe, sweepMin, sweepMax, coarseStep in *. repeat case_match; zbool; lia. }
  eapply wlp_mono; [apply (af_sweep_spec true _ _ w2)|]; [|done| |].
  { apply Forall_forall. intros x Hx%elem_of_zrange; [|done]. unfold sweepMin, sweepMax, fineStep in *.
    destruct Hx as (k & ? & -> & ?). lia. }
  { rewrite blen_zrange. unfold zrange_len, fineStep.
    assert ((fe + 1 - fs + 10 - 1) / 10 <= 11) by (apply Z.div_le_upper_bound; lia). lia. }
  intros l3 w3 (H3 & Hl3 & _). pose proof (scanned_trans _ _ _ H2 H3) as H13.
  assert (mAfState (obj w3) = 1) as Hst by (destruct H13 as [[= ] _]; done).
  eapply wlp_mono; [by apply af_finish_confined|]. intros [] w4 [Hc Hend]. split; [|done].
  exact (calm_trans w1 w3 w4 H13 Hc).
Qed.
End Scan.

(** ** Instances *)

#[local] Existing Instance demo_kernel.

Definition demo_scan_w : world CameraPipeline :=
  let w := demo_run demo_session in World ((obj w) <| mAfState := 1 |>) (hist w).

Definition demo_locals : af_locals := mkAf 100 240 [10; 20; 100; 15; 12] 0.

Lemma af_finish_decides_witness :
  ∃ w', af_finish demo_locals demo_scan_w = Some ((), w') ∧ af_finished demo_scan_w w' demo_locals ∧
        af_locks demo_locals = true.
Proof.
  assert (af_wf demo_locals) as H1.
  { split; simpl; [unfold sweepMin, sweepMax; lia| |right; set_solver].
    repeat (apply Forall_cons; split; [lia|]). constructor. }
  assert (Forall (λ e, e <= 1500000000) (energies demo_locals)) as H2.
  { simpl. repeat (apply Forall_cons; split; [lia|]). constructor. }
  assert (mAfState (obj demo_scan_w) = 1) as H3 by (vm_compute; reflexivity).
  assert (clock_ok (hist demo_scan_w)) as H4 by (vm_compute; eexists; reflexivity).
  pose proof (af_finish_decides demo_locals demo_scan_w H1 H2 H3 H4) as Hw.
  revert Hw. clear. generalize demo_scan_w. intros w Hw.
  apply wp_run in Hw as ([] & w' & E & Hf). exists w'.
  split; [exact E|]. split; [exact Hf|]. vm_compute. reflexivity.
Defined.

(** A scan that measures nothing usable ends in state 3 with the lens at the
    last position it tried, not where it was before. *)
Example failed_scan_moves_lens :
  ∃ w0 w', (setFocus 500;; startAfScan) (demo_run demo_session) = Some ((), w') ∧
    setFocus 500 (demo_run demo_session) = Some (0, w0) ∧ mFocusPosition (obj w0) = 500 ∧
    mAfState (obj w') = 3 ∧ mFocusPosition (obj w') = 350.
Proof. do 2 eexists. split_and!; [vm_compute; reflexivity..]. Qed.
