(* ===== verification/Metadata.v ===== *)
(** * Camera metadata packets (camera/MochaCameraHAL.cpp)

    The packets the HAL builds: the static characteristics of the two cameras,
    the default request settings and the metadata of a capture result.

    The packet library (libcamera_metadata) is not part of the repository.  It
    is an interface: [CameraMetadata] names its operations, [CameraMetadataOk]
    states what its header documents of them (a packet has a fixed capacity of
    entries and of data bytes, an entry that does not fit is refused and leaves
    the packet alone, sorting permutes, finding returns an entry with the tag).
    A tag is written by its name; [tag_type] is the type column of the tag
    documentation, [tag_id] the number the header gives it. *)

From S2P Require Import Prelude Monad Float32 Kernel.
From Stdlib Require Import Floats.SpecFloat.
From stdpp Require Import sorting.

#[local] Open Scope Z_scope.

(** ** C arrays as the bytes the library reads *)

Inductive carray :=
| A8 (l : list Z) | A32 (l : list Z) | A64 (l : list Z)
| AF (l : list f32) | ARat (l : list (Z * Z)).

Fixpoint le_bytes (n : nat) (z : Z) : list Z :=
  match n with O => [] | S n' => z mod 256 :: le_bytes n' (z / 256) end.

(** The binary32 pattern of a float. *)
Definition f32_bits (f : f32) : Z :=
  let sgn (s : bool) := if s then 2 ^ 31 else 0 in
  match f with
  | S754_zero s => sgn s
  | S754_infinity s => sgn s + 255 * 2 ^ 23
  | S754_nan => 255 * 2 ^ 23 + 2 ^ 22
  | S754_finite s m e =>
      sgn s + (if Z.pos m <? 2 ^ 23 then Z.pos m else (e + 150) * 2 ^ 23 + (Z.pos m - 2 ^ 23))
  end.

Definition carray_bytes (a : carray) : list Z :=
  match a with
  | A8 l => l ≫= le_bytes 1
  | A32 l => l ≫= le_bytes 4
  | A64 l => l ≫= le_bytes 8
  | AF l => l ≫= (λ f, le_bytes 4 (f32_bits f))
  | ARat l => l ≫= (λ r, le_bytes 4 r.1 ++ le_bytes 4 r.2)
  end.

(** Number of elements: the [count] argument at every call. *)
Definition carray_count (a : carray) : Z :=
  match a with
  | A8 l | A32 l | A64 l => blen l | AF l => blen l | ARat l => blen l
  end.

Example f32_bits_10 : f32_bits (f_of_Z 10) = 0x41200000. Proof. reflexivity. Qed.
Example f32_bits_28 : f32_bits (f_lit 28 10) = 0x40333333. Proof. reflexivity. Qed.

(** ** Tag types *)

Inductive md_type := TYPE_BYTE | TYPE_INT32 | TYPE_FLOAT | TYPE_INT64 | TYPE_RATIONAL.

Definition type_size (t : md_type) : Z :=
  match t with TYPE_BYTE => 1 | TYPE_INT32 | TYPE_FLOAT => 4 | TYPE_INT64 | TYPE_RATIONAL => 8 end.

Definition int32_tags : list string := [
  "ANDROID_REQUEST_ID"; "ANDROID_CONTROL_AE_TARGET_FPS_RANGE"; "ANDROID_SENSOR_TEST_PATTERN_MODE";
  "ANDROID_JPEG_THUMBNAIL_SIZE"; "ANDROID_SCALER_CROP_REGION"; "ANDROID_SENSOR_SENSITIVITY";
  "ANDROID_SENSOR_ORIENTATION"; "ANDROID_SCALER_AVAILABLE_STREAM_CONFIGURATIONS";
  "ANDROID_SCALER_AVAILABLE_PROCESSED_SIZES"; "ANDROID_SCALER_AVAILABLE_JPEG_SIZES";
  "ANDROID_SENSOR_INFO_ACTIVE_ARRAY_SIZE"; "ANDROID_SENSOR_INFO_PIXEL_ARRAY_SIZE";
  "ANDROID_SENSOR_INFO_PRE_CORRECTION_ACTIVE_ARRAY_SIZE"; "ANDROID_REQUEST_AVAILABLE_REQUEST_KEYS";
  "ANDROID_REQUEST_AVAILABLE_RESULT_KEYS"; "ANDROID_REQUEST_AVAILABLE_CHARACTERISTICS_KEYS";
  "ANDROID_CONTROL_AE_AVAILABLE_TARGET_FPS_RANGES"; "ANDROID_JPEG_AVAILABLE_THUMBNAIL_SIZES";
  "ANDROID_STATISTICS_INFO_MAX_FACE_COUNT"; "ANDROID_CONTROL_AE_COMPENSATION_RANGE";
  "ANDROID_SENSOR_INFO_SENSITIVITY_RANGE"; "ANDROID_SENSOR_MAX_ANALOG_SENSITIVITY";
  "ANDROID_JPEG_MAX_SIZE"; "ANDROID_REQUEST_MAX_NUM_INPUT_STREAMS";
  "ANDROID_SENSOR_AVAILABLE_TEST_PATTERN_MODES"; "ANDROID_CONTROL_MAX_REGIONS";
  "ANDROID_REQUEST_MAX_NUM_OUTPUT_STREAMS"; "ANDROID_REQUEST_PARTIAL_RESULT_COUNT";
  "ANDROID_SYNC_MAX_LATENCY"].
Definition int64_tags : list string := [
  "ANDROID_SCALER_AVAILABLE_MIN_FRAME_DURATIONS"; "ANDROID_SCALER_AVAILABLE_STALL_DURATIONS";
  "ANDROID_SENSOR_INFO_EXPOSURE_TIME_RANGE"; "ANDROID_SENSOR_EXPOSURE_TIME";
  "ANDROID_SENSOR_FRAME_DURATION"; "ANDROID_SENSOR_TIMESTAMP"].
Definition float_tags : list string := [
  "ANDROID_COLOR_CORRECTION_GAINS"; "ANDROID_LENS_FOCUS_DISTANCE";
  "ANDROID_SCALER_AVAILABLE_MAX_DIGITAL_ZOOM"; "ANDROID_SENSOR_INFO_PHYSICAL_SIZE";
  "ANDROID_LENS_INFO_HYPERFOCAL_DISTANCE"; "ANDROID_LENS_INFO_MINIMUM_FOCUS_DISTANCE";
  "ANDROID_LENS_INFO_AVAILABLE_FOCAL_LENGTHS"; "ANDROID_LENS_INFO_AVAILABLE_APERTURES";
  "ANDROID_LENS_INFO_AVAILABLE_FILTER_DENSITIES"].
Definition rational_tags : list string := [
  "ANDROID_COLOR_CORRECTION_TRANSFORM"; "ANDROID_CONTROL_AE_COMPENSATION_STEP"].

(** Every other tag the HAL uses is of type byte. *)
Definition tag_type (tag : string) : md_type :=
  if bool_decide (tag ∈ int32_tags) then TYPE_INT32
  else if bool_decide (tag ∈ int64_tags) then TYPE_INT64
  else if bool_decide (tag ∈ float_tags) then TYPE_FLOAT
  else if bool_decide (tag ∈ rational_tags) then TYPE_RATIONAL
  else TYPE_BYTE.

(** ** The packet library *)

Definition md_entry : Type := string * list Z.

(** Bytes an entry takes in the data area: nothing when it fits the four
    bytes of the entry itself, otherwise rounded up to a multiple of 8. *)
Definition data_size (b : list Z) : Z := if blen b <=? 4 then 0 else (blen b + 7) / 8 * 8.
Definition data_used (l : list md_entry) : Z := foldr (λ e n, data_size e.2 + n) 0 l.

Class CameraMetadata := {
  md : Type;
  allocate_camera_metadata : history → Z → Z → option md;
  add_entry_raw : md → string → list Z → Z * md;
  find_camera_metadata_entry : md → string → option (list Z);
  sort_camera_metadata : md → md;
  tag_id : string → Z;
  md_entries : md → list md_entry;
  md_entry_capacity : md → Z;
  md_data_capacity : md → Z;
}.

Definition fits (ec dc : Z) (l : list md_entry) (b : list Z) : bool :=
  (blen l <? ec) && (data_used l + data_size b <=? dc).

Class CameraMetadataOk (M : CameraMetadata) : Prop := {
  md_allocate h ec dc m : allocate_camera_metadata h ec dc = Some m →
    md_entries m = [] ∧ md_entry_capacity m = ec ∧ md_data_capacity m = dc;
  md_add m t b : let '(r, m') := add_entry_raw m t b in
    md_entry_capacity m' = md_entry_capacity m ∧ md_data_capacity m' = md_data_capacity m ∧
    if fits (md_entry_capacity m) (md_data_capacity m) (md_entries m) b
    then r = 0 ∧ md_entries m' = md_entries m ++ [(t, b)]
    else r ≠ 0 ∧ md_entries m' = md_entries m;
  md_sort m : md_entries (sort_camera_metadata m) ≡ₚ md_entries m;
  md_find m t b : find_camera_metadata_entry m t = Some b → (t, b) ∈ md_entries m;
  md_find_none m t : find_camera_metadata_entry m t = None → ∀ b, (t, b) ∉ md_entries m;
}.

(** A packet library made of lists. *)
Record list_md := { lm_entries : list md_entry; lm_ec : Z; lm_dc : Z }.

Fixpoint lm_find (l : list md_entry) (t : string) : option (list Z) :=
  match l with
  | [] => None
  | (t', b) :: l' => if bool_decide (t' = t) then Some b else lm_find l' t
  end.

Definition list_metadata : CameraMetadata := {|
  md := list_md;
  allocate_camera_metadata _ ec dc := Some {| lm_entries := []; lm_ec := ec; lm_dc := dc |};
  add_entry_raw m t b :=
    if fits (lm_ec m) (lm_dc m) (lm_entries m) b
    then (0, {| lm_entries := lm_entries m ++ [(t, b)]; lm_ec := lm_ec m; lm_dc := lm_dc m |})
    else (-1, m);
  find_camera_metadata_entry m := lm_find (lm_entries m);
  sort_camera_metadata m := m;
  tag_id t := Z.pos (encode t);
  md_entries := lm_entries;
  md_entry_capacity := lm_ec;
  md_data_capacity := lm_dc;
|}.

#[export] Instance list_metadata_ok : CameraMetadataOk list_metadata.
Proof.
  split; simpl.
  - by intros h ec dc m [= <-].
  - intros m t b. by destruct (fits _ _ _ _).
  - done.
  - intros m t b. induction (lm_entries m) as [|[t' b'] l IH]; simpl; [done|].
    case_bool_decide as Ht; [subst t'; intros [= ->]; left|right; auto].
  - intros m t. induction (lm_entries m) as [|[t' b'] l IH]; simpl; [by intros _ b ?%not_elem_of_nil|].
    case_bool_decide as Ht; [done|]. intros Hn b [[= <- _]|?]%elem_of_cons; [done|]. by apply (IH Hn b).
Qed.

(** ** Adding entries

    [after tag] is the memory that follows the array passed for [tag]: the
    library reads as many bytes as the tag's type and the count call for. *)

Section Build.
Context `{!CameraMetadata} (after : string → list Z).

Definition entry_bytes (tag : string) (a : carray) : option (list Z) :=
  ldn (carray_bytes a ++ after tag) 0 (type_size (tag_type tag) * carray_count a).

Definition add_camera_metadata_entry (m : md) (e : string * carray) : option md :=
  b ← entry_bytes e.1 e.2; Some (snd (add_entry_raw m e.1 b)).

Definition add_all (m : md) (es : list (string * carray)) : option md :=
  foldM add_camera_metadata_entry es m.

(** The entries a packet ends up with: an entry that does not fit is left out. *)
Fixpoint accept (ec dc : Z) (l new : list md_entry) : list md_entry :=
  match new with
  | [] => l
  | e :: new' => accept ec dc (if fits ec dc l e.2 then l ++ [e] else l) new'
  end.

Definition payload (e : string * carray) : option md_entry := b ← entry_bytes e.1 e.2; Some (e.1, b).

Lemma add_all_accept `{!CameraMetadataOk _} es ps m :
  mapM payload es = Some ps →
  ∃ m', add_all m es = Some m' ∧ md_entry_capacity m' = md_entry_capacity m ∧
    md_data_capacity m' = md_data_capacity m ∧
    md_entries m' = accept (md_entry_capacity m) (md_data_capacity m) (md_entries m) ps.
Proof.
  unfold add_all. revert m ps. induction es as [|[t a] es IH]; intros m ps Hp; simpl in Hp.
  - injection Hp as <-. by exists m.
  - apply bind_Some_inv in Hp as ([t' b] & Hb & Hp). apply bind_Some_inv in Hp as (ps' & Hp' & [= <-]).
    unfold payload in Hb. cbn [fst snd] in Hb. apply bind_Some_inv in Hb as (b' & Eb & [= <- <-]).
    assert (add_camera_metadata_entry m (t, a) = Some (add_entry_raw m t b').2) as Ea.
    { unfold add_camera_metadata_entry. cbn [fst snd]. by rewrite Eb. }
    simpl. rewrite Ea. simpl.
    pose proof (md_add m t b') as Ha. destruct (add_entry_raw m t b') as [r m1].
    destruct Ha as (Hec & Hdc & Hl). simpl.
    destruct (IH m1 ps' Hp') as (m' & E & E1 & E2 & E3). exists m'.
    split; [exact E|]. split; [congruence|]. split; [congruence|]. rewrite E3, Hec, Hdc.
    destruct (fits _ _ _ _); destruct Hl as [_ ->]; done.
Qed.

Lemma data_size_nonneg b : 0 <= data_size b.
Proof.
  unfold data_size. pose proof (blen_nonneg b). destruct (_ <=? _); [lia|].
  apply Z.mul_nonneg_nonneg; [apply Z.div_pos|]; lia.
Qed.
Lemma data_used_nonneg l : 0 <= data_used l.
Proof. induction l as [|e l IH]; simpl; [lia|]. pose proof (data_size_nonneg e.2). lia. Qed.
Lemma data_used_app l1 l2 : data_used (l1 ++ l2) = data_used l1 + data_used l2.
Proof. induction l1; simpl; lia. Qed.

(** Entries that fit together are all accepted. *)
Lemma accept_fits ec dc l new :
  blen l + blen new <= ec → data_used l + data_used new <= dc → accept ec dc l new = l ++ new.
Proof.
  revert l. induction new as [|e new IH]; intros l He Hd; simpl; [by rewrite app_nil_r|].
  simpl in Hd. unfold blen in *. simpl in He. pose proof (data_used_nonneg new).
  assert (fits ec dc l e.2 = true) as ->.
  { unfold fits, blen. apply andb_true_intro. split; [apply Z.ltb_lt|apply Z.leb_le]; lia. }
  rewrite IH; [by rewrite <- app_assoc| |].
  - rewrite length_app. simpl. lia.
  - rewrite data_used_app. simpl. lia.
Qed.

(** A packet without a free entry accepts nothing. *)
Lemma accept_full ec dc l new : ec <= blen l → accept ec dc l new = l.
Proof.
  revert l. induction new as [|e new IH]; intros l Hl; simpl; [done|].
  assert (fits ec dc l e.2 = false) as ->.
  { unfold fits. apply andb_false_intro1. apply Z.ltb_ge. lia. }
  by apply IH.
Qed.

Lemma accept_app ec dc l n1 n2 : accept ec dc l (n1 ++ n2) = accept ec dc (accept ec dc l n1) n2.
Proof. revert l. induction n1; intros l; simpl; [done|]. auto. Qed.
End Build.
