(* ===== verification/HalMetadata.v ===== *)
(** * The metadata the HAL builds (camera/MochaCameraHAL.cpp)

    [init_static_characteristics], [camera_device_construct_default_request_settings]
    and [build_result_metadata], entry by entry in the order of the code, with
    the element type of the array each call passes. *)

From S2P Require Import Prelude Monad Float32 Kernel Metadata.

#[local] Open Scope Z_scope.

(** ** Values of the metadata enumerations *)

Definition CAMERA_FACING_BACK : Z := 0.
Definition CAMERA_FACING_FRONT : Z := 1.
Definition CAMERA3_STREAM_OUTPUT : Z := 0.
Definition HAL_PIXEL_FORMAT_YV12 : Z := 0x32315659.
Definition ANDROID_LENS_FACING_FRONT : Z := 0.
Definition ANDROID_LENS_FACING_BACK : Z := 1.
Definition ANDROID_SENSOR_INFO_TIMESTAMP_SOURCE_UNKNOWN : Z := 0.
Definition ANDROID_INFO_SUPPORTED_HARDWARE_LEVEL_LEGACY : Z := 2.
Definition ANDROID_REQUEST_AVAILABLE_CAPABILITIES_BACKWARD_COMPATIBLE : Z := 0.
Definition ANDROID_REQUEST_AVAILABLE_CAPABILITIES_MANUAL_SENSOR : Z := 1.
Definition ANDROID_REQUEST_AVAILABLE_CAPABILITIES_MANUAL_POST_PROCESSING : Z := 2.
Definition ANDROID_CONTROL_SCENE_MODE_DISABLED : Z := 0.
Definition ANDROID_CONTROL_AE_MODE_OFF : Z := 0.
Definition ANDROID_CONTROL_AE_MODE_ON : Z := 1.
Definition ANDROID_CONTROL_AF_MODE_OFF : Z := 0.
Definition ANDROID_CONTROL_AF_MODE_AUTO : Z := 1.
Definition ANDROID_CONTROL_AF_MODE_CONTINUOUS_PICTURE : Z := 4.
Definition ANDROID_CONTROL_AWB_MODE_OFF : Z := 0.
Definition ANDROID_CONTROL_AWB_MODE_AUTO : Z := 1.
Definition ANDROID_HOT_PIXEL_MODE_FAST : Z := 1.
Definition ANDROID_HOT_PIXEL_MODE_HIGH_QUALITY : Z := 2.
Definition ANDROID_EDGE_MODE_OFF : Z := 0.
Definition ANDROID_EDGE_MODE_FAST : Z := 1.
Definition ANDROID_EDGE_MODE_HIGH_QUALITY : Z := 2.
Definition ANDROID_NOISE_REDUCTION_MODE_OFF : Z := 0.
Definition ANDROID_NOISE_REDUCTION_MODE_FAST : Z := 1.
Definition ANDROID_NOISE_REDUCTION_MODE_HIGH_QUALITY : Z := 2.
Definition ANDROID_SHADING_MODE_OFF : Z := 0.
Definition ANDROID_SHADING_MODE_FAST : Z := 1.
Definition ANDROID_SHADING_MODE_HIGH_QUALITY : Z := 2.
Definition ANDROID_STATISTICS_LENS_SHADING_MAP_MODE_OFF : Z := 0.
Definition ANDROID_STATISTICS_FACE_DETECT_MODE_OFF : Z := 0.
Definition ANDROID_TONEMAP_MODE_CONTRAST_CURVE : Z := 0.
Definition ANDROID_TONEMAP_MODE_FAST : Z := 1.
Definition ANDROID_TONEMAP_MODE_HIGH_QUALITY : Z := 2.
Definition ANDROID_SENSOR_INFO_COLOR_FILTER_ARRANGEMENT_RGGB : Z := 0.
Definition ANDROID_CONTROL_AE_LOCK_AVAILABLE_TRUE : Z := 1.
Definition ANDROID_CONTROL_AWB_LOCK_AVAILABLE_TRUE : Z := 1.
Definition ANDROID_LENS_INFO_FOCUS_DISTANCE_CALIBRATION_UNCALIBRATED : Z := 0.
Definition ANDROID_CONTROL_EFFECT_MODE_OFF : Z := 0.
Definition ANDROID_CONTROL_AE_ANTIBANDING_MODE_50HZ : Z := 1.
Definition ANDROID_CONTROL_AE_ANTIBANDING_MODE_60HZ : Z := 2.
Definition ANDROID_CONTROL_AE_ANTIBANDING_MODE_AUTO : Z := 3.
Definition ANDROID_CONTROL_VIDEO_STABILIZATION_MODE_OFF : Z := 0.
Definition ANDROID_LENS_OPTICAL_STABILIZATION_MODE_OFF : Z := 0.
Definition ANDROID_COLOR_CORRECTION_ABERRATION_MODE_OFF : Z := 0.
Definition ANDROID_CONTROL_MODE_OFF : Z := 0.
Definition ANDROID_CONTROL_MODE_AUTO : Z := 1.
Definition ANDROID_SENSOR_TEST_PATTERN_MODE_OFF : Z := 0.
Definition ANDROID_SYNC_MAX_LATENCY_PER_FRAME_CONTROL : Z := 0.
Definition ANDROID_CONTROL_CAPTURE_INTENT_PREVIEW : Z := 1.
Definition ANDROID_CONTROL_CAPTURE_INTENT_STILL_CAPTURE : Z := 2.
Definition ANDROID_CONTROL_CAPTURE_INTENT_VIDEO_RECORD : Z := 3.
Definition ANDROID_CONTROL_CAPTURE_INTENT_ZERO_SHUTTER_LAG : Z := 5.
Definition ANDROID_CONTROL_CAPTURE_INTENT_MANUAL : Z := 6.
Definition ANDROID_REQUEST_METADATA_MODE_FULL : Z := 1.
Definition ANDROID_CONTROL_AE_PRECAPTURE_TRIGGER_IDLE : Z := 0.
Definition ANDROID_CONTROL_AF_TRIGGER_IDLE : Z := 0.
Definition ANDROID_CONTROL_AF_TRIGGER_START : Z := 1.
Definition ANDROID_CONTROL_AF_TRIGGER_CANCEL : Z := 2.
Definition ANDROID_CONTROL_AE_LOCK_OFF : Z := 0.
Definition ANDROID_CONTROL_AWB_LOCK_OFF : Z := 0.
Definition ANDROID_COLOR_CORRECTION_MODE_FAST : Z := 1.
Definition ANDROID_CONTROL_AE_STATE_CONVERGED : Z := 2.
Definition ANDROID_CONTROL_AWB_STATE_CONVERGED : Z := 2.
Definition ANDROID_FLASH_MODE_OFF : Z := 0.
Definition ANDROID_LENS_STATE_STATIONARY : Z := 0.
Definition ANDROID_LENS_STATE_MOVING : Z := 1.
Definition ANDROID_CONTROL_AF_STATE_INACTIVE : Z := 0.
Definition ANDROID_CONTROL_AF_STATE_PASSIVE_SCAN : Z := 1.
Definition ANDROID_CONTROL_AF_STATE_PASSIVE_FOCUSED : Z := 2.
Definition ANDROID_CONTROL_AF_STATE_ACTIVE_SCAN : Z := 3.
Definition ANDROID_CONTROL_AF_STATE_FOCUSED_LOCKED : Z := 4.
Definition ANDROID_CONTROL_AF_STATE_NOT_FOCUSED_LOCKED : Z := 5.
Definition ANDROID_CONTROL_AF_STATE_PASSIVE_UNFOCUSED : Z := 6.
Definition CAMERA3_TEMPLATE_PREVIEW : Z := 1.
Definition CAMERA3_TEMPLATE_STILL_CAPTURE : Z := 2.
Definition CAMERA3_TEMPLATE_VIDEO_RECORD : Z := 3.
Definition CAMERA3_TEMPLATE_ZERO_SHUTTER_LAG : Z := 5.
Definition CAMERA3_TEMPLATE_MANUAL : Z := 6.

(** ** The cameras *)

Record MochaCameraInfo := {
  cameraId : Z; sensorName : string; facing : Z; orientation : Z; maxResolution : Z;
  supportsZSL : bool }.

Definition kCameras : list MochaCameraInfo := [
  {| cameraId := 0; sensorName := "IMX179"; facing := CAMERA_FACING_BACK; orientation := 90;
     maxResolution := 3280; supportsZSL := false |};
  {| cameraId := 1; sensorName := "OV5693"; facing := CAMERA_FACING_FRONT; orientation := 270;
     maxResolution := 2592; supportsZSL := false |}].

Definition kNumCameras : Z := blen kCameras.

(** ** Static characteristics *)

(** The tags listed in the request, result and characteristics key arrays. *)
Definition request_keys : list string := [
  "ANDROID_CONTROL_AE_MODE"; "ANDROID_CONTROL_AE_TARGET_FPS_RANGE"; "ANDROID_CONTROL_AF_MODE";
  "ANDROID_CONTROL_AF_TRIGGER"; "ANDROID_CONTROL_AWB_MODE"; "ANDROID_COLOR_CORRECTION_MODE";
  "ANDROID_CONTROL_MODE"; "ANDROID_FLASH_MODE"; "ANDROID_JPEG_QUALITY";
  "ANDROID_LENS_FOCUS_DISTANCE"; "ANDROID_NOISE_REDUCTION_MODE"; "ANDROID_REQUEST_ID";
  "ANDROID_SCALER_CROP_REGION"; "ANDROID_SENSOR_FRAME_DURATION"; "ANDROID_SENSOR_EXPOSURE_TIME";
  "ANDROID_SENSOR_SENSITIVITY"; "ANDROID_STATISTICS_FACE_DETECT_MODE"].

Definition result_keys : list string := [
  "ANDROID_CONTROL_AE_MODE"; "ANDROID_CONTROL_AE_STATE"; "ANDROID_CONTROL_AF_MODE";
  "ANDROID_CONTROL_AF_TRIGGER"; "ANDROID_CONTROL_AWB_MODE"; "ANDROID_CONTROL_AWB_STATE";
  "ANDROID_CONTROL_MODE"; "ANDROID_FLASH_MODE"; "ANDROID_JPEG_QUALITY";
  "ANDROID_LENS_FOCUS_DISTANCE"; "ANDROID_LENS_STATE"; "ANDROID_REQUEST_ID";
  "ANDROID_SCALER_CROP_REGION"; "ANDROID_SENSOR_EXPOSURE_TIME"; "ANDROID_SENSOR_FRAME_DURATION";
  "ANDROID_SENSOR_SENSITIVITY"; "ANDROID_SENSOR_TIMESTAMP"].

Definition characteristics_keys : list string := [
  "ANDROID_COLOR_CORRECTION_AVAILABLE_ABERRATION_MODES";
  "ANDROID_CONTROL_AE_AVAILABLE_ANTIBANDING_MODES"; "ANDROID_CONTROL_AE_AVAILABLE_MODES";
  "ANDROID_CONTROL_AE_AVAILABLE_TARGET_FPS_RANGES"; "ANDROID_CONTROL_AE_COMPENSATION_RANGE";
  "ANDROID_CONTROL_AE_COMPENSATION_STEP"; "ANDROID_CONTROL_AE_LOCK_AVAILABLE";
  "ANDROID_CONTROL_AF_AVAILABLE_MODES"; "ANDROID_CONTROL_AVAILABLE_EFFECTS";
  "ANDROID_CONTROL_AVAILABLE_MODES"; "ANDROID_CONTROL_AVAILABLE_SCENE_MODES";
  "ANDROID_CONTROL_AVAILABLE_VIDEO_STABILIZATION_MODES"; "ANDROID_CONTROL_AWB_AVAILABLE_MODES";
  "ANDROID_CONTROL_AWB_LOCK_AVAILABLE"; "ANDROID_CONTROL_MAX_REGIONS";
  "ANDROID_EDGE_AVAILABLE_EDGE_MODES"; "ANDROID_FLASH_INFO_AVAILABLE";
  "ANDROID_HOT_PIXEL_AVAILABLE_HOT_PIXEL_MODES"; "ANDROID_INFO_SUPPORTED_HARDWARE_LEVEL";
  "ANDROID_JPEG_AVAILABLE_THUMBNAIL_SIZES"; "ANDROID_JPEG_MAX_SIZE"; "ANDROID_LENS_FACING";
  "ANDROID_LENS_INFO_AVAILABLE_APERTURES"; "ANDROID_LENS_INFO_AVAILABLE_FILTER_DENSITIES";
  "ANDROID_LENS_INFO_AVAILABLE_FOCAL_LENGTHS";
  "ANDROID_LENS_INFO_AVAILABLE_OPTICAL_STABILIZATION";
  "ANDROID_LENS_INFO_FOCUS_DISTANCE_CALIBRATION"; "ANDROID_LENS_INFO_HYPERFOCAL_DISTANCE";
  "ANDROID_LENS_INFO_MINIMUM_FOCUS_DISTANCE";
  "ANDROID_NOISE_REDUCTION_AVAILABLE_NOISE_REDUCTION_MODES";
  "ANDROID_REQUEST_AVAILABLE_CAPABILITIES"; "ANDROID_REQUEST_AVAILABLE_CHARACTERISTICS_KEYS";
  "ANDROID_REQUEST_AVAILABLE_REQUEST_KEYS"; "ANDROID_REQUEST_AVAILABLE_RESULT_KEYS";
  "ANDROID_REQUEST_MAX_NUM_INPUT_STREAMS"; "ANDROID_REQUEST_MAX_NUM_OUTPUT_STREAMS";
  "ANDROID_REQUEST_PARTIAL_RESULT_COUNT"; "ANDROID_REQUEST_PIPELINE_MAX_DEPTH";
  "ANDROID_SCALER_AVAILABLE_MAX_DIGITAL_ZOOM"; "ANDROID_SCALER_AVAILABLE_MIN_FRAME_DURATIONS";
  "ANDROID_SCALER_AVAILABLE_STALL_DURATIONS"; "ANDROID_SCALER_AVAILABLE_STREAM_CONFIGURATIONS";
  "ANDROID_SENSOR_AVAILABLE_TEST_PATTERN_MODES"; "ANDROID_SENSOR_INFO_ACTIVE_ARRAY_SIZE";
  "ANDROID_SENSOR_INFO_COLOR_FILTER_ARRANGEMENT"; "ANDROID_SENSOR_INFO_EXPOSURE_TIME_RANGE";
  "ANDROID_SENSOR_INFO_PHYSICAL_SIZE"; "ANDROID_SENSOR_INFO_PIXEL_ARRAY_SIZE";
  "ANDROID_SENSOR_INFO_PRE_CORRECTION_ACTIVE_ARRAY_SIZE";
  "ANDROID_SENSOR_INFO_SENSITIVITY_RANGE"; "ANDROID_SENSOR_INFO_TIMESTAMP_SOURCE";
  "ANDROID_SENSOR_MAX_ANALOG_SENSITIVITY"; "ANDROID_SENSOR_ORIENTATION";
  "ANDROID_SHADING_AVAILABLE_MODES"; "ANDROID_STATISTICS_INFO_AVAILABLE_FACE_DETECT_MODES";
  "ANDROID_STATISTICS_INFO_AVAILABLE_LENS_SHADING_MAP_MODES";
  "ANDROID_STATISTICS_INFO_MAX_FACE_COUNT"; "ANDROID_SYNC_MAX_LATENCY";
  "ANDROID_TONEMAP_AVAILABLE_TONE_MAP_MODES"].

(** Stream configurations, minimal frame durations and stall durations: rows
    of format, width, height and a fourth column. *)
Definition configs : list Z := [
  HAL_PIXEL_FORMAT_IMPLEMENTATION_DEFINED; 1280; 720; CAMERA3_STREAM_OUTPUT;
  HAL_PIXEL_FORMAT_YCBCR_420_888; 1280; 720; CAMERA3_STREAM_OUTPUT;
  HAL_PIXEL_FORMAT_YV12; 1280; 720; CAMERA3_STREAM_OUTPUT;
  HAL_PIXEL_FORMAT_BLOB; 1280; 720; CAMERA3_STREAM_OUTPUT;
  HAL_PIXEL_FORMAT_BLOB; 1920; 1080; CAMERA3_STREAM_OUTPUT;
  HAL_PIXEL_FORMAT_BLOB; 3280; 2464; CAMERA3_STREAM_OUTPUT].
Definition durations : list Z := [
  HAL_PIXEL_FORMAT_IMPLEMENTATION_DEFINED; 1280; 720; 33333333;
  HAL_PIXEL_FORMAT_YCBCR_420_888; 1280; 720; 33333333;
  HAL_PIXEL_FORMAT_YV12; 1280; 720; 33333333;
  HAL_PIXEL_FORMAT_BLOB; 1280; 720; 500000000;
  HAL_PIXEL_FORMAT_BLOB; 1920; 1080; 500000000;
  HAL_PIXEL_FORMAT_BLOB; 3280; 2464; 500000000].
Definition stall_durations : list Z := [
  HAL_PIXEL_FORMAT_IMPLEMENTATION_DEFINED; 1280; 720; 0;
  HAL_PIXEL_FORMAT_YCBCR_420_888; 1280; 720; 0;
  HAL_PIXEL_FORMAT_YV12; 1280; 720; 0;
  HAL_PIXEL_FORMAT_BLOB; 1280; 720; 500000000;
  HAL_PIXEL_FORMAT_BLOB; 1920; 1080; 500000000;
  HAL_PIXEL_FORMAT_BLOB; 3280; 2464; 500000000].
Definition jpeg_sizes : list Z := [1280; 720; 1920; 1080; 3280; 2464].

Section Static.
Context `{!CameraMetadata}.

Definition static_streams (cam : MochaCameraInfo) : list (string * carray) := [
  ("ANDROID_LENS_FACING", A8 [if facing cam =? CAMERA_FACING_BACK
                              then ANDROID_LENS_FACING_BACK else ANDROID_LENS_FACING_FRONT]);
  ("ANDROID_SENSOR_ORIENTATION", A32 [orientation cam]);
  ("ANDROID_SCALER_AVAILABLE_STREAM_CONFIGURATIONS", A32 configs);
  ("ANDROID_SCALER_AVAILABLE_MIN_FRAME_DURATIONS", A64 durations);
  ("ANDROID_SCALER_AVAILABLE_STALL_DURATIONS", A64 stall_durations);
  ("ANDROID_SCALER_AVAILABLE_PROCESSED_SIZES", A32 [1280; 720]);
  ("ANDROID_SCALER_AVAILABLE_JPEG_SIZES", A32 jpeg_sizes);
  ("ANDROID_SCALER_AVAILABLE_MAX_DIGITAL_ZOOM", AF [f_of_Z 4]);
  ("ANDROID_FLASH_INFO_AVAILABLE", A8 [0])].

Definition static_sensor (id : Z) (cam : MochaCameraInfo) : list (string * carray) :=
  let sensor_width := maxResolution cam in
  let sensor_height := if id =? 0 then 2464 else 1456 in [
  ("ANDROID_SENSOR_INFO_ACTIVE_ARRAY_SIZE", A32 [0; 0; sensor_width; sensor_height]);
  ("ANDROID_SENSOR_INFO_PIXEL_ARRAY_SIZE", A32 [sensor_width; sensor_height]);
  ("ANDROID_SENSOR_INFO_PRE_CORRECTION_ACTIVE_ARRAY_SIZE", A32 [0; 0; sensor_width; sensor_height]);
  ("ANDROID_SENSOR_INFO_PHYSICAL_SIZE",
     AF (if id =? 0 then [f_lit 3676 1000; f_lit 2757 1000] else [f_lit 28 10; f_lit 21 10]));
  ("ANDROID_SENSOR_INFO_TIMESTAMP_SOURCE", A32 [ANDROID_SENSOR_INFO_TIMESTAMP_SOURCE_UNKNOWN]);
  ("ANDROID_INFO_SUPPORTED_HARDWARE_LEVEL", A8 [ANDROID_INFO_SUPPORTED_HARDWARE_LEVEL_LEGACY]);
  ("ANDROID_REQUEST_AVAILABLE_CAPABILITIES", A8 [
     ANDROID_REQUEST_AVAILABLE_CAPABILITIES_BACKWARD_COMPATIBLE;
     ANDROID_REQUEST_AVAILABLE_CAPABILITIES_MANUAL_SENSOR;
     ANDROID_REQUEST_AVAILABLE_CAPABILITIES_MANUAL_POST_PROCESSING])].

Definition static_keys : list (string * carray) := [
  ("ANDROID_REQUEST_AVAILABLE_REQUEST_KEYS", A32 (tag_id <$> request_keys));
  ("ANDROID_REQUEST_AVAILABLE_RESULT_KEYS", A32 (tag_id <$> result_keys))].

Definition static_modes : list (string * carray) := [
  ("ANDROID_CONTROL_AVAILABLE_SCENE_MODES", A8 [ANDROID_CONTROL_SCENE_MODE_DISABLED]);
  ("ANDROID_CONTROL_AE_AVAILABLE_MODES", A8 [ANDROID_CONTROL_AE_MODE_ON; ANDROID_CONTROL_AE_MODE_OFF]);
  ("ANDROID_CONTROL_AF_AVAILABLE_MODES", A8 [ANDROID_CONTROL_AF_MODE_OFF; ANDROID_CONTROL_AF_MODE_AUTO;
     ANDROID_CONTROL_AF_MODE_CONTINUOUS_PICTURE]);
  ("ANDROID_CONTROL_AWB_AVAILABLE_MODES", A8 [ANDROID_CONTROL_AWB_MODE_AUTO; ANDROID_CONTROL_AWB_MODE_OFF]);
  ("ANDROID_CONTROL_AE_AVAILABLE_TARGET_FPS_RANGES", A32 [15; 30]);
  ("ANDROID_JPEG_AVAILABLE_THUMBNAIL_SIZES", A32 [0; 0; 160; 120; 320; 240]);
  ("ANDROID_HOT_PIXEL_AVAILABLE_HOT_PIXEL_MODES",
     A8 [ANDROID_HOT_PIXEL_MODE_FAST; ANDROID_HOT_PIXEL_MODE_HIGH_QUALITY]);
  ("ANDROID_EDGE_AVAILABLE_EDGE_MODES",
     A8 [ANDROID_EDGE_MODE_OFF; ANDROID_EDGE_MODE_FAST; ANDROID_EDGE_MODE_HIGH_QUALITY]);
  ("ANDROID_NOISE_REDUCTION_AVAILABLE_NOISE_REDUCTION_MODES",
     A8 [ANDROID_NOISE_REDUCTION_MODE_OFF; ANDROID_NOISE_REDUCTION_MODE_FAST;
         ANDROID_NOISE_REDUCTION_MODE_HIGH_QUALITY]);
  ("ANDROID_SHADING_AVAILABLE_MODES",
     A8 [ANDROID_SHADING_MODE_OFF; ANDROID_SHADING_MODE_FAST; ANDROID_SHADING_MODE_HIGH_QUALITY]);
  ("ANDROID_STATISTICS_INFO_AVAILABLE_LENS_SHADING_MAP_MODES",
     A8 [ANDROID_STATISTICS_LENS_SHADING_MAP_MODE_OFF]);
  ("ANDROID_STATISTICS_INFO_MAX_FACE_COUNT", A32 [0]);
  ("ANDROID_STATISTICS_INFO_AVAILABLE_FACE_DETECT_MODES", A8 [ANDROID_STATISTICS_FACE_DETECT_MODE_OFF]);
  ("ANDROID_TONEMAP_AVAILABLE_TONE_MAP_MODES",
     A8 [ANDROID_TONEMAP_MODE_CONTRAST_CURVE; ANDROID_TONEMAP_MODE_FAST; ANDROID_TONEMAP_MODE_HIGH_QUALITY]);
  ("ANDROID_SENSOR_INFO_COLOR_FILTER_ARRANGEMENT", A8 [ANDROID_SENSOR_INFO_COLOR_FILTER_ARRANGEMENT_RGGB]);
  ("ANDROID_CONTROL_AE_LOCK_AVAILABLE", A8 [ANDROID_CONTROL_AE_LOCK_AVAILABLE_TRUE]);
  ("ANDROID_CONTROL_AWB_LOCK_AVAILABLE", A8 [ANDROID_CONTROL_AWB_LOCK_AVAILABLE_TRUE])].

Definition static_ranges (id : Z) : list (string * carray) := [
  ("ANDROID_CONTROL_AE_COMPENSATION_RANGE", A32 [-9; 9]);
  ("ANDROID_CONTROL_AE_COMPENSATION_STEP", ARat [(1, 3)]);
  ("ANDROID_SENSOR_INFO_EXPOSURE_TIME_RANGE", A64 [160000; 40000000]);
  ("ANDROID_SENSOR_INFO_SENSITIVITY_RANGE", A32 [100; 1600]);
  ("ANDROID_SENSOR_MAX_ANALOG_SENSITIVITY", A32 [1600]);
  ("ANDROID_JPEG_MAX_SIZE", A32 [3280 * 2464 * 2]);
  ("ANDROID_REQUEST_PIPELINE_MAX_DEPTH", A8 [4]);
  ("ANDROID_REQUEST_MAX_NUM_INPUT_STREAMS", A32 [0]);
  ("ANDROID_LENS_INFO_HYPERFOCAL_DISTANCE", AF [f_of_Z 0]);
  ("ANDROID_LENS_INFO_MINIMUM_FOCUS_DISTANCE", AF [if id =? 0 then f_of_Z 10 else f_of_Z 0]);
  ("ANDROID_LENS_INFO_FOCUS_DISTANCE_CALIBRATION",
     A8 [ANDROID_LENS_INFO_FOCUS_DISTANCE_CALIBRATION_UNCALIBRATED]);
  ("ANDROID_CONTROL_AVAILABLE_EFFECTS", A8 [ANDROID_CONTROL_EFFECT_MODE_OFF]);
  ("ANDROID_CONTROL_AE_AVAILABLE_ANTIBANDING_MODES",
     A8 [ANDROID_CONTROL_AE_ANTIBANDING_MODE_AUTO; ANDROID_CONTROL_AE_ANTIBANDING_MODE_50HZ;
         ANDROID_CONTROL_AE_ANTIBANDING_MODE_60HZ]);
  ("ANDROID_CONTROL_AVAILABLE_VIDEO_STABILIZATION_MODES", A8 [ANDROID_CONTROL_VIDEO_STABILIZATION_MODE_OFF]);
  ("ANDROID_LENS_INFO_AVAILABLE_OPTICAL_STABILIZATION", A8 [ANDROID_LENS_OPTICAL_STABILIZATION_MODE_OFF]);
  ("ANDROID_COLOR_CORRECTION_AVAILABLE_ABERRATION_MODES", A8 [ANDROID_COLOR_CORRECTION_ABERRATION_MODE_OFF])].

Definition static_misc : list (string * carray) := [
  ("ANDROID_CONTROL_AVAILABLE_MODES", A8 [ANDROID_CONTROL_MODE_AUTO; ANDROID_CONTROL_MODE_OFF]);
  ("ANDROID_SENSOR_AVAILABLE_TEST_PATTERN_MODES", A8 [ANDROID_SENSOR_TEST_PATTERN_MODE_OFF]);
  ("ANDROID_LENS_INFO_AVAILABLE_FOCAL_LENGTHS", AF [f_lit 35 10]);
  ("ANDROID_LENS_INFO_AVAILABLE_APERTURES", AF [f_lit 28 10]);
  ("ANDROID_LENS_INFO_AVAILABLE_FILTER_DENSITIES", AF [f_of_Z 0]);
  ("ANDROID_CONTROL_MAX_REGIONS", A32 [1; 1; 0]);
  ("ANDROID_REQUEST_MAX_NUM_OUTPUT_STREAMS", A32 [3; 3; 1]);
  ("ANDROID_REQUEST_PARTIAL_RESULT_COUNT", A32 [1]);
  ("ANDROID_SYNC_MAX_LATENCY", A64 [ANDROID_SYNC_MAX_LATENCY_PER_FRAME_CONTROL]);
  ("ANDROID_REQUEST_AVAILABLE_CHARACTERISTICS_KEYS", A32 (tag_id <$> characteristics_keys))].

Definition static_entries (id : Z) (cam : MochaCameraInfo) : list (string * carray) :=
  static_streams cam ++ static_sensor id cam ++ static_keys ++ static_modes ++ static_ranges id ++
  static_misc.

(** The packet is built once per camera and cached in
    [gCameraCharacteristics].  [None] is undefined behaviour; the function
    returns the packet or a null pointer, and the cache. *)
Definition init_static_characteristics (after : string → list Z) (h : history)
  (cache : list (option md)) (id : Z) : option (option md * list (option md)) :=
  if (id <? 0) || (id >=? 2) then Some (None, cache) else
  c ← ld cache id;
  match c with
  | Some m => Some (Some m, cache)
  | None =>
      cam ← ld kCameras id;
      match allocate_camera_metadata h 100 8192 with
      | None => Some (None, cache)
      | Some m =>
          m ← add_all after m (static_entries id cam);
          let m := sort_camera_metadata m in
          cache ← st cache id (Some m);
          Some (Some m, cache)
      end
  end.
End Static.

(** ** Default request settings *)

Definition default_common : list (string * carray) := [
  ("ANDROID_CONTROL_CAPTURE_INTENT", A8 [ANDROID_CONTROL_CAPTURE_INTENT_PREVIEW]);
  ("ANDROID_REQUEST_METADATA_MODE", A8 [ANDROID_REQUEST_METADATA_MODE_FULL]);
  ("ANDROID_REQUEST_ID", A32 [0]);
  ("ANDROID_CONTROL_AE_MODE", A32 [ANDROID_CONTROL_AE_MODE_ON]);
  ("ANDROID_CONTROL_AWB_MODE", A32 [ANDROID_CONTROL_AWB_MODE_AUTO]);
  ("ANDROID_CONTROL_MODE", A32 [ANDROID_CONTROL_MODE_AUTO]);
  ("ANDROID_CONTROL_SCENE_MODE", A32 [ANDROID_CONTROL_SCENE_MODE_DISABLED]);
  ("ANDROID_CONTROL_AE_TARGET_FPS_RANGE", A32 [15; 30]);
  ("ANDROID_CONTROL_AE_PRECAPTURE_TRIGGER", A32 [ANDROID_CONTROL_AE_PRECAPTURE_TRIGGER_IDLE]);
  ("ANDROID_CONTROL_AF_MODE", A8 [ANDROID_CONTROL_AF_MODE_AUTO]);
  ("ANDROID_CONTROL_AF_TRIGGER", A8 [ANDROID_CONTROL_AF_TRIGGER_IDLE]);
  ("ANDROID_CONTROL_AE_LOCK", A32 [ANDROID_CONTROL_AE_LOCK_OFF]);
  ("ANDROID_CONTROL_AWB_LOCK", A32 [ANDROID_CONTROL_AWB_LOCK_OFF]);
  ("ANDROID_CONTROL_EFFECT_MODE", A32 [ANDROID_CONTROL_EFFECT_MODE_OFF]);
  ("ANDROID_CONTROL_AE_ANTIBANDING_MODE", A8 [ANDROID_CONTROL_AE_ANTIBANDING_MODE_AUTO]);
  ("ANDROID_CONTROL_VIDEO_STABILIZATION_MODE", A32 [ANDROID_CONTROL_VIDEO_STABILIZATION_MODE_OFF]);
  ("ANDROID_EDGE_MODE", A32 [ANDROID_EDGE_MODE_OFF]);
  ("ANDROID_NOISE_REDUCTION_MODE", A32 [ANDROID_NOISE_REDUCTION_MODE_FAST]);
  ("ANDROID_COLOR_CORRECTION_MODE", A32 [ANDROID_COLOR_CORRECTION_MODE_FAST]);
  ("ANDROID_COLOR_CORRECTION_TRANSFORM", A32 [1; 0; 0; 0; 1; 0; 0; 0; 1]);
  ("ANDROID_COLOR_CORRECTION_GAINS", A32 [1; 0; 1; 0]);
  ("ANDROID_TONEMAP_MODE", A32 [ANDROID_TONEMAP_MODE_FAST]);
  ("ANDROID_SHADING_MODE", A32 [ANDROID_SHADING_MODE_FAST]);
  ("ANDROID_STATISTICS_LENS_SHADING_MAP_MODE", A32 [ANDROID_STATISTICS_LENS_SHADING_MAP_MODE_OFF]);
  ("ANDROID_HOT_PIXEL_MODE", A32 [ANDROID_HOT_PIXEL_MODE_FAST]);
  ("ANDROID_STATISTICS_FACE_DETECT_MODE", A32 [ANDROID_STATISTICS_FACE_DETECT_MODE_OFF]);
  ("ANDROID_SENSOR_TEST_PATTERN_MODE", A32 [ANDROID_SENSOR_TEST_PATTERN_MODE_OFF])].

(** The [switch] on the template: the intent, and the entries it adds. *)
Definition default_template (type : Z) : Z * list (string * carray) :=
  if type =? CAMERA3_TEMPLATE_PREVIEW then (ANDROID_CONTROL_CAPTURE_INTENT_PREVIEW, [])
  else if type =? CAMERA3_TEMPLATE_VIDEO_RECORD then (ANDROID_CONTROL_CAPTURE_INTENT_VIDEO_RECORD, [])
  else if type =? CAMERA3_TEMPLATE_STILL_CAPTURE then
    (ANDROID_CONTROL_CAPTURE_INTENT_STILL_CAPTURE, [
       ("ANDROID_JPEG_QUALITY"%string, A8 [95]);
       ("ANDROID_JPEG_THUMBNAIL_QUALITY"%string, A8 [95]);
       ("ANDROID_JPEG_THUMBNAIL_SIZE"%string, A32 [320; 240])])
  else if type =? CAMERA3_TEMPLATE_ZERO_SHUTTER_LAG then
    (ANDROID_CONTROL_CAPTURE_INTENT_ZERO_SHUTTER_LAG, [])
  else if type =? CAMERA3_TEMPLATE_MANUAL then
    (ANDROID_CONTROL_CAPTURE_INTENT_MANUAL, [
       ("ANDROID_CONTROL_AE_MODE"%string, A32 [ANDROID_CONTROL_AE_MODE_OFF]);
       ("ANDROID_CONTROL_AWB_MODE"%string, A32 [ANDROID_CONTROL_AWB_MODE_OFF])])
  else (ANDROID_CONTROL_CAPTURE_INTENT_PREVIEW, []).

Definition default_entries (type : Z) : list (string * carray) :=
  default_common ++ (default_template type).2 ++
  [("ANDROID_CONTROL_CAPTURE_INTENT"%string, A8 [(default_template type).1])].

Definition construct_default_request_settings `{!CameraMetadata} (after : string → list Z)
  (h : history) (type : Z) : option (option md) :=
  match allocate_camera_metadata h 20 80 with
  | None => Some None
  | Some m => m ← add_all after m (default_entries type); Some (Some (sort_camera_metadata m))
  end.

(** ** The metadata of a result *)

(** [(focusPos > 0) ? 10.0f * focusPos / 1023.0f : 0.0f] *)
Definition focus_distance (focusPos : Z) : f32 :=
  if focusPos >? 0 then fdiv (fmul (f_of_Z 10) (f_of_Z focusPos)) (f_of_Z 1023) else f_of_Z 0.

Definition lens_state (afState : Z) : Z :=
  if afState =? 1 then ANDROID_LENS_STATE_MOVING else ANDROID_LENS_STATE_STATIONARY.

Definition result_af_state (afState afMode : Z) : Z :=
  let continuous := afMode =? ANDROID_CONTROL_AF_MODE_CONTINUOUS_PICTURE in
  if afState =? 1 then
    if continuous then ANDROID_CONTROL_AF_STATE_PASSIVE_SCAN else ANDROID_CONTROL_AF_STATE_ACTIVE_SCAN
  else if afState =? 2 then
    if continuous then ANDROID_CONTROL_AF_STATE_PASSIVE_FOCUSED else ANDROID_CONTROL_AF_STATE_FOCUSED_LOCKED
  else if afState =? 3 then
    if continuous then ANDROID_CONTROL_AF_STATE_PASSIVE_UNFOCUSED
    else ANDROID_CONTROL_AF_STATE_NOT_FOCUSED_LOCKED
  else ANDROID_CONTROL_AF_STATE_INACTIVE.

Definition result_entries (frameNumber timestamp exposureNs sensitivity afState focusPos frameDurNs
  afMode : Z) : list (string * carray) := [
  ("ANDROID_CONTROL_AE_MODE", A8 [ANDROID_CONTROL_AE_MODE_ON]);
  ("ANDROID_CONTROL_AE_STATE", A8 [ANDROID_CONTROL_AE_STATE_CONVERGED]);
  ("ANDROID_CONTROL_AWB_MODE", A8 [ANDROID_CONTROL_AWB_MODE_AUTO]);
  ("ANDROID_CONTROL_AWB_STATE", A8 [ANDROID_CONTROL_AWB_STATE_CONVERGED]);
  ("ANDROID_CONTROL_MODE", A8 [ANDROID_CONTROL_MODE_AUTO]);
  ("ANDROID_FLASH_MODE", A8 [ANDROID_FLASH_MODE_OFF]);
  ("ANDROID_JPEG_QUALITY", A8 [95]);
  ("ANDROID_LENS_FOCUS_DISTANCE", AF [focus_distance focusPos]);
  ("ANDROID_LENS_STATE", A8 [lens_state afState]);
  ("ANDROID_CONTROL_AF_MODE", A8 [afMode]);
  ("ANDROID_CONTROL_AF_TRIGGER", A8 [ANDROID_CONTROL_AF_TRIGGER_IDLE]);
  ("ANDROID_CONTROL_AF_STATE", A8 [result_af_state afState afMode]);
  ("ANDROID_REQUEST_ID", A32 [i32 frameNumber]);
  ("ANDROID_SCALER_CROP_REGION", A32 [0; 0; 3280; 2464]);
  ("ANDROID_SENSOR_EXPOSURE_TIME", A64 [exposureNs]);
  ("ANDROID_SENSOR_FRAME_DURATION", A64 [if frameDurNs >? 0 then frameDurNs else 39682540]);
  ("ANDROID_SENSOR_SENSITIVITY", A32 [sensitivity]);
  ("ANDROID_SENSOR_TIMESTAMP", A64 [timestamp])].

Definition build_result_metadata `{!CameraMetadata} (after : string → list Z) (h : history)
  (frameNumber timestamp exposureNs sensitivity afState focusPos frameDurNs afMode : Z)
  : option (option md) :=
  match allocate_camera_metadata h 30 1024 with
  | None => Some None
  | Some m =>
      m ← add_all after m (result_entries frameNumber timestamp exposureNs sensitivity afState
                             focusPos frameDurNs afMode);
      Some (Some (sort_camera_metadata m))
  end.
