(* ===== verification/MetadataSpec.v ===== *)
(** * What the metadata packets contain

    For every packet library that behaves as documented: which of the entries
    the code adds end up in the packet, and which calls read past the array
    they pass. *)

From S2P Require Import Prelude Monad Float32 Kernel Metadata HalMetadata.

#[local] Open Scope Z_scope.

(** ** Sizes *)

Definition elem_size (a : carray) : Z :=
  match a with A8 _ => 1 | A32 _ | AF _ => 4 | A64 _ | ARat _ => 8 end.

(** The bytes the library reads for an entry, and those the array has. *)
Definition need (e : string * carray) : Z := type_size (tag_type e.1) * carray_count e.2.
Definition have (e : string * carray) : Z := elem_size e.2 * carray_count e.2.

(** The calls that read past the end of their array. *)
Definition over_reads (es : list (string * carray)) : list (string * carray) :=
  filter (λ e, have e < need e) es.

#[export] Instance md_type_eq_dec : EqDecision md_type.
Proof. solve_decision. Defined.

(** The tag type an array has the elements for, and the calls whose array is
    of another type than the tag. *)
Definition natural_type (a : carray) : md_type :=
  match a with
  | A8 _ => TYPE_BYTE | A32 _ => TYPE_INT32 | A64 _ => TYPE_INT64 | AF _ => TYPE_FLOAT | ARat _ => TYPE_RATIONAL
  end.
Definition mistyped (es : list (string * carray)) : list (string * carray) :=
  filter (λ e, natural_type e.2 ≠ tag_type e.1) es.

Lemma le_bytes_length n z : length (le_bytes n z) = n.
Proof. revert z. induction n; intros z; simpl; auto. Qed.

Lemma concat_length {A} (f : A → list Z) (k : nat) l :
  (∀ x, length (f x) = k) → length (l ≫= f) = (k * length l)%nat.
Proof.
  intros Hf. induction l as [|x l IH]; [simpl; lia|].
  change ((x :: l) ≫= f) with (f x ++ (l ≫= f)). rewrite length_app, Hf, IH. simpl. lia.
Qed.

Lemma carray_bytes_length a : blen (carray_bytes a) = elem_size a * carray_count a.
Proof.
  unfold blen. destruct a; unfold carray_bytes, elem_size, carray_count, blen.
  - rewrite (concat_length _ 1) by (intros; apply le_bytes_length). lia.
  - rewrite (concat_length _ 4) by (intros; apply le_bytes_length). lia.
  - rewrite (concat_length _ 8) by (intros; apply le_bytes_length). lia.
  - rewrite (concat_length _ 4) by (intros; apply le_bytes_length). lia.
  - rewrite (concat_length _ 8); [lia|]. intros. rewrite length_app, !le_bytes_length. done.
Qed.

Lemma need_nonneg e : 0 <= need e.
Proof.
  unfold need. apply Z.mul_nonneg_nonneg; [by destruct (tag_type _)|].
  destruct e.2; apply blen_nonneg.
Qed.

Definition size_of (n : Z) : Z := if n <=? 4 then 0 else (n + 7) / 8 * 8.
Definition total_size (es : list (string * carray)) : Z := foldr (λ e n, size_of (need e) + n) 0 es.

Section Packets.
Context `{!CameraMetadata, !CameraMetadataOk _} (after : string → list Z).

(** Enough memory follows every array that is read past its end. *)
Definition readable (es : list (string * carray)) : Prop :=
  Forall (λ e, need e <= have e + blen (after e.1)) (over_reads es).

(** What ends up in a packet for a call. *)
Definition stored (e : string * carray) : md_entry :=
  (e.1, take (Z.to_nat (need e)) (carray_bytes e.2 ++ after e.1)).

Lemma readable_all es e : readable es → e ∈ es → need e <= have e + blen (after e.1).
Proof.
  intros Hr He. destruct (decide (have e < need e)) as [Hs|Hs].
  - unfold readable in Hr. rewrite Forall_forall in Hr. apply Hr.
    by apply list_elem_of_filter.
  - pose proof (blen_nonneg (after e.1)). lia.
Qed.

Lemma stored_length es e : readable es → e ∈ es → blen (stored e).2 = need e.
Proof.
  intros Hr He. pose proof (readable_all es e Hr He) as Hn. pose proof (need_nonneg e).
  pose proof (carray_bytes_length e.2) as Hl. unfold have in Hn. unfold stored, blen in *. simpl.
  rewrite length_take, length_app. lia.
Qed.

Lemma payload_stored es e : readable es → e ∈ es → payload after e = Some (stored e).
Proof.
  intros Hr He. pose proof (readable_all es e Hr He) as Hn. pose proof (need_nonneg e).
  pose proof (carray_bytes_length e.2) as Hl. unfold have in Hn. unfold payload, entry_bytes.
  assert (ldn (carray_bytes e.2 ++ after e.1) 0 (type_size (tag_type e.1) * carray_count e.2)
          = Some (stored e).2) as ->; [|done].
  unfold ldn. fold (need e). rewrite bool_decide_true; [done|].
  unfold blen in *. rewrite length_app. lia.
Qed.

Lemma readable_mapM es es' : readable es → es' ⊆ es → mapM (payload after) es' = Some (stored <$> es').
Proof.
  intros Hr. induction es' as [|e es' IH]; intros Hsub; simpl; [done|].
  rewrite (payload_stored es e) by (done || apply Hsub; left). simpl.
  rewrite IH; [done|]. intros x Hx. apply Hsub. by right.
Qed.

Lemma data_used_stored es es' : readable es → es' ⊆ es → data_used (stored <$> es') = total_size es'.
Proof.
  intros Hr. induction es' as [|e es' IH]; intros Hsub; [done|].
  change (data_size (stored e).2 + data_used (stored <$> es') = size_of (need e) + total_size es').
  rewrite IH by (intros x Hx; apply Hsub; by right). f_equal. unfold data_size, size_of.
  rewrite (stored_length es e) by (done || apply Hsub; left). done.
Qed.

(** Packing a list whose first part fits and, when there is more, fills the
    packet: exactly the first part is stored. *)
Lemma pack_first h ec dc m es1 es2 :
  allocate_camera_metadata h ec dc = Some m → readable (es1 ++ es2) →
  blen es1 <= ec → total_size es1 <= dc → (es2 = [] ∨ blen es1 = ec) →
  ∃ m', add_all after m (es1 ++ es2) = Some m' ∧ md_entries m' = stored <$> es1.
Proof.
  intros Ha Hr Hec Hdc Hfull. apply md_allocate in Ha as (E0 & Eec & Edc).
  destruct (add_all_accept after (es1 ++ es2) (stored <$> (es1 ++ es2)) m) as (m' & E & _ & _ & E3).
  { by apply (readable_mapM (es1 ++ es2)). }
  exists m'. split; [exact E|]. rewrite E3, E0, Eec, Edc, fmap_app, accept_app.
  assert (accept ec dc [] (stored <$> es1) = stored <$> es1) as ->.
  { rewrite accept_fits; [done| |].
    - unfold blen in *. rewrite length_fmap. simpl. lia.
    - rewrite (data_used_stored (es1 ++ es2)); [simpl; lia|done|].
      intros x Hx. apply elem_of_app. by left. }
  destruct Hfull as [->|Hf]; [done|]. apply accept_full. unfold blen in *. rewrite length_fmap. lia.
Qed.

Lemma find_stored m es t e :
  md_entries m ≡ₚ stored <$> es → NoDup es.*1 → e ∈ es → e.1 = t →
  find_camera_metadata_entry m t = Some (stored e).2.
Proof.
  intros Hp Hnd He <-. destruct (find_camera_metadata_entry m e.1) as [b|] eqn:Hf.
  - apply md_find in Hf. rewrite Hp in Hf. apply list_elem_of_fmap in Hf as (e' & E & He').
    injection E as E1 ->. f_equal. f_equal.
    apply list_elem_of_lookup in He as [i Hi], He' as [j Hj].
    assert (i = j) as ->; [|by simplify_eq].
    eapply NoDup_lookup; [exact Hnd| |]; rewrite list_lookup_fmap; [by rewrite Hi|rewrite Hj].
    simpl. by rewrite E1.
  - exfalso. apply (md_find_none _ _ Hf (stored e).2). rewrite Hp.
    apply list_elem_of_fmap. exists e. split; [|done]. by destruct e.
Qed.

Lemma find_absent m es t :
  md_entries m ≡ₚ stored <$> es → t ∉ es.*1 → find_camera_metadata_entry m t = None.
Proof.
  intros Hp Ht. destruct (find_camera_metadata_entry m t) as [b|] eqn:Hf; [|done].
  exfalso. apply Ht. apply md_find in Hf. rewrite Hp in Hf.
  apply list_elem_of_fmap in Hf as (e & E & He). injection E as -> _.
  by apply list_elem_of_fmap_2.
Qed.

(** ** Default request settings *)

Lemma default_over_reads type :
  over_reads (default_entries type) = [("ANDROID_COLOR_CORRECTION_TRANSFORM"%string, A32 [1; 0; 0; 0; 1; 0; 0; 0; 1])].
Proof.
  unfold default_entries, default_template.
  repeat (destruct (type =? _); [vm_compute; reflexivity|]). vm_compute. reflexivity.
Qed.

(** The template argument of the default request settings has no effect.
    The packet has room for 20 entries and the code adds 27 common ones, so
    for every template the packet holds exactly the first twenty: the intent
    is always PREVIEW, the manual template leaves auto exposure on, and the
    JPEG settings of the still template, the tone map, shading, hot pixel and
    face detection modes and the updated intent are refused.  The colour
    transform is read past its array: half of its 72 bytes are whatever
    follows it in memory. *)
Theorem default_settings_ignore_template h type m0
  (Ha : allocate_camera_metadata h 20 80 = Some m0)
  (Hr : 36 <= blen (after "ANDROID_COLOR_CORRECTION_TRANSFORM")) :
  ∃ m, construct_default_request_settings after h type = Some (Some m) ∧
    md_entries m ≡ₚ stored <$> take 20 default_common ∧
    find_camera_metadata_entry m "ANDROID_CONTROL_CAPTURE_INTENT" = Some [ANDROID_CONTROL_CAPTURE_INTENT_PREVIEW] ∧
    find_camera_metadata_entry m "ANDROID_CONTROL_AE_MODE" = Some [ANDROID_CONTROL_AE_MODE_ON] ∧
    find_camera_metadata_entry m "ANDROID_JPEG_QUALITY" = None ∧
    find_camera_metadata_entry m "ANDROID_TONEMAP_MODE" = None ∧
    find_camera_metadata_entry m "ANDROID_COLOR_CORRECTION_TRANSFORM"
      = Some (([1; 0; 0; 0; 1; 0; 0; 0; 1] ≫= le_bytes 4) ++
              take 36 (after "ANDROID_COLOR_CORRECTION_TRANSFORM")).
Proof.
  set (rest := drop 20 default_common ++ (default_template type).2 ++
    [("ANDROID_CONTROL_CAPTURE_INTENT"%string, A8 [(default_template type).1])]).
  assert (default_entries type = take 20 default_common ++ rest) as Es by done.
  destruct (pack_first h 20 80 m0 (take 20 default_common) rest) as (m & E & Em).
  { done. }
  { rewrite <- Es. unfold readable. rewrite default_over_reads. apply Forall_singleton.
    assert (need ("ANDROID_COLOR_CORRECTION_TRANSFORM"%string, A32 [1; 0; 0; 0; 1; 0; 0; 0; 1]) = 72) as ->
      by (vm_compute; reflexivity).
    change (72 <= 36 + blen (after "ANDROID_COLOR_CORRECTION_TRANSFORM")). lia. }
  1-2: vm_compute; discriminate.
  { right. vm_compute. reflexivity. }
  exists (sort_camera_metadata m). unfold construct_default_request_settings. rewrite Ha, Es, E.
  split; [done|]. assert (md_entries (sort_camera_metadata m) ≡ₚ stored <$> take 20 default_common) as Hp.
  { by rewrite md_sort, Em. }
  assert (NoDup (take 20 default_common).*1) as Hnd.
  { apply (bool_decide_unpack _). vm_compute. exact I. }
  split; [done|]. split_and!.
  - apply (find_stored _ _ _ ("ANDROID_CONTROL_CAPTURE_INTENT"%string, A8 [1]) Hp Hnd); [left|done].
  - apply (find_stored _ _ _ ("ANDROID_CONTROL_AE_MODE"%string, A32 [1]) Hp Hnd); [|done].
    by do 3 right; left.
  - apply (find_absent _ _ _ Hp). apply (bool_decide_unpack _). vm_compute. exact I.
  - apply (find_absent _ _ _ Hp). apply (bool_decide_unpack _). vm_compute. exact I.
  - rewrite (find_stored _ _ _ ("ANDROID_COLOR_CORRECTION_TRANSFORM"%string,
      A32 [1; 0; 0; 0; 1; 0; 0; 0; 1]) Hp Hnd); [done| |done].
    by do 19 right; left.
Qed.

(** ** Result metadata *)

Definition tags_of (m : md) : list string := (md_entries m).*1.

(** The metadata of a result is complete.  Whatever the values, all 18
    entries fit the packet, no call reads past its argument, every tag occurs
    once, every tag advertised as a result key is present, and the entries
    carry the frame number, the time stamp, the exposure and the autofocus
    state the pipeline reported; the autofocus state itself is reported
    although it is not an advertised result key. *)
Theorem result_metadata_complete h m0 frame ts exp sens af pos dur mode
  (Ha : allocate_camera_metadata h 30 1024 = Some m0) :
  ∃ m, build_result_metadata after h frame ts exp sens af pos dur mode = Some (Some m) ∧
    NoDup (tags_of m) ∧ result_keys ⊆ tags_of m ∧ length (tags_of m) = 18%nat ∧
    find_camera_metadata_entry m "ANDROID_REQUEST_ID" = Some (le_bytes 4 (i32 frame)) ∧
    find_camera_metadata_entry m "ANDROID_SENSOR_TIMESTAMP" = Some (le_bytes 8 ts) ∧
    find_camera_metadata_entry m "ANDROID_SENSOR_EXPOSURE_TIME" = Some (le_bytes 8 exp) ∧
    find_camera_metadata_entry m "ANDROID_CONTROL_AF_STATE" = Some [result_af_state af mode mod 256] ∧
    "ANDROID_CONTROL_AF_STATE"%string ∉ result_keys.
Proof.
  set (es := result_entries frame ts exp sens af pos dur mode).
  assert (over_reads es = []) as Ho by (vm_compute; reflexivity).
  destruct (pack_first h 30 1024 m0 es []) as (m & E & Em).
  { done. }
  { rewrite app_nil_r. unfold readable. by rewrite Ho. }
  1-2: vm_compute; discriminate.
  { by left. }
  rewrite app_nil_r in E. exists (sort_camera_metadata m). unfold build_result_metadata. rewrite Ha.
  fold es. rewrite E. split; [done|].
  assert (md_entries (sort_camera_metadata m) ≡ₚ stored <$> es) as Hp by by rewrite md_sort, Em.
  assert (NoDup es.*1) as Hnd by (apply (bool_decide_unpack _); vm_compute; exact I).
  assert (tags_of (sort_camera_metadata m) ≡ₚ es.*1) as Ht.
  { unfold tags_of. rewrite Hp, <- list_fmap_compose. done. }
  rewrite Ht. split_and!; [done| |done|..].
  - apply (bool_decide_unpack _). vm_compute. exact I.
  - apply (find_stored _ _ _ ("ANDROID_REQUEST_ID"%string, A32 [i32 frame]) Hp Hnd); [|done].
    by do 12 right; left.
  - apply (find_stored _ _ _ ("ANDROID_SENSOR_TIMESTAMP"%string, A64 [ts]) Hp Hnd); [|done].
    by do 17 right; left.
  - apply (find_stored _ _ _ ("ANDROID_SENSOR_EXPOSURE_TIME"%string, A64 [exp]) Hp Hnd); [|done].
    by do 14 right; left.
  - apply (find_stored _ _ _ ("ANDROID_CONTROL_AF_STATE"%string, A8 [result_af_state af mode]) Hp Hnd);
      [|done]. by do 11 right; left.
  - apply (bool_decide_unpack _). vm_compute. exact I.
Qed.

(** ** Static characteristics *)

(** The rows of a stream table: format, width, height and the last column. *)
Fixpoint rows4 (l : list Z) : list (Z * Z * Z * Z) :=
  match l with f :: w :: h :: d :: l' => (f, w, h, d) :: rows4 l' | _ => [] end.
Definition row_stream (r : Z * Z * Z * Z) : Z * Z * Z := r.1.

Fixpoint pairs (l : list Z) : list (Z * Z) :=
  match l with w :: h :: l' => (w, h) :: pairs l' | _ => [] end.

(** Every advertised stream has a minimal frame duration and a stall duration,
    and the JPEG sizes are those of the BLOB streams. *)
Definition streams_consistent : Prop :=
  row_stream <$> rows4 configs = row_stream <$> rows4 durations ∧
  row_stream <$> rows4 configs = row_stream <$> rows4 stall_durations ∧
  pairs jpeg_sizes = (λ r, (r.1.1.2, r.1.2)) <$>
    filter (λ r, r.1.1.1 = HAL_PIXEL_FORMAT_BLOB) (rows4 configs).

Lemma static_facts id cam :
  id = 0 ∨ id = 1 →
  over_reads (static_entries id cam) = [("ANDROID_SENSOR_AVAILABLE_TEST_PATTERN_MODES"%string, A8 [0])] ∧
  (mistyped (static_entries id cam)).*1 =
    ["ANDROID_SENSOR_INFO_TIMESTAMP_SOURCE"; "ANDROID_SENSOR_AVAILABLE_TEST_PATTERN_MODES"; "ANDROID_SYNC_MAX_LATENCY"]%string ∧
  NoDup (static_entries id cam).*1 ∧ characteristics_keys ⊆ (static_entries id cam).*1 ∧
  blen (static_entries id cam) <= 100 ∧ total_size (static_entries id cam) <= 8192.
Proof.
  intros [-> | ->]; do 2 (split; [vm_compute; reflexivity|]); split_and!;
    try (apply (bool_decide_unpack _); vm_compute; exact I).
Qed.

(** C40: the static characteristics of both cameras.  All entries fit the
    packet (100 entries, 8192 bytes), each tag occurs once, every key in the
    advertised list of characteristics is present, every advertised stream
    configuration has both durations and the JPEG sizes are the sizes of the
    BLOB streams; the packet is built once and later calls return the same one.
    Every entry is added from an array of its tag's type, except three: the
    timestamp source (an int32 for a byte tag), the synchronisation latency (an
    int64 for an int32 tag) and the test pattern modes (a byte for an int32
    tag), the last of which is the only call that reads past its array, by
    three bytes. *)
Theorem static_characteristics_complete h h' cache id cam m0
  (Hid : id = 0 ∨ id = 1) (Hcam : ld kCameras id = Some cam) (Hc : ld cache id = Some None)
  (Ha : allocate_camera_metadata h 100 8192 = Some m0)
  (Hr : 3 <= blen (after "ANDROID_SENSOR_AVAILABLE_TEST_PATTERN_MODES")) :
  ∃ m cache', init_static_characteristics after h cache id = Some (Some m, cache') ∧
    md_entries m ≡ₚ stored <$> static_entries id cam ∧ NoDup (tags_of m) ∧
    characteristics_keys ⊆ tags_of m ∧ streams_consistent ∧
    (mistyped (static_entries id cam)).*1 =
      ["ANDROID_SENSOR_INFO_TIMESTAMP_SOURCE"; "ANDROID_SENSOR_AVAILABLE_TEST_PATTERN_MODES"; "ANDROID_SYNC_MAX_LATENCY"]%string ∧
    over_reads (static_entries id cam) = [("ANDROID_SENSOR_AVAILABLE_TEST_PATTERN_MODES"%string, A8 [0])] ∧
    init_static_characteristics after h' cache' id = Some (Some m, cache').
Proof.
  destruct (static_facts id cam Hid) as (Ho & Hty & Hnd & Hk & Hl & Hs).
  destruct (pack_first h 100 8192 m0 (static_entries id cam) []) as (m & E & Em); [done| |done|done|by left|].
  { rewrite app_nil_r. unfold readable. rewrite Ho. apply Forall_singleton.
    assert (need ("ANDROID_SENSOR_AVAILABLE_TEST_PATTERN_MODES"%string, A8 [0]) = 4) as ->
      by (vm_compute; reflexivity).
    change (4 <= 1 + blen (after "ANDROID_SENSOR_AVAILABLE_TEST_PATTERN_MODES")). lia. }
  rewrite app_nil_r in E.
  pose proof (ld_Some_bounds _ _ _ Hc) as Hb.
  destruct (stn_defined cache id [Some (sort_camera_metadata m)]) as [cache' Ec];
    [lia|change (blen [_]) with 1; lia|].
  assert ((id <? 0) || (id >=? 2) = false) as Hi by (destruct Hid as [-> | ->]; done).
  exists (sort_camera_metadata m), cache'.
  assert (md_entries (sort_camera_metadata m) ≡ₚ stored <$> static_entries id cam) as Hp by by rewrite md_sort, Em.
  assert (tags_of (sort_camera_metadata m) ≡ₚ (static_entries id cam).*1) as Ht.
  { unfold tags_of. rewrite Hp, <- list_fmap_compose. done. }
  split_and!.
  - unfold init_static_characteristics. rewrite Hi, Hc. cbn [mbind option_bind].
    rewrite Hcam. cbn [mbind option_bind]. rewrite Ha, E. cbn [mbind option_bind].
    unfold st. rewrite Ec. reflexivity.
  - done.
  - by rewrite Ht.
  - by rewrite Ht.
  - split_and!; vm_compute; reflexivity.
  - exact Hty.
  - exact Ho.
  - unfold init_static_characteristics. rewrite Hi.
    destruct (stn_spec _ _ _ _ Ec) as [_ Hspec]. rewrite Hspec. change (blen [_]) with 1.
    rewrite bool_decide_true by lia. by replace (id - id) with 0 by lia.
Qed.
End Packets.

(** ** Instances *)

#[local] Existing Instance list_metadata.

Definition stack_bytes (_ : string) : list Z := replicate 64 0xAA.

Lemma default_settings_ignore_template_witness :
  ∃ m, construct_default_request_settings stack_bytes [] CAMERA3_TEMPLATE_STILL_CAPTURE = Some (Some m) ∧
    find_camera_metadata_entry m "ANDROID_CONTROL_CAPTURE_INTENT" = Some [ANDROID_CONTROL_CAPTURE_INTENT_PREVIEW].
Proof.
  destruct (@default_settings_ignore_template list_metadata _ stack_bytes [] CAMERA3_TEMPLATE_STILL_CAPTURE
    _ eq_refl ltac:(vm_compute; discriminate))
    as (m & E & _ & Hi & _).
  exists m. split; [exact E|exact Hi].
Defined.

Lemma result_metadata_complete_witness :
  ∃ m, build_result_metadata stack_bytes [] 7 1000 20000000 64 2 400 0 4 = Some (Some m) ∧
    find_camera_metadata_entry m "ANDROID_CONTROL_AF_STATE" = Some [ANDROID_CONTROL_AF_STATE_PASSIVE_FOCUSED].
Proof.
  destruct (@result_metadata_complete list_metadata _ stack_bytes [] _
    7 1000 20000000 64 2 400 0 4 eq_refl) as (m & E & _ & _ & _ & _ & _ & _ & Ha & _).
  exists m. split; [exact E|exact Ha].
Defined.

Lemma static_characteristics_complete_witness :
  ∃ cam m cache', ld kCameras 1 = Some cam ∧ sensorName cam = "OV5693"%string ∧
    init_static_characteristics stack_bytes [] [None; None] 1 = Some (Some m, cache') ∧
    NoDup (tags_of m).
Proof.
  destruct (ld kCameras 1) as [cam|] eqn:Ec; [|vm_compute in Ec; discriminate].
  destruct (@static_characteristics_complete list_metadata _ stack_bytes [] [] [None; None] 1 cam
    _ (or_intror eq_refl) Ec eq_refl eq_refl
    ltac:(vm_compute; discriminate)) as (m & cache' & E & _ & Hn & _).
  exists cam, m, cache'. split; [done|]. split; [|split; [exact E|exact Hn]].
  vm_compute in Ec. injection Ec as <-. reflexivity.
Defined.
