(* ===== verification/MetadataBox.v ===== *)
(** * The metadata container (libmocha/camera/CameraMetadata.cpp)

    [CameraMetadata] owns one packet of the packet library, grows it when an
    entry does not fit and can be locked.  Packets live at addresses, since
    objects pass them to each other: a packet that is used after it was freed,
    or freed twice, is undefined.  The packet library, the allocator and the
    parcel are parameters. *)

From S2P Require Import Prelude Monad Metadata.

#[local] Open Scope string_scope.
#[local] Open Scope list_scope.
#[local] Open Scope Z_scope.

Definition OK : Z := 0.
Definition NO_MEMORY : Z := -12.
Definition BAD_VALUE : Z := -22.
Definition INVALID_OPERATION : Z := -38.
Definition NAME_NOT_FOUND : Z := -2.
Definition TYPE_BYTE : Z := 0.
Definition TYPE_INT32 : Z := 1.
Definition TYPE_FLOAT : Z := 2.
Definition TYPE_INT64 : Z := 3.
Definition TYPE_DOUBLE : Z := 4.
Definition TYPE_RATIONAL : Z := 5.

(** ** The packet library and the allocator *)

Abbreviation entry := (Z * list Z)%type.

Class PacketLib := {
  packet : Type;
  pk_new : Z → Z → packet;                                  (* entries and bytes of data it has room for *)
  pk_clone : packet → packet;
  get_camera_metadata_entry_count : packet → Z;
  get_camera_metadata_entry_capacity : packet → Z;
  get_camera_metadata_data_count : packet → Z;
  get_camera_metadata_data_capacity : packet → Z;
  get_camera_metadata_size : packet → Z;
  append_camera_metadata : packet → packet → Z * packet;
  sort_camera_metadata : packet → Z * packet;
  find_camera_metadata_entry : packet → Z → Z + Z * list Z; (* the error, or the index and the data *)
  add_camera_metadata_entry : packet → Z → list Z → Z * packet;
  update_camera_metadata_entry : packet → Z → list Z → Z * packet;
  delete_camera_metadata_entry : packet → Z → Z * packet;
  get_camera_metadata_tag_type : Z → Z;                     (* -1 for a tag it does not know *)
  calculate_camera_metadata_entry_data_size : Z → Z → Z;
  null_error : Z;                                           (* the answer of these functions to a null packet *)
  compact : packet → list Z;                                (* the bytes of [copy_camera_metadata] *)
  checked : list Z → option packet;                         (* what [allocate_copy_camera_metadata_checked] makes of them *)
  metadata_alignment : Z;
  pk_entries : packet → list entry;                         (* for the laws: tags and data *)
  (* the allocator: how often it was asked, the addresses in use, the sizes *)
  alloc : nat → gset Z → Z → Z → option Z }.

(** The parcel: a blob is a block of bytes at an address of the parcel's. *)
Class BlobParcel := {
  bparcel : Type;
  b_writeInt32 : Z → bparcel → Z * bparcel;
  b_writeBlob : Z → bparcel → Z + Z * list Z;               (* the error, or the address and the bytes there *)
  b_fill : list Z → bparcel → bparcel;                      (* the bytes a new blob ends up with *)
  b_readInt32 : bparcel → (Z * Z) * bparcel;
  b_readBlob : Z → bparcel → Z + list Z * bparcel;
  b_items : bparcel → list (Z + list Z) }.                  (* for the laws: integers and blobs *)

(** [struct CameraMetadata] *)
Record CameraMetadata := mkBox { mBuffer : option Z; mLocked : bool }.
#[export] Instance box_eta : Eta CameraMetadata := λ b, mkBox (mBuffer b) (mLocked b).

Record mworld `{PacketLib} := MWorld { packets : gmap Z packet; allocs : nat; boxes : gmap nat CameraMetadata }.
Arguments MWorld {_} _ _ _.
#[export] Instance mworld_eta `{PacketLib} : Eta mworld := λ w, MWorld (packets w) (allocs w) (boxes w).

(** The arrays [update] is called with, floats as their bits. *)
Inductive md_data :=
  | DInt32 (l : list Z) | DByte (l : list Z) | DFloat (l : list Z) | DInt64 (l : list Z) | DDouble (l : list Z)
  | DRational (l : list (Z * Z)) | DString (l : list Z).
Definition expected_type (d : md_data) : Z :=
  match d with
  | DInt32 _ => TYPE_INT32 | DByte _ | DString _ => TYPE_BYTE | DFloat _ => TYPE_FLOAT | DInt64 _ => TYPE_INT64
  | DDouble _ => TYPE_DOUBLE | DRational _ => TYPE_RATIONAL
  end.
(** A string is stored with its terminator. *)
Definition data_count (d : md_data) : Z :=
  match d with DInt32 l | DByte l | DFloat l | DInt64 l | DDouble l => blen l | DRational l => blen l | DString l => blen l + 1 end.
Definition data_bytes (d : md_data) : list Z :=
  match d with
  | DInt32 l | DFloat l => l ≫= le_bytes 4
  | DByte l => l ≫= le_bytes 1
  | DInt64 l | DDouble l => l ≫= le_bytes 8
  | DRational l => l ≫= (λ r, le_bytes 4 r.1 ++ le_bytes 4 r.2)
  | DString l => (l ≫= le_bytes 1) ++ [0]
  end.

Section Box.
Context `{PacketLib}.
Abbreviation MM := (ST mworld).

(** ** Memory *)

Definition new_packet (entries data : Z) (p : packet) : MM (option Z) := λ w,
  match alloc (allocs w) (dom (packets w)) entries data with
  | None => Some (None, w <| allocs := S (allocs w) |>)
  | Some a => Some (Some a, w <| allocs := S (allocs w) |> <| packets := <[a := p]> (packets w) |>)
  end.
Definition allocate_camera_metadata (entries data : Z) : MM (option Z) := new_packet entries data (pk_new entries data).
Definition deref (a : Z) : MM packet := λ w, p ← packets w !! a; Some (p, w).
Definition store (a : Z) (p : packet) : MM () := λ w, _ ← packets w !! a; Some ((), w <| packets := <[a := p]> (packets w) |>).
Definition free_camera_metadata (a : Z) : MM () := λ w, _ ← packets w !! a; Some ((), w <| packets := delete a (packets w) |>).
Definition clone_camera_metadata (a : option Z) : MM (option Z) :=
  match a with
  | None => mret None
  | Some a => p ← deref a; new_packet (get_camera_metadata_entry_count p) (get_camera_metadata_data_count p) (pk_clone p)
  end.

Definition this (o : nat) : MM CameraMetadata := λ w, b ← boxes w !! o; Some (b, w).
Definition set_this (o : nat) (b : CameraMetadata) : MM () := modify (λ w, w <| boxes := <[o := b]> (boxes w) |>).
Definition set_mBuffer (o : nat) (a : option Z) : MM () := b ← this o; set_this o (b <| mBuffer := a |>).

(** ** Life and ownership *)

Definition clear (o : nat) : MM () :=
  b ← this o;
  if mLocked b then mret () else
  match mBuffer b with
  | None => mret ()
  | Some a => free_camera_metadata a;; set_mBuffer o None
  end.

(** The result of the validation is only logged. *)
Definition acquire (o : nat) (buffer : option Z) : MM () :=
  b ← this o;
  if mLocked b then mret () else clear o;; set_mBuffer o buffer.

Definition release (o : nat) : MM (option Z) :=
  b ← this o;
  if mLocked b then mret None else set_mBuffer o None;; mret (mBuffer b).

Definition acquire_from (o other : nat) : MM () :=
  b ← this o;
  if mLocked b then mret () else a ← release other; acquire o a.

(** The constructors, of an object at a new name. *)
Definition box_new (o : nat) : MM () := set_this o (mkBox None false).
Definition box_sized (o : nat) (entryCapacity dataCapacity : Z) : MM () :=
  a ← allocate_camera_metadata entryCapacity dataCapacity; set_this o (mkBox a false).
Definition box_copy (o other : nat) : MM () :=
  b ← this other; a ← clone_camera_metadata (mBuffer b); set_this o (mkBox a false).
Definition box_of (o : nat) (buffer : option Z) : MM () := box_new o;; acquire o buffer.
Definition box_destroy (o : nat) : MM () :=
  b ← this o; set_this o (b <| mLocked := false |>);; clear o;; modify (λ w, w <| boxes := delete o (boxes w) |>).

(** [operator=] *)
Definition assign (o : nat) (buffer : option Z) : MM () :=
  b ← this o;
  if mLocked b then mret () else
  if bool_decide (buffer = mBuffer b) then mret () else
  newBuffer ← clone_camera_metadata buffer;
  clear o;; set_mBuffer o newBuffer.
Definition assign_from (o other : nat) : MM () := b ← this other; assign o (mBuffer b).

Definition getAndLock (o : nat) : MM (option Z) := b ← this o; set_this o (b <| mLocked := true |>);; mret (mBuffer b).
Definition unlock (o : nat) (buffer : option Z) : MM Z :=
  b ← this o;
  if negb (mLocked b) then mret INVALID_OPERATION else
  if negb (bool_decide (buffer = mBuffer b)) then mret BAD_VALUE else
  set_this o (b <| mLocked := false |>);; mret OK.

Definition swap (o other : nat) : MM () :=
  b ← this o; c ← this other;
  if mLocked b then mret () else if mLocked c then mret () else
  set_mBuffer other (mBuffer b);; set_mBuffer o (mBuffer c).

(** ** Growing *)

Definition new_count (count capacity extra : Z) : Z := let n := u32 (count + extra) in if n >? capacity then u32 (n * 2) else capacity.

(** When there is no memory [mBuffer] is left null and the old packet stays
    allocated. *)
Definition resizeIfNeeded (o : nat) (extraEntries extraData : Z) : MM Z :=
  b ← this o;
  match mBuffer b with
  | None =>
      a ← allocate_camera_metadata (u32 (extraEntries * 2)) (u32 (extraData * 2));
      set_mBuffer o a;;
      mret (match a with None => NO_MEMORY | Some _ => OK end)
  | Some old =>
      p ← deref old;
      let newEntryCount := new_count (get_camera_metadata_entry_count p) (get_camera_metadata_entry_capacity p) extraEntries in
      let newDataCount := new_count (get_camera_metadata_data_count p) (get_camera_metadata_data_capacity p) extraData in
      if (newEntryCount >? get_camera_metadata_entry_capacity p) || (newDataCount >? get_camera_metadata_data_capacity p) then
        a ← allocate_camera_metadata newEntryCount newDataCount;
        set_mBuffer o a;;
        match a with
        | None => mret NO_MEMORY
        | Some new =>
            q ← deref new; p ← deref old;
            store new (append_camera_metadata q p).2;;
            free_camera_metadata old;;
            mret OK
        end
      else mret OK
  end.

(** ** Entries *)

(** The counts of a null [other] are read through the null pointer. *)
Definition append (o : nat) (other : option Z) : MM Z :=
  b ← this o;
  if mLocked b then mret INVALID_OPERATION else
  other ← lift other; q ← deref other;
  _ ← resizeIfNeeded o (get_camera_metadata_entry_count q) (get_camera_metadata_data_count q);
  b ← this o;
  q ← deref other;
  match mBuffer b with
  | None => mret null_error
  | Some a => p ← deref a; let '(res, p') := append_camera_metadata p q in store a p';; mret res
  end.
Definition append_from (o other : nat) : MM Z := b ← this other; append o (mBuffer b).

Definition entryCount (o : nat) : MM Z :=
  b ← this o;
  match mBuffer b with None => mret 0 | Some a => p ← deref a; mret (get_camera_metadata_entry_count p) end.
Definition isEmpty (o : nat) : MM bool := n ← entryCount o; mret (n =? 0).

Definition sort (o : nat) : MM Z :=
  b ← this o;
  if mLocked b then mret INVALID_OPERATION else
  match mBuffer b with
  | None => mret null_error
  | Some a => p ← deref a; let '(res, p') := sort_camera_metadata p in store a p';; mret res
  end.

Definition checkType (tag expectedType : Z) : Z :=
  let tagType := get_camera_metadata_tag_type tag in
  if tagType =? -1 then INVALID_OPERATION else if negb (tagType =? expectedType) then INVALID_OPERATION else OK.

(** [find_camera_metadata_entry (mBuffer, ...)] *)
Definition find_in (a : option Z) (tag : Z) : MM (Z + Z * list Z) :=
  match a with None => mret (inl null_error) | Some a => p ← deref a; mret (find_camera_metadata_entry p tag) end.

Definition updateImpl (o : nat) (tag dataAddr : Z) (data : list Z) (count : Z) : MM Z :=
  b ← this o;
  if mLocked b then mret INVALID_OPERATION else
  let type := get_camera_metadata_tag_type tag in
  if type =? -1 then mret BAD_VALUE else
  bufferSize ← (match mBuffer b with None => mret null_error | Some a => p ← deref a; mret (get_camera_metadata_size p) end);
  let bufAddr := default 0 (mBuffer b) in
  if (dataAddr >? bufAddr) && (dataAddr <? u32 (bufAddr + bufferSize)) then mret INVALID_OPERATION else
  res ← resizeIfNeeded o 1 (calculate_camera_metadata_entry_data_size type count);
  if negb (res =? OK) then mret res else
  b ← this o;
  found ← find_in (mBuffer b) tag;
  match found with
  | inl e =>
      if e =? NAME_NOT_FOUND then
        a ← lift (mBuffer b); p ← deref a; let '(res, p') := add_camera_metadata_entry p tag data in store a p';; mret res
      else mret e
  | inr (index, _) =>
      a ← lift (mBuffer b); p ← deref a; let '(res, p') := update_camera_metadata_entry p index data in store a p';; mret res
  end.

(** All seven overloads. *)
Definition update (o : nat) (tag dataAddr : Z) (d : md_data) : MM Z :=
  b ← this o;
  if mLocked b then mret INVALID_OPERATION else
  let res := checkType tag (expected_type d) in
  if negb (res =? OK) then mret res else updateImpl o tag dataAddr (data_bytes d) (data_count d).

Definition exists_ (o : nat) (tag : Z) : MM bool :=
  b ← this o; r ← find_in (mBuffer b) tag; mret (match r with inl _ => false | inr _ => true end).

(** The data of the entry; an entry of count 0 is [None]. *)
Definition find (o : nat) (tag : Z) : MM (option (list Z)) :=
  b ← this o;
  if mLocked b then mret None else
  r ← find_in (mBuffer b) tag; mret (match r with inl _ => None | inr (_, d) => Some d end).
Definition find_const (o : nat) (tag : Z) : MM (option (list Z)) :=
  b ← this o; r ← find_in (mBuffer b) tag; mret (match r with inl _ => None | inr (_, d) => Some d end).

Definition erase (o : nat) (tag : Z) : MM Z :=
  b ← this o;
  if mLocked b then mret INVALID_OPERATION else
  found ← find_in (mBuffer b) tag;
  match found with
  | inl e => mret (if e =? NAME_NOT_FOUND then OK else e)
  | inr (index, _) =>
      a ← lift (mBuffer b); p ← deref a; let '(res, p') := delete_camera_metadata_entry p index in store a p';; mret res
  end.
End Box.

(** ** In a parcel *)

Section BoxParcel.
Context `{PacketLib} `{BlobParcel}.
Abbreviation BM := (ST (bparcel * mworld)).

Definition in_parcel {A} (f : bparcel → A * bparcel) : BM A := λ s, let '(a, p) := f s.1 in Some (a, (p, s.2)).
Definition in_world {A} (m : ST mworld A) : BM A := λ s, '(a, w) ← m s.2; Some (a, (s.1, w)).

Definition ALIGN_TO (val alignment : Z) : Z := Z.land (u32 (val + (alignment - 1))) (Z.lnot (alignment - 1)).

(** The error of [writeBlob] is replaced by that of the last write. *)
Definition write_blob (size : Z) (data : list Z) : BM Z := λ s,
  match b_writeBlob size s.1 with
  | inl _ => Some (0, s)
  | inr (addr, mem) =>
      let offset := u32 (ALIGN_TO addr metadata_alignment - addr) in
      mem ← stn mem offset data; Some (offset, (b_fill mem s.1, s.2))
  end.
Definition writeToParcel_static (metadata : option Z) : BM Z :=
  match metadata with
  | None => in_parcel (b_writeInt32 0)
  | Some a =>
      p ← in_world (deref a);
      let blobSize := u32 (blen (compact p) + metadata_alignment) in
      res ← in_parcel (b_writeInt32 (i32 blobSize));
      if negb (res =? OK) then mret res else
      offset ← write_blob blobSize (compact p);
      in_parcel (b_writeInt32 (i32 offset))
  end.
Definition writeToParcel (o : nat) : BM Z := b ← in_world (this o); writeToParcel_static (mBuffer b).

Definition read_blob (size : Z) : BM (Z + list Z) := λ s,
  match b_readBlob size s.1 with inl e => Some (inl e, s) | inr (bytes, p) => Some (inr bytes, (p, s.2)) end.

(** The part between the blob and its release. *)
Definition read_metadata (blobSize : Z) : BM (Z * option Z) :=
  r ← read_blob blobSize;
  match r with
  | inl err => mret (err, None)
  | inr blob =>
      '(err, offsetTmp) ← in_parcel b_readInt32;
      if negb (err =? OK) then mret (err, None) else
      let offset := u32 offsetTmp in
      if offset >=? metadata_alignment then mret (BAD_VALUE, None) else
      bytes ← lift (ldn blob offset (blobSize - metadata_alignment));
      match checked bytes with
      | None => mret (BAD_VALUE, None)
      | Some p =>
          a ← in_world (new_packet (get_camera_metadata_entry_capacity p) (get_camera_metadata_data_capacity p) p);
          mret (match a with None => (BAD_VALUE, None) | Some a => (OK, Some a) end)
      end
  end.
(** [out]: whether the caller wants the packet. *)
Definition readFromParcel_static (out : bool) : BM (Z * option Z) :=
  '(err, blobSizeTmp) ← in_parcel b_readInt32;
  if negb (err =? OK) then mret (err, None) else
  let blobSize := u32 blobSizeTmp in
  if blobSize =? 0 then mret (OK, None) else
  if blobSize <=? metadata_alignment then mret (BAD_VALUE, None) else
  '(err, metadata) ← read_metadata blobSize;
  if out then mret (err, metadata) else
  (match metadata with None => mret () | Some a => in_world (free_camera_metadata a) end);; mret (err, None).
Definition readFromParcel (o : nat) : BM Z :=
  b ← in_world (this o);
  if mLocked b then mret INVALID_OPERATION else
  '(res, buffer) ← readFromParcel_static true;
  if negb (res =? OK) then mret res else
  in_world (clear o;; set_mBuffer o buffer);; mret OK.
End BoxParcel.

(** ** What the packet library documents *)

Definition used (l : list entry) : Z := foldr (λ e n, data_size e.2 + n) 0 l.
Definition type_bytes (type : Z) : Z :=
  if type =? TYPE_BYTE then 1 else if (type =? TYPE_INT32) || (type =? TYPE_FLOAT) then 4 else 8.

Definition roomy `{PacketLib} (p : packet) (n d : Z) : bool :=
  (blen (pk_entries p) + n <=? get_camera_metadata_entry_capacity p) && (used (pk_entries p) + d <=? get_camera_metadata_data_capacity p).
(** The packet [q] is [p] with the entries [l]. *)
Definition becomes `{PacketLib} (p q : packet) (l : list entry) : Prop :=
  pk_entries q = l ∧ get_camera_metadata_entry_capacity q = get_camera_metadata_entry_capacity p ∧
  get_camera_metadata_data_capacity q = get_camera_metadata_data_capacity p.

Class PacketLibOk (L : PacketLib) : Prop := {
  pl_new ec dc : pk_entries (pk_new ec dc) = [] ∧ get_camera_metadata_entry_capacity (pk_new ec dc) = ec ∧ get_camera_metadata_data_capacity (pk_new ec dc) = dc;
  pl_clone p : pk_entries (pk_clone p) = pk_entries p;
  pl_count p : get_camera_metadata_entry_count p = blen (pk_entries p);
  pl_data p : get_camera_metadata_data_count p = used (pk_entries p);
  pl_append p q : roomy p (blen (pk_entries q)) (used (pk_entries q)) = true →
    (append_camera_metadata p q).1 = OK ∧ becomes p (append_camera_metadata p q).2 (pk_entries p ++ pk_entries q);
  pl_add p t b : roomy p 1 (data_size b) = true → (add_camera_metadata_entry p t b).1 = OK ∧ becomes p (add_camera_metadata_entry p t b).2 (pk_entries p ++ [(t, b)]);
  pl_update p i t b b' : ld (pk_entries p) i = Some (t, b) → roomy p 0 (data_size b' - data_size b) = true →
    (update_camera_metadata_entry p i b').1 = OK ∧ becomes p (update_camera_metadata_entry p i b').2 (<[Z.to_nat i := (t, b')]> (pk_entries p));
  pl_delete p i x : ld (pk_entries p) i = Some x →
    (delete_camera_metadata_entry p i).1 = OK ∧ becomes p (delete_camera_metadata_entry p i).2 (delete (Z.to_nat i) (pk_entries p));
  pl_sort p : (sort_camera_metadata p).1 = OK ∧ ∃ l, l ≡ₚ pk_entries p ∧ becomes p (sort_camera_metadata p).2 l;
  pl_find p t : match find_camera_metadata_entry p t with
                | inl e => e = NAME_NOT_FOUND ∧ t ∉ (pk_entries p).*1
                | inr (i, b) => ld (pk_entries p) i = Some (t, b)
                end;
  pl_size type n : 0 <= type <= TYPE_RATIONAL → 0 <= n → calculate_camera_metadata_entry_data_size type n =
                   (let k := n * type_bytes type in if k <=? 4 then 0 else (k + 7) / 8 * 8);
  pl_null : null_error ≠ OK ∧ null_error ≠ NAME_NOT_FOUND;
  pl_checked p : ∃ q, checked (compact p) = Some q ∧ pk_entries q = pk_entries p;
  pl_align : ∃ k, 0 <= k <= 12 ∧ metadata_alignment = 2 ^ k;
  pl_alloc n live ec dc a : alloc n live ec dc = Some a → a ∉ live }.

(** A parcel below the last page of the address space, whose reader finds what
    was written. *)
Class BlobParcelOk (P : BlobParcel) : Prop := {
  bp_writeInt32 v p : (b_writeInt32 v p).1 = OK → b_items (b_writeInt32 v p).2 = b_items p ++ [inl v];
  bp_writeBlob n p addr mem : b_writeBlob n p = inr (addr, mem) → blen mem = n ∧ 0 <= addr < 2 ^ 32 - 2 ^ 12;
  bp_fill bytes p : b_items (b_fill bytes p) = b_items p ++ [inr bytes];
  bp_readInt32 v l p : b_items p = inl v :: l → (b_readInt32 p).1 = (OK, v) ∧ b_items (b_readInt32 p).2 = l;
  bp_readBlob bytes l p : b_items p = inr bytes :: l → ∃ p', b_readBlob (blen bytes) p = inr (bytes, p') ∧ b_items p' = l }.
