(* ===== verification/MetadataBoxSpec.v ===== *)
(** * What the metadata container keeps

    An unlocked container behaves as a map from tags to data and never runs out
    of room while memory lasts; a locked one does not change; a packet arrives
    unchanged at the other end of a parcel, wherever the parcel puts it. *)

From S2P Require Import Prelude Monad Metadata MetadataBox.

#[local] Open Scope list_scope.
#[local] Open Scope Z_scope.

(** ** Sizes *)

Lemma bind_le_length {A} (f : A → list Z) k l : (∀ x, length (f x) = k) → length (l ≫= f) = (length l * k)%nat.
Proof. intros Hf. induction l as [|x l IH]; [done|]. rewrite bind_cons, length_app, IH, Hf. simpl. lia. Qed.
Lemma length_le_bytes n z : length (le_bytes n z) = n.
Proof. revert z. induction n as [|n IH]; intros z; simpl; [done|]. by rewrite IH. Qed.

Lemma data_bytes_length d : blen (data_bytes d) = data_count d * type_bytes (expected_type d).
Proof.
  unfold blen, data_count, blen. destruct d; cbn [data_bytes expected_type]; unfold type_bytes; cbn [Z.eqb TYPE_BYTE TYPE_INT32 TYPE_FLOAT TYPE_INT64 TYPE_DOUBLE TYPE_RATIONAL orb Pos.eqb];
    rewrite ?length_app; try (rewrite (bind_le_length _ 4) by (intros; apply length_le_bytes); lia); try (rewrite (bind_le_length _ 8) by (intros; apply length_le_bytes); lia).
  - rewrite (bind_le_length _ 1) by (intros; apply length_le_bytes). lia.
  - rewrite (bind_le_length _ 8) by (intros; by rewrite length_app, !length_le_bytes). lia.
  - rewrite (bind_le_length _ 1) by (intros; apply length_le_bytes). simpl. lia.
Qed.

Lemma used_app l l' : used (l ++ l') = used l + used l'.
Proof. induction l as [|e l IH]; simpl; [done|]. unfold used in *. lia. Qed.
Lemma used_nonneg l : 0 <= used l.
Proof. induction l as [|e l IH]; simpl; [done|]. pose proof (data_size_nonneg e.2). unfold used in *. lia. Qed.

(** ** The entries as a map *)

Definition entry_map (l : list entry) : gmap Z (list Z) := list_to_map l.

Lemma entry_map_lookup l i t b : NoDup l.*1 → ld l i = Some (t, b) → entry_map l !! t = Some b.
Proof.
  intros Hn Hi. apply elem_of_list_to_map_1; [done|]. unfold ld in Hi. case_bool_decide; [|done]. by eapply list_elem_of_lookup_2.
Qed.
Lemma entry_map_none l t : t ∉ l.*1 → entry_map l !! t = None.
Proof. apply not_elem_of_list_to_map_1. Qed.
Lemma entry_map_snoc l t b : t ∉ l.*1 → entry_map (l ++ [(t, b)]) = <[t := b]> (entry_map l).
Proof.
  intros Ht. unfold entry_map. rewrite list_to_map_app, list_to_map_cons, list_to_map_nil, insert_empty. symmetry.
  apply insert_union_singleton_r. by apply not_elem_of_list_to_map_1.
Qed.
Lemma nodup_snoc (l : list entry) t b : NoDup l.*1 → t ∉ l.*1 → NoDup (l ++ [(t, b)]).*1.
Proof. intros Hn Ht. rewrite fmap_app. apply NoDup_app. split; [done|]. split; [|simpl; by apply NoDup_singleton]. intros x Hx. simpl. rewrite list_elem_of_singleton. by intros ->. Qed.

(** Updating and deleting at the index of a tag. *)
Lemma split_at (l : list entry) i t b : ld l i = Some (t, b) → ∃ l1 l2, l = l1 ++ (t, b) :: l2 ∧ Z.to_nat i = length l1.
Proof. unfold ld. case_bool_decide; [|done]. intros Hi. destruct (list_elem_of_split_length _ _ _ Hi) as (l1 & l2 & -> & Hl). eauto. Qed.

Lemma entry_map_update l i t b b' : NoDup l.*1 → ld l i = Some (t, b) →
  entry_map (<[Z.to_nat i := (t, b')]> l) = <[t := b']> (entry_map l) ∧ (<[Z.to_nat i := (t, b')]> l).*1 = l.*1 ∧
  used (<[Z.to_nat i := (t, b')]> l) = used l + (data_size b' - data_size b).
Proof.
  intros Hn Hi. destruct (split_at l i t b Hi) as (l1 & l2 & -> & Hl). rewrite Hl. rewrite insert_app_r_alt, Nat.sub_diag by lia. cbn [insert list_insert].
  rewrite fmap_app, fmap_cons in Hn. apply NoDup_app in Hn as (Hn1 & Hd & Hn2). apply NoDup_cons in Hn2 as [Hn2 _]. split_and!.
  - unfold entry_map. rewrite !list_to_map_app, ?list_to_map_cons. assert ((list_to_map l1 : gmap Z (list Z)) !! t = None).
    { apply not_elem_of_list_to_map_1. intros Hx. apply (Hd t Hx). rewrite elem_of_cons. by left. }
    rewrite <- !insert_union_r by done. by rewrite insert_insert_eq.
  - by rewrite !fmap_app.
  - rewrite !used_app. cbn [used foldr snd]. unfold used. lia.
Qed.
Lemma entry_map_delete l i t b : NoDup l.*1 → ld l i = Some (t, b) →
  entry_map (delete (Z.to_nat i) l) = delete t (entry_map l) ∧ NoDup (delete (Z.to_nat i) l).*1.
Proof.
  intros Hn Hi. destruct (split_at l i t b Hi) as (l1 & l2 & -> & Hl). rewrite Hl, delete_middle.
  rewrite fmap_app, fmap_cons in Hn. pose proof Hn as Hn'. apply NoDup_app in Hn as (Hn1 & Hd & Hn2). apply NoDup_cons in Hn2 as [Hn2 Hn3]. split.
  - unfold entry_map. rewrite !list_to_map_app, ?list_to_map_cons. assert ((list_to_map l1 : gmap Z (list Z)) !! t = None).
    { apply not_elem_of_list_to_map_1. intros Hx. apply (Hd t Hx). rewrite elem_of_cons. by left. }
    rewrite <- insert_union_r by done. rewrite delete_insert_id; [done|]. rewrite lookup_union_None. split; [done|]. by apply not_elem_of_list_to_map_1.
  - rewrite fmap_app. apply NoDup_app. split; [done|]. split; [|done]. intros x Hx Hx'. apply (Hd x Hx). rewrite elem_of_cons. by right.
Qed.

(** ** Symbolic execution *)

Section Rules.
Context `{L : PacketLib}.
Implicit Types (w : mworld).

Lemma wp_m_ret {A} (a : A) (Q : A → mworld → Prop) w : Q a w → wp (mret a) Q w.
Proof. done. Qed.
Lemma wp_m_if {A} (b : bool) (m1 m2 : ST mworld A) Q w : (b = true → wp m1 Q w) → (b = false → wp m2 Q w) → wp (if b then m1 else m2) Q w.
Proof. destruct b; auto. Qed.
Lemma wp_this o b (Q : CameraMetadata → mworld → Prop) w : boxes w !! o = Some b → Q b w → wp (this o) Q w.
Proof. intros E HQ. unfold wp, this. by rewrite E. Qed.
Lemma wp_set_this o b (Q : () → mworld → Prop) w : Q () (w <| boxes := <[o := b]> (boxes w) |>) → wp (set_this o b) Q w.
Proof. done. Qed.
Lemma wp_set_mBuffer o b a (Q : () → mworld → Prop) w : boxes w !! o = Some b →
  Q () (w <| boxes := <[o := b <| mBuffer := a |>]> (boxes w) |>) → wp (set_mBuffer o a) Q w.
Proof. intros E HQ. unfold set_mBuffer. apply wp_bind. eapply wp_this; [done|]. by apply wp_set_this. Qed.
Lemma wp_deref a p (Q : packet → mworld → Prop) w : packets w !! a = Some p → Q p w → wp (deref a) Q w.
Proof. intros E HQ. unfold wp, deref. by rewrite E. Qed.
Lemma wp_store a p p' (Q : () → mworld → Prop) w : packets w !! a = Some p → Q () (w <| packets := <[a := p']> (packets w) |>) → wp (store a p') Q w.
Proof. intros E HQ. unfold wp, store. by rewrite E. Qed.
Lemma wp_free a p (Q : () → mworld → Prop) w : packets w !! a = Some p → Q () (w <| packets := delete a (packets w) |>) → wp (free_camera_metadata a) Q w.
Proof. intros E HQ. unfold wp, free_camera_metadata. by rewrite E. Qed.
End Rules.

(** ** The container as a map *)

Section Map.
Context `{L : PacketLib, !PacketLibOk L}.
Implicit Types (w : mworld).

(** The packet of an object: none, or a live one without duplicate tags. *)
Definition holds w (o : nat) (a : option Z) (l : list entry) : Prop :=
  boxes w !! o = Some (mkBox a false) ∧ NoDup l.*1 ∧
  match a with None => l = [] | Some a => ∃ p, packets w !! a = Some p ∧ pk_entries p = l end.
(** All packets but the object's own are as before, and no packet is lost. *)
Definition same_rest w (a : option Z) w' (a' : option Z) : Prop :=
  (∀ x, Some x ≠ a → Some x ≠ a' → packets w' !! x = packets w !! x) ∧ (∀ x, Some x = a → Some x ≠ a' → packets w' !! x = None) ∧
  (∀ x, Some x = a' → Some x ≠ a → packets w !! x = None).

Definition memory_lasts : Prop := ∀ n live ec dc, is_Some (alloc n live ec dc).

Lemma new_count_ge count capacity extra : 0 <= count → 0 <= extra → count + extra < 2 ^ 31 → count + extra <= new_count count capacity extra ∧ capacity <= new_count count capacity extra.
Proof. intros Hc He Hs. unfold new_count. rewrite u32_id by lia. destruct (Z.gtb_spec (count + extra) capacity); [rewrite u32_id by lia|]; lia. Qed.

Lemma roomy_of p n d : blen (pk_entries p) + n <= get_camera_metadata_entry_capacity p → used (pk_entries p) + d <= get_camera_metadata_data_capacity p → roomy p n d = true.
Proof. intros H1 H2. unfold roomy. rewrite andb_true_iff, !Z.leb_le. done. Qed.

Lemma resize_wp o a l n d w : memory_lasts → holds w o a l → 0 < n → 0 <= d → blen l + n < 2 ^ 31 → used l + d < 2 ^ 31 →
  wp (resizeIfNeeded o n d) (λ r w', r = OK ∧ ∃ x p, holds w' o (Some x) l ∧ packets w' !! x = Some p ∧ roomy p n d = true ∧ same_rest w a w' (Some x)) w.
Proof.
  intros Hmem (Hb & Hn & Hp) Hn0 Hd Hsn Hsd. unfold resizeIfNeeded. apply wp_bind. eapply wp_this; [exact Hb|]. cbn [mBuffer]. destruct a as [a|].
  - destruct Hp as (p & Hp & El). apply wp_bind. eapply wp_deref; [exact Hp|]. rewrite pl_count, pl_data, El. set (nec := new_count (blen l) _ n). set (ndc := new_count (used l) _ d).
    destruct (new_count_ge (blen l) (get_camera_metadata_entry_capacity p) n) as [He1 He2]; [apply blen_nonneg|lia|lia|]. fold nec in He1, He2.
    destruct (new_count_ge (used l) (get_camera_metadata_data_capacity p) d) as [Hd1 Hd2]; [apply used_nonneg|lia|lia|]. fold ndc in Hd1, Hd2.
    apply wp_m_if; intros Hc.
    + apply wp_bind. destruct (Hmem (allocs w) (dom (packets w)) nec ndc) as [x Hx]. unfold wp at 1, allocate_camera_metadata, new_packet. rewrite Hx.
      pose proof (pl_alloc _ _ _ _ _ Hx) as Hxf. apply not_elem_of_dom in Hxf. assert (x ≠ a) as Hne by (intros ->; congruence).
      apply wp_bind. eapply wp_set_mBuffer; [exact Hb|]. apply wp_bind. eapply wp_deref; [cbn; apply lookup_insert_eq|]. apply wp_bind. eapply wp_deref; [cbn; rewrite lookup_insert_ne by done; exact Hp|].
      destruct (pl_new nec ndc) as (En & Eec & Edc). destruct (pl_append (pk_new nec ndc) p) as (_ & Ea & Ea1 & Ea2).
      { apply roomy_of; rewrite En, ?Eec, ?Edc, El; change (blen (@nil entry)) with 0; change (used []) with 0; lia. }
      apply wp_bind. eapply wp_store; [cbn; apply lookup_insert_eq|]. apply wp_bind. eapply wp_free; [cbn; rewrite !lookup_insert_ne by done; exact Hp|].
      apply wp_m_ret. split; [done|]. rewrite En, El in Ea. cbn [app] in Ea. exists x, (append_camera_metadata (pk_new nec ndc) p).2. cbn.
      assert (delete a (<[x := (append_camera_metadata (pk_new nec ndc) p).2]> (<[x := pk_new nec ndc]> (packets w))) !! x = Some (append_camera_metadata (pk_new nec ndc) p).2) as Hlx
        by (rewrite lookup_delete_ne by done; apply lookup_insert_eq).
      split_and!.
      * split; [apply lookup_insert_eq|]. split; [done|]. cbn. eauto.
      * exact Hlx.
      * apply roomy_of; rewrite Ea, ?Ea1, ?Ea2, ?Eec, ?Edc; lia.
      * split_and!; intros y Hy1 Hy2; unfold field_set; cbn [packets]; [rewrite lookup_delete_ne, !lookup_insert_ne by congruence; done|simplify_eq; apply lookup_delete_eq|by simplify_eq].
    + apply wp_m_ret. split; [done|]. rewrite orb_false_iff, !Z.gtb_ltb, !Z.ltb_ge in Hc. exists a, p. split_and!; [split; [done|split; [done|]]; eauto|done| |].
      * apply roomy_of; rewrite El; lia.
      * split_and!; intros y; congruence.
  - subst l. apply wp_bind. rewrite (u32_id (n * 2)) by (unfold blen in *; simpl in *; lia). rewrite (u32_id (d * 2)) by (cbn in *; lia).
    destruct (Hmem (allocs w) (dom (packets w)) (n * 2) (d * 2)) as [x Hx]. unfold wp at 1, allocate_camera_metadata, new_packet. rewrite Hx.
    pose proof (pl_alloc _ _ _ _ _ Hx) as Hxf. apply not_elem_of_dom in Hxf.
    apply wp_bind. eapply wp_set_mBuffer; [exact Hb|]. apply wp_m_ret. split; [done|]. destruct (pl_new (n * 2) (d * 2)) as (En & Eec & Edc).
    exists x, (pk_new (n * 2) (d * 2)). cbn. split_and!.
    + split; [apply lookup_insert_eq|]. split; [done|]. cbn. exists (pk_new (n * 2) (d * 2)). split; [apply lookup_insert_eq|done].
    + apply lookup_insert_eq.
    + apply roomy_of; rewrite En, ?Eec, ?Edc; change (blen (@nil entry)) with 0; change (used []) with 0; lia.
    + split_and!; intros y Hy1 Hy2; unfold field_set; cbn [packets]; [by rewrite lookup_insert_ne by congruence|done|by simplify_eq].
Qed.

Lemma rest_unchanged w a : same_rest w a w a.
Proof. split_and!; intros; congruence. Qed.
Lemma same_rest_store w a w' x p : same_rest w a w' (Some x) → same_rest w a (w' <| packets := <[x := p]> (packets w') |>) (Some x).
Proof.
  intros (H1 & H2 & H3). split_and!; intros y Hy1 Hy2; unfold field_set; cbn [packets]; rewrite ?lookup_insert_ne by congruence; auto.
Qed.

(** The data does not lie in the object's packet. *)
Definition outside w (a : option Z) (addr : Z) : Prop :=
  let size := match a with None => null_error | Some x => from_option get_camera_metadata_size null_error (packets w !! x) end in
  (addr >? default 0 a) && (addr <? u32 (default 0 a + size)) = false.

(** A call that writes back the object's packet. *)
Lemma holds_store w o x p q l : holds w o (Some x) l → packets w !! x = Some p → NoDup (pk_entries q).*1 →
  holds (w <| packets := <[x := q]> (packets w) |>) o (Some x) (pk_entries q).
Proof. intros (Hb & _ & _) Hp Hn. split; [exact Hb|]. split; [exact Hn|]. exists q. split; [apply lookup_insert_eq|done]. Qed.

Lemma store_wp w0 w o a x p q l (r : Z) : holds w o (Some x) l → packets w !! x = Some p → NoDup (pk_entries q).*1 → same_rest w0 a w (Some x) →
  wp (store x q;; mret r) (λ r' w', r' = r ∧ holds w' o (Some x) (pk_entries q) ∧ same_rest w0 a w' (Some x)) w.
Proof.
  intros Hh Hp Hn Hs. apply wp_bind. eapply wp_store; [exact Hp|]. apply wp_m_ret. split; [done|]. split; [by eapply holds_store|by apply same_rest_store].
Qed.

Lemma checkType_ok tag ty : 0 <= ty → checkType tag ty = OK → get_camera_metadata_tag_type tag = ty ∧ get_camera_metadata_tag_type tag ≠ -1.
Proof.
  unfold checkType. intros Ht. destruct (Z.eqb_spec (get_camera_metadata_tag_type tag) (-1)); [done|]. destruct (Z.eqb_spec (get_camera_metadata_tag_type tag) ty); [done|done].
Qed.
Lemma expected_range d : 0 <= expected_type d <= TYPE_RATIONAL.
Proof. by destruct d. Qed.

Lemma update_entry_wp w0 w a0 o x p l tag b : holds w o (Some x) l → packets w !! x = Some p → roomy p 1 (data_size b) = true → same_rest w0 a0 w (Some x) →
  wp (found ← find_in (Some x) tag;
      match found with
      | inl e =>
          if e =? NAME_NOT_FOUND then
            a ← lift (Some x); p ← deref a; let '(res, p') := add_camera_metadata_entry p tag b in store a p';; mret res
          else mret e
      | inr (index, _) =>
          a ← lift (Some x); p ← deref a; let '(res, p') := update_camera_metadata_entry p index b in store a p';; mret res
      end)
    (λ r w', r = OK ∧ ∃ l', holds w' o (Some x) l' ∧ entry_map l' = <[tag := b]> (entry_map l) ∧ same_rest w0 a0 w' (Some x)) w.
Proof.
  intros Hh Hp Hr Hs. pose proof Hh as (Hb & Hn & (p' & Hp' & El)). assert (p' = p) as -> by congruence. apply wp_bind. unfold find_in. apply wp_bind. eapply wp_deref; [exact Hp|]. apply wp_m_ret.
  pose proof (pl_find p tag) as Hf. destruct (find_camera_metadata_entry p tag) as [e|[i b0]].
  - destruct Hf as [-> Hf]. rewrite El in Hf. cbn [Z.eqb NAME_NOT_FOUND Pos.eqb]. apply wp_bind, wp_lift. exists x. split; [done|]. apply wp_bind. eapply wp_deref; [exact Hp|].
    destruct (pl_add p tag b Hr) as (Er & Ee & _). destruct (add_camera_metadata_entry p tag b) as [r q]. cbn [fst snd] in Er, Ee. rewrite El in Ee.
    eapply wp_mono; [eapply store_wp; [exact Hh|exact Hp|rewrite Ee; by apply nodup_snoc|exact Hs]|]. intros r' w' (-> & Hh' & Hs'). split; [done|]. eexists. split; [exact Hh'|]. split; [|done].
    rewrite Ee. by apply entry_map_snoc.
  - apply wp_bind, wp_lift. exists x. split; [done|]. apply wp_bind. eapply wp_deref; [exact Hp|].
    destruct (pl_update p i tag b0 b Hf) as (Er & Ee & _).
    { unfold roomy in *. rewrite andb_true_iff, !Z.leb_le in *. pose proof (data_size_nonneg b0). lia. }
    rewrite El in *. destruct (update_camera_metadata_entry p i b) as [r q]. cbn [fst snd] in Er, Ee. destruct (entry_map_update l i tag b0 b Hn Hf) as (E1 & E2 & _).
    eapply wp_mono; [eapply store_wp; [exact Hh|exact Hp|by rewrite Ee, E2|exact Hs]|]. intros r' w' (-> & Hh' & Hs'). split; [done|]. eexists. split; [exact Hh'|]. split; [|done].
    by rewrite Ee.
Qed.

Lemma update_wp w o a l tag addr d : memory_lasts → holds w o a l → checkType tag (expected_type d) = OK → outside w a addr →
  blen l + 1 < 2 ^ 31 → used l + data_size (data_bytes d) < 2 ^ 31 →
  wp (update o tag addr d) (λ r w', r = OK ∧ ∃ a' l', holds w' o a' l' ∧ entry_map l' = <[tag := data_bytes d]> (entry_map l) ∧ same_rest w a w' a') w.
Proof.
  intros Hmem Hh Ht Ho Hs1 Hs2. pose proof Hh as (Hb & Hn & Hp). destruct (checkType_ok tag (expected_type d)) as [Ety Ene]; [apply expected_range|done|].
  assert (calculate_camera_metadata_entry_data_size (expected_type d) (data_count d) = data_size (data_bytes d)) as Ecs.
  { rewrite pl_size; [|apply expected_range|destruct d; cbn; unfold blen; lia]. cbv zeta. unfold data_size. by rewrite data_bytes_length. }
  unfold update. apply wp_bind. eapply wp_this; [exact Hb|]. cbn [mLocked]. rewrite Ht. cbn [OK negb Z.eqb].
  unfold updateImpl. apply wp_bind. eapply wp_this; [exact Hb|]. cbn [mLocked mBuffer]. destruct (Z.eqb_spec (get_camera_metadata_tag_type tag) (-1)); [done|].
  apply wp_bind. assert (∀ Q, Q (match a with None => null_error | Some x => from_option get_camera_metadata_size null_error (packets w !! x) end) w →
    wp (match a with None => mret null_error | Some a => p ← deref a; mret (get_camera_metadata_size p) end) Q w) as Hsize.
  { intros Q HQ. destruct a as [x|]; [|done]. destruct Hp as (p & Hp & _). rewrite Hp in HQ. apply wp_bind. by eapply wp_deref. }
  apply Hsize. cbv zeta. unfold outside in Ho. cbv zeta in Ho. rewrite Ho. rewrite Ety, Ecs. apply wp_bind.
  eapply wp_mono; [eapply resize_wp; [done|exact Hh|lia|apply data_size_nonneg|done|done]|]. intros r w' (-> & x & p & Hh' & Hp' & Hr & Hs). cbn [OK negb Z.eqb].
  apply wp_bind. eapply wp_this; [exact (proj1 Hh')|]. cbn [mBuffer].
  eapply wp_mono; [eapply update_entry_wp; [exact Hh'|exact Hp'|exact Hr|exact Hs]|]. intros r w'' (-> & l' & ? & ? & ?). split; [done|]. by exists (Some x), l'.
Qed.

Lemma erase_wp w o x l tag : holds w o (Some x) l →
  wp (erase o tag) (λ r w', r = OK ∧ ∃ l', holds w' o (Some x) l' ∧ entry_map l' = delete tag (entry_map l) ∧ same_rest w (Some x) w' (Some x)) w.
Proof.
  intros Hh. pose proof Hh as (Hb & Hn & (p & Hp & El)). unfold erase. apply wp_bind. eapply wp_this; [exact Hb|]. cbn [mLocked mBuffer]. apply wp_bind. unfold find_in.
  apply wp_bind. eapply wp_deref; [exact Hp|]. apply wp_m_ret. pose proof (pl_find p tag) as Hf. destruct (find_camera_metadata_entry p tag) as [e|[i b0]].
  - destruct Hf as [-> Hf]. rewrite El in Hf. apply wp_m_ret. split; [done|]. exists l. split; [done|]. split; [|apply rest_unchanged]. symmetry. apply delete_id. by apply entry_map_none.
  - apply wp_bind, wp_lift. exists x. split; [done|]. apply wp_bind. eapply wp_deref; [exact Hp|]. destruct (pl_delete p i _ Hf) as (Er & Ee & _). rewrite El in *.
    destruct (delete_camera_metadata_entry p i) as [r q]. cbn [fst snd] in Er, Ee. destruct (entry_map_delete l i tag b0 Hn Hf) as (E1 & E2).
    eapply wp_mono; [eapply store_wp; [exact Hh|exact Hp|by rewrite Ee|apply rest_unchanged]|]. intros r' w' (-> & Hh' & Hs'). split; [done|]. eexists. split; [exact Hh'|]. split; [|done].
    by rewrite Ee.
Qed.

Lemma find_holds w o a l tag : holds w o a l → find o tag w = Some (entry_map l !! tag, w) ∧ exists_ o tag w = Some (bool_decide (is_Some (entry_map l !! tag)), w).
Proof.
  intros (Hb & Hn & Hp). unfold find, exists_, mbind, ST_bind, this. rewrite Hb. cbn [mbind option_bind mLocked mBuffer find_in]. destruct a as [x|]; [|by subst l].
  destruct Hp as (p & Hp & <-). unfold find_in, mbind, ST_bind, deref. rewrite Hp. cbn [mbind option_bind mret ST_ret]. pose proof (pl_find p tag) as Hf.
  destruct (find_camera_metadata_entry p tag) as [e|[i b]].
  - destruct Hf as [_ Hf]. by rewrite (entry_map_none _ _ Hf).
  - by rewrite (entry_map_lookup _ _ _ _ Hn Hf).
Qed.
End Map.

(** ** Theorems *)

(** C22: an unlocked container is a map from tags to data.  [update] with data
    of the tag's type succeeds while memory lasts, however full the packet is,
    and changes what [find] gives for that tag and nothing else; [erase]
    removes it again.  No other packet changes and none is lost. *)
Theorem metadata_is_map `{L : PacketLib, !PacketLibOk L} w o a l tag addr d :
  memory_lasts → holds w o a l → checkType tag (expected_type d) = OK → outside w a addr →
  blen l + 1 < 2 ^ 31 → used l + data_size (data_bytes d) < 2 ^ 31 →
  ∃ w1 x1 w2, update o tag addr d w = Some (OK, w1) ∧ same_rest w a w1 (Some x1) ∧
    (∀ t, find o t w1 = Some (<[tag := data_bytes d]> (entry_map l) !! t, w1)) ∧
    erase o tag w1 = Some (OK, w2) ∧ same_rest w1 (Some x1) w2 (Some x1) ∧
    (∀ t, find o t w2 = Some (delete tag (entry_map l) !! t, w2)).
Proof.
  intros Hmem Hh Ht Ho H1 H2. pose proof (update_wp w o a l tag addr d Hmem Hh Ht Ho H1 H2) as Hu. unfold wp in Hu.
  destruct (update o tag addr d w) as [[r w1]|]; [|done]. destruct Hu as (-> & a' & l' & Hh' & El & Hs).
  assert (tag ∈ dom (entry_map l')) as Hd by (rewrite El, dom_insert; set_solver).
  destruct a' as [x|]; [|destruct Hh' as (_ & _ & ->); by apply elem_of_dom in Hd as [? [=]]].
  pose proof (erase_wp w1 o x l' tag Hh') as He. unfold wp in He. destruct (erase o tag w1) as [[r' w2]|] eqn:Ee; [|done]. destruct He as (-> & l2 & Hh2 & El2 & Hs2).
  exists w1, x, w2. split_and!; [done|done| |done|done|].
  - intros t. rewrite (proj1 (find_holds w1 o (Some x) l' t Hh')). by rewrite El.
  - intros t. rewrite (proj1 (find_holds w2 o (Some x) l2 t Hh2)). by rewrite El2, El, delete_insert_eq.
Qed.

(** A locked container does not change: every operation that would change
    it is refused, [find] gives no access to its data, and only its own packet
    unlocks it. *)
Theorem metadata_locked `{L : PacketLib} w o a tag addr d other n buffer :
  boxes w !! o = Some (mkBox a true) → is_Some (boxes w !! n) →
  update o tag addr d w = Some (INVALID_OPERATION, w) ∧ erase o tag w = Some (INVALID_OPERATION, w) ∧
  sort o w = Some (INVALID_OPERATION, w) ∧ append o other w = Some (INVALID_OPERATION, w) ∧ append_from o n w = Some (INVALID_OPERATION, w) ∧
  clear o w = Some ((), w) ∧ acquire o other w = Some ((), w) ∧ acquire_from o n w = Some ((), w) ∧ release o w = Some (None, w) ∧
  assign o other w = Some ((), w) ∧ assign_from o n w = Some ((), w) ∧ swap o n w = Some ((), w) ∧ swap n o w = Some ((), w) ∧
  find o tag w = Some (None, w) ∧
  unlock o buffer w = (if bool_decide (buffer = a) then Some (OK, w <| boxes := <[o := mkBox a false]> (boxes w) |>) else Some (BAD_VALUE, w)).
Proof.
  intros Hb [b Hn]. assert (this o w = Some (mkBox a true, w)) as Ho by (unfold this; by rewrite Hb). assert (this n w = Some (b, w)) as Hn' by (unfold this; by rewrite Hn).
  assert (∀ {A} (k : CameraMetadata → ST mworld A), (this o ≫= k) w = k (mkBox a true) w) as Ro by (intros; unfold mbind, ST_bind; by rewrite Ho).
  assert (∀ {A} (k : CameraMetadata → ST mworld A), (this n ≫= k) w = k b w) as Rn by (intros; unfold mbind, ST_bind; by rewrite Hn').
  unfold update, erase, sort, append_from, append, clear, acquire, acquire_from, release, assign_from, assign, swap, find, unlock.
  repeat rewrite ?Ro, ?Rn. cbn [mLocked mBuffer negb]. split_and!; try done.
  - by destruct (mLocked b).
  - by case_bool_decide.
Qed.

(** ** Parcels *)

Lemma ALIGN_TO_offset addr k : 0 <= k <= 12 → 0 <= addr < 2 ^ 32 - 2 ^ 12 →
  0 <= ALIGN_TO addr (2 ^ k) - addr < 2 ^ k ∧ ALIGN_TO addr (2 ^ k) mod 2 ^ k = 0.
Proof.
  intros Hk Ha. assert (0 < 2 ^ k <= 2 ^ 12) as Hp by (split; [apply Z.pow_pos_nonneg; lia|apply Z.pow_le_mono_r; lia]).
  unfold ALIGN_TO. rewrite u32_id by lia. rewrite <- Z.ldiff_land. replace (2 ^ k - 1) with (Z.ones k) by (rewrite Z.ones_equiv; lia).
  rewrite Z.ldiff_ones_r, Z.shiftr_div_pow2, Z.shiftl_mul_pow2 by lia. rewrite Z.ones_equiv. set (x := addr + Z.pred (2 ^ k)).
  pose proof (Z.div_mod x (2 ^ k) ltac:(lia)). pose proof (Z.mod_pos_bound x (2 ^ k) ltac:(lia)). split; [unfold x in *; lia|]. by rewrite Z.mod_mul by lia.
Qed.

Lemma ldn_of_stn {A} (b b' vs : list A) off : stn b off vs = Some b' → ldn b' off (blen vs) = Some vs.
Proof.
  intros E. pose proof (stn_in_bounds _ _ _ _ E) as [H1 H2]. apply stn_spec in E as [El E]. destruct (ldn_defined b' off (blen vs)) as [vs' E']; [apply blen_nonneg|lia|lia|].
  rewrite E'. f_equal. apply ldn_Some in E' as (Hl & _ & _ & Hk). apply ld_eq. intros i. destruct (decide (0 <= i < blen vs)) as [Hi|Hi].
  - rewrite Hk by lia. rewrite E, bool_decide_true by lia. f_equal. lia.
  - rewrite !ld_ge by lia. done.
Qed.

Section Parcel.
Context `{L : PacketLib, !PacketLibOk L} `{P : BlobParcel, !BlobParcelOk P}.
Implicit Types (w : mworld) (bp : bparcel).
Hypothesis Hint : ∀ v bp, (b_writeInt32 v bp).1 = OK.
Hypothesis Hblob : ∀ n bp, 0 <= n → ∃ addr mem, b_writeBlob n bp = inr (addr, mem).

Lemma write_int v bp w : ∃ bp', in_parcel (b_writeInt32 v) (bp, w) = Some (OK, (bp', w)) ∧ b_items bp' = b_items bp ++ [inl v].
Proof.
  exists (b_writeInt32 v bp).2. pose proof (Hint v bp) as Hv. split; [|by apply bp_writeInt32]. unfold in_parcel. cbn [fst snd]. rewrite <- Hv. by destruct (b_writeInt32 v bp).
Qed.
Lemma read_int v l bp w : b_items bp = inl v :: l → ∃ bp', in_parcel b_readInt32 (bp, w) = Some ((OK, v), (bp', w)) ∧ b_items bp' = l.
Proof.
  intros E. destruct (bp_readInt32 v l bp E) as [H1 H2]. exists (b_readInt32 bp).2. split; [|done]. unfold in_parcel. cbn [fst snd]. rewrite <- H1. by destruct (b_readInt32 bp).
Qed.

(** The three things a packet is written as. *)
Lemma write_packet w a p bp : packets w !! a = Some p → 0 < blen (compact p) < 2 ^ 30 →
  ∃ bp' blob off, writeToParcel_static (Some a) (bp, w) = Some (OK, (bp', w)) ∧
    b_items bp' = b_items bp ++ [inl (blen (compact p) + metadata_alignment); inr blob; inl off] ∧
    blen blob = blen (compact p) + metadata_alignment ∧ 0 <= off < metadata_alignment ∧ ldn blob off (blen (compact p)) = Some (compact p).
Proof.
  intros Hp Hsz. destruct pl_align as (k & Hk & Ek). assert (0 < metadata_alignment <= 2 ^ 12) as Hal by (rewrite Ek; split; [apply Z.pow_pos_nonneg; lia|apply Z.pow_le_mono_r; lia]).
  cbn [writeToParcel_static]. unfold mbind at 1, ST_bind at 1. unfold in_world, deref. cbn [snd fst]. rewrite Hp. cbn [mbind option_bind].
  rewrite u32_id, i32_id by lia. destruct (write_int (blen (compact p) + metadata_alignment) bp w) as (bp1 & E1 & I1). unfold mbind at 1, ST_bind at 1. rewrite E1. cbn [OK negb Z.eqb].
  assert (0 <= blen (compact p) + metadata_alignment) as Hpos by lia.
  destruct (Hblob (blen (compact p) + metadata_alignment) bp1 Hpos) as (addr & mem & Eb). destruct (bp_writeBlob _ _ _ _ Eb) as [Hm Ha].
  destruct (ALIGN_TO_offset addr k Hk Ha) as [Hoff _]. rewrite <- Ek in Hoff. set (off := ALIGN_TO addr metadata_alignment - addr) in *.
  destruct (stn_defined mem off (compact p)) as [blob Est]; [lia|lia|].
  assert (write_blob (blen (compact p) + metadata_alignment) (compact p) (bp1, w) = Some (off, (b_fill blob bp1, w))) as Ew.
  { unfold write_blob. cbn [fst snd]. rewrite Eb. fold off. rewrite u32_id by lia. by rewrite Est. }
  unfold mbind at 1, ST_bind at 1. rewrite Ew. rewrite i32_id by lia. destruct (write_int off (b_fill blob bp1) w) as (bp2 & E2 & I2). exists bp2, blob, off. rewrite E2. split_and!; [done| | | | |].
  - rewrite I2, bp_fill, I1, <- !app_assoc. done.
  - apply stn_spec in Est as [-> _]. lia.
  - lia.
  - lia.
  - by eapply ldn_of_stn.
Qed.

Lemma read_packet w p bp blob off rest : 0 < blen (compact p) < 2 ^ 30 → memory_lasts →
  b_items bp = [inl (blen (compact p) + metadata_alignment); inr blob; inl off] ++ rest →
  blen blob = blen (compact p) + metadata_alignment → 0 <= off < metadata_alignment → ldn blob off (blen (compact p)) = Some (compact p) →
  ∃ bp' w' a q, readFromParcel_static true (bp, w) = Some ((OK, Some a), (bp', w')) ∧ b_items bp' = rest ∧ pk_entries q = pk_entries p ∧
    packets w !! a = None ∧ packets w' = <[a := q]> (packets w) ∧ boxes w' = boxes w.
Proof.
  intros Hsz Hmem E Hbl Hoff Hld. destruct pl_align as (k & Hk & Ek). assert (0 < metadata_alignment <= 2 ^ 12) as Hal by (rewrite Ek; split; [apply Z.pow_pos_nonneg; lia|apply Z.pow_le_mono_r; lia]).
  unfold readFromParcel_static. cbn [app] in E. destruct (read_int _ _ bp w E) as (bp1 & E1 & I1). unfold mbind at 1, ST_bind at 1. rewrite E1. cbn [OK negb Z.eqb]. rewrite u32_id by lia.
  destruct (Z.eqb_spec (blen (compact p) + metadata_alignment) 0); [lia|]. destruct (Z.leb_spec (blen (compact p) + metadata_alignment) metadata_alignment); [lia|].
  unfold read_metadata. unfold mbind at 1 2, ST_bind at 1 2. unfold read_blob. cbn [fst snd]. destruct (bp_readBlob _ _ bp1 I1) as (bp2 & E2 & I2). rewrite Hbl in E2. rewrite E2.
  destruct (read_int _ _ bp2 w I2) as (bp3 & E3 & I3). unfold mbind at 1, ST_bind at 1. rewrite E3. cbn [OK negb Z.eqb]. rewrite u32_id by lia. destruct (Z.geb_spec off metadata_alignment); [lia|].
  replace (blen (compact p) + metadata_alignment - metadata_alignment) with (blen (compact p)) by lia. rewrite Hld. unfold mbind at 1, ST_bind at 1. cbn [lift].
  destruct (pl_checked p) as (q & Eq & Hq). rewrite Eq. destruct (Hmem (allocs w) (dom (packets w)) (get_camera_metadata_entry_capacity q) (get_camera_metadata_data_capacity q)) as [a Ea].
  unfold mbind at 1, ST_bind at 1. unfold in_world. cbn [snd]. unfold new_packet. rewrite Ea. pose proof (pl_alloc _ _ _ _ _ Ea) as Hf. apply not_elem_of_dom in Hf.
  eexists bp3, _, a, q. split; [reflexivity|]. done.
Qed.
End Parcel.

(** Giving an empty container a packet. *)
Lemma install_empty `{L : PacketLib} (w : mworld) n buf : boxes w !! n = Some (mkBox None false) →
  (clear n;; set_mBuffer n buf) w = Some ((), w <| boxes := <[n := mkBox buf false]> (boxes w) |>).
Proof.
  intros E. assert (this n w = Some (mkBox None false, w)) as Ht by (unfold this; by rewrite E).
  unfold clear, set_mBuffer, mbind, ST_bind. rewrite Ht. cbn [mLocked mBuffer mret ST_ret]. rewrite Ht. reflexivity.
Qed.

(** C23: metadata written to a parcel is read back into an empty container with
    the same entries in the same order, at whatever address the parcel keeps
    its blob, and the copying on both sides never leaves the blob. *)
Theorem metadata_parcel_roundtrip `{L : PacketLib, !PacketLibOk L} `{P : BlobParcel, !BlobParcelOk P} w bp o a p n b l :
  (∀ v bp, (b_writeInt32 v bp).1 = OK) → (∀ n bp, 0 <= n → ∃ addr mem, b_writeBlob n bp = inr (addr, mem)) → memory_lasts → b_items bp = [] →
  boxes w !! o = Some (mkBox (Some a) b) → packets w !! a = Some p → NoDup (pk_entries p).*1 → 0 < blen (compact p) < 2 ^ 30 →
  o ≠ n → holds w n None l →
  ∃ bp1 bp2 w2 x, writeToParcel o (bp, w) = Some (OK, (bp1, w)) ∧ readFromParcel n (bp1, w) = Some (OK, (bp2, w2)) ∧
    holds w2 n (Some x) (pk_entries p) ∧ packets w2 !! a = Some p ∧ b_items bp2 = [].
Proof.
  intros Hi Hb Hmem Hbp Ho Hp Hn Hsz Hne (Hbn & _ & _). destruct (write_packet Hi Hb w a p bp Hp Hsz) as (bp1 & blob & off & E1 & I1 & Hbl & Hoff & Hld). rewrite Hbp in I1.
  destruct (read_packet w p bp1 blob off [] Hsz Hmem I1 Hbl Hoff Hld) as (bp2 & w' & x & q & E2 & I2 & Eq & Hx & Epk & Ebx).
  assert (x ≠ a) by (intros ->; congruence). exists bp1, bp2, (w' <| boxes := <[n := mkBox (Some x) false]> (boxes w') |>), x. split_and!.
  - unfold writeToParcel, mbind, ST_bind, in_world, this. cbn [snd]. rewrite Ho. exact E1.
  - unfold readFromParcel. unfold mbind at 1, ST_bind at 1. unfold in_world at 1, this at 1. cbn [snd fst]. rewrite Hbn. cbn [mbind option_bind mLocked].
    unfold mbind at 1, ST_bind at 1. rewrite E2. cbn [OK negb Z.eqb]. unfold mbind at 1, ST_bind at 1. unfold in_world. cbn [snd fst].
    rewrite install_empty by (by rewrite Ebx). reflexivity.
  - split; [apply lookup_insert_eq|]. split; [done|]. exists q. unfold field_set. cbn [packets]. rewrite Epk, lookup_insert_eq. done.
  - unfold field_set. cbn [packets]. by rewrite Epk, lookup_insert_ne.
  - exact I2.
Qed.
