(* ===== verification/CameraUtils.v ===== *)
(** * The orientation of camera buffers (libmocha/camera/CameraUtils.cpp)

    The transform a camera's buffers are shown with, from its orientation and
    facing.  The tags and the window flags are numbers of system headers. *)

From S2P Require Import Prelude Monad Metadata MetadataBox MetadataBoxSpec.

#[local] Open Scope list_scope.
#[local] Open Scope Z_scope.

Definition ANDROID_SENSOR_ORIENTATION : Z := 0xE000E.
Definition ANDROID_LENS_FACING : Z := 0x80005.
Definition ANDROID_LENS_FACING_FRONT : Z := 0.
Definition FLIP_H : Z := 1.
Definition FLIP_V : Z := 2.
Definition ROT_90 : Z := 4.
Definition ROT_180 : Z := 3.
Definition ROT_270 : Z := 7.
Definition INVERSE_DISPLAY : Z := 8.

(** [data.i32[0]] *)
Definition i32_at (b : list Z) : option Z := v ← ldn b 0 4; Some (i32 (foldr (λ x n, x + 256 * n) 0 v)).

Section Utils.
Context `{PacketLib}.

(** The status and [*transform].  The second test looks at the first entry
    again, so that a missing facing is read through a null pointer. *)
Definition getRotationTransform (staticInfo : nat) : ST mworld (Z * Z) :=
  entry ← find_const staticInfo ANDROID_SENSOR_ORIENTATION;
  match entry with
  | None => mret (INVALID_OPERATION, 0)
  | Some data =>
      entryFacing ← find_const staticInfo ANDROID_LENS_FACING;
      facing ← lift (entryFacing ≫= λ d, ld d 0);
      orientation ← lift (i32_at data);
      let mirror := facing =? ANDROID_LENS_FACING_FRONT in
      let flags :=
        if negb mirror then
          if orientation =? 0 then Some 0 else if orientation =? 90 then Some ROT_90
          else if orientation =? 180 then Some ROT_180 else if orientation =? 270 then Some ROT_270 else None
        else
          if orientation =? 0 then Some FLIP_H else if orientation =? 90 then Some (Z.lxor FLIP_H ROT_270)
          else if orientation =? 180 then Some (Z.lxor FLIP_H ROT_180) else if orientation =? 270 then Some (Z.lxor FLIP_H ROT_90) else None in
      mret (match flags with None => (INVALID_OPERATION, 0) | Some f => (OK, Z.lor f INVERSE_DISPLAY) end)
  end.
End Utils.

(** ** What a transform does to a picture *)

(** A symmetry of the square: where it takes the point [(x, y)] of a picture
    with its origin in the middle.  Flips come before the rotation by 90 degrees
    clockwise. *)
Definition act (flags : Z) (q : Z * Z) : Z * Z :=
  let q := if Z.testbit flags 0 then (- q.1, q.2) else q in
  let q := if Z.testbit flags 1 then (q.1, - q.2) else q in
  if Z.testbit flags 2 then (- q.2, q.1) else q.
Fixpoint turn (n : nat) (q : Z * Z) : Z * Z := match n with O => q | S n' => let q := turn n' q in (- q.2, q.1) end.
Definition mirror (q : Z * Z) : Z * Z := (- q.1, q.2).

Section UtilsSpec.
Context `{L : PacketLib, !PacketLibOk L}.
Implicit Types (w : mworld).

Lemma find_const_holds w o a l tag : holds w o a l → find_const o tag w = Some (entry_map l !! tag, w).
Proof.
  intros Hh. pose proof (find_holds w o a l tag Hh) as [Hf _]. destruct Hh as (Hb & _ & _). unfold find, find_const, mbind, ST_bind, this in *. rewrite Hb in *. exact Hf.
Qed.
End UtilsSpec.

(** For a camera with both entries, an orientation of a multiple of 90 below
    360 gives a transform that turns the picture by that angle and, for the
    front camera, then mirrors it; any other orientation is refused. *)
Theorem rotation_upright `{L : PacketLib, !PacketLibOk L} w o a l data facing rest orientation :
  holds w o a l → entry_map l !! ANDROID_SENSOR_ORIENTATION = Some data → i32_at data = Some orientation →
  entry_map l !! ANDROID_LENS_FACING = Some (facing :: rest) →
  ∃ status transform, getRotationTransform o w = Some ((status, transform), w) ∧
    if bool_decide (orientation ∈ [0; 90; 180; 270])
    then status = OK ∧ Z.testbit transform 3 = true ∧
      ∀ q, act transform q = (if facing =? ANDROID_LENS_FACING_FRONT then mirror else id) (turn (Z.to_nat (orientation / 90)) q)
    else status = INVALID_OPERATION ∧ transform = 0.
Proof.
  intros Hh Ed Eo Ef. unfold getRotationTransform. unfold mbind at 1, ST_bind at 1. rewrite (find_const_holds w o a l _ Hh), Ed.
  unfold mbind at 1, ST_bind at 1. rewrite (find_const_holds w o a l _ Hh), Ef. cbn [mbind option_bind lift]. unfold mbind, ST_bind. cbn [lift ld]. rewrite Eo.
  change (ld (facing :: rest) 0) with (Some facing). cbn [lift]. cbv zeta. eexists _, _. split; [unfold mret, ST_ret; rewrite <- surjective_pairing; reflexivity|].
  case_bool_decide as Hin.
  - destruct (facing =? ANDROID_LENS_FACING_FRONT); cbn [negb].
    all: apply elem_of_cons in Hin as [->|Hin]; [|apply elem_of_cons in Hin as [->|Hin]; [|apply elem_of_cons in Hin as [->|Hin]; [|apply list_elem_of_singleton in Hin as ->]]].
    all: split_and!; [done|done|]; intros [x y].
    all: match goal with |- act ?f _ = _ => let f' := eval vm_compute in f in change f with f' end.
    all: match goal with |- context [Z.to_nat ?e] => let n := eval vm_compute in (Z.to_nat e) in change (Z.to_nat e) with n end.
    all: unfold act, turn, mirror, id; cbn [fst snd Z.testbit Pos.testbit Z.odd Pos.pred_N N.pred]; f_equal; lia.
  - rewrite !elem_of_cons in Hin. destruct (facing =? ANDROID_LENS_FACING_FRONT); cbn [negb];
      repeat (match goal with |- context [orientation =? ?k] => destruct (Z.eqb_spec orientation k); [exfalso; apply Hin; tauto|] end); done.
Qed.
