(* ===== verification/MetadataBoxDemo.v ===== *)
(** * The metadata container on a concrete packet library

    A packet library made of lists, a parcel made of items, the witnesses of
    the container's theorems and the container's faults. *)

From S2P Require Import Prelude Monad Metadata MetadataBox MetadataBoxSpec CameraUtils.

#[local] Open Scope list_scope.
#[local] Open Scope Z_scope.

(** ** Packets *)

Record lpacket := mkLp { lp_entries : list entry; lp_ec : Z; lp_dc : Z }.

Definition lp_room (p : lpacket) (n d : Z) : bool := (blen (lp_entries p) + n <=? lp_ec p) && (used (lp_entries p) + d <=? lp_dc p).
Definition lp_set (p : lpacket) (l : list entry) : lpacket := mkLp l (lp_ec p) (lp_dc p).
Fixpoint index_of (l : list entry) (t : Z) (i : Z) : option (Z * list Z) :=
  match l with [] => None | (t', b) :: l' => if t =? t' then Some (i, b) else index_of l' t (i + 1) end.
Definition lp_update (p : lpacket) (i : Z) (b' : list Z) : Z * lpacket :=
  match ld (lp_entries p) i with
  | Some (t, b) => if lp_room p 0 (data_size b' - data_size b) then (OK, lp_set p (<[Z.to_nat i := (t, b')]> (lp_entries p))) else (1, p)
  | None => (1, p)
  end.

(** An encoding as numbers. *)
Definition enc (l : list entry) : list Z := l ≫= λ e, e.1 :: blen e.2 :: e.2.
Fixpoint dec (n : nat) (s : list Z) : option (list entry) :=
  match n, s with
  | O, _ => Some []
  | S n', t :: k :: s' => l ← dec n' (drop (Z.to_nat k) s'); Some ((t, take (Z.to_nat k) s') :: l)
  | _, _ => None
  end.
Lemma dec_enc l : dec (length l) (enc l) = Some l.
Proof.
  induction l as [|[t b] l IH]; [done|]. unfold enc. rewrite bind_cons. cbn [length dec app fst snd]. unfold blen. rewrite Nat2Z.id, drop_app_length, take_app_length.
  change (l ≫= _) with (enc l). by rewrite IH.
Qed.

(** [ok n] tells whether allocation number [n] succeeds. *)
Definition list_lib (ok : nat → bool) : PacketLib := {|
  packet := lpacket; pk_new := mkLp []; pk_clone := id;
  get_camera_metadata_entry_count := λ p, blen (lp_entries p); get_camera_metadata_entry_capacity := lp_ec;
  get_camera_metadata_data_count := λ p, used (lp_entries p); get_camera_metadata_data_capacity := lp_dc;
  get_camera_metadata_size := λ p, 64;
  append_camera_metadata := λ p q, if lp_room p (blen (lp_entries q)) (used (lp_entries q)) then (OK, lp_set p (lp_entries p ++ lp_entries q)) else (1, p);
  sort_camera_metadata := λ p, (OK, p);
  find_camera_metadata_entry := λ p t, match index_of (lp_entries p) t 0 with None => inl NAME_NOT_FOUND | Some x => inr x end;
  add_camera_metadata_entry := λ p t b, if lp_room p 1 (data_size b) then (OK, lp_set p (lp_entries p ++ [(t, b)])) else (1, p);
  update_camera_metadata_entry := lp_update;
  delete_camera_metadata_entry := λ p i, match ld (lp_entries p) i with Some _ => (OK, lp_set p (delete (Z.to_nat i) (lp_entries p))) | None => (1, p) end;
  get_camera_metadata_tag_type := λ t, if t <? 6 then t else -1;
  calculate_camera_metadata_entry_data_size := λ type n, let k := n * type_bytes type in if k <=? 4 then 0 else (k + 7) / 8 * 8;
  null_error := 1;
  compact := λ p, blen (lp_entries p) :: enc (lp_entries p);
  checked := λ s, match s with n :: s' => l ← dec (Z.to_nat n) s'; Some (mkLp l (blen l) (used l)) | [] => None end;
  metadata_alignment := 8; pk_entries := lp_entries;
  alloc := λ n live _ _, if ok n then Some (fresh live) else None |}.

Lemma index_of_spec l t i : match index_of l t i with
  | None => t ∉ l.*1
  | Some (j, b) => i <= j ∧ ld l (j - i) = Some (t, b) end.
Proof.
  revert i. induction l as [|[t' b] l IH]; intros i; cbn [index_of]; [apply not_elem_of_nil|]. destruct (Z.eqb_spec t t') as [->|Hne].
  - split; [lia|]. by rewrite Z.sub_diag.
  - specialize (IH (i + 1)). destruct (index_of l t (i + 1)) as [[j b']|]; [|rewrite fmap_cons, elem_of_cons; naive_solver]. destruct IH as [Hj Hl]. split; [lia|].
    unfold ld in *. rewrite bool_decide_true in * by lia. replace (Z.to_nat (j - i)) with (S (Z.to_nat (j - (i + 1)))) by lia. done.
Qed.

#[local] Instance list_lib_ok ok : PacketLibOk (list_lib ok).
Proof.
  split; try done.
  - intros p q Hr. change (lp_room p (blen (lp_entries q)) (used (lp_entries q)) = true) in Hr. cbn [append_camera_metadata list_lib]. by rewrite Hr.
  - intros p t b Hr. change (lp_room p 1 (data_size b) = true) in Hr. cbn [add_camera_metadata_entry list_lib]. by rewrite Hr.
  - intros p i t b b' Hl Hr. change (lp_room p 0 (data_size b' - data_size b) = true) in Hr. change (ld (lp_entries p) i = Some (t, b)) in Hl.
    cbn [update_camera_metadata_entry list_lib]. unfold lp_update. by rewrite Hl, Hr.
  - intros p i x Hl. change (ld (lp_entries p) i = Some x) in Hl. cbn [delete_camera_metadata_entry list_lib]. by rewrite Hl.
  - intros p. split; [done|]. exists (lp_entries p). done.
  - intros p t. cbn. pose proof (index_of_spec (lp_entries p) t 0) as Hx. destruct (index_of (lp_entries p) t 0) as [[j b]|]; [|done]. destruct Hx as [_ Hx]. by rewrite Z.sub_0_r in Hx.
  - intros p. exists (mkLp (lp_entries p) (blen (lp_entries p)) (used (lp_entries p))). split; [|done]. cbn [checked compact list_lib].
    replace (Z.to_nat (blen (lp_entries p))) with (length (lp_entries p)) by (unfold blen; lia). by rewrite dec_enc.
  - exists 3. done.
  - intros n live ec dc a. cbn. destruct (ok n); [|done]. intros [= <-]. apply is_fresh.
Qed.

(** A parcel whose blobs start at an odd address. *)
Definition item_parcel : BlobParcel := {|
  bparcel := list (Z + list Z); b_writeInt32 := λ v p, (OK, p ++ [inl v]); b_writeBlob := λ n _, if n <? 0 then inl BAD_VALUE else inr (0x1003, replicate (Z.to_nat n) 0); b_fill := λ b p, p ++ [inr b];
  b_readInt32 := λ p, match p with inl v :: l => ((OK, v), l) | _ => ((-61, 0), p) end;
  b_readBlob := λ n p, match p with inr b :: l => if blen b =? n then inr (b, l) else inl (-61) | _ => inl (-61) end; b_items := id |}.
#[local] Instance item_parcel_ok : BlobParcelOk item_parcel.
Proof.
  split.
  - done.
  - intros n p addr mem. cbn. destruct (Z.ltb_spec n 0); [done|]. intros [= <- <-]. unfold blen. rewrite length_replicate. lia.
  - done.
  - intros v l p. cbn. by intros ->.
  - intros bytes l p. cbn. intros ->. rewrite Z.eqb_refl. eauto.
Qed.

(** ** Witnesses *)

Abbreviation good := (list_lib (λ _, true)).
#[local] Existing Instance item_parcel.

(** Object 1 with a full packet, object 2 empty. *)
Definition full : lpacket := mkLp [(1, [7; 0; 0; 0])] 1 0.
Definition two_boxes : @mworld good := @MWorld good {[100 := full]} 0 (<[1%nat := mkBox (Some 100) false]> {[2%nat := mkBox None false]}).

Lemma good_lasts : @memory_lasts good.
Proof. intros n live ec dc. cbn. eauto. Qed.
Lemma full_holds : @holds good two_boxes 1 (Some 100) [(1, [7; 0; 0; 0])].
Proof. split; [done|]. split; [apply NoDup_singleton|]. by exists full. Qed.

Lemma metadata_is_map_witness : ∃ w1 x1 w2, @update good 1 3 4096 (DInt64 [5; 6]) two_boxes = Some (OK, w1) ∧ same_rest two_boxes (Some 100) w1 (Some x1) ∧
    (∀ t, find 1 t w1 = Some (<[3 := data_bytes (DInt64 [5; 6])]> (entry_map [(1, [7; 0; 0; 0])]) !! t, w1)) ∧
    erase 1 3 w1 = Some (OK, w2) ∧ same_rest w1 (Some x1) w2 (Some x1) ∧
    (∀ t, find 1 t w2 = Some (delete 3 (entry_map [(1, [7; 0; 0; 0])]) !! t, w2)).
Proof.
  apply (metadata_is_map (L := good) two_boxes 1 (Some 100) [(1, [7; 0; 0; 0])] 3 4096 (DInt64 [5; 6])); [apply good_lasts|apply full_holds|done|done|done|done].
Defined.

Definition locked_box : @mworld good := @MWorld good {[100 := full]} 0 (<[1%nat := mkBox (Some 100) true]> {[2%nat := mkBox None false]}).
Lemma metadata_locked_witness : @update good 1 3 0 (DByte [5]) locked_box = Some (INVALID_OPERATION, locked_box) ∧
  @unlock good 1 (Some 200) locked_box = Some (BAD_VALUE, locked_box).
Proof.
  destruct (metadata_locked (L := good) locked_box 1 (Some 100) 3 0 (DByte [5]) None 2 (Some 200)) as (H & _ & _ & _ & _ & _ & _ & _ & _ & _ & _ & _ & _ & _ & Hu); [done|by eexists|].
  split; [exact H|exact Hu].
Defined.

Lemma metadata_parcel_roundtrip_witness : ∃ bp1 bp2 w2 x, @writeToParcel good item_parcel 1 ([], two_boxes) = Some (OK, (bp1, two_boxes)) ∧
  readFromParcel 2 (bp1, two_boxes) = Some (OK, (bp2, w2)) ∧ holds w2 2 (Some x) [(1, [7; 0; 0; 0])] ∧ packets w2 !! 100 = Some full ∧ b_items bp2 = [].
Proof.
  apply (metadata_parcel_roundtrip (L := good) (P := item_parcel) two_boxes [] 1 100 full 2 false []); try done.
  - intros n bp Hn. cbn. destruct (Z.ltb_spec n 0); [lia|]. eauto.
  - apply good_lasts.
  - apply NoDup_singleton.
  - split; [done|]. split; [constructor|done].
Defined.

(** ** Faults *)

(** When growing fails for lack of memory the container forgets its packet: the
    old entries are gone from it and their packet is never freed. *)
Definition short : PacketLib := list_lib (λ _, false).
Definition short_boxes : @mworld short := @MWorld short {[100 := full]} 0 (<[1%nat := mkBox (Some 100) false]> {[2%nat := mkBox None false]}).
Theorem no_memory_loses_metadata :
  @update short 1 3 4096 (DInt64 [5; 6]) short_boxes = Some (NO_MEMORY, @MWorld short {[100 := full]} 1 (<[1%nat := mkBox None false]> (boxes short_boxes))).
Proof. by vm_compute. Qed.

(** Appending a container to itself reads its packet after growing has freed
    it; a container that is given its own packet frees and keeps it. *)
Theorem own_packet_dangles :
  @append_from good 1 1 two_boxes = None ∧
  (acquire 1 (Some 100);; entryCount 1) (two_boxes : @mworld good) = None.
Proof. by vm_compute. Qed.

(** Appending an empty container goes through its null packet. *)
Theorem append_empty_crashes : @append_from good 1 2 two_boxes = None.
Proof. by vm_compute. Qed.

(** A parcel that has no room for the blob. *)
Definition full_parcel : BlobParcel := {|
  bparcel := list (Z + list Z); b_writeInt32 := λ v p, (OK, p ++ [inl v]); b_writeBlob := λ _ _, inl NO_MEMORY; b_fill := λ b p, p ++ [inr b];
  b_readInt32 := λ p, match p with inl v :: l => ((OK, v), l) | _ => ((-61, 0), p) end;
  b_readBlob := λ n p, match p with inr b :: l => inr (b, l) | _ => inl (-61) end; b_items := id |}.

(** The failure to write the blob is not reported. *)
Theorem blob_failure_forgotten : fst <$> @writeToParcel good full_parcel 1 ([], two_boxes) = Some OK.
Proof. by vm_compute. Qed.

(** ** Rotation *)

Definition camera_info (l : list entry) : @mworld good := @MWorld good {[100 := mkLp l (blen l) (used l)]} 0 {[1%nat := mkBox (Some 100) false]}.
Definition front_270 : list entry := [(ANDROID_SENSOR_ORIENTATION, [14; 1; 0; 0]); (ANDROID_LENS_FACING, [ANDROID_LENS_FACING_FRONT])].

Lemma front_holds : @holds good (camera_info front_270) 1 (Some 100) front_270.
Proof. split; [done|]. split; [apply (bool_decide_unpack _); by vm_compute|]. by eexists. Qed.

Lemma rotation_upright_witness : ∃ status transform, getRotationTransform 1 (camera_info front_270) = Some ((status, transform), camera_info front_270) ∧
  if bool_decide (270 ∈ [0; 90; 180; 270])
  then status = OK ∧ Z.testbit transform 3 = true ∧
    ∀ q, act transform q = (if 0 =? ANDROID_LENS_FACING_FRONT then mirror else id) (turn (Z.to_nat (270 / 90)) q)
  else status = INVALID_OPERATION ∧ transform = 0.
Proof. apply (rotation_upright (L := good) (camera_info front_270) 1 (Some 100) front_270 [14; 1; 0; 0] 0 [] 270); [apply front_holds|by vm_compute|by vm_compute|by vm_compute]. Defined.

(** A camera without a facing is not refused. *)
Theorem missing_facing_crashes : getRotationTransform 1 (camera_info [(ANDROID_SENSOR_ORIENTATION, [90; 0; 0; 0])]) = None.
Proof. by vm_compute. Qed.
