(* ===== verification/HalImage.v ===== *)
(** * Still image helpers of the HAL (camera/MochaCameraHAL.cpp)

    [upscaleRGBA] stretches the captured frame to the size of the BLOB stream,
    [insertExifApp1] splices an EXIF segment into a JPEG. *)

From S2P Require Import Prelude Monad Float32 Kernel Demosaic DemosaicSpec ColorConv Pipeline CaptureSpec.

#[local] Open Scope Z_scope.

(** ** Definitions *)

(** [int srcY = (y * srcH) / dstH] *)
Definition src_coord (v src dst : Z) : option Z := p ← ck32 (v * src); cdiv p dst.

(** [(size_t)(row * width + col)) * 4]: the index is computed in [int]. *)
Definition rgba_off (row width col : Z) : option Z :=
  m ← ck32 (row * width); i ← ck32 (m + col); Some (u32 (u32 i * 4)).

Definition upscale_px (src : list Z) (srcW srcY dstW y x : Z) (dst : list Z) : option (list Z) :=
  srcX ← src_coord x srcW dstW;
  d ← rgba_off y dstW x;
  s ← rgba_off srcY srcW srcX;
  px ← ldn src s 4;
  stn dst d px.

(** The stretched image and its size, or a null pointer when [malloc] fails. *)
Definition upscaleRGBA (heap : allocator) (src : list Z) (srcW srcH dstW dstH : Z)
  : option (option (list Z * Z)) :=
  let dstBufSize := u32 (u32 dstW * u32 dstH * 4) in
  match heap dstBufSize with
  | None => Some None
  | Some dst =>
      dst ← for_range 0 dstH 1 (λ dst y,
        srcY ← src_coord y srcH dstH;
        for_range 0 dstW 1 (λ dst x, upscale_px src srcW srcY dstW y x dst) dst) dst;
      Some (Some (dst, dstBufSize))
  end.

Definition exif_app1 (width height : Z) : list Z := [
  0xFF; 0xE1; 0x2E; 0x00; 0x45; 0x78; 0x69; 0x66; 0x00; 0x00;
  0x49; 0x49; 0x2A; 0x00; 0x08; 0x00; 0x00; 0x00; 0x02; 0x00;
  0x12; 0x01; 0x03; 0x00; 0x01; 0x00; 0x00; 0x00;
  Z.land width 0xFF; Z.land (width ≫ 8) 0xFF; 0x00; 0x00;
  0x13; 0x01; 0x03; 0x00; 0x01; 0x00; 0x00; 0x00;
  Z.land height 0xFF; Z.land (height ≫ 8) 0xFF; 0x00; 0x00;
  0x00; 0x00; 0x00; 0x00].

(** The buffer that holds the JPEG and the size of the JPEG in it. *)
Definition insertExifApp1 (heap : allocator) (jpeg : list Z) (jpegSize width height : Z)
  : option (list Z * Z) :=
  if jpegSize <? 2 then Some (jpeg, jpegSize) else
  b0 ← ld jpeg 0;
  if negb (b0 =? 0xFF) then Some (jpeg, jpegSize) else
  b1 ← ld jpeg 1;
  if negb (b1 =? 0xD8) then Some (jpeg, jpegSize) else
  let newSize := u32 (jpegSize + 48) in
  match heap newSize with
  | None => Some (jpeg, jpegSize)
  | Some tmp =>
      soi ← ldn jpeg 0 2; tmp ← stn tmp 0 soi;
      tmp ← stn tmp 2 (exif_app1 width height);
      rest ← ldn jpeg 2 (jpegSize - 2); tmp ← stn tmp 50 rest;
      all ← ldn tmp 0 newSize; jpeg ← stn jpeg 0 all;
      Some (jpeg, newSize)
  end.

(** ** Upscaling *)

(** The nearest-neighbour reference: byte [j] of the stretched image. *)
Definition up_byte (src : list Z) (srcW srcH dstW dstH j : Z) : option Z :=
  let y := j / 4 / dstW in let x := (j / 4) mod dstW in
  ld src (px_addr 4 srcW (y * srcH / dstH) (x * srcW / dstW) (j mod 4)).

Lemma coord_range v n m : 0 < n → 0 < m → 0 <= v < m → 0 <= v * n / m < n.
Proof. intros. split; [apply Z.div_pos; nia|apply Z.div_lt_upper_bound; nia]. Qed.

Lemma src_coord_Some v n m :
  0 < m → 0 < n → 0 <= v < m → m * n < 2 ^ 31 → src_coord v n m = Some (v * n / m).
Proof.
  intros. unfold src_coord. rewrite ck32_Some by (unfold INT_MIN, INT_MAX; nia). simpl.
  rewrite cdiv_pos by lia. rewrite Z.quot_div_nonneg by nia. done.
Qed.

Lemma rgba_off_Some y w x h :
  0 <= y < h → 0 <= x < w → w * h * 4 < 2 ^ 31 → rgba_off y w x = Some (px_addr 4 w y x 0).
Proof.
  intros. pose proof (px_addr_bounds 4 w h y x 0). unfold px_addr in *. unfold rgba_off.
  do 2 (rewrite ck32_Some by (unfold INT_MIN, INT_MAX; nia); cbn [mbind option_bind]).
  rewrite (u32_id (y * w + x)), u32_id by nia. f_equal. lia.
Qed.

Lemma upscale_px_fills src srcW srcH dstW dstH y x dst0 dst :
  0 < srcW → 0 < srcH → dstW * srcW < 2 ^ 31 → dstH * srcH < 2 ^ 31 →
  srcW * srcH * 4 < 2 ^ 31 → dstW * dstH * 4 < 2 ^ 31 → srcW * srcH * 4 <= blen src →
  blen dst0 = dstW * dstH * 4 → 0 <= y < dstH → 0 <= x < dstW →
  filled (up_byte src srcW srcH dstW dstH) 0 (px_addr 4 dstW y x 0) dst0 dst →
  ∃ dst', upscale_px src srcW (y * srcH / dstH) dstW y x dst = Some dst' ∧
    filled (up_byte src srcW srcH dstW dstH) 0 (px_addr 4 dstW y (x + 1) 0) dst0 dst'.
Proof.
  intros. unfold upscale_px. rewrite src_coord_Some by lia. cbn [mbind option_bind].
  pose proof (coord_range x srcW dstW) as Hx. pose proof (coord_range y srcH dstH) as Hy.
  rewrite (rgba_off_Some y dstW x dstH) by lia. cbn [mbind option_bind].
  rewrite (rgba_off_Some _ srcW _ srcH) by lia. cbn [mbind option_bind].
  set (sy := y * srcH / dstH) in *. set (sx := x * srcW / dstW) in *.
  pose proof (px_addr_bounds 4 srcW srcH sy sx 0) as Hb0. pose proof (px_addr_bounds 4 srcW srcH sy sx 3) as Hb3.
  pose proof (px_addr_bounds 4 dstW dstH y x 0) as Hd0. pose proof (px_addr_bounds 4 dstW dstH y x 3) as Hd3.
  destruct (ldn_defined src (px_addr 4 srcW sy sx 0) 4) as [px E]; [lia|lia|unfold px_addr in *; lia|].
  rewrite E. cbn [mbind option_bind]. apply ldn_Some in E as (Hl & _ & _ & Hk).
  destruct (filled_stn (up_byte src srcW srcH dstW dstH) 0 (px_addr 4 dstW y x 0) dst0 dst px) as (dst' & E' & Hf).
  - done.
  - lia.
  - lia.
  - rewrite Hl. unfold px_addr in *. lia.
  - rewrite Hl. intros k Hk4. rewrite Hk by done. unfold up_byte.
    replace (px_addr 4 dstW y x 0 + k) with (4 * (dstW * y + x) + k) by (unfold px_addr; lia).
    destruct (px_index 4 (dstW * y + x) k Hk4) as [-> ->]. destruct (px_index dstW y x) as [-> ->]; [lia|].
    fold sy sx. f_equal. unfold px_addr. lia.
  - exists dst'. rewrite Z.add_0_l in E'. split; [done|]. rewrite Hl in Hf.
    replace (px_addr 4 dstW y (x + 1) 0) with (px_addr 4 dstW y x 0 + 4) by (unfold px_addr; lia). done.
Qed.

(** Stretching is memory safe and is nearest-neighbour scaling: every
    byte of the result is the byte of the same channel of the source pixel at
    [(x * srcW / dstW, y * srcH / dstH)], for every pair of sizes whose
    products fit an [int]. *)
Theorem upscale_nearest heap src srcW srcH dstW dstH dst0 (Hheap : AllocOk heap)
  (Hs : 0 < srcW ∧ 0 < srcH) (Hd : 0 < dstW ∧ 0 < dstH)
  (Hx : dstW * srcW < 2 ^ 31) (Hy : dstH * srcH < 2 ^ 31)
  (Hsz : srcW * srcH * 4 < 2 ^ 31) (Hdz : dstW * dstH * 4 < 2 ^ 31)
  (Hsrc : srcW * srcH * 4 <= blen src) (Hm : heap (dstW * dstH * 4) = Some dst0) :
  ∃ dst, upscaleRGBA heap src srcW srcH dstW dstH = Some (Some (dst, dstW * dstH * 4)) ∧
    blen dst = dstW * dstH * 4 ∧
    ∀ y x k, 0 <= y < dstH → 0 <= x < dstW → 0 <= k < 4 →
      ld dst (px_addr 4 dstW y x k) = ld src (px_addr 4 srcW (y * srcH / dstH) (x * srcW / dstW) k).
Proof.
  destruct Hs as [Hs1 Hs2], Hd as [Hd1 Hd2]. unfold upscaleRGBA.
  rewrite (u32_id dstW), (u32_id dstH), (u32_id (dstW * dstH * 4)) by nia. rewrite Hm.
  pose proof (alloc_len _ _ Hm) as Hl0.
  set (f := up_byte src srcW srcH dstW dstH).
  edestruct (for_range_inv (λ y d, filled f 0 (px_addr 4 dstW y 0 0) dst0 d) 0 dstH 1) as (dst & E & Hf);
    [done|apply filled_0| |rewrite E; cbn [mbind option_bind]].
  { intros y d Hyr _ Hfd. cbn beta. rewrite src_coord_Some by lia. cbn [mbind option_bind].
    edestruct (for_range_inv (λ x d, filled f 0 (px_addr 4 dstW y x 0) dst0 d) 0 dstW 1) as (d' & E' & Hf');
      [done|exact Hfd| |exists d'; split; [exact E'|]].
    { intros x d1 Hxr _ Hf1. by apply upscale_px_fills. }
    rewrite range_end_unit in Hf' by lia.
    by replace (px_addr 4 dstW (y + 1) 0 0) with (px_addr 4 dstW y dstW 0) by (unfold px_addr; lia). }
  exists dst. split; [done|]. rewrite range_end_unit in Hf by lia. split; [by rewrite (filled_length _ _ _ _ _ Hf)|].
  intros y x k Hyr Hxr Hk. pose proof (px_addr_bounds 4 dstW dstH y x k) as Hb.
  rewrite <- (Z.add_0_l (px_addr 4 dstW y x k)).
  rewrite (filled_in _ _ _ _ _ _ Hf) by (unfold px_addr in *; lia). unfold f, up_byte.
  replace (px_addr 4 dstW y x k) with (4 * (dstW * y + x) + k) by (unfold px_addr; lia).
  destruct (px_index 4 (dstW * y + x) k Hk) as [-> ->]. by destruct (px_index dstW y x) as [-> ->]; [lia|].
Qed.

Lemma upscale_nearest_witness :
  ∃ dst, upscaleRGBA zero_heap (zrange 0 16 1) 2 2 3 4 = Some (Some (dst, 48)) ∧
    ld dst (px_addr 4 3 3 2 1) = Some 13.
Proof.
  destruct (upscale_nearest zero_heap (zrange 0 16 1) 2 2 3 4 (replicate 48 0) _ ltac:(lia) ltac:(lia)
    ltac:(lia) ltac:(lia) ltac:(lia) ltac:(lia) ltac:(vm_compute; discriminate) ltac:(vm_compute; reflexivity))
    as (dst & E & _ & Hp).
  exists dst. split; [exact E|]. rewrite Hp by lia. vm_compute. reflexivity.
Defined.

(** ** EXIF *)

Lemma list_inserts_mid {A} (a b c v : list A) :
  length b = length v → list_inserts (length a) v (a ++ b ++ c) = a ++ v ++ c.
Proof.
  revert a b. induction v as [|x v IH]; intros a [|y b] Hl; try done. simpl.
  replace (a ++ y :: b ++ c) with ((a ++ [y]) ++ b ++ c) by by rewrite <- app_assoc.
  replace (S (length a)) with (length (a ++ [y])) by (rewrite length_app; simpl; lia).
  rewrite IH by (simpl in Hl; lia). rewrite <- app_assoc. simpl.
  by rewrite insert_app_r_alt, Nat.sub_diag by lia.
Qed.

Lemma stn_mid {A} (a b c v : list A) off :
  off = blen a → blen b = blen v → stn (a ++ b ++ c) off v = Some (a ++ v ++ c).
Proof.
  intros -> Hb. unfold blen in *. rewrite stn_Some.
  - rewrite Nat2Z.id, list_inserts_mid by lia. done.
  - lia.
  - unfold blen. rewrite !length_app. lia.
Qed.

Lemma ldn_mid {A} (a b c : list A) off n :
  off = blen a → n = blen b → ldn (a ++ b ++ c) off n = Some b.
Proof.
  intros -> ->. unfold ldn, blen. rewrite bool_decide_true by (rewrite !length_app; lia).
  by rewrite !Nat2Z.id, drop_app_length, take_app_length.
Qed.

(** Where a JPEG segment ends, from the two length bytes after its marker
    (most significant first, counting themselves). *)
Definition segment_end (jpeg : list Z) (marker : Z) : Z :=
  marker + 2 + (256 * bget jpeg (marker + 2) + bget jpeg (marker + 3)).

(** What inserting the EXIF segment does.  A JPEG of at least two bytes
    with 48 bytes of room behind it becomes start-of-image, the 48-byte
    segment and the rest of the JPEG, everything else in the buffer kept; the
    segment takes the 48 bytes from 2 to 50, but its length bytes are in the
    wrong order, so a decoder looks for the next marker at offset 11780. *)
Theorem exif_insertion heap rest slack width height tmp (Hheap : AllocOk heap)
  (Hroom : 48 <= blen slack) (Hfit : blen rest + 50 < 2 ^ 32)
  (Hm : heap (blen rest + 50) = Some tmp) :
  ∃ out, insertExifApp1 heap ([0xFF; 0xD8] ++ rest ++ slack) (blen rest + 2) width height
           = Some (out, blen rest + 50) ∧
    out = [0xFF; 0xD8] ++ exif_app1 width height ++ rest ++ drop 48 slack ∧
    2 + blen (exif_app1 width height) = 50 ∧ segment_end out 2 = 11780.
Proof.
  set (jpeg := [0xFF; 0xD8] ++ rest ++ slack).
  exists ([0xFF; 0xD8] ++ exif_app1 width height ++ rest ++ drop 48 slack).
  split_and!; [|done|done|done].
  pose proof (blen_nonneg rest). unfold insertExifApp1.
  rewrite (proj2 (Z.ltb_ge _ _)) by lia.
  change (ld jpeg 0) with (Some 0xFF). change (ld jpeg 1) with (Some 0xD8).
  cbn [mbind option_bind negb Z.eqb Pos.eqb].
  replace (blen rest + 2 + 48) with (blen rest + 50) by lia. rewrite u32_id by lia. rewrite Hm.
  pose proof (alloc_len _ _ Hm) as Hl.
  assert (ldn jpeg 0 2 = Some [0xFF; 0xD8]) as ->
    by (apply (ldn_mid [] [0xFF; 0xD8] (rest ++ slack)); done). cbn [mbind option_bind].
  assert (∃ t1 t2 t3, tmp = t1 ++ t2 ++ t3 ∧ blen t1 = 2 ∧ blen t2 = 48 ∧ blen t3 = blen rest)
    as (t1 & t2 & t3 & -> & H1 & H2 & H3).
  { exists (take 2 tmp), (take 48 (drop 2 tmp)), (drop 48 (drop 2 tmp)).
    rewrite !take_drop. split; [done|]. unfold blen in *.
    rewrite !length_take, !length_drop. lia. }
  set (ex := exif_app1 width height).
  assert (stn (t1 ++ t2 ++ t3) 0 [0xFF; 0xD8] = Some ([0xFF; 0xD8] ++ t2 ++ t3)) as ->
    by (apply (stn_mid [] t1 (t2 ++ t3)); done). cbn [mbind option_bind].
  rewrite (stn_mid [0xFF; 0xD8] t2 t3 ex) by done. cbn [mbind option_bind].
  replace (blen rest + 2 - 2) with (blen rest) by lia.
  assert (ldn jpeg 2 (blen rest) = Some rest) as ->
    by (apply (ldn_mid [0xFF; 0xD8] rest slack); done). cbn [mbind option_bind].
  assert (stn ([0xFF; 0xD8] ++ ex ++ t3) 50 rest = Some ([0xFF; 0xD8] ++ ex ++ rest)) as ->.
  { pose proof (stn_mid ([0xFF; 0xD8] ++ ex) t3 [] rest 50) as E. rewrite !app_nil_r, <- !app_assoc in E.
    by apply E. }
  cbn [mbind option_bind].
  assert (blen ([0xFF; 0xD8] ++ ex ++ rest) = blen rest + 50) as Hall.
  { unfold blen. rewrite !length_app. change (length ex) with 48%nat. simpl. lia. }
  assert (ldn ([0xFF; 0xD8] ++ ex ++ rest) 0 (blen rest + 50) = Some ([0xFF; 0xD8] ++ ex ++ rest)) as ->.
  { pose proof (ldn_mid [] ([0xFF; 0xD8] ++ ex ++ rest) [] 0 (blen rest + 50)) as E.
    rewrite app_nil_r in E. by apply E. }
  cbn [mbind option_bind].
  assert (jpeg = ([0xFF; 0xD8] ++ rest ++ take 48 slack) ++ drop 48 slack) as ->.
  { unfold jpeg. by rewrite <- !app_assoc, take_drop. }
  pose proof (stn_mid [] ([0xFF; 0xD8] ++ rest ++ take 48 slack) (drop 48 slack)
    ([0xFF; 0xD8] ++ ex ++ rest) 0 eq_refl) as E.
  cbn [app] in E |- *. rewrite E; [by rewrite <- app_assoc|].
  unfold blen in *. cbn [length]. rewrite !length_app, length_take. change (length ex) with 48%nat. lia.
Qed.

Lemma exif_insertion_witness :
  ∃ out, insertExifApp1 zero_heap ([0xFF; 0xD8] ++ [0xFF; 0xD9] ++ replicate 48 0) 4 640 480 = Some (out, 52) ∧
    segment_end out 2 = 11780.
Proof.
  destruct (exif_insertion zero_heap [0xFF; 0xD9] (replicate 48 0) 640 480 (replicate 52 0) _
    ltac:(vm_compute; discriminate) ltac:(vm_compute; reflexivity) ltac:(vm_compute; reflexivity))
    as (out & E & _ & _ & Hs).
  exists out. split; [exact E|exact Hs].
Defined.

(** Without that room the copy back runs past the buffer. *)
Example exif_overruns :
  insertExifApp1 zero_heap ([0xFF; 0xD8] ++ [0xFF; 0xD9] ++ replicate 47 0) 4 640 480 = None.
Proof. vm_compute. reflexivity. Qed.
