(* ===== verification/Jpeg.v ===== *)
(** * The JPEG encoder (camera/JpegEncoder.cpp)

    [encodeRGBA] drops the alpha channel row by row and feeds the rows to
    libjpeg, whose output goes to a fixed buffer through the destination
    manager of this file.  libjpeg is not part of the repository: it is the
    parameter [Libjpeg], with what its documentation promises in [LibjpegOk]:
    it writes only into the free part of the destination; a call of
    [jpeg_write_scanlines] with rows missing that returns has either consumed
    its row or was suspended because [empty_output_buffer] returned FALSE; and
    [jpeg_finish_compress] before all rows were written is an error.  On an
    error the standard error manager exits the process ([None]); every call
    may do so, in particular the first [jpeg_write_scanlines], which writes the
    headers and cannot be suspended while it does. *)

From S2P Require Import Prelude Monad Float32 Kernel Demosaic DemosaicSpec.

#[local] Open Scope Z_scope.

Definition ENOSPC : Z := 28.

(** ** The destination manager *)

(** [next_output_byte] is an offset into [dm_buffer]. *)
Record jpeg_dest_mgr := mkDest {
  next_output_byte : Z; free_in_buffer : Z;
  dm_buffer : list Z; bufferSize : Z; overflow : bool }.

#[export] Instance jpeg_dest_mgr_eta : Eta jpeg_dest_mgr := λ d,
  mkDest (next_output_byte d) (free_in_buffer d) (dm_buffer d) (bufferSize d) (overflow d).

Definition dest_init_destination (dest : jpeg_dest_mgr) : jpeg_dest_mgr :=
  dest <| next_output_byte := 0 |> <| free_in_buffer := bufferSize dest |> <| overflow := false |>.

(** Returns FALSE: the buffer cannot be emptied. *)
Definition dest_empty_output_buffer (dest : jpeg_dest_mgr) : bool * jpeg_dest_mgr :=
  (false, dest <| overflow := true |>).

Definition dest_term_destination (dest : jpeg_dest_mgr) : jpeg_dest_mgr := dest.

Record dest_ops := {
  init_destination : jpeg_dest_mgr → jpeg_dest_mgr;
  empty_output_buffer : jpeg_dest_mgr → bool * jpeg_dest_mgr;
  term_destination : jpeg_dest_mgr → jpeg_dest_mgr }.

Definition fixed_dest : dest_ops := {|
  init_destination := dest_init_destination;
  empty_output_buffer := dest_empty_output_buffer;
  term_destination := dest_term_destination |}.

(** ** libjpeg *)

Class Libjpeg := {
  cinfo : Type;
  (** [jpeg_create_compress], the image size, three components in RGB order,
      [jpeg_set_defaults] and [jpeg_set_quality]. *)
  jpeg_setup : Z → Z → Z → cinfo;
  image_height : cinfo → Z;
  next_scanline : cinfo → Z;
  jpeg_start_compress : dest_ops → cinfo → jpeg_dest_mgr → option (cinfo * jpeg_dest_mgr);
  jpeg_write_scanlines : dest_ops → cinfo → jpeg_dest_mgr → list Z → option (cinfo * jpeg_dest_mgr);
  jpeg_finish_compress : dest_ops → cinfo → jpeg_dest_mgr → option (cinfo * jpeg_dest_mgr);
}.

(** ** The encoder *)

Section Encoder.
Context `{!Libjpeg}.

(** One row without alpha. *)
Definition rgb_row (rgba : list Z) (base width : Z) (rgbRow : list Z) : option (list Z) :=
  for_range 0 width 1 (λ row x,
    r ← ld rgba (base + x * 4); row ← st row (x * 3) r;
    g ← ld rgba (base + x * 4 + 1); row ← st row (x * 3 + 1) g;
    b ← ld rgba (base + x * 4 + 2); st row (x * 3 + 2) b) rgbRow.

(** The row loop; the fuel is the number of rows. *)
Fixpoint scan_loop (fuel : nat) (rgba : list Z) (width height row_stride : Z) (c : cinfo)
  (dest : jpeg_dest_mgr) (rgbRow : list Z) : option (cinfo * jpeg_dest_mgr) :=
  if negb (next_scanline c <? u32 height) then Some (c, dest) else
  match fuel with
  | O => None
  | S fuel' =>
      row ← rgb_row rgba (u32 (next_scanline c * row_stride)) width rgbRow;
      '(c, dest) ← jpeg_write_scanlines fixed_dest c dest row;
      if overflow dest then Some (c, dest)
      else scan_loop fuel' rgba width height row_stride c dest row
  end.

(** The return value, [*jpegSize] and the output buffer. *)
Definition encodeRGBA (heap : allocator) (rgba : list Z) (width height quality : Z) (output : list Z)
  (outputSize jpegSize : Z) : option (Z * Z * list Z) :=
  let c := jpeg_setup width height quality in
  let dest := {| next_output_byte := 0; free_in_buffer := 0; dm_buffer := output;
                 bufferSize := outputSize; overflow := false |} in
  '(c, dest) ← jpeg_start_compress fixed_dest c dest;
  row_stride ← ck32 (width * 4);
  rowBytes ← ck32 (width * 3);
  match heap (u32 rowBytes) with
  | None => Some (- ENOMEM, jpegSize, dm_buffer dest)
  | Some rgbRow =>
      '(c, dest) ← scan_loop (Z.to_nat height) rgba width height row_stride c dest rgbRow;
      '(c, dest) ← jpeg_finish_compress fixed_dest c dest;
      let jpegSize := u32 (outputSize - free_in_buffer dest) in
      if overflow dest then Some (- ENOSPC, jpegSize, dm_buffer dest)
      else Some (0, jpegSize, dm_buffer dest)
  end.

End Encoder.

(** ** What libjpeg promises *)

(** The free part lies behind the written part and ends with the buffer. *)
Definition dest_ok (d : jpeg_dest_mgr) : Prop :=
  0 <= next_output_byte d ∧ 0 <= free_in_buffer d ∧
  next_output_byte d + free_in_buffer d = bufferSize d ∧ bufferSize d <= blen (dm_buffer d).

(** Between two calls: same buffer, and nothing behind its end written. *)
Definition dest_step (d d' : jpeg_dest_mgr) : Prop :=
  dest_ok d' ∧ bufferSize d' = bufferSize d ∧ blen (dm_buffer d') = blen (dm_buffer d) ∧
  ∀ j, bufferSize d <= j → ld (dm_buffer d') j = ld (dm_buffer d) j.

Class LibjpegOk (J : Libjpeg) : Prop := {
  lj_height w h q : image_height (jpeg_setup w h q) = h;
  lj_start c d c' d' :
    0 <= bufferSize d <= blen (dm_buffer d) → jpeg_start_compress fixed_dest c d = Some (c', d') →
    next_scanline c' = 0 ∧ image_height c' = image_height c ∧
    dest_step (dest_init_destination d) d' ∧ overflow d' = false;
  lj_write c d row c' d' :
    dest_ok d → next_scanline c < image_height c → jpeg_write_scanlines fixed_dest c d row = Some (c', d') →
    image_height c' = image_height c ∧ dest_step d d' ∧
    ((next_scanline c' = next_scanline c + 1 ∧ overflow d' = overflow d) ∨
     (next_scanline c' = next_scanline c ∧ overflow d' = true));
  lj_finish_early c d : next_scanline c < image_height c → jpeg_finish_compress fixed_dest c d = None;
  lj_finish c d c' d' : dest_ok d → jpeg_finish_compress fixed_dest c d = Some (c', d') →
    dest_step d d' ∧ overflow d' = overflow d;
}.

Lemma dest_step_refl d : dest_ok d → dest_step d d.
Proof. by intros. Qed.
Lemma dest_step_trans d1 d2 d3 : dest_step d1 d2 → dest_step d2 d3 → dest_step d1 d3.
Proof.
  intros (_ & E1 & L1 & K1) (O2 & E2 & L2 & K2). split; [done|]. split; [congruence|]. split; [congruence|].
  intros j Hj. rewrite K2 by lia. by apply K1.
Qed.

(** ** Rows *)

(** Row [y] without alpha. *)
Definition rgb_of (rgba : list Z) (width y : Z) : list Z :=
  (λ j, bget rgba ((y * width + j / 3) * 4 + j mod 3)) <$> zrange 0 (3 * width) 1.

Lemma filled_all (f : Z → Z) n b0 b :
  0 <= n → blen b0 = n → filled (λ j, Some (f j)) 0 n b0 b → b = f <$> zrange 0 n 1.
Proof.
  intros Hn Hl [Hb Hf]. apply ld_eq. intros j. rewrite Hf.
  case_bool_decide as Hj.
  - unfold ld. rewrite bool_decide_true by lia. rewrite list_lookup_fmap, zrange_unit_lookup by lia.
    simpl. do 2 f_equal. lia.
  - rewrite !ld_ge; [done| |lia]. unfold blen, zrange. rewrite !length_fmap, length_seqZ.
    unfold zrange_len. rewrite Z.div_1_r. lia.
Qed.

Lemma rgb_row_of rgba width y row0 :
  0 <= width → 0 <= y → (y + 1) * width * 4 <= blen rgba → blen row0 = 3 * width →
  rgb_row rgba (y * (width * 4)) width row0 = Some (rgb_of rgba width y).
Proof.
  intros Hw Hy Hin Hl. set (f := λ j, bget rgba ((y * width + j / 3) * 4 + j mod 3)).
  edestruct (for_range_inv (λ x r, filled (λ j, Some (f j)) 0 (3 * x) row0 r) 0 width 1) as (r & E & Hf);
    [done|apply filled_0| |].
  2:{ unfold rgb_row. rewrite E. rewrite range_end_unit in Hf by lia. f_equal.
      apply (filled_all f (3 * width) row0 r); [lia|done|exact Hf]. }
  intros x r Hx _ Hr. cbn beta.
  assert (∀ k, 0 <= k < 3 → bget rgba (y * (width * 4) + x * 4 + k) = f (3 * x + k)) as Hk.
  { intros k ?. unfold f. destruct (px_index 3 x k) as [-> ->]; [done|]. f_equal. lia. }
  assert (y * (width * 4) + width * 4 <= blen rgba) by nia.
  assert (bget rgba (y * (width * 4) + x * 4) = f (3 * x)) as H0.
  { pose proof (Hk 0 ltac:(lia)) as E. by rewrite !Z.add_0_r in E. }
  rewrite (ld_bget rgba (y * (width * 4) + x * 4)), H0 by lia. cbn [mbind option_bind].
  destruct (filled_st (λ j, Some (f j)) 0 (3 * x) row0 r (f (3 * x)) (x * 3) Hr)
    as (r1 & -> & H1); [lia|lia|lia|done|lia|]. cbn [mbind option_bind].
  rewrite (ld_bget rgba (y * (width * 4) + x * 4 + 1)), Hk by lia. cbn [mbind option_bind].
  destruct (filled_st (λ j, Some (f j)) 0 (3 * x + 1) row0 r1 (f (3 * x + 1)) (x * 3 + 1) H1)
    as (r2 & -> & H2); [lia|lia|lia|done|lia|]. cbn [mbind option_bind].
  rewrite (ld_bget rgba (y * (width * 4) + x * 4 + 2)), Hk by lia. cbn [mbind option_bind].
  destruct (filled_st (λ j, Some (f j)) 0 (3 * x + 1 + 1) row0 r2 (f (3 * x + 2)) (x * 3 + 2) H2)
    as (r3 & -> & H3); [lia|lia|lia|by replace (3 * x + 1 + 1) with (3 * x + 2) by lia|lia|].
  exists r3. split; [done|]. by replace (3 * (x + 1)) with (3 * x + 1 + 1 + 1) by lia.
Qed.

Lemma rgb_of_length rgba width y : 0 <= width → blen (rgb_of rgba width y) = 3 * width.
Proof.
  intros. unfold blen, rgb_of, zrange. rewrite !length_fmap, length_seqZ.
  unfold zrange_len. rewrite Z.div_1_r. lia.
Qed.

(** ** Feeding the compressor *)

Section Spec.
Context `{!Libjpeg, !LibjpegOk _}.

(** The reference: rows in order until one overflows the destination; the
    library may exit the process at any of them. *)
Fixpoint feed (c : cinfo) (d : jpeg_dest_mgr) (rows : list (list Z)) : option (cinfo * jpeg_dest_mgr) :=
  match rows with
  | [] => Some (c, d)
  | r :: rows' =>
      '(c, d) ← jpeg_write_scanlines fixed_dest c d r;
      if overflow d then Some (c, d) else feed c d rows'
  end.

Lemma feed_spec rows c d c' d' :
  dest_ok d → overflow d = false → next_scanline c + blen rows <= image_height c → feed c d rows = Some (c', d') →
  image_height c' = image_height c ∧ dest_step d d' ∧
    (overflow d' = false → next_scanline c' = next_scanline c + blen rows) ∧
    (overflow d' = true → next_scanline c' < next_scanline c + blen rows).
Proof.
  revert c d. induction rows as [|r rows IH]; intros c d Hd Ho Hn E; cbn [feed] in E.
  - injection E as <- <-. change (blen []) with 0. split_and!; [done|by apply dest_step_refl|lia|congruence].
  - assert (blen (r :: rows) = 1 + blen rows) as Hl by (unfold blen; simpl; lia). pose proof (blen_nonneg rows).
    destruct (jpeg_write_scanlines fixed_dest c d r) as [[c1 d1]|] eqn:Ew; [|done]. cbn [mbind option_bind] in E.
    destruct (lj_write c d r c1 d1 Hd ltac:(lia) Ew) as (Hh & Hs & Hc). destruct (overflow d1) eqn:Ho1.
    + injection E as <- <-. destruct Hc as [[_ Hc]|[Hc _]]; [congruence|]. split_and!; [done|done|congruence|lia].
    + destruct Hc as [[Hn1 _]|[_ Hc]]; [|congruence].
      destruct (IH c1 d1) as (Hh' & Hs' & Hf & Ht); [apply Hs|done|lia|done|].
      split_and!; [congruence|by eapply dest_step_trans|..]; intros Hx.
      * rewrite (Hf Hx). lia.
      * specialize (Ht Hx). lia.
Qed.

Lemma scan_loop_feed rgba width height n y c d row0 :
  0 <= width → 0 <= y → y + Z.of_nat n = height → width * height * 4 < 2 ^ 31 → height < 2 ^ 32 →
  width * height * 4 <= blen rgba → blen row0 = 3 * width → dest_ok d → overflow d = false →
  next_scanline c = y → image_height c = height →
  scan_loop n rgba width height (width * 4) c d row0 = feed c d (rgb_of rgba width <$> zrange y height 1).
Proof.
  revert y c d row0. induction n as [|n IH]; intros y c d row0 Hw Hy Hn Hz Hh Hin Hl Hd Ho Hc Hi.
  - rewrite zrange_nil by lia. cbn [scan_loop]. rewrite Hc, u32_id by lia.
    by rewrite (proj2 (Z.ltb_ge _ _)) by lia.
  - rewrite zrange_cons by lia. cbn [scan_loop fmap list_fmap feed]. rewrite Hc, u32_id by lia. rewrite (proj2 (Z.ltb_lt _ _)) by lia.
    cbn [negb]. rewrite u32_id by nia. rewrite rgb_row_of by (done || nia). cbn [mbind option_bind].
    destruct (jpeg_write_scanlines fixed_dest c d (rgb_of rgba width y)) as [[c1 d1]|] eqn:E; [|done].
    destruct (lj_write c d (rgb_of rgba width y) c1 d1 Hd ltac:(lia) E) as (Hh1 & Hs & Hcase).
    cbn [mbind option_bind]. destruct (overflow d1) eqn:Ho1; [done|].
    destruct Hcase as [[Hc1 _]|[_ ?]]; [|congruence].
    apply IH; try done; try lia; [by apply rgb_of_length|apply Hs].
Qed.

(** C35: encoding is memory safe and complete.  The compressor is fed exactly
    the rows of the image, top to bottom, with the alpha channel dropped, until
    one overflows the destination or the library exits the process (as it does
    when the headers of the first row do not fit).  When all rows are taken and
    the library finishes, the function returns 0, the reported size is the
    number of bytes written and at most [outputSize], and no byte behind
    [outputSize] changes.  When a row overflows, the process exits too:
    [jpeg_finish_compress] is called with rows missing, so the [-ENOSPC] of
    the code is never returned. *)
Theorem encode_correct heap rgba width height quality output outputSize js c0 d0 row0
  (Hheap : AllocOk heap) (Hw : 0 < width) (Hh : 0 < height) (Hz : width * height * 4 < 2 ^ 31)
  (Hin : width * height * 4 <= blen rgba) (Hout : 0 <= outputSize <= blen output) (Ho : outputSize < 2 ^ 32)
  (Hst : jpeg_start_compress fixed_dest (jpeg_setup width height quality)
           (mkDest 0 0 output outputSize false) = Some (c0, d0))
  (Hm : heap (width * 3) = Some row0) :
  let result := encodeRGBA heap rgba width height quality output outputSize js in
  match feed c0 d0 (rgb_of rgba width <$> zrange 0 height 1) with
  | None => result = None
  | Some (c1, d1) =>
      if overflow d1 then result = None
      else next_scanline c1 = height ∧
        match jpeg_finish_compress fixed_dest c1 d1 with
        | None => result = None
        | Some (_, d2) =>
            result = Some (0, next_output_byte d2, dm_buffer d2) ∧
            0 <= next_output_byte d2 <= outputSize ∧ blen (dm_buffer d2) = blen output ∧
            ∀ j, outputSize <= j → ld (dm_buffer d2) j = ld output j
        end
  end.
Proof.
  destruct (lj_start _ (mkDest 0 0 output outputSize false) _ _ Hout Hst) as (Hn0 & Hh0 & Hs0 & Ho0). rewrite lj_height in Hh0.
  assert (blen (rgb_of rgba width <$> zrange 0 height 1) = height) as Hl.
  { unfold blen, zrange. rewrite !length_fmap, length_seqZ. unfold zrange_len. rewrite Z.div_1_r. lia. }
  cbn zeta. unfold encodeRGBA. rewrite Hst. cbn [mbind option_bind].
  do 2 (rewrite ck32_Some by (unfold INT_MIN, INT_MAX; nia); cbn [mbind option_bind]).
  rewrite u32_id by nia. rewrite Hm.
  rewrite (scan_loop_feed rgba width height (Z.to_nat height) 0);
    [|lia|lia|lia|done|nia|done|rewrite (alloc_len _ _ Hm); lia|apply Hs0|done|done|done].
  destruct (feed _ _ _) as [[c1 d1]|] eqn:E; [|done]. cbn [mbind option_bind].
  destruct (feed_spec (rgb_of rgba width <$> zrange 0 height 1) c0 d0 c1 d1) as (Hh1 & Hs1 & Hf & Ht);
    [apply Hs0|done|lia|done|].
  rewrite Hn0, Hl in Hf, Ht. destruct (overflow d1) eqn:Ho1.
  - rewrite lj_finish_early; [done|]. specialize (Ht eq_refl). lia.
  - split; [rewrite Hf by done; lia|]. destruct (jpeg_finish_compress _ _ _) as [[c2 d2]|] eqn:Ef; [|done].
    cbn [mbind option_bind]. destruct (lj_finish c1 d1 c2 d2 (proj1 Hs1) Ef) as [Hs2 Ho2].
    pose proof (dest_step_trans _ _ _ Hs0 (dest_step_trans _ _ _ Hs1 Hs2)) as ((? & ? & Hsum & _) & Hbs & Hbl & Hk).
    simpl in Hbs, Hbl, Hk. rewrite Ho2, Ho1.
    assert (u32 (outputSize - free_in_buffer d2) = next_output_byte d2) as -> by (rewrite u32_id; lia).
    split_and!; [done|lia..|done|done].
Qed.
End Spec.

(** ** A concrete compressor

    It stores the rows as they are between a start and an end marker; the
    first row comes after a header, which must fit, and a row too many is
    ignored. *)

Record raw_cinfo := { rc_height : Z; rc_next : Z }.

(** Write the bytes if they fit, otherwise ask for the buffer to be emptied. *)
Definition raw_emit (ops : dest_ops) (d : jpeg_dest_mgr) (bytes : list Z) : bool * jpeg_dest_mgr :=
  if bool_decide (blen bytes <= free_in_buffer d) then
    match stn (dm_buffer d) (next_output_byte d) bytes with
    | Some b => (true, d <| dm_buffer := b |> <| next_output_byte := next_output_byte d + blen bytes |>
                         <| free_in_buffer := free_in_buffer d - blen bytes |>)
    | None => (false, d)
    end
  else empty_output_buffer ops d.

Definition raw_jpeg : Libjpeg := {|
  cinfo := raw_cinfo;
  jpeg_setup _ h _ := {| rc_height := h; rc_next := 0 |};
  image_height := rc_height;
  next_scanline := rc_next;
  jpeg_start_compress ops c d :=
    let '(ok, d') := raw_emit ops (init_destination ops d) [0xFF; 0xD8] in
    if ok then Some ({| rc_height := rc_height c; rc_next := 0 |}, d') else None;
  jpeg_write_scanlines ops c d row :=
    if rc_height c <=? rc_next c then Some (c, d) else
    let '(ok, d) := if rc_next c =? 0 then raw_emit ops d [0xFF; 0xC0] else (true, d) in
    if negb ok then None else
    let '(ok, d') := raw_emit ops d row in
    Some ({| rc_height := rc_height c; rc_next := rc_next c + (if ok then 1 else 0) |}, d');
  jpeg_finish_compress ops c d :=
    if rc_next c <? rc_height c then None else
    let '(ok, d') := raw_emit ops d [0xFF; 0xD9] in
    if ok then Some (c, term_destination ops d') else None;
|}.

Lemma raw_emit_ok d bytes :
  dest_ok d →
  let '(ok, d') := raw_emit fixed_dest d bytes in
  dest_step d d' ∧ overflow d' = (if ok then overflow d else true).
Proof.
  intros (H1 & H2 & H3 & H4). unfold raw_emit. pose proof (blen_nonneg bytes). case_bool_decide as Hb.
  - destruct (stn_defined (dm_buffer d) (next_output_byte d) bytes) as [b E]; [lia..|]. rewrite E.
    apply stn_spec in E as [El Ek]. split; [|done]. unfold dest_step, dest_ok. simpl.
    split_and!; [lia..|]. intros j Hj. rewrite Ek. by rewrite bool_decide_false by lia.
  - by split.
Qed.

#[export] Instance raw_jpeg_ok : LibjpegOk raw_jpeg.
Proof.
  split; simpl.
  - done.
  - intros c d c' d' Hd. pose proof (raw_emit_ok (dest_init_destination d) [0xFF; 0xD8]) as He.
    destruct (raw_emit _ _ _) as [[] d1]; [|done]. intros [= <- <-]. simpl.
    destruct He as [Hs Ho]; [unfold dest_ok; simpl; lia|]. done.
  - intros c d row c' d' Hd Hn. destruct (Z.leb_spec (rc_height c) (rc_next c)); [lia|].
    assert (∀ d1, dest_ok d1 → (let '(ok, d2) := raw_emit fixed_dest d1 row in
        Some ({| rc_height := rc_height c; rc_next := rc_next c + (if ok then 1 else 0) |}, d2)) = Some (c', d') →
      rc_height c' = rc_height c ∧ dest_step d1 d' ∧
      ((rc_next c' = rc_next c + 1 ∧ overflow d' = overflow d1) ∨ (rc_next c' = rc_next c ∧ overflow d' = true))) as Hrow.
    { intros d1 Hd1. pose proof (raw_emit_ok d1 row Hd1) as He. destruct (raw_emit _ _ _) as [[] d2]; destruct He as [Hs Ho];
        intros [= <- <-]; simpl; (split; [done|]); (split; [done|]); [by left|right; split; [lia|done]]. }
    destruct (rc_next c =? 0); [|by apply Hrow].
    pose proof (raw_emit_ok d [0xFF; 0xC0] Hd) as He. destruct (raw_emit _ _ _) as [[] d1]; [|done]. destruct He as [Hs1 Ho1].
    intros E. apply Hrow in E as (? & Hs2 & Hc); [|apply Hs1]. split; [done|]. split; [by eapply dest_step_trans|]. by rewrite <- Ho1.
  - intros c d Hc. by rewrite (proj2 (Z.ltb_lt _ _)) by done.
  - intros c d c' d' Hd. destruct (rc_next c <? rc_height c); [done|].
    pose proof (raw_emit_ok d [0xFF; 0xD9] Hd) as He. destruct (raw_emit _ _ _) as [[] d1]; [|done].
    by intros [= <- <-].
Qed.

(** A 2 x 1 image into 12 bytes of a 14-byte buffer. *)
Lemma encode_correct_witness :
  @encodeRGBA raw_jpeg zero_heap [1; 2; 3; 255; 4; 5; 6; 255] 2 1 90 (replicate 14 9) 12 0
    = Some (0, 12, [0xFF; 0xD8; 0xFF; 0xC0; 1; 2; 3; 4; 5; 6; 0xFF; 0xD9; 9; 9]).
Proof.
  pose proof (@encode_correct raw_jpeg _ zero_heap [1; 2; 3; 255; 4; 5; 6; 255] 2 1 90 (replicate 14 9) 12 0
    {| rc_height := 1; rc_next := 0 |} (mkDest 2 10 ([0xFF; 0xD8] ++ replicate 12 9) 12 false) (replicate 6 0)
    _ ltac:(lia) ltac:(lia) ltac:(lia) ltac:(vm_compute; discriminate)
    ltac:(split; vm_compute; discriminate) ltac:(lia) ltac:(vm_compute; reflexivity)
    ltac:(vm_compute; reflexivity)) as H.
  cbv zeta in H. destruct (feed _ _ _) as [[c1 d1]|] eqn:E; vm_compute in E; [|discriminate].
  injection E as <- <-. destruct H as [_ H]. simpl in H. destruct H as (H & _). exact H.
Defined.

(** A buffer too small for a row, or for the headers, ends the process. *)
Example encode_overflow_exits :
  @encodeRGBA raw_jpeg zero_heap [1; 2; 3; 255; 4; 5; 6; 255] 2 1 90 (replicate 14 9) 7 0 = None ∧
  @encodeRGBA raw_jpeg zero_heap [1; 2; 3; 255; 4; 5; 6; 255] 2 1 90 (replicate 14 9) 3 0 = None.
Proof. split; vm_compute; reflexivity. Qed.
