(* ===== verification/FenceCleanup.v ===== *)
(** * The fence descriptor cleanup (namespace fence_cleanup of
    camera/MochaCameraHAL.cpp)

    A thread lists /proc/self/fd every 15 seconds; when more than 200 of the
    descriptors are sync fences it closes the excess.  One iteration is a
    function of the two directory listings it reads (other threads may change
    the table in between). *)

From S2P Require Import Prelude Monad Float32 Kernel.
From Stdlib Require Import Ascii.

#[local] Open Scope Z_scope.

(** ** [atoi] *)

Definition digit (c : ascii) : option Z :=
  let n := Z.of_nat (nat_of_ascii c) - 48 in
  if bool_decide (0 <= n <= 9) then Some n else None.

Definition isspace (c : ascii) : bool :=
  let n := nat_of_ascii c in (n =? 32)%nat || ((9 <=? n)%nat && (n <=? 13)%nat).

Fixpoint digits (s : string) (acc : Z) : Z :=
  match s with
  | EmptyString => acc
  | String c s' => match digit c with Some d => digits s' (acc * 10 + d) | None => acc end
  end.

(** [(int)strtol(s, NULL, 10)]: saturating at the bounds of [long]. *)
Fixpoint atoi (s : string) : Z :=
  match s with
  | EmptyString => 0
  | String c s' =>
      if isspace c then atoi s'
      else if bool_decide (c = "-"%char) then Z.max INT_MIN (- digits s' 0)
      else if bool_decide (c = "+"%char) then Z.min INT_MAX (digits s' 0)
      else Z.min INT_MAX (digits s 0)
  end.

Example atoi_1 : atoi "1" = 1. Proof. reflexivity. Qed.
Example atoi_back : atoi "back" = 0. Proof. reflexivity. Qed.
Example atoi_neg : atoi " -12x" = -12. Proof. reflexivity. Qed.

(** ** One iteration *)

(** A directory entry and what [readlink] says of it ([None]: it failed, or
    the link is empty). *)
Record dirent := { d_name : string; d_link : option string }.

Definition fence_prefix : string := "anon_inode:sync_fence".

(** [strncmp(target, "anon_inode:sync_fence", 21) == 0], for an entry that is
    not hidden. *)
Definition is_fence (e : dirent) : bool :=
  match d_name e with
  | String c _ =>
      if bool_decide (c = "."%char) then false else
      match d_link e with Some t => String.prefix fence_prefix t | None => false end
  | EmptyString => match d_link e with Some t => String.prefix fence_prefix t | None => false end
  end.

Definition threshold : Z := 200.

Definition count_fences (dir : list dirent) : Z :=
  foldl (λ n e, if is_fence e then n + 1 else n) 0 dir.

(** The second pass: the descriptors closed, in order. *)
Fixpoint close_excess (dir : list dirent) (toClose closed : Z) : list Z :=
  match dir with
  | [] => []
  | e :: dir' =>
      if negb (closed <? toClose) then [] else
      if is_fence e then atoi (d_name e) :: close_excess dir' toClose (closed + 1)
      else close_excess dir' toClose closed
  end.

(** [None]: the directory cannot be opened. *)
Definition cleanup_iteration (dir1 : option (list dirent)) (dir2 : list dirent) : list Z :=
  match dir1 with
  | None => []
  | Some dir1 =>
      let fenceCount := count_fences dir1 in
      if fenceCount <=? threshold then [] else close_excess dir2 (fenceCount - threshold) 0
  end.

(** ** Correctness *)

Definition fence_fds (dir : list dirent) : list Z :=
  (λ e, atoi (d_name e)) <$> filter (λ e, is_fence e = true) dir.

Lemma count_fences_acc dir n :
  foldl (λ n e, if is_fence e then n + 1 else n) n dir = n + blen (fence_fds dir).
Proof.
  revert n. induction dir as [|e dir IH]; intros n; simpl.
  - change (blen (fence_fds [])) with 0. lia.
  - rewrite IH. unfold fence_fds, blen. rewrite filter_cons. destruct (is_fence e) eqn:E.
    + rewrite decide_True by done. rewrite !length_fmap. simpl. lia.
    + rewrite decide_False by congruence. done.
Qed.

Lemma count_fences_length dir : count_fences dir = blen (fence_fds dir).
Proof. unfold count_fences. rewrite count_fences_acc. lia. Qed.

Lemma close_excess_take dir toClose closed :
  closed <= toClose → close_excess dir toClose closed = take (Z.to_nat (toClose - closed)) (fence_fds dir).
Proof.
  revert closed. induction dir as [|e dir IH]; intros closed Hc; simpl; [by destruct (Z.to_nat _)|].
  destruct (closed <? toClose) eqn:Hlt; simpl; zbool.
  - unfold fence_fds. rewrite filter_cons. destruct (is_fence e) eqn:E.
    + rewrite decide_True by done. rewrite IH by lia.
      replace (Z.to_nat (toClose - closed)) with (S (Z.to_nat (toClose - (closed + 1)))) by lia. done.
    + rewrite decide_False by congruence. by apply IH.
  - replace (toClose - closed) with 0 by lia. done.
Qed.

(** The cleanup closes exactly the excess.  An iteration closes nothing
    while at most 200 descriptors are fences (or the directory cannot be
    read); otherwise it closes the first [n - 200] of the fences the second
    listing shows, [n] being the number the first showed, so nothing that is
    not a fence is closed, at least 200 fences survive an unchanged table, and
    which fences go depends only on the directory order, not on whether a
    capture still uses them. *)
Theorem cleanup_closes_excess dir1 dir2 :
  cleanup_iteration None dir2 = [] ∧
  cleanup_iteration (Some dir1) dir2
    = take (Z.to_nat (blen (fence_fds dir1) - threshold)) (fence_fds dir2) ∧
  blen (fence_fds dir1) - blen (cleanup_iteration (Some dir1) dir1)
    = Z.min (blen (fence_fds dir1)) threshold.
Proof.
  assert (∀ dir2, cleanup_iteration (Some dir1) dir2
    = take (Z.to_nat (blen (fence_fds dir1) - threshold)) (fence_fds dir2)) as Hc.
  { intros dir. unfold cleanup_iteration. rewrite count_fences_length.
    destruct (_ <=? _) eqn:Hle; zbool.
    - by replace (Z.to_nat (blen (fence_fds dir1) - threshold)) with 0%nat by lia.
    - rewrite close_excess_take by lia. by rewrite Z.sub_0_r. }
  split; [done|]. split; [apply Hc|]. rewrite Hc. unfold blen, threshold. rewrite length_take. lia.
Qed.
