(* ===== verification/Hal.v ===== *)
(** * The camera device (camera/MochaCameraHAL.cpp)

    The state of a [mocha_camera_device_t] and the operations of the camera3
    interface on it.  Every operation but [initialize] holds the device's
    [pipelineLock] for its whole body, so an operation is one atomic step; the
    one exception is the flag [closing], which [camera_device_close] sets
    before it waits for the lock: a read of the flag by another operation also
    sees a close that is waiting ([env_closing]).

    Streams are objects of the framework that the HAL reads and updates
    through pointers; they live in a store indexed by their address, and so do
    the memory blocks behind gralloc buffers.  The gralloc module, the
    framework and the contents of fresh memory are parameters ([HalEnv]). *)

From S2P Require Import Prelude Monad Float32 Kernel Demosaic DemosaicSpec ColorConv InFlight Pipeline Isp Capture AutoFocus Metadata HalMetadata HalImage Jpeg.

#[local] Open Scope Z_scope.

(** ** Data *)

Record camera3_stream := mkStream {
  stream_type : Z; s_width : Z; s_height : Z; s_format : Z; max_buffers : Z }.

#[export] Instance camera3_stream_eta : Eta camera3_stream := λ s,
  mkStream (stream_type s) (s_width s) (s_height s) (s_format s) (max_buffers s).

(** A buffer of a request: the stream it belongs to, the gralloc handle behind
    the [buffer] pointer ([None] a null pointer) and the acquire fence. *)
Record camera3_stream_buffer := mkSB { sb_stream : option Z; sb_buffer : option Z; acquire_fence : Z }.

Record camera3_capture_request `{!CameraMetadata} := mkRequest {
  frame_number : Z;
  settings : option md;
  num_output_buffers : Z;
  output_buffers : option (list camera3_stream_buffer) }.

(** [callback_ops]: the framework's callbacks, [Some has_notify]. *)
Record mocha_camera_device_t := mkDev {
  camera_id : Z;
  callback_ops : option bool;
  is_initialized : bool;
  streams_configured : bool;
  pipeline : option CameraPipeline;
  inflight_tracker : option tracker;
  output_stream : option Z;
  pipeline_width : Z;
  pipeline_height : Z;
  last_config_width : Z;
  last_config_height : Z;
  jpeg_encoder : bool;
  temp_rgba : option (list Z);
  temp_rgba_size : Z;
  af_mode : Z;
  af_trigger : Z;
  af_trigger_handled : bool;
  af_auto_scanned : bool;
  blob_stream : option Z;
  closing : bool;
}.

#[export] Instance mocha_camera_device_t_eta : Eta mocha_camera_device_t := λ d, mkDev
  (camera_id d) (callback_ops d) (is_initialized d) (streams_configured d) (pipeline d)
  (inflight_tracker d) (output_stream d) (pipeline_width d) (pipeline_height d)
  (last_config_width d) (last_config_height d) (jpeg_encoder d) (temp_rgba d) (temp_rgba_size d)
  (af_mode d) (af_trigger d) (af_trigger_handled d) (af_auto_scanned d) (blob_stream d) (closing d).

(** What the process shares: the stores, the cached gralloc module, the state
    of the fault guard and the two debug counters that survive a pipeline. *)
Record globals := mkGlob {
  g_streams : gmap Z camera3_stream;
  g_mem : gmap Z (list Z);
  gralloc_cached : bool;
  guard_installed : bool;
  guard_armed : bool;
  caught_total : Z;
  debug_counters : Z * Z;
}.

#[export] Instance globals_eta : Eta globals := λ g, mkGlob
  (g_streams g) (g_mem g) (gralloc_cached g) (guard_installed g) (guard_armed g) (caught_total g)
  (debug_counters g).

Record hal := mkHal { dev : mocha_camera_device_t; glob : globals }.

(** ** The environment *)

Class HalEnv `{!Kernel, !CameraMetadata, !Libjpeg} := {
  env_raw : history → CameraPipeline;             (* fresh storage for a pipeline *)
  env_closing : history → bool;                   (* a close is waiting for the lock *)
  env_hw_get_module : history → Z;                (* loading the gralloc module *)
  env_lock : history → bool → Z → Z → Z → Z → lockres;
  env_after : history → string → list Z;          (* memory behind a metadata argument *)
  env_padding : history → Z * Z;                  (* padding bytes of a struct *)
  env_fopen : history → string → bool;
}.

Definition CAMERA3_BUFFER_STATUS_OK : Z := 0.
Definition CAMERA3_BUFFER_STATUS_ERROR : Z := 1.
Definition CAMERA3_MSG_ERROR_DEVICE : Z := 1.
Definition CAMERA3_JPEG_BLOB_ID : Z := 0xFF.
Definition GRALLOC_USAGE_SW_READ_OFTEN : Z := 0x3.
Definition GRALLOC_USAGE_SW_WRITE_OFTEN : Z := 0x30.
Definition V4L2_PIX_FMT_SRGGB10 : Z := 0x30314752.
Definition V4L2_PIX_FMT_SBGGR10 : Z := 0x30314742.

Section Hal.
Context `{HE : HalEnv}.

Abbreviation HM := (ST (world hal)).

Definition updD (f : mocha_camera_device_t → mocha_camera_device_t) : HM () :=
  upd (λ s, mkHal (f (dev s)) (glob s)).
Definition updG (f : globals → globals) : HM () := upd (λ s, mkHal (dev s) (f (glob s))).
Definition getD : HM mocha_camera_device_t := s ← get; mret (dev s).
Definition getG : HM globals := s ← get; mret (glob s).

(** A method call on [dev->pipeline]; a null pointer is undefined behaviour. *)
Definition on_pipe {A} (m : ST (world CameraPipeline) A) : HM A := λ w,
  match pipeline (dev (obj w)) with
  | None => None
  | Some p =>
      match m (World p (hist w)) with
      | None => None
      | Some (a, w') =>
          Some (a, World (mkHal ((dev (obj w)) <| pipeline := Some (obj w') |>) (glob (obj w))) (hist w'))
      end
  end.

Definition the_stream (r : option Z) : HM camera3_stream :=
  g ← getG; a ← lift r; lift (g_streams g !! a).
Definition set_stream (a : Z) (s : camera3_stream) : HM () :=
  updG (λ g, g <| g_streams := <[a := s]> (g_streams g) |>).

Definition tracker_op (f : tracker → tracker) : HM () :=
  updD (λ d, d <| inflight_tracker := f <$> inflight_tracker d |>).

Definition is_closing : HM bool :=
  d ← getD; b ← gets (λ w, env_closing (hist w)); mret (closing d || b).

(** ** The fault guard around gralloc calls *)

Definition ensure_installed : HM () := updG (λ g, g <| guard_installed := true |>).

(** The signal handler: a fault in a guarded section jumps back to the guard,
    any other is re-raised and ends the process. *)
Definition segv_handler : HM () :=
  g ← getG;
  if guard_armed g then updG (λ g, g <| caught_total := i32 (caught_total g + 1) |>) else ub.

(** [fn] returns [None] when it faulted, otherwise the values of the variables
    it captures; the guard returns its status and those values, which after a
    fault are the old ones [v].  The only faults that are values here are those
    inside a gralloc lock.  An access of the guarded code itself outside its
    buffers is undefined as everywhere: it need not fault, and where it does
    the guard of the source catches it with the work half done. *)
Definition run_guarded {A} (v : A) (fn : HM (option A)) : HM (Z * A) :=
  ensure_installed;;
  updG (λ g, g <| guard_armed := true |>);;
  r ← fn;
  match r with
  | None => segv_handler;; updG (λ g, g <| guard_armed := false |>);; mret (- EFAULT, v)
  | Some v' => updG (λ g, g <| guard_armed := false |>);; mret (0, v')
  end.

Definition gralloc_lock (ycbcr : bool) (handle usage width height : Z) : HM lockres :=
  call (λ h, env_lock h ycbcr handle usage width height) (ELock ycbcr handle usage width height).
Definition gralloc_unlock (handle : Z) : HM () := call (λ _, ()) (λ _, EUnlock handle).

Definition mem_get (a : Z) : HM (list Z) := g ← getG; lift (g_mem g !! a).
Definition mem_set (a : Z) (b : list Z) : HM () := updG (λ g, g <| g_mem := <[a := b]> (g_mem g) |>).

(** Loaded once, then cached. *)
Definition get_gralloc_module : HM bool :=
  g ← getG;
  if gralloc_cached g then mret true else
  r ← call env_hw_get_module EHwModule;
  if r =? 0 then updG (λ g, g <| gralloc_cached := true |>);; mret true else mret false.

(** Copy one gralloc buffer to another of the same format and size. *)
Definition copyFrameBetweenBuffers (grallocModule : bool) (src dst : option camera3_stream_buffer)
  : HM () :=
  match grallocModule, src, dst with
  | true, Some src, Some dst =>
      match sb_buffer src, sb_buffer dst with
      | Some hs, Some hd =>
          ss ← the_stream (sb_stream src); ds ← the_stream (sb_stream dst);
          if negb (s_format ss =? s_format ds) then mret () else
          if negb (s_width ss =? s_width ds) || negb (s_height ss =? s_height ds) then mret () else
          run_guarded ()
            (r ← gralloc_lock false hs GRALLOC_USAGE_SW_READ_OFTEN (s_width ss) (s_height ss);
             match r with
             | LockFault => mret None
             | LockErr _ | LockOk None => mret (Some ())
             | LockOk (Some srcVaddr) =>
                 r ← gralloc_lock false hd GRALLOC_USAGE_SW_WRITE_OFTEN (s_width ds) (s_height ds);
                 match r with
                 | LockFault => mret None
                 | LockErr _ | LockOk None => gralloc_unlock hs;; mret (Some ())
                 | LockOk (Some dstVaddr) =>
                     let size := u32 (s_width ds * s_height ds * 4) in
                     sm ← mem_get srcVaddr; dm ← mem_get dstVaddr;
                     v ← lift (ldn sm 0 size); dm ← lift (stn dm 0 v);
                     mem_set dstVaddr dm;;
                     gralloc_unlock hd;; gralloc_unlock hs;; mret (Some ())
                 end
             end);;
          mret ()
      | _, _ => mret ()
      end
  | _, _, _ => mret ()
  end.

(** ** Opening and closing the device *)

(** The device [camera_device_init] makes. *)
Definition camera_device_init : mocha_camera_device_t := {|
  camera_id := 0; callback_ops := None; is_initialized := false; streams_configured := false;
  pipeline := None; inflight_tracker := Some ∅; output_stream := None;
  pipeline_width := 0; pipeline_height := 0; last_config_width := 0; last_config_height := 0;
  jpeg_encoder := false; temp_rgba := None; temp_rgba_size := 0;
  af_mode := ANDROID_CONTROL_AF_MODE_CONTINUOUS_PICTURE;
  af_trigger := ANDROID_CONTROL_AF_TRIGGER_IDLE;
  af_trigger_handled := false; af_auto_scanned := false; blob_stream := None; closing := false |}.

(** [delete pipeline]: the destructor closes the pipeline; the debug counters
    are statics of its methods and survive it. *)
Definition delete_pipeline : HM () :=
  on_pipe close;;
  d ← getD;
  p ← lift (pipeline d);
  updG (λ g, g <| debug_counters := (rawDebugCount p, dbgCount p) |>);;
  updD (λ d, d <| pipeline := None |>).

Definition new_pipeline : HM () :=
  raw ← gets (λ w, env_raw (hist w));
  g ← getG;
  let raw := raw <| rawDebugCount := (debug_counters g).1 |> <| dbgCount := (debug_counters g).2 |> in
  updD (λ d, d <| pipeline := Some (CameraPipeline_new raw) |>).

Definition camera_device_close : HM Z :=
  updD (λ d, d <| closing := true |>);;
  updD (λ d, d <| jpeg_encoder := false |>);;
  updD (λ d, match temp_rgba d with
             | Some _ => d <| temp_rgba := None |> <| temp_rgba_size := 0 |> | None => d end);;
  tracker_op markAllAsError;;
  updD (λ d, d <| inflight_tracker := None |>);;
  d ← getD;
  match pipeline d with
  | Some _ => on_pipe close;; delete_pipeline
  | None => mret ()
  end;;
  mret 0.

Definition camera_device_initialize (ops : option bool) : HM Z :=
  match ops with
  | None => mret (- EINVAL)
  | Some _ => updD (λ d, d <| callback_ops := ops |> <| is_initialized := true |>);; mret 0
  end.

(** ** configure_streams *)

(** The local variables of the selection loop. *)
Record selection := mkSel {
  pipelineStream : option Z; outputStream : option Z; rgbaStream : option Z; blobStream : option Z }.

#[export] Instance selection_eta : Eta selection := λ l,
  mkSel (pipelineStream l) (outputStream l) (rgbaStream l) (blobStream l).

Definition is_none {A} (o : option A) : bool := match o with None => true | Some _ => false end.

(** What one stream does to the selection. *)
Definition select_stream (a : Z) (s : camera3_stream) (l : selection) : selection :=
  let l := l <| outputStream := Some a |> in
  let l := if s_format s =? HAL_PIXEL_FORMAT_BLOB then l <| blobStream := Some a |> else l in
  if is_none (pipelineStream l) && negb (s_format s =? HAL_PIXEL_FORMAT_BLOB) then
    if s_format s =? HAL_PIXEL_FORMAT_RGBA_8888 then
      l <| pipelineStream := Some a |> <| rgbaStream := Some a |>
    else if is_none (rgbaStream l) && (s_format s =? HAL_PIXEL_FORMAT_IMPLEMENTATION_DEFINED) then
      l <| rgbaStream := Some a |>
    else if is_none (pipelineStream l) then l <| pipelineStream := Some a |>
    else l
  else l.

(** The loop over the streams; [None] when one has no extent. *)
Fixpoint select_streams (streams : list Z) (l : selection) : HM (option selection) :=
  match streams with
  | [] => mret (Some l)
  | a :: streams' =>
      s ← the_stream (Some a);
      if (s_width s =? 0) || (s_height s =? 0) then mret None else
      if stream_type s =? CAMERA3_STREAM_OUTPUT then
        set_stream a (s <| max_buffers := 2 |>);; select_streams streams' (select_stream a s l)
      else select_streams streams' l
  end.


Definition hal_config (id width height : Z) : PipelineConfig := {|
  cfg_width := width; cfg_height := height;
  cfg_pixelFormat := if id =? 0 then V4L2_PIX_FMT_SRGGB10 else V4L2_PIX_FMT_SBGGR10;
  cfg_bayerPattern := if id =? 0 then 0 else 3; cfg_offset_x := 0; cfg_offset_y := 0;
  cfg_flipV := false; cfg_enableISP := true;
  cfg_blackLevel := if id =? 0 then 16 else 3; cfg_whiteLevel := 255;
  cfg_wbGain := [f_of_Z 1; f_of_Z 1; f_of_Z 1; f_of_Z 1];
  cfg_ccm := [f_of_Z 1; f_of_Z 0; f_of_Z 0; f_of_Z 0; f_of_Z 1; f_of_Z 0; f_of_Z 0; f_of_Z 0; f_of_Z 1];
  cfg_gamma := f_lit 4545 10000; cfg_enableAE := true; cfg_enableAWB := true;
  cfg_targetLuma := f_lit 42 100; cfg_digitalGain := f_of_Z 1 |}.

(** Complete what is still in flight, with neither metadata nor buffers. *)
Definition drain_inflight : HM () :=
  d ← getD;
  match inflight_tracker d with
  | Some t =>
      if (0 <? count t)%nat then
        tracker_op (λ t, (drainAll t).2);;
        forM (drainAll t).1 (λ f,
          match callback_ops d with
          | None => ub
          | Some _ => call (λ _, ()) (λ _, EResult f None [] 0)
          end)
      else mret ()
  | None => mret ()
  end.

(** IMPLEMENTATION_DEFINED output streams become RGBA_8888. *)
Definition override_formats (streams : list Z) : HM () :=
  forM streams (λ a,
    s ← the_stream (Some a);
    when ((stream_type s =? CAMERA3_STREAM_OUTPUT) &&
          (s_format s =? HAL_PIXEL_FORMAT_IMPLEMENTATION_DEFINED))
      (set_stream a (s <| s_format := HAL_PIXEL_FORMAT_RGBA_8888 |>))).

(** [if (rgbaStream) pipelineStream = rgbaStream] *)
Definition chosen (l : selection) : option Z :=
  match rgbaStream l with Some a => Some a | None => pipelineStream l end.

(** Open, configure and start a new pipeline.  The source keeps it in a local
    variable until it streams; [dev->pipeline] is null meanwhile and after a
    failure. *)
Definition start_pipeline (streams : list Z) (width height : Z) : HM Z :=
  d ← getD;
  new_pipeline;;
  ret ← on_pipe (open (camera_id d));
  if negb (ret =? 0) then delete_pipeline;; mret (- ENODEV) else
  override_formats streams;;
  ret ← on_pipe (configure (hal_config (camera_id d) width height));
  if negb (ret =? 0) then on_pipe close;; delete_pipeline;; mret ret else
  ret ← on_pipe startStreaming;
  if negb (ret =? 0) then on_pipe close;; delete_pipeline;; mret ret else mret 0.

Definition is_streaming (d : mocha_camera_device_t) : bool :=
  match pipeline d with Some p => bool_decide (mState p = PIPELINE_STREAMING) | None => false end.

Definition camera_device_configure_streams (config : option (list Z)) : HM Z :=
  match config with
  | None => mret (- EINVAL)
  | Some streams =>
      if (blen streams =? 0) || (blen streams >? 20) then mret (- EINVAL) else
      sel ← select_streams streams (mkSel None None None None);
      match sel with
      | None => mret (- EINVAL)
      | Some l =>
          updD (λ d, d <| blob_stream := blobStream l |>);;
          d ← getD;
          s ← the_stream (chosen l);
          if (last_config_width d =? s_width s) && (last_config_height d =? s_height s) &&
             streams_configured d && is_streaming d
          then mret 0 else
          drain_inflight;;
          (d ← getD; match pipeline d with Some _ => on_pipe close;; delete_pipeline | None => mret () end);;
          ret ← start_pipeline streams (s_width s) (s_height s);
          if negb (ret =? 0) then mret ret else
          updD (λ d, d <| output_stream := outputStream l |>
                       <| pipeline_width := s_width s |> <| pipeline_height := s_height s |>
                       <| last_config_width := s_width s |> <| last_config_height := s_height s |>
                       <| af_trigger_handled := false |> <| af_auto_scanned := false |>
                       <| af_trigger := ANDROID_CONTROL_AF_TRIGGER_IDLE |>
                       <| streams_configured := true |>);;
          mret 0
      end
  end.

(** ** process_capture_request *)

(** The first byte of a metadata entry that has at least one element. *)
Definition first_byte (settings : md) (tag : string) : option Z :=
  b ← find_camera_metadata_entry settings tag; head b.

Definition request_bufs (rq : camera3_capture_request) : option (list camera3_stream_buffer) :=
  bs ← output_buffers rq; ldn bs 0 (num_output_buffers rq).

Fixpoint wants_blob (bufs : list camera3_stream_buffer) : HM bool :=
  match bufs with
  | [] => mret false
  | b :: bufs' =>
      r ← wants_blob bufs';
      match sb_stream b with
      | Some a => s ← the_stream (Some a); mret ((s_format s =? HAL_PIXEL_FORMAT_BLOB) || r)
      | None => mret r
      end
  end.

(** The autofocus mode and trigger of the request, and the scans they start. *)
Definition handle_af_settings (rq : camera3_capture_request) : HM () :=
  match settings rq with
  | None => mret ()
  | Some m =>
      updD (λ d, match first_byte m "ANDROID_CONTROL_AF_MODE" with
                 | Some v => d <| af_mode := v |> | None => d end);;
      updD (λ d, match first_byte m "ANDROID_CONTROL_AF_TRIGGER" with
                 | Some v => d <| af_trigger := v |> | None => d end)
  end.

Definition handle_af_scan (rq : camera3_capture_request) : HM () :=
  d ← getD;
  if is_none (pipeline d) then mret () else
  if negb ((af_mode d =? ANDROID_CONTROL_AF_MODE_AUTO) ||
           (af_mode d =? ANDROID_CONTROL_AF_MODE_CONTINUOUS_PICTURE)) then mret () else
  (if (af_trigger d =? ANDROID_CONTROL_AF_TRIGGER_START) && negb (af_trigger_handled d) then
     updD (λ d, d <| af_auto_scanned := true |>);;
     on_pipe startAfScan;;
     updD (λ d, d <| af_trigger_handled := true |>)
   else if af_trigger d =? ANDROID_CONTROL_AF_TRIGGER_CANCEL then
     on_pipe cancelAf;;
     updD (λ d, d <| af_trigger_handled := false |> <| af_auto_scanned := false |>)
   else if negb (af_auto_scanned d) then
     updD (λ d, d <| af_auto_scanned := true |>);;
     on_pipe startAfScan
   else mret ());;
  bufs ← lift (request_bufs rq);
  wantsBlob ← wants_blob bufs;
  if (wantsBlob : bool) then
    age ← on_pipe afAgeMs;
    if age >? 3000 then on_pipe afAgeMs;; on_pipe startAfScan else mret ()
  else mret ().

(** [dev->temp_rgba] holds at least one frame of the pipeline, or is null. *)
Definition ensure_temp_rgba : HM () :=
  d ← getD;
  let rgbaSize := u32 (pipeline_width d * pipeline_height d * 4) in
  if is_none (temp_rgba d) || (temp_rgba_size d <? rgbaSize) then
    h ← gets hist;
    updD (λ d, d <| temp_rgba := k_alloc h rgbaSize |> <| temp_rgba_size := rgbaSize |>)
  else mret ().

(** [camera3_jpeg_blob_t]: a 16-bit id, two bytes of padding, a 32-bit size. *)
Definition jpeg_blob (pad : Z * Z) (jpegSize : Z) : list Z :=
  le_bytes 2 CAMERA3_JPEG_BLOB_ID ++ [pad.1; pad.2] ++ le_bytes 4 jpegSize.

(** The bytes the log prints: the first eight and the last three. *)
Definition log_jpeg (jp : list Z) (jpegSize : Z) : option () :=
  foldM (λ _ i, ld jp i;; Some ()) ([0; 1; 2; 3; 4; 5; 6; 7] ++ [jpegSize - 3; jpegSize - 2; jpegSize - 1]) ().

(** Encode the frame into the locked BLOB buffer and append the footer. *)
Definition encode_blob (handle blobW blobH : Z) (src : list Z) (w h : Z) (frameCaptured : bool)
  : HM bool :=
  '(_, c) ← run_guarded frameCaptured
    (r ← gralloc_lock false handle GRALLOC_USAGE_SW_WRITE_OFTEN blobW blobH;
     match r with
     | LockFault => mret None
     | LockErr _ | LockOk None => mret (Some frameCaptured)
     | LockOk (Some vaddr) =>
         updD (λ d, d <| jpeg_encoder := true |>);;
         let blobSize := u32 (blobW * blobH * 2) in
         m ← mem_get vaddr;
         hs ← gets hist;
         '(ret, jpegSize, m) ← lift (encodeRGBA (k_alloc hs) src w h 90 m blobSize 0);
         mem_set vaddr m;;
         c ← (if (ret =? 0) && (jpegSize >? 0) then
                pad ← gets (λ w, env_padding (hist w));
                m ← lift (stn m (blobSize - 8) (jpeg_blob pad jpegSize));
                mem_set vaddr m;;
                lift (log_jpeg m jpegSize);;
                mret true
              else mret frameCaptured);
         gralloc_unlock handle;;
         mret (Some c)
     end);
  mret c.

(** A BLOB output: the early return value, and [frameCaptured]. *)
Definition capture_blob (handle : Z) (s : camera3_stream) (frameCaptured : bool)
  : HM (option Z * bool) :=
  ensure_temp_rgba;;
  d ← getD;
  match temp_rgba d with
  | None => mret (None, frameCaptured)
  | Some t =>
      '(captureRet, t') ← on_pipe (captureFrame (Some t) HAL_PIXEL_FORMAT_RGBA_8888);
      updD (λ d, d <| temp_rgba := t' |>);;
      if captureRet =? 0 then
        let src := default [] t' in
        let w := pipeline_width d in let h := pipeline_height d in
        if negb (s_width s =? w) || negb (s_height s =? h) then
          hs ← gets hist;
          up ← lift (upscaleRGBA (k_alloc hs) src (i32 w) (i32 h) (i32 (s_width s)) (i32 (s_height s)));
          c ← (match up with
               | Some (img, _) =>
                   encode_blob handle (s_width s) (s_height s) img (i32 (s_width s)) (i32 (s_height s)) frameCaptured
               | None => encode_blob handle (s_width s) (s_height s) src (i32 w) (i32 h) frameCaptured
               end);
          mret (None, c)
        else
          c ← encode_blob handle (s_width s) (s_height s) src (i32 w) (i32 h) frameCaptured;
          mret (None, c)
      else if captureRet =? - EAGAIN then mret (Some (- EAGAIN), frameCaptured)
      else mret (None, frameCaptured)
  end.

(** A YCbCr or RGBA output: the frame goes straight into the locked buffer. *)
Definition capture_direct (ycbcr : bool) (handle : Z) (s : camera3_stream) (frameCaptured : bool)
  : HM (option Z * bool) :=
  '(_, (captureRet, c)) ← run_guarded (0, frameCaptured)
    (r ← gralloc_lock ycbcr handle GRALLOC_USAGE_SW_WRITE_OFTEN (s_width s) (s_height s);
     match r with
     | LockFault => mret None
     | LockErr _ | LockOk None => mret (Some (0, frameCaptured))
     | LockOk (Some vaddr) =>
         m ← mem_get vaddr;
         '(ret, m') ← on_pipe (captureFrame (Some m) (s_format s));
         mem_set vaddr (default m m');;
         gralloc_unlock handle;;
         mret (Some (ret, if ret =? 0 then true else frameCaptured))
     end);
  mret (if captureRet =? - EAGAIN then Some (- EAGAIN) else None, c).

(** One output buffer; the locals [frameCaptured] and [hasBlobOutput]. *)
Definition capture_output (b : camera3_stream_buffer) (l : bool * bool) : HM (option Z * (bool * bool)) :=
  match sb_buffer b with
  | None => mret (None, l)
  | Some handle =>
      when (acquire_fence b >=? 0) (call (λ _, ()) (λ _, EFenceClose (acquire_fence b)));;
      s ← the_stream (sb_stream b);
      if s_format s =? HAL_PIXEL_FORMAT_BLOB then
        '(e, c) ← capture_blob handle s l.1; mret (e, (c, true))
      else
        '(e, c) ← capture_direct (s_format s =? HAL_PIXEL_FORMAT_YCBCR_420_888) handle s l.1;
        mret (e, (c, l.2))
  end.

Fixpoint capture_outputs (bufs : list camera3_stream_buffer) (l : bool * bool)
  : HM (option Z * (bool * bool)) :=
  match bufs with
  | [] => mret (None, l)
  | b :: bufs' =>
      '(e, l) ← capture_output b l;
      match e with Some r => mret (Some r, l) | None => capture_outputs bufs' l end
  end.

(** Restart a pipeline that [flush] stopped, and fill the outputs. *)
Definition capture_request_outputs (rq : camera3_capture_request) : HM (option Z * (bool * bool)) :=
  d ← getD;
  if is_none (pipeline d) || negb (streams_configured d) then mret (None, (false, false)) else
  st ← on_pipe getState;
  restartRet ← (if bool_decide (st = PIPELINE_OPENED) then on_pipe startStreaming else mret 0);
  if negb (restartRet =? 0) then mret (Some (- ENODEV), (false, false)) else
  ok ← get_gralloc_module;
  if (ok : bool) then bufs ← lift (request_bufs rq); capture_outputs bufs (false, false)
  else mret (None, (false, false)).

Definition capture_path : string := "/data/local/tmp/mocha_capture.jpg".

(** A still capture without a BLOB buffer: encode one frame into a temporary
    buffer and write it to a file. *)
Definition proactive_jpeg (rq : camera3_capture_request) (hasBlobOutput frameCaptured : bool) : HM bool :=
  d ← getD;
  match blob_stream d, settings rq, pipeline d with
  | Some bs, Some m, Some _ =>
      if hasBlobOutput ||
         negb (bool_decide (first_byte m "ANDROID_CONTROL_CAPTURE_INTENT"
                            = Some ANDROID_CONTROL_CAPTURE_INTENT_STILL_CAPTURE))
      then mret frameCaptured else
      ensure_temp_rgba;;
      d ← getD;
      match temp_rgba d with
      | None => mret frameCaptured
      | Some t =>
          '(capRet, t') ← on_pipe (captureFrame (Some t) HAL_PIXEL_FORMAT_RGBA_8888);
          updD (λ d, d <| temp_rgba := t' |>);;
          if negb (capRet =? 0) then mret frameCaptured else
          updD (λ d, d <| jpeg_encoder := true |>);;
          s ← the_stream (Some bs);
          let blobSize := u32 (s_width s * s_height s * 2) in
          hs ← gets hist;
          match k_alloc hs blobSize with
          | None => mret frameCaptured
          | Some blobBuf =>
              '(encRet, jpegSize, blobBuf) ←
                lift (encodeRGBA (k_alloc hs) (default [] t') (i32 (pipeline_width d))
                        (i32 (pipeline_height d)) 90 blobBuf blobSize 0);
              if (encRet =? 0) && (jpegSize >? 0) then
                pad ← gets (λ w, env_padding (hist w));
                blobBuf ← lift (stn blobBuf jpegSize (jpeg_blob pad jpegSize));
                ok ← gets (λ w, env_fopen (hist w) capture_path);
                jpeg ← lift (ldn blobBuf 0 jpegSize);
                call (λ _, ()) (λ _, EFile capture_path (if (ok : bool) then Some jpeg else None));;
                mret true
              else mret frameCaptured
          end
      end
  | _, _, _ => mret frameCaptured
  end.

Definition kMaxOutputBuffers : Z := 16.

(** [long elapsed_ms], on the 32-bit target. *)
Definition elapsed_ms (ts_start ts_end : Z * Z) : option Z :=
  s ← ck32 (ts_end.1 - ts_start.1); ms ← ck32 (s * 1000);
  n ← ck32 (ts_end.2 - ts_start.2); ck32 (ms + Z.quot n 1000000).

Definition ts_of (ts : Z * Z) : option Z := s ← ck64 (ts.1 * 1000000000); ck64 (s + ts.2).

(** The values of the result's metadata: those of the pipeline. *)
Definition result_metadata (frameNum timestamp : Z) : HM (option md) :=
  d ← getD;
  '(sensitivity, afState, focusPos, exposureNs, frameDurNs) ←
    (match pipeline d with
     | Some _ =>
         g ← on_pipe getGain;
         p ← on_pipe get;
         e ← lift (getExposureNs p);
         mret (g, mAfState p, mFocusPosition p, e, mFramePeriodNs p)
     | None => mret (128, 0, 0, 39682540, 0)
     end);
  h ← gets hist;
  lift (build_result_metadata (env_after h) h frameNum timestamp exposureNs sensitivity afState
          focusPos frameDurNs (af_mode d)).

(** The shutter and error messages and the capture result. *)
Definition notify (ev : event) : HM () :=
  d ← getD;
  match callback_ops d with Some true => call (λ _, ()) (λ _, ev) | _ => mret () end.

Definition complete_request (rq : camera3_capture_request) (ts_start : Z * Z) (frameCaptured : bool) : HM Z :=
  let frameNum := frame_number rq in
  ts_end ← sys_clock;
  lift (elapsed_ms ts_start ts_end);;
  d ← getD;
  let frameFlushed := match inflight_tracker d with Some t => isError frameNum t | None => false end in
  tracker_op (λ t, (remove frameNum t).2);;
  timestamp ← (if frameCaptured then lift (ts_of ts_end) else mret 0);
  when frameCaptured (notify (ENotifyShutter frameNum timestamp));;
  let n := if num_output_buffers rq >? kMaxOutputBuffers then kMaxOutputBuffers else num_output_buffers rq in
  let status := if frameCaptured && negb frameFlushed
                then CAMERA3_BUFFER_STATUS_OK else CAMERA3_BUFFER_STATUS_ERROR in
  when (negb frameFlushed && negb frameCaptured) (notify (ENotifyError frameNum CAMERA3_MSG_ERROR_DEVICE));;
  resultMetadata ← (if frameCaptured && negb frameFlushed
                    then result_metadata frameNum timestamp else mret None);
  match callback_ops d with
  | None => ub
  | Some _ =>
      call (λ _, ()) (λ _, EResult frameNum (md_entries <$> resultMetadata)
                             (replicate (Z.to_nat n) status) 1);;
      mret 0
  end.

Definition camera_device_process_capture_request (request : option camera3_capture_request) : HM Z :=
  match request with
  | None => mret (- EINVAL)
  | Some rq =>
      ts_start ← sys_clock;
      c ← is_closing;
      if (c : bool) then mret (- ENOSYS) else
      d ← getD;
      if negb (is_initialized d) || is_none (callback_ops d) then mret (- ENOSYS) else
      if (num_output_buffers rq <? 1) || is_none (output_buffers rq) then mret (- EINVAL) else
      let frameNum := frame_number rq in
      if match inflight_tracker d with Some t => isError frameNum t | None => false end
      then tracker_op (λ t, (remove frameNum t).2);; mret (- EAGAIN) else
      bufs ← lift (request_bufs rq);
      b0 ← lift (head bufs);
      tracker_op (add frameNum (default 0 (sb_buffer b0)));;
      handle_af_settings rq;;
      handle_af_scan rq;;
      c ← is_closing;
      if (c : bool) then tracker_op (λ t, (remove frameNum t).2);; mret (- ENOSYS) else
      '(early, (frameCaptured, hasBlobOutput)) ← capture_request_outputs rq;
      match early with
      | Some r => tracker_op (λ t, (remove frameNum t).2);; mret r
      | None =>
          frameCaptured ← proactive_jpeg rq hasBlobOutput frameCaptured;
          complete_request rq ts_start frameCaptured
      end
  end.

(** ** flush and dump *)

Definition camera_device_flush : HM Z :=
  d ← getD;
  (if negb (is_none (pipeline d)) && streams_configured d then on_pipe stopStreaming;; mret () else mret ());;
  tracker_op (λ t, (drainAll (markAllAsError t)).2);;
  mret 0.

(** What the dump prints. *)
Definition camera_device_dump : HM (Z * bool * bool) :=
  d ← getD; mret (camera_id d, is_initialized d, streams_configured d).
End Hal.
