(* ===== verification/HalModule.v ===== *)
(** * The camera module (camera/MochaCameraHAL.cpp)

    The entry points of [HAL_MODULE_INFO_SYM]: the number and description of
    the cameras, opening a device by name, the torch.  A process holds the
    devices that are open, each under its address. *)

From S2P Require Import Prelude Monad Float32 Kernel Demosaic DemosaicSpec ColorConv InFlight Pipeline Isp Capture AutoFocus Metadata HalMetadata HalImage Jpeg FenceCleanup Hal.

#[local] Open Scope Z_scope.

Record process `{!CameraMetadata} := mkProcess {
  devs : gmap Z mocha_camera_device_t;
  p_glob : globals;
  gStarted : bool;                          (* the cleanup thread runs *)
  gCameraCharacteristics : list (option md);
  gModuleCallbacks : option Z;
}.

#[export] Instance process_eta `{!CameraMetadata} : Eta process := λ s,
  mkProcess _ (devs s) (p_glob s) (gStarted s) (gCameraCharacteristics s) (gModuleCallbacks s).

Definition CAMERA_DEVICE_API_VERSION_3_2 : Z := 0x302.

Record camera_info `{!CameraMetadata} := {
  ci_facing : Z; ci_orientation : Z; ci_device_version : Z;
  ci_static_camera_characteristics : option md; ci_resource_cost : Z;
  ci_conflicting_devices_length : Z }.

Section Module.
Context `{HE : HalEnv}.

Abbreviation GM := (ST (world process)).

(** [fence_cleanup::start]: at most one thread. *)
Definition fence_cleanup_start : GM () := upd (λ s, s <| gStarted := true |>).

(** A device operation, called with a device pointer ([None] a null pointer;
    an address that is no open device is undefined behaviour).  Deleting the
    device is the last step of [close]. *)
Definition on_device (device : option Z) (m : ST (world hal) Z) : GM Z := λ w,
  match device with
  | None => Some (- EINVAL, w)
  | Some a =>
      match devs (obj w) !! a with
      | None => None
      | Some d =>
          match m (World (mkHal d (p_glob (obj w))) (hist w)) with
          | None => None
          | Some (r, w') =>
              Some (r, World ((obj w) <| devs := <[a := dev (obj w')]> (devs (obj w)) |>
                                      <| p_glob := glob (obj w') |>) (hist w'))
          end
      end
  end.

Definition device_close (device : option Z) : GM Z :=
  r ← on_device device camera_device_close;
  match device with
  | None => mret r
  | Some a => upd (λ s, s <| devs := delete a (devs s) |>);; mret r
  end.

(** The return value and [*device]. *)
Definition openCamera (cameraId : Z) : GM (Z * option Z) :=
  if (cameraId <? 0) || (cameraId >=? kNumCameras) then mret (- EINVAL, None) else
  fence_cleanup_start;;
  s ← get;
  let a := fresh (dom (devs s)) in
  upd (λ s, s <| devs := <[a := camera_device_init <| camera_id := cameraId |> ]> (devs s) |>);;
  mret (0, Some a).

Definition module_open (name : option string) : GM (Z * option Z) :=
  match name with None => mret (- EINVAL, None) | Some n => openCamera (atoi n) end.

Definition open_legacy (id : option string) (halVersion : Z) : GM (Z * option Z) :=
  match id with
  | None => mret (- EINVAL, None)
  | Some n => if halVersion >=? 0x30000 then openCamera (atoi n) else mret (- ENOSYS, None)
  end.

Definition set_torch_mode (camera_id : string) (enabled : bool) : GM Z :=
  let cameraId := atoi camera_id in
  if (cameraId <? 0) || (cameraId >=? kNumCameras) then mret (- EINVAL)
  else if negb (cameraId =? 0) then mret (- ENOSYS) else mret 0.

Definition set_callbacks (callbacks : option Z) : GM Z :=
  match callbacks with
  | Some c => upd (λ s, s <| gModuleCallbacks := Some c |>);; mret 0
  | None => mret 0
  end.

Definition getNumberOfCameras : Z := kNumCameras.

Definition getCameraInfo (cameraId : Z) : GM (Z * option camera_info) :=
  if (cameraId <? 0) || (cameraId >=? kNumCameras) then mret (- EINVAL, None) else
  cam ← lift (ld kCameras cameraId);
  s ← get;
  h ← gets hist;
  '(chars, cache) ← lift (init_static_characteristics (env_after h) h (gCameraCharacteristics s) cameraId);
  upd (λ s, s <| gCameraCharacteristics := cache |>);;
  mret (0, Some {| ci_facing := facing cam; ci_orientation := orientation cam;
                   ci_device_version := CAMERA_DEVICE_API_VERSION_3_2;
                   ci_static_camera_characteristics := chars; ci_resource_cost := 100;
                   ci_conflicting_devices_length := 0 |}).

(** ** What opening does *)

(** The request is for a camera 3 device of an existing camera. *)
Definition open_ok (name : option string) : bool :=
  match name with Some n => (0 <=? atoi n) && (atoi n <? kNumCameras) | None => false end.

(** Opening a device.  Both entry points accept exactly the names of the
    two cameras, [open_legacy] moreover only for version 3 devices and above;
    a success hands out a new address whose device is the initial one with
    the camera's number, the cleanup thread runs, and every device that was
    open stays as it was; a failure changes nothing. *)
Theorem open_device name ver w :
  let ok := open_ok name && (ver >=? 0x30000) in
  ∃ r out w', open_legacy name ver w = Some ((r, out), w') ∧
    (ver >= 0x30000 → module_open name w = Some ((r, out), w')) ∧ hist w' = hist w ∧
    if ok then
      ∃ a n, name = Some n ∧ r = 0 ∧ out = Some a ∧ devs (obj w) !! a = None ∧ gStarted (obj w') = true ∧
        devs (obj w') = <[a := camera_device_init <| camera_id := atoi n |> ]> (devs (obj w)) ∧
        p_glob (obj w') = p_glob (obj w)
    else out = None ∧ w' = w ∧ r < 0.
Proof.
  unfold open_legacy, module_open, open_ok, openCamera. change kNumCameras with 2.
  destruct w as [s h]. destruct name as [n|]; cbn zeta.
  2:{ eexists _, _, _. split; [reflexivity|]. done. }
  destruct (ver >=? 196608) eqn:Hv; zbool.
  2:{ rewrite andb_false_r. eexists _, _, _. split; [reflexivity|]. split; [lia|done]. }
  rewrite andb_true_r.
  assert ((atoi n <? 0) || (atoi n >=? 2) = negb ((0 <=? atoi n) && (atoi n <? 2))) as ->.
  { destruct (atoi n <? 0) eqn:E1, (atoi n >=? 2) eqn:E2, (0 <=? atoi n) eqn:E3, (atoi n <? 2) eqn:E4;
      zbool; try done; lia. }
  destruct ((0 <=? atoi n) && (atoi n <? 2)) eqn:Hn; cbn [negb].
  - eexists _, _, _. split; [reflexivity|]. split; [done|]. split; [done|].
    exists (fresh (dom (devs s))), n. split_and!; try done.
    apply not_elem_of_dom, is_fresh.
  - eexists _, _, _. split; [reflexivity|]. done.
Qed.
End Module.
