(* ===== verification/HalInv.v ===== *)
(** * Operations of the device that keep its invariant

    The parts of a capture request neither complete a request nor acquire or
    release a resource, and they leave the fields of the device alone that
    decide about completion.  The rules are those of [Keeps] with an invariant
    of the whole world in addition. *)

From S2P Require Import Prelude Monad Float32 Kernel Demosaic DemosaicSpec ColorConv InFlight Pipeline Isp Capture AutoFocus PipelineInv Metadata HalMetadata HalImage Jpeg Hal.

#[local] Open Scope Z_scope.

(** Every descriptor and mapping ever acquired has been released. *)
Definition balanced (h : history) : Prop :=
  (∀ a l, map_balance a l h = 0) ∧ (∀ fd, 0 <= fd → fd_balance fd h = 0).

Definition pipe_ok (w : world hal) : Prop :=
  match pipeline (dev (obj w)) with
  | Some p => pipe_inv (World p (hist w)) ∧ mState p ≠ PIPELINE_CLOSED
  | None => balanced (hist w)
  end.

(** The invariant between two operations on an open device: its pipeline, if
    it has one, is open and satisfies the pipeline's invariant, without one
    nothing is held, and no request is in flight. *)
Definition hal_inv (w : world hal) : Prop :=
  pipe_ok w ∧ inflight_tracker (dev (obj w)) = Some ∅.

(** Invariants that only depend on the pipeline and survive neutral events. *)
Class Stable (I : world hal → Prop) : Prop := {
  stable_call s h e : neutral e → I (World s h) → I (World s (e :: h));
  stable_upd s s' h : pipeline (dev s') = pipeline (dev s) → I (World s h) → I (World s' h);
}.

Lemma pipe_inv_events p h evs : Forall neutral evs → pipe_inv (World p h) → pipe_inv (World p (evs ++ h)).
Proof. intros Hn. apply evolves_inv. split; [done|]. by exists evs. Qed.

#[export] Instance pipe_ok_stable : Stable pipe_ok.
Proof.
  split; unfold pipe_ok; simpl.
  - intros s h e He. destruct (pipeline (dev s)) as [p|].
    + intros [Hp ?]. split; [|done]. apply (pipe_inv_events p h [e]); [by repeat constructor|done].
    + intros [Hm Hf]. split.
      * intros a l. destruct (balance_neutral [e] h a l 0) as [E _]; [by repeat constructor|].
        simpl in E |- *. rewrite E. apply Hm.
      * intros fd ?. destruct (balance_neutral [e] h 0 0 fd) as [_ E]; [by repeat constructor|].
        simpl in E |- *. rewrite E. by apply Hf.
  - intros s s' h ->. done.
Qed.

Section HKeeps.
Context `{HE : HalEnv} (I : world hal → Prop) `{!Stable I} {T : Type} (V : hal → T).

Abbreviation HM := (ST (world hal)).

Definition hsteps (w w' : world hal) : Prop :=
  I w' ∧ V (obj w') = V (obj w) ∧ ∃ evs, hist w' = evs ++ hist w ∧ Forall neutral evs.

Lemma hsteps_refl w : I w → hsteps w w.
Proof. intros. split; [done|]. split; [done|]. by exists []. Qed.
Lemma hsteps_trans w1 w2 w3 : hsteps w1 w2 → hsteps w2 w3 → hsteps w1 w3.
Proof.
  intros (_ & E1 & l1 & Eh1 & F1) (I3 & E2 & l2 & Eh2 & F2). split; [done|]. split; [congruence|].
  exists (l2 ++ l1). rewrite Eh2, Eh1, app_assoc. split; [done|]. by apply Forall_app.
Qed.

Definition HKeeps {A} (m : HM A) : Prop := ∀ w, I w → wlp m (λ _ w', hsteps w w') w.

Lemma HKeeps_bind {A B} (m : HM A) (k : A → HM B) :
  HKeeps m → (∀ a, HKeeps (k a)) → HKeeps (m ≫= k).
Proof.
  intros Hm Hk w Hw. apply wlp_bind. eapply wlp_mono; [by apply Hm|].
  intros a w1 S1. eapply wlp_mono; [apply Hk, S1|]. intros b w2 S2. exact (hsteps_trans _ _ _ S1 S2).
Qed.
Lemma HKeeps_ret {A} (a : A) : HKeeps (mret a).
Proof. intros w ?. by apply wlp_ret, hsteps_refl. Qed.
Lemma HKeeps_ub {A} : HKeeps (ub : HM A).
Proof. done. Qed.
Lemma HKeeps_gets {A} (f : world hal → A) : HKeeps (gets f).
Proof. intros w ?. by apply wlp_gets, hsteps_refl. Qed.
Lemma HKeeps_lift {A} (o : option A) : HKeeps (lift o : HM A).
Proof. intros w ?. apply wlp_lift. intros. by apply hsteps_refl. Qed.
Lemma HKeeps_call {A} (reply : history → A) ev : (∀ a, neutral (ev a)) → HKeeps (call reply ev).
Proof.
  intros Hev [s h] HI. apply wlp_call. simpl. split; [by apply stable_call|]. split; [done|].
  exists [ev (reply h)]. auto.
Qed.
Lemma HKeeps_upd f :
  (∀ s, pipeline (dev (f s)) = pipeline (dev s)) → (∀ s, V (f s) = V s) → HKeeps (upd f).
Proof.
  intros Hp HV [s h] HI. apply wlp_modify. simpl. split; [by apply (stable_upd s)|].
  split; [apply HV|]. by exists [].
Qed.
Lemma HKeeps_when b (m : HM ()) : HKeeps m → HKeeps (when b m).
Proof. intros ?. destruct b; [done|apply HKeeps_ret]. Qed.
Lemma HKeeps_forM {A} (l : list A) body : (∀ x, HKeeps (body x)) → HKeeps (forM l body).
Proof. intros Hb. induction l; simpl; [apply HKeeps_ret|]. apply HKeeps_bind; auto. Qed.
End HKeeps.

Create HintDb hkeeps.

Ltac hkeeps_step :=
  lazymatch goal with
  | |- HKeeps _ _ (mbind _ _) => apply HKeeps_bind; [|intros ?]
  | |- HKeeps _ _ (mret _) => apply HKeeps_ret
  | |- HKeeps _ _ ub => apply HKeeps_ub
  | |- HKeeps _ _ (gets _) => apply HKeeps_gets
  | |- HKeeps _ _ get => apply HKeeps_gets
  | |- HKeeps _ _ (lift _) => apply HKeeps_lift
  | |- HKeeps _ _ (when _ _) => apply HKeeps_when
  | |- HKeeps _ _ (forM _ _) => apply HKeeps_forM; intros ?
  | |- HKeeps _ _ (call _ _) => apply HKeeps_call; [typeclasses eauto|intros ?; exact I]
  | |- HKeeps _ _ (updD _) => apply HKeeps_upd; [typeclasses eauto|intros ?; simpl; repeat case_match; reflexivity..]
  | |- HKeeps _ _ (updG _) => apply HKeeps_upd; [typeclasses eauto|intros ?; simpl; repeat case_match; reflexivity..]
  | |- HKeeps _ _ (let '(_, _) := ?x in _) => destruct x
  | |- HKeeps _ _ (match ?x with _ => _ end) => destruct x
  end.
Ltac hkeeps := repeat first [hkeeps_step | solve [auto 2 with hkeeps] ].

(** ** Calls on the pipeline *)

(** Views of the device that do not look into the pipeline. *)
Class PipeBlind {T} (V : hal → T) : Prop :=
  pipe_blind s p q : pipeline (dev s) = Some q →
    V (mkHal ((dev s) <| pipeline := Some p |>) (glob s)) = V s.

Class PipeStable (I : world hal → Prop) : Prop :=
  pipe_stable s p h w' : pipeline (dev s) = Some p → I (World s h) →
    evolves res_view neutral (World p h) w' →
    I (World (mkHal ((dev s) <| pipeline := Some (obj w') |>) (glob s)) (hist w')).

#[export] Instance pipe_ok_pipe_stable : PipeStable pipe_ok.
Proof.
  intros s p h w' Hp. unfold pipe_ok. simpl. rewrite Hp. intros [Hinv Hc] He.
  pose proof (evolves_inv _ _ _ He Hinv) as Hinv'. destruct He as [[= _ _ Es _ _ _] _]. simpl in Es.
  split; [by destruct w'|congruence].
Qed.

(** The fields that decide what a request does. *)
Definition rq_view (s : hal) :=
  let d := dev s in
  (camera_id d, callback_ops d, is_initialized d, streams_configured d, inflight_tracker d,
   blob_stream d, pipeline_width d, pipeline_height d, last_config_width d, last_config_height d,
   closing d, is_none (pipeline d)).

#[export] Instance rq_view_blind : PipeBlind rq_view.
Proof. intros s p q E. unfold rq_view. simpl. by rewrite E. Qed.

Section Parts.
Context `{HE : HalEnv}.

Lemma wlp_on_pipe {A} (m : ST (world CameraPipeline) A) (Q : A → world hal → Prop) w :
  (∀ p, pipeline (dev (obj w)) = Some p →
     wlp m (λ a w', Q a (World (mkHal ((dev (obj w)) <| pipeline := Some (obj w') |>) (glob (obj w))) (hist w')))
       (World p (hist w))) →
  wlp (on_pipe m) Q w.
Proof.
  intros Hm. unfold wlp, on_pipe in *. destruct (pipeline (dev (obj w))) as [p|]; [|done].
  specialize (Hm p eq_refl). by destruct (m _) as [[a w']|].
Qed.

Section Generic.
Context (I : world hal → Prop) `{!Stable I, !PipeStable I} {T : Type} (V : hal → T) `{!PipeBlind V}.

Lemma hkeeps_on_pipe {A} (m : ST (world CameraPipeline) A) : Quiet m → HKeeps I V (on_pipe m).
Proof.
  intros Hm [s h] HI. apply wlp_on_pipe. simpl. intros p Hp. eapply wlp_mono; [apply Hm|].
  intros a w' He. split; [by eapply pipe_stable|]. split; [by eapply pipe_blind|]. apply He.
Qed.

Lemma hkeeps_startAfScan : HKeeps I V (on_pipe startAfScan).
Proof. apply hkeeps_on_pipe, quiet_startAfScan. Qed.
Lemma hkeeps_cancelAf : HKeeps I V (on_pipe cancelAf).
Proof. apply hkeeps_on_pipe, quiet_cancelAf. Qed.
Lemma hkeeps_afAgeMs : HKeeps I V (on_pipe afAgeMs).
Proof. apply hkeeps_on_pipe, quiet_afAgeMs. Qed.
Lemma hkeeps_captureFrame o f : HKeeps I V (on_pipe (captureFrame o f)).
Proof. apply hkeeps_on_pipe, quiet_captureFrame. Qed.
Lemma hkeeps_getGain : HKeeps I V (on_pipe getGain).
Proof. apply hkeeps_on_pipe, quiet_getGain. Qed.
Lemma hkeeps_getState : HKeeps I V (on_pipe getState).
Proof. apply hkeeps_on_pipe. unfold getState. keeps. Qed.
Lemma hkeeps_get_pipe : HKeeps I V (on_pipe get).
Proof. apply hkeeps_on_pipe. keeps. Qed.
Lemma hkeeps_clock : HKeeps I V sys_clock.
Proof. apply HKeeps_call; [done|]. by intros []. Qed.
Lemma hkeeps_getD : HKeeps I V getD. Proof. unfold getD. hkeeps. Qed.
Lemma hkeeps_getG : HKeeps I V getG. Proof. unfold getG. hkeeps. Qed.
Lemma hkeeps_stream r : HKeeps I V (the_stream r).
Proof. unfold the_stream, getG. hkeeps. Qed.
Lemma hkeeps_mem_get a : HKeeps I V (mem_get a).
Proof. unfold mem_get, getG. hkeeps. Qed.
Lemma hkeeps_is_closing : HKeeps I V is_closing.
Proof. unfold is_closing, getD. hkeeps. Qed.
Lemma hkeeps_wants_blob bufs : HKeeps I V (wants_blob bufs).
Proof.
  induction bufs; simpl; hkeeps. apply hkeeps_stream.
Qed.
Lemma hkeeps_lock y h u a b : HKeeps I V (gralloc_lock y h u a b).
Proof. unfold gralloc_lock. hkeeps. Qed.
Lemma hkeeps_unlock h : HKeeps I V (gralloc_unlock h).
Proof. unfold gralloc_unlock. hkeeps. Qed.
End Generic.
End Parts.
#[export] Hint Resolve hkeeps_startAfScan hkeeps_cancelAf hkeeps_afAgeMs hkeeps_captureFrame
  hkeeps_getGain hkeeps_getState hkeeps_get_pipe hkeeps_clock hkeeps_getD hkeeps_getG hkeeps_stream
  hkeeps_mem_get hkeeps_is_closing hkeeps_wants_blob hkeeps_lock hkeeps_unlock : hkeeps.
#[export] Hint Extern 0 (Stable _) => typeclasses eauto : hkeeps.
#[export] Hint Extern 0 (PipeStable _) => typeclasses eauto : hkeeps.
#[export] Hint Extern 0 (PipeBlind _) => typeclasses eauto : hkeeps.

(** ** The parts of a request *)

Section Request.
Context `{HE : HalEnv}.

Abbreviation Calm := (HKeeps pipe_ok rq_view).

Lemma calm_run_guarded {A} (v : A) fn : Calm fn → Calm (run_guarded v fn).
Proof. intros ?. unfold run_guarded, ensure_installed, segv_handler. hkeeps. Qed.
Hint Resolve calm_run_guarded : hkeeps.

Lemma calm_mem_set a b : Calm (mem_set a b).
Proof. unfold mem_set. hkeeps. Qed.
Hint Resolve calm_mem_set : hkeeps.

Lemma calm_af_settings rq : Calm (handle_af_settings rq).
Proof. unfold handle_af_settings. hkeeps. Qed.
Lemma calm_af_scan rq : Calm (handle_af_scan rq).
Proof. unfold handle_af_scan. hkeeps. Qed.
Lemma calm_temp : Calm ensure_temp_rgba.
Proof. unfold ensure_temp_rgba. hkeeps. Qed.
Hint Resolve calm_temp : hkeeps.
Lemma calm_encode_blob h w ht src x y c : Calm (encode_blob h w ht src x y c).
Proof. unfold encode_blob. hkeeps. apply calm_run_guarded. hkeeps. Qed.
Hint Resolve calm_encode_blob : hkeeps.
Lemma calm_capture_blob h s c : Calm (capture_blob h s c).
Proof. unfold capture_blob. hkeeps. Qed.
Lemma calm_capture_direct y h s c : Calm (capture_direct y h s c).
Proof. unfold capture_direct. hkeeps. apply calm_run_guarded. hkeeps. Qed.
Hint Resolve calm_capture_blob calm_capture_direct : hkeeps.
Lemma calm_capture_output b l : Calm (capture_output b l).
Proof. unfold capture_output. hkeeps. Qed.
Hint Resolve calm_capture_output : hkeeps.
Lemma calm_capture_outputs bufs l : Calm (capture_outputs bufs l).
Proof. revert l. induction bufs as [|b bufs IH]; intros l; simpl; hkeeps. Qed.
Lemma calm_gralloc : Calm get_gralloc_module.
Proof. unfold get_gralloc_module. hkeeps. Qed.
Hint Resolve calm_capture_outputs calm_gralloc : hkeeps.

(** Starting the stream again keeps the device and its buffers. *)
Definition fd_bufs (p : CameraPipeline) := (mFd p, mBufferCount p).

Lemma quiet_fd_bufs {A} (m : ST (world CameraPipeline) A) : Quiet m → Keeps fd_bufs neutral m.
Proof. apply Keeps_weaken; [|done]. intros p q. unfold res_view, fd_bufs. congruence. Qed.

Lemma keeps_start : Keeps fd_bufs neutral startStreaming.
Proof.
  unfold startStreaming. keeps; try (apply quiet_fd_bufs; solve [auto with keeps]).
Qed.

Lemma calm_start : Calm (on_pipe startStreaming).
Proof.
  intros [s h] HI. apply wlp_on_pipe. simpl. intros p Hp. unfold pipe_ok in HI. simpl in HI.
  rewrite Hp in HI. destruct HI as [Hinv Hc].
  pose proof (start_inv _ _ Hinv) as H1'. pose proof (keeps_start (World p h)) as H2'.
  rewrite wlp_run in H1', H2' |- *. intros a w' E.
  pose proof (H1' _ _ E) as Hinv'. destruct (H2' _ _ E) as [Ef Hev].
  unfold fd_bufs in Ef. injection Ef as Efd Ebc. simpl in Efd.
  split; [|split; [|exact Hev]].
  - unfold pipe_ok. simpl. split; [by destruct w'|]. intros Hcl.
    apply (inv_closed _ _ Hinv') in Hcl. apply Hc. apply (inv_closed _ _ Hinv). simpl. lia.
  - by eapply rq_view_blind.
Qed.
Hint Resolve calm_start : hkeeps.

Lemma calm_capture_request_outputs rq : Calm (capture_request_outputs rq).
Proof. unfold capture_request_outputs. hkeeps. Qed.
Lemma calm_proactive rq b c : Calm (proactive_jpeg rq b c).
Proof. unfold proactive_jpeg. hkeeps. Qed.
Lemma calm_result_metadata f t : Calm (result_metadata f t).
Proof. unfold result_metadata. hkeeps. Qed.
End Request.
