(* ===== verification/HalLife.v ===== *)
(** * The life of a device: configure, flush, close

    The operations that replace, stop and release the pipeline, and the
    invariant of the device under every sequence of operations. *)

From S2P Require Import Prelude Monad Float32 Kernel Demosaic DemosaicSpec ColorConv InFlight Pipeline Isp Capture AutoFocus PipelineInv PipelineSpec Metadata HalMetadata HalImage Jpeg Hal HalInv HalSpec.

#[local] Open Scope Z_scope.

(** ** Facts about the pipeline's operations *)

Definition silent (e : event) : Prop := completion e = false.

(** The calls of a program, one by one. *)
Ltac keeps_calls := repeat first
  [ keeps_step
  | match goal with |- Keeps _ _ ?m =>
      let m' := eval unfold sys_open, sys_close, io_querycap, io_s_fmt, io_reqbufs, io_querybuf,
        sys_mmap, sys_munmap, io_qbuf, io_dqbuf, io_streamon, io_streamoff, io_s_ctrl, io_g_ctrl,
        io_i2c_slave, sys_write, sys_poll, sys_usleep, sys_clock, sys_property in m in
      progress change m with m' end
  | apply Keeps_call; intros ?; exact I
  | apply Keeps_call; intros ?; reflexivity ].

Section PipeFacts.
Context `{!Kernel}.

Abbreviation Mute := (Keeps (λ _ : CameraPipeline, ()) silent).

Lemma quiet_mute {A} (m : ST (world CameraPipeline) A) : Quiet m → Mute m.
Proof. apply Keeps_weaken; [done|]. intros e. by destruct e. Qed.

Lemma mute_close : Mute close.
Proof. unfold close, stopStreaming, getBuf, setBuf, deinitFocuser. keeps_calls. Qed.
Lemma mute_stop : Mute stopStreaming.
Proof. unfold stopStreaming, getBuf, setBuf. keeps_calls. Qed.
Lemma mute_open id : Mute (open id).
Proof. unfold open, initFocuser. keeps_calls. Qed.
Lemma mute_configure c : Mute (configure c).
Proof.
  unfold configure, configure_timing, map_buffer, unmap_first, configure_isp, configure_gamma, getBuf, setBuf.
  keeps_calls.
Qed.
Lemma mute_start : Mute startStreaming.
Proof. unfold startStreaming, ov5693_init_via_i2c, setExposure, setGain. keeps_calls. Qed.

Lemma config_kept_start : Keeps mConfig (λ _, True) startStreaming.
Proof. unfold startStreaming, ov5693_init_via_i2c, setExposure, setGain. keeps_calls. Qed.

Lemma fd_kept_start : Keeps mFd (λ _, True) startStreaming.
Proof. unfold startStreaming, ov5693_init_via_i2c, setExposure, setGain. keeps_calls. Qed.
Lemma fd_kept_configure c : Keeps mFd (λ _, True) (configure c).
Proof.
  unfold configure, configure_timing, map_buffer, unmap_first, configure_isp, configure_gamma, getBuf, setBuf.
  keeps_calls.
Qed.

(** An operation that keeps the descriptor keeps an open pipeline open. *)
Lemma stays_open {A} (m : ST (world CameraPipeline) A) w :
  Keeps mFd (λ _, True) m → pipe_inv w → mState (obj w) ≠ PIPELINE_CLOSED →
  wlp m (λ _ w', pipe_inv w') w → wlp m (λ _ w', pipe_inv w' ∧ mState (obj w') ≠ PIPELINE_CLOSED) w.
Proof.
  intros Hm Hinv Hc Hw. pose proof (Hm w) as Hf. rewrite wlp_run in *. intros a w' E.
  pose proof (Hw _ _ E) as Hinv'. destruct (Hf _ _ E) as [Efd _]. split; [done|].
  intros Hcl%(inv_closed _ _ Hinv'). apply Hc, (inv_closed _ _ Hinv). lia.
Qed.

Lemma open_count id : Keeps mBufferCount (λ _, True) (open id).
Proof. unfold open, initFocuser. keeps_calls. Qed.

Lemma open_opened id w :
  mState (obj w) = PIPELINE_CLOSED → wlp (open id) (λ r w', r = 0 → mState (obj w') = PIPELINE_OPENED) w.
Proof.
  intros Hc. unfold open. apply wlp_bind, wlp_gets. rewrite Hc. simpl.
  apply wlp_bind, wlp_modify. apply wlp_bind, wlp_call, wlp_bind, wlp_modify.
  apply wlp_if; intros _; [by apply wlp_ret|]. apply wlp_bind, wlp_call.
  assert (∀ fd w, wlp (sys_close fd;; upd (λ p, p <| mFd := -1 |>);; mret (- ENODEV))
    (λ r w', r = 0 → mState (obj w') = PIPELINE_OPENED) w) as Hg.
  { intros. apply wlp_bind, wlp_call, wlp_bind, wlp_modify. by apply wlp_ret. }
  match goal with |- wlp (match ?x with _ => _ end) _ _ => destruct x end; [|apply Hg].
  apply wlp_if; intros _; [apply Hg|]. apply wlp_bind. rewrite wlp_run. intros [] w1 _.
  apply wlp_bind, wlp_modify. by apply wlp_ret.
Qed.


Lemma config_set c w : wlp (configure c) (λ r w', r = 0 → mConfig (obj w') = c) w.
Proof.
  unfold configure. apply wlp_bind, wlp_gets. apply wlp_if; intros _; [by apply wlp_ret|].
  apply wlp_bind, wlp_modify.
  assert (∀ A (m : ST (world CameraPipeline) A) w, Keeps mConfig (λ _, True) m →
    mConfig (obj w) = c → wlp m (λ _ w', mConfig (obj w') = c) w) as Hk.
  { intros A m w1 Hm Hc. eapply wlp_mono; [apply Hm|]. intros a w2 [-> _]. done. }
  eapply (wlp_mono _ (λ _ w', mConfig (obj w') = c)); [|by intros].
  apply Hk; [|done].
  unfold configure_timing, map_buffer, unmap_first, configure_isp, configure_gamma, getBuf, setBuf.
  keeps_calls.
Qed.

(** A failing call has a positive error number. *)
Class ErrnoPositive : Prop := {
  errno_qbuf h fd i e : k_qbuf h fd i = SErr e → 0 < e;
  errno_streamon h fd e : k_streamon h fd = SErr e → 0 < e;
  errno_poll h fd t e : k_poll h fd t = SErr e → 0 < e;
  errno_dqbuf h fd e : k_dqbuf h fd = SErr e → 0 < e;
}.

Lemma start_streaming `{!ErrnoPositive} w :
  wlp startStreaming (λ r w', r = 0 → mState (obj w') = PIPELINE_STREAMING) w.
Proof.
  unfold startStreaming. apply wlp_bind, wlp_gets. apply wlp_if; intros _; [by apply wlp_ret|].
  apply wlp_bind. eapply (wlp_mono _ (λ r _, match r with Some e => e < 0 | None => True end)).
  { apply (wlp_forM_exit (λ _, True)); try done. intros i w1 _ _. apply wlp_bind, wlp_call.
    destruct (k_qbuf _ _ _) eqn:E; apply wlp_ret; [done|]. apply errno_qbuf in E. lia. }
  intros [e|] w1 He; [apply wlp_ret; lia|]. apply wlp_bind, wlp_call.
  destruct (k_streamon _ _) eqn:E; [|apply wlp_ret; apply errno_streamon in E; lia].
  apply wlp_bind. rewrite wlp_run. intros [] w2 _. apply wlp_bind, wlp_modify. by apply wlp_ret.
Qed.
End PipeFacts.

(** ** Replacing the pipeline *)

Lemma new_inv raw h : balanced h → pipe_inv (World (CameraPipeline_new raw) h).
Proof.
  intros [Hm Hf]. pose proof (fresh_inv raw) as Hi. split; try apply Hi.
  - intros a l. destruct (inv_maps _ _ Hi a l) as [? He]. specialize (He eq_refl). simpl in *.
    rewrite Hm. split; [|intros _]; lia.
  - intros fd ?. transitivity 0; [by apply Hf|]. by apply (inv_fds _ _ Hi fd).
Qed.

(** [pipe_ok] without the claim that the pipeline is open. *)
Definition pipe_held (w : world hal) : Prop :=
  match pipeline (dev (obj w)) with
  | Some p => pipe_inv (World p (hist w))
  | None => balanced (hist w)
  end.

Lemma pipe_ok_held w : pipe_ok w → pipe_held w.
Proof. unfold pipe_ok, pipe_held. destruct (pipeline _); [by intros [? _]|done]. Qed.

#[export] Instance pipe_held_stable : Stable pipe_held.
Proof.
  split; unfold pipe_held; simpl.
  - intros s h e He. destruct (pipeline (dev s)) as [p|] eqn:Hp.
    + by apply (pipe_inv_events p h [e]); repeat constructor.
    + intros Hb. assert (pipe_ok (World s (e :: h))) as Hok.
      { apply stable_call; [done|]. unfold pipe_ok. simpl. by rewrite Hp. }
      unfold pipe_ok in Hok. simpl in Hok. by rewrite Hp in Hok.
  - intros s s' h ->. done.
Qed.

(** The device up to its pipeline. *)
Definition but_pipe (d : mocha_camera_device_t) : mocha_camera_device_t := d <| pipeline := None |>.

Record life (w0 w : world hal) : Prop := {
  life_pipe : pipe_held w;
  life_dev : but_pipe (dev (obj w)) = but_pipe (dev (obj w0));
  life_silent : completions (hist w) = completions (hist w0);
}.

Section Life.
Context `{HE : HalEnv}.

Abbreviation HM := (ST (world hal)).

Lemma completions_silent evs h : Forall silent evs → completions (evs ++ h) = completions h.
Proof.
  unfold completions. rewrite filter_app. intros Hn.
  assert (filter (λ e, completion e = true) evs = []) as ->; [|done].
  induction Hn as [|e evs He _ IH]; [done|]. rewrite filter_cons, IH. unfold silent in He.
  rewrite decide_False by congruence. done.
Qed.

Lemma life_on_pipe {A} (m : ST (world CameraPipeline) A) (P : A → world CameraPipeline → Prop) Q w0 w :
  life w0 w → Keeps (λ _ : CameraPipeline, ()) silent m →
  (∀ p, pipeline (dev (obj w)) = Some p → pipe_inv (World p (hist w)) →
     wlp m (λ a w', pipe_inv w' ∧ P a w') (World p (hist w))) →
  (∀ a w' p', life w0 w' → pipeline (dev (obj w')) = Some p' → P a (World p' (hist w')) → Q a w') →
  wlp (on_pipe m) Q w.
Proof.
  intros [Hp Hd Hs] Hm HP HQ. apply wlp_on_pipe. intros p Ep. unfold pipe_held in Hp. rewrite Ep in Hp.
  eapply wlp_mono; [apply wlp_both; [apply (Hm (World p (hist w)))|by apply HP]|].
  intros a w' [(_ & evs & Eh & Hev) [Hinv HPa]]. apply (HQ a _ (obj w')); simpl; [|done|by destruct w'].
  split; simpl; [|done|].
  - unfold pipe_held. simpl. by destruct w'.
  - rewrite Eh. simpl. by rewrite completions_silent.
Qed.

Lemma close_rule w0 w (Q : Z → world hal → Prop) :
  life w0 w →
  (∀ r w' p', life w0 w' → pipeline (dev (obj w')) = Some p' → mState p' = PIPELINE_CLOSED → Q r w') →
  wlp (on_pipe close) Q w.
Proof.
  intros Hl HQ. eapply (life_on_pipe _ (λ _ w', mState (obj w') = PIPELINE_CLOSED)); [done|apply mute_close| |].
  - intros p _ Hinv. eapply wlp_mono; [by apply close_inv|]. by intros r w' (? & _ & ? & _).
  - intros r w' p' ? ? ?. by eapply HQ.
Qed.

Lemma delete_rule w0 w (Q : () → world hal → Prop) :
  life w0 w → (∀ w', life w0 w' → pipeline (dev (obj w')) = None → Q () w') → wlp delete_pipeline Q w.
Proof.
  intros Hl HQ. unfold delete_pipeline. apply wlp_bind, (close_rule w0 w _ Hl). intros r w1 p1 [Hp Hd Hs] Ep Hc.
  apply wlp_bind, wlp_bind, wlp_gets, wlp_ret. rewrite Ep. apply wlp_bind, wlp_bind, wlp_modify, wlp_modify.
  apply HQ; [|done]. split; simpl; [|done|done]. unfold pipe_held in *. simpl. rewrite Ep in Hp.
  destruct (closed_releases _ _ Hp Hc) as [Hm Hf]. split; [|done]. intros a l. by apply Hm.
Qed.

Lemma new_rule w0 w (Q : () → world hal → Prop) :
  life w0 w → pipeline (dev (obj w)) = None →
  (∀ w' p', life w0 w' → pipeline (dev (obj w')) = Some p' → mState p' = PIPELINE_CLOSED →
            mBufferCount p' = 0 → Q () w') →
  wlp new_pipeline Q w.
Proof.
  intros [Hp Hd Hs] Ep HQ. unfold new_pipeline. apply wlp_bind, wlp_gets, wlp_bind, wlp_bind, wlp_gets, wlp_ret.
  apply wlp_modify. eapply HQ; [|done|done|done]. split; simpl; [|done|done].
  unfold pipe_held in *. simpl. rewrite Ep in Hp. by apply new_inv.
Qed.

Lemma life_hkeeps {A} (m : HM A) w0 w (Q : A → world hal → Prop) :
  HKeeps pipe_held (λ s, dev s) m → life w0 w →
  (∀ a w', life w0 w' → dev (obj w') = dev (obj w) → Q a w') → wlp m Q w.
Proof.
  intros Hm [Hp Hd Hs] HQ. eapply wlp_mono; [by apply Hm|]. intros a w' (Hp' & Hv & evs & Eh & Hn).
  apply HQ; [|done]. split; [done|congruence|]. rewrite Eh, completions_neutral by done. done.
Qed.

(** What a new pipeline looks like once it streams. *)
Definition started (id wd ht : Z) (p : CameraPipeline) : Prop :=
  mState p ≠ PIPELINE_CLOSED ∧ mConfig p = hal_config id wd ht ∧
  (ErrnoPositive → mState p = PIPELINE_STREAMING).

Lemma fail_rule w0 w r (Q : Z → world hal → Prop) :
  life w0 w → (∀ w', life w0 w' → pipeline (dev (obj w')) = None → Q r w') →
  wlp (on_pipe close;; delete_pipeline;; mret r) Q w.
Proof.
  intros Hl HQ. apply wlp_bind, (close_rule w0 w _ Hl). intros ? w1 p1 Hl1 _ _.
  apply wlp_bind, (delete_rule w0 w1 _ Hl1). intros w2 Hl2 Hn. apply wlp_ret. by apply HQ.
Qed.

Lemma start_pipeline_rule streams wd ht w0 w :
  life w0 w → pipeline (dev (obj w)) = None →
  wlp (start_pipeline streams wd ht) (λ r w', life w0 w' ∧
    if decide (r = 0) then ∃ p, pipeline (dev (obj w')) = Some p ∧ started (camera_id (dev (obj w))) wd ht p
    else pipeline (dev (obj w')) = None) w.
Proof.
  intros Hl Hn. unfold start_pipeline. apply wlp_bind, wlp_bind, wlp_gets, wlp_ret.
  apply wlp_bind, (new_rule w0 w _ Hl Hn). intros w1 p1 Hl1 Ep1 Hc1 Hb1.
  apply wlp_bind. eapply (life_on_pipe _ (λ r w', mBufferCount (obj w') = 0 ∧
    (r = 0 → mState (obj w') = PIPELINE_OPENED))); [done|apply mute_open| |].
  { intros p Ep Hinv. assert (p = p1) as -> by congruence. apply wlp_both; [by apply open_inv|].
    apply wlp_both; [|by apply open_opened]. eapply wlp_mono; [apply open_count|]. by intros r w' [-> _]. }
  intros r w2 p2 Hl2 Ep2 [Hb2 Ho2]. apply wlp_if; intros Hr; zbool.
  { apply wlp_bind, (delete_rule w0 w2 _ Hl2). intros w3 Hl3 Hn3. by apply wlp_ret. }
  specialize (Ho2 Hr). apply wlp_bind, (life_hkeeps _ w0 w2); [|done|].
  { unfold override_formats. hkeeps. unfold set_stream. hkeeps. }
  intros _ w3 Hl3 Ed3. apply wlp_bind.
  eapply (life_on_pipe _ (λ r w', mState (obj w') ≠ PIPELINE_CLOSED ∧
    (r = 0 → mConfig (obj w') = hal_config (camera_id (dev (obj w))) wd ht))); [done|apply mute_configure| |].
  { intros p Ep Hinv. rewrite Ed3, Ep2 in Ep. injection Ep as <-.
    eapply wlp_mono; [apply wlp_both; [|apply config_set]|].
    - apply stays_open; [apply fd_kept_configure|done|simpl in Ho2 |- *; by rewrite Ho2|by apply configure_inv].
    - by intros r' w' [[? ?] ?]. }
  intros r4 w4 p4 Hl4 Ep4 [Hc4 Hcfg]. apply wlp_if; intros Hr4; zbool.
  { apply (fail_rule w0 w4); [done|]. intros w5 Hl5 Hn5. split; [done|]. by rewrite decide_False. }
  specialize (Hcfg Hr4). apply wlp_bind.
  eapply (life_on_pipe _ (λ r w', mState (obj w') ≠ PIPELINE_CLOSED ∧
    mConfig (obj w') = hal_config (camera_id (dev (obj w))) wd ht ∧
    (ErrnoPositive → r = 0 → mState (obj w') = PIPELINE_STREAMING))); [done|apply mute_start| |].
  { intros p Ep Hinv. rewrite Ep4 in Ep. injection Ep as <-.
    eapply wlp_mono; [apply wlp_both; [|apply wlp_both; [apply config_kept_start|]]|].
    - apply stays_open; [apply fd_kept_start|done|done|by apply start_inv].
    - apply (λ H, proj2 (wlp_run _ (λ r w', ErrnoPositive → r = 0 → mState (obj w') = PIPELINE_STREAMING) _) H).
      intros a w' E Herr. pose proof (start_streaming (World p4 (hist w4))) as Hst.
      rewrite wlp_run in Hst. by apply (Hst a w').
    - intros r' w' ([? ?] & [Ec _] & ?). simpl in Ec. split; [done|]. split; [done|]. split; [exact (eq_trans Ec Hcfg)|done]. }
  intros r5 w5 p5 Hl5 Ep5 (Hc5 & Hcfg5 & Hst5). apply wlp_if; intros Hr5; zbool.
  { apply (fail_rule w0 w5); [done|]. intros w6 Hl6 Hn6. split; [done|]. by rewrite decide_False. }
  apply wlp_ret. split; [done|]. simpl. exists p5. split; [done|]. split; [done|]. split; [done|].
  intros Herr. by apply Hst5.
Qed.

Lemma life_start w : hal_inv w → life w w.
Proof. intros [? _]. split; [by apply pipe_ok_held|done|done]. Qed.

Lemma life_tracker w0 w : life w0 w → inflight_tracker (dev (obj w)) = inflight_tracker (dev (obj w0)).
Proof. intros [_ Hd _]. unfold but_pipe in Hd. by injection Hd. Qed.
Lemma life_id w0 w : life w0 w → camera_id (dev (obj w)) = camera_id (dev (obj w0)).
Proof. intros [_ Hd _]. unfold but_pipe in Hd. by injection Hd. Qed.

Lemma hkeeps_select streams l : HKeeps pipe_held (λ s, dev s) (select_streams streams l).
Proof.
  revert l. induction streams as [|a streams IH]; intros l; simpl; hkeeps. unfold set_stream. hkeeps.
Qed.

(** Nothing is in flight between two operations: draining sends nothing. *)
Lemma drain_rule w0 w (Q : () → world hal → Prop) :
  life w0 w → inflight_tracker (dev (obj w0)) = Some ∅ → Q () w → wlp drain_inflight Q w.
Proof.
  intros Hl Ht HQ. unfold drain_inflight. apply wlp_bind, wlp_bind, wlp_gets, wlp_ret.
  rewrite (life_tracker _ _ Hl), Ht.
  assert (count ∅ = 0%nat) as -> by apply map_size_empty. simpl. by apply wlp_ret.
Qed.

(** ** The size a configuration asks for *)

(** An output stream of the configuration, no BLOB stream, of the given size. *)
Definition asked (g : gmap Z camera3_stream) (streams : list Z) (a wd ht : Z) : Prop :=
  a ∈ streams ∧ ∃ s, g !! a = Some s ∧ stream_type s = CAMERA3_STREAM_OUTPUT ∧ s_format s ≠ HAL_PIXEL_FORMAT_BLOB ∧ s_width s = wd ∧ s_height s = ht.

(** A store that differs in buffer counts only. *)
Definition counts_differ (g g' : gmap Z camera3_stream) : Prop :=
  ∀ a s', g' !! a = Some s' → ∃ s, g !! a = Some s ∧ s' = s <| max_buffers := max_buffers s' |>.

(** Whatever the selection has chosen is an output stream and no BLOB stream. *)
Definition sel_ok (g : gmap Z camera3_stream) (streams : list Z) (l : selection) : Prop :=
  ∀ a, pipelineStream l = Some a ∨ rgbaStream l = Some a → ∃ wd ht, asked g streams a wd ht.

Lemma select_stream_ok g S a s l : sel_ok g S l → a ∈ S → g !! a = Some s → stream_type s = CAMERA3_STREAM_OUTPUT → sel_ok g S (select_stream a s l).
Proof.
  intros Hl Ha Hs Ht b. unfold select_stream. destruct (Z.eqb_spec (s_format s) HAL_PIXEL_FORMAT_BLOB) as [Hf|Hf].
  { rewrite andb_false_r. apply Hl. }
  assert (b = a → ∃ wd ht, asked g S b wd ht) as Hnew by (intros ->; exists (s_width s), (s_height s); split; [done|]; eauto 10).
  cbn [negb]. rewrite andb_true_r. destruct l as [p o r bl]; cbn in *. destruct p as [p|]; cbn; [apply Hl|].
  destruct (s_format s =? HAL_PIXEL_FORMAT_RGBA_8888); cbn; [intros [[= <-]|[= <-]]; auto|].
  destruct r as [r|]; cbn; [intros [[= <-]|[= <-]]; [auto|]; apply Hl; auto|]. destruct (s_format s =? HAL_PIXEL_FORMAT_IMPLEMENTATION_DEFINED); cbn; intros [[= <-]|[= <-]]; auto.
Qed.

Lemma select_rule g S ids l w : counts_differ g (g_streams (glob (obj w))) → sel_ok g S l → ids ⊆ S →
  wlp (select_streams ids l) (λ r w', counts_differ g (g_streams (glob (obj w'))) ∧ ∀ l', r = Some l' → sel_ok g S l') w.
Proof.
  intros Hg Hl Hi. revert l w Hg Hl. induction ids as [|a ids IH]; intros l w Hg Hl; cbn [select_streams].
  { apply wlp_ret. split; [done|]. by intros ? [= <-]. }
  apply wlp_bind. unfold the_stream. apply wlp_bind, wlp_bind, wlp_gets, wlp_ret, wlp_bind, wlp_lift. intros ? [= <-]. apply wlp_lift. intros s Hs.
  apply wlp_if; intros _; [by apply wlp_ret|]. destruct (Hg a s Hs) as (s0 & Hs0 & Es).
  apply wlp_if; intros Ht; zbool; [|apply IH; [set_solver|done|done]]. apply wlp_bind, wlp_modify. apply IH; [set_solver| |].
  - intros b t. cbn. destruct (decide (a = b)) as [<-|Hne]; [|rewrite lookup_insert_ne by done; apply Hg].
    rewrite lookup_insert_eq. intros [= <-]. exists s0. split; [done|]. rewrite Es. by destruct s0.
  - assert (select_stream a s l = select_stream a s0 l) as -> by (rewrite Es; by destruct s0).
    apply select_stream_ok; [done|set_solver|done|]. rewrite Es in Ht. by destruct s0.
Qed.

(** The size a pipeline works at is the one recorded with it. *)
Definition size_recorded (w : world hal) : Prop := ∀ p, pipeline (dev (obj w)) = Some p → streams_configured (dev (obj w)) = true →
  cfg_width (mConfig p) = last_config_width (dev (obj w)) ∧ cfg_height (mConfig p) = last_config_height (dev (obj w)).

(** What configuring the streams leaves. *)
Definition configured (cfg : option (list Z)) (w w' : world hal) (r : Z) : Prop :=
  if decide (r = 0) then
    ∃ p streams a wd ht, cfg = Some streams ∧ asked (g_streams (glob (obj w))) streams a wd ht ∧
      pipeline (dev (obj w')) = Some p ∧ streams_configured (dev (obj w')) = true ∧
      last_config_width (dev (obj w')) = wd ∧ last_config_height (dev (obj w')) = ht ∧
      (pipeline (dev (obj w)) = Some p ∧ streams_configured (dev (obj w)) = true ∧ mState p = PIPELINE_STREAMING ∧
         last_config_width (dev (obj w)) = wd ∧ last_config_height (dev (obj w)) = ht ∨
       started (camera_id (dev (obj w))) wd ht p ∧ pipeline_width (dev (obj w')) = wd ∧ pipeline_height (dev (obj w')) = ht) ∧
      (size_recorded w → cfg_width (mConfig p) = wd ∧ cfg_height (mConfig p) = ht)
  else pipeline (dev (obj w')) = None ∨
       (r = - EINVAL ∧ pipeline (dev (obj w')) = pipeline (dev (obj w))).

Lemma hal_inv_held w :
  pipe_held w → (∀ p, pipeline (dev (obj w)) = Some p → mState p ≠ PIPELINE_CLOSED) →
  inflight_tracker (dev (obj w)) = Some ∅ → hal_inv w.
Proof.
  unfold hal_inv, pipe_held, pipe_ok. intros Hp Hc Ht. split; [|done].
  destruct (pipeline _) as [p|]; [|done]. split; [done|]. by apply Hc.
Qed.

Lemma hal_inv_pipe w p : hal_inv w → pipeline (dev (obj w)) = Some p → mState p ≠ PIPELINE_CLOSED.
Proof. intros [Hp _] E. unfold pipe_ok in Hp. rewrite E in Hp. apply Hp. Qed.

Lemma stream_rule r (P : camera3_stream → Prop) w : (∀ a s, r = Some a → g_streams (glob (obj w)) !! a = Some s → P s) → wlp (the_stream r) (λ s _, P s) w.
Proof. intros HP. unfold the_stream. apply wlp_bind, wlp_bind, wlp_gets, wlp_ret, wlp_bind, wlp_lift. intros a ->. apply wlp_lift. intros s Hs. by eapply HP. Qed.

Lemma configure_spec cfg w :
  hal_inv w →
  wlp (camera_device_configure_streams cfg) (λ r w', hal_inv w' ∧
    completions (hist w') = completions (hist w) ∧ configured cfg w w' r) w.
Proof.
  intros Hinv. pose proof (life_start w Hinv) as Hl. pose proof (proj2 Hinv) as Ht.
  assert (∀ w', life w w' → dev (obj w') = dev (obj w) →
    hal_inv w' ∧ completions (hist w') = completions (hist w) ∧ configured cfg w w' (- EINVAL)) as Hbad.
  { intros w' Hl' Hd. split; [|split; [apply Hl'|right; by rewrite Hd]].
    apply hal_inv_held; [apply Hl'| |by rewrite Hd]. intros p Hp. rewrite Hd in Hp. by eapply hal_inv_pipe. }
  unfold camera_device_configure_streams. destruct cfg as [streams|]; [|apply wlp_ret; by apply Hbad].
  apply wlp_if; intros _; [apply wlp_ret; by apply Hbad|]. apply wlp_bind.
  eapply wlp_mono; [apply wlp_both; [apply (life_hkeeps _ w w (λ _ w', life w w' ∧ dev (obj w') = dev (obj w))); [apply hkeeps_select|done|auto]|]|].
  { apply (select_rule (g_streams (glob (obj w))) streams); [intros a s E; exists s; split; [done|]; by destruct s|by intros a [[=]|[=]]|done]. }
  intros [l|] w1 ((Hl1 & Hd1) & Hg1 & Hsel); [|apply wlp_ret; by apply Hbad]. specialize (Hsel l eq_refl).
  apply wlp_bind, wlp_modify.
  set (w2 := World _ _).
  assert (pipe_held w2 ∧ completions (hist w2) = completions (hist w) ∧
    inflight_tracker (dev (obj w2)) = Some ∅ ∧ camera_id (dev (obj w2)) = camera_id (dev (obj w)) ∧
    pipeline (dev (obj w2)) = pipeline (dev (obj w)) ∧
    streams_configured (dev (obj w2)) = streams_configured (dev (obj w)) ∧
    last_config_width (dev (obj w2)) = last_config_width (dev (obj w)) ∧ last_config_height (dev (obj w2)) = last_config_height (dev (obj w)) ∧
    g_streams (glob (obj w2)) = g_streams (glob (obj w1)))
    as (Hp2 & Hs2 & Ht2 & Hid2 & Hpp2 & Hsc2 & Hlw2 & Hlh2 & Hg2).
  { unfold w2. simpl. rewrite Hd1. split_and!; try done; [|apply Hl1].
    apply (stable_upd (obj w1)); [by rewrite Hd1|]. destruct w1. apply Hl1. }
  clearbody w2. assert (life w2 w2) as Hl2 by done.
  apply wlp_bind, wlp_bind, wlp_gets, wlp_ret. apply wlp_bind.
  eapply wlp_mono; [apply wlp_both; [apply (life_hkeeps _ w2 w2 (λ _ w', life w2 w' ∧ dev (obj w') = dev (obj w2))); [unfold the_stream; hkeeps|done|auto]|
    apply (stream_rule _ (λ s, ∃ a, asked (g_streams (glob (obj w))) streams a (s_width s) (s_height s)))]|].
  { intros a s Ea Es. rewrite Hg2 in Es. destruct (Hg1 a s Es) as (s0 & Hs0 & ->). exists a.
    assert (∃ wd ht, asked (g_streams (glob (obj w))) streams a wd ht) as (wd & ht & Hin & s1 & E1 & ? & ? & ? & ?).
    { apply Hsel. unfold chosen in Ea. destruct (rgbaStream l); auto. }
    split; [done|]. exists s0. destruct s0, s1. cbn in *. by simplify_eq. }
  intros s w3 ((Hl3 & Hd3) & a & Hasked).
  apply wlp_if; intros Hsame.
  { apply wlp_ret. apply andb_prop in Hsame as [Hsame Hstr]. apply andb_prop in Hsame as [Hsz Hsc]. apply andb_prop in Hsz as [Hw Hh]. zbool.
    unfold is_streaming in Hstr. destruct (pipeline (dev (obj w2))) as [p|] eqn:Hp; [|done].
    apply bool_decide_eq_true in Hstr. split; [|split].
    - apply hal_inv_held; [apply Hl3| |by rewrite Hd3]. intros q Hq. rewrite Hd3 in Hq. congruence.
    - rewrite (life_silent _ _ Hl3). done.
    - unfold configured. simpl. exists p, streams, a, (s_width s), (s_height s). rewrite Hd3. split_and!; try done.
      + left. split_and!; congruence.
      + intros Hrec. destruct (Hrec p) as [E1 E2]; [congruence|congruence|]. split; congruence. }
  clear Hsame. apply wlp_bind, (drain_rule w2 w3 _ Hl3 Ht2).
  apply wlp_bind. eapply (wlp_mono _ (λ _ w', life w2 w' ∧ pipeline (dev (obj w')) = None)).
  { apply wlp_bind, wlp_bind, wlp_gets, wlp_ret. destruct (pipeline (dev (obj w3))) eqn:Hp3; [|by apply wlp_ret].
    apply wlp_bind, (close_rule w2 w3 _ Hl3). intros ? w4 p4 Hl4 _ _. by apply (delete_rule w2 w4 _ Hl4). }
  intros _ w4 [Hl4 Hn4]. apply wlp_bind. eapply wlp_mono; [by apply (start_pipeline_rule _ _ _ w2 w4)|].
  intros r w5 [Hl5 Hr]. rewrite (life_id _ _ Hl4), Hid2 in Hr. pose proof (life_tracker _ _ Hl5) as Ht5.
  apply wlp_if; intros Hr0; zbool.
  - rewrite decide_False in Hr by done. apply wlp_ret. split; [|split].
    + apply hal_inv_held; [apply Hl5| |congruence]. intros q Hq. congruence.
    + rewrite (life_silent _ _ Hl5). done.
    + unfold configured. rewrite decide_False by done. by left.
  - rewrite decide_True in Hr by done. destruct Hr as (p & Hp5 & Hst). apply wlp_bind, wlp_modify, wlp_ret.
    split; [|split].
    + apply hal_inv_held; simpl; [|intros q Hq; replace q with p by congruence; apply Hst|congruence].
      apply (stable_upd (obj w5)); [done|]. destruct w5. apply Hl5.
    + simpl. rewrite (life_silent _ _ Hl5). done.
    + unfold configured. simpl. exists p, streams, a, (s_width s), (s_height s). split_and!; try done; [by right|].
      intros _. destruct Hst as (_ & -> & _). done.
Qed.

(** ** Flush *)

Lemma flush_spec w :
  hal_inv w →
  wlp camera_device_flush (λ r w', hal_inv w' ∧ completions (hist w') = completions (hist w) ∧ r = 0 ∧
    (∀ p, pipeline (dev (obj w)) = Some p → mStreaming p = true → streams_configured (dev (obj w)) = true →
       ∃ p', pipeline (dev (obj w')) = Some p' ∧ mBufferCount p' = 0 ∧ mStreaming p' = false)) w.
Proof.
  intros Hinv. pose proof (life_start w Hinv) as Hl. pose proof (proj2 Hinv) as Ht.
  unfold camera_device_flush. apply wlp_bind, wlp_bind, wlp_gets, wlp_ret. apply wlp_bind.
  eapply (wlp_mono _ (λ _ w', life w w' ∧ (∀ p', pipeline (dev (obj w')) = Some p' → mState p' ≠ PIPELINE_CLOSED) ∧
    (∀ p, pipeline (dev (obj w)) = Some p → mStreaming p = true → streams_configured (dev (obj w)) = true →
       ∃ p', pipeline (dev (obj w')) = Some p' ∧ mBufferCount p' = 0 ∧ mStreaming p' = false))).
  { apply wlp_if; intros Hc.
    - apply wlp_bind. apply andb_prop in Hc as [Hn _]. destruct (pipeline (dev (obj w))) as [p|] eqn:Hp; [|done].
      eapply (life_on_pipe _ (λ _ w', mState (obj w') ≠ PIPELINE_CLOSED ∧ mStreaming (obj w') = false ∧
        (mStreaming p = true → mBufferCount (obj w') = 0))); [done|apply mute_stop| |].
      + intros q Hq Hinv'. rewrite Hp in Hq. injection Hq as <-.
        eapply wlp_mono; [by apply stop_inv|]. intros r w' (? & _ & ? & ? & Hcl). split; [done|]. split; [|done].
        rewrite Hcl. by eapply hal_inv_pipe.
      + intros r w' p' Hl' Hp' (Hc' & Hs' & Hb'). apply wlp_ret. split; [done|]. split.
        * intros q Hq. rewrite Hp' in Hq. by injection Hq as <-.
        * intros q [= <-] Hst _. exists p'. split; [done|]. split; [by apply Hb'|done].
    - apply wlp_ret. split; [done|]. split; [intros; by eapply hal_inv_pipe|].
      intros p Hp _ Hsc. by rewrite Hp, Hsc in Hc. }
  intros _ w1 (Hl1 & Hc1 & Hb1). apply wlp_bind, wlp_modify, wlp_ret. split; [|split; [apply Hl1|done]].
  apply hal_inv_held; simpl; [|done|].
  - apply (stable_upd (obj w1)); [done|]. destruct w1. apply Hl1.
  - rewrite (life_tracker _ _ Hl1), Ht. done.
Qed.

(** ** Close *)

Lemma on_pipe_close_defined w :
  pipe_held w → is_Some (pipeline (dev (obj w))) → wp (on_pipe close) (λ _ _, True) w.
Proof.
  intros Hp [p Ep]. unfold pipe_held in Hp. rewrite Ep in Hp. unfold wp, on_pipe. rewrite Ep.
  pose proof (close_defined (World p (hist w))) as Hc. unfold wp in Hc.
  destruct (close _) as [[a w']|]; [done|]. apply Hc. split; apply Hp.
Qed.

Lemma wp_close_rule w0 w :
  life w0 w → is_Some (pipeline (dev (obj w))) →
  wp (on_pipe close) (λ _ w', life w0 w' ∧ ∃ p, pipeline (dev (obj w')) = Some p ∧ mState p = PIPELINE_CLOSED) w.
Proof.
  intros Hl Hp. eapply wp_mono; [apply wp_and; [apply on_pipe_close_defined; [apply Hl|done]|]|].
  - apply (close_rule w0 w (λ _ w', life w0 w' ∧ ∃ p, pipeline (dev (obj w')) = Some p ∧ mState p = PIPELINE_CLOSED) Hl).
    intros. eauto.
  - by intros a w' [_ ?].
Qed.

Lemma close_spec w :
  hal_inv w →
  ∃ w', camera_device_close w = Some (0, w') ∧ balanced (hist w') ∧
    completions (hist w') = completions (hist w) ∧ pipeline (dev (obj w')) = None ∧
    inflight_tracker (dev (obj w')) = None ∧ temp_rgba (dev (obj w')) = None.
Proof.
  intros Hinv. assert (wp camera_device_close (λ r w', r = 0 ∧ balanced (hist w') ∧
    completions (hist w') = completions (hist w) ∧ pipeline (dev (obj w')) = None ∧
    inflight_tracker (dev (obj w')) = None ∧ temp_rgba (dev (obj w')) = None) w) as Hw.
  2:{ apply wp_run in Hw as (r & w' & E & -> & Hrest). by exists w'. }
  unfold camera_device_close. do 5 (apply wp_bind; unfold wp at 1; simpl).
  set (w1 := World _ _).
  assert (pipe_held w1 ∧ hist w1 = hist w ∧ inflight_tracker (dev (obj w1)) = None ∧
    temp_rgba (dev (obj w1)) = None ∧ pipeline (dev (obj w1)) = pipeline (dev (obj w)))
    as (Hp1 & Hh1 & Ht1 & Hr1 & Hpp1).
  { assert (pipeline (dev (obj w1)) = pipeline (dev (obj w))) as Ep by (unfold w1; simpl; by case_match).
    split; [|split; [done|split; [done|split; [|done]]]].
    - apply (stable_upd (obj w)); [exact Ep|]. destruct w. by apply pipe_ok_held, Hinv.
    - unfold w1. simpl. destruct (temp_rgba (dev (obj w))) eqn:Ht; simpl; [done|exact Ht]. }
  clearbody w1. assert (life w1 w1) as Hl1 by done.
  assert (wp (match pipeline (dev (obj w1)) with Some _ => on_pipe close;; delete_pipeline | None => mret () end)
    (λ _ w', life w1 w' ∧ pipeline (dev (obj w')) = None) w1) as Hw.
  { destruct (pipeline (dev (obj w1))) as [p|] eqn:Hp; [|by unfold wp; simpl].
    apply wp_bind. eapply wp_mono; [apply (wp_close_rule w1 w1 Hl1); by rewrite Hp|].
    intros _ w2 [Hl2 (p2 & Hp2 & Hc2)].
    eapply wp_mono; [apply (wp_and _ (λ _ _, True)); [|apply (delete_rule w1 w2 (λ _ w', life w1 w' ∧ pipeline (dev (obj w')) = None) Hl2); auto]|].
    2:{ by intros a w' [_ ?]. }
    unfold delete_pipeline. apply wp_bind. eapply wp_mono; [apply (wp_close_rule w1 w2 Hl2); by rewrite Hp2|].
    intros _ w3 [_ (p3 & Hp3 & _)]. apply wp_bind. unfold wp at 1. simpl. apply wp_bind, wp_lift.
    exists p3. done. }
  apply wp_bind, wp_bind. unfold wp at 1. simpl. unfold wp at 1. simpl. apply wp_bind.
  eapply wp_mono; [exact Hw|]. intros _ w2 [[Hp2 Hd2 Hs2] Hn2]. unfold wp. simpl.
  unfold but_pipe in Hd2. injection Hd2 as ? ? ? ? Ht2 ? ? ? ? ? ? Hr2. split; [done|].
  split; [unfold pipe_held in Hp2; by rewrite Hn2 in Hp2|].
  split; [by rewrite Hs2, Hh1|]. split; [done|]. split; congruence.
Qed.
End Life.
