(* ===== verification/HalTheorems.v ===== *)
(** * Theorems on the device's operations

    Sequences of operations on a device, the choice of the pipeline's stream,
    and the state a flush leaves behind. *)

From S2P Require Import Prelude Monad Float32 Kernel Demosaic DemosaicSpec ColorConv InFlight Pipeline Isp Capture AutoFocus PipelineInv PipelineSpec Metadata HalMetadata MetadataSpec HalImage Jpeg Hal HalInv HalSpec HalLife.

#[local] Open Scope Z_scope.

(** ** Sequences of operations *)

Section Machine.
Context `{HE : HalEnv}.

Abbreviation HM := (ST (world hal)).

(** The operations of the framework on an open device; between two of them it
    may change its streams and buffers. *)
Inductive hal_op :=
| HInitialize (ops : option bool)
| HConfigure (config : option (list Z))
| HRequest (request : option camera3_capture_request)
| HFlush
| HFramework (streams : gmap Z camera3_stream) (mem : gmap Z (list Z)).

Definition run_hop (o : hal_op) : HM Z :=
  match o with
  | HInitialize ops => camera_device_initialize ops
  | HConfigure c => camera_device_configure_streams c
  | HRequest rq => camera_device_process_capture_request rq
  | HFlush => camera_device_flush
  | HFramework st m => updG (λ g, g <| g_streams := st |> <| g_mem := m |>);; mret 0
  end.

Inductive hal_step : world hal → world hal → Prop :=
| hal_step_op o r w w' : run_hop o w = Some (r, w') → hal_step w w'.

(** A device just opened. *)
Definition opened (id : Z) (g : globals) : world hal :=
  World (mkHal (camera_device_init <| camera_id := id |>) g) [].

Lemma opened_inv id g : hal_inv (opened id g).
Proof. by split. Qed.

Lemma hal_inv_upd (f : hal → hal) w :
  hal_inv w → (∀ s, pipeline (dev (f s)) = pipeline (dev s)) →
  (∀ s, inflight_tracker (dev (f s)) = inflight_tracker (dev s)) → hal_inv (World (f (obj w)) (hist w)).
Proof.
  intros [Hp Ht] E1 E2. split; [|simpl; congruence]. apply (stable_upd (obj w)); [apply E1|by destruct w].
Qed.

Lemma run_hop_inv o w : hal_inv w → wlp (run_hop o) (λ _ w', hal_inv w') w.
Proof.
  intros Hinv. destruct o as [ops|c|[rq|]| |st m]; simpl.
  - destruct ops as [b|]; [|by apply wlp_ret]. apply wlp_bind, wlp_modify, wlp_ret.
    by apply (hal_inv_upd (λ s, mkHal ((dev s) <| callback_ops := Some b |> <| is_initialized := true |>) (glob s))).
  - eapply wlp_mono; [by apply configure_spec|]. by intros r w' (? & _).
  - eapply wlp_mono; [by apply request_spec|]. by intros r w' [? _].
  - by apply wlp_ret.
  - eapply wlp_mono; [by apply flush_spec|]. by intros r w' (? & _).
  - apply wlp_bind, wlp_modify, wlp_ret.
    by apply (hal_inv_upd (λ s, mkHal (dev s) ((glob s) <| g_streams := st |> <| g_mem := m |>))).
Qed.

Lemma reachable_hal_inv id g w : rtc hal_step (opened id g) w → hal_inv w.
Proof.
  intros Hs. assert (hal_inv (opened id g)) as Hi by apply opened_inv.
  induction Hs as [|w1 w2 w3 [o r ? ? E] _ IH]; [done|]. apply IH.
  pose proof (run_hop_inv o _ Hi) as Hw. rewrite wlp_run in Hw. eauto.
Qed.

Fixpoint run_hops (os : list hal_op) (w : world hal) : option (world hal) :=
  match os with
  | [] => Some w
  | o :: os' => match run_hop o w with Some (_, w') => run_hops os' w' | None => None end
  end.

Lemma run_hops_steps os w w' : run_hops os w = Some w' → rtc hal_step w w'.
Proof.
  revert w. induction os as [|o os IH]; intros w E; simpl in E; [by injection E as <-|].
  destruct (run_hop o w) as [[r w1]|] eqn:E1; [|done]. eapply rtc_l; [by econstructor|]. auto.
Qed.

(** C2: between any two operations of any session nothing is in flight, a
    pipeline the device has is open and satisfies its own invariant (so every
    descriptor and mapping is accounted for), and a device without a pipeline
    holds nothing; in particular no frame is ever marked as flushed when a
    request for it arrives or completes. *)
Theorem device_invariant id g w (Hreach : rtc hal_step (opened id g) w) :
  hal_inv w ∧ ∀ f, isError f (default ∅ (inflight_tracker (dev (obj w)))) = false.
Proof.
  pose proof (reachable_hal_inv _ _ _ Hreach) as Hinv. split; [done|]. destruct Hinv as [_ ->]. done.
Qed.

(** C3: closing the device from any state of any session is defined, returns
    0, sends nothing to the framework and releases everything: the pipeline,
    the tracker and the frame buffer are gone, and every descriptor opened
    and every buffer mapped during the session has been released exactly as
    often as it was acquired. *)
Theorem device_close_releases id g w (Hreach : rtc hal_step (opened id g) w) :
  ∃ w', camera_device_close w = Some (0, w') ∧ balanced (hist w') ∧
    completions (hist w') = completions (hist w) ∧ pipeline (dev (obj w')) = None ∧
    inflight_tracker (dev (obj w')) = None ∧ temp_rgba (dev (obj w')) = None.
Proof. apply close_spec. by eapply reachable_hal_inv. Qed.

(** C4: configuring the streams either installs a pipeline or leaves none.
    On success there is an output stream of the configuration, no BLOB stream,
    whose size is now the recorded one, and the device has a pipeline: the old
    one, still streaming and recorded with that very size, or a new one
    configured for this camera at that size and streaming.  In both cases the
    pipeline works at the size asked for if the old one worked at the size
    recorded with it.  On failure it has none and holds no descriptor and no
    mapping, except that a configuration refused with -EINVAL leaves the old
    pipeline in place.  Nothing is sent to the framework. *)
Theorem configure_streams_outcome cfg w (Hinv : hal_inv w) :
  wlp (camera_device_configure_streams cfg) (λ r w', hal_inv w' ∧
    completions (hist w') = completions (hist w) ∧ configured cfg w w' r) w.
Proof. by apply configure_spec. Qed.
End Machine.

(** ** The choice of the pipeline's stream *)

Section Selection.
Context `{HE : HalEnv}.

Definition is_output (e : Z * camera3_stream) : bool := stream_type e.2 =? CAMERA3_STREAM_OUTPUT.
Definition is_blob (e : Z * camera3_stream) : bool := s_format e.2 =? HAL_PIXEL_FORMAT_BLOB.

(** The output streams that are no BLOB streams, in order. *)
Definition image_outputs (es : list (Z * camera3_stream)) : list (Z * camera3_stream) :=
  filter (λ e, is_output e && negb (is_blob e) = true) es.

(** The first of them; an RGBA stream that directly follows a leading
    IMPLEMENTATION_DEFINED one takes its place. *)
Definition pick (es : list (Z * camera3_stream)) : option Z :=
  match es with
  | [] => None
  | [(a, _)] => Some a
  | (a, s) :: (b, t) :: _ =>
      if (s_format s =? HAL_PIXEL_FORMAT_IMPLEMENTATION_DEFINED) && (s_format t =? HAL_PIXEL_FORMAT_RGBA_8888)
      then Some b else Some a
  end.

Definition fold_select (es : list (Z * camera3_stream)) (l : selection) : selection :=
  foldl (λ l e, if is_output e then select_stream e.1 e.2 l else l) l es.

Lemma bind_eq {S A B} (m : ST S A) (k : A → ST S B) w a w' : m w = Some (a, w') → (m ≫= k) w = k a w'.
Proof. intros E. unfold mbind, ST_bind. by rewrite E. Qed.

Lemma the_stream_eq a s w : g_streams (glob (obj w)) !! a = Some s → the_stream (Some a) w = Some (s, w).
Proof. intros E. unfold the_stream, mbind, ST_bind. simpl. by rewrite E. Qed.

Lemma set_stream_eq a s w : set_stream a s w =
  Some ((), World (mkHal (dev (obj w)) ((glob (obj w)) <| g_streams := <[a := s]> (g_streams (glob (obj w))) |>)) (hist w)).
Proof. done. Qed.

(** Two stores agree up to the buffer counts. *)
Definition same_streams (g g' : gmap Z camera3_stream) : Prop :=
  ∀ a s, g !! a = Some s → ∃ k, g' !! a = Some (s <| max_buffers := k |>).

Lemma same_streams_refl g : same_streams g g.
Proof. intros a s E. exists (max_buffers s). rewrite E. by destruct s. Qed.
Lemma same_streams_insert g a s k : g !! a = Some s → same_streams g (<[a := s <| max_buffers := k |>]> g).
Proof.
  intros E b t Eb. destruct (decide (a = b)) as [<-|Hne].
  - exists k. rewrite lookup_insert_eq. congruence.
  - rewrite lookup_insert_ne by done. by apply same_streams_refl.
Qed.
Lemma same_streams_trans g1 g2 g3 : same_streams g1 g2 → same_streams g2 g3 → same_streams g1 g3.
Proof. intros S1 S2 a s (k & E)%S1. apply S2 in E as (k' & E). by exists k'. Qed.

(** The loop computes the fold, unless a stream has no extent. *)
Lemma select_streams_fold ids ss l w :
  NoDup ids → Forall2 (λ a s, g_streams (glob (obj w)) !! a = Some s) ids ss →
  Forall (λ s, s_width s ≠ 0 ∧ s_height s ≠ 0) ss →
  ∃ w', select_streams ids l w = Some (Some (fold_select (zip ids ss) l), w') ∧
    dev (obj w') = dev (obj w) ∧ hist w' = hist w ∧
    same_streams (g_streams (glob (obj w))) (g_streams (glob (obj w'))).
Proof.
  revert ss l w. induction ids as [|a ids IH]; intros ss l w Hnd Hl He.
  - inversion Hl; subst. exists w. split_and!; try done. apply same_streams_refl.
  - inversion Hl as [|? s ? ss' Es Hl']; subst. inversion He as [|? ? [Hw Hh] He']; subst.
    apply NoDup_cons in Hnd as [Ha Hnd]. cbn [select_streams].
    rewrite (bind_eq _ _ _ _ _ (the_stream_eq a s w Es)).
    rewrite (proj2 (Z.eqb_neq _ _) Hw), (proj2 (Z.eqb_neq _ _) Hh). cbn [orb].
    cbn [zip zip_with fold_select foldl]. unfold fold_select. cbn [foldl].
    change (is_output (a, s)) with (stream_type s =? CAMERA3_STREAM_OUTPUT).
    destruct (stream_type s =? CAMERA3_STREAM_OUTPUT); [|by apply IH].
    rewrite (bind_eq _ _ _ _ _ (set_stream_eq a _ w)).
    destruct (IH ss' (select_stream a s l) (World (mkHal (dev (obj w)) ((glob (obj w))
      <| g_streams := <[a := s <| max_buffers := 2 |>]> (g_streams (glob (obj w))) |>)) (hist w)))
      as (w' & E & Hd & Hh' & Hk); [done| |done|].
    { simpl. clear -Hl' Ha. induction Hl' as [|b t ids ss Eb Hl IH]; constructor.
      - rewrite lookup_insert_ne; [done|]. intros ->. apply Ha. by left.
      - apply IH. intros ?. apply Ha. by right. }
    exists w'. split_and!; try done. eapply same_streams_trans; [|exact Hk]. by apply same_streams_insert.
Qed.

(** What the fold chooses, from a selection that has chosen nothing yet
    ([r = None]) or an IMPLEMENTATION_DEFINED stream [r]. *)
Lemma fold_select_done es l :
  is_Some (pipelineStream l) →
  pipelineStream (fold_select es l) = pipelineStream l ∧ rgbaStream (fold_select es l) = rgbaStream l.
Proof.
  revert l. induction es as [|[a s] es IH]; intros l [x Hx]; [done|]. unfold fold_select. cbn [foldl].
  fold (fold_select es (if is_output (a, s) then select_stream (a, s).1 (a, s).2 l else l)).
  assert (∀ l', pipelineStream l' = pipelineStream l → rgbaStream l' = rgbaStream l →
    pipelineStream (fold_select es l') = pipelineStream l ∧ rgbaStream (fold_select es l') = rgbaStream l) as Hl.
  { intros l' E1 E2. rewrite <- E1, <- E2. apply IH. rewrite E1, Hx. done. }
  destruct (is_output (a, s)); [|by apply Hl]. unfold select_stream. cbn [fst snd].
  assert (is_none (pipelineStream l) = false) as Hn by by rewrite Hx.
  destruct (s_format s =? HAL_PIXEL_FORMAT_BLOB); simpl; rewrite Hn; simpl; by apply Hl.
Qed.

Lemma fold_select_cons a s es l :
  fold_select ((a, s) :: es) l = fold_select es (if is_output (a, s) then select_stream a s l else l).
Proof. done. Qed.

Lemma image_outputs_cons a s es :
  image_outputs ((a, s) :: es) =
  if is_output (a, s) && negb (is_blob (a, s)) then (a, s) :: image_outputs es else image_outputs es.
Proof. unfold image_outputs. rewrite filter_cons. by destruct (_ && _). Qed.

(** A stream that is no image output does not change the choice. *)
Lemma select_skip a s l :
  is_output (a, s) && negb (is_blob (a, s)) = false →
  ∃ o b, (if is_output (a, s) then select_stream a s l else l) = mkSel (pipelineStream l) o (rgbaStream l) b.
Proof.
  intros Hs. destruct (is_output (a, s)); [|by destruct l; eauto]. unfold select_stream.
  change (s_format s =? HAL_PIXEL_FORMAT_BLOB) with (is_blob (a, s)). simpl in Hs.
  apply negb_false_iff in Hs. rewrite Hs. cbn [negb]. rewrite andb_false_r. eauto.
Qed.

Ltac settled := unfold chosen;
  match goal with |- context [fold_select ?es ?l] =>
    let E1 := fresh in let E2 := fresh in
    destruct (fold_select_done es l) as [E1 E2]; [done|]; rewrite ?E1, ?E2; simpl
  end.

Lemma chosen_after_impl es o b r :
  chosen (fold_select es (mkSel None o (Some r) b)) =
  match image_outputs es with
  | (a, s) :: _ => if s_format s =? HAL_PIXEL_FORMAT_RGBA_8888 then Some a else Some r
  | [] => Some r
  end.
Proof.
  revert o b. induction es as [|[a s] es IH]; intros o b; [done|].
  rewrite fold_select_cons, image_outputs_cons.
  destruct (is_output (a, s) && negb (is_blob (a, s))) eqn:Hs.
  - apply andb_prop in Hs as [-> Hb]. apply negb_true_iff in Hb. unfold is_blob in Hb. cbn [snd] in Hb.
    unfold select_stream. rewrite Hb. simpl.
    destruct (s_format s =? HAL_PIXEL_FORMAT_RGBA_8888); simpl; by settled.
  - destruct (select_skip a s (mkSel None o (Some r) b) Hs) as (o' & b' & ->). apply IH.
Qed.

Lemma chosen_pick es o b : chosen (fold_select es (mkSel None o None b)) = pick (image_outputs es).
Proof.
  revert o b. induction es as [|[a s] es IH]; intros o b; [done|].
  rewrite fold_select_cons, image_outputs_cons.
  destruct (is_output (a, s) && negb (is_blob (a, s))) eqn:Hs.
  - apply andb_prop in Hs as [-> Hb]. apply negb_true_iff in Hb. unfold is_blob in Hb. cbn [snd] in Hb.
    unfold select_stream. rewrite Hb. simpl.
    destruct (s_format s =? HAL_PIXEL_FORMAT_RGBA_8888) eqn:Hr; simpl.
    + settled. destruct (image_outputs es) as [|[c t] ?]; [done|].
      destruct (s_format s =? HAL_PIXEL_FORMAT_IMPLEMENTATION_DEFINED) eqn:Hi; [|done].
      zbool. rewrite Hr in Hi. discriminate Hi.
    + destruct (s_format s =? HAL_PIXEL_FORMAT_IMPLEMENTATION_DEFINED) eqn:Hi; simpl.
      * etransitivity; [apply (chosen_after_impl es (Some a) b a)|]. by destruct (image_outputs es) as [|[c t] ?].
      * settled. by destruct (image_outputs es) as [|[c t] ?].
  - destruct (select_skip a s (mkSel None o None b) Hs) as (o' & b' & ->). apply IH.
Qed.

(** Which stream the pipeline runs at.  For every list of distinct
    streams with an extent, the loop chooses the first output stream that is
    no BLOB stream, except that an RGBA stream takes the place of a leading
    IMPLEMENTATION_DEFINED one when it is the next; a YUV stream that comes
    first is kept although RGBA streams follow.  The loop changes nothing but
    the buffer counts of the streams. *)
Theorem pipeline_stream_choice ids ss w (Hnd : NoDup ids)
  (Hl : Forall2 (λ a s, g_streams (glob (obj w)) !! a = Some s) ids ss)
  (He : Forall (λ s, s_width s ≠ 0 ∧ s_height s ≠ 0) ss) :
  ∃ l w', select_streams ids (mkSel None None None None) w = Some (Some l, w') ∧
    chosen l = pick (image_outputs (zip ids ss)) ∧ dev (obj w') = dev (obj w) ∧ hist w' = hist w ∧
    same_streams (g_streams (glob (obj w))) (g_streams (glob (obj w'))).
Proof.
  destruct (select_streams_fold ids ss (mkSel None None None None) w Hnd Hl He) as (w' & E & Hd & Hh & Hk).
  eexists _, w'. split; [exact E|]. split; [apply chosen_pick|done].
Qed.

(** A configuration without an image stream crashes the process: with
    only BLOB (or input) streams the chosen stream is a null pointer, which
    the code dereferences. *)
Theorem blob_only_crashes ids ss w (Hnd : NoDup ids) (Hn : 0 < blen ids <= 20)
  (Hl : Forall2 (λ a s, g_streams (glob (obj w)) !! a = Some s) ids ss)
  (He : Forall (λ s, s_width s ≠ 0 ∧ s_height s ≠ 0) ss)
  (Hb : image_outputs (zip ids ss) = []) :
  camera_device_configure_streams (Some ids) w = None.
Proof.
  destruct (select_streams_fold ids ss (mkSel None None None None) w Hnd Hl He) as (w' & E & Hd & Hh & Hk).
  unfold camera_device_configure_streams.
  assert ((blen ids =? 0) || (blen ids >? 20) = false) as ->.
  { apply orb_false_intro; [apply Z.eqb_neq; lia|]. destruct (Z.gtb_spec (blen ids) 20); [lia|done]. }
  rewrite (bind_eq _ _ _ _ _ E). unfold mbind, ST_bind. simpl. unfold the_stream, mbind, ST_bind. simpl.
  by rewrite chosen_pick, Hb.
Qed.
End Selection.

(** ** Buffers *)

(** What the framework reads from the last eight bytes of a BLOB buffer. *)
Definition read_footer (m : list Z) (blobSize : Z) : Z * Z :=
  let b k := bget m (blobSize - 8 + k) in
  (b 0 + 256 * b 1, b 4 + 256 * b 5 + 65536 * b 6 + 16777216 * b 7).

Lemma le4_value z : 0 <= z < 2 ^ 32 →
  z mod 256 + 256 * (z / 256 mod 256) + 65536 * (z / 256 / 256 mod 256) +
  16777216 * (z / 256 / 256 / 256 mod 256) = z.
Proof.
  intros. rewrite (Z.mod_small (z / 256 / 256 / 256)).
  - pose proof (Z.div_mod z 256). pose proof (Z.div_mod (z / 256) 256). pose proof (Z.div_mod (z / 256 / 256) 256). lia.
  - rewrite !Z.div_div by lia. split; [apply Z.div_pos; lia|apply Z.div_lt_upper_bound; lia].
Qed.

(** The footer of a BLOB buffer.  The framework reads back the JPEG
    marker and exactly the size of the JPEG from the last eight bytes, bytes
    in front of the footer are not touched, and the JPEG itself survives when
    it ends before the footer; the encoder is given the whole buffer, so a
    JPEG longer than that is overwritten by its own footer. *)
Theorem blob_footer_roundtrip m m' pad blobSize jpegSize (Hb : 8 <= blobSize)
  (Hz : 0 <= jpegSize < 2 ^ 32) (Hm : stn m (blobSize - 8) (jpeg_blob pad jpegSize) = Some m') :
  read_footer m' blobSize = (CAMERA3_JPEG_BLOB_ID, jpegSize) ∧ blobSize <= blen m ∧
  (∀ j, j < blobSize - 8 → ld m' j = ld m j) ∧
  (jpegSize <= blobSize - 8 → ∀ j, j < jpegSize → ld m' j = ld m j).
Proof.
  pose proof (stn_in_bounds _ _ _ _ Hm) as [_ Hl]. apply stn_spec in Hm as [Hlen Hld].
  change (blen (jpeg_blob pad jpegSize)) with 8 in *.
  assert (∀ j, j < blobSize - 8 → ld m' j = ld m j) as Hfront.
  { intros j Hj. by rewrite Hld, bool_decide_false by lia. }
  split; [|split; [lia|split; [exact Hfront|intros ? j ?; apply Hfront; lia]]].
  assert (∀ k, 0 <= k < 8 → bget m' (blobSize - 8 + k) = bget (jpeg_blob pad jpegSize) k) as Hk.
  { intros k ?. unfold bget. rewrite Hld, bool_decide_true by lia. do 2 f_equal. lia. }
  unfold read_footer. rewrite !Hk by lia. f_equal. apply (le4_value jpegSize Hz).
Qed.

Lemma blob_footer_roundtrip_witness :
  ∃ m', stn (replicate 12 7) 4 (jpeg_blob (0, 0) 4) = Some m' ∧ read_footer m' 12 = (0xFF, 4) ∧ ld m' 3 = Some 7.
Proof.
  assert (∃ m', stn (replicate 12 7) (12 - 8) (jpeg_blob (0, 0) 4) = Some m') as [m' E]
    by (eexists; vm_compute; reflexivity).
  destruct (blob_footer_roundtrip (replicate 12 7) m' (0, 0) 12 4 ltac:(lia) ltac:(lia) E) as (Hf & _ & Hj & _).
  exists m'. split; [exact E|]. split; [exact Hf|]. rewrite Hj by lia. reflexivity.
Defined.

Section Guard.
Context `{HE : HalEnv}.

(** A fault inside a gralloc lock does not escape the request.  When the
    lock of an output buffer faults, the guard is armed, so the handler counts
    the fault and returns to the guard; the output is skipped without an early
    return, [frameCaptured] keeps its value, the device, its pipeline and
    every buffer are as before, the only call made was the lock, and the guard
    is disarmed again. *)
Theorem lock_fault_contained y handle s c w
  (Hf : env_lock (hist w) y handle GRALLOC_USAGE_SW_WRITE_OFTEN (s_width s) (s_height s) = LockFault) :
  ∃ w', capture_direct y handle s c w = Some ((None, c), w') ∧ dev (obj w') = dev (obj w) ∧
    g_mem (glob (obj w')) = g_mem (glob (obj w)) ∧ guard_armed (glob (obj w')) = false ∧
    caught_total (glob (obj w')) = i32 (caught_total (glob (obj w)) + 1) ∧
    hist w' = ELock y handle GRALLOC_USAGE_SW_WRITE_OFTEN (s_width s) (s_height s) LockFault :: hist w.
Proof.
  destruct w as [[d g] h]. simpl in Hf.
  unfold capture_direct, run_guarded, ensure_installed, segv_handler, gralloc_lock, updG, upd, getG, get,
    call, mbind, ST_bind, modify, gets. simpl. rewrite Hf. simpl. by eexists.
Qed.
End Guard.
