(* ===== verification/HalStarve.v ===== *)
(** * What a flush leaves behind

    [flush] stops the stream, which unmaps the buffers; the next request
    starts the stream again with no buffer queued, so no frame arrives any
    more. *)

From S2P Require Import Prelude Monad Float32 Kernel Demosaic DemosaicSpec ColorConv InFlight Pipeline Isp Capture AutoFocus PipelineInv PipelineSpec Metadata HalMetadata MetadataSpec HalImage Jpeg Hal HalInv HalSpec HalLife HalTheorems.

#[local] Open Scope Z_scope.

(** The device has a pipeline without buffers. *)
Definition starved (w : world hal) : Prop :=
  ∃ p, pipeline (dev (obj w)) = Some p ∧ mBufferCount p = 0.

#[export] Instance starved_stable : Stable starved.
Proof. split; unfold starved; simpl; [done|]. intros s s' h ->. done. Qed.

#[export] Instance starved_pipe_stable : PipeStable starved.
Proof.
  intros s p h w' Hp (q & Hq & H0) [[= _ _ _ _ _ Eb] _]. simpl in *. exists (obj w'). split; [done|].
  simpl in Eb. congruence.
Qed.

(** The memory behind the gralloc buffers. *)
Definition mem_view (s : hal) : gmap Z (list Z) := g_mem (glob s).

#[export] Instance mem_view_blind : PipeBlind mem_view.
Proof. by intros s p q E. Qed.

(** No message of a captured frame. *)
Definition not_ok (e : event) : Prop :=
  match e with
  | ENotifyShutter _ _ => False
  | EResult _ meta statuses _ => meta = None ∧ Forall (λ s, s = CAMERA3_BUFFER_STATUS_ERROR) statuses
  | _ => True
  end.

Definition starving (w w' : world hal) : Prop :=
  starved w' ∧ g_mem (glob (obj w')) = g_mem (glob (obj w)) ∧
  ∃ evs, hist w' = evs ++ hist w ∧ Forall not_ok evs.

Lemma starving_refl w : starved w → starving w w.
Proof. intros ?. split; [done|]. split; [done|]. by exists []. Qed.
Lemma starving_trans w1 w2 w3 : starving w1 w2 → starving w2 w3 → starving w1 w3.
Proof.
  intros (_ & E1 & l1 & Eh1 & F1) (I3 & E2 & l2 & Eh2 & F2). split; [done|]. split; [congruence|].
  exists (l2 ++ l1). rewrite Eh2, Eh1, app_assoc. split; [done|]. by apply Forall_app.
Qed.
Lemma starving_steps w w' : hsteps starved mem_view w w' → starving w w'.
Proof.
  intros (Hs & Hm & evs & Eh & Hn). split; [done|]. split; [done|]. exists evs. split; [done|].
  eapply Forall_impl; [exact Hn|]. by intros [].
Qed.

Section Starve.
Context `{HE : HalEnv, !ErrnoPositive}.

Abbreviation HM := (ST (world hal)).
Abbreviation Hungry := (HKeeps starved mem_view).

(** A capture without buffers fails and leaves the output alone. *)
Lemma poll_loop_fails fd n w :
  wlp (poll_loop fd n) (λ r _, match r with Some e => e ≠ 0 | None => True end) w.
Proof.
  revert w. induction n as [|n IH]; intros w; simpl; [by apply wlp_ret|].
  apply wlp_bind, wlp_call. destruct (k_poll _ _ _) as [[pr rev]|e] eqn:E.
  - destruct (pr =? 0); [destruct n; [by apply wlp_ret|apply IH]|].
    destruct (_ =? 0); by apply wlp_ret.
  - apply wlp_ret. apply errno_poll in E. lia.
Qed.

Lemma starved_capture_fails out fmt w :
  mBufferCount (obj w) = 0 →
  wlp (captureFrame (Some out) fmt) (λ r _, r.1 ≠ 0 ∧ r.2 = Some out) w.
Proof.
  intros Hb0. unfold captureFrame. apply wlp_bind, wlp_gets.
  destruct (mState (obj w)); [by apply wlp_ret..|]. apply wlp_bind.
  eapply wlp_mono; [apply wlp_both; [apply poll_loop_fails|apply quiet_poll_loop]|].
  intros [e|] w1 [He [[= _ _ _ _ _ Eb1] _]]; [by apply wlp_ret|].
  apply wlp_bind, wlp_call. destruct (k_dqbuf _ _) as [b|e] eqn:Ed.
  2:{ apply wlp_ret. split; [|done]. apply errno_dqbuf in Ed. cbn. destruct (e =? EAGAIN); unfold EAGAIN; lia. }
  apply wlp_bind, quiet_rule; [apply quiet_update_timing|]. intros [] w3 [[= _ _ _ _ _ Eb3] _].
  apply wlp_bind, wlp_gets. simpl in Eb3. assert (mBufferCount (obj w3) = 0) as -> by congruence.
  change (u32 0) with 0. apply wlp_if; intros Hi; [by apply wlp_ret|]. zbool.
  apply wlp_bind. unfold getBuf. apply wlp_bind, wlp_gets, wlp_lift. intros c Hc.
  pose proof (ld_Some_bounds _ _ _ Hc). lia.
Qed.

Lemma hungry_capture {B} out fmt w (k : Z * option (list Z) → HM B) (Q : B → world hal → Prop) :
  starved w →
  (∀ r w', r ≠ 0 → starving w w' → wlp (k (r, Some out)) Q w') →
  wlp (on_pipe (captureFrame (Some out) fmt) ≫= k) Q w.
Proof.
  intros Hs Hk. apply wlp_bind. destruct Hs as (p & Hp & H0').
  pose proof (hkeeps_captureFrame starved mem_view (Some out) fmt w) as Hq.
  assert (wlp (on_pipe (captureFrame (Some out) fmt)) (λ r _, r.1 ≠ 0 ∧ r.2 = Some out) w) as Hf.
  { apply wlp_on_pipe. intros q Hq'. apply starved_capture_fails. simpl. congruence. }
  eapply wlp_mono; [apply wlp_both; [exact Hf|apply Hq; by exists p]|].
  intros [r o] w' [[Hr Ho] Hst]. simpl in *. subst o. apply Hk; [done|]. by apply starving_steps.
Qed.

Lemma hungry_temp : Hungry ensure_temp_rgba.
Proof. unfold ensure_temp_rgba. hkeeps. Qed.
Lemma hungry_start : Hungry (on_pipe startStreaming).
Proof.
  intros [s h] (p & Hp & H0'). apply wlp_on_pipe. simpl. intros q Hq. eapply wlp_mono; [apply keeps_start|].
  intros a w' [[= Efd Eb] Hev]. simpl in *. split; [|split; [done|exact Hev]].
  exists (obj w'). split; [done|]. congruence.
Qed.
Lemma hungry_af_settings rq : Hungry (handle_af_settings rq).
Proof. unfold handle_af_settings. hkeeps. Qed.
Lemma hungry_af_scan rq : Hungry (handle_af_scan rq).
Proof. unfold handle_af_scan. hkeeps. Qed.
Lemma hungry_gralloc : Hungry get_gralloc_module.
Proof. unfold get_gralloc_module. hkeeps. Qed.

Lemma hungry_rule {A} (m : HM A) w (Q : A → world hal → Prop) :
  Hungry m → starved w → (∀ a w', starving w w' → Q a w') → wlp m Q w.
Proof.
  intros Hm Hs HQ. eapply wlp_mono; [by apply Hm|]. intros a w' H'. by apply HQ, starving_steps.
Qed.

Lemma starving_updD f w :
  starved w → (∀ d, pipeline (f d) = pipeline d) →
  starving w (World (mkHal (f (dev (obj w))) (glob (obj w))) (hist w)).
Proof.
  intros (p & Hp & H0') Hf. split; [exists p; simpl; by rewrite Hf|]. split; [done|]. by exists [].
Qed.

Lemma starving_starved w w' : starving w w' → starved w'.
Proof. by intros [? _]. Qed.

Lemma starve_blob h s c w :
  starved w → wlp (capture_blob h s c) (λ r w', r.2 = c ∧ starving w w') w.
Proof.
  intros Hs. unfold capture_blob. apply wlp_bind, (hungry_rule _ _ _ hungry_temp Hs). intros _ w1 S1.
  apply wlp_bind, wlp_bind, wlp_gets, wlp_ret. destruct (temp_rgba _) as [t|]; [|by apply wlp_ret].
  apply hungry_capture; [by eapply starving_starved|]. intros r w2 Hr S2. cbn beta iota.
  apply wlp_bind, wlp_modify. pose proof (starving_updD (λ d, d <| temp_rgba := Some t |>) w2
    (starving_starved _ _ S2) ltac:(done)) as S3.
  pose proof (starving_trans _ _ _ S1 (starving_trans _ _ _ S2 S3)) as S.
  rewrite (proj2 (Z.eqb_neq _ _) Hr). destruct (r =? - EAGAIN); by apply wlp_ret.
Qed.

Lemma hungry_guard_upd f w :
  starved w → (∀ g, g_mem (f g) = g_mem g) →
  starving w (World (mkHal (dev (obj w)) (f (glob (obj w)))) (hist w)).
Proof.
  intros (p & Hp & H0') Hf. split; [by exists p|]. split; [apply Hf|]. by exists [].
Qed.

(** The guard around a section that does not capture. *)
Lemma starve_guarded {A} (v : A) fn (R : A → Prop) w :
  starved w → R v →
  (∀ w, starved w → wlp fn (λ r w', match r with Some a => R a | None => True end ∧ starving w w') w) →
  wlp (run_guarded v fn) (λ r w', R r.2 ∧ starving w w') w.
Proof.
  intros Hs Hv Hfn. unfold run_guarded, ensure_installed. apply wlp_bind, wlp_modify, wlp_bind, wlp_modify.
  set (w1 := World _ _).
  assert (starving w w1) as S1.
  { apply (hungry_guard_upd (λ g, g <| guard_installed := true |> <| guard_armed := true |>) w Hs). done. }
  clearbody w1. apply wlp_bind. eapply wlp_mono; [apply Hfn; by eapply starving_starved|].
  intros [a|] w2 [Ha S2]; pose proof (starving_trans _ _ _ S1 S2) as S.
  - apply wlp_bind, wlp_modify, wlp_ret. split; [done|]. eapply starving_trans; [exact S|].
    apply (hungry_guard_upd (λ g, g <| guard_armed := false |>)); [by eapply starving_starved|done].
  - apply wlp_bind. unfold segv_handler. apply wlp_bind, wlp_bind, wlp_gets, wlp_ret.
    apply wlp_if; intros _; [|done]. apply wlp_modify, wlp_bind, wlp_modify, wlp_ret. split; [done|].
    eapply starving_trans; [exact S|].
    apply (hungry_guard_upd (λ g, g <| caught_total := i32 (caught_total g + 1) |> <| guard_armed := false |>) w2);
      [by eapply starving_starved|done].
Qed.

Lemma starve_direct y h s c w :
  starved w → wlp (capture_direct y h s c) (λ r w', r.2 = c ∧ starving w w') w.
Proof.
  intros Hs. unfold capture_direct. apply wlp_bind.
  eapply wlp_mono; [apply (starve_guarded (0, c) _ (λ v, v.2 = c) w Hs); [done|]|].
  - clear w Hs. intros w Hs. apply wlp_bind, (hungry_rule _ _ _ (hkeeps_lock _ _ _ _ _ _ _) Hs).
    intros r w1 S1. destruct r as [|e|[a|]]; [by apply wlp_ret..| |by apply wlp_ret].
    apply wlp_bind. unfold mem_get. apply wlp_bind, wlp_bind, wlp_gets, wlp_ret, wlp_lift. intros m Hm.
    apply hungry_capture; [by eapply starving_starved|]. intros r w2 Hr S2. cbn beta iota.
    apply wlp_bind, wlp_modify. cbn [default]. set (w3 := World _ _).
    assert (starving w2 w3) as S3.
    { apply (starving_starved _ _) in S2 as Hs2. split; [done|]. split; [|by exists []]. simpl.
      apply insert_id. destruct S2 as (_ & -> & _). exact Hm. }
    clearbody w3. apply wlp_bind, (hungry_rule _ _ _ (hkeeps_unlock _ _ _) (starving_starved _ _ S3)).
    intros _ w4 S4. apply wlp_ret. rewrite (proj2 (Z.eqb_neq _ _) Hr). split; [done|].
    exact (starving_trans _ _ _ S1 (starving_trans _ _ _ S2 (starving_trans _ _ _ S3 S4))).
  - intros [st [cr c']] w' [Hc S]. apply wlp_ret. done.
Qed.

Lemma starve_output b l w :
  starved w → wlp (capture_output b l) (λ r w', r.2.1 = l.1 ∧ starving w w') w.
Proof.
  intros Hs. unfold capture_output. destruct (sb_buffer b) as [h|]; [|apply wlp_ret; split; [done|by apply starving_refl]].
  apply wlp_bind. eapply (hungry_rule _ w); [|done|]. { hkeeps. }
  intros _ w1 S1. apply wlp_bind, (hungry_rule _ _ _ (hkeeps_stream _ _ _) (starving_starved _ _ S1)).
  intros s w2 S2. destruct (s_format s =? HAL_PIXEL_FORMAT_BLOB); apply wlp_bind;
    (eapply wlp_mono; [first [apply starve_blob|apply starve_direct]; by eapply starving_starved|]);
    intros [e c] w3 [Hc S3]; apply wlp_ret; (split; [done|]);
    exact (starving_trans _ _ _ S1 (starving_trans _ _ _ S2 S3)).
Qed.

Lemma starve_outputs bufs l w :
  starved w → wlp (capture_outputs bufs l) (λ r w', r.2.1 = l.1 ∧ starving w w') w.
Proof.
  revert l w. induction bufs as [|b bufs IH]; intros l w Hs; simpl.
  - apply wlp_ret. split; [done|by apply starving_refl].
  - apply wlp_bind. eapply wlp_mono; [by apply starve_output|]. intros [[e|] l'] w1 [Hl S1]; simpl in Hl.
    + by apply wlp_ret.
    + eapply wlp_mono; [apply IH; by eapply starving_starved|]. intros r w2 [Hr S2].
      split; [congruence|]. exact (starving_trans _ _ _ S1 S2).
Qed.

Lemma starve_request_outputs rq w :
  starved w → wlp (capture_request_outputs rq) (λ r w', r.2.1 = false ∧ starving w w') w.
Proof.
  intros Hs. unfold capture_request_outputs. apply wlp_bind, wlp_bind, wlp_gets, wlp_ret.
  apply wlp_if; intros _; [apply wlp_ret; split; [done|by apply starving_refl]|].
  apply wlp_bind, (hungry_rule _ _ _ (hkeeps_getState _ _) Hs). intros st w1 S1.
  apply wlp_bind. eapply (hungry_rule _ w1); [|by eapply starving_starved|].
  { destruct (bool_decide _); [apply hungry_start|apply HKeeps_ret]. }
  intros r w2 S2. pose proof (starving_trans _ _ _ S1 S2) as S12. apply wlp_if; intros _; [by apply wlp_ret|].
  apply wlp_bind, (hungry_rule _ _ _ hungry_gralloc (starving_starved _ _ S2)). intros ok w3 S3.
  pose proof (starving_trans _ _ _ S12 S3) as S13. destruct ok; [|by apply wlp_ret].
  apply wlp_bind, wlp_lift. intros bufs _. eapply wlp_mono; [apply starve_outputs; by eapply starving_starved|].
  intros x w4 [Hx S4]. split; [done|]. exact (starving_trans _ _ _ S13 S4).
Qed.

Lemma starve_proactive rq b c w :
  starved w → wlp (proactive_jpeg rq b c) (λ r w', r = c ∧ starving w w') w.
Proof.
  intros Hs. unfold proactive_jpeg. apply wlp_bind, wlp_bind, wlp_gets, wlp_ret.
  assert (wlp (mret c) (λ r w', r = c ∧ starving w w') w) as Hret.
  { apply wlp_ret. split; [done|by apply starving_refl]. }
  destruct (blob_stream _) as [bs|]; [|exact Hret]. destruct (settings rq) as [m|]; [|exact Hret].
  destruct (pipeline _) as [p|]; [|exact Hret]. apply wlp_if; intros _; [exact Hret|].
  apply wlp_bind, (hungry_rule _ _ _ hungry_temp Hs). intros _ w1 S1.
  apply wlp_bind, wlp_bind, wlp_gets, wlp_ret. destruct (temp_rgba _) as [t|]; [|by apply wlp_ret].
  apply hungry_capture; [by eapply starving_starved|]. intros r w2 Hr S2. cbn beta iota.
  apply wlp_bind, wlp_modify. rewrite (proj2 (Z.eqb_neq _ _) Hr). cbn [negb]. apply wlp_ret. split; [done|].
  pose proof (starving_updD (λ d, d <| temp_rgba := Some t |>) w2 (starving_starved _ _ S2) ltac:(done)) as S3.
  exact (starving_trans _ _ _ S1 (starving_trans _ _ _ S2 S3)).
Qed.

Lemma starving_event e w : starved w → not_ok e → starving w (World (obj w) (e :: hist w)).
Proof. intros Hs He. split; [done|]. split; [done|]. exists [e]. split; [done|]. by repeat constructor. Qed.

Lemma starve_complete rq ts w :
  starved w → wlp (complete_request rq ts false) (λ _ w', starving w w') w.
Proof.
  intros Hs. unfold complete_request. apply wlp_bind, (hungry_rule _ _ _ (hkeeps_clock _ _) Hs).
  intros te w1 S1. apply wlp_bind, wlp_lift. intros _ _. apply wlp_bind, wlp_bind, wlp_gets, wlp_ret.
  set (fl := match inflight_tracker _ with Some _ => _ | None => _ end). clearbody fl.
  apply wlp_bind, wlp_modify. set (w2 := World _ _).
  assert (starving w w2) as S2.
  { eapply starving_trans; [exact S1|]. apply (starving_updD (λ d, d <| inflight_tracker := _ |>)); [|done].
    by eapply starving_starved. }
  clearbody w2. cbn [andb negb]. apply wlp_bind, wlp_ret. apply wlp_bind, wlp_ret. rewrite andb_true_r.
  apply wlp_bind. eapply (wlp_mono _ (λ _ w', starving w w')).
  { apply wlp_when; [|done]. intros _. unfold notify. apply wlp_bind, wlp_bind, wlp_gets, wlp_ret.
    destruct (callback_ops _) as [[]|]; [apply wlp_call|by apply wlp_ret..].
    eapply starving_trans; [exact S2|]. apply starving_event; [by eapply starving_starved|done]. }
  intros _ w3 S3. apply wlp_bind, wlp_ret. destruct (callback_ops _) as [cb|]; [|done].
  apply wlp_bind, wlp_call, wlp_ret. eapply starving_trans; [exact S3|].
  apply starving_event; [by eapply starving_starved|]. split; [done|]. by apply Forall_replicate.
Qed.

Lemma starve_request rq w :
  starved w → wlp (camera_device_process_capture_request (Some rq)) (λ _ w', starving w w') w.
Proof.
  intros Hs. unfold camera_device_process_capture_request.
  apply wlp_bind, (hungry_rule _ _ _ (hkeeps_clock _ _) Hs). intros ts w1 S1.
  apply wlp_bind, (hungry_rule _ _ _ (hkeeps_is_closing _ _) (starving_starved _ _ S1)). intros c w2 S2'.
  pose proof (starving_trans _ _ _ S1 S2') as S2. clear S1 S2'.
  destruct c; [by apply wlp_ret|]. apply wlp_bind, wlp_bind, wlp_gets, wlp_ret.
  apply wlp_if; intros _; [by apply wlp_ret|]. apply wlp_if; intros _; [by apply wlp_ret|]. cbn zeta.
  assert (∀ f w' (Q : () → world hal → Prop), starving w w' → (∀ w'', starving w w'' → Q () w'') →
    wlp (tracker_op f) Q w') as Htr.
  { intros f w' Q S HQ. apply wlp_modify, HQ. eapply starving_trans; [exact S|].
    apply (starving_updD (λ d, d <| inflight_tracker := f <$> inflight_tracker d |>)); [|done].
    by eapply starving_starved. }
  apply wlp_if; intros _; [apply wlp_bind, Htr; [done|]; intros; by apply wlp_ret|].
  apply wlp_bind, wlp_lift. intros bufs _. apply wlp_bind, wlp_lift. intros b0 _.
  apply wlp_bind, Htr; [done|]. intros w3 S3.
  apply wlp_bind, (hungry_rule _ _ _ (hungry_af_settings rq) (starving_starved _ _ S3)). intros _ w4 S4.
  apply wlp_bind, (hungry_rule _ _ _ (hungry_af_scan rq) (starving_starved _ _ S4)). intros _ w5 S5.
  apply wlp_bind, (hungry_rule _ _ _ (hkeeps_is_closing _ _) (starving_starved _ _ S5)). intros c w6 S6'.
  pose proof (starving_trans _ _ _ S3 (starving_trans _ _ _ S4 (starving_trans _ _ _ S5 S6'))) as S6.
  clear S3 S4 S5 S6' S2. destruct c; [apply wlp_bind, Htr; [done|]; intros; by apply wlp_ret|].
  apply wlp_bind. eapply wlp_mono; [apply (starve_request_outputs rq); by eapply starving_starved|].
  intros [early [cap blob]] w7 [Hc S7']. simpl in Hc. subst cap.
  pose proof (starving_trans _ _ _ S6 S7') as S7. destruct early as [r|].
  - apply wlp_bind, Htr; [done|]. intros. by apply wlp_ret.
  - apply wlp_bind. eapply wlp_mono; [apply (starve_proactive rq blob false); by eapply starving_starved|].
    intros c w8 [-> S8]. eapply wlp_mono; [apply starve_complete; by eapply starving_starved|].
    intros r w9 S9. exact (starving_trans _ _ _ S7 (starving_trans _ _ _ S8 S9)).
Qed.

Definition requests (rqs : list camera3_capture_request) : HM () :=
  forM rqs (λ rq, camera_device_process_capture_request (Some rq);; mret ()).

(** C32: a flush ends the session's ability to capture.  After a flush of a
    streaming device, no later request of any sequence ever delivers a frame:
    no shutter is announced, every buffer of every result is in error and
    carries no metadata, and the memory behind the gralloc buffers is not
    written; the pipeline stays without buffers.  ([configure_streams] for
    the same size does not help: see [starved_session].) *)
Theorem flush_starves w p rqs (Hinv : hal_inv w) (Hp : pipeline (dev (obj w)) = Some p)
  (Hst : mState p = PIPELINE_STREAMING) (Hcfg : streams_configured (dev (obj w)) = true) :
  wlp (camera_device_flush;; requests rqs) (λ _ w', starved w' ∧
    g_mem (glob (obj w')) = g_mem (glob (obj w)) ∧
    ∃ evs evs0, hist w' = evs ++ evs0 ++ hist w ∧ Forall not_ok evs ∧ completions evs0 = []) w.
Proof.
  assert (mStreaming p = true) as Hs.
  { destruct Hinv as [Hpi _]. unfold pipe_ok in Hpi. rewrite Hp in Hpi.
    etransitivity; [apply (inv_streaming _ _ (proj1 Hpi))|]. simpl. by rewrite Hst. }
  apply wlp_bind. unfold camera_device_flush. apply wlp_bind, wlp_bind, wlp_gets, wlp_ret. rewrite Hp, Hcfg. simpl.
  apply wlp_bind, wlp_bind, wlp_on_pipe. intros q Hq. rewrite Hp in Hq. injection Hq as <-.
  eapply wlp_mono; [apply wlp_both; [apply stop_inv|apply (mute_stop (World p (hist w)))]|].
  { destruct Hinv as [Hpi _]. unfold pipe_ok in Hpi. rewrite Hp in Hpi. apply Hpi. }
  intros r w1 [(_ & _ & _ & Hb & _) (_ & evs0 & Eh & Hsil)]. simpl in Hb, Eh.
  apply wlp_ret, wlp_bind, wlp_modify, wlp_ret. set (w2 := World _ _).
  assert (starved w2) as Hs2 by (exists (obj w1); split; [done|by apply Hb]).
  assert (wlp (requests rqs) (λ _ w', starving w2 w') w2) as Hr.
  { unfold requests. apply (wlp_forM (starving w2)); [by apply starving_refl|]. intros rq w3 _ S3.
    apply wlp_bind. eapply wlp_mono; [apply starve_request; by eapply starving_starved|].
    intros r' w4 S4. apply wlp_ret. exact (starving_trans _ _ _ S3 S4). }
  eapply wlp_mono; [exact Hr|]. intros _ w3 (Hs3 & Hm3 & evs & Eh3 & Hn). split; [done|]. split; [done|].
  exists evs, evs0. split; [by rewrite Eh3; simpl; rewrite Eh|]. split; [done|].
  rewrite <- (app_nil_r evs0). by rewrite completions_silent.
Qed.
End Starve.
