(* ===== verification/HalDemo.v ===== *)
(** * A concrete camera session

    The kernel, the packet library and the compressor of the other files and a
    gralloc module that maps the buffer with handle [a] at address [a]; a
    session on it instantiates the theorems about the device. *)

From S2P Require Import Prelude Monad Float32 Kernel Demosaic DemosaicSpec ColorConv InFlight Pipeline Isp Capture AutoFocus PipelineInv PipelineSpec Metadata HalMetadata MetadataSpec HalImage Jpeg Hal HalInv HalSpec HalLife HalTheorems HalStarve.

#[local] Open Scope Z_scope.

#[local] Existing Instance demo_kernel.
#[local] Existing Instance list_metadata.
#[local] Existing Instance raw_jpeg.

Definition demo_env : HalEnv := {|
  env_raw _ := demo_raw;
  env_closing _ := false;
  env_hw_get_module _ := 0;
  env_lock _ _ handle _ _ _ := LockOk (Some handle);
  env_after _ := stack_bytes;
  env_padding _ := (0, 0);
  env_fopen _ _ := true;
|}.
#[local] Existing Instance demo_env.

#[local] Instance demo_errno : ErrnoPositive.
Proof. by split. Qed.

(** A 12 x 4 preview stream, a 12 x 40 BLOB stream, and their buffers. *)
Definition preview : camera3_stream := mkStream CAMERA3_STREAM_OUTPUT 12 4 HAL_PIXEL_FORMAT_IMPLEMENTATION_DEFINED 0.
Definition still : camera3_stream := mkStream CAMERA3_STREAM_OUTPUT 12 40 HAL_PIXEL_FORMAT_BLOB 0.

Definition demo_glob : globals := mkGlob
  (<[1 := preview]> (<[2 := still]> ∅)) (<[100 := replicate 192 0]> (<[200 := replicate 960 0]> ∅))
  false false false 0 (1, 0).

(** Autofocus off. *)
Definition demo_settings : list_md := {| lm_entries := [("ANDROID_CONTROL_AF_MODE"%string, [0])]; lm_ec := 4; lm_dc := 0 |}.

Definition demo_request (n : Z) : camera3_capture_request :=
  @mkRequest list_metadata n (Some demo_settings) 1 (Some [mkSB (Some 1) (Some 100) (-1)]).

Definition demo_ops : list hal_op := [HInitialize (Some true); HConfigure (Some [1; 2]); HRequest (Some (demo_request 7))].

Definition demo_device (os : list hal_op) : world hal :=
  default (opened 0 demo_glob) (run_hops os (opened 0 demo_glob)).

Lemma demo_device_reaches : rtc hal_step (opened 0 demo_glob) (demo_device demo_ops).
Proof. apply (run_hops_steps demo_ops). vm_compute. reflexivity. Qed.

(** The messages of a session: what, frame and statuses. *)
Definition summary (e : event) : string * Z * list Z :=
  match e with
  | ENotifyShutter f _ => ("shutter"%string, f, [])
  | ENotifyError f c => ("error"%string, f, [c])
  | EResult f _ st _ => ("result"%string, f, st)
  | _ => (""%string, 0, [])
  end.

Lemma request_completed_once_witness :
  ∃ w', camera_device_process_capture_request (Some (demo_request 8)) (demo_device demo_ops) = Some (0, w') ∧
    accepted (demo_request 8) (demo_device demo_ops) w'.
Proof.
  assert (∃ w', camera_device_process_capture_request (Some (demo_request 8)) (demo_device demo_ops)
                = Some (0, w')) as [w' E] by (eexists; vm_compute; reflexivity).
  pose proof (request_completed_once (demo_device demo_ops) (demo_request 8)
    (reachable_hal_inv 0 demo_glob _ demo_device_reaches)) as Hw.
  revert E Hw. generalize (demo_device demo_ops). intros w E Hw.
  exists w'. split; [exact E|]. exact (proj2 (proj1 (wlp_run _ _ _) Hw 0 w' E)).
Defined.

Lemma device_invariant_witness :
  hal_inv (demo_device demo_ops) ∧
  summary <$> completions (hist (demo_device demo_ops)) = [("result"%string, 7, [0]); ("shutter"%string, 7, [])].
Proof.
  split; [|vm_compute; reflexivity].
  exact (proj1 (device_invariant 0 demo_glob _ demo_device_reaches)).
Defined.

Lemma device_close_releases_witness :
  ∃ w', camera_device_close (demo_device demo_ops) = Some (0, w') ∧ balanced (hist w').
Proof.
  destruct (device_close_releases 0 demo_glob (demo_device demo_ops) demo_device_reaches) as (w' & E & Hb & _).
  exists w'. split; [exact E|exact Hb].
Defined.

Lemma configure_streams_outcome_witness :
  ∃ w', camera_device_configure_streams (Some [1]) (opened 0 demo_glob) = Some (0, w') ∧
    hal_inv w' ∧ pipeline_width (dev (obj w')) = 12.
Proof.
  assert (∃ w', camera_device_configure_streams (Some [1]) (opened 0 demo_glob) = Some (0, w') ∧
    pipeline_width (dev (obj w')) = 12) as (w' & E & Hw12) by (eexists; split; vm_compute; reflexivity).
  pose proof (configure_streams_outcome (Some [1]) (opened 0 demo_glob) (opened_inv 0 demo_glob)) as Hw.
  revert E Hw. generalize (opened 0 demo_glob). intros w E Hw. exists w'. split; [exact E|].
  split; [exact (proj1 (proj1 (wlp_run _ _ _) Hw 0 w' E))|exact Hw12].
Defined.

Lemma pipeline_stream_choice_witness :
  ∃ l w', select_streams [2; 1] (mkSel None None None None) (opened 0 demo_glob) = Some (Some l, w') ∧
    chosen l = Some 1.
Proof.
  destruct (pipeline_stream_choice [2; 1] [still; preview] (opened 0 demo_glob)) as (l & w' & E & Hc & _).
  - apply (bool_decide_unpack _). vm_compute. exact I.
  - repeat constructor.
  - repeat constructor; discriminate.
  - exists l, w'. split; [exact E|exact Hc].
Defined.

Lemma blob_only_crashes_witness :
  camera_device_configure_streams (Some [2]) (opened 0 demo_glob) = None.
Proof.
  apply (blob_only_crashes [2] [still] (opened 0 demo_glob)).
  - apply (bool_decide_unpack _). vm_compute. exact I.
  - split; vm_compute; [reflexivity|discriminate].
  - repeat constructor.
  - repeat constructor; discriminate.
  - vm_compute. reflexivity.
Defined.

Lemma flush_starves_witness :
  ∃ w', (camera_device_flush;; requests [demo_request 8; demo_request 9]) (demo_device demo_ops) = Some ((), w') ∧
    starved w'.
Proof.
  assert (∃ p, pipeline (dev (obj (demo_device demo_ops))) = Some p ∧ mState p = PIPELINE_STREAMING)
    as (p & Hp & Hst) by (eexists; split; vm_compute; reflexivity).
  assert (∃ w', (camera_device_flush;; requests [demo_request 8; demo_request 9]) (demo_device demo_ops)
                = Some ((), w')) as [w' E] by (eexists; vm_compute; reflexivity).
  pose proof (flush_starves (demo_device demo_ops) p [demo_request 8; demo_request 9]
    (reachable_hal_inv 0 demo_glob _ demo_device_reaches) Hp Hst ltac:(vm_compute; reflexivity)) as Hw.
  revert E Hw. clear Hp. generalize (demo_device demo_ops). intros w E Hw.
  exists w'. split; [exact E|]. exact (proj1 (proj1 (wlp_run _ _ _) Hw () w' E)).
Defined.

(** Frame 7 is delivered; after the flush neither the next request nor a
    configuration of the same streams brings the camera back: the pipeline is
    in state STREAMING, so [configure_streams] takes its early exit. *)
Example starved_session :
  let w := demo_device (demo_ops ++ [HFlush; HRequest (Some (demo_request 8)); HConfigure (Some [1; 2]);
                                     HRequest (Some (demo_request 9))]) in
  summary <$> completions (hist w) =
    [("result"%string, 9, [CAMERA3_BUFFER_STATUS_ERROR]); ("error"%string, 9, [1]);
     ("result"%string, 8, [CAMERA3_BUFFER_STATUS_ERROR]); ("error"%string, 8, [1]);
     ("result"%string, 7, [CAMERA3_BUFFER_STATUS_OK]); ("shutter"%string, 7, [])].
Proof. vm_compute. reflexivity. Qed.

(** A gralloc module whose buffers are all gone. *)
Definition fault_env : HalEnv := {|
  env_raw _ := demo_raw;
  env_closing _ := false;
  env_hw_get_module _ := 0;
  env_lock _ _ _ _ _ _ := LockFault;
  env_after _ := stack_bytes;
  env_padding _ := (0, 0);
  env_fopen _ _ := true;
|}.

Lemma lock_fault_contained_witness :
  ∃ w', @capture_direct _ _ _ fault_env false 100 preview false (opened 0 demo_glob) = Some ((None, false), w') ∧
    caught_total (glob (obj w')) = 1.
Proof.
  destruct (@lock_fault_contained _ _ _ fault_env false 100 preview false (opened 0 demo_glob) eq_refl)
    as (w' & E & _ & _ & _ & Hc & _).
  exists w'. split; [exact E|exact Hc].
Defined.
