(* ===== verification/SensorQueue.v ===== *)
(** * The sensor event queue (sensors/SensorEventQueue.cpp)

    A circular buffer between one writer, which is handed a contiguous region
    of free slots to fill without holding the lock, and one reader.  The queue
    refines a bounded first-in first-out queue: [contents] is the abstraction
    function, and [ring_refines_fifo] the simulation, in which the reader may
    run between the writer's request for a region and its [markAsWritten]. *)

From S2P Require Import Prelude Monad.

#[local] Open Scope Z_scope.

Lemma ld_app {A} (l1 l2 : list A) i :
  ld (l1 ++ l2) i = if bool_decide (i < blen l1) then ld l1 i else ld l2 (i - blen l1).
Proof.
  unfold ld, blen. case_bool_decide as Hi; case_bool_decide as Hl; [..|done|].
  - rewrite lookup_app_l by lia. done.
  - rewrite bool_decide_true by lia. rewrite lookup_app_r by lia. f_equal. lia.
  - lia.
Qed.

Section Queue.
Context {A : Type}.

(** ** The queue *)

Record SensorEventQueue := mkQueue { mCapacity : Z; mStart : Z; mSize : Z; mData : list A }.

#[export] Instance SensorEventQueue_eta : Eta SensorEventQueue := λ q,
  mkQueue (mCapacity q) (mStart q) (mSize q) (mData q).

(** [raw]: the uninitialised array [new sensors_event_t[mCapacity]]. *)
Definition SensorEventQueue_new (capacity : Z) (raw : list A) : SensorEventQueue :=
  {| mCapacity := capacity; mStart := 0; mSize := 0; mData := raw |}.

(** [int % int]; the remainder by zero is undefined. *)
Definition rem32 (a b : Z) : option Z := if b =? 0 then None else Some (Z.rem a b).

(** The length of the region and the index behind [*out] ([None]: null). *)
Definition getWritableRegion (requestedLength : Z) (q : SensorEventQueue) : option (Z * option Z) :=
  if (mSize q =? mCapacity q) || (requestedLength <=? 0) then Some (0, None) else
  s ← ck32 (mStart q + mSize q);
  firstWritable ← rem32 s (mCapacity q);
  e ← ck32 (firstWritable + requestedLength);
  let lastWritable := e - 1 in
  let lastWritable := if lastWritable >? mCapacity q - 1 then mCapacity q - 1 else lastWritable in
  let lastWritable :=
    if (firstWritable <? mStart q) && (lastWritable >=? mStart q) then mStart q - 1 else lastWritable in
  Some (lastWritable - firstWritable + 1, Some firstWritable).

Definition markAsWritten (count : Z) (q : SensorEventQueue) : option SensorEventQueue :=
  n ← ck32 (mSize q + count); Some (q <| mSize := n |>).

Definition getSize (q : SensorEventQueue) : Z := mSize q.

(** The index of the oldest record, [None] a null pointer. *)
Definition peek (q : SensorEventQueue) : option Z :=
  if mSize q =? 0 then None else Some (mStart q).

(** The queue afterwards, and whether [mSpaceAvailableCondition] is broadcast. *)
Definition dequeue (q : SensorEventQueue) : option (SensorEventQueue * bool) :=
  if mSize q =? 0 then Some (q, false) else
  let broadcast := mSize q =? mCapacity q in
  s ← rem32 (mStart q + 1) (mCapacity q);
  Some (q <| mSize := mSize q - 1 |> <| mStart := s |>, broadcast).

(** The condition of the loop of [waitForSpace]: the caller waits while it
    holds. *)
Definition waitForSpace_blocks (q : SensorEventQueue) : bool := mSize q =? mCapacity q.

(** ** The queue as a list *)

Definition slot (q : SensorEventQueue) (i : Z) : Z := (mStart q + i) mod mCapacity q.

Definition contents (q : SensorEventQueue) : list A :=
  take (Z.to_nat (mSize q)) (drop (Z.to_nat (mStart q)) (mData q ++ mData q)).

Record queue_wf (q : SensorEventQueue) : Prop := {
  wf_cap : 0 < mCapacity q <= 2 ^ 29;
  wf_start : 0 <= mStart q < mCapacity q;
  wf_size : 0 <= mSize q <= mCapacity q;
  wf_data : blen (mData q) = mCapacity q }.

(** [region q f k]: [k] free slots at index [f], the first ones a writer may
    fill. *)
Record region (q : SensorEventQueue) (f k : Z) : Prop := {
  rg_first : f = slot q (mSize q);
  rg_len : 0 <= k <= mCapacity q - mSize q;
  rg_end : f + k <= mCapacity q }.

Lemma slot_bounds q i : queue_wf q → 0 <= slot q i < mCapacity q.
Proof. intros [? _ _ _]. apply Z.mod_pos_bound. lia. Qed.

(** Without a division: a slot wraps around at most once. *)
Lemma slot_cases q i : queue_wf q → 0 <= i <= mCapacity q →
  (mStart q + i < mCapacity q ∧ slot q i = mStart q + i) ∨
  (mCapacity q <= mStart q + i ∧ slot q i = mStart q + i - mCapacity q).
Proof.
  intros [? ? _ _] ?. unfold slot. destruct (decide (mStart q + i < mCapacity q)).
  - left. split; [done|]. apply Z.mod_small. lia.
  - right. split; [lia|]. symmetry. apply Z.mod_unique with 1; lia.
Qed.

Lemma contents_length q : queue_wf q → blen (contents q) = mSize q.
Proof.
  intros [? ? ? Hd]. unfold contents, blen in *. rewrite length_take, length_drop, length_app. lia.
Qed.

Lemma contents_ld q i : queue_wf q → 0 <= i < mSize q → ld (contents q) i = ld (mData q) (slot q i).
Proof.
  intros Hwf Hi. pose proof (slot_cases q i Hwf) as Hs. destruct Hwf as [? ? ? Hd]. unfold blen in Hd.
  unfold contents, ld. rewrite (bool_decide_true (0 <= i)) by lia. rewrite bool_decide_true by lia.
  rewrite lookup_take_lt by lia. rewrite lookup_drop. destruct Hs as [[? ->]|[? ->]]; [lia|..].
  - rewrite lookup_app_l by lia. f_equal. lia.
  - rewrite lookup_app_r by lia. f_equal. lia.
Qed.

(** The abstraction determined by its elements. *)
Lemma contents_intro q l : queue_wf q → blen l = mSize q →
  (∀ i, 0 <= i < mSize q → ld (mData q) (slot q i) = ld l i) → contents q = l.
Proof.
  intros Hwf Hl Hi. apply ld_eq. intros i. destruct (decide (0 <= i < mSize q)).
  - rewrite contents_ld by done. auto.
  - rewrite !ld_ge; [done|lia|]. rewrite contents_length by done. lia.
Qed.

(** ** The operations on the list *)

Lemma queue_new_spec capacity raw : 0 < capacity <= 2 ^ 29 → blen raw = capacity →
  queue_wf (SensorEventQueue_new capacity raw) ∧ contents (SensorEventQueue_new capacity raw) = [].
Proof. intros ? ?. split; [|done]. split; simpl; lia. Qed.

Lemma rem32_wrap q i : queue_wf q → 0 <= i <= mCapacity q → rem32 (mStart q + i) (mCapacity q) = Some (slot q i).
Proof.
  intros [? ? _ _] ?. unfold rem32, slot. destruct (mCapacity q =? 0) eqn:E; zbool; [lia|].
  rewrite Z.rem_mod_nonneg by lia. done.
Qed.

(** The region handed out is as long as the request, the free space and the
    end of the array allow: at least one slot when there is space. *)
Lemma getWritableRegion_spec q n : queue_wf q → n <= 2 ^ 30 →
  ∃ k out, getWritableRegion n q = Some (k, out) ∧
    match out with
    | None => k = 0 ∧ (mSize q = mCapacity q ∨ n <= 0)
    | Some f => region q f k ∧ 1 <= k ∧ k = Z.min n (Z.min (mCapacity q - mSize q) (mCapacity q - f))
    end.
Proof.
  intros Hwf Hn. unfold getWritableRegion. pose proof (slot_bounds q (mSize q) Hwf) as Hb.
  pose proof (slot_cases q (mSize q) Hwf) as Hc. pose proof Hwf as [? ? ? ?].
  destruct (mSize q =? mCapacity q) eqn:E1; simpl; zbool; [by exists 0, None; auto|].
  destruct (n <=? 0) eqn:E2; zbool; [by exists 0, None; auto|].
  rewrite ck32_Some by (unfold INT_MIN, INT_MAX; lia). cbn [mbind option_bind].
  rewrite rem32_wrap by (done || lia). cbn [mbind option_bind].
  set (f := slot q (mSize q)) in *.
  rewrite ck32_Some by (unfold INT_MIN, INT_MAX; lia). cbn [mbind option_bind].
  eexists _, (Some f). split; [reflexivity|].
  destruct (f + n - 1 >? mCapacity q - 1) eqn:E3;
    repeat match goal with |- context [if ?b then _ else _] => destruct b eqn:? end; zbool;
    try (apply andb_false_iff in Heqb as [?|?]; zbool); (split; [split; [done|lia..]|lia]).
Qed.

Lemma waitForSpace_spec q : queue_wf q → waitForSpace_blocks q = bool_decide (blen (contents q) = mCapacity q).
Proof.
  intros Hwf. unfold waitForSpace_blocks. rewrite contents_length by done. case_bool_decide; [by apply Z.eqb_eq|].
  by apply Z.eqb_neq.
Qed.

(** A store into the writer's region is invisible to the reader. *)
Lemma fill_spec q f k j v d : queue_wf q → region q f k → 0 <= j < k → st (mData q) (f + j) v = Some d →
  queue_wf (q <| mData := d |>) ∧ contents (q <| mData := d |>) = contents q.
Proof.
  intros Hwf [Hf ? ?] Hj Hst. apply stn_spec in Hst as [Hl Hld].
  assert (queue_wf (q <| mData := d |>)) as Hwf' by (destruct Hwf; split; simpl; lia).
  split; [done|]. apply contents_intro; [done|by rewrite contents_length|]. intros i Hi.
  rewrite contents_ld by done. cbn [mData field_set] in *. change (slot (q <| mData := d |>) i) with (slot q i).
  rewrite Hld, bool_decide_false; [done|].
  pose proof (slot_cases q i Hwf). pose proof (slot_cases q (mSize q) Hwf). destruct Hwf. change (blen [v]) with 1.
  simpl in Hi. lia.
Qed.

(** What the writer marks becomes readable, in order, behind what was. *)
Lemma markAsWritten_spec q f k evs : queue_wf q → region q f k → blen evs <= k →
  ldn (mData q) f (blen evs) = Some evs →
  ∃ q', markAsWritten (blen evs) q = Some q' ∧ queue_wf q' ∧ contents q' = contents q ++ evs ∧
    mCapacity q' = mCapacity q ∧ mSize q' = mSize q + blen evs.
Proof.
  intros Hwf [Hf ? ?] Hn Hld. unfold markAsWritten. pose proof Hwf as [? ? ? ?]. pose proof (blen_nonneg evs).
  rewrite ck32_Some by (unfold INT_MIN, INT_MAX; lia). cbn [mbind option_bind].
  set (q' := q <| mSize := mSize q + blen evs |>). exists q'. split; [done|].
  assert (queue_wf q') as Hwf' by (split; simpl; lia).
  split; [done|]. split; [|done]. pose proof (contents_length q Hwf) as Hc.
  apply ldn_Some in Hld as [_ Hld].
  apply contents_intro; [done|unfold blen in *; rewrite length_app; simpl; lia|]. intros i Hi. simpl in Hi.
  change (slot q' i) with (slot q i). change (mData q') with (mData q).
  rewrite ld_app, Hc. case_bool_decide; [by rewrite contents_ld by (done || lia)|].
  destruct Hld as (_ & _ & Hld). rewrite Hld by lia. f_equal.
  pose proof (slot_cases q i Hwf). pose proof (slot_cases q (mSize q) Hwf). lia.
Qed.

(** The oldest record, and its removal. *)
Lemma peek_spec q : queue_wf q →
  match peek q with
  | None => contents q = []
  | Some i => ∃ e l, contents q = e :: l ∧ ld (mData q) i = Some e
  end.
Proof.
  intros Hwf. pose proof (contents_length q Hwf) as Hl. unfold peek. destruct (mSize q =? 0) eqn:E; zbool.
  - apply length_zero_iff_nil. unfold blen in Hl. lia.
  - destruct (contents q) as [|e l] eqn:Ec; [unfold blen in Hl; simpl in Hl; lia|]. exists e, l. split; [done|].
    pose proof Hwf as [? ? ? ?]. pose proof (contents_ld q 0 Hwf) as H0. rewrite Ec in H0.
    unfold slot in H0. rewrite Z.add_0_r, Z.mod_small in H0 by lia. rewrite <- H0 by lia. done.
Qed.

Lemma dequeue_empty q : queue_wf q → contents q = [] → dequeue q = Some (q, false).
Proof.
  intros Hwf Hc. pose proof (contents_length q Hwf) as Hl. rewrite Hc in Hl. unfold dequeue.
  by rewrite <- Hl.
Qed.

Lemma dequeue_spec q e l : queue_wf q → contents q = e :: l →
  ∃ q', dequeue q = Some (q', bool_decide (mSize q = mCapacity q)) ∧ queue_wf q' ∧ contents q' = l ∧
    mCapacity q' = mCapacity q ∧ mData q' = mData q ∧ mSize q' = mSize q - 1 ∧
    ∀ f k, region q f k → region q' f k.
Proof.
  intros Hwf Hc. pose proof (contents_length q Hwf) as Hl. rewrite Hc in Hl. unfold blen in Hl. simpl in Hl.
  pose proof Hwf as [? ? ? ?]. unfold dequeue. destruct (mSize q =? 0) eqn:E; zbool; [lia|].
  rewrite rem32_wrap by (done || lia). cbn [mbind option_bind].
  set (q' := q <| mSize := mSize q - 1 |> <| mStart := slot q 1 |>).
  pose proof (slot_bounds q 1 Hwf) as Hb. assert (queue_wf q') as Hwf' by (split; simpl; lia).
  assert (∀ i, slot q' i = slot q (1 + i)) as Hs.
  { intros i. unfold slot, q'. simpl. unfold slot. rewrite Zplus_mod_idemp_l. f_equal. lia. }
  exists q'. split; [repeat f_equal; case_bool_decide; [by apply Z.eqb_eq|by apply Z.eqb_neq]|].
  split; [done|]. split; [|split_and!; try done].
  - apply contents_intro; [done|unfold blen; simpl; lia|]. simpl. intros i Hi. rewrite Hs.
    rewrite <- contents_ld by (done || lia). rewrite Hc. unfold ld. rewrite !bool_decide_true by lia.
    replace (Z.to_nat (1 + i)) with (S (Z.to_nat i)) by lia. done.
  - intros f k [Hf ? ?]. split; simpl; [|lia..]. rewrite Hs, Hf. f_equal. lia.
Qed.

(** ** Refinement of a bounded queue *)

(** What can be observed of a queue.  [LStore] is a store of the writer into
    its region, made without the lock. *)
Inductive qlabel :=
  | LRegion (n k : Z)                     (* getWritableRegion(n) returned k *)
  | LStore
  | LWrite (evs : list A)                 (* markAsWritten *)
  | LPeek (e : option A)
  | LDequeue (broadcast : bool)
  | LSpace (blocks : bool).               (* the test of waitForSpace *)

(** The specification: a list of at most [cap] records. *)
Inductive fifo_step (cap : Z) : list A → qlabel → list A → Prop :=
  | fifo_no_region s n : blen s = cap ∨ n <= 0 → fifo_step cap s (LRegion n 0) s
  | fifo_region s n k : 1 <= k <= n → blen s + k <= cap → fifo_step cap s (LRegion n k) s
  | fifo_store s : fifo_step cap s LStore s
  | fifo_write s evs : blen s + blen evs <= cap → fifo_step cap s (LWrite evs) (s ++ evs)
  | fifo_peek s : fifo_step cap s (LPeek (head s)) s
  | fifo_dequeue s : fifo_step cap s (LDequeue (bool_decide (blen s = cap))) (tail s)
  | fifo_space s : fifo_step cap s (LSpace (bool_decide (blen s = cap))) s.

(** The circular buffer with the region its writer holds, if any. *)
Inductive ring_step : SensorEventQueue * option (Z * Z) → qlabel → SensorEventQueue * option (Z * Z) → Prop :=
  | ring_region q r n k out : n <= 2 ^ 30 → getWritableRegion n q = Some (k, out) →
      ring_step (q, r) (LRegion n k) (q, (λ f, (f, k)) <$> out)
  | ring_store q f k j v d : 0 <= j < k → st (mData q) (f + j) v = Some d →
      ring_step (q, Some (f, k)) LStore (q <| mData := d |>, Some (f, k))
  | ring_mark q q' f k evs : blen evs <= k → ldn (mData q) f (blen evs) = Some evs →
      markAsWritten (blen evs) q = Some q' → ring_step (q, Some (f, k)) (LWrite evs) (q', None)
  | ring_peek q r : ring_step (q, r) (LPeek (i ← peek q; ld (mData q) i)) (q, r)
  | ring_dequeue q r q' b : dequeue q = Some (q', b) → ring_step (q, r) (LDequeue b) (q', r)
  | ring_space q r : ring_step (q, r) (LSpace (waitForSpace_blocks q)) (q, r).

(** The runs of a labelled transition system. *)
Inductive runs {S L} (step : S → L → S → Prop) : S → list L → S → Prop :=
  | runs_nil s : runs step s [] s
  | runs_snoc s l s1 a s2 : runs step s l s1 → step s1 a s2 → runs step s (l ++ [a]) s2.

Definition ring_inv (cap : Z) (s : SensorEventQueue * option (Z * Z)) : Prop :=
  queue_wf s.1 ∧ mCapacity s.1 = cap ∧ match s.2 with Some (f, k) => region s.1 f k | None => True end.

Lemma ring_simulates cap s a s' : ring_inv cap s → ring_step s a s' →
  fifo_step cap (contents s.1) a (contents s'.1) ∧ ring_inv cap s'.
Proof.
  intros (Hwf & Hcap & Hr) Hs. pose proof (contents_length _ Hwf) as Hl.
  destruct Hs as [q r n k out Hn Hg|q f k j v d Hj Hst|q q' f k evs Hk Hld Hm|q r|q r q' b Hd|q r]; simpl in *.
  - destruct (getWritableRegion_spec q n Hwf Hn) as (k' & out' & Hg' & Ho). rewrite Hg in Hg'. injection Hg' as <- <-.
    destruct out as [f|]; simpl.
    + destruct Ho as (Hrg & ? & ->). split; [constructor; lia|done].
    + destruct Ho as [-> ?]. split; [constructor; lia|done].
  - destruct (fill_spec q f k j v d Hwf Hr Hj Hst) as [Hwf' ->]. split; [constructor|].
    split; [done|]. split; [done|]. by destruct Hr.
  - destruct (markAsWritten_spec q f k evs Hwf Hr Hk Hld) as (q1 & Hm' & Hwf' & Hq1 & Hc' & _).
    rewrite Hm in Hm'. injection Hm' as <-. rewrite Hq1. split; [|split; [done|]; split; [simpl; congruence|done]].
    constructor. destruct Hr. lia.
  - split; [|done]. pose proof (peek_spec q Hwf) as Hp. replace (i ← peek q; ld (mData q) i) with (head (contents q));
      [constructor|]. destruct (peek q); simpl; [by destruct Hp as (e & l & -> & ->)|by rewrite Hp].
  - destruct (contents q) as [|e l] eqn:Ec.
    + rewrite dequeue_empty in Hd by done. injection Hd as <- <-. rewrite Ec. split; [|done].
      replace false with (bool_decide (blen (@nil A) = cap)); [constructor|]. apply bool_decide_false.
      destruct Hwf. change (blen (@nil A)) with 0. lia.
    + destruct (dequeue_spec q e l Hwf Ec) as (q1 & Hd' & Hwf' & Hq1 & Hc' & _ & _ & Hreg). rewrite Hd in Hd'.
      injection Hd' as <- ->. rewrite Hq1. split; [|split; [done|]; split; [simpl; congruence|]; destruct r as [[f k]|]; [exact (Hreg f k Hr)|done]].
      rewrite <- Hl, Hcap. apply (fifo_dequeue cap (e :: l)).
  - split; [|done]. rewrite waitForSpace_spec, Hcap by done. constructor.
Qed.

Lemma ring_runs_inv cap raw tr s : 0 < cap <= 2 ^ 29 → blen raw = cap →
  runs ring_step (SensorEventQueue_new cap raw, None) tr s →
  runs (fifo_step cap) [] tr (contents s.1) ∧ ring_inv cap s.
Proof.
  intros Hcap Hraw Hr. remember (SensorEventQueue_new cap raw, None) as s0 eqn:E0.
  destruct (queue_new_spec cap raw Hcap Hraw) as [Hwf Hc].
  induction Hr as [s|s l s1 a s2 Hr IH Hs]; subst s.
  - simpl. rewrite Hc. split; [constructor|done].
  - destruct IH as [Hf Hi]; [done|]. destruct (ring_simulates cap s1 a s2 Hi Hs). split; [|done].
    by eapply runs_snoc.
Qed.

(** C7: the circular buffer implements a bounded first-in first-out queue.
    Every observable history of a new buffer, with the reader's calls
    interleaved in any way with the writer's unlocked stores, is a history of
    the list specification ending in the buffer's contents; and the
    operations never divide by zero, overflow or leave the array: a region
    can be requested, a record peeked at and removed, and up to [k] records of
    a region of [k] marked, in every state reached. *)
Theorem ring_refines_fifo cap raw tr q r (Hcap : 0 < cap <= 2 ^ 29) (Hraw : blen raw = cap)
  (Hrun : runs ring_step (SensorEventQueue_new cap raw, None) tr (q, r)) :
  runs (fifo_step cap) [] tr (contents q) ∧
  (∀ n, n <= 2 ^ 30 → is_Some (getWritableRegion n q)) ∧ is_Some (dequeue q) ∧
  (∀ i, peek q = Some i → is_Some (ld (mData q) i)) ∧
  (∀ f k n, r = Some (f, k) → 0 <= n <= k → is_Some (ldn (mData q) f n) ∧ is_Some (markAsWritten n q)).
Proof.
  destruct (ring_runs_inv cap raw tr _ Hcap Hraw Hrun) as (Hf & Hwf & Hc & Hr). simpl in *.
  split; [done|]. split_and!.
  - intros n Hn. destruct (getWritableRegion_spec q n Hwf Hn) as (k & out & -> & _). by eexists.
  - destruct (contents q) eqn:E; [by rewrite dequeue_empty by done; eexists|].
    destruct (dequeue_spec q _ _ Hwf E) as (q' & -> & _). by eexists.
  - intros i Hi. pose proof (peek_spec q Hwf) as Hp. rewrite Hi in Hp. destruct Hp as (e & l & _ & ->). by eexists.
  - intros f k n -> Hn. pose proof (slot_bounds q (mSize q) Hwf) as Hb. destruct Hr as [-> ? ?]. destruct Hwf. split.
    + apply ldn_defined; lia.
    + unfold markAsWritten. rewrite ck32_Some by (unfold INT_MIN, INT_MAX; lia). by eexists.
Qed.
End Queue.
Arguments SensorEventQueue : clear implicits.

(** Three slots; two records written, the first one read and removed while
    the writer already holds the last slot. *)
Definition demo_trace : list (@qlabel Z) :=
  [LRegion 36 3; LStore; LStore; LWrite [7; 8]; LRegion 36 1; LPeek (Some 7); LDequeue false].

Lemma demo_run : runs ring_step (SensorEventQueue_new 3 [0; 0; 0], None) demo_trace
  (mkQueue 3 1 1 [7; 8; 0], Some (2, 1)).
Proof.
  apply (runs_snoc _ _ [LRegion 36 3; LStore; LStore; LWrite [7; 8]; LRegion 36 1; LPeek (Some 7)]
           (mkQueue 3 0 2 [7; 8; 0], Some (2, 1))); [|by constructor].
  apply (runs_snoc _ _ [LRegion 36 3; LStore; LStore; LWrite [7; 8]; LRegion 36 1]
           (mkQueue 3 0 2 [7; 8; 0], Some (2, 1))); [|exact (ring_peek (mkQueue 3 0 2 [7; 8; 0]) (Some (2, 1)))].
  apply (runs_snoc _ _ [LRegion 36 3; LStore; LStore; LWrite [7; 8]]
           (mkQueue 3 0 2 [7; 8; 0], None));
    [|exact (ring_region (mkQueue 3 0 2 [7; 8; 0]) None 36 1 (Some 2) ltac:(lia) ltac:(reflexivity))].
  apply (runs_snoc _ _ [LRegion 36 3; LStore; LStore] (mkQueue 3 0 0 [7; 8; 0], Some (0, 3)));
    [|by apply ring_mark].
  apply (runs_snoc _ _ [LRegion 36 3; LStore] (mkQueue 3 0 0 [7; 0; 0], Some (0, 3)));
    [|by apply (ring_store (mkQueue 3 0 0 [7; 0; 0]) 0 3 1 8)].
  apply (runs_snoc _ _ [LRegion 36 3] (mkQueue 3 0 0 [0; 0; 0], Some (0, 3)));
    [|by apply (ring_store (mkQueue 3 0 0 [0; 0; 0]) 0 3 0 7)].
  apply (runs_snoc _ _ [] (mkQueue 3 0 0 [0; 0; 0], None)); [constructor|].
  exact (ring_region (mkQueue 3 0 0 [0; 0; 0]) None 36 3 (Some 0) ltac:(lia) ltac:(reflexivity)).
Qed.

Lemma ring_refines_fifo_witness :
  runs (fifo_step 3) [] demo_trace (contents (mkQueue 3 1 1 [7; 8; 0])) ∧ contents (mkQueue 3 1 1 [7; 8; 0]) = [8].
Proof.
  split; [|reflexivity].
  exact (proj1 (ring_refines_fifo 3 [0; 0; 0] demo_trace _ _ ltac:(lia) eq_refl demo_run)).
Defined.
