(* ===== verification/MultiHal.v ===== *)
(** * The sensor multi-HAL (sensors/multihal.cpp)

    The module fans the sensor interface out to sub-HALs (shared libraries
    loaded at run time, here the parameter [SubHal]): it merges their sensor
    lists under global handles, forwards commands, and lets one thread per
    sub-HAL collect events in a queue that [poll] drains round-robin.

    Commands run in the state monad; what the sub-HALs are asked is recorded
    in the history their answers may depend on.  [poll] and [writerTask] are
    given as their critical sections, from one acquisition of [queue_mutex] to
    its release or to a wait on a condition; [MultiHalSpec] interleaves
    them. *)

From S2P Require Import Prelude Monad Float32 SensorQueue.
From stdpp Require Import strings.

#[local] Open Scope Z_scope.

(** ** Data *)

Definition EINVAL : Z := 22.
Definition SENSOR_TYPE_META_DATA : Z := 0.
Definition SENSOR_TYPE_PROXIMITY : Z := 8.
Definition SENSOR_TYPE_TILT_DETECTOR : Z := 22.
Definition SENSOR_FLAG_WAKE_UP : Z := 1.
Definition SENSOR_FLAG_ON_CHANGE_MODE : Z := 2.
Definition SENSORS_DEVICE_API_VERSION_1_3 : Z := 0x01030001.

(** An event.  The union of payloads is sixteen 32-bit words, of which a
    meta-data event uses the first two ([meta_data.what] and
    [meta_data.sensor]). *)
Record sensors_event_t := mkEvent {
  ev_version : Z; sensor : Z; ev_type : Z; timestamp : Z;
  word0 : Z; word1 : Z; words : list Z; ev_flags : Z }.

#[export] Instance sensors_event_t_eta : Eta sensors_event_t := λ e, mkEvent
  (ev_version e) (sensor e) (ev_type e) (timestamp e) (word0 e) (word1 e) (words e) (ev_flags e).

Abbreviation meta_data_sensor := word1.

Record sensor_t := mkSensor {
  s_name : string; s_vendor : string; s_version : Z; handle : Z; s_type : Z;
  maxRange : f32; resolution : f32; power : f32; minDelay : Z;
  fifoReservedEventCount : Z; fifoMaxEventCount : Z;
  stringType : string; requiredPermission : string; maxDelay : Z; s_flags : Z }.

#[export] Instance sensor_t_eta : Eta sensor_t := λ s, mkSensor
  (s_name s) (s_vendor s) (s_version s) (handle s) (s_type s) (maxRange s) (resolution s) (power s)
  (minDelay s) (fifoReservedEventCount s) (fifoMaxEventCount s) (stringType s) (requiredPermission s)
  (maxDelay s) (s_flags s).

(** A sensor of a module, by its local handle. *)
Record FullHandle := mkFull { moduleIndex : Z; localHandle : Z }.

#[export] Instance FullHandle_eq_dec : EqDecision FullHandle.
Proof. solve_decision. Defined.
#[export] Instance FullHandle_countable : Countable FullHandle.
Proof.
  refine (inj_countable' (λ f, (moduleIndex f, localHandle f)) (λ p, mkFull p.1 p.2) _). by intros [].
Defined.

(** Calls into the sub-HALs and the dynamic linker. *)
Inductive sub_call :=
  | CDlopen (path : string)
  | CDlsym (lib : Z)
  | CSensorsList (module : Z)
  | COpen (module : Z) (name : string)
  | CActivate (dev local enabled : Z)
  | CSetDelay (dev local ns : Z)
  | CBatch (dev local flags period timeout : Z)
  | CFlush (dev local : Z)
  | CClose (dev : Z).

Class SubHal := {
  sh_dlopen : list sub_call → string → option Z;
  sh_dlsym : list sub_call → Z → bool * option Z;       (* an error is pending; the symbol *)
  sh_sensors : list sub_call → Z → list sensor_t;       (* get_sensors_list *)
  sh_open : list sub_call → Z → string → Z * Z;         (* status and device *)
  sh_activate : list sub_call → Z → Z → Z → Z;
  sh_setDelay : list sub_call → Z → Z → Z → Z;
  sh_batch : list sub_call → Z → Z → Z → Z → Z → Z;
  sh_flush : list sub_call → Z → Z → Z;
  sh_version : Z → Z;                                   (* device->common.version *)
}.

(** The statics of the module. *)
Record multihal := mkMH {
  global_to_full : gmap Z FullHandle;
  full_to_global : gmap FullHandle Z;
  next_global_handle : Z;
  sub_hw_modules : option (list Z);
  global_sensors_list : option (list sensor_t);
  global_sensors_count : Z;
  calls : list sub_call }.

#[export] Instance multihal_eta : Eta multihal := λ s, mkMH
  (global_to_full s) (full_to_global s) (next_global_handle s) (sub_hw_modules s)
  (global_sensors_list s) (global_sensors_count s) (calls s).

Definition multihal_init : multihal := mkMH ∅ ∅ 1 None None (-1) [].

Definition SENSOR_EVENT_QUEUE_CAPACITY : Z := 36.

(** An open device: its sub-devices, their queues (each with its writer
    thread) and the queue [poll] reads next. *)
Record sensors_poll_context_t := mkCtx {
  sub_hw_devices : list Z;
  queues : list (SensorEventQueue sensors_event_t);
  nextReadIndex : Z }.

#[export] Instance sensors_poll_context_t_eta : Eta sensors_poll_context_t := λ c, mkCtx
  (sub_hw_devices c) (queues c) (nextReadIndex c).

(** ** Handles *)

Definition assign_global_handle (module_index local_handle : Z) (s : multihal) : option (Z * multihal) :=
  let global_handle := next_global_handle s in
  n ← ck32 (next_global_handle s + 1);
  let full_handle := mkFull module_index local_handle in
  Some (global_handle, s <| next_global_handle := n |>
    <| full_to_global := <[full_handle := global_handle]> (full_to_global s) |>
    <| global_to_full := <[global_handle := full_handle]> (global_to_full s) |>).

Definition get_local_handle (s : multihal) (global_handle : Z) : Z :=
  match global_to_full s !! global_handle with Some f => localHandle f | None => -1 end.

Definition get_module_index (s : multihal) (global_handle : Z) : Z :=
  match global_to_full s !! global_handle with Some f => moduleIndex f | None => -1 end.

Definition get_global_handle (ftg : gmap FullHandle Z) (full_handle : FullHandle) : Z :=
  match ftg !! full_handle with Some g => g | None => -1 end.

(** [get_v0_device_by_handle], [None] a null pointer ([get_v1_device_by_handle]
    is the same with another type). *)
Definition get_device_by_handle (s : multihal) (c : sensors_poll_context_t) (global_handle : Z) : option Z :=
  let sub_index := get_module_index s global_handle in
  if (sub_index <? 0) || (sub_index >=? blen (sub_hw_devices c)) then None
  else ld (sub_hw_devices c) sub_index.

Definition get_device_version_by_handle `{!SubHal} (s : multihal) (c : sensors_poll_context_t) (h : Z) : Z :=
  match get_device_by_handle s c h with Some v0 => sh_version v0 | None => -1 end.

Definition copy_event_remap_handle (ftg : gmap FullHandle Z) (src : sensors_event_t) (sub_index : Z)
  : sensors_event_t :=
  let dest := src in
  if ev_type dest =? SENSOR_TYPE_META_DATA
  then dest <| meta_data_sensor := get_global_handle ftg (mkFull sub_index (meta_data_sensor dest)) |>
  else dest <| sensor := get_global_handle ftg (mkFull sub_index (sensor dest)) |>.

(** ** Polling *)

(** The variables of [poll] while it holds the lock: the queues, the index,
    [empties], [eventsRead], the caller's array, and the queues whose
    [mSpaceAvailableCondition] was broadcast. *)
Record scan := mkScan {
  qs : list (SensorEventQueue sensors_event_t);
  next : Z; empties : Z; eventsRead : Z; data : list sensors_event_t; bcast : list Z }.

#[export] Instance scan_eta : Eta scan := λ s, mkScan (qs s) (next s) (empties s) (eventsRead s) (data s) (bcast s).

(** One iteration of the inner loop. *)
Definition poll_iter (ftg : gmap FullHandle Z) (queueCount : Z) (s : scan) : option scan :=
  queue ← ld (qs s) (next s);
  s ← match peek queue with
      | None => Some (s <| empties := empties s + 1 |>)
      | Some i =>
          event ← ld (mData queue) i;
          let e := copy_event_remap_handle ftg event (next s) in
          d ← st (data s) (eventsRead s) e;
          '(queue', b) ← dequeue queue;
          qs' ← st (qs s) (next s) queue';
          Some (s <| empties := 0 |> <| data := d |>
                  <| eventsRead := if sensor e =? -1 then eventsRead s else eventsRead s + 1 |>
                  <| qs := qs' |> <| bcast := if b : bool then next s :: bcast s else bcast s |>)
      end;
  n ← rem32 (next s + 1) queueCount;
  Some (s <| next := n |>).

(** The inner loop. *)
Fixpoint poll_scan (fuel : nat) (ftg : gmap FullHandle Z) (maxReads queueCount : Z) (s : scan) : option scan :=
  if (empties s <? queueCount) && (eventsRead s <? maxReads) then
    match fuel with
    | O => None
    | S fuel => s ← poll_iter ftg queueCount s; poll_scan fuel ftg maxReads queueCount s
    end
  else Some s.

Definition pending_events (l : list (SensorEventQueue sensors_event_t)) : nat :=
  sum_list ((λ q, length (contents q)) <$> l).

Definition scan_fuel (l : list (SensorEventQueue sensors_event_t)) : nat :=
  S (pending_events l) * S (length l).

(** [poll] from the acquisition of the lock, or from the return of
    [pthread_cond_wait], to the point where it unlocks or waits: it returns
    when [eventsRead] is not 0 and waits otherwise. *)
Definition poll_section (ftg : gmap FullHandle Z) (l : list (SensorEventQueue sensors_event_t))
  (nextReadIndex maxReads : Z) (buf : list sensors_event_t) : option scan :=
  poll_scan (scan_fuel l) ftg maxReads (blen l) (mkScan l nextReadIndex 0 0 buf []).

(** ** The writer threads *)

(** Where a writer thread is: about to lock; waiting for space, with a
    broadcast received or not; in the sub-HAL's [poll] with the region
    [[f, f + k)]; back from it with [evs] in the region, about to lock. *)
Inductive writer := WReady | WWait (signalled : bool) | WPoll (f k : Z) | WPolled (f k : Z) (evs : list sensors_event_t).

(** The first critical section: [waitForSpace], then [getWritableRegion]. *)
Definition writer_acquire (q : SensorEventQueue sensors_event_t) : option writer :=
  if waitForSpace_blocks q then Some (WWait false) else
  '(bufferSize, buffer) ← getWritableRegion SENSOR_EVENT_QUEUE_CAPACITY q;
  f ← buffer;
  Some (WPoll f bufferSize).

(** The second one; [data_available_cond] is broadcast when the flag is set. *)
Definition writer_mark (waiting_for_data : bool) (eventsPolled : Z) (q : SensorEventQueue sensors_event_t)
  : option (SensorEventQueue sensors_event_t * bool) :=
  q' ← markAsWritten eventsPolled q; Some (q', waiting_for_data).

(** ** Commands *)

Section Commands.
Context `{SH : SubHal}.

Abbreviation MM := (ST multihal).

(** A call into a sub-HAL. *)
Definition sub {A} (reply : list sub_call → A) (c : sub_call) : MM A :=
  h ← gets calls; modify (λ s, s <| calls := c :: calls s |>);; mret (reply h).

(** The four forwarding operations; a null device is undefined behaviour. *)
Definition activate (c : sensors_poll_context_t) (h enabled : Z) : MM Z :=
  s ← get_st;
  let local_handle := get_local_handle s h in
  v0 ← lift (get_device_by_handle s c h);
  sub (λ t, sh_activate t v0 local_handle enabled) (CActivate v0 local_handle enabled).

Definition setDelay (c : sensors_poll_context_t) (h ns : Z) : MM Z :=
  s ← get_st;
  let local_handle := get_local_handle s h in
  v0 ← lift (get_device_by_handle s c h);
  sub (λ t, sh_setDelay t v0 local_handle ns) (CSetDelay v0 local_handle ns).

Definition batch (c : sensors_poll_context_t) (h flags period_ns timeout : Z) : MM Z :=
  s ← get_st;
  let local_handle := get_local_handle s h in
  v1 ← lift (get_device_by_handle s c h);
  sub (λ t, sh_batch t v1 local_handle flags period_ns timeout) (CBatch v1 local_handle flags period_ns timeout).

Definition flush (c : sensors_poll_context_t) (h : Z) : MM Z :=
  s ← get_st;
  let local_handle := get_local_handle s h in
  v1 ← lift (get_device_by_handle s c h);
  sub (λ t, sh_flush t v1 local_handle) (CFlush v1 local_handle).

Definition close (c : sensors_poll_context_t) : MM Z :=
  forM (sub_hw_devices c) (λ dev, sub (λ _, ()) (CClose dev));; mret 0.

(** The entries of the proxy device.  [device__close] deletes the context
    [c]; its queues and threads live on. *)
Definition device__close (c : option sensors_poll_context_t) : MM Z :=
  match c with Some c => close c;; mret 0 | None => mret 0 end.

Definition device__batch (c : sensors_poll_context_t) (h flags period_ns timeout : Z) : MM Z :=
  setDelay c h period_ns;; mret 0.

Definition device__flush (c : sensors_poll_context_t) (h : Z) : MM Z := mret (- EINVAL).

(** ** Loading the modules *)

Definition add_so_module (path : string) : MM () :=
  lib_handle ← sub (λ t, sh_dlopen t path) (CDlopen path);
  match lib_handle with
  | None => mret ()
  | Some lib =>
      '(error, module) ← sub (λ t, sh_dlsym t lib) (CDlsym lib);
      match module with
      | Some m => if error : bool then mret () else
                  modify (λ s, s <| sub_hw_modules := (λ l, l ++ [m]) <$> sub_hw_modules s |>)
      | None => mret ()
      end
  end.

Definition lazy_init_modules : MM () :=
  s ← get_st;
  match sub_hw_modules s with
  | Some _ => mret ()
  | None =>
      modify (λ s, s <| sub_hw_modules := Some [] |>);;
      add_so_module "libsensors.lsm6db0.so"
  end.

Definition fix_sensor_fields (s : sensor_t) : sensor_t :=
  let s := s <| fifoReservedEventCount := 0 |> <| fifoMaxEventCount := 0 |> in
  if s_type s =? SENSOR_TYPE_TILT_DETECTOR
  then s <| s_flags := Z.lor SENSOR_FLAG_WAKE_UP SENSOR_FLAG_ON_CHANGE_MODE |>
  else if s_type s =? SENSOR_TYPE_PROXIMITY then s <| maxRange := f_of_Z 5 |> else s.

(** The sub-HAL's list and its length, which is what the call returns. *)
Definition get_sensors_list (module : Z) : MM (list sensor_t) :=
  sub (λ t, sh_sensors t module) (CSensorsList module).

(** The body of the inner copy loop; the array under construction is [arr],
    of which the first [mutable_sensor_index] elements are set. *)
Definition copy_sensor (module_index : Z) (acc : list sensor_t * Z) (local_sensor : sensor_t)
  : MM (list sensor_t * Z) :=
  let '(arr, mutable_sensor_index) := acc in
  s ← get_st;
  '(global_handle, s) ← lift (assign_global_handle module_index (handle local_sensor) s);
  put_st s;;
  arr ← lift (st arr mutable_sensor_index (fix_sensor_fields (local_sensor <| handle := global_handle |>)));
  mret (arr, mutable_sensor_index + 1).

Fixpoint foldMM {B C} (f : B → C → MM B) (l : list C) (b : B) : MM B :=
  match l with [] => mret b | x :: l' => b ← f b x; foldMM f l' b end.

Definition copy_module (acc : list sensor_t * Z) (im : Z * Z) : MM (list sensor_t * Z) :=
  let '(module_index, module) := im in
  subhal_sensors_list ← get_sensors_list module;
  foldMM (copy_sensor module_index) subhal_sensors_list acc.

(** [raw]: the contents of [new sensor_t[n]]. *)
Definition lazy_init_sensors_list (raw : Z → list sensor_t) : MM () :=
  s ← get_st;
  match global_sensors_list s with
  | Some _ => mret ()
  | None =>
      lazy_init_modules;;
      s ← get_st;
      modules ← lift (sub_hw_modules s);
      modify (λ s, s <| global_sensors_count := 0 |>);;
      forM modules (λ m,
        l ← get_sensors_list m;
        s ← get_st;
        n ← lift (ck32 (global_sensors_count s + blen l));
        put_st (s <| global_sensors_count := n |>));;
      s ← get_st;
      '(arr, _) ← foldMM copy_module (zip (seqZ 0 (blen modules)) modules) (raw (global_sensors_count s), 0);
      modify (λ s, s <| global_sensors_list := Some arr |>)
  end.

(** The count returned and [*list]. *)
Definition module__get_sensors_list (raw : Z → list sensor_t) : MM (Z * option (list sensor_t)) :=
  lazy_init_sensors_list raw;;
  s ← get_st;
  mret (global_sensors_count s, global_sensors_list s).

(** ** Opening the device *)

(** [raw]: the uninitialised array of a new queue. *)
Definition addSubHwDevice (raw : list sensors_event_t) (sub_hw_device : Z) (c : sensors_poll_context_t)
  : sensors_poll_context_t :=
  c <| sub_hw_devices := sub_hw_devices c ++ [sub_hw_device] |>
    <| queues := queues c ++ [SensorEventQueue_new SENSOR_EVENT_QUEUE_CAPACITY raw] |>.

Definition open_sensors (raw : list sensors_event_t) (name : string) : MM (Z * sensors_poll_context_t) :=
  lazy_init_modules;;
  s ← get_st;
  modules ← lift (sub_hw_modules s);
  dev ← foldMM (λ dev m,
          '(sub_open_result, sub_hw_device) ← sub (λ t, sh_open t m name) (COpen m name);
          mret (if sub_open_result =? 0 then addSubHwDevice raw sub_hw_device dev else dev))
        modules (mkCtx [] [] 0);
  mret (0, dev).
End Commands.
