(* ===== verification/MultiHalScan.v ===== *)
(** * One pass of [poll] over the queues

    What the loop of [sensors_poll_context_t::poll] does between acquiring the
    lock and releasing it: it ends, makes no access out of bounds, takes the
    events of every queue in order, serves the queues in turn, and stops only
    when the caller's array is full or nothing is left. *)

From S2P Require Import Prelude Monad Float32 SensorQueue MultiHal.

#[local] Open Scope Z_scope.

Lemma st_spec {A} (b b' : list A) i v : st b i v = Some b' →
  blen b' = blen b ∧ ∀ j, ld b' j = if bool_decide (j = i) then Some v else ld b j.
Proof.
  intros [Hl Hld]%stn_spec. split; [done|]. intros j. rewrite Hld. change (blen [v]) with 1.
  case_bool_decide; case_bool_decide; try lia; [|done]. by replace (j - i) with 0 by lia.
Qed.

Lemma st_Some {A} (b : list A) i v : 0 <= i < blen b → ∃ b', st b i v = Some b'.
Proof. intros. apply stn_defined; [lia|]. change (blen [v]) with 1. lia. Qed.

(** ** Counting visits *)

(** Going round [n] places from [start], how often place [i] has been visited
    after [t] steps. *)
Definition visits (start n i t : Z) : Z := (t - (i - start) mod n + n - 1) / n.

Lemma visits_0 start n i : 0 < n → visits start n i 0 = 0.
Proof. intros. unfold visits. pose proof (Z.mod_pos_bound (i - start) n). apply Z.div_small. lia. Qed.

Lemma visits_step start n i t : 0 < n → 0 <= i < n →
  visits start n i (t + 1) = visits start n i t + if bool_decide (i = (start + t) mod n) then 1 else 0.
Proof.
  intros Hn Hi. unfold visits. set (d := (i - start) mod n).
  assert (0 <= d < n) as Hd by (apply Z.mod_pos_bound; lia).
  assert (i = (start + t) mod n ↔ (t - d) mod n = 0) as Hiff.
  { assert (i = (start + d) mod n) as Hi'.
    { unfold d. rewrite Zplus_mod_idemp_r. replace (start + (i - start)) with i by lia. by rewrite Z.mod_small. }
    split; intros E.
    - unfold d. rewrite Zminus_mod_idemp_r. replace (t - (i - start)) with (start + t - i) by lia.
      rewrite Zminus_mod, <- E, (Z.mod_small i) by lia. by rewrite Z.sub_diag, Z.mod_0_l by lia.
    - rewrite Hi'. replace (start + t) with (start + d + (t - d)) by lia.
      rewrite (Zplus_mod (start + d)), E, Z.add_0_r. by rewrite Zmod_mod. }
  pose proof (Z.div_mod (t - d) n ltac:(lia)). pose proof (Z.mod_pos_bound (t - d) n ltac:(lia)).
  clearbody d. case_bool_decide as E.
  - apply Hiff in E. rewrite E in *.
    replace (t + 1 - d + n - 1) with (((t - d) / n + 1) * n + 0) by lia.
    replace (t - d + n - 1) with ((t - d) / n * n + (n - 1)) by lia.
    rewrite !Z.div_add_l, (Z.div_small 0), (Z.div_small (n - 1)) by lia. lia.
  - assert ((t - d) mod n ≠ 0) as Hne by (intros ?; apply E, Hiff; done).
    replace (t + 1 - d + n - 1) with (((t - d) / n + 1) * n + (t - d) mod n) by lia.
    replace (t - d + n - 1) with (((t - d) / n + 1) * n + ((t - d) mod n - 1)) by lia.
    rewrite !Z.div_add_l, (Z.div_small ((t - d) mod n)), (Z.div_small ((t - d) mod n - 1)) by lia. lia.
Qed.

(** The places are visited in turn. *)
Lemma visits_fair start n i j t : 0 < n → visits start n i t <= visits start n j t + 1.
Proof.
  intros Hn. unfold visits. pose proof (Z.mod_pos_bound (i - start) n). pose proof (Z.mod_pos_bound (j - start) n).
  etransitivity; [apply Z.div_le_mono with (b := (t - (j - start) mod n + n - 1) + 1 * n); lia|].
  rewrite Z.div_add by lia. lia.
Qed.

(** ** The invariant of the loop *)

Section Scan.
Context (ftg : gmap FullHandle Z).
Abbreviation equeue := (SensorEventQueue sensors_event_t).
Abbreviation elog := (list (Z * sensors_event_t)).

(** The events taken from queue [i], and what the caller gets for all of
    them: the events with global handles, without those of unknown sensors. *)
Definition taken (i : Z) (log : elog) : list sensors_event_t := snd <$> filter (λ p, p.1 = i) log.
Definition remap (p : Z * sensors_event_t) : sensors_event_t := copy_event_remap_handle ftg p.2 p.1.
Definition output (log : elog) : list sensors_event_t := filter (λ e, sensor e ≠ -1) (remap <$> log).

Lemma taken_app i l1 l2 : taken i (l1 ++ l2) = taken i l1 ++ taken i l2.
Proof. unfold taken. by rewrite filter_app, fmap_app. Qed.
Lemma taken_one i j e : taken i [(j, e)] = if bool_decide (i = j) then [e] else [].
Proof. unfold taken. rewrite filter_cons. simpl. case_decide; case_bool_decide; congruence || done. Qed.
Lemma taken_outside n i log : Forall (λ p : Z * sensors_event_t, 0 <= p.1 < n) log → ¬ (0 <= i < n) → taken i log = [].
Proof.
  intros Hl Hi. induction Hl as [|[k e] log Hk Hl IH]; [done|]. simpl in Hk.
  change ((k, e) :: log) with ([(k, e)] ++ log). rewrite taken_app, taken_one, bool_decide_false by (intros ->; done). done.
Qed.
Lemma output_app l1 l2 : output (l1 ++ l2) = output l1 ++ output l2.
Proof. unfold output. by rewrite fmap_app, filter_app. Qed.
Lemma output_one p : output [p] = if sensor (remap p) =? -1 then [] else [remap p].
Proof.
  unfold output. simpl. rewrite filter_cons. destruct (_ =? _) eqn:E; zbool.
  - by rewrite decide_False by (intros H; by apply H).
  - by rewrite decide_True.
Qed.

(** [q] is [q0] after the events [l] have been removed. *)
Record drained (q0 q : equeue) (l : list sensors_event_t) : Prop := {
  dr_wf : queue_wf q;
  dr_contents : contents q0 = l ++ contents q;
  dr_cap : mCapacity q = mCapacity q0;
  dr_data : mData q = mData q0;
  dr_region : ∀ f k, region q0 f k → region q f k }.

Lemma drained_refl q : queue_wf q → drained q q [].
Proof. by split. Qed.

Lemma drained_step q0 q q' l e l' b : drained q0 q l → contents q = e :: l' → dequeue q = Some (q', b) →
  drained q0 q' (l ++ [e]) ∧ contents q' = l' ∧ b = bool_decide (mSize q = mCapacity q).
Proof.
  intros [Hwf Hc Hcap Hd Hr] Hl Hq. destruct (dequeue_spec q e l' Hwf Hl) as (q1 & Hq1 & ? & ? & ? & ? & _ & ?).
  rewrite Hq in Hq1. injection Hq1 as <- ->. split; [|done]. split; [done|..]; [|congruence..|auto].
  rewrite Hc, Hl, <- app_assoc. simpl. congruence.
Qed.

Record scan_rel (s0 s : scan) (log : elog) (t : Z) : Prop := {
  sr_len : blen (qs s) = blen (qs s0);
  sr_log : Forall (λ p : Z * sensors_event_t, 0 <= p.1 < blen (qs s0)) log;
  sr_queue : ∀ i q0, ld (qs s0) i = Some q0 → ∃ q, ld (qs s) i = Some q ∧ drained q0 q (taken i log);
  sr_next : next s = (next s0 + t) mod blen (qs s0);
  sr_visits : ∀ i q, ld (qs s) i = Some q → blen (taken i log) <= visits (next s0) (blen (qs s0)) i t ∧
    (contents q ≠ [] → blen (taken i log) = visits (next s0) (blen (qs s0)) i t);
  sr_data : blen (data s) = blen (data s0);
  sr_out : ldn (data s) 0 (eventsRead s) = Some (output log);
  sr_empties : 0 <= empties s <= blen (qs s0) ∧
    ∀ k q, 1 <= k <= empties s → ld (qs s) ((next s - k) mod blen (qs s0)) = Some q → contents q = [];
  sr_bcast : ∀ i q0 q, ld (qs s0) i = Some q0 → ld (qs s) i = Some q →
    mSize q0 = mCapacity q0 → mSize q ≠ mCapacity q → i ∈ bcast s }.

(** How much is left to do. *)
Definition work (s : scan) : nat :=
  pending_events (qs s) * S (length (qs s)) + (length (qs s) - Z.to_nat (empties s)).

(** ** One iteration *)

Lemma next_step a t n : 0 < n → rem32 ((a + t) mod n + 1) n = Some ((a + (t + 1)) mod n).
Proof.
  intros Hn. unfold rem32. pose proof (Z.mod_pos_bound (a + t) n Hn). destruct (n =? 0) eqn:E; zbool; [lia|].
  rewrite Z.rem_mod_nonneg by lia. rewrite Zplus_mod_idemp_l. do 2 f_equal. lia.
Qed.

Lemma ldn_st {A} (b d : list A) k l e : ldn b 0 k = Some l → st b k e = Some d →
  ldn d 0 k = Some l ∧ ldn d 0 (k + 1) = Some (l ++ [e]).
Proof.
  intros (Hl & _ & Hk & Hld)%ldn_Some [Hd Hst]%st_spec.
  assert (0 <= k) by (pose proof (blen_nonneg l); lia).
  assert (∀ j, 0 <= j < k → ld d j = ld l j) as Hj.
  { intros j ?. rewrite Hst, bool_decide_false by lia. by rewrite Hld by lia. }
  assert (ld d k = Some e) as Hde by (by rewrite Hst, bool_decide_true). apply ld_Some_bounds in Hde.
  destruct (ldn_defined d 0 k) as [l1 E1]; [lia..|]. destruct (ldn_defined d 0 (k + 1)) as [l2 E2]; [lia..|].
  rewrite E1, E2. apply ldn_Some in E1 as (Hl1 & _ & _ & H1). apply ldn_Some in E2 as (Hl2 & _ & _ & H2).
  split; f_equal; apply ld_eq; intros j.
  - destruct (decide (0 <= j < k)); [by rewrite H1, Hj by lia|]. rewrite !ld_ge by lia. done.
  - rewrite ld_app. destruct (decide (0 <= j < k + 1)).
    + rewrite H2 by lia. case_bool_decide; [rewrite <- Hj by lia; f_equal; lia|].
      assert (j = k) as -> by lia. rewrite Hl, Z.sub_diag, Z.add_0_l, Hst, bool_decide_true by done. done.
    + rewrite (ld_ge l2) by lia. case_bool_decide; [by rewrite ld_ge by lia|].
      rewrite ld_ge; [done|]. change (blen [e]) with 1. lia.
Qed.

Lemma sum_list_insert {A} (g : A → nat) (l : list A) k x y : l !! k = Some x →
  (sum_list (g <$> <[k := y]> l) + g x = sum_list (g <$> l) + g y)%nat.
Proof.
  revert k. induction l as [|z l IH]; intros [|k] Hk; try done.
  - injection Hk as ->. simpl. lia.
  - specialize (IH k Hk). simpl. unfold fmap in IH. lia.
Qed.

Lemma pending_events_st (l l' : list equeue) i q q' : ld l i = Some q → st l i q' = Some l' →
  (pending_events l' + length (contents q) = pending_events l + length (contents q'))%nat.
Proof.
  intros Hq Hst. pose proof (ld_Some_bounds _ _ _ Hq). unfold ld in Hq. rewrite bool_decide_true in Hq by lia.
  unfold st, stn in Hst. rewrite bool_decide_true in Hst by (change (blen [q']) with 1; lia). injection Hst as <-.
  exact (sum_list_insert (λ q, length (contents q)) l _ q q' Hq).
Qed.

Lemma scan_visit s0 s log t : scan_rel s0 s log t → 0 < blen (qs s0) →
  0 <= next s < blen (qs s0) ∧ ∃ q0 q, ld (qs s0) (next s) = Some q0 ∧ ld (qs s) (next s) = Some q ∧
    drained q0 q (taken (next s) log).
Proof.
  intros Hr Hn. pose proof (sr_next _ _ _ _ Hr) as Hnx. pose proof (Z.mod_pos_bound (next s0 + t) _ Hn).
  split; [lia|]. destruct (ld_lt (qs s0) (next s)) as [q0 Hq0]; [lia|].
  destruct (sr_queue _ _ _ _ Hr _ _ Hq0) as (q & ? & ?). eauto.
Qed.

Lemma scan_empty s0 s log t q : scan_rel s0 s log t → 0 < blen (qs s0) → empties s < blen (qs s0) →
  ld (qs s) (next s) = Some q → contents q = [] →
  scan_rel s0 (s <| empties := empties s + 1 |> <| next := (next s0 + (t + 1)) mod blen (qs s0) |>) log (t + 1).
Proof.
  intros [] Hn He Hq Hc. split; simpl; try done.
  - intros i q' Hq'. pose proof (ld_Some_bounds _ _ _ Hq') as Hb. rewrite visits_step by lia.
    destruct (sr_visits0 i q' Hq') as [Hle Heq]. case_bool_decide as Hi; [|by rewrite Z.add_0_r].
    rewrite <- sr_next0 in Hi. subst i. rewrite Hq in Hq'. injection Hq' as <-. split; [lia|done].
  - destruct sr_empties0 as [Hb Hk]. split; [lia|]. intros k q' Hk1 Hq'.
    assert (((next s0 + (t + 1)) mod blen (qs s0) - k) mod blen (qs s0) = (next s - (k - 1)) mod blen (qs s0)) as E.
    { rewrite sr_next0, !Zminus_mod_idemp_l. f_equal. lia. }
    rewrite E in Hq'. destruct (decide (k = 1)) as [->|]; [|apply (Hk (k - 1)); [lia|done]].
    rewrite Z.sub_diag, Z.sub_0_r, Z.mod_small in Hq' by (rewrite sr_next0; apply Z.mod_pos_bound; lia). congruence.
Qed.

Lemma scan_take s0 s log t q e l' q' b qs' d : scan_rel s0 s log t → 0 < blen (qs s0) →
  ld (qs s) (next s) = Some q → contents q = e :: l' → dequeue q = Some (q', b) →
  st (qs s) (next s) q' = Some qs' → st (data s) (eventsRead s) (remap (next s, e)) = Some d →
  scan_rel s0 (s <| empties := 0 |> <| data := d |>
      <| eventsRead := if sensor (remap (next s, e)) =? -1 then eventsRead s else eventsRead s + 1 |>
      <| qs := qs' |> <| bcast := if b then next s :: bcast s else bcast s |>
      <| next := (next s0 + (t + 1)) mod blen (qs s0) |>) (log ++ [(next s, e)]) (t + 1).
Proof.
  intros Hr Hn Hq Hc Hd [Hl Hst]%st_spec Hdat. pose proof (st_spec _ _ _ _ Hdat) as [Hdl _].
  destruct (scan_visit _ _ _ _ Hr Hn) as (Hnb & q0 & q1 & Hq0 & Hq1 & Hdr). rewrite Hq in Hq1. injection Hq1 as <-.
  destruct (drained_step _ _ _ _ _ _ _ Hdr Hc Hd) as (Hdr' & Hc' & Hb). destruct Hr. split; simpl.
  - congruence.
  - apply Forall_app. split; [done|]. by constructor.
  - intros i q1 Hi. rewrite taken_app, taken_one. destruct (decide (i = next s)) as [->|E].
    + exists q'. rewrite Hst, !bool_decide_true by done. split; [done|]. congruence.
    + rewrite Hst, !bool_decide_false, app_nil_r by done. auto.
  - done.
  - intros i q1 Hi. rewrite Hst in Hi. rewrite taken_app, taken_one.
    assert (0 <= i < blen (qs s0)) as Hib.
    { case_bool_decide; [by subst i|]. pose proof (ld_Some_bounds _ _ _ Hi). lia. }
    rewrite visits_step, <- sr_next0 by lia. case_bool_decide as E; [subst i|by rewrite app_nil_r, Z.add_0_r; auto].
    destruct (sr_visits0 _ _ Hq) as [_ Heq]. rewrite Hc in Heq. unfold blen in *. rewrite length_app. simpl.
    specialize (Heq ltac:(done)). lia.
  - congruence.
  - destruct (ldn_st _ _ _ _ _ sr_out0 Hdat) as [H1 H2]. rewrite output_app, output_one.
    destruct (_ =? _); [by rewrite app_nil_r|done].
  - split; [lia|]. lia.
  - intros i q1 q2 H1 H2 Hs1 Hs2. rewrite Hst in H2. case_bool_decide as E; [subst i|].
    + rewrite Hq0 in H1. injection H1 as <-. injection H2 as <-.
      destruct (decide (mSize q = mCapacity q)) as [Hf|Hf].
      * rewrite Hb, bool_decide_true by done. by left.
      * assert (next s ∈ bcast s) by (eapply sr_bcast0; done). destruct b; [by right|done].
    + assert (i ∈ bcast s) by (eapply sr_bcast0; done). destruct b; [by right|done].
Qed.

(** ** The loop *)

Lemma poll_iter_spec s0 s log t : scan_rel s0 s log t → empties s < blen (qs s0) →
  eventsRead s < blen (data s0) →
  ∃ s' log', poll_iter ftg (blen (qs s0)) s = Some s' ∧ scan_rel s0 s' log' (t + 1) ∧ (work s' < work s)%nat ∧
    eventsRead s <= eventsRead s' <= eventsRead s + 1.
Proof.
  intros Hr He Hm. pose proof (sr_empties _ _ _ _ Hr) as [Hem _]. assert (0 < blen (qs s0)) as Hn by lia.
  destruct (scan_visit _ _ _ _ Hr Hn) as (Hnb & q0 & q & Hq0 & Hq & Hdr). pose proof (dr_wf _ _ _ Hdr) as Hwf.
  pose proof (sr_len _ _ _ _ Hr) as Hlen. unfold poll_iter. rewrite Hq. cbn [mbind option_bind].
  pose proof (next_step (next s0) t _ Hn) as Hns. rewrite <- (sr_next _ _ _ _ Hr) in Hns.
  pose proof (peek_spec q Hwf) as Hp. destruct (peek q) as [i|]; cbn [mbind option_bind].
  - destruct Hp as (e & l' & Hc & Hld). rewrite Hld. cbn [mbind option_bind].
    change (copy_event_remap_handle ftg e (next s)) with (remap (next s, e)).
    pose proof (ldn_Some _ _ _ _ (sr_out _ _ _ _ Hr)) as (Ho & _). pose proof (blen_nonneg (output log)).
    destruct (st_Some (data s) (eventsRead s) (remap (next s, e))) as [d Hd].
    { rewrite (sr_data _ _ _ _ Hr). lia. }
    rewrite Hd. cbn [mbind option_bind]. destruct (dequeue_spec q e l' Hwf Hc) as (q' & Hdq & _ & Hc' & _).
    rewrite Hdq. cbn [mbind option_bind]. destruct (st_Some (qs s) (next s) q') as [qs' Hqs]; [lia|].
    rewrite Hqs. cbn [mbind option_bind]. cbn [next field_set]. rewrite Hns. cbn [mbind option_bind].
    eexists _, _. split; [reflexivity|]. split; [by eapply scan_take|]. split.
    + pose proof (pending_events_st _ _ _ _ _ Hq Hqs) as Hpe. rewrite Hc, Hc' in Hpe. simpl in Hpe.
      apply st_spec in Hqs as [Hql _]. unfold blen in Hql. unfold work. simpl. 
      assert (length qs' = length (qs s)) as -> by lia. unfold blen in *. nia.
    + simpl. destruct (_ =? _); lia.
  - cbn [next field_set]. rewrite Hns. cbn [mbind option_bind]. eexists _, _. split; [reflexivity|].
    split; [by eapply scan_empty|]. split; [|simpl; lia]. unfold work. simpl. unfold blen in *. lia.
Qed.

Lemma poll_scan_spec fuel s0 s log t m : scan_rel s0 s log t → (work s < fuel)%nat →
  eventsRead s <= m <= blen (data s0) →
  ∃ s' log' t', poll_scan fuel ftg m (blen (qs s0)) s = Some s' ∧ scan_rel s0 s' log' t' ∧ eventsRead s' <= m ∧
    (empties s' = blen (qs s0) ∨ eventsRead s' = m).
Proof.
  revert s log t. induction fuel as [|fuel IH]; intros s log t Hr Hw Hm; [lia|].
  pose proof (sr_empties _ _ _ _ Hr) as [Hem _]. simpl.
  destruct (empties s <? blen (qs s0)) eqn:E1; zbool; simpl.
  2:{ exists s, log, t. split_and!; try done; [lia|left; lia]. }
  destruct (eventsRead s <? m) eqn:E2; zbool.
  2:{ exists s, log, t. split_and!; try done; [lia|right; lia]. }
  destruct (poll_iter_spec s0 s log t Hr E1) as (s1 & log1 & -> & Hr1 & Hw1 & He1); [lia|].
  cbn [mbind option_bind]. apply (IH s1 log1 (t + 1)); [done|lia..].
Qed.

Lemma scan_start l start buf : Forall queue_wf l → 0 <= start < Z.max 1 (blen l) →
  scan_rel (mkScan l start 0 0 buf []) (mkScan l start 0 0 buf []) [] 0.
Proof.
  intros Hwf Hs. pose proof (blen_nonneg l). split; simpl; try done.
  - intros i q Hq. exists q. split; [done|]. apply drained_refl. unfold ld in Hq. case_bool_decide; [|done].
    by eapply Forall_lookup_1.
  - rewrite Z.add_0_r. destruct (decide (blen l = 0)) as [->|]; [by rewrite Z.mod_0_r|]. rewrite Z.mod_small; lia.
  - intros i q Hq%ld_Some_bounds. rewrite visits_0 by lia. done.
  - unfold ldn. rewrite bool_decide_true; [done|]. pose proof (blen_nonneg buf). lia.
  - split; lia.
  - congruence.
Qed.

(** Everything that is proved of a pass. *)
Record pass (l : list equeue) (start m : Z) (buf : list sensors_event_t) (s : scan) (log : elog) : Prop := {
  ps_len : blen (qs s) = blen l;
  ps_log : Forall (λ p : Z * sensors_event_t, 0 <= p.1 < blen l) log;
  ps_queue : ∀ i q0, ld l i = Some q0 → ∃ q, ld (qs s) i = Some q ∧ drained q0 q (taken i log);
  ps_next : 0 <= next s < Z.max 1 (blen l);
  ps_read : 0 <= eventsRead s <= m;
  ps_data : blen (data s) = blen buf;
  ps_out : ldn (data s) 0 (eventsRead s) = Some (output log);
  ps_empty : eventsRead s < m → ∀ i q, ld (qs s) i = Some q → contents q = [];
  ps_fair : ∀ i j qj, ld (qs s) j = Some qj → contents qj ≠ [] →
    blen (taken i log) <= blen (taken j log) + 1;
  ps_bcast : ∀ i q0 q, ld l i = Some q0 → ld (qs s) i = Some q →
    mSize q0 = mCapacity q0 → mSize q ≠ mCapacity q → i ∈ bcast s }.

Lemma poll_pass l start m buf : Forall queue_wf l → 0 <= start < Z.max 1 (blen l) → 0 <= m <= blen buf →
  ∃ s log, poll_section ftg l start m buf = Some s ∧ pass l start m buf s log.
Proof.
  intros Hwf Hst Hm. pose proof (blen_nonneg l) as Hn. set (s0 := mkScan l start 0 0 buf []).
  destruct (poll_scan_spec (scan_fuel l) s0 s0 [] 0 m) as (s & log & t & Hs & Hr & Hle & Hend);
    [by apply scan_start|unfold work, scan_fuel; simpl; lia|simpl; lia|].
  exists s, log. split; [exact Hs|]. pose proof (ldn_Some _ _ _ _ (sr_out _ _ _ _ Hr)) as (Ho & _).
  pose proof (blen_nonneg (output log)). destruct Hr as [Hlen Hlog Hq Hnx Hv Hd Hout [Hemp Hlast] Hbc]. simpl in *.
  split; try done; [|lia|..].
  - destruct (decide (blen l = 0)) as [E|]; [rewrite E in *; rewrite Z.mod_0_r in Hnx; simpl in *|].
    + destruct l; [|done]. unfold s0 in Hs.
      unfold poll_section, scan_fuel in Hs. simpl in Hs. injection Hs as <-. simpl. lia.
    + pose proof (Z.mod_pos_bound (start + t) (blen l)). lia.
  - intros Hlt i q Hi. pose proof (ld_Some_bounds _ _ _ Hi) as Hb. destruct Hend as [He|?]; [|lia].
    destruct (decide (blen l = 0)); [lia|].
    apply (Hlast (1 + (next s - 1 - i) mod blen l)); [pose proof (Z.mod_pos_bound (next s - 1 - i) (blen l)); lia|].
    replace (next s - (1 + (next s - 1 - i) mod blen l)) with (next s - 1 - (next s - 1 - i) mod blen l) by lia.
    rewrite Zminus_mod_idemp_r. replace (next s - 1 - (next s - 1 - i)) with i by lia. rewrite Z.mod_small by lia. done.
  - intros i j qj Hj Hne. pose proof (ld_Some_bounds _ _ _ Hj) as Hb. destruct (Hv j qj Hj) as [_ Hvj].
    rewrite Hvj by done. destruct (ld (qs s) i) as [qi|] eqn:Ei.
    + destruct (Hv i qi Ei) as [Hvi _]. etransitivity; [exact Hvi|]. apply visits_fair. lia.
    + rewrite (taken_outside (blen l) i log Hlog).
      2:{ intros ?. destruct (ld_lt (qs s) i) as [? ?]; [lia|congruence]. }
      change (blen []) with 0. pose proof (visits_fair start (blen l) j j t). rewrite <- Hvj by done.
      pose proof (blen_nonneg (taken j log)). lia.
Qed.
End Scan.

Lemma poll_scan_mono fuel fuel' ftg m n s r : (fuel <= fuel')%nat →
  poll_scan fuel ftg m n s = Some r → poll_scan fuel' ftg m n s = Some r.
Proof.
  revert fuel' s. induction fuel as [|fuel IH]; intros fuel' s Hle; destruct fuel' as [|fuel']; try lia; simpl;
    destruct ((empties s <? n) && (eventsRead s <? m)); try done.
  destruct (poll_iter ftg n s) as [s'|]; [|done]. simpl. apply IH. lia.
Qed.

(** C27: one pass of [poll] over its queues.  The loop ends within
    (pending events + 1) * (queues + 1) iterations, without an access out of
    bounds; what it returns are the events it took, with global handles,
    without those of unknown sensors, at most [m] of them; it takes the events
    of every queue from the front and leaves the rest; it stops short of [m]
    only when every queue is empty; and it is fair: a queue that still holds
    events has been served at most once less than any other. *)
Theorem poll_round_robin ftg l start m buf (Hwf : Forall queue_wf l) (Hs : 0 <= start < Z.max 1 (blen l))
  (Hm : 0 <= m <= blen buf) :
  ∃ s log, (∀ fuel, (scan_fuel l <= fuel)%nat →
      poll_scan fuel ftg m (blen l) (mkScan l start 0 0 buf []) = Some s) ∧
    pass ftg l start m buf s log.
Proof.
  destruct (poll_pass ftg l start m buf Hwf Hs Hm) as (s & log & E & Hp). exists s, log. split; [|done].
  intros fuel Hf. by eapply poll_scan_mono.
Qed.

(** Two queues, the first with two events of a known sensor, the second with
    one of an unknown and one of a known sensor. *)
Definition demo_event (h t : Z) : sensors_event_t := mkEvent 0 h 1 t 0 0 [] 0.
Definition demo_queue (e1 e2 : sensors_event_t) : SensorEventQueue sensors_event_t := mkQueue 3 2 2 [e2; e1; e1].
Definition demo_queues : list (SensorEventQueue sensors_event_t) :=
  [demo_queue (demo_event 5 10) (demo_event 5 11); demo_queue (demo_event 9 20) (demo_event 6 21)].
Definition demo_handles : gmap FullHandle Z := <[mkFull 0 5 := 1]> (<[mkFull 1 6 := 2]> ∅).

Lemma poll_round_robin_witness :
  ∃ s log, poll_scan 20 demo_handles 3 2 (mkScan demo_queues 0 0 0 (replicate 3 (demo_event 0 0)) []) = Some s ∧
    pass demo_handles demo_queues 0 3 (replicate 3 (demo_event 0 0)) s log ∧
    (sensor <$> data s) = [1; 1; 2] ∧ eventsRead s = 3.
Proof.
  assert (Forall queue_wf demo_queues) as Hwf by (repeat constructor; simpl; try lia; reflexivity).
  destruct (poll_round_robin demo_handles demo_queues 0 3 (replicate 3 (demo_event 0 0)) Hwf) as (s & log & E & Hp);
    [compute; split; congruence..|].
  exists s, log. specialize (E 20%nat). rewrite <- E by (compute; lia). split; [done|]. split; [done|].
  specialize (E ltac:(compute; lia)). revert E. clear. intros E. vm_compute in E. injection E as <-. done.
Defined.
