(* ===== verification/MultiHalSpec.v ===== *)
(** * The threads of the sensor multi-HAL

    One thread per sub-HAL fills its queue, the framework's thread polls.  A
    step is a critical section of one of them, a store of a sub-HAL into the
    region its thread handed to it, or the return of a sub-HAL's [poll]; a
    thread waiting on a condition wakes up after a broadcast or spuriously.
    The runs of this system are related to a specification that has neither
    buffers nor threads: every sub-HAL's events reach the framework in order,
    each once. *)

From S2P Require Import Prelude Monad Float32 SensorQueue MultiHal MultiHalScan.

#[local] Open Scope Z_scope.

(** ** The system *)

(** Where the framework's thread is: outside [poll], or waiting in it for
    data, with a broadcast received or not. *)
Inductive reader := RIdle | RWait (signalled : bool) (maxReads : Z) (buf : list sensors_event_t).

Record sys := mkSys {
  y_queues : list (SensorEventQueue sensors_event_t);
  y_next : Z;
  waiting_for_data : bool;
  y_writers : list writer;
  y_reader : reader }.

#[export] Instance sys_eta : Eta sys := λ s, mkSys
  (y_queues s) (y_next s) (waiting_for_data s) (y_writers s) (y_reader s).

(** What the environment sees: a sub-HAL's [poll] returning events, and
    [poll] returning events to the framework. *)
Inductive obs := OTau | OPolled (i : Z) (evs : list sensors_event_t) | OReturned (evs : list sensors_event_t).

(** A broadcast on the space condition of the queues [bc]. *)
Definition wake_writer (bc : list Z) (i : nat) (w : writer) : writer :=
  match w with
  | WWait _ => if bool_decide (Z.of_nat i ∈ bc) then WWait true else w
  | _ => w
  end.
Definition wake_writers (bc : list Z) (ws : list writer) : list writer := imap (wake_writer bc) ws.

(** A broadcast on [data_available_cond]. *)
Definition wake_reader (r : reader) : reader :=
  match r with RIdle => RIdle | RWait _ m buf => RWait true m buf end.

(** The end of a critical section of [poll]. *)
Definition after_poll (s : sys) (m : Z) (c : scan) : obs * sys :=
  let s := s <| y_queues := qs c |> <| y_next := next c |> <| y_writers := wake_writers (bcast c) (y_writers s) |> in
  if eventsRead c =? 0
  then (OTau, s <| waiting_for_data := true |> <| y_reader := RWait false m (data c) |>)
  else (OReturned (take (Z.to_nat (eventsRead c)) (data c)),
        s <| waiting_for_data := false |> <| y_reader := RIdle |>).

Section System.
Context (ftg : gmap FullHandle Z).

Inductive sys_step : sys → obs → sys → Prop :=
  | step_acquire s i q w w' ws :                       (* lock, or wake up *)
      ld (y_writers s) i = Some w → w = WReady ∨ (∃ b, w = WWait b) →
      ld (y_queues s) i = Some q → writer_acquire q = Some w' → st (y_writers s) i w' = Some ws →
      sys_step s OTau (s <| y_writers := ws |>)
  | step_store s i q f k j v d l :                     (* the sub-HAL stores an event *)
      ld (y_writers s) i = Some (WPoll f k) → ld (y_queues s) i = Some q → 0 <= j < k →
      st (mData q) (f + j) v = Some d → st (y_queues s) i (q <| mData := d |>) = Some l →
      sys_step s OTau (s <| y_queues := l |>)
  | step_poll_none s i f k ws :                        (* its poll returns no event *)
      ld (y_writers s) i = Some (WPoll f k) → st (y_writers s) i WReady = Some ws →
      sys_step s OTau (s <| y_writers := ws |>)
  | step_polled s i q f k evs ws :                     (* its poll returns events *)
      ld (y_writers s) i = Some (WPoll f k) → ld (y_queues s) i = Some q → 1 <= blen evs <= k →
      ldn (mData q) f (blen evs) = Some evs → st (y_writers s) i (WPolled f k evs) = Some ws →
      sys_step s (OPolled i evs) (s <| y_writers := ws |>)
  | step_mark s i q q' b f k evs l ws :                (* lock, markAsWritten, unlock *)
      ld (y_writers s) i = Some (WPolled f k evs) → ld (y_queues s) i = Some q →
      writer_mark (waiting_for_data s) (blen evs) q = Some (q', b) →
      st (y_queues s) i q' = Some l → st (y_writers s) i WReady = Some ws →
      sys_step s OTau (s <| y_queues := l |> <| y_writers := ws |>
                         <| y_reader := if b then wake_reader (y_reader s) else y_reader s |>)
  | step_poll s m buf c :                              (* the framework calls poll *)
      y_reader s = RIdle → 0 < m <= blen buf →
      poll_section ftg (y_queues s) (y_next s) m buf = Some c →
      sys_step s (after_poll s m c).1 (after_poll s m c).2
  | step_wake s b m buf c :                            (* poll wakes up *)
      y_reader s = RWait b m buf → poll_section ftg (y_queues s) (y_next s) m buf = Some c →
      sys_step s (after_poll s m c).1 (after_poll s m c).2.

(** ** The specification *)

(** The events sub-HAL [i] has produced, and those the framework has got. *)
Definition produced1 (i : Z) (o : obs) : list sensors_event_t :=
  match o with OPolled j evs => if bool_decide (i = j) then evs else [] | _ => [] end.
Definition produced (i : Z) (tr : list obs) : list sensors_event_t := mjoin (produced1 i <$> tr).
Definition delivered1 (o : obs) : list sensors_event_t := match o with OReturned evs => evs | _ => [] end.
Definition delivered (tr : list obs) : list sensors_event_t := mjoin (delivered1 <$> tr).

(** What a thread has polled and not yet marked. *)
Definition pending (w : writer) : list sensors_event_t := match w with WPolled _ _ evs => evs | _ => [] end.

(** What a writer relies on: its region is free and holds what the sub-HAL
    wrote, and it sleeps unsignalled only while its queue is full. *)
Definition writer_ok (q : SensorEventQueue sensors_event_t) (w : writer) : Prop :=
  match w with
  | WReady => True
  | WWait b => b = false → mSize q = mCapacity q
  | WPoll f k => region q f k ∧ 1 <= k
  | WPolled f k evs => region q f k ∧ 1 <= blen evs <= k ∧ ldn (mData q) f (blen evs) = Some evs
  end.

Record channel (i : Z) (tr : list obs) (log : list (Z * sensors_event_t)) (q : SensorEventQueue sensors_event_t)
    (w : writer) : Prop := {
  ch_wf : queue_wf q;
  ch_cap : mCapacity q = SENSOR_EVENT_QUEUE_CAPACITY;
  ch_events : produced i tr = taken i log ++ contents q ++ pending w;
  ch_writer : writer_ok q w }.

Record sys_inv (tr : list obs) (s : sys) (log : list (Z * sensors_event_t)) : Prop := {
  si_len : blen (y_writers s) = blen (y_queues s);
  si_next : 0 <= y_next s < Z.max 1 (blen (y_queues s));
  si_log : Forall (λ p : Z * sensors_event_t, 0 <= p.1 < blen (y_queues s)) log;
  si_out : delivered tr = output ftg log;
  si_chan : ∀ i q w, ld (y_queues s) i = Some q → ld (y_writers s) i = Some w → channel i tr log q w;
  si_flag : waiting_for_data s = match y_reader s with RIdle => false | RWait _ _ _ => true end;
  si_reader : match y_reader s with
    | RIdle => True
    | RWait b m buf => 0 < m <= blen buf ∧
        (b = false → ∀ i q, ld (y_queues s) i = Some q → contents q = [])
    end }.

(** A freshly opened device with one queue per array in [raws]. *)
Definition sys_init (raws : list (list sensors_event_t)) : sys :=
  mkSys (SensorEventQueue_new SENSOR_EVENT_QUEUE_CAPACITY <$> raws) 0 false (replicate (length raws) WReady) RIdle.

(** ** The invariant *)

Lemma produced_snoc i tr o : produced i (tr ++ [o]) = produced i tr ++ produced1 i o.
Proof. unfold produced. rewrite fmap_app, join_app. simpl. by rewrite app_nil_r. Qed.
Lemma delivered_snoc tr o : delivered (tr ++ [o]) = delivered tr ++ delivered1 o.
Proof. unfold delivered. rewrite fmap_app, join_app. simpl. by rewrite app_nil_r. Qed.

Lemma st_same {A} (l : list A) i x : ld l i = Some x → st l i x = Some l.
Proof.
  intros Hx. destruct (st_Some l i x) as [l' Hl']; [by eapply ld_Some_bounds|]. rewrite Hl'. f_equal.
  apply st_spec in Hl' as [_ Hl']. apply ld_eq. intros j. rewrite Hl'. case_bool_decide; congruence.
Qed.

(** A step of thread [i]: its queue and its state change, nothing is
    delivered, no other sub-HAL produces anything. *)
Lemma thread_rule tr s log i q w q' w' l ws o r : sys_inv tr s log →
  ld (y_queues s) i = Some q → ld (y_writers s) i = Some w →
  st (y_queues s) i q' = Some l → st (y_writers s) i w' = Some ws →
  channel i (tr ++ [o]) log q' w' → delivered1 o = [] → (∀ j, j ≠ i → produced1 j o = []) →
  r = y_reader s ∧ (contents q = [] → contents q' = []) ∨ r = wake_reader (y_reader s) →
  sys_inv (tr ++ [o]) (s <| y_queues := l |> <| y_writers := ws |> <| y_reader := r |>) log.
Proof.
  intros [] Hq Hw [Hl Hlq]%st_spec [Hlw Hws]%st_spec Hch Hd Hp Hr. split; simpl.
  - lia.
  - by rewrite Hl.
  - by rewrite Hl.
  - by rewrite delivered_snoc, Hd, app_nil_r.
  - intros j qj wj. rewrite Hlq, Hws. case_bool_decide as E; [subst j; by intros [= <-] [= <-]|].
    intros Hqj Hwj. destruct (si_chan0 j qj wj Hqj Hwj). split; [done..| |done].
    by rewrite produced_snoc, Hp, app_nil_r by done.
  - rewrite si_flag0. by destruct Hr as [[-> _]| ->]; destruct (y_reader s).
  - destruct Hr as [[-> Hc]| ->]; destruct (y_reader s) as [|b m buf]; simpl; try done.
    + destruct si_reader0 as [Hm Hb]. split; [done|]. intros E j qj. rewrite Hlq. case_bool_decide; [|by apply Hb].
      intros [= <-]. apply Hc. by eapply Hb.
    + by destruct si_reader0.
Qed.

Lemma channel_quiet i tr log q w w' : channel i tr log q w → pending w' = pending w → writer_ok q w' →
  channel i (tr ++ [OTau]) log q w'.
Proof. intros [] Hp Hw. split; try done. by rewrite produced_snoc, app_nil_r, Hp. Qed.

(** The first critical section of a writer is defined and leaves it waiting
    for space, or with at least one slot to fill. *)
Lemma writer_acquire_spec q : queue_wf q → mCapacity q = SENSOR_EVENT_QUEUE_CAPACITY →
  ∃ w, writer_acquire q = Some w ∧ pending w = [] ∧ writer_ok q w.
Proof.
  intros Hwf Hcap. unfold writer_acquire, waitForSpace_blocks. destruct (mSize q =? mCapacity q) eqn:E; zbool.
  - eexists. split; [reflexivity|]. split; [done|]. by intros _.
  - destruct (getWritableRegion_spec q SENSOR_EVENT_QUEUE_CAPACITY Hwf) as (k & out & -> & Ho); [done|].
    cbn [mbind option_bind]. destruct out as [f|]; [|by destruct Ho as [_ [?|?]]]. cbn [mbind option_bind].
    eexists. split; [reflexivity|]. split; [done|]. by destruct Ho as (? & ? & _).
Qed.

Lemma writer_mark_spec q f k evs b : queue_wf q → writer_ok q (WPolled f k evs) →
  ∃ q', writer_mark b (blen evs) q = Some (q', b) ∧ queue_wf q' ∧ mCapacity q' = mCapacity q ∧
    contents q' = contents q ++ evs.
Proof.
  intros Hwf (Hr & Hk & Hld). unfold writer_mark.
  destruct (markAsWritten_spec q f k evs Hwf Hr) as (q' & -> & ? & ? & ? & _); [lia|done|]. by eexists.
Qed.

Lemma ld_wake bc ws i w : ld (wake_writers bc ws) i = Some w ↔
  ∃ w0, ld ws i = Some w0 ∧ w = wake_writer bc (Z.to_nat i) w0.
Proof.
  unfold ld, wake_writers. case_bool_decide; [|by split; [|intros (? & ? & _)]]. rewrite list_lookup_imap.
  destruct (ws !! Z.to_nat i) as [w0|]; simpl; [|by split; [|intros (? & ? & _)]].
  split; [intros [= <-]; eauto|]. by intros (w1 & [= <-] & ->).
Qed.

Lemma wake_pending bc i w : pending (wake_writer bc i w) = pending w.
Proof. by destruct w as [|[]| |]; simpl; try case_bool_decide. Qed.

(** A writer still finds what it relies on after the reader has drained its
    queue, provided it was woken when space appeared. *)
Lemma wake_ok bc i q0 q l w : drained q0 q l → 0 <= i →
  (mSize q0 = mCapacity q0 → mSize q ≠ mCapacity q → i ∈ bc) →
  writer_ok q0 w → writer_ok q (wake_writer bc (Z.to_nat i) w).
Proof.
  intros [Hwf Hc Hcap Hd Hreg] Hi Hb Hok. destruct w as [|b|f k|f k evs]; simpl in *; [done|..].
  - rewrite Z2Nat.id by lia. case_bool_decide as E; [done|]. simpl. intros ->.
    destruct (decide (mSize q = mCapacity q)); [done|]. destruct E. auto.
  - destruct Hok. auto.
  - destruct Hok as (? & ? & ?). rewrite Hd. auto.
Qed.

Lemma take_ldn {A} (b l : list A) n : ldn b 0 n = Some l → take (Z.to_nat n) b = l.
Proof. unfold ldn. case_bool_decide; [|done]. by intros [= <-]. Qed.

Lemma inv_wf tr s log : sys_inv tr s log → Forall queue_wf (y_queues s).
Proof.
  intros []. apply Forall_lookup. intros i q Hq. assert (ld (y_queues s) (Z.of_nat i) = Some q) as Hq'.
  { unfold ld. by rewrite bool_decide_true, Nat2Z.id by lia. }
  destruct (ld_lt (y_writers s) (Z.of_nat i)) as [w Hw]; [rewrite si_len0; by eapply ld_Some_bounds|].
  by destruct (si_chan0 _ _ _ Hq' Hw).
Qed.

(** A critical section of [poll]. *)
Lemma poll_rule tr s log m buf c : sys_inv tr s log → 0 < m <= blen buf →
  poll_section ftg (y_queues s) (y_next s) m buf = Some c →
  ∃ log', sys_inv (tr ++ [(after_poll s m c).1]) (after_poll s m c).2 (log ++ log').
Proof.
  intros Hi Hm Hc. pose proof (inv_wf _ _ _ Hi) as Hwf. destruct Hi.
  destruct (poll_pass ftg (y_queues s) (y_next s) m buf Hwf) as (c' & log' & Hc' & Hps); [done|lia|].
  rewrite Hc in Hc'. injection Hc' as <-. destruct Hps. exists log'.
  pose proof (take_ldn _ _ _ ps_out) as Hout.
  assert (∀ o, (∀ j, produced1 j o = []) → ∀ i q w, ld (qs c) i = Some q →
    ld (wake_writers (bcast c) (y_writers s)) i = Some w → channel i (tr ++ [o]) (log ++ log') q w) as Hch.
  { intros o Ho i q w Hq Hw. apply ld_wake in Hw as (w0 & Hw & ->). pose proof (ld_Some_bounds _ _ _ Hq).
    destruct (ld_lt (y_queues s) i) as [q0 Hq0]; [lia|]. destruct (ps_queue i q0 Hq0) as (q1 & Hq1 & Hdr).
    rewrite Hq in Hq1. injection Hq1 as <-. destruct (si_chan0 i q0 w0 Hq0 Hw). split.
    - apply Hdr.
    - by rewrite (dr_cap _ _ _ Hdr).
    - rewrite produced_snoc, Ho, app_nil_r, ch_events0, wake_pending, taken_app, (dr_contents _ _ _ Hdr).
      by rewrite <- !app_assoc.
    - eapply wake_ok; [exact Hdr|lia| |done]. by eapply ps_bcast. }
  unfold after_poll. destruct (eventsRead c =? 0) eqn:E; zbool; simpl.
  - rewrite E in Hout. simpl in Hout. split; simpl; try done.
    + unfold wake_writers, blen in *. rewrite length_imap. lia.
    + by rewrite ps_len.
    + rewrite ps_len. by apply Forall_app.
    + rewrite delivered_snoc, output_app, <- Hout, app_nil_r. by rewrite app_nil_r.
    + by apply Hch.
    + split; [lia|]. intros _. apply ps_empty. lia.
  - split; simpl; try done.
    + unfold wake_writers, blen in *. rewrite length_imap. lia.
    + by rewrite ps_len.
    + rewrite ps_len. by apply Forall_app.
    + rewrite delivered_snoc, output_app, Hout. simpl. congruence.
    + by apply Hch.
Qed.

Lemma sys_step_inv tr s log o s' : sys_inv tr s log → sys_step s o s' → ∃ log', sys_inv (tr ++ [o]) s' (log ++ log').
Proof.
  intros Hi Hs. destruct Hs as [s i q w w' ws Hw Hrdy Hq Ha Hws|s i q f k j v d l Hw Hq Hj Hd Hl|s i f k ws Hw Hws
    |s i q f k evs ws Hw Hq Hk Hld Hws|s i q q' b f k evs l ws Hw Hq Hm Hl Hws|s m buf c Hr Hm Hc|s b m buf c Hr Hc].
  - pose proof (si_chan _ _ _ Hi i q w Hq Hw) as Hch. destruct (writer_acquire_spec q) as (w1 & Ha' & Hp & Hok);
      [apply Hch..|]. rewrite Ha in Ha'. injection Ha' as <-. exists []. rewrite app_nil_r.
    apply (thread_rule tr s log i q w q w' (y_queues s) ws OTau (y_reader s)); auto using st_same.
    eapply channel_quiet; [done| |done]. by destruct Hrdy as [->|[b ->]].
  - pose proof (si_chan _ _ _ Hi i q _ Hq Hw) as Hch. pose proof Hch as [Hwf Hcap Hev [Hrg Hk]].
    destruct (fill_spec q f k j v d Hwf Hrg Hj Hd) as [Hwf' Hc']. exists []. rewrite app_nil_r.
    apply (thread_rule tr s log i q (WPoll f k) (q <| mData := d |>) (WPoll f k) l (y_writers s) OTau (y_reader s));
      auto using st_same; [|left; split; [done|congruence]].
    split; [done..| |split; [by destruct Hrg|done]]. by rewrite produced_snoc, app_nil_r, Hc'.
  - assert (∃ q, ld (y_queues s) i = Some q) as [q Hq].
    { apply ld_lt. rewrite <- (si_len _ _ _ Hi). by eapply ld_Some_bounds. }
    exists []. rewrite app_nil_r.
    apply (thread_rule tr s log i q (WPoll f k) q WReady (y_queues s) ws OTau (y_reader s)); auto using st_same.
    by eapply channel_quiet; [by apply (si_chan _ _ _ Hi i q _ Hq Hw)|..].
  - pose proof (si_chan _ _ _ Hi i q _ Hq Hw) as [Hwf Hcap Hev [Hrg _]]. exists []. rewrite app_nil_r.
    apply (thread_rule tr s log i q (WPoll f k) q (WPolled f k evs) (y_queues s) ws (OPolled i evs) (y_reader s));
      auto using st_same.
    + split; [done..| |done]. rewrite produced_snoc, Hev. simpl. rewrite bool_decide_true, app_nil_r by done.
      by rewrite <- app_assoc.
    + intros j Hj. simpl. by rewrite bool_decide_false.
  - pose proof (si_chan _ _ _ Hi i q _ Hq Hw) as [Hwf Hcap Hev Hok].
    destruct (writer_mark_spec q f k evs (waiting_for_data s) Hwf Hok) as (q1 & Hm' & Hwf' & Hcap' & Hc').
    rewrite Hm in Hm'. injection Hm' as <- ->. exists []. rewrite app_nil_r.
    apply (thread_rule tr s log i q (WPolled f k evs) q' WReady l ws OTau); auto.
    + split; [done|congruence| |done]. rewrite produced_snoc, Hev, Hc'. simpl. by rewrite !app_nil_r.
    + pose proof (si_flag _ _ _ Hi) as Hf. right. rewrite Hf. by destruct (y_reader s).
  - by eapply poll_rule.
  - eapply poll_rule; [done| |done]. pose proof (si_reader _ _ _ Hi) as Hrd. rewrite Hr in Hrd. apply Hrd.
Qed.

Lemma sys_init_inv raws : Forall (λ raw, blen raw = SENSOR_EVENT_QUEUE_CAPACITY) raws → sys_inv [] (sys_init raws) [].
Proof.
  intros Hraw. split; simpl; try done.
  - unfold blen. rewrite length_replicate, length_fmap. done.
  - pose proof (blen_nonneg (SensorEventQueue_new SENSOR_EVENT_QUEUE_CAPACITY <$> raws)). lia.
  - intros i q w Hq Hw. unfold ld in *. case_bool_decide; [|done]. rewrite list_lookup_fmap in Hq.
    apply lookup_replicate in Hw as [-> _]. destruct (raws !! Z.to_nat i) as [raw|] eqn:Er; [|done]. injection Hq as <-.
    destruct (queue_new_spec SENSOR_EVENT_QUEUE_CAPACITY raw) as [? ?]; [done|by eapply Forall_lookup_1 in Hraw|].
    by split.
Qed.

Lemma sys_runs_inv raws tr s : Forall (λ raw, blen raw = SENSOR_EVENT_QUEUE_CAPACITY) raws →
  runs sys_step (sys_init raws) tr s → ∃ log, sys_inv tr s log.
Proof.
  intros Hraw Hr. remember (sys_init raws) as s0 eqn:E0. induction Hr as [s|s l s1 a s2 Hr IH Hs]; subst s.
  - exists []. by apply sys_init_inv.
  - destruct IH as [log Hi]; [done|]. destruct (sys_step_inv _ _ _ _ _ Hi Hs) as [log' ?]. eauto.
Qed.

(** C5: every event reaches the framework once and in order.  In every run of
    the writer threads, their sub-HALs and [poll], however interleaved, what
    [poll] has returned is the output of a sequence [log] of events such that
    for each sub-HAL the events it has produced are those of the sequence that
    come from it, then those in its queue, then those it has just handed over;
    the queue never holds more than 36. *)
Theorem events_delivered_in_order raws tr s
  (Hraw : Forall (λ raw, blen raw = SENSOR_EVENT_QUEUE_CAPACITY) raws)
  (Hrun : runs sys_step (sys_init raws) tr s) :
  ∃ log, delivered tr = output ftg log ∧
    Forall (λ p : Z * sensors_event_t, 0 <= p.1 < blen (y_queues s)) log ∧
    ∀ i q w, ld (y_queues s) i = Some q → ld (y_writers s) i = Some w →
      produced i tr = taken i log ++ contents q ++ pending w ∧ blen (contents q) <= SENSOR_EVENT_QUEUE_CAPACITY.
Proof.
  destruct (sys_runs_inv _ _ _ Hraw Hrun) as [log []]. exists log. split; [done|]. split; [done|].
  intros i q w Hq Hw. destruct (si_chan0 i q w Hq Hw). split; [done|]. rewrite contents_length by done.
  destruct ch_wf0. lia.
Qed.

(** When a pass of [poll] finds nothing to return, no queue held an event of
    a known sensor. *)
Lemma pass_nothing l start m buf c log : 0 < m → pass ftg l start m buf c log → eventsRead c = 0 →
  ∀ i q e, ld l i = Some q → e ∈ contents q → sensor (remap ftg (i, e)) = -1.
Proof.
  intros Hm [] E i q e Hq He. destruct (ps_queue i q Hq) as (q' & Hq' & Hdr).
  rewrite (dr_contents _ _ _ Hdr), (ps_empty ltac:(lia) i q' Hq'), app_nil_r in He.
  rewrite E in ps_out. apply take_ldn in ps_out. simpl in ps_out.
  unfold taken in He. apply list_elem_of_fmap in He as ([i' e'] & -> & [Hi Hin]%list_elem_of_filter). simpl in Hi. subst i'.
  destruct (decide (sensor (remap ftg (i, e')) = -1)) as [?|Hne]; [done|]. exfalso.
  assert (remap ftg (i, e') ∈ output ftg log) as Ho.
  { unfold output. apply list_elem_of_filter. split; [done|]. by apply list_elem_of_fmap_2. }
  rewrite <- ps_out in Ho. by apply not_elem_of_nil in Ho.
Qed.

(** C6: nobody sleeps while there is work, so the threads never block each
    other.  In every state reached: [poll] sleeps without a pending broadcast
    only when all queues are empty, a writer only when its queue is full, so
    never both at once; every critical section a thread may enter is defined;
    and a call of [poll] that finds an event of a known sensor in any queue
    returns with at least one event instead of waiting. *)
Theorem no_lost_wakeup raws tr s (Hraw : Forall (λ raw, blen raw = SENSOR_EVENT_QUEUE_CAPACITY) raws)
  (Hrun : runs sys_step (sys_init raws) tr s) :
  (∀ m buf, y_reader s = RWait false m buf →
     (∀ i q, ld (y_queues s) i = Some q → contents q = []) ∧ (∀ i, ld (y_writers s) i ≠ Some (WWait false))) ∧
  (∀ i q w, ld (y_queues s) i = Some q → ld (y_writers s) i = Some w →
     (w = WWait false → blen (contents q) = SENSOR_EVENT_QUEUE_CAPACITY) ∧ is_Some (writer_acquire q) ∧
     (∀ f k evs, w = WPolled f k evs → is_Some (writer_mark (waiting_for_data s) (blen evs) q))) ∧
  (∀ m buf, 0 < m <= blen buf → ∃ c, poll_section ftg (y_queues s) (y_next s) m buf = Some c ∧
     ∀ i q e, ld (y_queues s) i = Some q → e ∈ contents q → sensor (remap ftg (i, e)) ≠ -1 → 0 < eventsRead c).
Proof.
  destruct (sys_runs_inv _ _ _ Hraw Hrun) as [log Hi]. pose proof Hi as []. split_and!.
  - intros m buf Hr. rewrite Hr in si_reader0. destruct si_reader0 as [_ Hall]. split; [by apply Hall|].
    intros i Hw. destruct (ld_lt (y_queues s) i) as [q Hq]; [rewrite <- si_len0; by eapply ld_Some_bounds|].
    destruct (si_chan0 i q _ Hq Hw). simpl in ch_writer0. pose proof (contents_length q ch_wf0) as Hl.
    rewrite (Hall eq_refl i q Hq) in Hl. rewrite ch_writer0, ch_cap0 in Hl; done.
  - intros i q w Hq Hw. destruct (si_chan0 i q w Hq Hw). split_and!.
    + intros ->. rewrite contents_length by done. rewrite <- ch_cap0. by apply ch_writer0.
    + destruct (writer_acquire_spec q) as (w' & -> & _); [done..|]. by eexists.
    + intros f k evs ->. destruct (writer_mark_spec q f k evs (waiting_for_data s)) as (q' & -> & _); [done..|]. by eexists.
  - intros m buf Hm. destruct (poll_pass ftg (y_queues s) (y_next s) m buf) as (c & lg & Hc & Hp); [|done|lia|].
    { by eapply inv_wf. }
    exists c. split; [done|]. intros i q e Hq He Hne. destruct (decide (eventsRead c = 0)) as [E|].
    + destruct Hne. by eapply (pass_nothing _ _ m); [lia|..].
    + destruct Hp. lia.
Qed.
End System.

(** ** Executing a schedule *)

(** The scheduler's choices: which thread runs, and what a sub-HAL does. *)
Inductive action :=
  | AAcquire (i : Z) | AStore (i j : Z) (v : sensors_event_t) | APollNone (i : Z) | APolled (i n : Z)
  | AMark (i : Z) | APoll (m : Z) (buf : list sensors_event_t) | AWake.

Definition act (ftg : gmap FullHandle Z) (a : action) (s : sys) : option (obs * sys) :=
  match a with
  | AAcquire i =>
      w ← ld (y_writers s) i; q ← ld (y_queues s) i;
      match w with
      | WReady | WWait _ =>
          w' ← writer_acquire q; ws ← st (y_writers s) i w'; Some (OTau, s <| y_writers := ws |>)
      | _ => None
      end
  | AStore i j v =>
      w ← ld (y_writers s) i; q ← ld (y_queues s) i;
      match w with
      | WPoll f k =>
          if bool_decide (0 <= j < k) then
            d ← st (mData q) (f + j) v; l ← st (y_queues s) i (q <| mData := d |>); Some (OTau, s <| y_queues := l |>)
          else None
      | _ => None
      end
  | APollNone i =>
      w ← ld (y_writers s) i;
      match w with
      | WPoll f k => ws ← st (y_writers s) i WReady; Some (OTau, s <| y_writers := ws |>)
      | _ => None
      end
  | APolled i n =>
      w ← ld (y_writers s) i; q ← ld (y_queues s) i;
      match w with
      | WPoll f k =>
          evs ← ldn (mData q) f n;
          if bool_decide (1 <= n <= k) then
            ws ← st (y_writers s) i (WPolled f k evs); Some (OPolled i evs, s <| y_writers := ws |>)
          else None
      | _ => None
      end
  | AMark i =>
      w ← ld (y_writers s) i; q ← ld (y_queues s) i;
      match w with
      | WPolled f k evs =>
          '(q', b) ← writer_mark (waiting_for_data s) (blen evs) q;
          l ← st (y_queues s) i q'; ws ← st (y_writers s) i WReady;
          Some (OTau, s <| y_queues := l |> <| y_writers := ws |>
                        <| y_reader := if b : bool then wake_reader (y_reader s) else y_reader s |>)
      | _ => None
      end
  | APoll m buf =>
      match y_reader s with
      | RIdle => if bool_decide (0 < m <= blen buf) then
                   c ← poll_section ftg (y_queues s) (y_next s) m buf; Some (after_poll s m c)
                 else None
      | _ => None
      end
  | AWake =>
      match y_reader s with
      | RWait b m buf => c ← poll_section ftg (y_queues s) (y_next s) m buf; Some (after_poll s m c)
      | RIdle => None
      end
  end.

Lemma act_step ftg a s o s' : act ftg a s = Some (o, s') → sys_step ftg s o s'.
Proof.
  intros E. destruct a; simpl in E.
  - inv_bind. destruct x as [|b| |]; try done; inv_bind; eapply step_acquire; eauto.
  - inv_bind. destruct x as [| |f k|]; try done. case_bool_decide; [|done]. inv_bind. by eapply step_store.
  - inv_bind. destruct x as [| |f k|]; try done. inv_bind. by eapply step_poll_none.
  - inv_bind. destruct x as [| |f k|]; try done. inv_bind. case_bool_decide; [|done]. inv_bind.
    pose proof (ldn_Some _ _ _ _ E2) as [<- _]. by eapply step_polled.
  - inv_bind. destruct x as [| | |f k evs]; try done. inv_bind. destruct x as [q' b]. inv_bind. by eapply step_mark.
  - destruct (y_reader s) eqn:Er; [|done]. case_bool_decide; [|done]. inv_bind.
    rewrite (surjective_pairing (after_poll s m x)) in E. injection E as <- <-. by eapply step_poll.
  - destruct (y_reader s) eqn:Er; [done|]. inv_bind.
    rewrite (surjective_pairing (after_poll s maxReads x)) in E. injection E as <- <-. by eapply step_wake.
Qed.

Fixpoint exec (ftg : gmap FullHandle Z) (l : list action) (tr : list obs) (s : sys) : option (list obs * sys) :=
  match l with
  | [] => Some (tr, s)
  | a :: l => '(o, s) ← act ftg a s; exec ftg l (tr ++ [o]) s
  end.

Lemma exec_runs ftg l s0 tr s tr' s' : runs (sys_step ftg) s0 tr s → exec ftg l tr s = Some (tr', s') →
  runs (sys_step ftg) s0 tr' s'.
Proof.
  revert tr s. induction l as [|a l IH]; intros tr s Hr E; simpl in E; [by injection E as <- <-|].
  inv_bind. destruct x as [o s1]. eapply IH; [|exact E]. eapply runs_snoc; [done|]. by apply act_step in E0.
Qed.

(** The framework polls and has to wait; sub-HAL 1 delivers two events, one
    of an unknown sensor; the reader wakes up. *)
Definition demo_raws : list (list sensors_event_t) := replicate 2 (replicate 36 (demo_event 0 0)).
Definition demo_schedule : list action :=
  [APoll 4 (replicate 4 (demo_event 0 0)); AAcquire 1; AStore 1 0 (demo_event 9 20); AStore 1 1 (demo_event 6 21);
   APolled 1 2; AMark 1; AWake].

Lemma events_delivered_in_order_witness : ∃ tr s log,
  exec demo_handles demo_schedule [] (sys_init demo_raws) = Some (tr, s) ∧
  delivered tr = output demo_handles log ∧ (sensor <$> delivered tr) = [2] ∧
  (sensor <$> produced 1 tr) = [9; 6].
Proof.
  assert (∃ p, exec demo_handles demo_schedule [] (sys_init demo_raws) = Some p ∧
    (sensor <$> delivered p.1) = [2] ∧ (sensor <$> produced 1 p.1) = [9; 6]) as ([tr s] & E & Hd & Hp)
    by (eexists; vm_compute; done).
  destruct (events_delivered_in_order demo_handles demo_raws tr s) as (log & Hl & _).
  - repeat constructor.
  - eapply exec_runs; [constructor|exact E].
  - exists tr, s, log. exact (conj E (conj Hl (conj Hd Hp))).
Defined.

(** The same schedule up to the point where the writer has marked its events:
    the sleeping reader has been signalled. *)
Lemma no_lost_wakeup_witness : ∃ tr s c,
  exec demo_handles (take 6 demo_schedule) [] (sys_init demo_raws) = Some (tr, s) ∧
  y_reader s = RWait true 4 (replicate 4 (demo_event 0 0)) ∧
  poll_section demo_handles (y_queues s) (y_next s) 4 (replicate 4 (demo_event 0 0)) = Some c ∧ 0 < eventsRead c.
Proof.
  assert (∃ p, exec demo_handles (take 6 demo_schedule) [] (sys_init demo_raws) = Some p ∧
    y_reader p.2 = RWait true 4 (replicate 4 (demo_event 0 0)) ∧
    ∃ q, ld (y_queues p.2) 1 = Some q ∧ demo_event 6 21 ∈ contents q) as ([tr s] & E & Hr & q & Hq & He).
  { eexists. split; [vm_compute; reflexivity|]. split; [vm_compute; reflexivity|].
    eexists. split; [vm_compute; reflexivity|]. vm_compute. right. left. }
  destruct (no_lost_wakeup demo_handles demo_raws tr s) as (_ & _ & Hc).
  - repeat constructor.
  - eapply exec_runs; [constructor|exact E].
  - destruct (Hc 4 (replicate 4 (demo_event 0 0))) as (c & Ec & Hpos); [done|]. exists tr, s, c.
    split; [exact E|]. split; [exact Hr|]. split; [exact Ec|]. apply (Hpos 1 q _ Hq He). vm_compute. discriminate.
Defined.
