(* ===== verification/MultiHalHandles.v ===== *)
(** * Global sensor handles and forwarded commands

    The list [lazy_init_sensors_list] builds, the correspondence of its
    handles with the sub-HALs' own, and where the commands on a handle go. *)

From S2P Require Import Prelude Monad Float32 SensorQueue MultiHal MultiHalScan.
From stdpp Require Import strings.

#[local] Open Scope Z_scope.

Section Handles.
Context `{SH : SubHal}.

(** The sensors of all modules in order, each with its module's index, when
    module [m] has the sensors [L m]. *)
Definition all_sensors (L : Z → list sensor_t) (ims : list (Z * Z)) : list (Z * sensor_t) :=
  mjoin ((λ '(j, m), (λ x, (j, x)) <$> L m) <$> ims).

Lemma all_sensors_cons L j m ims : all_sensors L ((j, m) :: ims) = ((λ x, (j, x)) <$> L m) ++ all_sensors L ims.
Proof. done. Qed.

Definition indexed (ms : list Z) : list (Z * Z) := zip (seqZ 0 (blen ms)) ms.

Definition full_of (p : Z * sensor_t) : FullHandle := mkFull p.1 (handle p.2).

(** The state after the sensors [pre] have been copied to an array of [n]. *)
Record copied (n : Z) (pre : list (Z * sensor_t)) (arr : list sensor_t) (idx : Z) (s : multihal) : Prop := {
  cp_len : blen arr = n;
  cp_idx : idx = blen pre;
  cp_next : next_global_handle s = 1 + blen pre;
  cp_sensor : ∀ k p, ld pre k = Some p → ld arr k = Some (fix_sensor_fields (p.2 <| handle := 1 + k |>)) ∧
    global_to_full s !! (1 + k) = Some (full_of p);
  cp_known : ∀ g f, global_to_full s !! g = Some f → ∃ p, ld pre (g - 1) = Some p;
  cp_global : ∀ k p, ld pre k = Some p → ∃ k' p', full_to_global s !! full_of p = Some (1 + k') ∧
    ld pre k' = Some p' ∧ full_of p' = full_of p }.

Lemma ld_snoc {A} (l : list A) x k : ld (l ++ [x]) k = if bool_decide (k = blen l) then Some x else ld l k.
Proof.
  rewrite ld_app. case_bool_decide; case_bool_decide; try lia; try done.
  - subst k. by rewrite Z.sub_diag.
  - rewrite !ld_ge; [done|lia|]. change (blen [x]) with 1. lia.
Qed.

Lemma copy_sensor_spec n pre arr idx s j x : copied n pre arr idx s → blen pre < n <= 2 ^ 30 →
  ∃ arr' s', copy_sensor j (arr, idx) x s = Some ((arr', idx + 1), s') ∧ copied n (pre ++ [(j, x)]) arr' (idx + 1) s' ∧
    sub_hw_modules s' = sub_hw_modules s ∧ global_sensors_count s' = global_sensors_count s.
Proof.
  intros [] Hn. pose proof (blen_nonneg pre). unfold copy_sensor, assign_global_handle, mbind, ST_bind, get_st, lift, put_st.
  rewrite ck32_Some by (unfold INT_MIN, INT_MAX; lia). cbn [mbind option_bind].
  set (x' := fix_sensor_fields (x <| handle := next_global_handle s |>)).
  destruct (st_Some arr idx x') as [arr' Ha]; [lia|]. rewrite Ha. eexists _, _. split; [reflexivity|]. split; [|done].
  apply st_spec in Ha as [Hl Ha]. pose proof (ld_snoc pre (j, x)) as Hsn. split; simpl.
  - lia.
  - unfold blen in *. rewrite length_app. simpl. lia.
  - unfold blen in *. rewrite length_app. simpl. lia.
  - intros k p Hk. rewrite Hsn in Hk. rewrite Ha, cp_idx0. case_bool_decide as E.
    + injection Hk as <-. subst k. simpl. split; [unfold x'; by rewrite cp_next0|].
      rewrite cp_next0, lookup_insert_eq. done.
    + destruct (cp_sensor0 k p Hk) as [? ?]. split; [done|]. rewrite lookup_insert_ne by lia. done.
  - intros g f. rewrite cp_next0. destruct (decide (g = 1 + blen pre)) as [->|].
    + intros _. exists (j, x). rewrite Hsn, bool_decide_true by lia. done.
    + rewrite lookup_insert_ne by done. intros [p Hp]%cp_known0. exists p. rewrite Hsn, bool_decide_false by lia. done.
  - intros k p Hk. rewrite Hsn in Hk. destruct (decide (full_of p = mkFull j (handle x))) as [E|E].
    + exists (blen pre), (j, x). rewrite E, lookup_insert_eq, cp_next0, Hsn, bool_decide_true by done. done.
    + rewrite lookup_insert_ne by done. case_bool_decide; [injection Hk as <-; by destruct E|].
      destruct (cp_global0 k p Hk) as (k' & p' & H1 & H2 & H3). exists k', p'. split; [done|]. split; [|done].
      rewrite Hsn, bool_decide_false; [done|]. apply ld_Some_bounds in H2. lia.
Qed.

Lemma foldMM_cons {B C} (f : B → C → ST multihal B) x l b s b' s' :
  f b x s = Some (b', s') → foldMM f (x :: l) b s = foldMM f l b' s'.
Proof. intros E. cbn [foldMM]. unfold mbind at 1, ST_bind at 1. by rewrite E. Qed.

Lemma copy_sensors_spec n j l : ∀ pre arr idx s, copied n pre arr idx s → blen pre + blen l <= n <= 2 ^ 30 →
  ∃ arr' idx' s', foldMM (copy_sensor j) l (arr, idx) s = Some ((arr', idx'), s') ∧
    copied n (pre ++ ((λ x, (j, x)) <$> l)) arr' idx' s' ∧
    sub_hw_modules s' = sub_hw_modules s ∧ global_sensors_count s' = global_sensors_count s.
Proof.
  induction l as [|x l IH]; intros pre arr idx s Hc Hn.
  - exists arr, idx, s. simpl. rewrite app_nil_r. done.
  - unfold blen in Hn. simpl in Hn.
    destruct (copy_sensor_spec n pre arr idx s j x Hc) as (arr1 & s1 & E1 & Hc1 & Hm1 & Hg1); [unfold blen; lia|].
    destruct (IH _ _ _ _ Hc1) as (arr2 & idx2 & s2 & E2 & Hc2 & Hm2 & Hg2).
    { unfold blen. rewrite length_app. simpl. lia. }
    exists arr2, idx2, s2. rewrite (foldMM_cons _ _ _ _ _ _ _ E1). split; [exact E2|].
    rewrite <- app_assoc in Hc2. split; [exact Hc2|]. by rewrite Hm2, Hg2.
Qed.

Lemma copied_call n pre arr idx s c : copied n pre arr idx s → copied n pre arr idx (s <| calls := c |>).
Proof. by intros []. Qed.

Context (L : Z → list sensor_t).
(** A sub-HAL always reports the same sensors. *)
Hypothesis stable : ∀ t m, sh_sensors t m = L m.

Lemma copy_modules_spec n ims : ∀ pre arr idx s, copied n pre arr idx s →
  blen pre + blen (all_sensors L ims) <= n <= 2 ^ 30 →
  ∃ arr' idx' s', foldMM copy_module ims (arr, idx) s = Some ((arr', idx'), s') ∧
    copied n (pre ++ all_sensors L ims) arr' idx' s' ∧
    sub_hw_modules s' = sub_hw_modules s ∧ global_sensors_count s' = global_sensors_count s.
Proof.
  induction ims as [|[j m] ims IH]; intros pre arr idx s Hc Hn.
  - exists arr, idx, s. unfold all_sensors. simpl. rewrite app_nil_r. done.
  - rewrite all_sensors_cons in *. unfold blen in Hn. rewrite length_app, length_fmap in Hn.
    destruct (copy_sensors_spec n j (L m) pre arr idx (s <| calls := CSensorsList m :: calls s |>))
      as (arr1 & idx1 & s1 & E1 & Hc1 & Hm1 & Hg1); [by apply copied_call|unfold blen; lia|].
    destruct (IH _ _ _ _ Hc1) as (arr2 & idx2 & s2 & E2 & Hc2 & Hm2 & Hg2).
    { unfold blen in *. rewrite length_app, length_fmap. lia. }
    exists arr2, idx2, s2. split.
    + rewrite (foldMM_cons _ _ _ _ _ (arr1, idx1) s1); [exact E2|].
      unfold copy_module, get_sensors_list, sub, gets, modify, mbind, ST_bind. simpl. rewrite stable. exact E1.
    + rewrite <- app_assoc in Hc2. split; [exact Hc2|]. by rewrite Hm2, Hg2.
Qed.

Lemma blen_join_cons m ms : blen (mjoin (L <$> m :: ms)) = blen (L m) + blen (mjoin (L <$> ms)).
Proof. unfold blen. change (mjoin (L <$> m :: ms)) with (L m ++ mjoin (L <$> ms)). rewrite length_app. lia. Qed.

Lemma count_sensors ms s : 0 <= global_sensors_count s →
  global_sensors_count s + blen (mjoin (L <$> ms)) <= 2 ^ 30 →
  ∃ s', forM ms (λ m,
        l ← get_sensors_list m;
        s ← get_st;
        n ← lift (ck32 (global_sensors_count s + blen l));
        put_st (s <| global_sensors_count := n |>)) s = Some ((), s') ∧
    global_sensors_count s' = global_sensors_count s + blen (mjoin (L <$> ms)) ∧
    (∀ n arr, copied n [] arr 0 s → copied n [] arr 0 s') ∧ sub_hw_modules s' = sub_hw_modules s.
Proof.
  revert s. induction ms as [|m ms IH]; intros s H0 Hn; [exists s; simpl; rewrite Z.add_0_r; done|].
  rewrite blen_join_cons in *. pose proof (blen_nonneg (L m)). pose proof (blen_nonneg (mjoin (L <$> ms))).
  set (s1 := s <| calls := CSensorsList m :: calls s |> <| global_sensors_count := global_sensors_count s + blen (L m) |>).
  destruct (IH s1) as (s2 & E & Hc & Hcp & Hm); [simpl; lia|simpl; lia|].
  exists s2. split.
  - simpl. unfold mbind at 1, ST_bind at 1.
    unfold get_sensors_list, sub, gets, modify, get_st, lift, put_st, mbind, ST_bind. simpl. rewrite stable.
    rewrite ck32_Some by (unfold INT_MIN, INT_MAX; lia). exact E.
  - rewrite Hc, Hm. split; [simpl; lia|].
    split; [|done]. intros n arr Hcop. apply Hcp. by destruct Hcop.
Qed.

Lemma all_sensors_length ims : blen (all_sensors L ims) = blen (mjoin (L <$> ims.*2)).
Proof.
  unfold blen. induction ims as [|[j m] ims IH]; [done|]. rewrite all_sensors_cons, length_app, length_fmap. simpl.
  rewrite length_app. unfold fmap in IH. lia.
Qed.

Lemma indexed_snd ms : (indexed ms).*2 = ms.
Proof. unfold indexed. apply snd_zip. rewrite length_seqZ. unfold blen. lia. Qed.

(** No handle has been assigned yet. *)
Definition unassigned (s : multihal) : Prop :=
  global_to_full s = ∅ ∧ full_to_global s = ∅ ∧ next_global_handle s = 1.

Lemma lazy_init_modules_frame s s1 : lazy_init_modules s = Some ((), s1) →
  (unassigned s → unassigned s1) ∧ global_sensors_list s1 = global_sensors_list s.
Proof.
  unfold lazy_init_modules, add_so_module, sub, gets, modify, get_st, mbind, ST_bind, mret, ST_ret. simpl.
  destruct (sub_hw_modules s); [by intros [= <-]|]. simpl.
  destruct (sh_dlopen _ _) as [lib|]; simpl; [|by intros [= <-]].
  destruct (sh_dlsym _ _) as [err [m|]]; [destruct err|]; by intros [= <-].
Qed.

Lemma copied_start n raw s : blen raw = n → unassigned s → copied n [] raw 0 s.
Proof.
  intros Hl (Hg & Hf & Hn).
  assert (∀ k (p : Z * sensor_t), ld [] k = Some p → False) as Hk.
  { intros k p Hk%ld_Some_bounds. change (blen []) with 0 in Hk. lia. }
  split; [done|done|done|by intros k p ?%Hk| |by intros k p ?%Hk]. intros g f. by rewrite Hg, lookup_empty.
Qed.

Lemma lazy_init_list raw s s1 ms : lazy_init_modules s = Some ((), s1) → sub_hw_modules s1 = Some ms →
  global_sensors_list s = None → unassigned s → (∀ n, 0 <= n → blen (raw n) = n) →
  blen (mjoin (L <$> ms)) <= 2 ^ 30 →
  ∃ arr s', lazy_init_sensors_list raw s = Some ((), s') ∧ global_sensors_list s' = Some arr ∧
    global_sensors_count s' = blen arr ∧
    copied (blen (all_sensors L (indexed ms))) (all_sensors L (indexed ms)) arr (blen (all_sensors L (indexed ms))) s'.
Proof.
  intros E1 Hms Hnone Hun Hraw Hn. destruct (lazy_init_modules_frame s s1 E1) as [Hun1 Hl1]. specialize (Hun1 Hun).
  pose proof (blen_nonneg (mjoin (L <$> ms))) as H0. set (s2 := s1 <| global_sensors_count := 0 |>).
  destruct (count_sensors ms s2) as (s3 & E3 & Hc3 & Hcp3 & Hm3); [done|simpl; lia|]. simpl in Hc3.
  set (n := blen (mjoin (L <$> ms))) in *.
  assert (copied n [] (raw n) 0 s3) as Hcop by (apply Hcp3, copied_start; [auto|done]).
  assert (blen (all_sensors L (indexed ms)) = n) as Hall by (by rewrite all_sensors_length, indexed_snd).
  destruct (copy_modules_spec n (indexed ms) [] (raw n) 0 s3 Hcop) as (arr & idx & s4 & E4 & Hcp4 & Hm4 & Hg4).
  { change (blen []) with 0. lia. }
  exists arr, (s4 <| global_sensors_list := Some arr |>). rewrite Hall. simpl in Hcp4. split_and!.
  - unfold lazy_init_sensors_list. unfold mbind at 1, ST_bind at 1, get_st at 1. rewrite Hnone.
    unfold mbind at 1, ST_bind at 1. rewrite E1. unfold mbind at 1, ST_bind at 1, get_st at 1.
    unfold mbind at 1, ST_bind at 1, lift at 1. rewrite Hms. unfold mbind at 1, ST_bind at 1, modify at 1.
    unfold mbind at 1, ST_bind at 1. fold s2. rewrite E3. unfold mbind at 1, ST_bind at 1, get_st at 1.
    rewrite Hc3, Z.add_0_l. unfold mbind at 1, ST_bind at 1. unfold indexed in E4. rewrite E4. done.
  - done.
  - simpl. rewrite Hg4, Hc3. by rewrite (cp_len _ _ _ _ _ Hcp4).
  - pose proof (cp_idx _ _ _ _ _ Hcp4) as Hidx. rewrite Hall in Hidx. subst idx. by destruct Hcp4.
Qed.

Lemma fix_keeps_handle x : handle (fix_sensor_fields x) = handle x.
Proof. unfold fix_sensor_fields. cbn zeta. repeat case_match; done. Qed.

Lemma handles_of n pre arr idx s k p : copied n pre arr idx s → ld pre k = Some p →
  get_local_handle s (1 + k) = handle p.2 ∧ get_module_index s (1 + k) = p.1 ∧
  ((∀ k' p', ld pre k' = Some p' → full_of p' = full_of p → k' = k) →
   get_global_handle (full_to_global s) (full_of p) = 1 + k).
Proof.
  intros Hc Hk. destruct (cp_sensor _ _ _ _ _ Hc k p Hk) as [_ Hg]. unfold get_local_handle, get_module_index.
  rewrite Hg. split; [done|]. split; [done|]. intros Hu.
  destruct (cp_global _ _ _ _ _ Hc k p Hk) as (k' & p' & Hf & Hp' & He). unfold get_global_handle. rewrite Hf.
  by rewrite (Hu k' p' Hp' He).
Qed.

Lemma handles_outside n pre arr idx s g : copied n pre arr idx s → ¬ (1 <= g <= blen pre) →
  get_local_handle s g = -1 ∧ get_module_index s g = -1.
Proof.
  intros Hc Hg. unfold get_local_handle, get_module_index.
  destruct (global_to_full s !! g) as [f|] eqn:E; [|done].
  apply (cp_known _ _ _ _ _ Hc) in E as [p Hp]. apply ld_Some_bounds in Hp. lia.
Qed.

(** C28: the sensor list.  Whatever modules load, [get_sensors_list] returns
    the sensors of all of them in order, numbered from 1, each with its
    handle replaced by its number and its fields fixed up; the number leads
    back to the module and to the sub-HAL's own handle, and, when a module
    does not use a handle twice, that handle leads to the number, so an event
    of the sensor is reported under the handle of the list; other handles are
    unknown; and a second call returns the same list. *)
Theorem sensor_list_roundtrip raw s s1 ms (Hload : lazy_init_modules s = Some ((), s1))
  (Hms : sub_hw_modules s1 = Some ms) (Hnone : global_sensors_list s = None) (Hun : unassigned s)
  (Hraw : ∀ n, 0 <= n → blen (raw n) = n) (Hn : blen (mjoin (L <$> ms)) <= 2 ^ 30) :
  let sensors := all_sensors L (indexed ms) in
  ∃ arr s', module__get_sensors_list raw s = Some ((blen arr, Some arr), s') ∧ blen arr = blen sensors ∧
    (∀ k j x, ld sensors k = Some (j, x) →
      ld arr k = Some (fix_sensor_fields (x <| handle := 1 + k |>)) ∧
      handle (fix_sensor_fields (x <| handle := 1 + k |>)) = 1 + k ∧
      get_local_handle s' (1 + k) = handle x ∧ get_module_index s' (1 + k) = j ∧
      ((∀ k' p', ld sensors k' = Some p' → full_of p' = full_of (j, x) → k' = k) →
       ∀ e, ev_type e ≠ SENSOR_TYPE_META_DATA → sensor e = handle x →
         copy_event_remap_handle (full_to_global s') e j = e <| sensor := 1 + k |>)) ∧
    (∀ g, ¬ (1 <= g <= blen arr) → get_local_handle s' g = -1 ∧ get_module_index s' g = -1) ∧
    module__get_sensors_list raw s' = Some ((blen arr, Some arr), s').
Proof.
  cbn zeta. destruct (lazy_init_list raw s s1 ms Hload Hms Hnone Hun Hraw Hn) as (arr & s' & E & Hl & Hc & Hcp).
  pose proof (cp_len _ _ _ _ _ Hcp) as Hlen. exists arr, s'. split_and!.
  - unfold module__get_sensors_list, mbind, ST_bind. rewrite E. unfold get_st, mret, ST_ret. by rewrite Hl, Hc.
  - done.
  - intros k j x Hk. destruct (cp_sensor _ _ _ _ _ Hcp k _ Hk) as [Ha _].
    destruct (handles_of _ _ _ _ _ k _ Hcp Hk) as (H1 & H2 & H3). split; [done|]. split; [by rewrite fix_keeps_handle|].
    split; [done|]. split; [done|]. intros Hu e Ht Hs. unfold copy_event_remap_handle. cbn zeta.
    rewrite (proj2 (Z.eqb_neq _ _) Ht), Hs. f_equal. by apply H3.
  - intros g Hg. eapply handles_outside; [done|]. lia.
  - unfold module__get_sensors_list, lazy_init_sensors_list, mbind, ST_bind, get_st. rewrite Hl.
    unfold mret, ST_ret. by rewrite Hc, Hl.
Qed.
End Handles.

(** ** Commands *)

Section Forwarding.
Context `{SH : SubHal}.

Lemma device_known s c g j l d : global_to_full s !! g = Some (mkFull j l) → ld (sub_hw_devices c) j = Some d →
  get_local_handle s g = l ∧ get_device_by_handle s c g = Some d.
Proof.
  intros Hg Hd. unfold get_local_handle, get_device_by_handle, get_module_index. rewrite Hg. split; [done|]. simpl.
  pose proof (ld_Some_bounds _ _ _ Hd). destruct (j <? 0) eqn:E1; zbool; [lia|]. 
  destruct (j >=? _) eqn:E2; zbool; [lia|]. done.
Qed.

(** A command on a known handle reaches exactly the device that serves
    the handle's module, with the sub-HAL's own handle, and returns its
    answer; [batch] on the proxy only sets the period and always returns 0,
    [flush] is refused without a call.  A command on an unknown handle
    dereferences a null pointer. *)
Theorem commands_forwarded s c g j l d v (Hg : global_to_full s !! g = Some (mkFull j l))
  (Hd : ld (sub_hw_devices c) j = Some d) :
  activate c g v s = Some (sh_activate (calls s) d l v, s <| calls := CActivate d l v :: calls s |>) ∧
  setDelay c g v s = Some (sh_setDelay (calls s) d l v, s <| calls := CSetDelay d l v :: calls s |>) ∧
  (∀ flags timeout, device__batch c g flags v timeout s = Some (0, s <| calls := CSetDelay d l v :: calls s |>)) ∧
  device__flush c g s = Some (- EINVAL, s) ∧
  ∀ g', global_to_full s !! g' = None → activate c g' v s = None ∧ setDelay c g' v s = None.
Proof.
  destruct (device_known s c g j l d Hg Hd) as [Hl Hdev].
  unfold device__batch, activate, setDelay, sub, gets, modify, get_st, lift, mbind, ST_bind. rewrite Hl, Hdev.
  split_and!; try done.
  intros g' Hg'. unfold get_device_by_handle, get_module_index. by rewrite Hg'.
Qed.
End Forwarding.

(** ** A sub-HAL with two sensors *)

Definition demo_sensor (h t : Z) : sensor_t :=
  mkSensor "s" "v" 1 h t (f_of_Z 1) (f_of_Z 1) (f_of_Z 1) 0 300 300 "" "" 0 0.
Definition demo_list (m : Z) : list sensor_t :=
  if m =? 7 then [demo_sensor 5 SENSOR_TYPE_PROXIMITY; demo_sensor 6 SENSOR_TYPE_TILT_DETECTOR] else [].

#[local] Instance demo_sub : SubHal := {|
  sh_dlopen _ _ := Some 3; sh_dlsym _ _ := (false, Some 7); sh_sensors _ m := demo_list m;
  sh_open _ _ _ := (0, 70); sh_activate _ _ _ _ := 0; sh_setDelay _ _ _ _ := -1;
  sh_batch _ _ _ _ _ _ := 0; sh_flush _ _ _ := 0; sh_version _ := SENSORS_DEVICE_API_VERSION_1_3 |}.

Definition demo_raw (n : Z) : list sensor_t := replicate (Z.to_nat n) (demo_sensor 0 0).
Definition demo_loaded : multihal :=
  multihal_init <| sub_hw_modules := Some [7] |> <| calls := [CDlsym 3; CDlopen "libsensors.lsm6db0.so"] |>.

Lemma sensor_list_roundtrip_witness : ∃ arr s',
  module__get_sensors_list demo_raw multihal_init = Some ((2, Some arr), s') ∧
  ld arr 1 = Some ((demo_sensor 2 SENSOR_TYPE_TILT_DETECTOR) <| fifoReservedEventCount := 0 |>
                     <| fifoMaxEventCount := 0 |> <| s_flags := 3 |>) ∧
  get_local_handle s' 2 = 6 ∧ get_module_index s' 2 = 0.
Proof.
  destruct (@sensor_list_roundtrip demo_sub demo_list (λ _ _, eq_refl) demo_raw multihal_init demo_loaded [7])
    as (arr & s' & E & Hl & Hs & _); [reflexivity|reflexivity|reflexivity|done| | |].
  - intros n ?. unfold demo_raw, blen. rewrite length_replicate. lia.
  - done.
  - change (blen (all_sensors demo_list (indexed [7]))) with 2 in Hl. rewrite Hl in E. exists arr, s'.
    destruct (Hs 1 0 (demo_sensor 6 SENSOR_TYPE_TILT_DETECTOR) eq_refl) as (Ha & _ & H1 & H2 & _).
    exact (conj E (conj Ha (conj H1 H2))).
Defined.

Lemma commands_forwarded_witness :
  let s := demo_loaded <| global_to_full := <[2 := mkFull 0 6]> ∅ |> in
  activate (mkCtx [70] [] 0) 2 1 s = Some (0, s <| calls := CActivate 70 6 1 :: calls s |>) ∧
  activate (mkCtx [70] [] 0) 3 1 s = None.
Proof.
  cbn zeta. destruct (commands_forwarded (demo_loaded <| global_to_full := <[2 := mkFull 0 6]> ∅ |>)
    (mkCtx [70] [] 0) 2 0 6 70 1) as (Ha & _ & _ & _ & Hu); [reflexivity..|].
  split; [exact Ha|]. apply Hu. reflexivity.
Defined.

(** The vector of devices is parallel to the modules only when every module
    opens: after a failure the handles of module 0 reach the device of module
    1. *)
Definition failing_sub : SubHal := {|
  sh_dlopen _ _ := Some 3; sh_dlsym _ _ := (false, Some 7); sh_sensors _ m := demo_list m;
  sh_open _ m _ := if m =? 7 then (-1, 0) else (0, 80); sh_activate _ _ _ _ := 0; sh_setDelay _ _ _ _ := -1;
  sh_batch _ _ _ _ _ _ := 0; sh_flush _ _ _ := 0; sh_version _ := SENSORS_DEVICE_API_VERSION_1_3 |}.

Example failed_open_shifts_devices :
  let s := demo_loaded <| sub_hw_modules := Some [7; 8] |> <| global_to_full := <[1 := mkFull 0 5]> ∅ |> in
  match @open_sensors failing_sub [] "poll" s with
  | Some ((_, c), s) => get_device_by_handle s c 1 = Some 80
  | None => False
  end.
Proof. reflexivity. Qed.
