(* ===== verification/Params.v ===== *)
(** * Camera parameters (libmocha/camera/CameraParameters.cpp)

    The string map a camera client and its HAL exchange in flattened form.
    [mMap] is a [KeyedVector], a map that iterates in the order of its keys.
    C strings are [string]s (without their terminator).  [setFloat] and
    [getFloat] (the "%g" format and [strtof]) are not modelled. *)

From S2P Require Import Prelude.
From stdpp Require Import strings sorting.
From Stdlib Require Import Ascii.

#[local] Open Scope string_scope.
#[local] Open Scope list_scope.
#[local] Open Scope Z_scope.

(** ** The C string functions *)

(** [strchr]: the text in front of and behind the first [c]. *)
Fixpoint strchr (c : ascii) (s : string) : option (string * string) :=
  match s with
  | EmptyString => None
  | String a s' =>
      if bool_decide (a = c) then Some ("", s') else
      match strchr c s' with Some (x, y) => Some (String a x, y) | None => None end
  end.

Definition char_code (a : ascii) : Z := Z.of_nat (nat_of_ascii a).

Definition isspace (a : ascii) : bool :=
  let n := char_code a in (n =? 32) || ((9 <=? n) && (n <=? 13)).

(** The value of a digit in bases up to 16. *)
Definition digit_value (a : ascii) : option Z :=
  let n := char_code a in
  if (48 <=? n) && (n <=? 57) then Some (n - 48)
  else if (97 <=? n) && (n <=? 102) then Some (n - 87)
  else if (65 <=? n) && (n <=? 70) then Some (n - 55)
  else None.

(** The value of the digits in front and the rest of the string. *)
Fixpoint read_digits (base : Z) (s : string) (acc : Z) : Z * string :=
  match s with
  | EmptyString => (acc, s)
  | String a s' =>
      match digit_value a with
      | Some d => if d <? base then read_digits base s' (acc * base + d) else (acc, s)
      | None => (acc, s)
      end
  end.

Definition is_digit (base : Z) (s : string) : bool :=
  match s with
  | String a _ => match digit_value a with Some d => d <? base | None => false end
  | EmptyString => false
  end.

Fixpoint skip_space (s : string) : string :=
  match s with String a s' => if isspace a then skip_space s' else s | EmptyString => s end.

Definition read_sign (s : string) : bool * string :=
  match s with
  | String a s' => if bool_decide (a = "-"%char) then (true, s')
                   else if bool_decide (a = "+"%char) then (false, s') else (false, s)
  | EmptyString => (false, s)
  end.

(** [0x] in front of a hexadecimal digit, in bases 0 and 16. *)
Definition read_hex_prefix (s : string) : option string :=
  match s with
  | String a (String b s') =>
      if bool_decide (a = "0"%char) && (bool_decide (b = "x"%char) || bool_decide (b = "X"%char))
         && is_digit 16 s'
      then Some s' else None
  | _ => None
  end.

(** [long] has 32 bits on this device. *)
Definition saturate (z : Z) : Z := Z.max INT_MIN (Z.min INT_MAX z).

(** [strtol]: the value and [*end]; without digits the value is 0 and [*end]
    the whole string. *)
Definition strtol (base : Z) (s : string) : Z * string :=
  let '(neg, t) := read_sign (skip_space s) in
  let '(base, t) :=
    match (if (base =? 0) || (base =? 16) then read_hex_prefix t else None) with
    | Some t' => (16, t')
    | None => (if base =? 0 then (match t with
                                  | String a _ => if bool_decide (a = "0"%char) then 8 else 10
                                  | EmptyString => 10 end)
               else base, t)
    end in
  if is_digit base t then
    let '(v, r) := read_digits base t 0 in (saturate (if neg : bool then - v else v), r)
  else (0, s).

(** "%d" *)
Definition digit_char (d : Z) : ascii := ascii_of_nat (Z.to_nat (48 + d)).

Fixpoint print_digits (fuel : nat) (n : Z) (acc : string) : string :=
  match fuel with
  | O => acc
  | S fuel =>
      let acc := String (digit_char (n mod 10)) acc in
      if n <? 10 then acc else print_digits fuel (n / 10) acc
  end.

(** Ten digits are enough for an [int]. *)
Definition print_int (z : Z) : string :=
  if z <? 0 then String "-" (print_digits 10 (- z) "") else print_digits 10 z "".

(** [sprintf (str, ...)] into an array of [size] characters; a text that does
    not fit with its terminator is undefined behaviour. *)
Definition sprintf (size : nat) (text : string) : option string :=
  if (String.length text <? size)%nat then Some text else None.

(** ** The map *)

Abbreviation params := (gmap string string).

(** The order of [strcmp]. *)
Fixpoint str_le (s t : string) : bool :=
  match s, t with
  | EmptyString, _ => true
  | String _ _, EmptyString => false
  | String a s', String b t' =>
      if bool_decide (a = b) then str_le s' t' else char_code a <? char_code b
  end.

Definition key_le (x y : string * string) : Prop := str_le x.1 y.1 = true.
#[export] Instance key_le_dec x y : Decision (key_le x y).
Proof. unfold key_le. apply _. Defined.

(** [keyAt] and [valueAt]. *)
Definition entries (m : params) : list (string * string) := merge_sort key_le (map_to_list m).

Fixpoint flatten_entries (l : list (string * string)) : string :=
  match l with
  | [] => ""
  | [(k, v)] => k +:+ "=" +:+ v
  | (k, v) :: l' => k +:+ "=" +:+ v +:+ ";" +:+ flatten_entries l'
  end.

Definition flatten (m : params) : string := flatten_entries (entries m).

Fixpoint unflatten_loop (fuel : nat) (a : string) (m : params) : option params :=
  match fuel with
  | O => None
  | S fuel =>
      match strchr "=" a with
      | None => Some m
      | Some (k, a) =>
          match strchr ";" a with
          | None => Some (<[k := a]> m)
          | Some (v, a) => unflatten_loop fuel a (<[k := v]> m)
          end
      end
  end.

(** Every iteration consumes a character. *)
Definition unflatten (s : string) : option params := unflatten_loop (S (String.length s)) s ∅.

Definition contains (c : ascii) (s : string) : bool :=
  match strchr c s with Some _ => true | None => false end.

Definition set_ (key value : option string) (m : params) : params :=
  match key, value with
  | Some k, Some v =>
      if contains "=" k || contains ";" k then m else
      if contains "=" v || contains ";" v then m else <[k := v]> m
  | _, _ => m
  end.

Definition set_int (key : string) (value : Z) (m : params) : option params :=
  str ← sprintf 16 (print_int value); Some (set_ (Some key) (Some str) m).

(** [None] a null pointer: the key is missing or its value empty. *)
Definition get (key : string) (m : params) : option string :=
  match default "" (m !! key) with EmptyString => None | v => Some v end.

Definition getInt (key : string) (m : params) : Z :=
  match get key m with None => -1 | Some v => (strtol 0 v).1 end.

Definition remove (key : string) (m : params) : params := delete key m.

Definition isEmpty (m : params) : bool := bool_decide (m = ∅).

(** ** Sizes *)

(** [parse_pair]: the two numbers and [*endptr], or [None] for -1. *)
Definition parse_pair (str : string) (delim : ascii) : option (Z * Z * string) :=
  let '(w, e) := strtol 10 str in
  match e with
  | String a e' =>
      if bool_decide (a = delim) then let '(h, e'') := strtol 10 e' in Some (w, h, e'') else None
  | EmptyString => None
  end.

(** The sizes pushed, in order; [None] when the fuel runs out. *)
Fixpoint parse_sizes (fuel : nat) (sizeStartPtr : string) (sizes : list (Z * Z)) : option (list (Z * Z)) :=
  match fuel with
  | O => None
  | S fuel =>
      match parse_pair sizeStartPtr "x" with
      | None => Some sizes
      | Some (width, height, p) =>
          match p with
          | EmptyString => Some (sizes ++ [(width, height)])
          | String a p' =>
              if bool_decide (a = ","%char) then parse_sizes fuel p' (sizes ++ [(width, height)])
              else Some sizes
          end
      end
  end.

Definition parseSizesList (sizesStr : option string) : option (list (Z * Z)) :=
  match sizesStr with None => Some [] | Some s => parse_sizes (S (String.length s)) s [] end.

Definition KEY_PREVIEW_SIZE := "preview-size".
Definition KEY_SUPPORTED_PREVIEW_SIZES := "preview-size-values".
Definition KEY_PREVIEW_FORMAT := "preview-format".
Definition KEY_SUPPORTED_PREVIEW_FORMATS := "preview-format-values".
Definition KEY_PREVIEW_FRAME_RATE := "preview-frame-rate".
Definition KEY_PREVIEW_FPS_RANGE := "preview-fps-range".
Definition KEY_PICTURE_SIZE := "picture-size".
Definition KEY_SUPPORTED_PICTURE_SIZES := "picture-size-values".
Definition KEY_PICTURE_FORMAT := "picture-format".
Definition KEY_VIDEO_SIZE := "video-size".
Definition KEY_SUPPORTED_VIDEO_SIZES := "video-size-values".
Definition KEY_PREFERRED_PREVIEW_SIZE_FOR_VIDEO := "preferred-preview-size-for-video".

(** "%dx%d" into 32 characters. *)
Definition set_size (key : string) (width height : Z) (m : params) : option params :=
  str ← sprintf 32 (print_int width +:+ "x" +:+ print_int height); Some (set_ (Some key) (Some str) m).

(** The pair under a key; -1 and -1 when there is none. *)
Definition get_pair (key : string) (delim : ascii) (m : params) : Z * Z :=
  match get key m with
  | None => (-1, -1)
  | Some p => match parse_pair p delim with Some (a, b, _) => (a, b) | None => (-1, -1) end
  end.

Definition setPreviewSize := set_size KEY_PREVIEW_SIZE.
Definition getPreviewSize := get_pair KEY_PREVIEW_SIZE "x".
Definition getPreferredPreviewSizeForVideo := get_pair KEY_PREFERRED_PREVIEW_SIZE_FOR_VIDEO "x".
Definition getSupportedPreviewSizes (m : params) := parseSizesList (get KEY_SUPPORTED_PREVIEW_SIZES m).
Definition setVideoSize := set_size KEY_VIDEO_SIZE.
Definition getVideoSize := get_pair KEY_VIDEO_SIZE "x".
Definition getSupportedVideoSizes (m : params) := parseSizesList (get KEY_SUPPORTED_VIDEO_SIZES m).
Definition setPreviewFrameRate := set_int KEY_PREVIEW_FRAME_RATE.
Definition getPreviewFrameRate := getInt KEY_PREVIEW_FRAME_RATE.
Definition getPreviewFpsRange := get_pair KEY_PREVIEW_FPS_RANGE ",".
Definition setPreviewFormat (format : option string) := set_ (Some KEY_PREVIEW_FORMAT) format.
Definition getPreviewFormat := get KEY_PREVIEW_FORMAT.
Definition setPictureSize := set_size KEY_PICTURE_SIZE.
Definition getPictureSize := get_pair KEY_PICTURE_SIZE "x".
Definition getSupportedPictureSizes (m : params) := parseSizesList (get KEY_SUPPORTED_PICTURE_SIZES m).
Definition setPictureFormat (format : option string) := set_ (Some KEY_PICTURE_FORMAT) format.
Definition getPictureFormat := get KEY_PICTURE_FORMAT.

(** ** Formats *)

Definition HAL_PIXEL_FORMAT_YCbCr_422_SP : Z := 0x10.
Definition HAL_PIXEL_FORMAT_YCrCb_420_SP : Z := 0x11.
Definition HAL_PIXEL_FORMAT_YCbCr_422_I : Z := 0x14.
Definition HAL_PIXEL_FORMAT_YV12 : Z := 0x32315659.
Definition HAL_PIXEL_FORMAT_RGB_565 : Z := 4.
Definition HAL_PIXEL_FORMAT_RGBA_8888 : Z := 1.
Definition HAL_PIXEL_FORMAT_RAW16 : Z := 0x20.

Definition previewFormatToEnum (format : option string) : Z :=
  match format with
  | None => HAL_PIXEL_FORMAT_YCrCb_420_SP
  | Some f =>
      if bool_decide (f = "yuv422sp") then HAL_PIXEL_FORMAT_YCbCr_422_SP
      else if bool_decide (f = "yuv420sp") then HAL_PIXEL_FORMAT_YCrCb_420_SP
      else if bool_decide (f = "yuv422i-yuyv") then HAL_PIXEL_FORMAT_YCbCr_422_I
      else if bool_decide (f = "yuv420p") then HAL_PIXEL_FORMAT_YV12
      else if bool_decide (f = "rgb565") then HAL_PIXEL_FORMAT_RGB_565
      else if bool_decide (f = "rgba8888") then HAL_PIXEL_FORMAT_RGBA_8888
      else if bool_decide (f = "bayer-rggb") then HAL_PIXEL_FORMAT_RAW16
      else -1
  end.

(** [strtok_r (s, ",", ...)]: the non-empty pieces between commas. *)
Fixpoint strtok (s acc : string) : list string :=
  let token := match acc with EmptyString => [] | _ => [acc] end in
  match s with
  | EmptyString => token
  | String a s' => if bool_decide (a = ","%char) then token ++ strtok s' "" else strtok s' (acc +:+ String a "")
  end.

Definition getSupportedPreviewFormats (m : params) : list Z :=
  match get KEY_SUPPORTED_PREVIEW_FORMATS m with
  | None => []
  | Some s => filter (λ f, f ≠ -1) ((λ t, previewFormatToEnum (Some t)) <$> strtok s "")
  end.

Example params_example :
  let m := set_ (Some "preview-size-values") (Some "640x480,1280x720") (set_ (Some "a=b") (Some "c") ∅) in
  flatten m = "preview-size-values=640x480,1280x720" ∧
  getSupportedPreviewSizes m = Some [(640, 480); (1280, 720)] ∧
  getSupportedPreviewFormats (set_ (Some "preview-format-values") (Some "yuv420sp,,what,yuv420p") ∅)
    = [HAL_PIXEL_FORMAT_YCrCb_420_SP; HAL_PIXEL_FORMAT_YV12] ∧
  getInt "k" (set_ (Some "k") (Some "012") ∅) = 10.
Proof. vm_compute. done. Qed.

(** ** Printing and reading numbers *)

Lemma strchr_app c s t : contains c s = false → strchr c (s +:+ String c t) = Some (s, t).
Proof.
  unfold contains. induction s as [|a s IH]; intros H; simpl in *; [by rewrite bool_decide_true|].
  case_bool_decide; [done|]. destruct (strchr c s) as [[]|]; [done|]. by rewrite IH.
Qed.

Lemma strchr_None c s : contains c s = false → strchr c s = None.
Proof. unfold contains. by destruct (strchr c s). Qed.

Lemma strchr_spec c s x y : strchr c s = Some (x, y) →
  s = x +:+ String c y ∧ contains c x = false.
Proof.
  revert x y. induction s as [|a s IH]; intros x y H; simpl in H; [done|]. case_bool_decide as E.
  - injection H as <- <-. by subst.
  - destruct (strchr c s) as [[x' y']|]; [|done]. injection H as <- <-. destruct (IH x' y' eq_refl) as [-> Hx].
    split; [done|]. unfold contains in *. simpl. rewrite bool_decide_false by done. by destruct (strchr c x').
Qed.

Lemma digit_char_value d : 0 <= d < 10 → digit_value (digit_char d) = Some d ∧ isspace (digit_char d) = false ∧
  digit_char d ≠ "-"%char ∧ digit_char d ≠ "+"%char ∧ digit_char d ≠ "x"%char ∧ digit_char d ≠ "X"%char ∧
  digit_char d ≠ "="%char ∧ digit_char d ≠ ";"%char ∧ digit_char d ≠ ","%char ∧ (digit_char d = "0"%char → d = 0).
Proof.
  intros Hd. assert (d ∈ [0; 1; 2; 3; 4; 5; 6; 7; 8; 9]) as Hin.
  { rewrite !elem_of_cons. lia. }
  repeat (apply elem_of_cons in Hin as [->|Hin]; [vm_compute; split_and!; (reflexivity || discriminate || done)|]).
  by apply elem_of_nil in Hin.
Qed.

Lemma print_digits_app fuel n acc r : print_digits fuel n acc +:+ r = print_digits fuel n (acc +:+ r).
Proof.
  revert n acc. induction fuel as [|fuel IH]; intros n acc; [done|]. simpl. destruct (n <? 10); [done|]. by rewrite IH.
Qed.

Lemma print_digits_length fuel n acc : (String.length (print_digits fuel n acc) <= fuel + String.length acc)%nat.
Proof.
  revert n acc. induction fuel as [|fuel IH]; intros n acc; simpl; [lia|]. destruct (n <? 10); simpl; [lia|].
  etransitivity; [apply IH|]. simpl. lia.
Qed.

Lemma pow10_S fuel : 10 ^ Z.of_nat (S fuel) = 10 * 10 ^ Z.of_nat fuel.
Proof. rewrite Nat2Z.inj_succ, Z.pow_succ_r by lia. done. Qed.

Lemma read_print fuel n acc : 0 <= n < 10 ^ Z.of_nat fuel → (0 < fuel)%nat →
  read_digits 10 (print_digits fuel n acc) 0 = read_digits 10 acc n.
Proof.
  revert n acc. induction fuel as [|fuel IH]; intros n acc Hn Hf; [lia|]. rewrite pow10_S in Hn. cbn [print_digits].
  pose proof (Z.mod_pos_bound n 10 ltac:(lia)) as Hm. pose proof (Z.div_mod n 10 ltac:(lia)) as Hd.
  pose proof (digit_char_value (n mod 10) Hm) as (Hv & _).
  assert (∀ a, read_digits 10 (String (digit_char (n mod 10)) acc) a = read_digits 10 acc (a * 10 + n mod 10)) as Hr.
  { intros a. cbn [read_digits]. rewrite Hv. destruct (n mod 10 <? 10) eqn:E; zbool; [done|lia]. }
  destruct (n <? 10) eqn:E; zbool.
  - rewrite Hr. f_equal. rewrite Z.mod_small by lia. lia.
  - destruct fuel as [|fuel]; [simpl in Hn; lia|].
    rewrite IH; [|split; [apply Z.div_pos; lia|apply Z.div_lt_upper_bound; lia]|lia].
    rewrite Hr. f_equal. lia.
Qed.

(** The first digit, which is 0 only for 0. *)
Lemma print_first fuel n acc : 0 <= n < 10 ^ Z.of_nat fuel → (0 < fuel)%nat →
  ∃ d r, print_digits fuel n acc = String (digit_char d) r ∧ 0 <= d < 10 ∧ (d = 0 → n = 0 ∧ r = acc).
Proof.
  revert n acc. induction fuel as [|fuel IH]; intros n acc Hn Hf; [lia|]. rewrite pow10_S in Hn. cbn [print_digits].
  pose proof (Z.mod_pos_bound n 10 ltac:(lia)) as Hm. destruct (n <? 10) eqn:E; zbool.
  - exists (n mod 10), acc. split; [done|]. split; [done|]. rewrite Z.mod_small by lia. done.
  - destruct fuel as [|fuel]; [simpl in Hn; lia|].
    assert (1 <= n / 10) by (apply Z.div_le_lower_bound; lia).
    destruct (IH (n / 10) (String (digit_char (n mod 10)) acc)) as (d & r & -> & Hd & H0);
      [split; [lia|apply Z.div_lt_upper_bound; lia]|lia|].
    exists d, r. split; [done|]. split; [done|]. intros [? _]%H0. lia.
Qed.

Lemma skip_space_digit d r : 0 <= d < 10 → skip_space (String (digit_char d) r) = String (digit_char d) r ∧
  read_sign (String (digit_char d) r) = (false, String (digit_char d) r) ∧ is_digit 10 (String (digit_char d) r) = true.
Proof.
  intros Hd. destruct (digit_char_value d Hd) as (Hv & Hs & Hm & Hp & _). simpl. rewrite Hs, Hv.
  rewrite !bool_decide_false by done. split; [done|]. split; [done|]. apply Z.ltb_lt. lia.
Qed.

Lemma saturate_id z : INT_MIN <= z <= INT_MAX → saturate z = z.
Proof. unfold saturate. lia. Qed.

(** Reading back a printed number, in base 10 or with an automatic base. *)
Lemma strtol_print base z r : base = 10 ∨ base = 0 ∧ r = "" → INT_MIN <= z <= INT_MAX → is_digit 10 r = false →
  strtol base (print_int z +:+ r) = (z, r).
Proof.
  intros Hb Hz Hr. pose proof Hz as Hz'. unfold INT_MIN, INT_MAX in Hz'.
  set (n := Z.abs z). assert (0 <= n < 10 ^ Z.of_nat 10) as Hn by (change (10 ^ Z.of_nat 10) with 10000000000; lia).
  assert (∃ neg, print_int z +:+ r = (if neg : bool then String "-" (print_digits 10 n r) else print_digits 10 n r) ∧
    z = if neg then - n else n) as (neg & -> & Ez).
  { unfold print_int, n. destruct (z <? 0) eqn:E; zbool.
    - exists true. rewrite Z.abs_neq by lia. split; [|lia].
      change (String "-" (print_digits 10 (- z) "") +:+ r) with (String "-" (print_digits 10 (- z) "" +:+ r)).
      by rewrite print_digits_app.
    - exists false. rewrite Z.abs_eq by lia. split; [|lia]. by rewrite print_digits_app. }
  destruct (print_first 10 n r Hn ltac:(lia)) as (d & t & Et & Hd & H0).
  pose proof (read_print 10 n r Hn ltac:(lia)) as Hrd. rewrite Et in *.
  destruct (skip_space_digit d t Hd) as (Hsk & Hsg & Hdig). destruct (digit_char_value d Hd) as (Hv & _ & _ & _ & _ & _ & _ & _ & _ & Hc0).
  assert (read_sign (skip_space (if neg then String "-" (String (digit_char d) t) else String (digit_char d) t)) =
    (neg, String (digit_char d) t)) as Hst by (destruct neg; [done|by rewrite Hsk, Hsg]).
  unfold strtol. rewrite Hst.
  assert (read_digits 10 r n = (n, r)) as Hend.
  { destruct r as [|c r']; [done|]. simpl in *. destruct (digit_value c); [|done]. by rewrite Hr. }
  assert ((if (base =? 0) || (base =? 16) then read_hex_prefix (String (digit_char d) t) else None) = None) as ->.
  { destruct Hb as [-> |[-> ->]]; [done|]. simpl. destruct t as [|b t']; [done|].
    case_bool_decide as Ec; [|done]. destruct (H0 (Hc0 Ec)) as [_ ?]. done. }
  destruct (decide (base = 10)) as [->|Hne].
  - simpl (10 =? 0). cbn iota. rewrite Hdig, Hrd, Hend, <- Ez, saturate_id by done. done.
  - destruct Hb as [?|[-> ->]]; [done|]. simpl (0 =? 0). cbn iota. case_bool_decide as Ec.
    + destruct (H0 (Hc0 Ec)) as [En ->]. rewrite Ec. simpl. rewrite Ez, En. by destruct neg.
    + rewrite Hdig, Hrd, Hend, <- Ez, saturate_id by done. done.
Qed.

(** ** Flattening *)

(** What every parameter map satisfies: no key contains '=', no value ';'. *)
Definition clean (m : params) : Prop :=
  map_Forall (λ k v, contains "=" k = false ∧ contains ";" v = false) m.

(** The maps the class can hold. *)
Inductive reachable : params → Prop :=
  | reach_new : reachable ∅
  | reach_set m key value : reachable m → reachable (set_ key value m)
  | reach_remove m key : reachable m → reachable (remove key m)
  | reach_unflatten s m : unflatten s = Some m → reachable m.

Lemma length_app_string s t : String.length (s +:+ t) = (String.length s + String.length t)%nat.
Proof. induction s as [|a s IH]; [done|]. simpl. by rewrite IH. Qed.

(** The loop ends and keeps the map clean. *)
Lemma unflatten_loop_total fuel s m : (String.length s < fuel)%nat → clean m →
  ∃ m', unflatten_loop fuel s m = Some m' ∧ clean m'.
Proof.
  revert s m. induction fuel as [|fuel IH]; intros s m Hf Hm; [lia|]. simpl.
  destruct (strchr "=" s) as [[k a]|] eqn:E1; [|by eexists]. apply strchr_spec in E1 as [-> Hk].
  rewrite length_app_string in Hf. simpl in Hf. destruct (strchr ";" a) as [[v b]|] eqn:E2.
  - apply strchr_spec in E2 as [-> Hv]. rewrite length_app_string in Hf. simpl in Hf.
    apply IH; [lia|]. by apply map_Forall_insert_2.
  - eexists. split; [done|]. apply map_Forall_insert_2; [|done]. split; [done|]. unfold contains. by rewrite E2.
Qed.

Lemma unflatten_total s : ∃ m, unflatten s = Some m ∧ clean m.
Proof. apply unflatten_loop_total; [lia|]. apply map_Forall_empty. Qed.

Lemma reachable_clean m : reachable m → clean m.
Proof.
  induction 1 as [|m key value _ IH|m key _ IH|s m E].
  - apply map_Forall_empty.
  - destruct key as [k|], value as [v|]; [|done..]. simpl. destruct (contains "=" k || contains ";" k) eqn:Ek; [done|].
    destruct (contains "=" v || contains ";" v) eqn:Ev; [done|]. apply orb_false_iff in Ek as [? ?], Ev as [? ?].
    by apply map_Forall_insert_2.
  - by apply map_Forall_delete.
  - destruct (unflatten_total s) as (m' & E' & ?). rewrite E in E'. by injection E' as <-.
Qed.

Lemma unflatten_entries fuel l m : (length l < fuel)%nat →
  Forall (λ p : string * string, contains "=" p.1 = false ∧ contains ";" p.2 = false) l →
  unflatten_loop fuel (flatten_entries l) m = Some (foldl (λ m p, <[p.1 := p.2]> m) m l).
Proof.
  revert m fuel. induction l as [|[k v] l IH]; intros m fuel Hf Hl; (destruct fuel as [|fuel]; simpl in Hf; [lia|]); [done|].
  apply Forall_cons in Hl as [[Hk Hv] Hl]. simpl in Hk, Hv. destruct l as [|p l].
  - cbn [flatten_entries unflatten_loop]. change ("=" +:+ v) with (String "=" v). rewrite strchr_app by done.
    by rewrite strchr_None.
  - assert (flatten_entries ((k, v) :: p :: l) = k +:+ String "=" (v +:+ String ";" (flatten_entries (p :: l)))) as -> by done.
    cbn [unflatten_loop]. rewrite !strchr_app by done. apply IH; [lia|done].
Qed.

Lemma foldl_insert (l : list (string * string)) (m : params) : NoDup l.*1 →
  foldl (λ m p, <[p.1 := p.2]> m) m l = list_to_map l ∪ m.
Proof.
  revert m. induction l as [|[k v] l IH]; intros m Hnd; simpl; [by rewrite (left_id_L ∅ (∪))|].
  apply NoDup_cons in Hnd as [Hk Hnd]. rewrite IH by done. simpl.
  rewrite <- insert_union_l. rewrite insert_union_r; [done|]. by apply not_elem_of_list_to_map_1.
Qed.

Lemma flatten_fuel l : l ≠ [] → (length l < S (String.length (flatten_entries l)))%nat.
Proof.
  induction l as [|[k v] [|p l] IH]; intros Hl; [done|..].
  - cbn [flatten_entries length]. rewrite length_app_string. simpl. lia.
  - specialize (IH ltac:(done)).
    assert (flatten_entries ((k, v) :: p :: l) = k +:+ String "=" (v +:+ String ";" (flatten_entries (p :: l)))) as -> by done.
    rewrite length_app_string. cbn [String.length]. rewrite length_app_string. cbn [String.length length] in *. lia.
Qed.

Lemma clean_roundtrip m : clean m → unflatten (flatten m) = Some m.
Proof.
  intros Hm. unfold unflatten, flatten. pose proof (merge_sort_Permutation key_le (map_to_list m)) as Hp.
  fold (entries m) in Hp. rewrite unflatten_entries.
  - f_equal. rewrite foldl_insert by (rewrite Hp; apply NoDup_fst_map_to_list). rewrite (right_id_L ∅ (∪)).
    rewrite <- (list_to_map_to_list m) at 2. apply list_to_map_proper; [|done]. rewrite Hp. apply NoDup_fst_map_to_list.
  - destruct (entries m) as [|p l] eqn:E; [simpl; lia|]. rewrite <- E. apply flatten_fuel. by rewrite E.
  - rewrite Hp. apply Forall_forall. intros [k v] Hkv%elem_of_map_to_list. by apply Hm in Hkv.
Qed.

(** C29: the flattened form is faithful.  Every string can be unflattened (the
    loop ends), and every map the class can hold, whatever was set, removed or
    unflattened before, is what unflattening its flattened form gives. *)
Theorem params_roundtrip m (Hm : reachable m) :
  unflatten (flatten m) = Some m ∧ ∀ s, ∃ m', unflatten s = Some m' ∧ unflatten (flatten m') = Some m'.
Proof.
  split; [by apply clean_roundtrip, reachable_clean|]. intros s. destruct (unflatten_total s) as (m' & E & Hc).
  exists m'. split; [done|]. by apply clean_roundtrip.
Qed.

Definition demo_params : params := set_ (Some "zoom") (Some "3") (set_ (Some "focus-mode") (Some "auto") ∅).

Lemma params_roundtrip_witness :
  flatten demo_params = "focus-mode=auto;zoom=3" ∧ unflatten "focus-mode=auto;zoom=3" = Some demo_params.
Proof.
  assert (flatten demo_params = "focus-mode=auto;zoom=3") as E by (vm_compute; reflexivity). split; [exact E|].
  rewrite <- E. apply (params_roundtrip demo_params). repeat constructor.
Defined.

(** ** Numbers and sizes *)

Lemma contains_app c s t : contains c (s +:+ t) = contains c s || contains c t.
Proof.
  unfold contains. induction s as [|a s IH]; [done|]. simpl. case_bool_decide; [done|].
  destruct (strchr c s) as [[]|], (strchr c t) as [[]|], (strchr c (s +:+ t)) as [[]|]; done.
Qed.

Lemma contains_digits c fuel n acc : (∀ d, 0 <= d < 10 → digit_char d ≠ c) →
  contains c (print_digits fuel n acc) = contains c acc.
Proof.
  intros Hc. revert n acc. induction fuel as [|fuel IH]; intros n acc; [done|]. cbn [print_digits].
  assert (contains c (String (digit_char (n mod 10)) acc) = contains c acc) as E.
  { unfold contains. cbn [strchr]. rewrite bool_decide_false by (apply Hc, Z.mod_pos_bound; lia).
    by destruct (strchr c acc) as [[]|]. }
  destruct (n <? 10); [done|]. by rewrite IH.
Qed.

Lemma print_int_clean z : contains "=" (print_int z) = false ∧ contains ";" (print_int z) = false.
Proof.
  assert (∀ c, c = "="%char ∨ c = ";"%char → contains c (print_int z) = false) as H by (
    intros c Hc; unfold print_int; assert (∀ d, 0 <= d < 10 → digit_char d ≠ c) as Hd by (
      intros d Hd; destruct (digit_char_value d Hd) as (_ & _ & _ & _ & _ & _ & ? & ? & _); by destruct Hc as [->| ->]);
    destruct (z <? 0); [|by rewrite contains_digits];
    change (String "-" ?s) with ("-" +:+ s); rewrite contains_app, contains_digits by done; by destruct Hc as [->| ->]).
  split; apply H; auto.
Qed.

Lemma print_int_first z : INT_MIN <= z <= INT_MAX → ∃ a s, print_int z = String a s.
Proof.
  intros Hz. unfold INT_MIN, INT_MAX in Hz. unfold print_int. destruct (z <? 0) eqn:E; zbool; [by eexists _, _|].
  destruct (print_first 10 z "") as (d & r & -> & _); [change (10 ^ Z.of_nat 10) with 10000000000; lia|lia|].
  by eexists _, _.
Qed.

Lemma print_int_length z : (String.length (print_int z) <= 11)%nat.
Proof.
  unfold print_int. pose proof (print_digits_length 10 (- z) ""). pose proof (print_digits_length 10 z "").
  destruct (z <? 0); simpl in *; lia.
Qed.

Definition size_text (p : Z * Z) : string := print_int p.1 +:+ "x" +:+ print_int p.2.
Definition is_int (z : Z) : Prop := INT_MIN <= z <= INT_MAX.

Lemma append_assoc (s t u : string) : (s +:+ t) +:+ u = s +:+ (t +:+ u).
Proof. induction s as [|a s IH]; [done|]. exact (f_equal (String a) IH). Qed.

Lemma append_nil (s : string) : s +:+ "" = s.
Proof. induction s as [|a s IH]; [done|]. exact (f_equal (String a) IH). Qed.

Lemma parse_pair_print w h r : is_int w → is_int h → is_digit 10 r = false →
  parse_pair (size_text (w, h) +:+ r) "x" = Some (w, h, r).
Proof.
  intros Hw Hh Hr. unfold parse_pair, size_text. cbn [fst snd]. rewrite append_assoc.
  change (("x" +:+ print_int h) +:+ r) with (String "x" (print_int h +:+ r)).
  rewrite strtol_print by auto. simpl. by rewrite strtol_print by auto.
Qed.

(** The list of sizes a HAL advertises. *)
Fixpoint sizes_text (l : list (Z * Z)) : string :=
  match l with [] => "" | [p] => size_text p | p :: l' => size_text p +:+ "," +:+ sizes_text l' end.

Lemma parse_sizes_print fuel l acc : l ≠ [] → (length l <= fuel)%nat → Forall (λ p, is_int p.1 ∧ is_int p.2) l →
  parse_sizes fuel (sizes_text l) acc = Some (acc ++ l).
Proof.
  revert fuel acc. induction l as [|[w h] l IH]; intros fuel acc Hl Hf Hall; [done|].
  apply Forall_cons in Hall as [[Hw Hh] Hall]. simpl in Hw, Hh. destruct fuel as [|fuel]; simpl in Hf; [lia|].
  destruct l as [|p l].
  - cbn [sizes_text parse_sizes].
    pose proof (parse_pair_print w h "" Hw Hh eq_refl) as E.
    rewrite append_nil in E. by rewrite E.
  - assert (sizes_text ((w, h) :: p :: l) = size_text (w, h) +:+ String "," (sizes_text (p :: l))) as -> by done.
    cbn [parse_sizes]. rewrite parse_pair_print by done. rewrite bool_decide_true by done.
    rewrite IH by (done || simpl in *; lia). by rewrite <- app_assoc.
Qed.

Lemma sizes_text_length l : Forall (λ p, is_int p.1 ∧ is_int p.2) l → (length l <= S (String.length (sizes_text l)))%nat.
Proof.
  induction l as [|p [|p' l] IH]; intros Hl; [simpl; lia..|]. apply Forall_cons in Hl as [_ Hl].
  assert (sizes_text (p :: p' :: l) = size_text p +:+ String "," (sizes_text (p' :: l))) as -> by done.
  rewrite length_app_string. specialize (IH Hl). cbn [String.length length] in *. lia.
Qed.

Lemma set_get key v m : contains "=" key || contains ";" key = false → contains "=" v || contains ";" v = false →
  (∃ a s, v = String a s) → get key (set_ (Some key) (Some v) m) = Some v.
Proof. intros Hk Hv (a & s & ->). unfold get, set_. rewrite Hk, Hv, lookup_insert_eq. done. Qed.

(** Numbers survive.  An integer stored under a valid key fits the
    16-character buffer and reads back as itself, a size fits its 32
    characters and reads back as both numbers, for all values of [int]; and a
    list of sizes is parsed back in full, with nothing lost at either end. *)
Theorem numbers_roundtrip key m (Hk : contains "=" key || contains ";" key = false) :
  (∀ z, is_int z → ∃ m', set_int key z m = Some m' ∧ getInt key m' = z) ∧
  (∀ w h, is_int w → is_int h → ∃ m', set_size key w h m = Some m' ∧ get_pair key "x" m' = (w, h)) ∧
  (∀ l, l ≠ [] → Forall (λ p, is_int p.1 ∧ is_int p.2) l → parseSizesList (Some (sizes_text l)) = Some l).
Proof.
  split_and!.
  - intros z Hz. destruct (print_int_clean z) as [H1 H2]. unfold set_int, sprintf. pose proof (print_int_length z).
    destruct (_ <? 16)%nat eqn:E; [|apply Nat.ltb_ge in E; lia]. eexists. split; [reflexivity|].
    unfold getInt. rewrite set_get; [|done|by rewrite H1, H2|by apply print_int_first].
    pose proof (strtol_print 0 z "") as Hs. rewrite append_nil in Hs. by rewrite Hs by auto.
  - intros w h Hw Hh. destruct (print_int_clean w) as [H1 H2], (print_int_clean h) as [H3 H4].
    pose proof (print_int_length w). pose proof (print_int_length h). unfold set_size, sprintf.
    change (print_int w +:+ "x" +:+ print_int h) with (size_text (w, h)).
    assert (String.length (size_text (w, h)) <= 23)%nat as Hlen.
    { unfold size_text. rewrite !length_app_string. simpl. lia. }
    destruct (_ <? 32)%nat eqn:E; [|apply Nat.ltb_ge in E; lia]. eexists. split; [reflexivity|].
    unfold get_pair. rewrite set_get; [|done| |].
    + pose proof (parse_pair_print w h "" Hw Hh eq_refl) as Hp.
      rewrite append_nil in Hp. by rewrite Hp.
    + unfold size_text. simpl. rewrite !contains_app, H1, H2, H3, H4. done.
    + destruct (print_int_first w Hw) as (a & s & E'). unfold size_text. simpl. rewrite E'. by eexists _, _.
  - intros l Hl Hall. unfold parseSizesList. rewrite parse_sizes_print; [done|done|by apply sizes_text_length|done].
Qed.

Lemma numbers_roundtrip_witness :
  (∃ m', set_int KEY_PREVIEW_FRAME_RATE (-30) ∅ = Some m' ∧ getInt KEY_PREVIEW_FRAME_RATE m' = -30) ∧
  parseSizesList (Some "640x480,1280x720") = Some [(640, 480); (1280, 720)].
Proof.
  split.
  - apply (proj1 (numbers_roundtrip KEY_PREVIEW_FRAME_RATE ∅ eq_refl)). unfold is_int, INT_MIN, INT_MAX. lia.
  - apply (proj2 (proj2 (numbers_roundtrip KEY_PREVIEW_FRAME_RATE ∅ eq_refl)) [(640, 480); (1280, 720)]); [done|].
    repeat constructor; unfold INT_MIN, INT_MAX; simpl; lia.
Defined.
