(* ===== verification/VendorTags.v ===== *)
(** * Vendor tags (libmocha/camera/VendorTagDescriptor.cpp)

    The names, sections and types of a camera's own metadata tags, and how a
    descriptor travels in a parcel.  A [KeyedVector] is a map that iterates in
    the order of its keys, a [SortedVector] a sorted list without duplicates.
    The parcel is a parameter.  Memory is never short. *)

From S2P Require Import Prelude Monad Params.
From stdpp Require Import strings sorting.

#[local] Open Scope string_scope.
#[local] Open Scope list_scope.
#[local] Open Scope Z_scope.

Definition OK : Z := 0.
Definition BAD_VALUE : Z := -22.
Definition NOT_ENOUGH_DATA : Z := -61.
(** system/camera_metadata.h and system/camera_vendor_tags.h *)
Definition VENDOR_TAG_BOUNDARY : Z := 0x80000000.
Definition NUM_TYPES : Z := 6.
Definition VENDOR_TAG_COUNT_ERR : Z := -1.
Definition VENDOR_TAG_TYPE_ERR : Z := -1.

(** ** Containers *)

(** [SortedVector::add] and [indexOf]. *)
Fixpoint sv_add (x : string) (l : list string) : list string :=
  match l with
  | [] => [x]
  | y :: l' => if bool_decide (x = y) then x :: l' else if str_le x y then x :: l else y :: sv_add x l'
  end.
Fixpoint sv_indexOf (x : string) (l : list string) : Z :=
  match l with
  | [] => -2
  | y :: l' => if bool_decide (x = y) then 0 else let i := sv_indexOf x l' in if i <? 0 then i else i + 1
  end.

(** The keys of a [KeyedVector] of tags, in order. *)
Definition keys {V} (m : gmap Z V) : list Z := merge_sort Z.le (elements (dom m)).

(** ** The parcel (libbinder) *)

Inductive pitem := PInt (v : Z) | PStr (s : string).

(** A write gives a status; reading an integer a status and the value; reading
    a string that is not there the empty one. *)
Class Parcel := {
  parcel : Type;
  writeInt32 : Z → parcel → Z * parcel;
  writeString8 : string → parcel → Z * parcel;
  readInt32 : parcel → (Z * Z) * parcel;
  readString8 : parcel → string * parcel;
  items : parcel → list pitem }.

Class ParcelOk (P : Parcel) : Prop := {
  pa_writeInt32 : ∀ v p, items (writeInt32 v p).2 = if (writeInt32 v p).1 =? OK then items p ++ [PInt (i32 v)] else items p;
  pa_writeString8 : ∀ s p, items (writeString8 s p).2 = if (writeString8 s p).1 =? OK then items p ++ [PStr s] else items p;
  pa_readInt32 : ∀ v l p, items p = PInt v :: l → (readInt32 p).1 = (OK, v) ∧ items (readInt32 p).2 = l;
  pa_readString8 : ∀ s l p, items p = PStr s :: l → (readString8 p).1 = s ∧ items (readString8 p).2 = l }.

(** ** The descriptor *)

Record VendorTagDescriptor := mkVtd {
  mTagCount : Z; mSections : list string; mTagToSectionMap : gmap Z Z; mTagToNameMap : gmap Z string; mTagToTypeMap : gmap Z Z;
  mReverseMapping : gmap string (gmap string Z) }.
#[export] Instance vtd_eta : Eta VendorTagDescriptor := λ d, mkVtd
  (mTagCount d) (mSections d) (mTagToSectionMap d) (mTagToNameMap d) (mTagToTypeMap d) (mReverseMapping d).

Definition new_descriptor (tagCount : Z) : VendorTagDescriptor := mkVtd tagCount [] ∅ ∅ ∅ ∅.

(** One tag of the reverse mapping. *)
Definition add_reverse (section name : string) (tag : Z) (m : gmap string (gmap string Z)) : gmap string (gmap string Z) :=
  <[section := <[name := tag]> (default ∅ (m !! section))]> m.

(** [struct vendor_tag_ops]: [get_all_tags] fills an array of [get_tag_count]
    elements. *)
Record vendor_tag_ops := mkOps {
  get_tag_count : Z; get_all_tags : list Z; get_section_name : Z → option string; get_tag_name : Z → option string; get_tag_type : Z → Z }.

(** The first loop: the maps, the sections and the section of every tag; or the
    error. *)
Fixpoint collect (ops : vendor_tag_ops) (tags : list Z) (d : VendorTagDescriptor) (sections : list string) (tagToSection : gmap Z string) :
    Z + (VendorTagDescriptor * list string * gmap Z string) :=
  match tags with
  | [] => inr (d, sections, tagToSection)
  | tag :: tags' =>
      if tag <? VENDOR_TAG_BOUNDARY then inl BAD_VALUE else
      match get_tag_name ops tag with
      | None => inl BAD_VALUE
      | Some tagName =>
          let d := d <| mTagToNameMap := <[tag := tagName]> (mTagToNameMap d) |> in
          match get_section_name ops tag with
          | None => inl BAD_VALUE
          | Some sectionName =>
              let tagType := get_tag_type ops tag in
              if (tagType <? 0) || (tagType >=? NUM_TYPES) then inl BAD_VALUE else
              collect ops tags' (d <| mTagToTypeMap := <[tag := tagType]> (mTagToTypeMap d) |>)
                (sv_add sectionName sections) (<[tag := sectionName]> tagToSection)
          end
      end
  end.

(** The second loop. *)
Fixpoint index_tags (tags : list Z) (tagToSection : gmap Z string) (d : VendorTagDescriptor) : option VendorTagDescriptor :=
  match tags with
  | [] => Some d
  | tag :: tags' =>
      section ← tagToSection !! tag;
      let index := sv_indexOf section (mSections d) in
      if index <? 0 then None else
      name ← mTagToNameMap d !! tag;
      index_tags tags' tagToSection
        (d <| mTagToSectionMap := <[tag := index]> (mTagToSectionMap d) |> <| mReverseMapping := add_reverse section name tag (mReverseMapping d) |>)
  end.

Definition createDescriptorFromOps (vOps : option vendor_tag_ops) : option (Z * option VendorTagDescriptor) :=
  match vOps with
  | None => Some (BAD_VALUE, None)
  | Some ops =>
      let tagCount := get_tag_count ops in
      if tagCount <? 0 then Some (BAD_VALUE, None) else
      tagArray ← ldn (get_all_tags ops) 0 tagCount;
      match collect ops tagArray (new_descriptor tagCount) [] ∅ with
      | inl e => Some (e, None)
      | inr (d, sections, tagToSection) =>
          d ← index_tags tagArray tagToSection (d <| mSections := sections |>);
          Some (OK, Some d)
      end
  end.

Definition getTagCount (d : VendorTagDescriptor) : Z :=
  let size := Z.of_nat (size (mTagToNameMap d)) in if size =? 0 then VENDOR_TAG_COUNT_ERR else size.
Definition getTagArray (d : VendorTagDescriptor) : list Z := keys (mTagToNameMap d).
(** [Some None] is VENDOR_SECTION_NAME_ERR, null. *)
Definition getSectionName (d : VendorTagDescriptor) (tag : Z) : option (option string) :=
  match mTagToSectionMap d !! tag with
  | None => Some None
  | Some i => s ← ld (mSections d) i; Some (Some s)
  end.
Definition getTagName (d : VendorTagDescriptor) (tag : Z) : option string := mTagToNameMap d !! tag.
Definition getTagType (d : VendorTagDescriptor) (tag : Z) : option Z :=
  match mTagToNameMap d !! tag with None => Some VENDOR_TAG_TYPE_ERR | Some _ => mTagToTypeMap d !! tag end.
Definition getAllSectionNames (d : VendorTagDescriptor) : list string := mSections d.
Definition lookupTag (d : VendorTagDescriptor) (name section : string) : Z * option Z :=
  match mReverseMapping d !! section with
  | None => (BAD_VALUE, None)
  | Some m => match m !! name with None => (BAD_VALUE, None) | Some tag => (OK, Some tag) end
  end.

(** ** In a parcel *)

Section Parcels.
Context `{P : Parcel}.
Abbreviation VM := (ST parcel).

Definition w_int (v : Z) : VM Z := λ p, Some (writeInt32 v p).
Definition w_str (s : string) : VM Z := λ p, Some (writeString8 s p).
Definition r_int : VM (Z * Z) := λ p, Some (readInt32 p).
Definition r_str : VM string := λ p, Some (readString8 p).

(** The loop over the tags: the status it was left with. *)
Fixpoint write_tags (d : VendorTagDescriptor) (tags : list Z) : VM Z :=
  match tags with
  | [] => mret OK
  | tag :: tags' =>
      tagName ← lift (mTagToNameMap d !! tag);
      sectionIndex ← lift (mTagToSectionMap d !! tag);
      tagType ← lift (mTagToTypeMap d !! tag);
      res ← w_int tag; if negb (res =? OK) then mret res else
      res ← w_int tagType; if negb (res =? OK) then mret res else
      res ← w_str tagName; if negb (res =? OK) then mret res else
      res ← w_int sectionIndex; if negb (res =? OK) then mret res else
      write_tags d tags'
  end.
Fixpoint write_sections (l : list string) : VM Z :=
  match l with [] => mret OK | s :: l' => res ← w_str s; if negb (res =? OK) then mret res else write_sections l' end.

(** A failure inside the loop over the tags is forgotten when sections follow. *)
Definition writeToParcel (d : VendorTagDescriptor) : VM Z :=
  res ← w_int (mTagCount d);
  if negb (res =? OK) then mret res else
  res ← write_tags d (keys (mTagToNameMap d));
  if blen (mSections d) >? 0 then
    res ← w_int (blen (mSections d));
    if negb (res =? OK) then mret res else write_sections (mSections d)
  else mret res.

(** The status, the descriptor so far, the largest index and the tags. *)
Fixpoint read_tags (n : nat) (d : VendorTagDescriptor) (maxIndex : Z) (allTags : list Z) : VM (Z * VendorTagDescriptor * Z * list Z) :=
  match n with
  | O => mret (OK, d, maxIndex, allTags)
  | S n' =>
      '(res, tag) ← r_int; let tag := u32 tag in
      if negb (res =? OK) then mret (res, d, maxIndex, allTags) else
      if tag <? VENDOR_TAG_BOUNDARY then mret (BAD_VALUE, d, maxIndex, allTags) else
      '(res, tagType) ← r_int;
      if negb (res =? OK) then mret (res, d, maxIndex, allTags) else
      if (tagType <? 0) || (tagType >=? NUM_TYPES) then mret (BAD_VALUE, d, maxIndex, allTags) else
      tagName ← r_str;
      if bool_decide (tagName = "") then mret (NOT_ENOUGH_DATA, d, maxIndex, allTags) else
      '(res, sectionIndex) ← r_int; let sectionIndex := u32 sectionIndex in
      if negb (res =? OK) then mret (res, d, maxIndex, allTags) else
      read_tags n' (d <| mTagToNameMap := <[tag := tagName]> (mTagToNameMap d) |> <| mTagToSectionMap := <[tag := sectionIndex]> (mTagToSectionMap d) |>
                      <| mTagToTypeMap := <[tag := tagType]> (mTagToTypeMap d) |>)
        (Z.max maxIndex sectionIndex) (allTags ++ [tag])
  end.
Fixpoint read_sections (n : nat) (l : list string) : VM (option (list string)) :=
  match n with
  | O => mret (Some l)
  | S n' => s ← r_str; if bool_decide (s = "") then mret None else read_sections n' (sv_add s l)
  end.
(** [mSections[i]] is not checked. *)
Fixpoint reverse_tags (tags : list Z) (d : VendorTagDescriptor) : option VendorTagDescriptor :=
  match tags with
  | [] => Some d
  | tag :: tags' =>
      i ← mTagToSectionMap d !! tag;
      section ← ld (mSections d) i;
      name ← mTagToNameMap d !! tag;
      reverse_tags tags' (d <| mReverseMapping := add_reverse section name tag (mReverseMapping d) |>)
  end.

Definition createFromParcel : VM (Z * option VendorTagDescriptor) :=
  '(res, tagCount) ← r_int;
  if negb (res =? OK) then mret (res, None) else
  if tagCount <? 0 then mret (BAD_VALUE, None) else
  '(res, d, maxSectionIndex, allTags) ← read_tags (Z.to_nat tagCount) (new_descriptor tagCount) 0 [];
  if negb (res =? OK) then mret (res, None) else
  sections ← (if tagCount >? 0 then
                '(res, sectionCount) ← r_int; let sectionCount := u32 sectionCount in
                if negb (res =? OK) then mret (inl res) else
                if sectionCount <? u32 (maxSectionIndex + 1) then mret (inl BAD_VALUE) else
                if sectionCount =? 0 then ub else
                l ← read_sections (Z.to_nat sectionCount) [];
                mret (match l with None => inl NOT_ENOUGH_DATA | Some l => inr l end)
              else mret (inr []));
  match sections with
  | inl e => mret (e, None)
  | inr l =>
      d ← lift (reverse_tags allTags (d <| mSections := l |>));
      mret (OK, Some d)
  end.
End Parcels.

(** ** The process's descriptor *)

(** [sGlobalVendorTagDescriptor], and whether the metadata library was given
    its operations. *)
Record vt_global := mkGlobal { sGlobalVendorTagDescriptor : option VendorTagDescriptor; vendor_ops : bool }.
#[export] Instance vt_global_eta : Eta vt_global := λ g, mkGlobal (sGlobalVendorTagDescriptor g) (vendor_ops g).

Section Global.
(** [set_camera_metadata_vendor_ops]: its status for operations and for null. *)
Variable set_camera_metadata_vendor_ops : bool → Z.

Definition set_ops (given : bool) : ST vt_global Z :=
  let res := set_camera_metadata_vendor_ops given in
  when (res =? OK) (modify (λ g, g <| vendor_ops := given |>));; mret res.
Definition setAsGlobalVendorTagDescriptor (desc : option VendorTagDescriptor) : ST vt_global Z :=
  modify (λ g, g <| sGlobalVendorTagDescriptor := desc |>);;
  set_ops (bool_decide (is_Some desc)).
Definition clearGlobalVendorTagDescriptor : ST vt_global () :=
  _ ← set_ops false;
  modify (λ g, g <| sGlobalVendorTagDescriptor := None |>).
End Global.
Definition getGlobalVendorTagDescriptor : ST vt_global (option VendorTagDescriptor) := gets sGlobalVendorTagDescriptor.

(** The operations installed: they ask the process's descriptor. *)
Definition vendor_tag_descriptor_get_tag_count (g : vt_global) : Z :=
  match sGlobalVendorTagDescriptor g with None => VENDOR_TAG_COUNT_ERR | Some d => getTagCount d end.
(** [None] leaves the array as it was. *)
Definition vendor_tag_descriptor_get_all_tags (g : vt_global) : option (list Z) := getTagArray <$> sGlobalVendorTagDescriptor g.
Definition vendor_tag_descriptor_get_section_name (g : vt_global) (tag : Z) : option (option string) :=
  match sGlobalVendorTagDescriptor g with None => Some None | Some d => getSectionName d tag end.
Definition vendor_tag_descriptor_get_tag_name (g : vt_global) (tag : Z) : option string :=
  match sGlobalVendorTagDescriptor g with None => None | Some d => getTagName d tag end.
Definition vendor_tag_descriptor_get_tag_type (g : vt_global) (tag : Z) : option Z :=
  match sGlobalVendorTagDescriptor g with None => Some VENDOR_TAG_TYPE_ERR | Some d => getTagType d tag end.
