(* ===== verification/VendorTagsSpec.v ===== *)
(** * What vendor tag descriptors keep

    A descriptor made from a camera's operations answers as they do, and
    arrives unchanged at the other end of a parcel. *)

From S2P Require Import Prelude Monad Params VendorTags.
From stdpp Require Import strings sorting.
From Stdlib Require Import Ascii.

#[local] Open Scope string_scope.
#[local] Open Scope list_scope.
#[local] Open Scope Z_scope.

(** ** The order of strings *)

Definition str_lt (s t : string) : Prop := str_le t s = false.

Lemma char_code_inj a b : char_code a = char_code b → a = b.
Proof. unfold char_code. intros E. apply Nat2Z.inj in E. rewrite <- (ascii_nat_embedding a), <- (ascii_nat_embedding b). by rewrite E. Qed.

Lemma str_le_refl s : str_le s s = true.
Proof. induction s as [|a s IH]; simpl; [done|]. by rewrite bool_decide_true. Qed.

Lemma str_lt_irrefl s : ¬ str_lt s s.
Proof. unfold str_lt. by rewrite str_le_refl. Qed.

Lemma str_lt_trans r s t : str_lt r s → str_lt s t → str_lt r t.
Proof.
  unfold str_lt. revert r t. induction s as [|b s IH]; intros [|a r] [|c t]; simpl; try done.
  repeat case_bool_decide; subst; simplify_eq; intros Hx Hy; try done; try (by eauto); zbool; try lia;
    exfalso; match goal with Hn : ?x ≠ ?y |- _ => apply Hn, char_code_inj; lia end.
Qed.

Lemma str_le_lt s t : s ≠ t → str_le s t = true → str_lt s t.
Proof.
  unfold str_lt. revert t. induction s as [|a s IH]; intros [|b t]; simpl; try done.
  repeat case_bool_decide; subst; try done; [|intros _ Hx; zbool; apply Z.ltb_ge; lia]. intros Hn Hl. apply IH; [congruence|done].
Qed.

(** ** Sorted vectors *)

Abbreviation sorted := (StronglySorted str_lt).

Lemma sv_add_elem x y l : y ∈ sv_add x l ↔ y = x ∨ y ∈ l.
Proof.
  induction l as [|z l IH]; simpl; [by rewrite elem_of_cons|]. case_bool_decide; subst; [rewrite !elem_of_cons; tauto|].
  destruct (str_le x z); [by rewrite !elem_of_cons|]. rewrite !elem_of_cons, IH. tauto.
Qed.

Lemma sv_add_sorted x l : sorted l → sorted (sv_add x l).
Proof.
  induction 1 as [|z l Hl IH Hz]; simpl; [by repeat constructor|]. case_bool_decide as E; [subst; by constructor|]. destruct (str_le x z) eqn:El.
  - constructor; [by constructor|]. constructor; [by apply str_le_lt|]. eapply Forall_impl; [exact Hz|]. intros y. apply str_lt_trans. by apply str_le_lt.
  - constructor; [done|]. apply Forall_forall. intros y Hy. apply sv_add_elem in Hy as [-> | Hy]; [done|]. by rewrite Forall_forall in Hz; apply Hz.
Qed.

Lemma sv_add_last x l : Forall (λ y, str_lt y x) l → sv_add x l = l ++ [x].
Proof.
  induction 1 as [|z l Hz _ IH]; simpl; [done|]. rewrite bool_decide_false by (intros ->; by apply str_lt_irrefl in Hz). unfold str_lt in Hz. by rewrite Hz, IH.
Qed.

(** Adding the elements of a sorted vector in their order makes it again. *)
Lemma sv_rebuild l acc : sorted (acc ++ l) → foldl (λ s x, sv_add x s) acc l = acc ++ l.
Proof.
  revert acc. induction l as [|x l IH]; intros acc Hs; simpl; [by rewrite app_nil_r|].
  assert (Forall (λ y, str_lt y x) acc) as Hx.
  { apply Forall_forall. intros y Hy. eapply StronglySorted_app_1_elem_of; [exact Hs|done|]. apply elem_of_cons. by left. }
  rewrite sv_add_last by done. rewrite IH; rewrite <- app_assoc; done.
Qed.

Lemma sv_indexOf_spec x l : x ∈ l → 0 <= sv_indexOf x l < blen l ∧ ld l (sv_indexOf x l) = Some x.
Proof.
  induction l as [|y l IH]; intros Hx; [set_solver|]. simpl. unfold blen in *. simpl. case_bool_decide as E; [subst; split; [lia|done]|].
  destruct IH as [Hi Hl]; [set_solver|]. destruct (Z.ltb_spec (sv_indexOf x l) 0); [lia|]. split; [lia|].
  unfold ld in *. rewrite bool_decide_true in * by lia. by replace (Z.to_nat (sv_indexOf x l + 1)) with (S (Z.to_nat (sv_indexOf x l))) by lia.
Qed.

(** ** Maps built by loops *)

Lemma foldl_insert_lookup {V} (f : Z → V) l (m : gmap Z V) t :
  foldl (λ m t, <[t := f t]> m) m l !! t = if decide (t ∈ l) then Some (f t) else m !! t.
Proof.
  revert m. induction l as [|x l IH]; intros m; cbn [foldl]; [by rewrite decide_False by apply not_elem_of_nil|]. rewrite IH.
  destruct (decide (t ∈ l)) as [Ht|Ht]; [by rewrite decide_True by (apply elem_of_cons; by right)|].
  destruct (decide (t = x)) as [->|Hne]; [by rewrite lookup_insert_eq, decide_True by (apply elem_of_cons; by left)|].
  rewrite lookup_insert_ne, decide_False by (rewrite ?elem_of_cons; naive_solver). done.
Qed.

Lemma foldl_insert_eq {V} (f : Z → V) l (m : gmap Z V) : (∀ t, t ∈ l ↔ t ∈ dom m) → (∀ t v, m !! t = Some v → f t = v) → foldl (λ m t, <[t := f t]> m) ∅ l = m.
Proof.
  intros Hl Hf. apply map_eq. intros t. rewrite foldl_insert_lookup. destruct (decide (t ∈ l)) as [Ht|Ht].
  - apply Hl, elem_of_dom in Ht as [v Hv]. by rewrite Hv, (Hf _ _ Hv).
  - rewrite Hl in Ht. by rewrite lookup_empty, (not_elem_of_dom_1 _ _ Ht).
Qed.

(** The reverse mapping, as a function of both names. *)
Definition rev_get (m : gmap string (gmap string Z)) (section name : string) : option Z := m !! section ≫= λ n, n !! name.

Lemma rev_get_add m s n t s' n' : rev_get (add_reverse s n t m) s' n' = if decide (s' = s ∧ n' = n) then Some t else rev_get m s' n'.
Proof.
  unfold rev_get, add_reverse. destruct (decide (s' = s)) as [->|].
  - rewrite lookup_insert_eq. simpl. destruct (decide (n' = n)) as [->|]; [by rewrite lookup_insert_eq, decide_True by done|].
    rewrite lookup_insert_ne, decide_False by naive_solver. destruct (m !! s); simpl; [done|by rewrite lookup_empty].
  - by rewrite lookup_insert_ne, decide_False by naive_solver.
Qed.

Section Reverse.
Variables (sec nm : Z → string).
Definition reverse_of (l : list Z) m := foldl (λ m t, add_reverse (sec t) (nm t) t m) m l.

Lemma reverse_of_spec l : (∀ t t', t ∈ l → t' ∈ l → sec t = sec t' → nm t = nm t' → t = t') →
  ∀ s n t, rev_get (reverse_of l ∅) s n = Some t ↔ t ∈ l ∧ sec t = s ∧ nm t = n.
Proof.
  unfold reverse_of. induction l as [|x l IH] using rev_ind; intros Hu s n t.
  - simpl. unfold rev_get. rewrite lookup_empty. simpl. set_solver.
  - rewrite foldl_app. simpl. rewrite rev_get_add. destruct (decide (s = sec x ∧ n = nm x)) as [[-> ->]|Hne].
    + split; [intros [= <-]; set_solver|]. intros (Ht & E1 & E2). f_equal. symmetry. apply Hu; set_solver.
    + rewrite IH by (intros; apply Hu; set_solver). split; [set_solver|]. intros (Ht & E1 & E2). split; [|done].
      apply elem_of_app in Ht as [Ht|Ht]; [done|]. apply list_elem_of_singleton in Ht as ->. naive_solver.
Qed.
End Reverse.

Lemma lookupTag_rev d name section : lookupTag d name section = match rev_get (mReverseMapping d) section name with Some t => (OK, Some t) | None => (BAD_VALUE, None) end.
Proof. unfold lookupTag, rev_get. destruct (mReverseMapping d !! section) as [m|]; [|done]. simpl. by destruct (m !! name). Qed.

Definition no_empty (m : gmap string (gmap string Z)) : Prop := ∀ s n, m !! s = Some n → n ≠ ∅.

Lemma no_empty_add s n t m : no_empty m → no_empty (add_reverse s n t m).
Proof.
  intros Hm s' n'. unfold add_reverse. destruct (decide (s' = s)) as [->|]; [|rewrite lookup_insert_ne by done; apply Hm].
  rewrite lookup_insert_eq. intros [= <-]. apply insert_non_empty.
Qed.

Lemma no_empty_reverse sec nm l m : no_empty m → no_empty (reverse_of sec nm l m).
Proof. unfold reverse_of. revert m. induction l as [|x l IH]; intros m Hm; simpl; [done|]. by apply IH, no_empty_add. Qed.

(** Two reverse mappings without empty sections that answer alike are equal. *)
Lemma rev_ext m m' : no_empty m → no_empty m' → (∀ s n, rev_get m s n = rev_get m' s n) → m = m'.
Proof.
  intros Hm Hm' He. apply map_eq. intros s. specialize (He s). unfold rev_get in He.
  destruct (m !! s) as [n|] eqn:E, (m' !! s) as [n'|] eqn:E'; simpl in *; [f_equal; by apply map_eq| | |done]; exfalso.
  - apply (Hm _ _ E), map_eq. intros x. by rewrite He, lookup_empty.
  - apply (Hm' _ _ E'), map_eq. intros x. by rewrite <- He, lookup_empty.
Qed.

(** ** Keys *)

Lemma keys_elem {V} (m : gmap Z V) t : t ∈ keys m ↔ t ∈ dom m.
Proof. unfold keys. by rewrite merge_sort_Permutation, elem_of_elements. Qed.

Lemma keys_length {V} (m : gmap Z V) : length (keys m) = size m.
Proof. unfold keys. rewrite merge_sort_Permutation. by rewrite <- size_dom. Qed.

Lemma keys_eq {V W} (m : gmap Z V) (m' : gmap Z W) : dom m = dom m' → keys m = keys m'.
Proof. unfold keys. by intros ->. Qed.

(** ** Well-formed descriptors *)

Definition sec_of (d : VendorTagDescriptor) (t : Z) : Z := default 0 (mTagToSectionMap d !! t).
Definition secname_of (d : VendorTagDescriptor) (t : Z) : string := default "" (ld (mSections d) (sec_of d t)).
Definition nm_of (d : VendorTagDescriptor) (t : Z) : string := default "" (mTagToNameMap d !! t).
Definition ty_of (d : VendorTagDescriptor) (t : Z) : Z := default 0 (mTagToTypeMap d !! t).

Record tag_wf (d : VendorTagDescriptor) (t : Z) : Prop := {
  tw_tag : VENDOR_TAG_BOUNDARY <= t < 2 ^ 32;
  tw_name : mTagToNameMap d !! t = Some (nm_of d t);
  tw_nonempty : nm_of d t ≠ "";
  tw_type : mTagToTypeMap d !! t = Some (ty_of d t);
  tw_range : 0 <= ty_of d t < NUM_TYPES;
  tw_section : mTagToSectionMap d !! t = Some (sec_of d t);
  tw_index : 0 <= sec_of d t < blen (mSections d) }.

Record vtd_wf (d : VendorTagDescriptor) : Prop := {
  vw_count : mTagCount d = Z.of_nat (size (mTagToNameMap d));
  vw_small : mTagCount d < 2 ^ 31;
  vw_tag : ∀ t, t ∈ dom (mTagToNameMap d) → tag_wf d t;
  vw_sections : dom (mTagToSectionMap d) = dom (mTagToNameMap d);
  vw_types : dom (mTagToTypeMap d) = dom (mTagToNameMap d);
  vw_sorted : sorted (mSections d);
  vw_secname : Forall (λ s, s ≠ "") (mSections d);
  vw_seccount : blen (mSections d) < 2 ^ 31;
  vw_none : mTagToNameMap d = ∅ → mSections d = [];
  vw_full : no_empty (mReverseMapping d);
  vw_reverse : ∀ s n t, rev_get (mReverseMapping d) s n = Some t ↔ t ∈ dom (mTagToNameMap d) ∧ secname_of d t = s ∧ nm_of d t = n }.

(** ** Across a parcel *)

Lemma u32_i32 t : 0 <= t < 2 ^ 32 → u32 (i32 t) = t.
Proof. intros Ht. unfold u32, i32. rewrite Zminus_mod_idemp_l. replace (t + 2 ^ 31 - 2 ^ 31) with t by lia. by apply Z.mod_small. Qed.

(** The items of one tag, of the sections and of a descriptor. *)
Definition tag_items (d : VendorTagDescriptor) (t : Z) : list pitem := [PInt (i32 t); PInt (ty_of d t); PStr (nm_of d t); PInt (sec_of d t)].
Definition section_items (l : list string) : list pitem := if blen l >? 0 then PInt (blen l) :: (PStr <$> l) else [].
Definition vtd_items (d : VendorTagDescriptor) : list pitem :=
  PInt (mTagCount d) :: mjoin (tag_items d <$> keys (mTagToNameMap d)) ++ section_items (mSections d).

Section Transfer.
Context `{P : Parcel} {PO : ParcelOk P}.

(** ** Writing *)
Section Writing.
Hypothesis Hint : ∀ v p, (writeInt32 v p).1 = OK.
Hypothesis Hstr : ∀ s p, (writeString8 s p).1 = OK.

Lemma w_int_ok v p : ∃ p', w_int v p = Some (OK, p') ∧ items p' = items p ++ [PInt (i32 v)].
Proof.
  unfold w_int. pose proof (pa_writeInt32 v p) as Hp. rewrite (Hint v p) in Hp.
  exists (writeInt32 v p).2. split; [|done]. rewrite <- (Hint v p). by destruct (writeInt32 v p).
Qed.
Lemma w_str_ok s p : ∃ p', w_str s p = Some (OK, p') ∧ items p' = items p ++ [PStr s].
Proof.
  unfold w_str. pose proof (pa_writeString8 s p) as Hp. rewrite (Hstr s p) in Hp.
  exists (writeString8 s p).2. split; [|done]. rewrite <- (Hstr s p). by destruct (writeString8 s p).
Qed.

(** One write of a sequence. *)
Ltac do_write :=
  match goal with
  | |- context [mbind _ (w_int ?v) ?p] => let p' := fresh "p" in let E := fresh "E" in
      destruct (w_int_ok v p) as (p' & E & ?); unfold mbind at 1, ST_bind at 1; rewrite E; clear E; cbn [OK negb Z.eqb]
  | |- context [mbind _ (w_str ?v) ?p] => let p' := fresh "p" in let E := fresh "E" in
      destruct (w_str_ok v p) as (p' & E & ?); unfold mbind at 1, ST_bind at 1; rewrite E; clear E; cbn [OK negb Z.eqb]
  end.

Lemma write_tags_ok d l p : (∀ t, t ∈ l → tag_wf d t) → blen (mSections d) < 2 ^ 31 →
  ∃ p', write_tags d l p = Some (OK, p') ∧ items p' = items p ++ mjoin (tag_items d <$> l).
Proof.
  intros Hl Hs. revert p. induction l as [|t l IH]; intros p; [exists p; simpl; by rewrite app_nil_r|].
  destruct (Hl t) as [Ht Hn _ Hy Hyr Hc Hcr]; [by left|]. cbn [write_tags]. rewrite Hn, Hy, Hc.
  unfold mbind at 1 2 3, ST_bind at 1 2 3. cbn [lift]. do 4 do_write.
  destruct (IH ltac:(intros; apply Hl; by right) p3) as (p' & E & Hp'). exists p'. split; [exact E|]. rewrite Hp'.
  change (tag_items d <$> t :: l) with (tag_items d t :: (tag_items d <$> l)). cbn [mjoin list_join]. unfold tag_items at 2.
  unfold NUM_TYPES in Hyr. repeat match goal with H : items _ = items _ ++ [_] |- _ => rewrite H; clear H end.
  rewrite (i32_id (ty_of d t)), (i32_id (sec_of d t)) by lia. rewrite <- !app_assoc. done.
Qed.

Lemma write_sections_ok l p : ∃ p', write_sections l p = Some (OK, p') ∧ items p' = items p ++ (PStr <$> l).
Proof.
  revert p. induction l as [|s l IH]; intros p; [exists p; simpl; by rewrite app_nil_r|]. cbn [write_sections]. do_write.
  destruct (IH p0) as (p' & E & Hp'). exists p'. split; [exact E|]. rewrite Hp', H. by rewrite <- app_assoc.
Qed.

Lemma writeToParcel_items d p : vtd_wf d → ∃ p', writeToParcel d p = Some (OK, p') ∧ items p' = items p ++ vtd_items d.
Proof.
  intros W. unfold writeToParcel. do_write.
  destruct (write_tags_ok d (keys (mTagToNameMap d)) p0) as (p1 & E & Hp1); [intros t Ht; apply (vw_tag d W); by apply keys_elem|apply (vw_seccount d W)|].
  unfold mbind at 1, ST_bind at 1. rewrite E. pose proof (vw_count d W). pose proof (vw_small d W). rewrite i32_id in H by lia.
  unfold vtd_items, section_items. destruct (Z.gtb_spec (blen (mSections d)) 0).
  - do_write. destruct (write_sections_ok (mSections d) p2) as (p3 & E' & Hp3). exists p3. split; [exact E'|].
    pose proof (vw_seccount d W). rewrite i32_id in * by lia. rewrite Hp3, H3, Hp1, H, <- !app_assoc. done.
  - exists p1. split; [done|]. rewrite Hp1, H, app_nil_r, <- app_assoc. done.
Qed.
End Writing.

(** ** Reading *)

Lemma r_int_ok v l p : items p = PInt v :: l → ∃ p', r_int p = Some ((OK, v), p') ∧ items p' = l.
Proof. intros E. destruct (pa_readInt32 v l p E) as [H1 H2]. exists (readInt32 p).2. split; [|done]. unfold r_int. rewrite <- H1. by destruct (readInt32 p). Qed.
Lemma r_str_ok s l p : items p = PStr s :: l → ∃ p', r_str p = Some (s, p') ∧ items p' = l.
Proof. intros E. destruct (pa_readString8 s l p E) as [H1 H2]. exists (readString8 p).2. split; [|done]. unfold r_str. rewrite <- H1. by destruct (readString8 p). Qed.

(** One read of a sequence. *)
Ltac do_read :=
  match goal with
  | E : items ?p = PInt ?v :: ?l |- context [mbind _ r_int ?p] => let p' := fresh "p" in let E' := fresh "E" in let H := fresh "H" in
      destruct (r_int_ok v l p E) as (p' & E' & H); unfold mbind at 1, ST_bind at 1; rewrite E'; clear E' E; cbn [OK negb Z.eqb]
  | E : items ?p = PStr ?v :: ?l |- context [mbind _ r_str ?p] => let p' := fresh "p" in let E' := fresh "E" in let H := fresh "H" in
      destruct (r_str_ok v l p E) as (p' & E' & H); unfold mbind at 1, ST_bind at 1; rewrite E'; clear E' E; cbn [OK negb Z.eqb]
  end.

(** The descriptor one tag is added to. *)
Definition add_tag (d0 d : VendorTagDescriptor) (t : Z) : VendorTagDescriptor :=
  d <| mTagToNameMap := <[t := nm_of d0 t]> (mTagToNameMap d) |> <| mTagToSectionMap := <[t := sec_of d0 t]> (mTagToSectionMap d) |>
    <| mTagToTypeMap := <[t := ty_of d0 t]> (mTagToTypeMap d) |>.

Lemma read_tags_ok d0 l d mx acc p rest : (∀ t, t ∈ l → tag_wf d0 t) → blen (mSections d0) < 2 ^ 31 →
  items p = mjoin (tag_items d0 <$> l) ++ rest →
  ∃ p', read_tags (length l) d mx acc p = Some ((OK, foldl (add_tag d0) d l, foldl (λ m t, Z.max m (sec_of d0 t)) mx l, acc ++ l), p') ∧ items p' = rest.
Proof.
  intros Hl Hs. revert d mx acc p. induction l as [|t l IH]; intros d mx acc p E; [exists p; simpl in *; by rewrite app_nil_r|].
  destruct (Hl t) as [Ht Hn Hne Hy Hyr Hc Hcr]; [by left|].
  change (tag_items d0 <$> t :: l) with (tag_items d0 t :: (tag_items d0 <$> l)) in E. cbn [mjoin list_join] in E. unfold tag_items at 1 in E. cbn [app] in E.
  cbn [length read_tags]. unfold VENDOR_TAG_BOUNDARY, NUM_TYPES in *. do_read. rewrite u32_i32 by lia.
  destruct (Z.ltb_spec t 0x80000000); [lia|]. do_read.
  destruct (Z.ltb_spec (ty_of d0 t) 0); [lia|]. destruct (Z.geb_spec (ty_of d0 t) 6); [lia|]. cbn [orb]. do_read.
  rewrite bool_decide_false by done. do_read. rewrite u32_id by lia.
  destruct (IH ltac:(intros; apply Hl; by right) (add_tag d0 d t) (Z.max mx (sec_of d0 t)) (acc ++ [t]) p3) as (p' & E' & Hp'); [done|].
  exists p'. split; [|done]. etransitivity; [exact E'|]. by rewrite <- app_assoc.
Qed.

Lemma read_sections_ok l acc p rest : Forall (λ s, s ≠ "") l → items p = (PStr <$> l) ++ rest →
  ∃ p', read_sections (length l) acc p = Some (Some (foldl (λ s x, sv_add x s) acc l), p') ∧ items p' = rest.
Proof.
  intros Hl. revert acc p. induction Hl as [|s l Hs _ IH]; intros acc p E; [by exists p|]. cbn [fmap list_fmap app] in E. cbn [length read_sections].
  do_read. rewrite bool_decide_false by done. by apply IH.
Qed.

Lemma foldl_add_tag d0 l d : foldl (add_tag d0) d l = mkVtd (mTagCount d) (mSections d)
  (foldl (λ m t, <[t := sec_of d0 t]> m) (mTagToSectionMap d) l) (foldl (λ m t, <[t := nm_of d0 t]> m) (mTagToNameMap d) l)
  (foldl (λ m t, <[t := ty_of d0 t]> m) (mTagToTypeMap d) l) (mReverseMapping d).
Proof. revert d. induction l as [|t l IH]; intros d; [by destruct d|]. cbn [foldl]. rewrite IH. by destruct d. Qed.

Lemma reverse_tags_ok d l : (∀ t, t ∈ l → tag_wf d t) → ∀ m,
  reverse_tags l (d <| mReverseMapping := m |>) = Some (d <| mReverseMapping := reverse_of (secname_of d) (nm_of d) l m |>).
Proof.
  intros Hl. induction l as [|t l IH]; intros m; [done|]. destruct (Hl t) as [Ht Hn Hne Hy Hyr Hc Hcr]; [by left|].
  assert (ld (mSections d) (sec_of d t) = Some (secname_of d t)) as Hld.
  { unfold secname_of. unfold ld, blen in *. rewrite bool_decide_true by lia. destruct (lookup_lt_is_Some_2 (mSections d) (Z.to_nat (sec_of d t))) as [s Hs]; [lia|].
    by rewrite Hs. }
  cbn [reverse_tags]. destruct d. cbn in Hn, Hc, Hld |- *. rewrite Hc. cbn. rewrite Hld. cbn. rewrite Hn. cbn. apply IH. intros; apply Hl; by right.
Qed.

Lemma foldl_max_bound (f : Z → Z) l m b : m <= b → (∀ t, t ∈ l → f t <= b) → foldl (λ m t, Z.max m (f t)) m l <= b.
Proof. revert m. induction l as [|t l IH]; intros m Hm Hl; simpl; [done|]. apply IH; [|intros; apply Hl; by right]. specialize (Hl t ltac:(by left)). lia. Qed.
Lemma foldl_max_ge (f : Z → Z) l m : m <= foldl (λ m t, Z.max m (f t)) m l.
Proof. revert m. induction l as [|t l IH]; intros m; simpl; [lia|]. etransitivity; [|apply IH]. lia. Qed.

(** The maps a reader rebuilds from the keys are the maps themselves. *)
Lemma rebuilt d : vtd_wf d →
  foldl (λ m t, <[t := nm_of d t]> m) ∅ (keys (mTagToNameMap d)) = mTagToNameMap d ∧
  foldl (λ m t, <[t := sec_of d t]> m) ∅ (keys (mTagToNameMap d)) = mTagToSectionMap d ∧
  foldl (λ m t, <[t := ty_of d t]> m) ∅ (keys (mTagToNameMap d)) = mTagToTypeMap d ∧
  reverse_of (secname_of d) (nm_of d) (keys (mTagToNameMap d)) ∅ = mReverseMapping d.
Proof.
  intros W. split_and!.
  - apply foldl_insert_eq; [apply keys_elem|]. intros t v E. unfold nm_of. by rewrite E.
  - apply foldl_insert_eq; [|intros t v E; unfold sec_of; by rewrite E]. intros t. rewrite keys_elem. by rewrite (vw_sections d W).
  - apply foldl_insert_eq; [|intros t v E; unfold ty_of; by rewrite E]. intros t. rewrite keys_elem. by rewrite (vw_types d W).
  - apply rev_ext; [by apply no_empty_reverse|apply (vw_full d W)|]. intros s n. apply option_eq. intros t.
    rewrite (vw_reverse d W), reverse_of_spec; [by rewrite keys_elem|]. intros t1 t2 H1 H2 Es En. rewrite !keys_elem in *.
    assert (rev_get (mReverseMapping d) (secname_of d t1) (nm_of d t1) = Some t1) as R1 by (by apply (vw_reverse d W)).
    assert (rev_get (mReverseMapping d) (secname_of d t1) (nm_of d t1) = Some t2) as R2 by (apply (vw_reverse d W); by rewrite Es, En).
    by simplify_eq.
Qed.

Lemma createFromParcel_items d p rest : vtd_wf d → items p = vtd_items d ++ rest →
  ∃ p', createFromParcel p = Some ((OK, Some d), p') ∧ items p' = rest.
Proof.
  intros W E. destruct (rebuilt d W) as (En & Es & Et & Er). unfold vtd_items in E. cbn [app] in E. rewrite <- app_assoc in E.
  unfold createFromParcel. do_read. pose proof (vw_count d W) as Hc. destruct (Z.ltb_spec (mTagCount d) 0); [lia|].
  assert (∀ t, t ∈ keys (mTagToNameMap d) → tag_wf d t) as Hw by (intros t Ht; apply (vw_tag d W); by apply keys_elem).
  destruct (read_tags_ok d (keys (mTagToNameMap d)) (new_descriptor (mTagCount d)) 0 [] p0 (section_items (mSections d) ++ rest)) as (p1 & E1 & Hp1);
    [done|apply (vw_seccount d W)|done|].
  replace (Z.to_nat (mTagCount d)) with (length (keys (mTagToNameMap d))) by (rewrite keys_length; lia).
  unfold mbind at 1, ST_bind at 1. rewrite E1. clear E1. cbn [OK negb Z.eqb]. rewrite foldl_add_tag. cbn [new_descriptor mTagCount mSections mTagToSectionMap mTagToNameMap mTagToTypeMap mReverseMapping].
  rewrite En, Es, Et. set (mx := foldl _ 0 _) in *. cbn [app].
  assert (∀ q : parcel, lift (reverse_tags (keys (mTagToNameMap d)) ((mkVtd (mTagCount d) [] (mTagToSectionMap d) (mTagToNameMap d) (mTagToTypeMap d) ∅) <| mSections := mSections d |>)) q = Some (d, q)) as Hrev.
  { intros q. pose proof (reverse_tags_ok d (keys (mTagToNameMap d)) Hw ∅) as Hr. rewrite Er in Hr. destruct d. unfold field_set in *. cbn in Hr |- *. by rewrite Hr. }
  unfold section_items in Hp1. destruct (Z.gtb_spec (mTagCount d) 0) as [Hpos|Hz].
  - assert (mTagToNameMap d ≠ ∅) as Hne by (intros Hx; rewrite Hx, map_size_empty in Hc; lia). apply map_choose in Hne as (t & v & Htv).
    destruct (vw_tag d W t) as [_ _ _ _ _ _ Hix]; [by apply elem_of_dom_2 in Htv|].
    destruct (Z.gtb_spec (blen (mSections d)) 0); [|lia]. cbn [app] in Hp1. pose proof (vw_seccount d W).
    assert (mx <= blen (mSections d) - 1) by (apply foldl_max_bound; [lia|]; intros t' Ht'; pose proof (tw_index d t' (Hw t' Ht')); lia).
    assert (0 <= mx) by apply foldl_max_ge.
    unfold mbind at 1, ST_bind at 1. do_read. rewrite !u32_id by lia. destruct (Z.ltb_spec (blen (mSections d)) (mx + 1)); [lia|].
    destruct (Z.eqb_spec (blen (mSections d)) 0); [lia|].
    destruct (read_sections_ok (mSections d) [] p2 rest (vw_secname d W)) as (p3 & E3 & Hp3); [done|].
    replace (Z.to_nat (blen (mSections d))) with (length (mSections d)) by (unfold blen; lia). unfold mbind at 1, ST_bind at 1. rewrite E3. clear E3.
    rewrite sv_rebuild by apply (vw_sorted d W). cbn [app]. exists p3. split; [|done]. unfold mret at 1, ST_ret at 1. unfold mbind, ST_bind. by rewrite Hrev.
  - assert (mSections d = []) as Hn by (apply (vw_none d W), map_size_empty_inv; lia). rewrite Hn in Hp1, Hrev. cbn in Hp1.
    exists p1. split; [|done]. unfold mbind, ST_bind. cbn [mret ST_ret]. by rewrite Hrev.
Qed.
End Transfer.
