(* ===== verification/VendorOps.v ===== *)
(** * Vendor tags from a camera's operations

    When [createDescriptorFromOps] succeeds, that its descriptor answers as the
    operations do and is well formed, and that it arrives unchanged at the
    other end of a parcel.  The last part shows what duplicate tags, duplicate
    section names and failed writes do. *)

From S2P Require Import Prelude Monad Params VendorTags VendorTagsSpec.
From stdpp Require Import strings sorting.

#[local] Open Scope string_scope.
#[local] Open Scope list_scope.
#[local] Open Scope Z_scope.

Section Ops.
Variable ops : vendor_tag_ops.

Definition osec (t : Z) : string := default "" (get_section_name ops t).
Definition onm (t : Z) : string := default "" (get_tag_name ops t).

(** What the first loop asks of a tag. *)
Definition valid_tag (t : Z) : bool :=
  (VENDOR_TAG_BOUNDARY <=? t) && bool_decide (is_Some (get_tag_name ops t)) && bool_decide (is_Some (get_section_name ops t)) &&
  (0 <=? get_tag_type ops t) && (get_tag_type ops t <? NUM_TYPES).

Lemma valid_tag_spec t : valid_tag t = true ↔ VENDOR_TAG_BOUNDARY <= t ∧ get_tag_name ops t = Some (onm t) ∧ get_section_name ops t = Some (osec t) ∧ 0 <= get_tag_type ops t < NUM_TYPES.
Proof.
  unfold valid_tag, onm, osec. rewrite !andb_true_iff, !bool_decide_eq_true, !Z.leb_le, Z.ltb_lt. split.
  - intros ((((? & [n En]) & [s Es]) & ?) & ?). by rewrite En, Es.
  - intros (? & En & Es & ?). rewrite En, Es. naive_solver.
Qed.

Definition ops_sections (l : list Z) (s : list string) : list string := foldl (λ s t, sv_add (osec t) s) s l.

(** The descriptor of a list of tags. *)
Definition made (l : list Z) : VendorTagDescriptor :=
  let s := ops_sections l [] in
  mkVtd (get_tag_count ops) s (foldl (λ m t, <[t := sv_indexOf (osec t) s]> m) ∅ l) (foldl (λ m t, <[t := onm t]> m) ∅ l)
    (foldl (λ m t, <[t := get_tag_type ops t]> m) ∅ l) (reverse_of osec onm l ∅).

Lemma collect_spec l d s m : collect ops l d s m =
  if forallb valid_tag l
  then inr (d <| mTagToNameMap := foldl (λ m t, <[t := onm t]> m) (mTagToNameMap d) l |> <| mTagToTypeMap := foldl (λ m t, <[t := get_tag_type ops t]> m) (mTagToTypeMap d) l |>,
            ops_sections l s, foldl (λ m t, <[t := osec t]> m) m l)
  else inl BAD_VALUE.
Proof.
  revert d s m. induction l as [|t l IH]; intros d s m; [by destruct d|]. cbn [collect forallb]. destruct (valid_tag t) eqn:Hv; cbn [andb].
  - apply valid_tag_spec in Hv as (Hb & En & Es & Ht). destruct (Z.ltb_spec t VENDOR_TAG_BOUNDARY); [lia|]. rewrite En, Es.
    destruct (Z.ltb_spec (get_tag_type ops t) 0); [lia|]. destruct (Z.geb_spec (get_tag_type ops t) NUM_TYPES); [lia|]. cbn [orb].
    rewrite IH. destruct (forallb valid_tag l); [|done]. destruct d. done.
  - destruct (Z.ltb_spec t VENDOR_TAG_BOUNDARY); [done|]. destruct (get_tag_name ops t) eqn:En; [|done]. destruct (get_section_name ops t) eqn:Es; [|done].
    destruct (Z.ltb_spec (get_tag_type ops t) 0); [done|]. destruct (Z.geb_spec (get_tag_type ops t) NUM_TYPES); [done|]. exfalso.
    apply not_true_iff_false in Hv. apply Hv, valid_tag_spec. unfold onm, osec. by rewrite En, Es.
Qed.

Lemma ops_sections_elem l s x : x ∈ ops_sections l s ↔ x ∈ s ∨ ∃ t, t ∈ l ∧ osec t = x.
Proof.
  unfold ops_sections. revert s. induction l as [|t l IH]; intros s; simpl; [set_solver|]. rewrite IH, sv_add_elem. set_solver.
Qed.
Lemma ops_sections_sorted l s : sorted s → sorted (ops_sections l s).
Proof. unfold ops_sections. revert s. induction l as [|t l IH]; intros s Hs; simpl; [done|]. by apply IH, sv_add_sorted. Qed.

Lemma index_tags_spec l m d :
  (∀ t, t ∈ l → m !! t = Some (osec t) ∧ osec t ∈ mSections d ∧ mTagToNameMap d !! t = Some (onm t)) →
  index_tags l m d = Some (d <| mTagToSectionMap := foldl (λ a t, <[t := sv_indexOf (osec t) (mSections d)]> a) (mTagToSectionMap d) l |>
                             <| mReverseMapping := reverse_of osec onm l (mReverseMapping d) |>).
Proof.
  revert d. induction l as [|t l IH]; intros d Hl; [by destruct d|]. destruct (Hl t) as (Es & Hs & En); [by left|]. cbn [index_tags].
  rewrite Es. cbn [mbind option_bind]. destruct (sv_indexOf_spec _ _ Hs) as [Hi _]. destruct (Z.ltb_spec (sv_indexOf (osec t) (mSections d)) 0); [lia|].
  rewrite En. cbn [mbind option_bind]. rewrite IH; [by destruct d|]. intros t' Ht'. destruct d. apply Hl. by right.
Qed.

(** The outcome of [createDescriptorFromOps], for any operations. *)
Lemma createDescriptorFromOps_spec l : 0 <= get_tag_count ops → ldn (get_all_tags ops) 0 (get_tag_count ops) = Some l →
  createDescriptorFromOps (Some ops) = if forallb valid_tag l then Some (OK, Some (made l)) else Some (BAD_VALUE, None).
Proof.
  intros Hc Hl. unfold createDescriptorFromOps. destruct (Z.ltb_spec (get_tag_count ops) 0); [lia|]. rewrite Hl. cbn [mbind option_bind].
  rewrite collect_spec. destruct (forallb valid_tag l) eqn:Hv; [|done]. rewrite index_tags_spec; [done|]. intros t Ht. cbn [mSections field_set].
  rewrite foldl_insert_lookup, decide_True by done. split; [done|]. split; [apply ops_sections_elem; eauto|].
  cbn. by rewrite foldl_insert_lookup, decide_True.
Qed.
End Ops.

(** ** Operations that name every tag once *)

Record ops_ok (ops : vendor_tag_ops) (l : list Z) : Prop := {
  oo_count : get_tag_count ops = blen l;
  oo_small : blen l < 2 ^ 31;
  oo_tags : ldn (get_all_tags ops) 0 (get_tag_count ops) = Some l;
  oo_valid : forallb (valid_tag ops) l = true;
  oo_nodup : NoDup l;
  oo_tag : ∀ t, t ∈ l → t < 2 ^ 32 ∧ onm ops t ≠ "" ∧ osec ops t ≠ "";
  oo_unique : ∀ t t', t ∈ l → t' ∈ l → osec ops t = osec ops t' → onm ops t = onm ops t' → t = t' }.

Lemma sv_add_length x l : (length (sv_add x l) <= S (length l))%nat.
Proof. induction l as [|y l IH]; simpl; [lia|]. case_bool_decide; simpl; [lia|]. destruct (str_le x y); simpl; lia. Qed.
Lemma ops_sections_length ops l s : (length (ops_sections ops l s) <= length l + length s)%nat.
Proof. unfold ops_sections. revert s. induction l as [|t l IH]; intros s; simpl; [lia|]. pose proof (IH (sv_add (osec ops t) s)). pose proof (sv_add_length (osec ops t) s). lia. Qed.

Lemma foldl_insert_dom {V} (f : Z → V) l : dom (foldl (λ m t, <[t := f t]> m) (∅ : gmap Z V) l) = list_to_set l.
Proof.
  apply set_eq. intros t. rewrite elem_of_dom, foldl_insert_lookup, elem_of_list_to_set. destruct (decide (t ∈ l)); [naive_solver|].
  rewrite lookup_empty. split; [by intros []|done].
Qed.

Section Good.
Variables (ops : vendor_tag_ops) (l : list Z).
Hypothesis O : ops_ok ops l.
Abbreviation d := (made ops l).

Lemma made_fields t : t ∈ l → mTagToNameMap d !! t = Some (onm ops t) ∧ mTagToTypeMap d !! t = Some (get_tag_type ops t) ∧
  mTagToSectionMap d !! t = Some (sv_indexOf (osec ops t) (mSections d)) ∧ ld (mSections d) (sv_indexOf (osec ops t) (mSections d)) = Some (osec ops t) ∧
  0 <= sv_indexOf (osec ops t) (mSections d) < blen (mSections d).
Proof.
  intros Ht. unfold made. cbn [mTagToNameMap mTagToTypeMap mTagToSectionMap mSections]. rewrite !foldl_insert_lookup, !decide_True by done.
  destruct (sv_indexOf_spec (osec ops t) (ops_sections ops l [])) as [Hi Hs]; [apply ops_sections_elem; eauto|]. done.
Qed.
Lemma made_names t : t ∈ l → nm_of d t = onm ops t ∧ ty_of d t = get_tag_type ops t ∧ sec_of d t = sv_indexOf (osec ops t) (mSections d) ∧ secname_of d t = osec ops t.
Proof. intros Ht. destruct (made_fields t Ht) as (En & Ey & Es & Hs & _). unfold nm_of, ty_of, secname_of, sec_of. rewrite En, Ey, Es. split_and!; [done|done|done|]. unfold default, from_option, id. by rewrite Hs. Qed.
Lemma made_dom : dom (mTagToNameMap d) = list_to_set l.
Proof. apply foldl_insert_dom. Qed.
Lemma valid_of t : t ∈ l → valid_tag ops t = true.
Proof. intros Ht. pose proof (oo_valid _ _ O) as Hv. rewrite forallb_forall in Hv. apply Hv. by apply list_elem_of_In. Qed.

Lemma made_tag_wf t : t ∈ l → tag_wf d t.
Proof.
  intros Ht. destruct (made_fields t Ht) as (En & Ey & Es & Hs & Hi), (made_names t Ht) as (E1 & E2 & E3 & E4), (oo_tag _ _ O t Ht) as (? & ? & ?).
  destruct (proj1 (valid_tag_spec ops t) (valid_of t Ht)) as (? & ? & ? & ?). constructor; rewrite ?E1, ?E2, ?E3; done.
Qed.

Lemma made_wf : vtd_wf d.
Proof.
  pose proof (oo_count _ _ O) as Hc. pose proof (oo_small _ _ O) as Hs. unfold blen in *.
  constructor.
  - cbn [mTagCount made]. rewrite <- size_dom, made_dom, size_list_to_set by apply (oo_nodup _ _ O). done.
  - cbn [mTagCount made]. lia.
  - intros t. rewrite made_dom, elem_of_list_to_set. apply made_tag_wf.
  - rewrite made_dom. apply foldl_insert_dom.
  - rewrite made_dom. apply foldl_insert_dom.
  - apply ops_sections_sorted. constructor.
  - apply Forall_forall. intros s Hx. apply ops_sections_elem in Hx as [Hx|(t & Ht & <-)]; [by apply not_elem_of_nil in Hx|]. by apply (oo_tag _ _ O).
  - pose proof (ops_sections_length ops l []) as Hn. change (length []) with 0%nat in Hn. change (mSections d) with (ops_sections ops l []). unfold blen. lia.
  - intros E. pose proof made_dom as Hd. rewrite E, dom_empty_L in Hd. destruct l as [|t l']; [done|set_solver].
  - apply no_empty_reverse. by intros s n.
  - intros s n t. cbn [mReverseMapping made]. rewrite reverse_of_spec by apply (oo_unique _ _ O). rewrite made_dom, elem_of_list_to_set.
    split; intros (Ht & <- & <-); destruct (made_names t Ht) as (E1 & _ & _ & E4); by rewrite ?E1, ?E4.
Qed.

(** The descriptor answers as the operations do. *)
Lemma made_answers t : t ∈ l →
  getTagName d t = get_tag_name ops t ∧ getSectionName d t = Some (get_section_name ops t) ∧ getTagType d t = Some (get_tag_type ops t) ∧
  lookupTag d (onm ops t) (osec ops t) = (OK, Some t).
Proof.
  intros Ht. destruct (made_fields t Ht) as (En & Ey & Es & Hs & Hi). destruct (proj1 (valid_tag_spec ops t) (valid_of t Ht)) as (? & Hn & Hc & ?).
  unfold getTagName, getSectionName, getTagType. rewrite En, Es, Ey, Hn, Hc, Hs. split_and!; [done|done|done|]. rewrite lookupTag_rev.
  destruct (made_names t Ht) as (E1 & _ & _ & E4).
  assert (rev_get (mReverseMapping d) (osec ops t) (onm ops t) = Some t) as ->; [|done].
  apply (vw_reverse d made_wf). rewrite made_dom, elem_of_list_to_set. done.
Qed.
Lemma made_other t : t ∉ l → getTagName d t = None ∧ getSectionName d t = Some None ∧ getTagType d t = Some VENDOR_TAG_TYPE_ERR.
Proof.
  intros Ht. unfold getTagName, getSectionName, getTagType, made. cbn [mTagToNameMap mTagToSectionMap].
  by rewrite !foldl_insert_lookup, !decide_False, !lookup_empty by done.
Qed.
Lemma made_array : Permutation (getTagArray d) l.
Proof.
  unfold getTagArray, keys. rewrite merge_sort_Permutation, made_dom. apply elements_list_to_set, (oo_nodup _ _ O).
Qed.
End Good.

(** [createDescriptorFromOps] accepts a camera's operations exactly when
    every tag they list is a vendor tag with a name, a section and a known
    type; otherwise it answers BAD_VALUE and gives no descriptor. *)
Theorem vendor_ops_accepted ops l : 0 <= get_tag_count ops → ldn (get_all_tags ops) 0 (get_tag_count ops) = Some l →
  (∃ d, createDescriptorFromOps (Some ops) = Some (OK, Some d)) ∧ forallb (valid_tag ops) l = true ∨
  createDescriptorFromOps (Some ops) = Some (BAD_VALUE, None) ∧ ∃ t, t ∈ l ∧ valid_tag ops t = false.
Proof.
  intros Hc Hl. rewrite (createDescriptorFromOps_spec ops l Hc Hl). destruct (forallb (valid_tag ops) l) eqn:Hv; [left; eauto|right]. split; [done|].
  apply not_true_iff_false in Hv. rewrite forallb_forall in Hv. destruct (decide (Exists (λ t, valid_tag ops t = false) l)) as [He|He].
  - apply Exists_exists in He as (t & ? & ?). eauto.
  - exfalso. apply Hv. intros t Ht. apply list_elem_of_In in Ht. apply not_false_iff_true. intros Hf. apply He, Exists_exists. eauto.
Qed.

(** C24: a descriptor made from operations that list every tag once, with
    names that are not empty and no two tags sharing section and name, answers
    each question as the operations do, finds each tag by its names, and is
    read back unchanged from a parcel whose writes succeed. *)
Theorem vendor_tags_travel `{P : Parcel} {PO : ParcelOk P} ops l p :
  ops_ok ops l → (∀ v p, (writeInt32 v p).1 = OK) → (∀ s p, (writeString8 s p).1 = OK) → items p = [] →
  ∃ d p1 p2, createDescriptorFromOps (Some ops) = Some (OK, Some d) ∧
    (∀ t, t ∈ l → getTagName d t = get_tag_name ops t ∧ getSectionName d t = Some (get_section_name ops t) ∧ getTagType d t = Some (get_tag_type ops t) ∧
                  lookupTag d (onm ops t) (osec ops t) = (OK, Some t)) ∧
    (∀ t, t ∉ l → getTagName d t = None ∧ getSectionName d t = Some None ∧ getTagType d t = Some VENDOR_TAG_TYPE_ERR) ∧
    Permutation (getTagArray d) l ∧
    writeToParcel d p = Some (OK, p1) ∧ createFromParcel p1 = Some ((OK, Some d), p2).
Proof.
  intros O Hi Hs Hp. pose proof (made_wf ops l O) as W. destruct (writeToParcel_items Hi Hs _ p W) as (p1 & E1 & I1). rewrite Hp in I1.
  destruct (createFromParcel_items _ p1 [] W) as (p2 & E2 & _); [by rewrite app_nil_r|]. exists (made ops l), p1, p2.
  assert (0 <= get_tag_count ops) by (rewrite (oo_count _ _ O); unfold blen; lia).
  rewrite (createDescriptorFromOps_spec ops l) by (done || apply (oo_tags _ _ O)). rewrite (oo_valid _ _ O).
  split_and!; [done|intros; by apply made_answers|intros; by apply made_other|by apply made_array|done|done].
Qed.

(** ** Concrete parcels *)

(** A parcel that keeps its items in order. *)
#[local] Instance list_parcel : Parcel := {|
  parcel := list pitem;
  writeInt32 := λ v p, (OK, p ++ [PInt (i32 v)]);
  writeString8 := λ s p, (OK, p ++ [PStr s]);
  readInt32 := λ p, match p with PInt v :: l => ((OK, v), l) | _ => ((NOT_ENOUGH_DATA, 0), p) end;
  readString8 := λ p, match p with PStr s :: l => (s, l) | _ => ("", p) end;
  items := id |}.
#[local] Instance list_parcel_ok : ParcelOk list_parcel.
Proof. split; [done|done| |]; intros v l p; cbn; by intros ->. Qed.

Definition three_tags : vendor_tag_ops := mkOps 3 [0x80000001; 0x80010000; 0x80000000]
  (λ t, if t <? 0x80010000 then Some "org.codeaurora" else Some "nvidia") (λ t, if t =? 0x80000000 then Some "gain" else Some "mode") (λ t, if t =? 0x80000000 then 1 else 0).

Lemma three_tags_ok : ops_ok three_tags (get_all_tags three_tags).
Proof.
  split; [done|done|done|done|apply (bool_decide_unpack _); by vm_compute| |].
  - apply Forall_forall. apply (bool_decide_unpack (Forall (λ t, t < 2 ^ 32 ∧ onm three_tags t ≠ "" ∧ osec three_tags t ≠ "") _)). by vm_compute.
  - intros t t' Ht Ht'. cbn in Ht, Ht'. repeat (apply elem_of_cons in Ht as [->|Ht]); try (by apply not_elem_of_nil in Ht);
      repeat (apply elem_of_cons in Ht' as [->|Ht']); try (by apply not_elem_of_nil in Ht'); done.
Qed.

Lemma vendor_ops_accepted_witness :
  (∃ d, createDescriptorFromOps (Some three_tags) = Some (OK, Some d)) ∧ forallb (valid_tag three_tags) (get_all_tags three_tags) = true ∨
  createDescriptorFromOps (Some three_tags) = Some (BAD_VALUE, None) ∧ ∃ t, t ∈ get_all_tags three_tags ∧ valid_tag three_tags t = false.
Proof. apply (vendor_ops_accepted three_tags); [by vm_compute|reflexivity]. Defined.

Lemma vendor_tags_travel_witness : ∃ d p1 p2, createDescriptorFromOps (Some three_tags) = Some (OK, Some d) ∧ lookupTag d "mode" "nvidia" = (OK, Some 0x80010000) ∧
  writeToParcel d ([] : list pitem) = Some (OK, p1) ∧ createFromParcel p1 = Some ((OK, Some d), p2).
Proof.
  destruct (vendor_tags_travel (P := list_parcel) three_tags (get_all_tags three_tags) []) as (d & p1 & p2 & E & Ha & _ & _ & Ew & Er);
    [apply three_tags_ok|done|done|done|]. exists d, p1, p2. split_and!; [exact E| |exact Ew|exact Er].
  apply (Ha 0x80010000). apply (bool_decide_unpack _). by vm_compute.
Defined.

(** ** What goes wrong *)

(** A tag listed twice: the descriptor is accepted and written without error,
    and the other side refuses it, since the count written is that of the list
    and the tags written are those of the map. *)
Definition twice : vendor_tag_ops := mkOps 2 [0x80000000; 0x80000000] (λ _, Some "s") (λ _, Some "n") (λ _, 0).
Theorem duplicate_tags_refused : ∃ d p, createDescriptorFromOps (Some twice) = Some (OK, Some d) ∧
  writeToParcel d ([] : list pitem) = Some (OK, p) ∧ fst <$> createFromParcel p = Some (BAD_VALUE, None).
Proof.
  exists (made twice (get_all_tags twice)), [PInt 2; PInt (i32 0x80000000); PInt 0; PStr "n"; PInt 0; PInt 1; PStr "s"].
  split_and!; [by apply (createDescriptorFromOps_spec twice (get_all_tags twice))|by vm_compute|by vm_compute].
Qed.

(** An empty name is accepted from the operations and refused from a parcel. *)
Definition unnamed : vendor_tag_ops := mkOps 1 [0x80000000] (λ _, Some "s") (λ _, Some "") (λ _, 0).
Theorem empty_names_refused : ∃ d p, createDescriptorFromOps (Some unnamed) = Some (OK, Some d) ∧
  writeToParcel d ([] : list pitem) = Some (OK, p) ∧ fst <$> createFromParcel p = Some (NOT_ENOUGH_DATA, None).
Proof.
  exists (made unnamed (get_all_tags unnamed)), [PInt 1; PInt (i32 0x80000000); PInt 0; PStr ""; PInt 0; PInt 1; PStr "s"].
  split_and!; [by apply (createDescriptorFromOps_spec unnamed (get_all_tags unnamed))|by vm_compute|by vm_compute].
Qed.

(** A parcel that names one section twice passes the check of the section count
    and is then indexed past the end of its sections. *)
Theorem duplicate_sections_overrun :
  createFromParcel [PInt 1; PInt (i32 0x80000000); PInt 0; PStr "n"; PInt 1; PInt 2; PStr "s"; PStr "s"] = None.
Proof. by vm_compute. Qed.

(** A parcel one write to which fails. *)
Definition flaky_write (x : pitem) (p : list pitem * Z) : Z * (list pitem * Z) :=
  let '(l, k) := p in if k =? 0 then (-12, (l, -1)) else (OK, (l ++ [x], k - 1)).
#[local] Instance flaky_parcel : Parcel := {|
  parcel := list pitem * Z;
  writeInt32 := λ v, flaky_write (PInt (i32 v));
  writeString8 := λ s, flaky_write (PStr s);
  readInt32 := λ p, match p.1 with PInt v :: l => ((OK, v), (l, p.2)) | _ => ((NOT_ENOUGH_DATA, 0), p) end;
  readString8 := λ p, match p.1 with PStr s :: l => (s, (l, p.2)) | _ => ("", p) end;
  items := fst |}.

(** A failed write of a tag's name is forgotten: [writeToParcel] reports success
    and the other side cannot read the parcel. *)
Theorem write_failure_forgotten : ∃ d p, createDescriptorFromOps (Some three_tags) = Some (OK, Some d) ∧
  writeToParcel d ([] : list pitem, 3) = Some (OK, p) ∧ fst <$> createFromParcel p = Some (NOT_ENOUGH_DATA, None).
Proof.
  exists (made three_tags (get_all_tags three_tags)), ([PInt 3; PInt (i32 0x80000000); PInt 1; PInt 2; PStr "nvidia"; PStr "org.codeaurora"], -4).
  split_and!; [by apply (createDescriptorFromOps_spec three_tags (get_all_tags three_tags))|by vm_compute|by vm_compute].
Qed.
