(* ===== verification/Cond.v ===== *)
(** * Condition variables (libmocha/bionic)

    pthread_cond.cpp and bionic_time_conversions.cpp: attributes, relative
    timeouts, and waiting and signalling on a futex.  The state word has two
    flags and a counter of 30 bits that every signal increments; a waiter
    passes the word it has seen to the kernel, which puts it to sleep only if
    the word is still the same.  Threads are a step relation: every load,
    store, system call, lock and unlock is a step. *)

From S2P Require Import Prelude Monad.
From Stdlib Require Import Lia.

#[local] Open Scope Z_scope.

Definition COND_SHARED_MASK : Z := 1.
Definition COND_CLOCK_MASK : Z := 2.
Definition COND_COUNTER_STEP : Z := 4.
Definition COND_FLAGS_MASK : Z := 3.
Definition COND_IS_SHARED (c : Z) : bool := negb (Z.land c COND_SHARED_MASK =? 0).
Definition COND_GET_CLOCK (c : Z) : Z := Z.land c COND_CLOCK_MASK ≫ 1.
Definition COND_SET_CLOCK (attr c : Z) : Z := Z.lor attr (c ≪ 1).

(** Of the C library and the kernel. *)
Definition PTHREAD_PROCESS_PRIVATE : Z := 0.
Definition PTHREAD_PROCESS_SHARED : Z := 1.
Definition CLOCK_REALTIME : Z := 0.
Definition CLOCK_MONOTONIC : Z := 1.
Definition EINVAL : Z := 22.
Definition EAGAIN : Z := 11.
Definition EINTR : Z := 4.
Definition ETIMEDOUT : Z := 110.

(** ** Attributes *)

(** The result and the attribute. *)
Definition pthread_condattr_init : Z * Z := (0, Z.lor (Z.lor 0 PTHREAD_PROCESS_PRIVATE) (CLOCK_REALTIME ≪ 1)).
Definition pthread_condattr_getpshared (attr : Z) : Z := if COND_IS_SHARED attr then 1 else 0.
Definition pthread_condattr_setpshared (attr pshared : Z) : Z * Z :=
  if negb (pshared =? PTHREAD_PROCESS_SHARED) && negb (pshared =? PTHREAD_PROCESS_PRIVATE) then (EINVAL, attr)
  else (0, Z.lor attr pshared).
Definition pthread_condattr_getclock (attr : Z) : Z := COND_GET_CLOCK attr.
Definition pthread_condattr_setclock (attr clock : Z) : Z * Z :=
  if negb (clock =? CLOCK_MONOTONIC) && negb (clock =? CLOCK_REALTIME) then (EINVAL, attr)
  else (0, COND_SET_CLOCK attr clock).
Definition pthread_condattr_destroy : Z * Z := (0, 0xdeada11d).
Definition pthread_cond_init (attr : option Z) : Z := match attr with Some a => Z.land a COND_FLAGS_MASK | None => 0 end.

(** A clock or sharing mode set on a new attribute reaches the condition
    variable, and the two do not disturb each other. *)
Theorem condattr_roundtrip pshared clock : 0 <= pshared <= 1 → 0 <= clock <= 1 →
  let a := (pthread_condattr_setclock (pthread_condattr_setpshared pthread_condattr_init.2 pshared).2 clock).2 in
  COND_GET_CLOCK (pthread_cond_init (Some a)) = clock ∧ COND_IS_SHARED (pthread_cond_init (Some a)) = (pshared =? 1).
Proof.
  intros Hp Hc. assert (pshared = 0 ∨ pshared = 1) as [-> | ->] by lia; assert (clock = 0 ∨ clock = 1) as [-> | ->] by lia; done.
Qed.

Lemma condattr_roundtrip_witness : 0 <= 1 <= 1 ∧ COND_GET_CLOCK (pthread_cond_init (Some 3)) = 1.
Proof. split; [lia|]. exact (proj1 (condattr_roundtrip 1 1 ltac:(lia) ltac:(lia))). Defined.

(** The setters only add bits: neither flag can be taken back. *)
Theorem condattr_sticky attr : 
  COND_GET_CLOCK (pthread_condattr_setclock (pthread_condattr_setclock attr CLOCK_MONOTONIC).2 CLOCK_REALTIME).2 = CLOCK_MONOTONIC ∧
  COND_IS_SHARED (pthread_condattr_setpshared (pthread_condattr_setpshared attr PTHREAD_PROCESS_SHARED).2 PTHREAD_PROCESS_PRIVATE).2 = true.
Proof.
  unfold pthread_condattr_setclock, pthread_condattr_setpshared, COND_SET_CLOCK, COND_GET_CLOCK, COND_IS_SHARED, CLOCK_REALTIME, CLOCK_MONOTONIC, PTHREAD_PROCESS_PRIVATE,
    PTHREAD_PROCESS_SHARED, COND_CLOCK_MASK, COND_SHARED_MASK. simpl. rewrite !Z.lor_0_r, !Z.land_lor_distr_l. split.
  - change (Z.land (1 ≪ 1) 2) with 2. apply Z.bits_inj'. intros n Hn. rewrite Z.shiftr_spec, Z.lor_spec, Z.land_spec by lia.
    destruct (decide (n = 0)) as [->|]; [simpl; by rewrite orb_true_r|].
    rewrite (Z.bits_above_log2 2 (n + 1)), (Z.bits_above_log2 1 n) by (simpl; lia). by rewrite andb_false_r.
  - change (Z.land 1 1) with 1. apply negb_true_iff, Z.eqb_neq. intros E. assert (Z.testbit (Z.lor (Z.land attr 1) 1) 0 = true) as Hb by (by rewrite Z.lor_spec, orb_true_r).
    by rewrite E in Hb.
Qed.

(** ** Relative timeouts *)

Record timespec := mkTs { tv_sec : Z; tv_nsec : Z }.
Definition NS_PER_S : Z := 1000000000.

(** [ms] is an [int]; C's division truncates. *)
Definition timespec_from_ms (ms : Z) : timespec := mkTs (Z.quot ms 1000) (Z.rem ms 1000 * 1000000).

(** [now] is what [clock_gettime] gives; [time_t] and [long] have 32 bits. *)
Definition timespec_from_absolute_timespec (abs_ts now : timespec) : option (bool * timespec) :=
  sec ← ck32 (tv_sec abs_ts - tv_sec now);
  nsec ← ck32 (tv_nsec abs_ts - tv_nsec now);
  '(sec, nsec) ← (if nsec <? 0 then s ← ck32 (sec - 1); n ← ck32 (nsec + NS_PER_S); Some (s, n) else Some (sec, nsec));
  Some (negb ((nsec <? 0) || (sec <? 0)), mkTs sec nsec).

Definition ts_ok (t : timespec) : Prop := 0 <= tv_sec t <= INT_MAX ∧ 0 <= tv_nsec t < NS_PER_S.
Definition ns_of (t : timespec) : Z := tv_sec t * NS_PER_S + tv_nsec t.

(** The relative timeout of a deadline is defined and is a proper time that
    ends at the deadline; the call says that the deadline has passed exactly
    when it has. *)
Theorem relative_timeout abs_ts now : ts_ok abs_ts → ts_ok now →
  ∃ b ts, timespec_from_absolute_timespec abs_ts now = Some (b, ts) ∧ (b = true ↔ ns_of now <= ns_of abs_ts) ∧
    0 <= tv_nsec ts < NS_PER_S ∧ ns_of now + ns_of ts = ns_of abs_ts.
Proof.
  intros [[A1 A2] A3] [[B1 B2] B3]. unfold timespec_from_absolute_timespec, ns_of, NS_PER_S, INT_MAX in *.
  rewrite (ck32_Some (tv_sec abs_ts - tv_sec now)), (ck32_Some (tv_nsec abs_ts - tv_nsec now)) by (unfold INT_MIN, INT_MAX; lia). cbn [mbind option_bind].
  destruct (Z.ltb_spec (tv_nsec abs_ts - tv_nsec now) 0).
  - rewrite (ck32_Some (_ - 1)), (ck32_Some (_ + 1000000000)) by (unfold INT_MIN, INT_MAX; lia). cbn [mbind option_bind].
    eexists _, _. split; [reflexivity|]. cbn [tv_sec tv_nsec]. split; [|lia]. destruct (Z.ltb_spec (tv_nsec abs_ts - tv_nsec now + 1000000000) 0); [lia|].
    destruct (Z.ltb_spec (tv_sec abs_ts - tv_sec now - 1) 0); cbn [orb negb]; split; (lia || done).
  - cbn [mbind option_bind]. eexists _, _. split; [reflexivity|]. cbn [tv_sec tv_nsec]. split; [|lia]. destruct (Z.ltb_spec (tv_nsec abs_ts - tv_nsec now) 0); [lia|].
    destruct (Z.ltb_spec (tv_sec abs_ts - tv_sec now) 0); cbn [orb negb]; split; (lia || done).
Qed.

Lemma relative_timeout_witness : ∃ b ts, timespec_from_absolute_timespec (mkTs 10 5) (mkTs 8 999999999) = Some (b, ts) ∧ tv_nsec ts < NS_PER_S ∧
  ns_of (mkTs 8 999999999) + ns_of ts = ns_of (mkTs 10 5).
Proof.
  destruct (relative_timeout (mkTs 10 5) (mkTs 8 999999999)) as (b & ts & E & _ & [_ Hn] & Hs); [split; vm_compute; split; (reflexivity || discriminate)..|].
  exists b, ts. split; [exact E|]. split; [exact Hn|exact Hs].
Defined.

(** [__pthread_cond_timedwait] before the wait: a result at once, or the
    relative timeout, null for none.  The mutex stays locked. *)
Definition timedwait_start (abs_timeout_or_null : option timespec) (now : timespec) : option (Z + option timespec) :=
  match abs_timeout_or_null with
  | None => Some (inr None)
  | Some abs_ts => '(b, ts) ← timespec_from_absolute_timespec abs_ts now; Some (if b : bool then inr (Some ts) else inl ETIMEDOUT)
  end.

(** The timeout of [pthread_cond_timeout_np], whose milliseconds are unsigned. *)
Definition timeout_np (ms : Z) : timespec := timespec_from_ms (i32 ms).

(** Up to [INT_MAX] milliseconds it is the time asked for; more is a negative
    time, which the futex refuses: the wait returns at once. *)
Theorem timeout_np_range ms : 0 <= ms < 2 ^ 32 →
  (ms <= INT_MAX → ns_of (timeout_np ms) = ms * 1000000 ∧ 0 <= tv_nsec (timeout_np ms) < NS_PER_S) ∧
  (INT_MAX < ms → ns_of (timeout_np ms) < 0).
Proof.
  intros Hm. unfold timeout_np, timespec_from_ms, ns_of, NS_PER_S, INT_MAX in *. cbn [tv_sec tv_nsec].
  pose proof (Z.quot_rem' (i32 ms) 1000) as Hq. split; intros H.
  - rewrite i32_id in * by lia. pose proof (Z.rem_bound_pos ms 1000). lia.
  - assert (i32 ms = ms - 2 ^ 32) as E.
    { unfold i32. replace (ms + 2 ^ 31) with (ms - 2 ^ 31 + 1 * 2 ^ 32) by lia. rewrite Z.mod_add, Z.mod_small by lia. lia. }
    rewrite E in *. pose proof (Z.rem_bound_neg_pos (ms - 2 ^ 32) 1000). lia.
Qed.

(** ** Waiting and signalling *)

(** Where a thread is.  [old] is the word it has loaded.  The other numbers
    count signals, for the proofs only: [since] when it loaded the word,
    [slept] when it went to sleep, [mark] after its own. *)
Inductive cpc :=
  | CRun
  | CLoaded (old : Z) (since : nat) (timed : bool)     (* before pthread_mutex_unlock *)
  | CUnlocked (old : Z) (since : nat) (timed : bool)   (* before FUTEX_WAIT *)
  | CAsleep (since slept : nat) (timed : bool)
  | CBack (status : Z)                                 (* before pthread_mutex_lock *)
  | CPulsed (thread_count : Z) (mark : nat).           (* before FUTEX_WAKE *)

(** [drained]: the last signal that has left no thread asleep. *)
Record cvar := mkCv { cv_state : Z; cv_mutex : option nat; cv_threads : gmap nat cpc; pulses : nat; drained : nat }.
#[export] Instance cvar_eta : Eta cvar := λ c, mkCv (cv_state c) (cv_mutex c) (cv_threads c) (pulses c) (drained c).

(** [atomic_fetch_add] of the step. *)
Definition bump (state : Z) : Z := u32 (state + COND_COUNTER_STEP).

Definition is_asleep (pc : cpc) : bool := match pc with CAsleep _ _ _ => true | _ => false end.
Definition sleepers (c : cvar) : gset nat := dom (filter (λ kv, is_asleep kv.2 = true) (cv_threads c)).
Definition wake (woken : gset nat) (m : gmap nat cpc) : gmap nat cpc :=
  map_imap (λ t pc, Some (if bool_decide (t ∈ woken) then CBack 0 else pc)) m.

(** [__pthread_cond_timedwait_relative] after the futex. *)
Definition wait_result (status : Z) : Z := if status =? - ETIMEDOUT then ETIMEDOUT else 0.

(** The choices: which thread moves, whom the kernel wakes, and how long it lets
    a thread sleep. *)
Inductive clabel :=
  | CLock (t : nat) | CUnlock (t : nat)
  | CWait (t : nat) (timed : bool) | CRelease (t : nat) | CFutex (t : nat)
  | CTimeout (t : nat) | CInterrupt (t : nat) | CReturn (t : nat) (r : Z)
  | CPulse (t : nat) (thread_count : Z) | CWake (t : nat) (woken : gset nat).

Abbreviation goto c t pc := (c <| cv_threads := <[t := pc]> (cv_threads c) |>).

Definition cond_step (l : clabel) (c : cvar) : option cvar :=
  match l with
  | CLock t => match cv_threads c !! t, cv_mutex c with Some CRun, None => Some (c <| cv_mutex := Some t |>) | _, _ => None end
  | CUnlock t =>
      match cv_threads c !! t with
      | Some CRun => if bool_decide (cv_mutex c = Some t) then Some (c <| cv_mutex := None |>) else None
      | _ => None
      end
  | CWait t timed =>
      match cv_threads c !! t with
      | Some CRun => if bool_decide (cv_mutex c = Some t) then Some (goto c t (CLoaded (cv_state c) (pulses c) timed)) else None
      | _ => None
      end
  | CRelease t => match cv_threads c !! t with Some (CLoaded old s b) => Some ((goto c t (CUnlocked old s b)) <| cv_mutex := None |>) | _ => None end
  | CFutex t =>
      match cv_threads c !! t with
      | Some (CUnlocked old s b) => Some (goto c t (if cv_state c =? old then CAsleep s (pulses c) b else CBack (- EAGAIN)))
      | _ => None
      end
  | CTimeout t => match cv_threads c !! t with Some (CAsleep _ _ true) => Some (goto c t (CBack (- ETIMEDOUT))) | _ => None end
  | CInterrupt t => match cv_threads c !! t with Some (CAsleep _ _ _) => Some (goto c t (CBack (- EINTR))) | _ => None end
  | CReturn t r =>
      match cv_threads c !! t, cv_mutex c with
      | Some (CBack status), None => if r =? wait_result status then Some ((goto c t CRun) <| cv_mutex := Some t |>) else None
      | _, _ => None
      end
  | CPulse t n =>
      match cv_threads c !! t with
      | Some CRun => Some ((goto c t (CPulsed n (S (pulses c)))) <| cv_state := bump (cv_state c) |> <| pulses := S (pulses c) |>)
      | _ => None
      end
  | CWake t woken =>
      match cv_threads c !! t with
      | Some (CPulsed n mark) =>
          if bool_decide (woken ⊆ sleepers c ∧ Z.of_nat (size woken) = Z.min n (Z.of_nat (size (sleepers c))))
          then Some (c <| cv_threads := <[t := CRun]> (wake woken (cv_threads c)) |>
                       <| drained := if bool_decide (woken = sleepers c) then Nat.max (drained c) mark else drained c |>)
          else None
      | _ => None
      end
  end.

(** [pthread_cond_signal] and [pthread_cond_broadcast]. *)
Definition pthread_cond_signal (t : nat) : clabel := CPulse t 1.
Definition pthread_cond_broadcast (t : nat) : clabel := CPulse t INT_MAX.

Definition pthread_cond_destroy (c : cvar) : cvar := c <| cv_state := 0xdeadc04d |>.

(** The calls that wait: the return value, or the wait that begins.  [clock]
    gives the time of a clock. *)
Definition pthread_cond_wait (t : nat) : clabel := CWait t false.
Definition timedwait_on (clock : Z → timespec) (id : Z) (t : nat) (abstime : option timespec) : option (Z + clabel) :=
  r ← timedwait_start abstime (clock id);
  Some (match r with inl e => inl e | inr rel => inr (CWait t (bool_decide (is_Some rel))) end).
Definition pthread_cond_timedwait (clock : Z → timespec) (c : cvar) (t : nat) (abstime : option timespec) : option (Z + clabel) :=
  timedwait_on clock (COND_GET_CLOCK (cv_state c)) t abstime.
Definition pthread_cond_timedwait_monotonic (clock : Z → timespec) (t : nat) (abstime : option timespec) : option (Z + clabel) :=
  timedwait_on clock CLOCK_MONOTONIC t abstime.
Definition pthread_cond_timedwait_relative_np (t : nat) (rel : option timespec) : clabel := CWait t (bool_decide (is_Some rel)).
Definition pthread_cond_timeout_np (t : nat) (ms : Z) : clabel := pthread_cond_timedwait_relative_np t (Some (timeout_np ms)).

Inductive cond_reach (c : cvar) : cvar → Prop :=
  | cond_refl : cond_reach c c
  | cond_next c1 l c2 : cond_reach c c1 → cond_step l c1 = Some c2 → cond_reach c c2.

(** A new variable and its threads. *)
Definition cond_new (attr : option Z) (ts : gset nat) : cvar := mkCv (pthread_cond_init attr) None (gset_to_gmap CRun ts) 0 0.

(** The word after [n] signals. *)
Definition word (init : Z) (n : nat) : Z := u32 (init + COND_COUNTER_STEP * Z.of_nat n).

Lemma bump_word init n : bump (word init n) = word init (S n).
Proof. unfold bump, word, u32. rewrite Zplus_mod_idemp_l. f_equal. unfold COND_COUNTER_STEP. lia. Qed.

(** The flags are left alone, so wait and wake agree on the kind of futex. *)
Lemma bump_flags s : Z.land (bump s) COND_FLAGS_MASK = Z.land s COND_FLAGS_MASK.
Proof.
  unfold bump, u32, COND_FLAGS_MASK, COND_COUNTER_STEP. change 3 with (Z.ones 2). rewrite !Z.land_ones by lia.
  change (2 ^ 32) with (2 ^ 2 * 2 ^ 30). rewrite Z.rem_mul_r by lia. rewrite Z.mul_comm, Z.mod_add by lia.
  rewrite Z.mod_mod by lia. rewrite <- Zplus_mod_idemp_r. change (4 mod 2 ^ 2) with 0. f_equal. lia.
Qed.

(** Equal words: a multiple of 2 ^ 30 signals apart. *)
Lemma word_eq init m n : word init m = word init n ↔ Z.of_nat m mod 2 ^ 30 = Z.of_nat n mod 2 ^ 30.
Proof.
  unfold word, u32, COND_COUNTER_STEP. split; intros E.
  - apply Z.cong_iff_ex in E as [k E]. apply Z.cong_iff_ex. exists k. lia.
  - apply Z.cong_iff_ex in E as [k E]. apply Z.cong_iff_ex. exists k. lia.
Qed.

(** ** Invariant *)

Section Inv.
Variable init : Z.

Definition pc_ok (c : cvar) (pc : cpc) : Prop :=
  match pc with
  | CLoaded old s _ | CUnlocked old s _ => old = word init s ∧ (s <= pulses c)%nat
  | CAsleep s p _ => (s <= p <= pulses c)%nat ∧ word init p = word init s ∧ (drained c <= p)%nat
  | CPulsed _ m => (m <= pulses c)%nat
  | CRun | CBack _ => True
  end.

Record cond_inv (c : cvar) : Prop := {
  ci_state : cv_state c = word init (pulses c);
  ci_drained : (drained c <= pulses c)%nat;
  ci_pcs : ∀ t pc, cv_threads c !! t = Some pc → pc_ok c pc }.

(** A step of one thread that changes no counter. *)
Lemma inv_goto c t pc m : cond_inv c → pc_ok c pc → cond_inv ((goto c t pc) <| cv_mutex := m |>).
Proof.
  intros [I1 I2 I3] Hpc. split; simpl; [done|done|]. intros t' pc' Hl. apply lookup_insert_Some in Hl as [[_ <-]|[_ Hl]]; [done|exact (I3 _ _ Hl)].
Qed.

Lemma inv_pulse c t n : cond_inv c →
  cond_inv ((goto c t (CPulsed n (S (pulses c)))) <| cv_state := bump (cv_state c) |> <| pulses := S (pulses c) |>).
Proof.
  intros [I1 I2 I3]. split; simpl; [by rewrite I1, bump_word|lia|]. intros t' pc' Hl. apply lookup_insert_Some in Hl as [[_ <-]|[_ Hl]]; [simpl; lia|].
  specialize (I3 _ _ Hl). destruct pc' as [| | |? ? ?| |]; simpl in *; try done; intuition lia.
Qed.

Lemma wake_lookup woken m t pc : wake woken m !! t = Some pc → m !! t = Some pc ∧ t ∉ woken ∨ pc = CBack 0.
Proof.
  unfold wake. rewrite map_lookup_imap. destruct (m !! t) as [pc0|] eqn:E; [|done]. simpl. case_bool_decide; intros [= <-]; [by right|by left].
Qed.

Lemma sleepers_spec c t s p b : cv_threads c !! t = Some (CAsleep s p b) → t ∈ sleepers c.
Proof. intros Hl. unfold sleepers. apply elem_of_dom. exists (CAsleep s p b). by apply map_lookup_filter_Some. Qed.

Lemma inv_wake c t woken n mark : cond_inv c → cv_threads c !! t = Some (CPulsed n mark) →
  cond_inv (c <| cv_threads := <[t := CRun]> (wake woken (cv_threads c)) |>
              <| drained := if bool_decide (woken = sleepers c) then Nat.max (drained c) mark else drained c |>).
Proof.
  intros [I1 I2 I3] Ht. pose proof (I3 _ _ Ht) as Hm. simpl in Hm. split; simpl; [done|case_bool_decide; lia|].
  intros t' pc' Hl. apply lookup_insert_Some in Hl as [[_ <-]|[_ Hl]]; [done|]. apply wake_lookup in Hl as [[Hl Hn]| ->]; [|done].
  specialize (I3 _ _ Hl). destruct pc' as [| | |s p b| |]; simpl in *; try done. case_bool_decide as E; [|done].
  exfalso. apply Hn. rewrite E. by eapply sleepers_spec.
Qed.

Lemma inv_step l c c' : cond_inv c → cond_step l c = Some c' → cond_inv c'.
Proof.
  intros HI E. pose proof HI as [I1 I2 I3]. unfold cond_step in E.
  destruct l; repeat (case_match; simplify_eq); try done;
    try match goal with Hl : cv_threads c !! _ = Some _ |- _ => pose proof (I3 _ _ Hl) as Hpc end;
    try (by apply inv_pulse); try (by eapply inv_wake);
    try (split; [done|done|exact I3]);
    try match goal with |- cond_inv (goto ?c ?t ?pc) => pose proof (inv_goto c t pc (cv_mutex c) HI) as Hx; destruct c; apply Hx end;
    try (apply inv_goto; [done|]); simpl in *; try done.
  - zbool. destruct Hpc as [-> ?]. split_and!; [lia|lia|congruence|lia].
  - pose proof (inv_wake c t woken _ _ HI H) as Hx. by rewrite H1 in Hx.
  - pose proof (inv_wake c t woken _ _ HI H) as Hx. by rewrite H1 in Hx.
Qed.

Lemma inv_reach c c' : cond_inv c → cond_reach c c' → cond_inv c'.
Proof. intros HI. induction 1 as [|c1 l c2 _ IH E]; [done|]. by eapply inv_step. Qed.
End Inv.

Lemma inv_new attr ts : cond_inv (pthread_cond_init attr) (cond_new attr ts).
Proof.
  split; simpl; [|lia|].
  - unfold word. rewrite Z.mul_0_r, Z.add_0_r. symmetry. apply u32_id. unfold pthread_cond_init, COND_FLAGS_MASK. destruct attr as [a|]; [|lia].
    change 3 with (Z.ones 2). rewrite Z.land_ones by lia. pose proof (Z.mod_pos_bound a (2 ^ 2)). lia.
  - intros t pc Hl. apply lookup_gset_to_gmap_Some in Hl as [_ <-]. done.
Qed.

(** C21: In every interleaving of waiters and signallers, with timeouts and
    interruptions: a thread that sleeps loaded its word after the start of
    every signal or broadcast that has left no thread asleep, unless 2 ^ 30
    signals or more came between its load and its sleep.  No wakeup is lost
    in the gap between the unlock and the wait. *)
Theorem cond_no_lost_wakeup attr ts c t since slept timed : cond_reach (cond_new attr ts) c →
  cv_threads c !! t = Some (CAsleep since slept timed) → Z.of_nat slept - Z.of_nat since < 2 ^ 30 → (drained c <= since)%nat ∧ slept = since.
Proof.
  intros Hr Ht Hlt. destruct (inv_reach _ _ _ (inv_new attr ts) Hr) as [_ _ HP]. destruct (HP _ _ Ht) as ([H1 H2] & Hw & Hd).
  apply word_eq in Hw. assert (slept = since) as ->; [|done].
  assert ((Z.of_nat slept - Z.of_nat since) mod 2 ^ 30 = 0) as E by (rewrite Zminus_mod, Hw, Z.sub_diag; done).
  rewrite Z.mod_small in E by lia. lia.
Qed.

(** ** A concrete run, and the wakeup that is lost *)

(** Thread 1 waits while thread 2 runs. *)
Definition two : gset nat := {[1%nat; 2%nat]}.

Fixpoint run_cond (ls : list clabel) (c : cvar) : option cvar :=
  match ls with [] => Some c | l :: ls' => c' ← cond_step l c; run_cond ls' c' end.

Lemma run_reach ls c c1 c2 : cond_reach c c1 → run_cond ls c1 = Some c2 → cond_reach c c2.
Proof.
  revert c1. induction ls as [|l ls IH]; simpl; intros c1 Hr E; [by injection E as <-|]. destruct (cond_step l c1) as [c'|] eqn:El; [|done].
  apply (IH c'); [|done]. by eapply cond_next.
Qed.

Lemma cond_no_lost_wakeup_witness : ∃ c, cond_reach (cond_new None two) c ∧
  cv_threads c !! 1%nat = Some (CAsleep 1 1 false) ∧ (drained c <= 1)%nat ∧ drained c = 1%nat.
Proof.
  set (ls := [pthread_cond_broadcast 2; CWake 2 ∅; CLock 1; CWait 1 false; CRelease 1; CFutex 1]).
  destruct (run_cond ls (cond_new None two)) as [c|] eqn:E; [|vm_compute in E; discriminate E]. exists c.
  assert (cond_reach (cond_new None two) c) as Hr by (eapply run_reach; [apply cond_refl|exact E]).
  assert (cv_threads c !! 1%nat = Some (CAsleep 1 1 false) ∧ drained c = 1%nat) as [Ht Hd] by (vm_compute in E; injection E as <-; done).
  split; [exact Hr|]. split; [exact Ht|]. split; [|exact Hd].
  exact (proj1 (cond_no_lost_wakeup None two c 1 1 1 false Hr Ht ltac:(lia))).
Defined.

(** Thread 1 is about to sleep, thread 2 signals. *)
Definition gap (z : Z) (k d : nat) : cvar := mkCv z None (<[1%nat := CUnlocked 0 0 false]> (<[2%nat := CRun]> ∅)) k d.

Lemma gap_pulse z k d : run_cond [pthread_cond_signal 2; CWake 2 ∅] (gap z k d) = Some (gap (bump z) (S k) (Nat.max d (S k))).
Proof.
  unfold run_cond, pthread_cond_signal.
  assert (cond_step (CPulse 2 1) (gap z k d) = Some (mkCv (bump z) None (<[1%nat := CUnlocked 0 0 false]> (<[2%nat := CPulsed 1 (S k)]> ∅)) (S k) d)) as -> by reflexivity.
  cbn [mbind option_bind]. assert (∀ st k' d', sleepers (mkCv st None (<[1%nat := CUnlocked 0 0 false]> (<[2%nat := CPulsed 1 k']> ∅)) k' d') = ∅) as Hs by reflexivity.
  unfold cond_step. cbn [cv_threads]. rewrite lookup_insert_ne, lookup_insert_eq by done. rewrite Hs, !bool_decide_true by done. reflexivity.
Qed.

Lemma gap_pulses n c : cond_reach c (gap (word 0 0) 0 0) → cond_reach c (gap (word 0 n) n n).
Proof.
  induction n as [|n IH]; intros Hr; [done|]. eapply run_reach; [apply IH, Hr|]. rewrite gap_pulse, bump_word.
  do 2 f_equal. lia.
Qed.

Lemma gap_sleep z k d : z = 0 → cond_step (CFutex 1) (gap z k d) = Some (goto (gap z k d) 1%nat (CAsleep 0 k false)).
Proof. intros ->. reflexivity. Qed.

(** The race that the source describes: after exactly 2 ^ 30 signals in the gap
    between the unlock and the wait the word is the same again and the thread
    sleeps, although every one of them came after its load. *)
Theorem cond_wakeup_lost : ∃ c, cond_reach (cond_new None two) c ∧
  cv_threads c !! 1%nat = Some (CAsleep 0 (Z.to_nat (2 ^ 30)) false) ∧ drained c = Z.to_nat (2 ^ 30).
Proof.
  set (n := Z.to_nat (2 ^ 30)). assert (cond_reach (cond_new None two) (gap (word 0 n) n n)) as Hr.
  { apply gap_pulses. eapply (run_reach [CLock 1; CWait 1 false; CRelease 1]); [apply cond_refl|]. vm_compute. reflexivity. }
  exists (goto (gap (word 0 n) n n) 1%nat (CAsleep 0 n false)). split; [|split; [by apply lookup_insert_eq|done]].
  eapply (cond_next _ _ (CFutex 1)); [exact Hr|]. assert (word 0 n = 0) as E.
  { transitivity (word 0 0); [|done]. apply word_eq. unfold n. rewrite Z2Nat.id by lia. done. }
  by apply gap_sleep.
Qed.
