(* ===== verification/Light.v ===== *)
(** * The light service (hidl/light/Light.cpp)

    Three notification sources share one RGB LED; the display and the buttons
    have a backlight.  The service inserts numbers into the streams of driver
    nodes and never looks at the streams' states; its effect is the sequence
    of these insertions.  [pow] of the mathematical library is a
    parameter: its rounding is not specified. *)

From S2P Require Import Prelude Monad Float32.
From Stdlib Require Import Floats.SpecFloat.

#[local] Open Scope Z_scope.

(** ** Floating point: single and double precision *)

Definition f64 := spec_float.
Definition dadd : f64 → f64 → f64 := SFadd 53 1024.
Definition dsub : f64 → f64 → f64 := SFsub 53 1024.
Definition dmul : f64 → f64 → f64 := SFmul 53 1024.
Definition ddiv : f64 → f64 → f64 := SFdiv 53 1024.
Definition dsqrt : f64 → f64 := SFsqrt 53 1024.
Definition dlt (a b : f64) : bool := SFltb a b.

Definition exact (z : positive) : spec_float := S754_finite false z 0.
Definition d_of_Z (z : Z) : f64 := binary_normalize 53 1024 z 0 false.
(** The literals [num/den], correctly rounded. *)
Definition f_dec (num den : positive) : f32 := SFdiv 24 128 (exact num) (exact den).
Definition d_dec (num den : positive) : f64 := SFdiv 53 1024 (exact num) (exact den).

Definition convert (prec emax : Z) (f : spec_float) : spec_float :=
  match f with
  | S754_finite s m e => binary_normalize prec emax (if s then Z.neg m else Z.pos m) e s
  | _ => f
  end.
Definition to_double (f : f32) : f64 := convert 53 1024 f.
Definition to_float (f : f64) : f32 := convert 24 128 f.

(** ** Data *)

Inductive Flash := FLASH_NONE | FLASH_TIMED | FLASH_HARDWARE.
Inductive LightType := BACKLIGHT | KEYBOARD | BUTTONS | BATTERY | NOTIFICATIONS | ATTENTION | BLUETOOTH | WIFI.
Inductive Status := SUCCESS | LIGHT_NOT_SUPPORTED.

Record LightState := mkState { ls_color : Z; flashMode : Flash; flashOnMs : Z; flashOffMs : Z }.

#[export] Instance LightState_eta : Eta LightState := λ s,
  mkState (ls_color s) (flashMode s) (flashOnMs s) (flashOffMs s).

(** The driver nodes. *)
Inductive node := NLcd | NButton | NRed | NGreen | NBlue | NSelectEngine | NRunEngine.

#[export] Instance node_eq_dec : EqDecision node.
Proof. solve_decision. Defined.

(** What the service does: a number written to a node, or a pause. *)
Inductive effect := Write (n : node) (v : Z) | Sleep (ms : Z).

Record Light := mkLight {
  lcdMax : Z; buttonMax : Z;                        (* the second components of the pairs *)
  mAttentionState : LightState; mBatteryState : LightState; mNotificationState : LightState;
  effects : list effect }.                          (* latest first *)

#[export] Instance Light_eta : Eta Light := λ l,
  mkLight (lcdMax l) (buttonMax l) (mAttentionState l) (mBatteryState l) (mNotificationState l) (effects l).

Definition off_state : LightState := mkState 0 FLASH_NONE 0 0.
Definition Light_new (lcd button : Z) : Light := mkLight lcd button off_state off_state off_state [].

(** ** Colours *)

Definition byte_of (c shift : Z) : Z := Z.land (Z.shiftr c shift) 0xff.

Definition rgbToBrightness (state : LightState) : Z :=
  let color := Z.land (ls_color state) 0x00ffffff in
  Z.shiftr (77 * byte_of color 16 + 150 * byte_of color 8 + 29 * Z.land color 0xff) 8.

Definition isLit (state : LightState) : bool := negb (Z.land (ls_color state) 0x00ffffff =? 0).

Definition lab : Type := f32 * f32 * f32.

(** The colour table, without the coordinates the constructor fills in. *)
Definition colors : list (Z * Z * Z) :=
  [(255, 0, 0); (255, 255, 0); (0, 255, 0); (0, 255, 255); (0, 0, 255); (255, 0, 255);
   (255, 255, 255); (127, 127, 127); (0, 0, 0)].

Section Colours.
Context (pow : f64 → f64 → f64).

(** [v <= 0.04045 ? v / 12 : (float) pow ((v + 0.055) / 1.055, 2.4)] *)
Definition linear (v : f32) : f32 :=
  if SFleb (to_double v) (d_dec 4045 100000) then fdiv v (f_of_Z 12)
  else to_float (pow (ddiv (dadd (to_double v) (d_dec 55 1000)) (d_dec 1055 1000)) (d_dec 24 10)).

Definition eps : f32 := fdiv (f_of_Z 216) (f_of_Z 24389).
Definition kappa : f32 := fdiv (f_of_Z 24389) (f_of_Z 27).

(** [v > eps ? (float) pow (v, 1/3.) : (float) ((k * v + 16.) / 116.)] *)
Definition lab_curve (v : f32) : f32 :=
  if fgt v eps then to_float (pow (to_double v) (ddiv (d_of_Z 1) (d_of_Z 3)))
  else to_float (ddiv (dadd (to_double (fmul kappa v)) (d_of_Z 16)) (d_of_Z 116)).

Definition dot3 (a b c x y z : f32) : f32 := fadd (fadd (fmul a x) (fmul b y)) (fmul c z).

Definition rgb2lab (R G B : Z) : lab :=
  let r := linear (fdiv (f_of_Z R) (f_of_Z 255)) in
  let g := linear (fdiv (f_of_Z G) (f_of_Z 255)) in
  let b := linear (fdiv (f_of_Z B) (f_of_Z 255)) in
  let X := dot3 (f_dec 436052025 1000000000) (f_dec 385081593 1000000000) (f_dec 143087414 1000000000) r g b in
  let Y := dot3 (f_dec 222491598 1000000000) (f_dec 71688606 100000000) (f_dec 60621486 1000000000) r g b in
  let Z := dot3 (f_dec 13929122 1000000000) (f_dec 97097002 1000000000) (f_dec 71418547 100000000) r g b in
  let fx := lab_curve (fdiv X (f_dec 964221 1000000)) in
  let fy := lab_curve (fdiv Y (f_of_Z 1)) in
  let fz := lab_curve (fdiv Z (f_dec 825211 1000000)) in
  let Ls := fsub (fmul (f_of_Z 116) fy) (f_of_Z 16) in
  let as_ := fmul (f_of_Z 500) (fsub fx fy) in
  let bs := fmul (f_of_Z 200) (fsub fy fz) in
  let half := d_dec 5 10 in
  (to_float (dadd (dmul (d_dec 255 100) (to_double Ls)) half),
   to_float (dadd (to_double as_) half), to_float (dadd (to_double bs) half)).

(** The distance of two colours. *)
Definition lab_dist (p q : lab) : f64 :=
  let '(L1, a1, b1) := p in let '(L2, a2, b2) := q in
  let sq x y := pow (to_double (fsub x y)) (d_of_Z 2) in
  dsqrt (dadd (dadd (sq L1 L2) (sq a1 a2)) (sq b1 b2)).

Definition color_dist (r g b : Z) (c : Z * Z * Z) : f64 :=
  let '(cr, cg, cb) := c in lab_dist (rgb2lab r g b) (rgb2lab cr cg cb).

(** The loop: the nearest colour so far and its distance. *)
Definition nearest_step (r g b : Z) (acc : option (Z * Z * Z) * f64) (c : Z * Z * Z)
  : option (Z * Z * Z) * f64 :=
  let total := color_dist r g b c in if dlt total acc.2 then (Some c, total) else acc.

(** [None] a null pointer. *)
Definition nearest_color (r g b : Z) : option (Z * Z * Z) :=
  (foldl (nearest_step r g b) (None, d_of_Z 765) colors).1.

(** ** The lights *)

Abbreviation LM := (ST Light).

Definition out (e : effect) : LM () := modify (λ l, l <| effects := e :: effects l |>).
Definition write (n : node) (v : Z) : LM () := out (Write n v).

Definition DEFAULT_MAX_BRIGHTNESS : Z := 255.

(** [brightness * max / 255] in 32 bits. *)
Definition scale (brightness max : Z) : Z :=
  if max =? DEFAULT_MAX_BRIGHTNESS then brightness else u32 (brightness * max) / DEFAULT_MAX_BRIGHTNESS.

Definition setLcdBacklight (state : LightState) : LM () :=
  l ← get_st; write NLcd (scale (rgbToBrightness state) (lcdMax l)).

Definition setButtonsBacklight (state : LightState) : LM () :=
  l ← get_st; write NButton (scale (rgbToBrightness state) (buttonMax l)).

Definition leds_off : LM () := write NRunEngine 0;; write NRed 0;; write NGreen 0;; write NBlue 0.

Definition select_engine (on : bool) (engine : Z) : LM () := when on (write NSelectEngine engine;; out (Sleep 100)).

Definition setSpeakerLightLocked (state : LightState) : LM () :=
  let colorRGB := ls_color state in
  leds_off;; out (Sleep 100);;
  let '(onMs, offMs) := match flashMode state with FLASH_TIMED => (flashOnMs state, flashOffMs state) | _ => (0, 0) end in
  let red := byte_of colorRGB 16 in let green := byte_of colorRGB 8 in let blue := Z.land colorRGB 0xff in
  if (onMs >? 0) && (offMs >? 0) then
    '(red, green, blue) ← lift (nearest_color red green blue);
    (* onMs and offMs are limited to 1000 .. 7000 here and not used again *)
    select_engine (negb (red =? 0)) 1;;
    select_engine (negb (green =? 0)) 2;;
    select_engine (negb (blue =? 0)) 3;;
    write NRunEngine 1
  else
    write NRed red;; write NGreen green;; write NBlue blue.

Definition setSpeakerBatteryLightLocked : LM () :=
  l ← get_st;
  if isLit (mNotificationState l) then setSpeakerLightLocked (mNotificationState l)
  else if isLit (mAttentionState l) then setSpeakerLightLocked (mAttentionState l)
  else if isLit (mBatteryState l) then setSpeakerLightLocked (mBatteryState l)
  else leds_off.

Definition setAttentionLight (state : LightState) : LM () :=
  modify (λ l, l <| mAttentionState := state |>);; setSpeakerBatteryLightLocked.
Definition setBatteryLight (state : LightState) : LM () :=
  modify (λ l, l <| mBatteryState := state |>);; setSpeakerBatteryLightLocked.
Definition setNotificationLight (state : LightState) : LM () :=
  modify (λ l, l <| mNotificationState := state |>);; setSpeakerBatteryLightLocked.

Definition setLight (type : LightType) (state : LightState) : LM Status :=
  match type with
  | ATTENTION => setAttentionLight state;; mret SUCCESS
  | BACKLIGHT => setLcdBacklight state;; mret SUCCESS
  | BATTERY => setBatteryLight state;; mret SUCCESS
  | BUTTONS => setButtonsBacklight state;; mret SUCCESS
  | NOTIFICATIONS => setNotificationLight state;; mret SUCCESS
  | _ => mret LIGHT_NOT_SUPPORTED
  end.

(** In an unspecified order. *)
Definition getSupportedTypes : list LightType := [ATTENTION; BACKLIGHT; BATTERY; BUTTONS; NOTIFICATIONS].
End Colours.

(** ** What the LED shows *)

Section Spec.
Context (pow : f64 → f64 → f64).

(** The value last written to a node. *)
Fixpoint value (n : node) (es : list effect) : option Z :=
  match es with
  | [] => None
  | Write m v :: es' => if decide (m = n) then Some v else value n es'
  | Sleep _ :: es' => value n es'
  end.

(** The engines selected since the engines were last stopped. *)
Fixpoint engines (es : list effect) : list Z :=
  match es with
  | [] => []
  | Write NRunEngine 0 :: _ => []
  | Write NSelectEngine v :: es' => engines es' ++ [v]
  | _ :: es' => engines es'
  end.

Definition led (es : list effect) : list (option Z) * list Z :=
  ((λ n, value n es) <$> [NRed; NGreen; NBlue; NRunEngine], engines es).

Definition blinks (s : LightState) : bool :=
  match flashMode s with FLASH_TIMED => (flashOnMs s >? 0) && (flashOffMs s >? 0) | _ => false end.

(** The source with the highest priority that is lit. *)
Definition shown (notification attention battery : LightState) : option LightState :=
  if isLit notification then Some notification else if isLit attention then Some attention
  else if isLit battery then Some battery else None.

Definition red_of (s : LightState) : Z := byte_of (ls_color s) 16.
Definition green_of (s : LightState) : Z := byte_of (ls_color s) 8.
Definition blue_of (s : LightState) : Z := Z.land (ls_color s) 0xff.

(** The engines of the channels that are lit in a colour. *)
Definition engines_of (c : Z * Z * Z) : list Z :=
  let '(r, g, b) := c in
  (if r =? 0 then [] else [1]) ++ (if g =? 0 then [] else [2]) ++ (if b =? 0 then [] else [3]).

(** Its colour; or, when it blinks, the engines of the nearest pure colour
    running; or darkness. *)
Definition led_spec (s : option LightState) : list (option Z) * list Z :=
  match s with
  | None => ([Some 0; Some 0; Some 0; Some 0], [])
  | Some s =>
      if blinks s then
        ([Some 0; Some 0; Some 0; Some 1], from_option engines_of [] (nearest_color pow (red_of s) (green_of s) (blue_of s)))
      else ([Some (red_of s); Some (green_of s); Some (blue_of s); Some 0], [])
  end.

(** A blinking colour has a nearest table colour. *)
Definition has_nearest (s : LightState) : Prop :=
  blinks s = true →
  is_Some (nearest_color pow (red_of s) (green_of s) (blue_of s)).

(** [es'] continues [es] without touching the backlights, and ends with the
    LED as in [v]. *)
Definition led_update (es es' : list effect) (v : list (option Z) * list Z) : Prop :=
  led es' = v ∧ value NLcd es' = value NLcd es ∧ value NButton es' = value NButton es.

Lemma speaker_spec s l : has_nearest s →
  ∃ es, setSpeakerLightLocked pow s l = Some ((), l <| effects := es |>) ∧ led_update (effects l) es (led_spec (Some s)).
Proof.
  intros Hn. unfold has_nearest in Hn. unfold setSpeakerLightLocked, led_spec.
  assert ((let '(onMs, offMs) := match flashMode s with FLASH_TIMED => (flashOnMs s, flashOffMs s) | _ => (0, 0) end in
    (onMs >? 0) && (offMs >? 0)) = blinks s) as Hb by (unfold blinks; by destruct (flashMode s)).
  destruct (match flashMode s with FLASH_TIMED => (flashOnMs s, flashOffMs s) | _ => (0, 0) end) as [onMs offMs].
  rewrite Hb. destruct (blinks s) eqn:E.
  - destruct (Hn eq_refl) as [[[r g] b] Ec]. unfold red_of, green_of, blue_of in *. rewrite Ec. simpl.
    destruct (r =? 0) eqn:E1, (g =? 0) eqn:E2, (b =? 0) eqn:E3;
      (eexists; split; [unfold mbind, ST_bind, lift; rewrite ?E1, ?E2, ?E3; reflexivity|done]).
  - eexists. split; [reflexivity|done].
Qed.

Lemma battery_spec l :
  (∀ s, shown (mNotificationState l) (mAttentionState l) (mBatteryState l) = Some s → has_nearest s) →
  ∃ es, setSpeakerBatteryLightLocked pow l = Some ((), l <| effects := es |>) ∧
    led_update (effects l) es (led_spec (shown (mNotificationState l) (mAttentionState l) (mBatteryState l))).
Proof.
  intros Hn. unfold setSpeakerBatteryLightLocked, shown in *. unfold mbind at 1, ST_bind at 1, get_st.
  destruct (isLit (mNotificationState l)); [by apply speaker_spec, Hn|].
  destruct (isLit (mAttentionState l)); [by apply speaker_spec, Hn|].
  destruct (isLit (mBatteryState l)); [by apply speaker_spec, Hn|].
  eexists. split; [reflexivity|done].
Qed.

(** Without a nearest colour the result of [nearest_color] is dereferenced
    although it is null. *)
Lemma battery_fails l s : shown (mNotificationState l) (mAttentionState l) (mBatteryState l) = Some s →
  blinks s = true → nearest_color pow (red_of s) (green_of s) (blue_of s) = None →
  setSpeakerBatteryLightLocked pow l = None.
Proof.
  intros Hs Hb Hn. assert (∀ l', setSpeakerLightLocked pow s l' = None) as Hf.
  { intros l'. unfold setSpeakerLightLocked, red_of, green_of, blue_of, blinks in *. destruct (flashMode s); try done.
    rewrite Hb, Hn. done. }
  unfold setSpeakerBatteryLightLocked, shown in *. unfold mbind at 1, ST_bind at 1, get_st.
  destruct (isLit (mNotificationState l)); [injection Hs as ->; apply Hf|].
  destruct (isLit (mAttentionState l)); [injection Hs as ->; apply Hf|].
  destruct (isLit (mBatteryState l)); [injection Hs as ->; apply Hf|done].
Qed.

(** ** Sequences of calls *)

Definition supported (t : LightType) : bool := match t with KEYBOARD | BLUETOOTH | WIFI => false | _ => true end.

Abbreviation ops := (list (LightType * LightState)).

Fixpoint run_lights (os : ops) (l : Light) : option Light :=
  match os with [] => Some l | (t, s) :: os' => '(_, l) ← setLight pow t s l; run_lights os' l end.

(** The state last set for a type. *)
Definition is_type (t : LightType) (o : LightType * LightState) : bool :=
  match t, o.1 with
  | BACKLIGHT, BACKLIGHT | BUTTONS, BUTTONS | BATTERY, BATTERY | NOTIFICATIONS, NOTIFICATIONS | ATTENTION, ATTENTION => true
  | _, _ => false
  end.
Definition last_of (t : LightType) (os : ops) : option LightState := last (snd <$> filter (λ o, is_type t o = true) os).
Definition state_of (t : LightType) (os : ops) : LightState := default off_state (last_of t os).

Lemma last_of_snoc t os o : last_of t (os ++ [o]) = if is_type t o then Some o.2 else last_of t os.
Proof.
  unfold last_of. rewrite filter_app, fmap_app, filter_cons. destruct (is_type t o) eqn:E.
  - rewrite decide_True by done. simpl. by rewrite last_snoc.
  - rewrite decide_False by done. simpl. by rewrite app_nil_r.
Qed.

(** The LED has been driven. *)
Definition led_used (os : ops) : bool :=
  existsb (λ o, is_type NOTIFICATIONS o || is_type ATTENTION o || is_type BATTERY o) os.

(** The source the LED is to show after the calls. *)
Definition shown_after (os : list (LightType * LightState)) : option LightState :=
  shown (state_of NOTIFICATIONS os) (state_of ATTENTION os) (state_of BATTERY os).

Record lights_inv (lm bm : Z) (os : ops) (l : Light) : Prop := {
  li_lcd : lcdMax l = lm; li_button : buttonMax l = bm;
  li_n : mNotificationState l = state_of NOTIFICATIONS os;
  li_a : mAttentionState l = state_of ATTENTION os;
  li_b : mBatteryState l = state_of BATTERY os;
  li_lcd_value : value NLcd (effects l) = (λ s, scale (rgbToBrightness s) lm) <$> last_of BACKLIGHT os;
  li_button_value : value NButton (effects l) = (λ s, scale (rgbToBrightness s) bm) <$> last_of BUTTONS os;
  li_led : led_used os = true →
    led (effects l) = led_spec (shown_after os);
  li_nearest : led_used os = true → ∀ s, shown_after os = Some s → has_nearest s }.

Lemma run_lights_snoc os o l l' : run_lights os l = Some l' →
  run_lights (os ++ [o]) l = '(_, l) ← setLight pow o.1 o.2 l'; Some l.
Proof.
  revert l. induction os as [|[t s] os IH]; intros l E; simpl in *.
  - injection E as <-. destruct o. done.
  - inv_bind. destruct x as [r l1]. rewrite E0. simpl. by apply IH.
Qed.

Lemma run_lights_None os os' l : run_lights os l = None → run_lights (os ++ os') l = None.
Proof.
  revert l. induction os as [|[t s] os IH]; intros l E; simpl in *; [done|].
  destruct (setLight pow t s l) as [[r l1]|]; [|done]. simpl in *. by apply IH.
Qed.

Lemma set_led lm bm os l o l1 : lights_inv lm bm os l → (∀ s, shown_after (os ++ [o]) = Some s → has_nearest s) →
  (is_type NOTIFICATIONS o || is_type ATTENTION o || is_type BATTERY o) = true →
  l1 = l <| mNotificationState := state_of NOTIFICATIONS (os ++ [o]) |> <| mAttentionState := state_of ATTENTION (os ++ [o]) |>
         <| mBatteryState := state_of BATTERY (os ++ [o]) |> →
  ∃ l', setSpeakerBatteryLightLocked pow l1 = Some ((), l') ∧ lights_inv lm bm (os ++ [o]) l'.
Proof.
  intros [] Hok Ht El1. destruct (battery_spec l1) as (es & E & Hl & Hlcd & Hbt);
    [rewrite El1; exact Hok|].
  eexists. split; [exact E|]. rewrite El1 in *. simpl in *. split; simpl; try done.
  - rewrite Hlcd, li_lcd_value0, last_of_snoc. by destruct o as [[]].
  - rewrite Hbt, li_button_value0, last_of_snoc. by destruct o as [[]].
Qed.

Lemma state_of_snoc t os o : state_of t (os ++ [o]) = if is_type t o then o.2 else state_of t os.
Proof. unfold state_of. rewrite last_of_snoc. by destruct (is_type t o). Qed.

Lemma led_used_snoc os o : led_used (os ++ [o]) =
  led_used os || (is_type NOTIFICATIONS o || is_type ATTENTION o || is_type BATTERY o).
Proof. unfold led_used. rewrite existsb_app. simpl. by rewrite orb_false_r. Qed.

(** A call that does not concern the LED. *)
Lemma set_other lm bm os l o es : lights_inv lm bm os l →
  (is_type NOTIFICATIONS o || is_type ATTENTION o || is_type BATTERY o) = false →
  led es = led (effects l) →
  value NLcd es = (λ s, scale (rgbToBrightness s) lm) <$> last_of BACKLIGHT (os ++ [o]) →
  value NButton es = (λ s, scale (rgbToBrightness s) bm) <$> last_of BUTTONS (os ++ [o]) →
  lights_inv lm bm (os ++ [o]) (l <| effects := es |>).
Proof.
  intros [] Ht Hled Hlcd Hbt.
  assert (shown_after (os ++ [o]) = shown_after os) as Esh.
  { unfold shown_after. rewrite !state_of_snoc. by destruct o as [[] s]. }
  split; simpl; try done; rewrite ?Esh, ?state_of_snoc, ?led_used_snoc.
  - destruct o as [[] s]; done.
  - destruct o as [[] s]; done.
  - destruct o as [[] s]; done.
  - rewrite Ht, orb_false_r. intros Hu. by rewrite Hled, li_led0.
  - by rewrite Ht, orb_false_r.
Qed.

Lemma set_light_inv lm bm os l t s : lights_inv lm bm os l →
  ((is_type NOTIFICATIONS (t, s) || is_type ATTENTION (t, s) || is_type BATTERY (t, s)) = true →
    ∀ s', shown_after (os ++ [(t, s)]) = Some s' → has_nearest s') →
  ∃ r l', setLight pow t s l = Some (r, l') ∧ lights_inv lm bm (os ++ [(t, s)]) l' ∧
    (r = SUCCESS ↔ supported t = true).
Proof.
  intros Hi Hok. pose proof Hi as [].
  assert (∀ l1, l1 = l <| mNotificationState := state_of NOTIFICATIONS (os ++ [(t, s)]) |>
      <| mAttentionState := state_of ATTENTION (os ++ [(t, s)]) |> <| mBatteryState := state_of BATTERY (os ++ [(t, s)]) |> →
    (is_type NOTIFICATIONS (t, s) || is_type ATTENTION (t, s) || is_type BATTERY (t, s)) = true →
    ∃ l', (setSpeakerBatteryLightLocked pow;; mret SUCCESS) l1 = Some (SUCCESS, l') ∧ lights_inv lm bm (os ++ [(t, s)]) l') as Hled.
  { intros l1 El1 Ht. destruct (set_led lm bm os l (t, s) l1 Hi (Hok Ht) Ht El1) as (l' & E & ?). exists l'.
    unfold mbind, ST_bind. by rewrite E. }
  rewrite !state_of_snoc in Hled.
  assert (∀ r l', setLight pow t s l = Some (r, l') → lights_inv lm bm (os ++ [(t, s)]) l' →
    (r = SUCCESS ↔ supported t = true) → ∃ r l', setLight pow t s l = Some (r, l') ∧ lights_inv lm bm (os ++ [(t, s)]) l' ∧
    (r = SUCCESS ↔ supported t = true)) as Hex by eauto 6.
  assert (∀ es, (is_type NOTIFICATIONS (t, s) || is_type ATTENTION (t, s) || is_type BATTERY (t, s)) = false →
    led es = led (effects l) →
    value NLcd es = (if is_type BACKLIGHT (t, s) then Some (scale (rgbToBrightness s) lm) else value NLcd (effects l)) →
    value NButton es = (if is_type BUTTONS (t, s) then Some (scale (rgbToBrightness s) bm) else value NButton (effects l)) →
    lights_inv lm bm (os ++ [(t, s)]) (l <| effects := es |>)) as Hother.
  { intros es Ht Hl Hlcd Hbt. apply set_other; try done; rewrite last_of_snoc.
    - rewrite Hlcd. by destruct (is_type BACKLIGHT _).
    - rewrite Hbt. by destruct (is_type BUTTONS _). }
  destruct t; simpl in Hled, Hother;
    try (destruct (Hled _ ltac:(rewrite <- ?li_n0, <- ?li_a0, <- ?li_b0; reflexivity) eq_refl) as (l' & E & ?);
         eapply (Hex SUCCESS l'); [exact E|done|done]).
  - eapply (Hex SUCCESS); [reflexivity| |done]. apply Hother; try done. by rewrite <- li_lcd0.
  - eapply (Hex LIGHT_NOT_SUPPORTED); [reflexivity| |done]. destruct l. by apply Hother.
  - eapply (Hex SUCCESS); [reflexivity| |done]. apply Hother; try done. by rewrite <- li_button0.
  - eapply (Hex LIGHT_NOT_SUPPORTED); [reflexivity| |done]. destruct l. by apply Hother.
  - eapply (Hex LIGHT_NOT_SUPPORTED); [reflexivity| |done]. destruct l. by apply Hother.
Qed.

(** A call that draws a blinking source without a nearest colour. *)
Lemma set_light_fails lm bm os l t s s' : lights_inv lm bm os l →
  (is_type NOTIFICATIONS (t, s) || is_type ATTENTION (t, s) || is_type BATTERY (t, s)) = true →
  shown_after (os ++ [(t, s)]) = Some s' → blinks s' = true →
  nearest_color pow (red_of s') (green_of s') (blue_of s') = None → setLight pow t s l = None.
Proof.
  intros [] Ht Hs Hb Hn. unfold shown_after in Hs. rewrite !state_of_snoc in Hs.
  assert (∀ l1, mNotificationState l1 = (if is_type NOTIFICATIONS (t, s) then s else state_of NOTIFICATIONS os) →
    mAttentionState l1 = (if is_type ATTENTION (t, s) then s else state_of ATTENTION os) →
    mBatteryState l1 = (if is_type BATTERY (t, s) then s else state_of BATTERY os) →
    setSpeakerBatteryLightLocked pow l1 = None) as Hf.
  { intros l1 E1 E2 E3. eapply battery_fails; [|exact Hb|exact Hn]. by rewrite E1, E2, E3. }
  unfold is_type in *.
  destruct t; simpl in *; try done;
    unfold setAttentionLight, setBatteryLight, setNotificationLight, modify, mbind, ST_bind; by rewrite Hf.
Qed.

Lemma run_lights_inv lm bm os :
  match run_lights os (Light_new lm bm) with
  | Some l => lights_inv lm bm os l
  | None => ∃ os1 os2 s, os = os1 ++ os2 ∧ shown_after os1 = Some s ∧ blinks s = true ∧
      nearest_color pow (red_of s) (green_of s) (blue_of s) = None
  end.
Proof.
  induction os as [|[t s] os IH] using rev_ind; [by split|].
  destruct (run_lights os (Light_new lm bm)) as [l|] eqn:E.
  - rewrite (run_lights_snoc _ _ _ _ E). cbn [fst snd].
    assert ((∃ s', (is_type NOTIFICATIONS (t, s) || is_type ATTENTION (t, s) || is_type BATTERY (t, s)) = true ∧
      shown_after (os ++ [(t, s)]) = Some s' ∧ blinks s' = true ∧ nearest_color pow (red_of s') (green_of s') (blue_of s') = None) ∨
      ((is_type NOTIFICATIONS (t, s) || is_type ATTENTION (t, s) || is_type BATTERY (t, s)) = true →
        ∀ s', shown_after (os ++ [(t, s)]) = Some s' → has_nearest s')) as [(s' & Ht & Es & Hb & Hn)|Hok].
    { destruct (_ || _) eqn:Ht; [|by right]. destruct (shown_after _) as [s'|] eqn:Es; [|by right].
      destruct (blinks s') eqn:Eb; [|right; intros _ s2 [= <-] ?; congruence].
      destruct (nearest_color pow (red_of s') (green_of s') (blue_of s')) eqn:En; [|left; by exists s'].
      right. intros _ s2 [= <-] _. by rewrite En. }
    + rewrite (set_light_fails lm bm os l t s s' IH Ht Es Hb Hn). exists (os ++ [(t, s)]), [], s'.
      by rewrite app_nil_r.
    + destruct (set_light_inv lm bm os l t s IH Hok) as (r & l' & E' & Hi' & _). by rewrite E'.
  - destruct IH as (os1 & os2 & s' & -> & Hs). assert (run_lights ((os1 ++ os2) ++ [(t, s)]) (Light_new lm bm) = None) as ->.
    { apply run_lights_None. exact E. }
    exists os1, (os2 ++ [(t, s)]), s'. by rewrite app_assoc.
Qed.
End Spec.

(** ** The nearest colour *)

(** The comparison of numbers is transitive. *)
Lemma SFltb_trans x y z : SFltb x y = true → SFltb y z = true → SFltb x z = true.
Proof.
  unfold SFltb. destruct x as [[]|[]| |[] mx ex], y as [[]|[]| |[] my ey], z as [[]|[]| |[] mz ez]; simpl; try done;
    destruct (Z.compare_spec ex ey), (Z.compare_spec ey ez), (Z.compare_spec ex ez); try done; try lia; simpl.
  all: change (PosDef.Pos.compare_cont Eq mx my) with (mx ?= my)%positive;
    change (PosDef.Pos.compare_cont Eq my mz) with (my ?= mz)%positive;
    change (PosDef.Pos.compare_cont Eq mx mz) with (mx ?= mz)%positive;
    destruct (Pos.compare_spec mx my), (Pos.compare_spec my mz), (Pos.compare_spec mx mz); simpl; (done || lia).
Qed.

Section Nearest.
Context (pow : f64 → f64 → f64).

(** [acc] is the nearest of the colours seen, when one is nearer than the limit. *)
Definition is_nearest (r g b : Z) (cs : list (Z * Z * Z)) (acc : option (Z * Z * Z) * f64) : Prop :=
  (∀ c, c ∈ cs → dlt (color_dist pow r g b c) acc.2 = false) ∧
  match acc.1 with
  | Some c => c ∈ cs ∧ acc.2 = color_dist pow r g b c ∧ dlt acc.2 (d_of_Z 765) = true
  | None => acc.2 = d_of_Z 765
  end.

Lemma is_nearest_step r g b cs acc c : is_nearest r g b cs acc →
  is_nearest r g b (cs ++ [c]) (nearest_step pow r g b acc c).
Proof.
  intros [Hmin Hacc]. unfold nearest_step. destruct (dlt (color_dist pow r g b c) acc.2) eqn:E; split.
  - intros c' [Hc'| ->%list_elem_of_singleton]%elem_of_app; simpl; unfold dlt in *.
    + apply not_true_iff_false. intros Hlt. specialize (Hmin _ Hc'). by rewrite (SFltb_trans _ _ _ Hlt E) in Hmin.
    + apply not_true_iff_false. intros Hlt. unfold SFltb in Hlt.
      destruct (color_dist pow r g b c) as [[]|[]| |[] m e]; simpl in Hlt; try done;
        rewrite Z.compare_refl, ?Pos.compare_cont_refl in Hlt; done.
  - simpl. split_and!; [set_unfold; auto|done|].
    destruct acc as [[c0|] d]; simpl in *; [|by subst].
    destruct Hacc as (_ & _ & Hd). by apply (SFltb_trans _ _ _ E Hd).
  - intros c' [Hc'| ->%list_elem_of_singleton]%elem_of_app; [by apply Hmin|done].
  - destruct acc as [[c0|] d]; simpl in *; [|done]. destruct Hacc as (? & ?). split; [set_unfold; auto|done].
Qed.

(** The table colour that a blinking light is drawn with is nearest: it
    is a colour of the table at a distance below 765, and no colour of the
    table is nearer; there is none only when no colour of the table is at a
    distance below 765. *)
Theorem nearest_color_minimal r g b :
  match nearest_color pow r g b with
  | Some c => c ∈ colors ∧ dlt (color_dist pow r g b c) (d_of_Z 765) = true ∧
      ∀ c', c' ∈ colors → dlt (color_dist pow r g b c') (color_dist pow r g b c) = false
  | None => ∀ c', c' ∈ colors → dlt (color_dist pow r g b c') (d_of_Z 765) = false
  end.
Proof.
  assert (∀ cs cs0 acc, is_nearest r g b cs0 acc →
    is_nearest r g b (cs0 ++ cs) (foldl (nearest_step pow r g b) acc cs)) as Hfold.
  { induction cs as [|c cs IH]; intros cs0 acc H; simpl; [by rewrite app_nil_r|].
    rewrite cons_middle, app_assoc. by apply IH, is_nearest_step. }
  destruct (Hfold colors [] (None, d_of_Z 765)) as [Hmin Hacc]; [split; [set_unfold; tauto|done]|].
  unfold nearest_color. destruct (foldl _ _ _) as [[c|] d]; simpl in *.
  - destruct Hacc as (Hc & -> & ?). done.
  - intros c' Hc'. rewrite <- Hacc. by apply Hmin.
Qed.
End Nearest.

(** ** The service *)

Section Service.
Context (pow : f64 → f64 → f64).

(** What the LED shows of a source: darkness, its colour, or, when it blinks,
    the running engines of a colour of the table that is nearer than 3 * 255
    and than which no colour of the table is nearer. *)
Definition led_shows (s : option LightState) (v : list (option Z) * list Z) : Prop :=
  match s with
  | None => v = ([Some 0; Some 0; Some 0; Some 0], [])
  | Some s =>
      if blinks s then
        ∃ c, c ∈ colors ∧ dlt (color_dist pow (red_of s) (green_of s) (blue_of s) c) (d_of_Z (3 * 255)) = true ∧
          (∀ c', c' ∈ colors → dlt (color_dist pow (red_of s) (green_of s) (blue_of s) c')
                                   (color_dist pow (red_of s) (green_of s) (blue_of s) c) = false) ∧
          v = ([Some 0; Some 0; Some 0; Some 1], engines_of c)
      else v = ([Some (red_of s); Some (green_of s); Some (blue_of s); Some 0], [])
  end.

(** A source that cannot be shown: no colour of the table is nearer than
    3 * 255. *)
Definition undrawable (s : LightState) : Prop :=
  blinks s = true ∧ ∀ c, c ∈ colors →
    dlt (color_dist pow (red_of s) (green_of s) (blue_of s) c) (d_of_Z (3 * 255)) = false.

Lemma led_spec_shows s : (∀ s', s = Some s' → has_nearest pow s') → led_shows s (led_spec pow s).
Proof.
  intros Hn. destruct s as [s|]; [|done]. specialize (Hn s eq_refl). unfold led_shows, led_spec.
  destruct (blinks s) eqn:Eb; [|done]. destruct (Hn Eb) as [c Ec].
  pose proof (nearest_color_minimal pow (red_of s) (green_of s) (blue_of s)) as Hm. rewrite Ec in Hm |- *.
  destruct Hm as (? & ? & ?). by exists c.
Qed.

(** C30: after every sequence of calls of the light service, from the new
    service on.  Either the service runs: the display and the buttons carry
    the brightness of the states last set for them, scaled to their maximum,
    and the LED, once a source has used it (one of the calls was for the
    notification, attention or battery light), shows the state last set of the
    lit source with the highest priority (notification, attention, battery):
    its colour, or the running engines of the nearest colour of the table when
    it blinks, or darkness when no source is lit.  Or a call had to show a
    blinking source for which no colour of the table is nearer than 3 * 255
    (in the distance computed with [pow] of the library): the null pointer
    that the search then returns is dereferenced.  Nothing else fails. *)
Theorem lights_show_priority lm bm os :
  match run_lights pow os (Light_new lm bm) with
  | Some l =>
      value NLcd (effects l) = (λ s, scale (rgbToBrightness s) lm) <$> last_of BACKLIGHT os ∧
      value NButton (effects l) = (λ s, scale (rgbToBrightness s) bm) <$> last_of BUTTONS os ∧
      (led_used os = true → led_shows (shown_after os) (led (effects l)))
  | None => ∃ os1 os2 s, os = os1 ++ os2 ∧ shown_after os1 = Some s ∧ undrawable s
  end.
Proof.
  pose proof (run_lights_inv pow lm bm os) as Hi. destruct (run_lights _ _ _) as [l|].
  - pose proof Hi as []. split_and!; [done..|]. intros Hu. rewrite li_led0 by done. apply led_spec_shows. by apply li_nearest0.
  - destruct Hi as (os1 & os2 & s & -> & Hs & Hb & Hn). exists os1, os2, s. split_and!; [done..|]. split; [done|].
    pose proof (nearest_color_minimal pow (red_of s) (green_of s) (blue_of s)) as Hm. by rewrite Hn in Hm.
Qed.
End Service.

(** The times of a blinking light have no effect: two states that blink and
    differ only in their times are shown by the same writes. *)
Theorem flash_times_ignored pow s on1 off1 on2 off2 l : 0 < on1 → 0 < off1 → 0 < on2 → 0 < off2 →
  flashMode s = FLASH_TIMED →
  setSpeakerLightLocked pow (s <| flashOnMs := on1 |> <| flashOffMs := off1 |>) l =
  setSpeakerLightLocked pow (s <| flashOnMs := on2 |> <| flashOffMs := off2 |>) l.
Proof.
  intros ???? Hf. unfold setSpeakerLightLocked. simpl. rewrite Hf. rewrite !(proj2 (Z.gtb_lt _ _)) by lia. done.
Qed.

(** ** A run *)

(** A power function that squares, and is the identity at other exponents. *)
Definition demo_pow (x y : f64) : f64 := if SFeqb y (d_of_Z 2) then dmul x x else x.

Definition demo_ops : list (LightType * LightState) :=
  [(BACKLIGHT, mkState 0xffffffff FLASH_NONE 0 0); (BATTERY, mkState 0xff00ff00 FLASH_NONE 0 0);
   (NOTIFICATIONS, mkState 0xfffe0104 FLASH_TIMED 500 2000); (KEYBOARD, mkState 0xff FLASH_NONE 0 0);
   (ATTENTION, mkState 0xff0000ff FLASH_NONE 0 0)].

Definition demo_final : option (option Z * (list (option Z) * list Z)) :=
  l ← run_lights demo_pow demo_ops (Light_new 127 255); Some (value NLcd (effects l), led (effects l)).

(** The notification blinks red; the backlight is at its maximum 127; when
    the notification goes dark the attention light is shown. *)
Example lights_run :
  demo_final = Some (Some 127, ([Some 0; Some 0; Some 0; Some 1], [1])) ∧
  (l ← run_lights demo_pow (demo_ops ++ [(NOTIFICATIONS, off_state)]) (Light_new 127 255); Some (led (effects l)))
    = Some ([Some 0; Some 0; Some 255; Some 0], []).
Proof. split; vm_compute; reflexivity. Qed.
