(* ===== verification/Gatekeeper.v ===== *)
(** * The software gatekeeper (gatekeeper/SoftGateKeeper.h, SoftGateKeeperDevice.cpp)

    [SoftGateKeeper] implements the virtual functions of the platform's
    [GateKeeper] class: storage of failure records, hashing, and a cache in
    front of the verification.  The base class, the hash functions and the
    layout of a password handle are code of other projects: parameters. *)

From S2P Require Import Prelude Monad.

#[local] Open Scope list_scope.
#[local] Open Scope Z_scope.

Record failure_record_t := mkRecord { secure_user_id : Z; last_checked_timestamp : Z; failure_counter : Z }.
Record fast_hash_t := mkHash { fh_salt : Z; fh_digest : list Z }.

Record SoftGateKeeper := mkKeeper {
  failure_map_ : gmap Z failure_record_t;      (* by uid *)
  fast_hash_map_ : gmap Z fast_hash_t }.       (* by secure user id *)

#[export] Instance Keeper_eta : Eta SoftGateKeeper := λ k, mkKeeper (failure_map_ k) (fast_hash_map_ k).

Definition SIGNATURE_LENGTH_BYTES : nat := 32.
Definition key_ : list Z := replicate SIGNATURE_LENGTH_BYTES 0.
Definition SoftGateKeeper_new : SoftGateKeeper := mkKeeper ∅ ∅.

(** The bytes of a 64-bit number in memory. *)
Definition bytes64 (v : Z) : list Z := (λ i, Z.land (Z.shiftr v (8 * Z.of_nat i)) 0xff) <$> seq 0 8.

Inductive GatekeeperStatusCode := STATUS_OK | STATUS_REENROLL | ERROR_GENERAL_FAILURE | ERROR_RETRY_TIMEOUT | ERROR_NOT_IMPLEMENTED.
Inductive gatekeeper_error := ERROR_NONE | ERROR_RETRY | ERROR_INVALID | ERROR_MEMORY_ALLOCATION_FAILED | ERROR_OTHER.

(** A buffer of the message interface: none, or bytes with a 32-bit size. *)
Definition SizedBuffer : Type := option (list Z).

Record EnrollRequest := { er_uid : Z; er_handle : SizedBuffer; er_provided : SizedBuffer; er_enrolled : SizedBuffer }.
Record VerifyRequest := { vr_uid : Z; vr_challenge : Z; vr_handle : SizedBuffer; vr_password : SizedBuffer }.
Record EnrollResponse := { es_error : gatekeeper_error; es_retry_timeout : Z; es_handle : list Z }.
Record VerifyResponse := { vs_error : gatekeeper_error; vs_retry_timeout : Z; vs_token : list Z; vs_reenroll : bool }.

(** What the callback of a HAL call receives. *)
Record GatekeeperResponse := mkResponse { gr_code : GatekeeperStatusCode; gr_timeout : Z; gr_data : list Z }.

Section Keeper.
Context {password_handle_t : Type} (handle_user_id : password_handle_t → Z).
(** SHA256, and scrypt with the cost parameters 16384, 8, 1. *)
Context (SHA256 : list Z → list Z) (crypto_scrypt : list Z → list Z → nat → list Z).
(** [GateKeeper::DoVerify]. *)
Context (base_DoVerify : password_handle_t → list Z → bool).

Abbreviation GK := (ST SoftGateKeeper).

Definition ComputePasswordSignature (signature_length : nat) (password : list Z) (salt : Z) : list Z :=
  crypto_scrypt password (bytes64 salt) signature_length.

Definition ComputeSignature (signature_length : nat) (key message : list Z) : list Z := replicate signature_length 0.

(** [failure_map_[uid]]: a missing record is inserted, with zeroes. *)
Definition stored (uid : Z) (k : SoftGateKeeper) : failure_record_t := default (mkRecord 0 0 0) (failure_map_ k !! uid).
Definition store (uid : Z) (r : failure_record_t) : GK () := modify (λ k, k <| failure_map_ := <[uid := r]> (failure_map_ k) |>).

Definition GetFailureRecord (uid user_id : Z) : GK failure_record_t :=
  k ← get_st;
  let r := if user_id =? secure_user_id (stored uid k) then stored uid k else mkRecord user_id 0 0 in
  store uid r;; mret r.

Definition ClearFailureRecord (uid user_id : Z) : GK bool := store uid (mkRecord user_id 0 0);; mret true.
Definition WriteFailureRecord (uid : Z) (record : failure_record_t) : GK bool := store uid record;; mret true.

Definition ComputeFastHash (password : list Z) (salt : Z) : fast_hash_t := mkHash salt (SHA256 (bytes64 salt ++ password)).

Definition VerifyFast (fast_hash : fast_hash_t) (password : list Z) : bool :=
  bool_decide (fh_digest (ComputeFastHash password (fh_salt fast_hash)) = fh_digest fast_hash).

(** [salt] is what [GetRandom] returns when it is called. *)
Definition DoVerify (expected_handle : password_handle_t) (password : list Z) (salt : Z) : GK bool :=
  let user_id := handle_user_id expected_handle in
  k ← get_st;
  if from_option (λ h, VerifyFast h password) false (fast_hash_map_ k !! user_id) then mret true
  else if base_DoVerify expected_handle password then
    modify (λ k, k <| fast_hash_map_ := <[user_id := ComputeFastHash password salt]> (fast_hash_map_ k) |>);; mret true
  else mret false.

(** ** The HAL interface *)

(** [GateKeeper::Enroll] and [GateKeeper::Verify], which call the functions above. *)
Context (Enroll : EnrollRequest → GK EnrollResponse) (Verify : VerifyRequest → GK VerifyResponse).

Definition hidl_vec2sized_buffer (vec : list Z) : SizedBuffer :=
  if (Z.of_nat (length vec) =? 0) || (Z.of_nat (length vec) >? 0xffffffff) then None else Some vec.

Definition failure : GatekeeperResponse := mkResponse ERROR_GENERAL_FAILURE 0 [].

Definition enroll (uid : Z) (currentPasswordHandle currentPassword desiredPassword : list Z) : GK GatekeeperResponse :=
  if (length desiredPassword =? 0)%nat then mret failure
  else
    response ← Enroll {| er_uid := uid; er_handle := hidl_vec2sized_buffer currentPasswordHandle;
                         er_provided := hidl_vec2sized_buffer desiredPassword;
                         er_enrolled := hidl_vec2sized_buffer currentPassword |};
    mret match es_error response with
         | ERROR_RETRY => mkResponse ERROR_RETRY_TIMEOUT (es_retry_timeout response) []
         | ERROR_NONE => mkResponse STATUS_OK (es_retry_timeout response) (es_handle response)
         | _ => failure
         end.

Definition verify (uid challenge : Z) (enrolledPasswordHandle providedPassword : list Z) : GK GatekeeperResponse :=
  if (length enrolledPasswordHandle =? 0)%nat then mret failure
  else
    response ← Verify {| vr_uid := uid; vr_challenge := challenge; vr_handle := hidl_vec2sized_buffer enrolledPasswordHandle;
                         vr_password := hidl_vec2sized_buffer providedPassword |};
    mret match vs_error response with
         | ERROR_RETRY => mkResponse ERROR_RETRY_TIMEOUT (vs_retry_timeout response) []
         | ERROR_NONE => mkResponse (if vs_reenroll response then STATUS_REENROLL else STATUS_OK)
                           (vs_retry_timeout response) (vs_token response)
         | _ => failure
         end.

Definition deleteUser (uid : Z) : GK GatekeeperResponse := mret (mkResponse ERROR_NOT_IMPLEMENTED 0 []).
Definition deleteAllUsers : GK GatekeeperResponse := mret (mkResponse ERROR_NOT_IMPLEMENTED 0 []).

(** ** Histories of calls *)

(** The calls that change the object's state. *)
Inductive call :=
  | CGet (uid user_id : Z) | CClear (uid user_id : Z) | CWrite (uid : Z) (r : failure_record_t)
  | CVerify (h : password_handle_t) (password : list Z) (salt : Z).

Definition run_call (c : call) : GK () :=
  match c with
  | CGet uid u => GetFailureRecord uid u;; mret ()
  | CClear uid u => ClearFailureRecord uid u;; mret ()
  | CWrite uid r => WriteFailureRecord uid r;; mret ()
  | CVerify h pw salt => DoVerify h pw salt;; mret ()
  end.

Definition run_calls (cs : list call) : GK () := forM cs run_call.

Lemma run_calls_total cs k : ∃ k', run_calls cs k = Some ((), k').
Proof.
  revert k. induction cs as [|c cs IH]; intros k; [by eexists|].
  assert (∃ k1, run_call c k = Some ((), k1)) as [k1 E].
  { destruct c; simpl; unfold DoVerify, mbind, ST_bind; simpl; try by eexists.
    destruct (from_option _ _ _); [by eexists|]. destruct (base_DoVerify _ _); by eexists. }
  destruct (IH k1) as [k' E']. exists k'. unfold run_calls. simpl. unfold mbind at 1, ST_bind at 1. rewrite E. exact E'.
Qed.

(** An accepted verification of the same user explains every cache entry. *)
Definition cache_explained (seen : call → Prop) (k : SoftGateKeeper) : Prop :=
  ∀ u fh, fast_hash_map_ k !! u = Some fh →
    ∃ h pw salt, seen (CVerify h pw salt) ∧ handle_user_id h = u ∧ base_DoVerify h pw = true ∧ fh = ComputeFastHash pw salt.

Lemma run_call_cache seen c k : cache_explained seen k →
  wlp (run_call c) (λ _, cache_explained (λ c', seen c' ∨ c' = c)) k.
Proof.
  intros Hk. assert (cache_explained (λ c', seen c' ∨ c' = c) k) as Hk'.
  { intros u fh E. destruct (Hk u fh E) as (h & pw & salt & ? & ?). eauto 6. }
  destruct c as [| | |h pw salt]; try done.
  unfold run_call, DoVerify, wlp, mbind, ST_bind. simpl.
  destruct (from_option _ _ _); [done|]. destruct (base_DoVerify h pw) eqn:Eb; [|done].
  intros u fh. simpl. rewrite lookup_insert_Some. intros [[<- <-]|[_ E]]; [|by apply Hk'].
  exists h, pw, salt. auto.
Qed.

Lemma run_calls_cache cs k seen : cache_explained seen k →
  wlp (run_calls cs) (λ _, cache_explained (λ c, seen c ∨ c ∈ cs)) k.
Proof.
  revert k seen. induction cs as [|c cs IH]; intros k seen Hk; unfold run_calls; simpl.
  { intros u fh E. destruct (Hk u fh E) as (h & pw & salt & ? & ?). eauto 6. }
  apply wlp_bind. eapply wlp_mono; [by apply run_call_cache|]. intros [] k1 H1.
  eapply wlp_mono; [by apply (IH k1 _ H1)|]. intros [] k2 H2 u fh E.
  destruct (H2 u fh E) as (h & pw & salt & Hs & ?). exists h, pw, salt. split; [|done].
  destruct Hs as [[?| ->]|?]; [by left|right; by left|right; by right].
Qed.

Lemma VerifyFast_true pw0 salt pw :
  VerifyFast (ComputeFastHash pw0 salt) pw = true ↔ SHA256 (bytes64 salt ++ pw) = SHA256 (bytes64 salt ++ pw0).
Proof. unfold VerifyFast. by rewrite bool_decide_eq_true. Qed.

(** C31: After every history of calls a verification is defined; it accepts
    every password that the base class accepts for the handle, and any other
    password only when the base class has accepted, in the history and for a
    handle of the same secure user, a password with the same salted hash. *)
Theorem verify_cache_sound cs h pw salt : ∃ k r k', run_calls cs SoftGateKeeper_new = Some ((), k) ∧
  DoVerify h pw salt k = Some (r, k') ∧
  (base_DoVerify h pw = true → r = true) ∧
  (r = true → base_DoVerify h pw = true ∨
    ∃ h0 pw0 salt0, CVerify h0 pw0 salt0 ∈ cs ∧ handle_user_id h0 = handle_user_id h ∧ base_DoVerify h0 pw0 = true ∧
      SHA256 (bytes64 salt0 ++ pw) = SHA256 (bytes64 salt0 ++ pw0)).
Proof.
  destruct (run_calls_total cs SoftGateKeeper_new) as [k E].
  pose proof (run_calls_cache cs SoftGateKeeper_new (λ _, False)) as H. unfold wlp in H. rewrite E in H.
  assert (cache_explained (λ c, False ∨ c ∈ cs) k) as Hc by (apply H; by intros u fh ?).
  exists k. unfold DoVerify, mbind, ST_bind. simpl.
  destruct (fast_hash_map_ k !! handle_user_id h) as [fh|] eqn:Ek; simpl.
  - destruct (VerifyFast fh pw) eqn:Ev.
    + exists true, k. split_and!; [done..|]. intros _. right.
      destruct (Hc _ _ Ek) as (h0 & pw0 & salt0 & [[]|?] & ? & ? & ->). exists h0, pw0, salt0.
      by apply VerifyFast_true in Ev.
    + destruct (base_DoVerify h pw); do 2 eexists; split_and!; try done; by left.
  - destruct (base_DoVerify h pw); do 2 eexists; split_and!; try done; by left.
Qed.

(** A password once accepted for a secure user is still accepted for a
    new handle of the same user that the base class refuses it for: when the
    user's password is changed, the old one keeps working. *)
Theorem stale_password_accepted h1 h2 pw s1 s2 k :
  handle_user_id h2 = handle_user_id h1 → base_DoVerify h1 pw = true → base_DoVerify h2 pw = false →
  ∃ k', (DoVerify h1 pw s1;; DoVerify h2 pw s2) k = Some (true, k').
Proof.
  intros Hu H1 H2. unfold DoVerify. rewrite Hu, H1, H2. unfold mbind, ST_bind. simpl.
  destruct (from_option (λ h, VerifyFast h pw) false (fast_hash_map_ k !! handle_user_id h1)) eqn:E; simpl.
  - rewrite E. by eexists.
  - rewrite lookup_insert_eq. simpl. rewrite (proj2 (VerifyFast_true pw s1 pw)) by done. by eexists.
Qed.

(** ** Failure records *)

(** The call does not replace the record of [uid] while it belongs to [user]. *)
Definition keeps_record (uid user : Z) (c : call) : Prop :=
  match c with
  | CGet uid' u => uid' = uid → u = user
  | CClear uid' _ | CWrite uid' _ => uid' ≠ uid
  | CVerify _ _ _ => True
  end.

Lemma run_call_keeps uid r c k : keeps_record uid (secure_user_id r) c → failure_map_ k !! uid = Some r →
  wlp (run_call c) (λ _ k', failure_map_ k' !! uid = Some r) k.
Proof.
  intros Hc Hk. destruct c as [uid' u|uid' u|uid' r'|h pw salt]; simpl in Hc.
  - unfold wlp, run_call, GetFailureRecord, mbind, ST_bind. simpl. rewrite lookup_insert_Some.
    destruct (decide (uid' = uid)) as [->|]; [left|by right]. split; [done|].
    rewrite Hc by done. unfold stored. rewrite Hk. simpl. by rewrite Z.eqb_refl.
  - unfold wlp. simpl. by rewrite lookup_insert_ne.
  - unfold wlp. simpl. by rewrite lookup_insert_ne.
  - unfold wlp, run_call, DoVerify, mbind, ST_bind. simpl. destruct (from_option _ _ _); [done|].
    by destruct (base_DoVerify h pw).
Qed.

Lemma run_calls_keeps uid r cs k : Forall (keeps_record uid (secure_user_id r)) cs → failure_map_ k !! uid = Some r →
  wlp (run_calls cs) (λ _ k', failure_map_ k' !! uid = Some r) k.
Proof.
  intros Hcs Hk. apply (wlp_forM (λ k, failure_map_ k !! uid = Some r)); [done|].
  intros c k1 Hc Hk1. apply run_call_keeps; [|done]. rewrite Forall_forall in Hcs. by apply Hcs.
Qed.

(** The failure record written for a uid is what is read back for its
    secure user, whatever verifications and calls for other uids come in
    between; a read for another secure user returns a fresh record with no
    failures, and that has replaced the old one. *)
Theorem failure_record_roundtrip uid r cs k other :
  Forall (keeps_record uid (secure_user_id r)) cs → other ≠ secure_user_id r →
  (∃ k', (WriteFailureRecord uid r;; run_calls cs;; GetFailureRecord uid (secure_user_id r)) k = Some (r, k')) ∧
  (∃ k', (WriteFailureRecord uid r;; run_calls cs;; GetFailureRecord uid other;; GetFailureRecord uid (secure_user_id r)) k =
     Some (mkRecord (secure_user_id r) 0 0, k')).
Proof.
  intros Hcs Ho.
  set (k0 := k <| failure_map_ := <[uid := r]> (failure_map_ k) |>).
  destruct (run_calls_total cs k0) as [k1 E].
  pose proof (run_calls_keeps uid r cs k0 Hcs (lookup_insert_eq _ uid r)) as Hk1. unfold wlp in Hk1. rewrite E in Hk1.
  split; eexists; unfold mbind, ST_bind; simpl; fold k0; rewrite E; unfold GetFailureRecord, mbind, ST_bind; simpl;
    unfold stored at 2; rewrite Hk1; simpl.
  - unfold stored. rewrite Hk1, Z.eqb_refl. reflexivity.
  - assert ((other =? secure_user_id r) = false) as Eo by lia. unfold stored. simpl. rewrite Hk1, Eo. simpl.
    rewrite lookup_insert_eq. simpl. rewrite (Z.eqb_sym _ other), Eo. reflexivity.
Qed.
End Keeper.

(** ** A run *)

(** Handles are a user and a password; the hash is the identity. *)
Definition demo_verify (h : Z * list Z) (pw : list Z) : bool := bool_decide (h.2 = pw).

Lemma stale_password_accepted_witness :
  demo_verify (7, [2]) [1] = false ∧
  ∃ k', (DoVerify fst id demo_verify (7, [1]) [1] 0;; DoVerify fst id demo_verify (7, [2]) [1] 0) SoftGateKeeper_new = Some (true, k').
Proof. split; [reflexivity|]. by apply (stale_password_accepted fst id demo_verify). Defined.

Lemma failure_record_roundtrip_witness :
  ∃ k', (WriteFailureRecord 0 (mkRecord 7 100 3);; run_calls fst id demo_verify [CVerify (7, [1]) [2] 0; CGet 1 9; CGet 0 7];;
         GetFailureRecord 0 7) SoftGateKeeper_new = Some (mkRecord 7 100 3, k').
Proof.
  apply (failure_record_roundtrip fst id demo_verify 0 (mkRecord 7 100 3) [CVerify (7, [1]) [2] 0; CGet 1 9; CGet 0 7] SoftGateKeeper_new 8);
    [|done]. repeat constructor; done.
Defined.
