(* ===== verification/Services.v ===== *)
(** * The small services: vibrator and key disabler
    (hidl/vibrator/Vibrator.cpp, touch/KeyDisabler.cpp)

    They translate calls of the framework into values written to driver nodes. *)

From S2P Require Import Prelude Monad Float32 Params Light.
From stdpp Require Import strings.
From Stdlib Require Import Ascii Floats.SpecFloat.

#[local] Open Scope string_scope.
#[local] Open Scope list_scope.
#[local] Open Scope Z_scope.

(** ** The vibrator *)

Module Vibrator.

Inductive Status := OK | UNKNOWN_ERROR | BAD_VALUE | UNSUPPORTED_OPERATION.
Inductive Effect := CLICK | DOUBLE_CLICK.
Inductive EffectStrength := LIGHT | MEDIUM | STRONG.

Inductive stream := SEnable | SAmplitude.
#[export] Instance stream_eq_dec : EqDecision stream.
Proof. solve_decision. Defined.

(** Whether the two streams are in a good state, the values the drivers
    received (latest first), and the drivers' answers to the next writes. *)
Record Vibrator := mkVibrator {
  mEnable : bool; mAmplitude : bool;
  received : list (stream * Z); answers : list bool }.

#[export] Instance Vibrator_eta : Eta Vibrator := λ v, mkVibrator (mEnable v) (mAmplitude v) (received v) (answers v).

(** The constructor: a stream is good when its node could be opened. *)
Definition Vibrator_new (enable amplitude : bool) (ans : list bool) : Vibrator := mkVibrator enable amplitude [] ans.

Definition good (s : stream) (v : Vibrator) : bool := match s with SEnable => mEnable v | SAmplitude => mAmplitude v end.
Definition set_good (s : stream) (b : bool) (v : Vibrator) : Vibrator :=
  match s with SEnable => v <| mEnable := b |> | SAmplitude => v <| mAmplitude := b |> end.

(** [stream << x << std::endl]: nothing is written to a stream that has
    failed; the flush fails when the driver refuses the value. *)
Definition insert (s : stream) (x : Z) : ST Vibrator () :=
  modify (λ v, if good s v then
                 set_good s (default true (head (answers v)))
                   (v <| received := (s, x) :: received v |> <| answers := tail (answers v) |>)
               else v).

Definition status_of (s : stream) : ST Vibrator Status := v ← get_st; mret (if good s v then OK else UNKNOWN_ERROR).

Definition on (timeout_ms : Z) : ST Vibrator Status := insert SEnable timeout_ms;; status_of SEnable.
Definition off : ST Vibrator Status := insert SEnable 0;; status_of SEnable.
Definition supportsAmplitudeControl : bool := true.

Definition MAX_INTENSITY : Z := 127.
Definition MIN_INTENSITY : Z := 1.
Definition CLICK_TIMING_MS : Z := 20.

(** [std::lround]: half away from zero; [None] for a number that is none. *)
Definition lround (d : f64) : option Z :=
  match d with
  | S754_zero _ => Some 0
  | S754_finite s m e =>
      let a := if 0 <=? e then Z.shiftl (Z.pos m) e else (2 * Z.pos m + Z.shiftl 1 (- e)) / Z.shiftl 2 (- e) in
      Some (if s then - a else a)
  | _ => None
  end.

(** [lround ((amplitude - 1) / 254.0 * (MAX_INTENSITY - MIN_INTENSITY) + MIN_INTENSITY)] *)
Definition intensity (amplitude : Z) : option Z :=
  lround (dadd (dmul (ddiv (d_of_Z (amplitude - 1)) (d_of_Z 254)) (d_of_Z (MAX_INTENSITY - MIN_INTENSITY))) (d_of_Z MIN_INTENSITY)).

Definition setAmplitude (amplitude : Z) : ST Vibrator Status :=
  if amplitude =? 0 then mret BAD_VALUE
  else (i ← lift (intensity amplitude); insert SAmplitude i;; status_of SAmplitude).

(** The status and duration handed to the callback. *)
Definition perform (effect : Effect) (strength : EffectStrength) : ST Vibrator (Status * Z) :=
  match effect with
  | CLICK => on CLICK_TIMING_MS;; mret (OK, CLICK_TIMING_MS)
  | _ => mret (UNSUPPORTED_OPERATION, 0)
  end.

(** ** Its properties *)

(** The correctly rounded intensity: [round_half_up ((a - 1) * 126 / 254) + 1]. *)
Definition exact_intensity (a : Z) : Z := (252 * (a - 1) + 254) / 508 + 1.

Lemma intensity_table :
  forallb (λ a, bool_decide (intensity a = Some (exact_intensity a))) (seqZ 1 255) = true.
Proof. vm_compute. reflexivity. Qed.

Lemma intensity_eq a : 1 <= a <= 255 → intensity a = Some (exact_intensity a).
Proof.
  intros Ha. pose proof intensity_table as H. rewrite forallb_forall in H.
  apply (bool_decide_eq_true_1 _), H, list_elem_of_In, elem_of_seqZ. lia.
Qed.

(** The double-precision scaling of an amplitude is exact: for every
    amplitude from 1 to 255 the intensity is the mathematical scaling rounded
    half up; it lies between 1 and 127, is 1 for 1 and 127 for 255, and a
    step of the amplitude raises it by 0 or 1. *)
Theorem amplitude_scaling a : 1 <= a <= 255 →
  intensity a = Some (exact_intensity a) ∧ MIN_INTENSITY <= exact_intensity a <= MAX_INTENSITY ∧
  exact_intensity 1 = MIN_INTENSITY ∧ exact_intensity 255 = MAX_INTENSITY ∧
  0 <= exact_intensity (a + 1) - exact_intensity a <= 1.
Proof.
  intros Ha. split; [by apply intensity_eq|].
  unfold exact_intensity, MIN_INTENSITY, MAX_INTENSITY. split_and!; try done;
    Z.to_euclidean_division_equations; lia.
Qed.

Lemma amplitude_scaling_witness : intensity 128 = Some 64 ∧ 1 <= exact_intensity 128 <= 127.
Proof. destruct (amplitude_scaling 128) as (H & ? & _); [lia|]. split; [exact H|assumption]. Defined.

Inductive vop := VOn (timeout_ms : Z) | VOff | VAmplitude (amplitude : Z) | VPerform (e : Effect) (s : EffectStrength).

Definition run_op (o : vop) : ST Vibrator () :=
  match o with
  | VOn t => on t;; mret ()
  | VOff => off;; mret ()
  | VAmplitude a => setAmplitude a;; mret ()
  | VPerform e s => perform e s;; mret ()
  end.

Definition valid_op (o : vop) : Prop := match o with VAmplitude a => 0 <= a <= 255 | _ => True end.

(** No call revives a stream that has failed, and none writes to it. *)
Definition dead (s : stream) (r : list (stream * Z)) (v : Vibrator) : Prop :=
  good s v = false ∧ filter (λ p, p.1 = s) (received v) = r.

Lemma insert_dead s r s' x v : dead s r v → wp (insert s' x) (λ _, dead s r) v.
Proof.
  intros [Hg Hr]. unfold wp, insert, modify. destruct (good s' v) eqn:Eg; [|done].
  assert (s' ≠ s) as Hne by (intros ->; congruence).
  split; destruct s, s'; simpl in *; try done.
Qed.

Lemma run_op_dead s r o v : valid_op o → dead s r v → wp (run_op o) (λ _, dead s r) v.
Proof.
  intros Ho Hd. destruct o as [t| |a|[] strength]; simpl in *.
  - apply wp_bind, wp_bind. eapply wp_mono; [by apply insert_dead|]. by intros [].
  - apply wp_bind, wp_bind. eapply wp_mono; [by apply insert_dead|]. by intros [].
  - apply wp_bind. unfold setAmplitude. destruct (a =? 0) eqn:Ea; [done|]. apply wp_bind, wp_lift.
    eexists. split; [apply (intensity_eq a); lia|]. apply wp_bind. eapply wp_mono; [by apply insert_dead|]. by intros [].
  - apply wp_bind. unfold perform. apply wp_bind, wp_bind. eapply wp_mono; [by apply insert_dead|]. by intros [].
  - done.
Qed.

Lemma run_ops_dead s r os v : Forall valid_op os → dead s r v → wp (forM os run_op) (λ _, dead s r) v.
Proof.
  intros Hos. revert v. induction Hos as [|o os Ho _ IH]; intros v Hd; [done|]. simpl.
  apply wp_bind. eapply wp_mono; [by apply run_op_dead|]. intros [] v' Hd'. by apply IH.
Qed.

(** One refused write ends the vibrator for good: after [on] has
    reported an error, whatever is called next and whatever the driver would
    answer, [on] and [off] report errors and the driver receives nothing,
    while a click still reports success. *)
Theorem failed_vibrator_stays_failed t v v1 os t' strength : Forall valid_op os →
  on t v = Some (UNKNOWN_ERROR, v1) →
  ∃ v2, forM os run_op v1 = Some ((), v2) ∧ on t' v2 = Some (UNKNOWN_ERROR, v2) ∧ off v2 = Some (UNKNOWN_ERROR, v2) ∧
    perform CLICK strength v2 = Some ((OK, CLICK_TIMING_MS), v2) ∧
    filter (λ p, p.1 = SEnable) (received v2) = filter (λ p, p.1 = SEnable) (received v1).
Proof.
  intros Hos Hon. assert (good SEnable v1 = false) as Hg.
  { unfold on, status_of, insert, mbind, ST_bind in Hon. simpl in Hon.
    destruct (mEnable v) eqn:Ev; simpl in Hon; rewrite ?Ev in Hon.
    - injection Hon as Hs <-. simpl. by case_match.
    - injection Hon as <-. done. }
  destruct (proj1 (wp_run _ _ _) (run_ops_dead SEnable _ os v1 Hos (conj Hg eq_refl))) as ([] & v2 & E & Hg2 & Hr).
  assert (∀ x, insert SEnable x v2 = Some ((), v2)) as Hi by (intros x; unfold insert, modify; by rewrite Hg2).
  assert (status_of SEnable v2 = Some (UNKNOWN_ERROR, v2)) as Hs
    by (unfold status_of, mbind, ST_bind; simpl; simpl in Hg2; by rewrite Hg2).
  exists v2. split; [exact E|]. unfold on, off, perform, on, mbind, ST_bind. rewrite !Hi, Hs. done.
Qed.

Lemma failed_vibrator_stays_failed_witness : ∃ v1 v2,
  on 50 (Vibrator_new true true [false; true; true]) = Some (UNKNOWN_ERROR, v1) ∧
  forM [VAmplitude 200; VOff] run_op v1 = Some ((), v2) ∧ on 60 v2 = Some (UNKNOWN_ERROR, v2).
Proof.
  eexists. destruct (failed_vibrator_stays_failed 50 (Vibrator_new true true [false; true; true]) (mkVibrator false true [(SEnable, 50)] [true; true])
    [VAmplitude 200; VOff] 60 STRONG) as (v2 & E & H & _); [repeat constructor; simpl; lia|reflexivity|].
  exists v2. split; [reflexivity|]. split; [exact E|exact H].
Defined.
End Vibrator.

(** ** The key disabler *)

Module KeyDisabler.

(** The control node: absent, or its contents (none when they cannot be read). *)
Record KeyDisabler := mkKeys { mHasKeyDisabler : bool; contents : option string; writable : bool }.
#[export] Instance Keys_eta : Eta KeyDisabler := λ k, mkKeys (mHasKeyDisabler k) (contents k) (writable k).

(** [android::base::Trim]. *)
Fixpoint trim_end (s : string) : string :=
  match s with
  | EmptyString => s
  | String a s' => match trim_end s' with EmptyString => if isspace a then EmptyString else String a EmptyString | t => String a t end
  end.
Definition Trim (s : string) : string := trim_end (skip_space s).

(** [std::stoi]: it throws ([None]) without digits and out of range. *)
Definition stoi (s : string) : option Z :=
  let '(neg, t) := read_sign (skip_space s) in
  if is_digit 10 t then
    let v := (if neg : bool then Z.opp else id) (read_digits 10 t 0).1 in
    if (INT_MIN <=? v) && (v <=? INT_MAX) then Some v else None
  else None.

Definition isEnabled : ST KeyDisabler bool :=
  k ← get_st;
  if negb (mHasKeyDisabler k) then mret false
  else match contents k with
       | None => mret false
       | Some buf => v ← lift (stoi (Trim buf)); mret (v =? 0)
       end.

Definition setEnabled (enabled : bool) : ST KeyDisabler bool :=
  k ← get_st;
  if negb (mHasKeyDisabler k) then mret false
  else if negb (writable k) then mret false
  else modify (λ k, k <| contents := Some (if enabled then "1" else "0") |>);; mret true.

(** On a device whose node reads back what was written, [isEnabled] is
    the opposite of what [setEnabled] set: the setter writes 1 to the
    [keys_off] node for an enabled disabler, the getter takes 0 for enabled. *)
Theorem key_disabler_inverted enabled k : mHasKeyDisabler k = true → writable k = true →
  ∃ k', setEnabled enabled k = Some (true, k') ∧ isEnabled k' = Some (negb enabled, k').
Proof.
  intros H1 H2. unfold setEnabled, mbind, ST_bind. simpl. rewrite H1, H2. simpl. eexists. split; [reflexivity|].
  unfold isEnabled, mbind, ST_bind. simpl. rewrite H1. simpl. by destruct enabled.
Qed.

Lemma key_disabler_inverted_witness :
  ∃ k', setEnabled true (mkKeys true (Some "0") true) = Some (true, k') ∧ isEnabled k' = Some (false, k').
Proof. apply (key_disabler_inverted true (mkKeys true (Some "0") true)); reflexivity. Defined.
End KeyDisabler.
