(* ===== verification/Mixer.v ===== *)
(** * The mixer library (tinyalsa/src/mixer.c)

    The functions of the mixer library that the audio configuration manager
    calls, on top of the ALSA control device.  The driver and the allocator
    are a parameter: an instance of [Alsa] gives the reply to every call as a
    function of the calls before it. *)

From S2P Require Import Prelude Monad.
From stdpp Require Export strings.

#[local] Open Scope string_scope.
#[local] Open Scope list_scope.
#[local] Open Scope Z_scope.

(** ** The control device *)

Inductive elem_type := ELEM_BOOLEAN | ELEM_INTEGER | ELEM_ENUMERATED | ELEM_BYTES | ELEM_IEC958 | ELEM_INTEGER64 | ELEM_OTHER.

#[export] Instance elem_type_eq_dec : EqDecision elem_type.
Proof. solve_decision. Defined.

(** [struct snd_ctl_elem_info]. *)
Record elem_info := mkInfo {
  ei_numid : Z; ei_name : string; ei_type : elem_type; ei_count : Z;
  ei_min : Z; ei_max : Z;              (* value.integer *)
  ei_items : Z;                        (* value.enumerated *)
  ei_tlv_rw : bool }.                  (* access & SNDRV_CTL_ELEM_ACCESS_TLV_READWRITE *)

(** Calls with their replies, most recent first in a log.  [APath] records
    that a path of a device is applied; it is not a call. *)
Inductive acall :=
  | AOpen (card : Z) (r : Z)
  | AClose (fd : Z)
  | ACardInfo (fd : Z) (r : bool)
  | AListCount (fd : Z) (r : option Z)
  | AList (fd offset space : Z) (r : option (list Z))
  | AInfo (fd numid : Z) (r : option elem_info)
  | AEnumName (fd numid item : Z) (r : option string)
  | ARead (fd numid : Z) (r : Z) (vals : list Z)
  | AWrite (fd numid : Z) (vals : list Z) (r : Z)
  | ATlvRead (fd numid len : Z) (r : Z) (vals : list Z)
  | ATlvWrite (fd numid : Z) (vals : list Z) (r : Z)
  | ASubscribe (fd subscribe : Z) (r : Z)
  | APoll (fd timeout : Z) (r : Z + Z * Z)
  | AMalloc (ok : bool)
  | APath (device : Z) (path : Z).

Abbreviation alog := (list acall).

(** The allocator answers whether a request succeeds. *)
Class Alsa := {
  al_open : alog → Z → Z;                          (* open: the descriptor, or negative *)
  al_card_info : alog → Z → bool;
  al_list_count : alog → Z → option Z;
  al_list : alog → Z → Z → Z → option (list Z);    (* the numids of [space] elements from [offset] *)
  al_info : alog → Z → Z → option elem_info;
  al_enum_name : alog → Z → Z → Z → option string;
  al_read : alog → Z → Z → Z * list Z;             (* the result and the values *)
  al_write : alog → Z → Z → list Z → Z;
  al_tlv_read : alog → Z → Z → Z → Z * list Z;
  al_tlv_write : alog → Z → Z → list Z → Z;
  al_subscribe : alog → Z → Z → Z;
  al_poll : alog → Z → Z → Z + Z * Z;              (* errno, or the result and revents *)
  al_malloc : alog → bool }.

(** An object with the log of the calls. *)
Record aworld (S : Type) := AWorld { aobj : S; acalls : alog }.
Arguments AWorld {_} _ _.
Arguments aobj {_} _.
Arguments acalls {_} _.

(** ** The library's objects *)

(** [struct mixer_ctl]; the names of an enumeration are read when first used. *)
Record mixer_ctl := mkCtl { info : elem_info; ename : option (list string) }.
(** [struct mixer]; [count] is the length of [ctl]. *)
Record mixer := mkMixer { m_fd : Z; m_ctl : list mixer_ctl }.

Inductive mixer_ctl_type :=
  MIXER_CTL_TYPE_BOOL | MIXER_CTL_TYPE_INT | MIXER_CTL_TYPE_ENUM | MIXER_CTL_TYPE_BYTE
  | MIXER_CTL_TYPE_IEC958 | MIXER_CTL_TYPE_INT64 | MIXER_CTL_TYPE_UNKNOWN.

#[export] Instance mixer_ctl_type_eq_dec : EqDecision mixer_ctl_type.
Proof. solve_decision. Defined.

Definition UINT_MAX : Z := 2 ^ 32 - 1.
Definition EINVAL : Z := 22.
Definition ENOMEM : Z := 12.
(** Two words. *)
Definition TLV_HEADER_SIZE : Z := 8.

Section Mixer.
Context `{!Alsa} {S : Type}.

Abbreviation AM := (ST (aworld S)).

Definition acall_ {A} (reply : alog → A) (ev : A → acall) : AM A :=
  λ w, let a := reply (acalls w) in Some (a, AWorld (aobj w) (ev a :: acalls w)).

Definition malloc : AM bool := acall_ al_malloc AMalloc.
Definition sys_open card : AM Z := acall_ (λ h, al_open h card) (AOpen card).
Definition sys_close fd : AM () := acall_ (λ _, ()) (λ _, AClose fd).
Definition io_card_info fd : AM bool := acall_ (λ h, al_card_info h fd) (ACardInfo fd).
Definition io_list_count fd : AM (option Z) := acall_ (λ h, al_list_count h fd) (AListCount fd).
Definition io_list fd off space : AM (option (list Z)) := acall_ (λ h, al_list h fd off space) (AList fd off space).
Definition io_info fd numid : AM (option elem_info) := acall_ (λ h, al_info h fd numid) (AInfo fd numid).
Definition io_enum_name fd numid item : AM (option string) := acall_ (λ h, al_enum_name h fd numid item) (AEnumName fd numid item).
Definition io_read fd numid : AM (Z * list Z) := acall_ (λ h, al_read h fd numid) (λ r, ARead fd numid r.1 r.2).
Definition io_write fd numid vals : AM Z := acall_ (λ h, al_write h fd numid vals) (AWrite fd numid vals).
Definition io_tlv_read fd numid len : AM (Z * list Z) := acall_ (λ h, al_tlv_read h fd numid len) (λ r, ATlvRead fd numid len r.1 r.2).
Definition io_tlv_write fd numid vals : AM Z := acall_ (λ h, al_tlv_write h fd numid vals) (ATlvWrite fd numid vals).

(** ** Opening *)

Definition mixer_close (m : option mixer) : AM () :=
  match m with None => mret () | Some m => when (m_fd m >=? 0) (sys_close (m_fd m)) end.

(** The loop of [add_controls] over the numids of the new elements (0 where
    the driver has given none): the controls added, and whether it reached the end. *)
Fixpoint add_infos (fd : Z) (numids : list Z) (ctls : list mixer_ctl) : AM (list mixer_ctl * bool) :=
  match numids with
  | [] => mret (ctls, true)
  | n :: numids' =>
      i ← io_info fd n;
      match i with
      | None => mret (ctls, false)
      | Some ei => add_infos fd numids' (ctls ++ [mkCtl ei None])
      end
  end.

(** The return value and the mixer with its controls. *)
Definition add_controls (m : mixer) : AM (Z * mixer) :=
  let old_count := blen (m_ctl m) in
  c ← io_list_count (m_fd m);
  match c with
  | None => mret (-1, m)
  | Some new_count =>
      if old_count =? new_count then mret (0, m)
      else if old_count >? new_count then mret (-1, m)
      else
        ok ← malloc;                                    (* mixer_realloc_z *)
        if negb ok then mret (-1, m) else
        ok ← malloc;                                    (* eid *)
        if negb ok then mret (-1, m) else
        l ← io_list (m_fd m) old_count (new_count - old_count);
        match l with
        | None => mret (-1, m)
        | Some numids =>
            '(ctls, all) ← add_infos (m_fd m) (take (Z.to_nat (new_count - old_count)) (numids ++ replicate (Z.to_nat (new_count - old_count)) 0)) (m_ctl m);
            mret (if all : bool then 0 else -1, mkMixer (m_fd m) ctls)
        end
  end.

(** When the card information cannot be read the new mixer still has the
    descriptor 0 of its cleared memory, and that is closed. *)
Definition mixer_open (card : Z) : AM (option mixer) :=
  fd ← sys_open card;
  if fd <? 0 then mret None else
  ok ← malloc;
  if negb ok then sys_close fd;; mret None else
  ok ← io_card_info fd;
  if negb ok then mixer_close (Some (mkMixer 0 []));; mret None else
  '(r, m) ← add_controls (mkMixer fd []);
  if negb (r =? 0) then mixer_close (Some m);; mret None else mret (Some m).

(** ** Controls; a null pointer is [None] *)

Definition mixer_get_ctl (m : option mixer) (id : Z) : option mixer_ctl :=
  m ← m; if id <? blen (m_ctl m) then ld (m_ctl m) id else None.

(** The first control with the name, and its position. *)
Fixpoint find_name (name : string) (l : list mixer_ctl) (n : Z) : option (Z * mixer_ctl) :=
  match l with
  | [] => None
  | c :: l' => if bool_decide (ei_name (info c) = name) then Some (n, c) else find_name name l' (n + 1)
  end.

Definition mixer_get_ctl_by_name (m : option mixer) (name : string) : option mixer_ctl :=
  m ← m; snd <$> find_name name (m_ctl m) 0.

Definition mixer_ctl_get_id (c : option mixer_ctl) : Z :=
  match c with None => UINT_MAX | Some c => u32 (ei_numid (info c) - 1) end.

Definition mixer_ctl_get_type (c : option mixer_ctl) : mixer_ctl_type :=
  match c with
  | None => MIXER_CTL_TYPE_UNKNOWN
  | Some c =>
      match ei_type (info c) with
      | ELEM_BOOLEAN => MIXER_CTL_TYPE_BOOL
      | ELEM_INTEGER => MIXER_CTL_TYPE_INT
      | ELEM_ENUMERATED => MIXER_CTL_TYPE_ENUM
      | ELEM_BYTES => MIXER_CTL_TYPE_BYTE
      | ELEM_IEC958 => MIXER_CTL_TYPE_IEC958
      | ELEM_INTEGER64 => MIXER_CTL_TYPE_INT64
      | ELEM_OTHER => MIXER_CTL_TYPE_UNKNOWN
      end
  end.

Definition mixer_ctl_get_num_values (c : option mixer_ctl) : Z := from_option (λ c, ei_count (info c)) 0 c.

Definition mixer_ctl_get_range_min (c : option mixer_ctl) : Z :=
  match c with
  | Some c => if bool_decide (ei_type (info c) = ELEM_INTEGER) then i32 (ei_min (info c)) else - EINVAL
  | None => - EINVAL
  end.
Definition mixer_ctl_get_range_max (c : option mixer_ctl) : Z :=
  match c with
  | Some c => if bool_decide (ei_type (info c) = ELEM_INTEGER) then i32 (ei_max (info c)) else - EINVAL
  | None => - EINVAL
  end.

(** The arrays of [struct snd_ctl_elem_value] for numbers and items. *)
Definition numbers (vals : list Z) : list Z := take 128 vals.

(** [value] an [int]. *)
Definition mixer_ctl_set_value (fd : Z) (c : option mixer_ctl) (id value : Z) : AM Z :=
  match c with
  | None => mret (- EINVAL)
  | Some ctl =>
      if id >=? ei_count (info ctl) then mret (- EINVAL) else
      '(ret, vals) ← io_read fd (ei_numid (info ctl));
      if ret <? 0 then mret ret else
      match ei_type (info ctl) with
      | ELEM_BOOLEAN =>
          vals ← lift (st (numbers vals) id (if value =? 0 then 0 else 1)); io_write fd (ei_numid (info ctl)) vals
      | ELEM_INTEGER =>
          if (value <? mixer_ctl_get_range_min c) || (value >? mixer_ctl_get_range_max c) then mret (- EINVAL)
          else vals ← lift (st (numbers vals) id value); io_write fd (ei_numid (info ctl)) vals
      | ELEM_ENUMERATED => vals ← lift (st (numbers vals) id (u32 value)); io_write fd (ei_numid (info ctl)) vals
      | ELEM_BYTES => vals ← lift (st vals id (u8 value)); io_write fd (ei_numid (info ctl)) vals
      | _ => mret (- EINVAL)
      end
  end.

Definition total_count (ctl : mixer_ctl) : Z :=
  ei_count (info ctl) +
  (if bool_decide (ei_type (info ctl) = ELEM_BYTES) && ei_tlv_rw (info ctl) then TLV_HEADER_SIZE else 0).

(** Of byte controls; the result and the bytes. *)
Definition mixer_ctl_get_array (fd : Z) (c : option mixer_ctl) (count : Z) : AM (Z * list Z) :=
  match c with
  | None => mret (- EINVAL, [])
  | Some ctl =>
      if count =? 0 then mret (- EINVAL, []) else
      if count >? total_count ctl then mret (- EINVAL, []) else
      match ei_type (info ctl) with
      | ELEM_BYTES =>
          if ei_tlv_rw (info ctl) then
            ok ← malloc;
            if negb ok then mret (- ENOMEM, []) else
            '(ret, vals) ← io_tlv_read fd (ei_numid (info ctl)) count;
            vals ← lift (ldn vals 0 count); mret (ret, vals)
          else
            '(ret, vals) ← io_read fd (ei_numid (info ctl));
            if ret <? 0 then mret (ret, []) else
            vals ← lift (ldn vals 0 count); mret (0, vals)
      | _ => mret (- EINVAL, [])
      end
  end.

(** [array] as many bytes as the pointer leads to. *)
Definition mixer_ctl_set_array (fd : Z) (c : option mixer_ctl) (array : list Z) (count : Z) : AM Z :=
  match c with
  | None => mret (- EINVAL)
  | Some ctl =>
      if count =? 0 then mret (- EINVAL) else
      if count >? total_count ctl then mret (- EINVAL) else
      match ei_type (info ctl) with
      | ELEM_BYTES =>
          if ei_tlv_rw (info ctl) then
            ok ← malloc;
            if negb ok then mret (- ENOMEM) else
            vals ← lift (ldn array 0 count);
            io_tlv_write fd (ei_numid (info ctl)) vals
          else
            vals ← lift (ldn array 0 count);
            vals ← lift (stn (replicate 512 0) 0 vals);
            io_write fd (ei_numid (info ctl)) vals
      | _ => mret (- EINVAL)
      end
  end.

(** The names of the items [m, m + n), or a failure. *)
Fixpoint enum_names (fd numid : Z) (m : Z) (n : nat) : AM (option (list string)) :=
  match n with
  | O => mret (Some [])
  | Datatypes.S n' =>
      s ← io_enum_name fd numid m;
      match s with
      | None => mret None
      | Some s =>
          ok ← malloc;                                   (* strdup *)
          if negb ok then mret None else
          l ← enum_names fd numid (m + 1) n';
          mret (cons s <$> l)
      end
  end.

(** The return value and the control with its names. *)
Definition mixer_ctl_fill_enum_string (fd : Z) (ctl : mixer_ctl) : AM (Z * mixer_ctl) :=
  match ename ctl with
  | Some _ => mret (0, ctl)
  | None =>
      ok ← malloc;
      if negb ok then mret (-1, ctl) else
      l ← enum_names fd (ei_numid (info ctl)) 0 (Z.to_nat (ei_items (info ctl)));
      match l with None => mret (-1, ctl) | Some l => mret (0, mkCtl (info ctl) (Some l)) end
  end.

Fixpoint find_enum (s : string) (l : list string) (i : Z) : option Z :=
  match l with
  | [] => None
  | x :: l' => if bool_decide (x = s) then Some i else find_enum s l' (i + 1)
  end.

Definition mixer_ctl_set_enum_by_string (fd : Z) (c : option mixer_ctl) (s : string) : AM (Z * option mixer_ctl) :=
  match c with
  | None => mret (- EINVAL, None)
  | Some ctl =>
      if negb (bool_decide (ei_type (info ctl) = ELEM_ENUMERATED)) then mret (- EINVAL, c) else
      '(r, ctl) ← mixer_ctl_fill_enum_string fd ctl;
      if negb (r =? 0) then mret (- EINVAL, Some ctl) else
      match find_enum s (default [] (ename ctl)) 0 with
      | None => mret (- EINVAL, Some ctl)
      | Some i =>
          vals ← lift (st (replicate 128 0) 0 i);
          ret ← io_write fd (ei_numid (info ctl)) vals;
          mret (if ret <? 0 then ret else 0, Some ctl)
      end
  end.
End Mixer.

(** ** Documented behaviour of the driver *)

(** The kernel limits the number of values of an element to the size of its
    array in [struct snd_ctl_elem_value]; a byte control read and written in
    TLV form may be longer. *)
Definition info_ok (ei : elem_info) : Prop :=
  0 <= ei_count ei ∧ 0 <= ei_items ei ∧
  match ei_type ei with ELEM_BYTES => ei_tlv_rw ei = true ∨ ei_count ei <= 512 | _ => ei_count ei <= 128 end.

Class AlsaOk (A : Alsa) : Prop := {
  al_info_ok : ∀ h fd n ei, al_info h fd n = Some ei → info_ok ei ∧ ei_numid ei = n;
  (* numids count from 1 in the order of the list *)
  al_list_ok : ∀ h fd off space l, al_list h fd off space = Some l → l = seqZ (off + 1) space;
  al_count_ok : ∀ h fd n, al_list_count h fd = Some n → 0 <= n < 2 ^ 31;
  al_read_len : ∀ h fd n, blen (al_read h fd n).2 = 512;
  al_tlv_len : ∀ h fd n len, 0 <= len → blen (al_tlv_read h fd n len).2 = len }.

Definition mixer_ok (m : mixer) : Prop :=
  blen (m_ctl m) < 2 ^ 31 ∧
  ∀ i c, ld (m_ctl m) i = Some c → info_ok (info c) ∧ ei_numid (info c) = i + 1.

(** ** Symbolic execution *)

Section Rules.
Context {S : Type}.
Implicit Types (w : aworld S).

Lemma wp_acall {A} (reply : alog → A) ev (Q : A → aworld S → Prop) w :
  Q (reply (acalls w)) (AWorld (aobj w) (ev (reply (acalls w)) :: acalls w)) → wp (acall_ reply ev) Q w.
Proof. done. Qed.
Lemma wp_ret' {A} (a : A) (Q : A → aworld S → Prop) w : Q a w → wp (mret a) Q w.
Proof. done. Qed.
Lemma wp_gets' {A} (f : aworld S → A) Q w : Q (f w) w → wp (gets f) Q w.
Proof. done. Qed.
Lemma wp_modify' f (Q : () → aworld S → Prop) w : Q () (f w) → wp (modify f) Q w.
Proof. done. Qed.
Lemma wp_if' {A} (b : bool) (m1 m2 : ST (aworld S) A) Q w :
  (b = true → wp m1 Q w) → (b = false → wp m2 Q w) → wp (if b then m1 else m2) Q w.
Proof. destruct b; auto. Qed.
Lemma wp_when' (b : bool) (m : ST (aworld S) ()) Q w :
  (b = true → wp m Q w) → (b = false → Q () w) → wp (when b m) Q w.
Proof. intros Ht Hf. destruct b; [by apply Ht|by apply Hf]. Qed.
End Rules.

(** One step; loops, lifts and named functions are left to their lemmas. *)
Ltac wp_step :=
  lazymatch goal with
  | |- wp (mbind _ _) _ _ => apply wp_bind
  | |- wp (mret _) _ _ => apply wp_ret'
  | |- wp (gets _) _ _ => apply wp_gets'
  | |- wp (modify _) _ _ => apply wp_modify'
  | |- wp (when _ _) _ _ => apply wp_when'; intros ?
  | |- wp (acall_ _ _) _ _ => apply wp_acall
  | |- wp malloc _ _ => apply wp_acall
  | |- wp (sys_open _) _ _ => apply wp_acall
  | |- wp (sys_close _) _ _ => apply wp_acall
  | |- wp (io_card_info _) _ _ => apply wp_acall
  | |- wp (io_list_count _) _ _ => apply wp_acall
  | |- wp (io_list _ _ _) _ _ => apply wp_acall
  | |- wp (io_info _ _) _ _ => apply wp_acall
  | |- wp (io_enum_name _ _ _) _ _ => apply wp_acall
  | |- wp (io_read _ _) _ _ => apply wp_acall
  | |- wp (io_write _ _ _) _ _ => apply wp_acall
  | |- wp (io_tlv_read _ _ _) _ _ => apply wp_acall
  | |- wp (io_tlv_write _ _ _) _ _ => apply wp_acall
  | |- wp (if ?b then _ else _) _ _ => apply wp_if'; intros ?
  | |- wp (let '(_, _) := ?x in _) _ _ => destruct x eqn:?
  | |- wp (match ?x with _ => _ end) _ _ => destruct x eqn:?
  end.
Ltac wp_steps := repeat (wp_step; cbn beta zeta; cbn [aobj acalls]).
