(* ===== verification/MixerMore.v ===== *)
(** * The rest of the mixer library (tinyalsa/src/mixer.c)

    Single values, percentages, enumerations, events and counting controls. *)

From S2P Require Import Prelude Monad Mixer.

#[local] Open Scope string_scope.
#[local] Open Scope list_scope.
#[local] Open Scope Z_scope.

Definition POLLIN : Z := 1.
Definition POLLOUT : Z := 4.
Definition POLLERR : Z := 8.
Definition POLLNVAL : Z := 32.
Definition EIO : Z := 5.

(** ** Counting and naming *)

Definition mixer_get_num_ctls (m : option mixer) : Z := from_option (λ m, blen (m_ctl m)) 0 m.
Definition mixer_get_num_ctls_by_name (m : option mixer) (name : string) : Z :=
  from_option (λ m, blen (filter (λ c, ei_name (info c) = name) (m_ctl m))) 0 m.
Definition mixer_get_ctl_const (m : option mixer) (id : Z) : option mixer_ctl :=
  m ← m; if id <? blen (m_ctl m) then ld (m_ctl m) id else None.
Definition mixer_ctl_is_access_tlv_rw (c : mixer_ctl) : bool := ei_tlv_rw (info c).
Definition mixer_ctl_get_name (c : option mixer_ctl) : option string := (λ c, ei_name (info c)) <$> c.
Definition mixer_ctl_get_type_string (c : option mixer_ctl) : string :=
  match c with
  | None => ""
  | Some c =>
      match ei_type (info c) with
      | ELEM_BOOLEAN => "BOOL" | ELEM_INTEGER => "INT" | ELEM_ENUMERATED => "ENUM" | ELEM_BYTES => "BYTE"
      | ELEM_IEC958 => "IEC958" | ELEM_INTEGER64 => "INT64" | ELEM_OTHER => "Unknown"
      end
  end.
Definition mixer_ctl_get_num_enums (c : option mixer_ctl) : Z := from_option (λ c, ei_items (info c)) 0 c.

(** ** Percentages; [int] arithmetic *)

Definition percent_to_int (ei : elem_info) (percent : Z) : option Z :=
  if (percent >? 100) || (percent <? 0) then Some (- EINVAL) else
  range ← ck32 (ei_max ei - ei_min ei);
  p ← ck32 (range * percent);
  ck32 (ei_min ei + Z.quot p 100).
Definition int_to_percent (ei : elem_info) (value : Z) : option Z :=
  range ← ck32 (ei_max ei - ei_min ei);
  if range =? 0 then Some 0 else
  d ← ck32 (value - ei_min ei);
  ck32 (Z.quot d range * 100).

Section MixerMore.
Context `{!Alsa} {S : Type}.
Abbreviation AM := (ST (aworld S)).

Definition mixer_add_new_ctls (m : option mixer) : AM (Z * option mixer) :=
  match m with None => mret (0, None) | Some m => '(r, m) ← add_controls m; mret (r, Some m) end.

(** Passes the structure itself where [ioctl] takes its address: undefined. *)
Definition mixer_ctl_update (c : mixer_ctl) : AM () := ub.

Definition mixer_subscribe_events (m : mixer) (subscribe : Z) : AM Z :=
  r ← acall_ (λ h, al_subscribe h (m_fd m) subscribe) (ASubscribe (m_fd m) subscribe);
  mret (if r <? 0 then -1 else 0).

(** [for (;;)]: [n] bounds the polls. *)
Fixpoint mixer_wait_event (n : nat) (m : mixer) (timeout : Z) : AM Z :=
  match n with
  | O => ub
  | Datatypes.S n' =>
      r ← acall_ (λ h, al_poll h (m_fd m) timeout) (APoll (m_fd m) timeout);
      match r with
      | inl errno => mret (- errno)
      | inr (err, revents) =>
          if err =? 0 then mret 0 else
          if negb (Z.land revents (Z.lor POLLERR POLLNVAL) =? 0) then mret (- EIO) else
          if negb (Z.land revents (Z.lor POLLIN POLLOUT) =? 0) then mret 1 else mixer_wait_event n' m timeout
      end
  end.

(** ** Values *)

Definition mixer_ctl_get_value (fd : Z) (c : option mixer_ctl) (id : Z) : AM Z :=
  match c with
  | None => mret (- EINVAL)
  | Some ctl =>
      if id >=? ei_count (info ctl) then mret (- EINVAL) else
      '(ret, vals) ← io_read fd (ei_numid (info ctl));
      if ret <? 0 then mret ret else
      match ei_type (info ctl) with
      | ELEM_BOOLEAN => v ← lift (ld (numbers vals) id); mret (if v =? 0 then 0 else 1)
      | ELEM_INTEGER => v ← lift (ld (numbers vals) id); mret (i32 v)
      | ELEM_ENUMERATED => v ← lift (ld (numbers vals) id); mret (i32 v)
      | ELEM_BYTES => lift (ld vals id)
      | _ => mret (- EINVAL)
      end
  end.

Definition mixer_ctl_get_percent (fd : Z) (c : option mixer_ctl) (id : Z) : AM Z :=
  match c with
  | None => mret (- EINVAL)
  | Some ctl =>
      if negb (bool_decide (ei_type (info ctl) = ELEM_INTEGER)) then mret (- EINVAL) else
      v ← mixer_ctl_get_value fd c id; lift (int_to_percent (info ctl) v)
  end.
Definition mixer_ctl_set_percent (fd : Z) (c : option mixer_ctl) (id percent : Z) : AM Z :=
  match c with
  | None => mret (- EINVAL)
  | Some ctl =>
      if negb (bool_decide (ei_type (info ctl) = ELEM_INTEGER)) then mret (- EINVAL) else
      v ← lift (percent_to_int (info ctl) percent); mixer_ctl_set_value fd c id v
  end.

(** The name, and the control with its names. *)
Definition mixer_ctl_get_enum_string (fd : Z) (c : option mixer_ctl) (enum_id : Z) : AM (option string * option mixer_ctl) :=
  match c with
  | None => mret (None, None)
  | Some ctl =>
      if negb (bool_decide (ei_type (info ctl) = ELEM_ENUMERATED)) || (enum_id >=? ei_items (info ctl)) then mret (None, c) else
      '(r, ctl) ← mixer_ctl_fill_enum_string fd ctl;
      if negb (r =? 0) then mret (None, Some ctl) else
      s ← lift (ename ctl ≫= λ l, ld l enum_id);
      mret (Some s, Some ctl)
  end.
End MixerMore.

(** ** What percentages do *)

Lemma percent_range ei p : 0 <= p <= 100 → INT_MIN <= ei_min ei <= ei_max ei → ei_max ei <= INT_MAX → (ei_max ei - ei_min ei) * 100 <= INT_MAX →
  percent_to_int ei p = Some (ei_min ei + (ei_max ei - ei_min ei) * p / 100).
Proof.
  unfold INT_MIN, INT_MAX. intros Hp Hm HM Hr. unfold percent_to_int. destruct (Z.gtb_spec p 100); [lia|]. destruct (Z.ltb_spec p 0); [lia|]. cbn [orb].
  assert (0 <= (ei_max ei - ei_min ei) * p <= (ei_max ei - ei_min ei) * 100) as Hb by nia.
  rewrite (ck32_Some (ei_max ei - ei_min ei)) by (unfold INT_MIN, INT_MAX; lia). cbn [mbind option_bind].
  rewrite (ck32_Some ((ei_max ei - ei_min ei) * p)) by (unfold INT_MIN, INT_MAX; lia). cbn [mbind option_bind].
  rewrite Z.quot_div_nonneg by lia. pose proof (Z.div_pos _ 100 (proj1 Hb) ltac:(lia)).
  assert ((ei_max ei - ei_min ei) * p / 100 <= ei_max ei - ei_min ei) by (apply Z.div_le_upper_bound; lia).
  apply ck32_Some. unfold INT_MIN, INT_MAX. lia.
Qed.

(** Percentages of a control whose range fits keep to its range, reach both
    ends and grow. *)
Theorem percent_scale ei p q : 0 <= p <= q → q <= 100 → INT_MIN <= ei_min ei <= ei_max ei → ei_max ei <= INT_MAX → (ei_max ei - ei_min ei) * 100 <= INT_MAX →
  ∃ v w, percent_to_int ei p = Some v ∧ percent_to_int ei q = Some w ∧ ei_min ei <= v <= w ∧ w <= ei_max ei ∧
    percent_to_int ei 0 = Some (ei_min ei) ∧ percent_to_int ei 100 = Some (ei_max ei).
Proof.
  intros Hp Hq Hm HM Hr. rewrite !percent_range by lia. eexists _, _. split; [reflexivity|]. split; [reflexivity|].
  set (r := ei_max ei - ei_min ei) in *. assert (0 <= r) by lia.
  assert (0 <= r * p / 100) by (apply Z.div_pos; nia). assert (r * p / 100 <= r * q / 100) by (apply Z.div_le_mono; nia).
  assert (r * q / 100 <= r) by (apply Z.div_le_upper_bound; nia). rewrite Z.mul_0_r, Z.div_0_l, Z.div_mul by lia. repeat split; try lia; f_equal; lia.
Qed.

(** The opposite conversion divides first: every value below the maximum is 0
    per cent. *)
Theorem percent_coarse ei v : INT_MIN <= ei_min ei → ei_max ei <= INT_MAX → 0 < ei_max ei - ei_min ei <= INT_MAX → ei_min ei <= v <= ei_max ei →
  int_to_percent ei v = Some (if v =? ei_max ei then 100 else 0).
Proof.
  intros Hm HM Hr Hv. unfold int_to_percent. rewrite (ck32_Some (ei_max ei - ei_min ei)) by (unfold INT_MIN in *; lia). cbn [mbind option_bind].
  destruct (Z.eqb_spec (ei_max ei - ei_min ei) 0); [lia|]. rewrite (ck32_Some (v - ei_min ei)) by (unfold INT_MIN in *; lia). cbn [mbind option_bind].
  destruct (Z.eqb_spec v (ei_max ei)) as [->|]; [by rewrite Z.quot_same by lia|]. by rewrite Z.quot_small by lia.
Qed.

(** ** Setting a value and reading it back *)

(** Of the driver: what was written to an element is what it holds. *)
Class AlsaKeeps (A : Alsa) : Prop := al_keeps : ∀ h fd n vals, blen vals <= 512 → 0 <= al_write h fd n vals →
  (al_read (AWrite fd n vals (al_write h fd n vals) :: h) fd n).1 = 0 ∧
  take (length vals) (al_read (AWrite fd n vals (al_write h fd n vals) :: h) fd n).2 = vals.

(** What an element of a type makes of a value. *)
Definition stored (ty : elem_type) (value : Z) : Z :=
  match ty with ELEM_BOOLEAN => if value =? 0 then 0 else 1 | ELEM_BYTES => u8 value | _ => value end.

Lemma st_inside {A} (b : list A) i v : 0 <= i < blen b → ∃ b', st b i v = Some b' ∧ length b' = length b ∧ ld b' i = Some v.
Proof.
  intros Hi. unfold st, stn. rewrite bool_decide_true by (unfold blen in *; simpl; lia). eexists. split; [reflexivity|]. simpl.
  rewrite length_insert. split; [done|]. unfold ld. rewrite bool_decide_true by lia. apply list_lookup_insert_eq. unfold blen in *. lia.
Qed.

Lemma i32_u32 v : INT_MIN <= v <= INT_MAX → i32 (u32 v) = v.
Proof. unfold INT_MIN, INT_MAX. intros Hv. unfold i32, u32. rewrite Zplus_mod_idemp_l. rewrite Z.mod_small; lia. Qed.

Section SetGet.
Context `{A : Alsa, !AlsaOk A, !AlsaKeeps A} {S : Type}.
Implicit Types (w : aworld S).

(** A write of [k] values, and the value at [id] of a later read. *)
Lemma write_then_read fd n vals id v (w : aworld S) : blen vals <= 512 → ld vals id = Some v → 0 <= al_write (acalls w) fd n vals →
  let w' := AWorld (aobj w) (AWrite fd n vals (al_write (acalls w) fd n vals) :: acalls w) in
  (al_read (acalls w') fd n).1 = 0 ∧ ld (take (length vals) (al_read (acalls w') fd n).2) id = Some v ∧ ld (al_read (acalls w') fd n).2 id = Some v.
Proof.
  intros Hl Hv Hw w'. destruct (al_keeps (acalls w) fd n vals Hl Hw) as [H1 H2]. split; [exact H1|]. unfold w'. cbn [acalls]. rewrite H2. split; [exact Hv|].
  pose proof (ld_Some_bounds _ _ _ Hv) as Hb. unfold ld in *. rewrite bool_decide_true in * by lia. rewrite <- H2 in Hv. rewrite lookup_take in Hv by (unfold blen in *; lia).
  case_decide; [exact Hv|done].
Qed.

Lemma store_back fd ctl b id x y (w : aworld S) : 0 <= id < blen b → blen b <= 512 → id < ei_count (info ctl) →
  (∀ vals (w' : aworld S), ld (take (length b) vals) id = Some x → ld vals id = Some x →
     wp (match ei_type (info ctl) with
         | ELEM_BOOLEAN => v ← lift (ld (numbers vals) id); mret (if v =? 0 then 0 else 1)
         | ELEM_INTEGER => v ← lift (ld (numbers vals) id); mret (i32 v)
         | ELEM_ENUMERATED => v ← lift (ld (numbers vals) id); mret (i32 v)
         | ELEM_BYTES => lift (ld vals id)
         | _ => mret (- EINVAL)
         end) (λ v _, v = y) w') →
  wp (lift (st b id x)) (λ a, wp (io_write fd (ei_numid (info ctl)) a)
    (λ r w', 0 <= r → wp (mixer_ctl_get_value fd (Some ctl) id) (λ v _, v = y) w')) w.
Proof.
  intros Hid Hb Hc Hget. destruct (st_inside b id x Hid) as (b' & Hst & Hl & Hx). apply wp_lift. exists b'. split; [exact Hst|]. apply wp_acall. intros Hr.
  destruct (write_then_read fd (ei_numid (info ctl)) b' id x w) as (H1 & H2 & H3); [unfold blen in *; lia|exact Hx|exact Hr|]. cbn [acalls] in *.
  unfold mixer_ctl_get_value. destruct (Z.geb_spec id (ei_count (info ctl))); [lia|]. apply wp_bind, wp_acall.
  cbn [acalls]. destruct (al_read _ fd (ei_numid (info ctl))) as [z vals]. cbn [fst snd] in *. subst z. cbn [Z.ltb Z.compare]. apply Hget; [by rewrite <- Hl|exact H3].
Qed.

Lemma set_get_wp fd ctl id value (w : aworld S) : info_ok (info ctl) → 0 <= id < 512 → INT_MIN <= value <= INT_MAX →
  wp (mixer_ctl_set_value fd (Some ctl) id value)
    (λ r w', 0 <= r → wp (mixer_ctl_get_value fd (Some ctl) id) (λ v _, v = stored (ei_type (info ctl)) value) w') w.
Proof.
  intros (Hc & _ & Ht) Hid Hv. pose proof (al_read_len (acalls w) fd (ei_numid (info ctl))) as Hlen.
  unfold mixer_ctl_set_value. wp_steps; try (unfold EINVAL; lia); zbool; try lia.
  all: cbn [snd] in Hlen; assert (length (numbers l) = 128%nat) as Hn by (unfold numbers; rewrite length_take; unfold blen in Hlen; lia).
  all: apply store_back; [unfold blen in *; lia|unfold blen in *; lia|lia|]; intros vals w'; rewrite ?Hn; intros Hx1 Hx2; rewrite Heqe; unfold numbers.
  4: apply wp_lift; eauto.
  all: apply wp_bind, wp_lift; eexists; split; [exact Hx1|]; apply wp_ret'; cbn [stored].
  - by destruct (value =? 0).
  - apply i32_id. unfold INT_MIN, INT_MAX in Hv. lia.
  - by apply i32_u32.
Qed.
End SetGet.

(** A value that [mixer_ctl_set_value] has set is the value that
    [mixer_ctl_get_value] gives, as the type of the control stores it, when the
    driver keeps what is written to it. *)
Theorem mixer_value_roundtrip `{A : Alsa, !AlsaOk A, !AlsaKeeps A} {S} fd ctl id value (w : aworld S) :
  info_ok (info ctl) → 0 <= id < 512 → INT_MIN <= value <= INT_MAX →
  ∃ r w', mixer_ctl_set_value fd (Some ctl) id value w = Some (r, w') ∧
    (0 <= r → ∃ w'', mixer_ctl_get_value fd (Some ctl) id w' = Some (stored (ei_type (info ctl)) value, w'')).
Proof.
  intros Hi Hid Hv. pose proof (set_get_wp fd ctl id value w Hi Hid Hv) as H. unfold wp in H.
  destruct (mixer_ctl_set_value fd (Some ctl) id value w) as [[r w']|]; [|done]. exists r, w'. split; [done|]. intros Hr. specialize (H Hr).
  destruct (mixer_ctl_get_value fd (Some ctl) id w') as [[v w'']|]; [|done]. subst v. eauto.
Qed.

(** ** A card that keeps its values *)

Fixpoint held (h : alog) (fd n : Z) : list Z :=
  match h with
  | [] => []
  | AWrite fd' n' vals _ :: h' => if (fd =? fd') && (n =? n') then vals else held h' fd n
  | _ :: h' => held h' fd n
  end.
Definition gain_info (n : Z) : elem_info := mkInfo n "Gain" ELEM_INTEGER 1 (-100) 100 0 false.
Definition keeping_card : Alsa := {|
  al_open := λ _ _, 3; al_card_info := λ _ _, true; al_list_count := λ _ _, Some 1;
  al_list := λ _ _ off space, Some (seqZ (off + 1) space); al_info := λ _ _ n, Some (gain_info n);
  al_enum_name := λ _ _ _ _, None; al_read := λ h fd n, (0, take 512 (held h fd n ++ replicate 512 0)); al_write := λ _ _ _ _, 0;
  al_tlv_read := λ _ _ _ len, (0, replicate (Z.to_nat len) 0); al_tlv_write := λ _ _ _ _, 0;
  al_subscribe := λ _ _ _, 0; al_poll := λ _ _ _, inr (1, POLLIN); al_malloc := λ _, true |}.
#[local] Existing Instance keeping_card.
#[local] Instance keeping_card_ok : AlsaOk keeping_card.
Proof.
  split; cbn [al_info al_list al_list_count al_read al_tlv_read keeping_card snd].
  - intros h fd n ei [= <-]. unfold info_ok. cbn. lia.
  - by intros h fd off space l [= <-].
  - intros h fd n [= <-]. lia.
  - intros h fd n. unfold blen. rewrite length_take, length_app, length_replicate. lia.
  - intros h fd n len Hl. unfold blen. rewrite length_replicate. lia.
Qed.
#[local] Instance keeping_card_keeps : AlsaKeeps keeping_card.
Proof.
  intros h fd n vals Hl _. cbn [al_read al_write keeping_card held]. rewrite !Z.eqb_refl. cbn [andb fst snd]. split; [done|]. unfold blen in Hl.
  rewrite take_take. replace (Nat.min (length vals) 512) with (length vals) by lia. apply take_app_length.
Qed.

Definition gain : mixer_ctl := mkCtl (gain_info 1) None.

Lemma mixer_value_roundtrip_witness : ∃ r w', mixer_ctl_set_value 3 (Some gain) 0 42 (AWorld () []) = Some (r, w') ∧
  (0 <= r → ∃ w'', mixer_ctl_get_value 3 (Some gain) 0 w' = Some (42, w'')).
Proof. apply (mixer_value_roundtrip 3 gain 0 42 (AWorld () [])); unfold info_ok, INT_MIN, INT_MAX; cbn; lia. Defined.

(** A percentage that is out of range becomes the error number, which is then
    written when the control's range has it; and half the range reads as 0. *)
Theorem bad_percent_written :
  fst <$> (r ← mixer_ctl_set_percent 3 (Some gain) 0 500; v ← mixer_ctl_get_value 3 (Some gain) 0; mret (r, v)) (AWorld () []) = Some (0, - EINVAL) ∧
  fst <$> (r ← mixer_ctl_set_percent 3 (Some gain) 0 50; p ← mixer_ctl_get_percent 3 (Some gain) 0; mret (r, p)) (AWorld () []) = Some (0, 0).
Proof. by vm_compute. Qed.
