(* ===== verification/DynArray.v ===== *)
(** * Growing arrays (struct dyn_array of configmgr/audio_config.c)

    The arrays of the audio configuration grow by a granule of zeroed
    elements.  [dyn_array] is the structure of the source; [arr] keeps only
    the elements in use and the capacity, and is what the configuration is
    built from.  The refinement theorem relates the two. *)

From S2P Require Import Prelude Monad Mixer.

#[local] Open Scope Z_scope.

Definition DYN_ARRAY_GRANULE : Z := 16.

(** ** The structure *)

Section Dyn.
Context {A : Type} (zero : A).

(** [data] has [max_count] elements, [None] a null pointer. *)
Record dyn_array := mkDyn { da_count : Z; da_max_count : Z; da_data : option (list A) }.

Definition dyn_new : dyn_array := mkDyn 0 0 None.

(** [ok]: the answer of [realloc].  The status and the array. *)
Definition dyn_array_extend (ok : bool) (a : dyn_array) : Z * dyn_array :=
  let new_count := u32 (da_count a + 1) in
  if new_count >? da_max_count a then
    if da_max_count a >? 0xFFFF - DYN_ARRAY_GRANULE then (- ENOMEM, a)
    else if negb ok then (- ENOMEM, a)
    else (0, mkDyn new_count (u16 (da_max_count a + DYN_ARRAY_GRANULE))
               (Some (default [] (da_data a) ++ replicate (Z.to_nat DYN_ARRAY_GRANULE) zero)))
  else (0, mkDyn new_count (da_max_count a) (da_data a)).

Definition dyn_array_fix (ok : bool) (a : dyn_array) : dyn_array :=
  if ok then mkDyn (da_count a) (u16 (da_count a)) (Some (take (Z.to_nat (da_count a)) (default [] (da_data a)))) else a.

(** ** The elements *)

Record arr := mkArr { elems : list A; cap : Z }.

Definition arr_new : arr := mkArr [] 0.

Definition full (a : arr) : bool := blen (elems a) + 1 >? cap a.

(** [None] when there is no room. *)
Definition arr_extend (ok : bool) (x : A) (a : arr) : option arr :=
  if full a then
    if (cap a >? 0xFFFF - DYN_ARRAY_GRANULE) || negb ok then None
    else Some (mkArr (elems a ++ [x]) (cap a + DYN_ARRAY_GRANULE))
  else Some (mkArr (elems a ++ [x]) (cap a)).

Definition arr_fix (ok : bool) (a : arr) : arr := if ok then mkArr (elems a) (blen (elems a)) else a.

(** The bounds of an array, and the structure that represents it: the
    elements in use are followed by zeroed ones. *)
Definition arr_ok (a : arr) : Prop := blen (elems a) <= cap a <= 0xFFFF.

Definition represents (d : dyn_array) (a : arr) : Prop :=
  da_count d = blen (elems a) ∧ da_max_count d = cap a ∧ arr_ok a ∧
  default [] (da_data d) = elems a ++ replicate (Z.to_nat (cap a - blen (elems a))) zero.

Lemma represents_new : represents dyn_new arr_new.
Proof. repeat split; simpl; unfold blen; simpl; lia. Qed.

Lemma replicate_split (n m : Z) : 0 <= n → 0 <= m →
  replicate (Z.to_nat n) zero ++ replicate (Z.to_nat m) zero = replicate (Z.to_nat (n + m)) zero.
Proof. intros. rewrite <- replicate_add. f_equal. lia. Qed.

Lemma blen_snoc (l : list A) x : blen (l ++ [x]) = blen l + 1.
Proof. unfold blen. rewrite length_app. simpl. lia. Qed.

Lemma extend_refines ok d a : represents d a →
  match dyn_array_extend ok d, arr_extend ok zero a with
  | (r, d'), Some a' => r = 0 ∧ represents d' a'
  | (r, d'), None => r = - ENOMEM ∧ d' = d
  end.
Proof.
  intros (Hc & Hm & [H1 H2] & Hd). pose proof (blen_nonneg (elems a)).
  unfold dyn_array_extend, arr_extend, full. rewrite Hc, Hm.
  replace (u32 (blen (elems a) + 1)) with (blen (elems a) + 1) by (unfold u32; symmetry; apply Z.mod_small; lia).
  destruct (blen (elems a) + 1 >? cap a) eqn:E1; zbool.
  - destruct (cap a >? 0xFFFF - DYN_ARRAY_GRANULE) eqn:E2; [done|]. unfold DYN_ARRAY_GRANULE in *. zbool.
    destruct ok; [|done]. cbn [negb orb]. split; [done|].
    assert (cap a - blen (elems a) = 0) as E0 by lia. rewrite E0 in Hd. simpl in Hd. rewrite app_nil_r in Hd.
    unfold represents, arr_ok. cbn [da_count da_max_count da_data elems cap default]. rewrite blen_snoc.
    split_and!; try lia.
    + unfold u16. rewrite Z.mod_small; lia.
    + rewrite Hd, <- app_assoc. unfold id. f_equal. change [zero] with (replicate (Z.to_nat 1) zero).
      rewrite (replicate_split 1) by lia. do 2 f_equal. lia.
  - split; [done|]. unfold represents, arr_ok. cbn [da_count da_max_count da_data elems cap]. rewrite blen_snoc.
    split_and!; try lia. rewrite Hd, <- app_assoc. f_equal. change [zero] with (replicate (Z.to_nat 1) zero).
    rewrite (replicate_split 1) by lia. do 2 f_equal. lia.
Qed.

Lemma fix_refines ok d a : represents d a → represents (dyn_array_fix ok d) (arr_fix ok a).
Proof.
  intros (Hc & Hm & [H1 H2] & Hd). destruct ok; [|by repeat split]. pose proof (blen_nonneg (elems a)).
  unfold dyn_array_fix, arr_fix, represents, arr_ok. cbn [da_count da_max_count da_data elems cap default].
  rewrite Hc. split_and!; try lia; [unfold u16; rewrite Z.mod_small; lia|].
  rewrite Hd, Z.sub_diag. simpl. rewrite app_nil_r. apply take_app_length'. unfold blen. lia.
Qed.

(** A history of the operations; the element appended is written after it
    was zeroed. *)
Inductive dop := DExtend (ok : bool) | DFix (ok : bool).

Fixpoint run_dyn (os : list dop) (d : dyn_array) : list Z * dyn_array :=
  match os with
  | [] => ([], d)
  | DExtend ok :: os' => let '(r, d') := dyn_array_extend ok d in let '(rs, d'') := run_dyn os' d' in (r :: rs, d'')
  | DFix ok :: os' => run_dyn os' (dyn_array_fix ok d)
  end.

Fixpoint run_arr (os : list dop) (a : arr) : list Z * arr :=
  match os with
  | [] => ([], a)
  | DExtend ok :: os' =>
      match arr_extend ok zero a with
      | Some a' => let '(rs, a'') := run_arr os' a' in (0 :: rs, a'')
      | None => let '(rs, a'') := run_arr os' a in (- ENOMEM :: rs, a'')
      end
  | DFix ok :: os' => run_arr os' (arr_fix ok a)
  end.

End Dyn.
Arguments arr : clear implicits.
Arguments arr_new {A}.
