(* ===== verification/AudioConfig.v ===== *)
(** * The audio configuration manager (configmgr/audio_config.c)

    The objects built from the configuration file, and the operations on
    streams: opening, routing, volume, use cases.  Pointers into the arrays
    are positions.  The manager's mutex is held by every operation that
    changes devices or counts, so each is one atomic step; [apply_route] reads
    the current devices of its stream before it takes the mutex, and its
    callers serialise the calls for one stream. *)

From S2P Require Import Prelude Monad Mixer DynArray Params.
From Stdlib Require Import Ascii.

#[local] Open Scope string_scope.
#[local] Open Scope list_scope.
#[local] Open Scope Z_scope.

(** ** Constants of the platform (system/audio.h) *)

Class AudioH := {
  BIT_IN : Z; OUT_ALL : Z; IN_ALL : Z;
  OUT_SPEAKER : Z; OUT_EARPIECE : Z; OUT_WIRED_HEADSET : Z; OUT_WIRED_HEADPHONE : Z;
  OUT_ALL_SCO : Z; OUT_ALL_A2DP : Z; OUT_ALL_USB : Z;
  IN_WIRED_HEADSET : Z; IN_ALL_SCO : Z; IN_BUILTIN_MIC : Z; IN_BACK_MIC : Z; IN_VOICE_CALL : Z; IN_AUX_DIGITAL : Z;
  audio_is_linear_pcm : Z → bool }.

Definition ENOENT : Z := 2.
Definition ENOSYS : Z := 38.
Definition INVALID_CTL_INDEX : Z := 0xFFFFFFFF.
Definition BYTE_ARRAY_MAX_SIZE : Z := 512.

(** ** Data *)

(** The union [value] of a control. *)
Inductive ctl_value := VUint (u : Z) | VData (d : list Z) | VString (s : string).

Record ctl := mkCtlCfg {
  ctl_id : Z; ctl_name : string; ctl_index : Z; array_count : Z; ctl_type : mixer_ctl_type; value : ctl_value }.
#[export] Instance ctl_eta : Eta ctl := λ c, mkCtlCfg
  (ctl_id c) (ctl_name c) (ctl_index c) (array_count c) (ctl_type c) (value c).

Record path := mkPath { path_id : Z; ctl_array : arr ctl }.
#[export] Instance path_eta : Eta path := λ p, mkPath (path_id p) (ctl_array p).

(** Type 0 is the global device. *)
Record device := mkDevice { dev_type : Z; use_count : Z; path_array : arr path }.
#[export] Instance device_eta : Eta device := λ d, mkDevice (dev_type d) (use_count d) (path_array d).

Record scase := mkCase { case_name : string; case_ctls : arr ctl }.
#[export] Instance scase_eta : Eta scase := λ c, mkCase (case_name c) (case_ctls c).
Record usecase := mkUsecase { usecase_name : string; case_array : arr scase }.
#[export] Instance usecase_eta : Eta usecase := λ u, mkUsecase (usecase_name u) (case_array u).

Record stream_control := mkSC { sc_id : Z; sc_index : Z; sc_min : Z; sc_max : Z }.
#[export] Instance stream_control_eta : Eta stream_control := λ c, mkSC (sc_id c) (sc_index c) (sc_min c) (sc_max c).

Inductive stream_type :=
  e_stream_out_pcm | e_stream_in_pcm | e_stream_out_compress | e_stream_in_compress
  | e_stream_out_hw | e_stream_in_hw | e_stream_global.
#[export] Instance stream_type_eq_dec : EqDecision stream_type.
Proof. solve_decision. Defined.

Record hw_stream := mkHw {
  hw_type : stream_type; card_number : Z; device_number : Z; hw_rate : Z; hw_period_size : Z; hw_period_count : Z }.
#[export] Instance hw_stream_eta : Eta hw_stream := λ h, mkHw
  (hw_type h) (card_number h) (device_number h) (hw_rate h) (hw_period_size h) (hw_period_count h).

Definition stream_is_input (h : hw_stream) : bool :=
  match hw_type h with e_stream_in_pcm | e_stream_in_compress | e_stream_in_hw => true | _ => false end.

Record stream := mkStream {
  s_info : hw_stream; s_name : option string;
  ref_count : Z; max_ref_count : Z;
  enable_path : Z; disable_path : Z;
  current_devices : Z;
  volume_left : stream_control; volume_right : stream_control;
  usecase_array : arr usecase }.
#[export] Instance stream_eta : Eta stream := λ s, mkStream
  (s_info s) (s_name s) (ref_count s) (max_ref_count s) (enable_path s) (disable_path s) (current_devices s)
  (volume_left s) (volume_right s) (usecase_array s).

Record config_mgr := mkCM {
  cm_mixer : option mixer;
  supported_output_devices : Z; supported_input_devices : Z;
  device_array : arr device; stream_array : arr stream }.
#[export] Instance config_mgr_eta : Eta config_mgr := λ c, mkCM
  (cm_mixer c) (supported_output_devices c) (supported_input_devices c) (device_array c) (stream_array c).

Definition e_path_id_off : Z := 0.
Definition e_path_id_on : Z := 1.

(** ** Numbers in the configuration file *)

(** [strtoul] in base 0; [unsigned long] has 32 bits. *)
Definition strtoul (s : string) : Z * string :=
  let '(neg, t) := read_sign (skip_space s) in
  let '(base, t) :=
    match read_hex_prefix t with
    | Some t' => (16, t')
    | None => (match t with
               | String a _ => if bool_decide (a = "0"%char) then 8 else 10
               | EmptyString => 10 end, t)
    end in
  if is_digit base t then
    let '(v, r) := read_digits base t 0 in
    (if v >? UINT_MAX then UINT_MAX else if neg : bool then u32 (- v) else v, r)
  else (0, s).

(** The status and the number. *)
Definition string_to_uint (str : option string) : Z * option Z :=
  match str with
  | None => (- ENOENT, None)
  | Some str =>
      let '(v, endptr) := strtoul str in
      if bool_decide (endptr = "") && negb (bool_decide (str = "")) then (0, Some v) else (- EINVAL, None)
  end.

(** The tokens of [strtok (str, ",")]. *)
Definition tokens (s : string) : list string := strtok s "".

(** The bytes of a list of numbers, or the status of the first that is none. *)
Fixpoint parse_bytes (l : list string) : Z + list Z :=
  match l with
  | [] => inr []
  | t :: l' =>
      match string_to_uint (Some t) with
      | (_, Some v) => match parse_bytes l' with inl e => inl e | inr bs => inr (u8 v :: bs) end
      | (e, None) => inl e
      end
  end.

Section Config.
Context `{!Alsa} `{!AudioH}.

Abbreviation CM := (ST (aworld config_mgr)).

Definition getC : CM config_mgr := gets aobj.
Definition updC (f : config_mgr → config_mgr) : CM () := modify (λ w, AWorld (f (aobj w)) (acalls w)).

(** ** Controls *)

(** Generic in the object: the parser opens controls too. *)
Section Ctl.
Context {S : Type}.
Abbreviation AM := (ST (aworld S)).

Definition make_byte_array (c : ctl) (val_str : string) (ctl : option mixer_ctl) : AM (Z * AudioConfig.ctl) :=
  let vnum := mixer_ctl_get_num_values ctl in
  ok ← malloc;                                            (* strdup *)
  if negb ok then mret (- ENOMEM, c) else
  if vnum >? BYTE_ARRAY_MAX_SIZE then mret (- EINVAL, c) else
  if ctl_index c >=? vnum then mret (- EINVAL, c) else
  let count := blen (tokens val_str) in
  if ctl_index c + count >? vnum then mret (- EINVAL, c) else
  let c := c <| array_count := count |> in
  ok ← malloc;
  if negb ok then mret (- ENOMEM, c) else
  mret match parse_bytes (tokens val_str) with
       | inl e => (e, c)
       | inr bytes => (0, c <| value := VData bytes |>)
       end.

(** The status and the control. *)
Definition ctl_open (m : option mixer) (pctl : ctl) : AM (Z * ctl) :=
  if negb (ctl_id pctl =? UINT_MAX) then mret (0, pctl) else
  match mixer_get_ctl_by_name m (ctl_name pctl) with
  | None => mret (- ENOENT, pctl)
  | Some c =>
      let done pctl := mret (0, pctl <| ctl_type := mixer_ctl_get_type (Some c) |> <| ctl_id := mixer_ctl_get_id (Some c) |>) in
      match mixer_ctl_get_type (Some c) with
      | MIXER_CTL_TYPE_BYTE =>
          match value pctl with
          | VString s =>
              let pctl := if ctl_index pctl =? INVALID_CTL_INDEX then pctl <| ctl_index := 0 |> else pctl in
              '(ret, pctl) ← make_byte_array pctl s (Some c);
              if negb (ret =? 0) then mret (ret, pctl) else done pctl
          | _ => ub
          end
      | MIXER_CTL_TYPE_BOOL | MIXER_CTL_TYPE_INT =>
          match value pctl with
          | VString s =>
              match string_to_uint (Some s) with
              | (_, Some v) => done (pctl <| value := VUint v |>)
              | (_, None) => mret (- EINVAL, pctl)
              end
          | _ => ub
          end
      | MIXER_CTL_TYPE_ENUM => done pctl
      | _ => mret (- EINVAL, pctl)
      end
  end.
End Ctl.

Definition mixer_fd (m : option mixer) : Z := from_option m_fd (-1) m.

(** [for (vnum = 0; vnum < value_count; ++vnum)]; left at an error. *)
Fixpoint set_all_values {S} (fd : Z) (c : option mixer_ctl) (vnum : Z) (n : nat) (v : Z) : ST (aworld S) () :=
  match n with
  | O => mret ()
  | Datatypes.S n' => err ← mixer_ctl_set_value fd c vnum v; if err <? 0 then mret () else set_all_values fd c (vnum + 1) n' v
  end.

(** Write an open control; errors are only logged. *)
Definition apply_ctl (pctl : ctl) : CM () :=
  cm ← getC;
  let m := cm_mixer cm in
  let c := mixer_get_ctl m (ctl_id pctl) in
  let fd := mixer_fd m in
  match mixer_ctl_get_type c with
  | MIXER_CTL_TYPE_BOOL | MIXER_CTL_TYPE_INT =>
      match value pctl with
      | VUint u =>
          if ctl_index pctl =? INVALID_CTL_INDEX
          then set_all_values fd c 0 (Z.to_nat (mixer_ctl_get_num_values c)) (i32 u)
          else mixer_ctl_set_value fd c (ctl_index pctl) (i32 u);; mret ()
      | _ => ub
      end
  | MIXER_CTL_TYPE_BYTE =>
      match value pctl with
      | VData d =>
          let vnum := mixer_ctl_get_num_values c in
          if (ctl_index pctl =? 0) && (array_count pctl =? vnum)
          then mixer_ctl_set_array fd c d (array_count pctl);; mret ()
          else
            if vnum >? BYTE_ARRAY_MAX_SIZE then ub else
            '(err, old) ← mixer_ctl_get_array fd c vnum;
            if err <? 0 then mret () else
            bytes ← lift (ldn d 0 (array_count pctl));
            buf ← lift (stn (old ++ replicate (Z.to_nat (BYTE_ARRAY_MAX_SIZE - blen old)) 0) (ctl_index pctl) bytes);
            mixer_ctl_set_array fd c buf vnum;; mret ()
      | _ => ub
      end
  | MIXER_CTL_TYPE_ENUM =>
      match value pctl with
      | VString s =>
          '(_, c') ← mixer_ctl_set_enum_by_string fd c s;
          match m, c' with
          | Some m, Some c' =>
              ctls ← lift (st (m_ctl m) (ctl_id pctl) c');
              updC (λ cm, cm <| cm_mixer := Some (mkMixer (m_fd m) ctls) |>)
          | _, _ => mret ()
          end
      | _ => ub
      end
  | _ => mret ()
  end.

(** The loop ends at the first control that cannot be opened.  The controls
    opened on the way are the result. *)
Fixpoint apply_ctls_l (ctls : list ctl) : CM (list ctl) :=
  match ctls with
  | [] => mret []
  | pctl :: ctls' =>
      cm ← getC;
      '(ret, pctl) ← ctl_open (cm_mixer cm) pctl;
      if negb (ret =? 0) then mret (pctl :: ctls') else
      apply_ctl pctl;;
      rest ← apply_ctls_l ctls';
      mret (pctl :: rest)
  end.

(** ** Paths *)

Definition set_elem {A} (a : arr A) (i : Z) (x : A) : option (arr A) := l ← st (elems a) i x; Some (mkArr l (cap a)).

Definition get_device (i : Z) : CM device := cm ← getC; lift (ld (elems (device_array cm)) i).
Definition set_device (i : Z) (d : device) : CM () :=
  cm ← getC; a ← lift (set_elem (device_array cm) i d); updC (λ cm, cm <| device_array := a |>).

Definition log_path (dev id : Z) : CM () := modify (λ w, AWorld (aobj w) (APath dev id :: acalls w)).

(** Path [j] of device [i]. *)
Definition apply_path_l (i j : Z) : CM () :=
  d ← get_device i;
  p ← lift (ld (elems (path_array d)) j);
  log_path i (path_id p);;
  ctls ← apply_ctls_l (elems (ctl_array p));
  a ← lift (set_elem (path_array d) j (p <| ctl_array := mkArr ctls (cap (ctl_array p)) |>));
  set_device i (d <| path_array := a |>).

(** The on and off paths of a device are reference-counted. *)
Definition apply_device_path_l (i j : Z) : CM () :=
  d ← get_device i;
  p ← lift (ld (elems (path_array d)) j);
  if path_id p =? e_path_id_off then
    n ← lift (ck32 (use_count d - 1));
    set_device i (d <| use_count := n |>);;
    if n >? 0 then mret () else apply_path_l i j
  else if path_id p =? e_path_id_on then
    n ← lift (ck32 (use_count d + 1));
    set_device i (d <| use_count := n |>);;
    if n >? 1 then mret () else apply_path_l i j
  else apply_path_l i j.

(** Both paths in one walk: their positions. *)
Fixpoint find_paths (ps : list path) (j first_id second_id : Z) (f0 f1 : option Z) : option Z * option Z :=
  match ps with
  | [] => (f0, f1)
  | p :: ps' =>
      if path_id p =? first_id then
        if bool_decide (is_Some f1) || (first_id =? second_id) then (Some j, f1)
        else find_paths ps' (j + 1) first_id second_id (Some j) f1
      else if path_id p =? second_id then
        if bool_decide (is_Some f0) then (f0, Some j) else find_paths ps' (j + 1) first_id second_id f0 (Some j)
      else find_paths ps' (j + 1) first_id second_id f0 f1
  end.

Definition apply_opt (i : Z) (j : option Z) : CM () := match j with Some j => apply_device_path_l i j | None => mret () end.

Definition apply_paths_by_id_l (i first_id second_id : Z) : CM () :=
  d ← get_device i;
  let '(f0, f1) := find_paths (elems (path_array d)) 0 first_id second_id None None in
  apply_opt i f0;; apply_opt i f1.

(** The loop over the [n] devices from position [i] on. *)
Fixpoint devices_loop (n : nat) (i devices input_flag first_id second_id : Z) : CM () :=
  match n with
  | O => mret ()
  | Datatypes.S n' =>
      if devices =? 0 then mret () else
      d ← get_device i;
      if (Z.land (dev_type d) input_flag =? input_flag) && negb (Z.land (dev_type d) devices =? 0) then
        apply_paths_by_id_l i first_id second_id;;
        devices_loop n' (i + 1) (Z.ldiff devices (dev_type d)) input_flag first_id second_id
      else devices_loop n' (i + 1) devices input_flag first_id second_id
  end.

Definition apply_paths_to_devices_l (devices first_id second_id : Z) : CM () :=
  cm ← getC;
  devices_loop (length (elems (device_array cm))) 0 (Z.ldiff devices BIT_IN) (Z.land devices BIT_IN) first_id second_id.

(** The first device of type 0. *)
Fixpoint find_global (ds : list device) (i : Z) : option Z :=
  match ds with [] => None | d :: ds' => if dev_type d =? 0 then Some i else find_global ds' (i + 1) end.

Definition apply_paths_to_global_l (first_id second_id : Z) : CM () :=
  cm ← getC;
  match find_global (elems (device_array cm)) 0 with
  | Some i => apply_paths_by_id_l i first_id second_id
  | None => mret ()
  end.

(** ** Streams *)

Definition get_str (k : Z) : CM stream := cm ← getC; lift (ld (elems (stream_array cm)) k).
Definition set_str (k : Z) (s : stream) : CM () :=
  cm ← getC; a ← lift (set_elem (stream_array cm) k s); updC (λ cm, cm <| stream_array := a |>).

Definition get_current_routes (k : Z) : CM Z := s ← get_str k; mret (current_devices s).
Definition get_routed_devices (k : Z) : CM Z := s ← get_str k; mret (current_devices s).

(** The devices stored, or [None] for a direction that does not fit. *)
Definition route_mask (s : stream) (devices : Z) : option Z :=
  if devices =? 0 then Some 0
  else if negb (Z.land devices BIT_IN =? 0) then
    if stream_is_input (s_info s) then Some (Z.lor (Z.land devices IN_ALL) BIT_IN) else None
  else if stream_is_input (s_info s) then None else Some (Z.land devices OUT_ALL).

Definition apply_route (k devices : Z) : CM () :=
  s ← get_str k;
  let enabling := Z.ldiff devices (current_devices s) in
  let disabling := Z.ldiff (current_devices s) devices in
  match route_mask s devices with
  | None => mret ()
  | Some devices =>
      apply_paths_to_devices_l disabling (disable_path s) e_path_id_off;;
      apply_paths_to_devices_l enabling e_path_id_on (enable_path s);;
      s ← get_str k;
      set_str k (s <| current_devices := devices |>)
  end.

Definition set_vol_ctl (volctl : stream_control) (percent : Z) : CM Z :=
  cm ← getC;
  let c := mixer_get_ctl (cm_mixer cm) (sc_id volctl) in
  let val := if percent =? 0 then sc_min volctl
             else if percent =? 100 then sc_max volctl
             else u32 (sc_min volctl + u32 (percent * u32 (sc_max volctl - sc_min volctl)) / 100) in
  mixer_ctl_set_value (mixer_fd (cm_mixer cm)) c (sc_index volctl) (i32 val);;
  mret 0.

Definition set_hw_volume (k left_pc right_pc : Z) : CM Z :=
  s ← get_str k;
  let mono := sc_id (volume_right s) =? UINT_MAX in
  ret ← (if negb (sc_id (volume_left s) =? UINT_MAX) then
           l ← (if mono then x ← lift (ck32 (left_pc + right_pc)); mret (Z.quot x 2) else mret left_pc);
           set_vol_ctl (volume_left s) (u32 l)
         else mret (- ENOSYS));
  if negb mono then set_vol_ctl (volume_right s) (u32 right_pc) else mret ret.

(** The first stream with the name. *)
Fixpoint find_named (l : list stream) (name : string) (k : Z) : option Z :=
  match l with
  | [] => None
  | s :: l' => if bool_decide (s_name s = Some name) then Some k else find_named l' name (k + 1)
  end.
Definition find_named_stream (cm : config_mgr) (name : string) : option Z := find_named (elems (stream_array cm)) name 0.

Definition open_stream_l (k : Z) : CM bool :=
  s ← get_str k;
  if ref_count s <? max_ref_count s then
    let n := ref_count s + 1 in
    set_str k (s <| ref_count := n |>);;
    when (n =? 1) (apply_paths_to_global_l e_path_id_on (enable_path s));;
    mret true
  else mret false.

(** The loop of [get_stream] over the positions below [n], downwards. *)
Fixpoint open_first (type : stream_type) (n : nat) : CM (option Z) :=
  match n with
  | O => mret None
  | Datatypes.S n' =>
      s ← get_str (Z.of_nat n');
      if bool_decide (hw_type (s_info s) = type) then
        ok ← open_stream_l (Z.of_nat n');
        if ok : bool then mret (Some (Z.of_nat n')) else open_first type n'
      else open_first type n'
  end.

Definition get_stream (devices format : Z) : CM (option Z) :=
  let pcm := audio_is_linear_pcm format in
  let type := if negb (Z.land devices BIT_IN =? 0) then (if pcm then e_stream_in_pcm else e_stream_in_compress)
              else (if pcm then e_stream_out_pcm else e_stream_out_compress) in
  cm ← getC; open_first type (length (elems (stream_array cm))).

Definition get_named_stream (name : string) : CM (option Z) :=
  cm ← getC;
  match find_named_stream cm name with
  | None => mret None
  | Some k => ok ← open_stream_l k; mret (if ok : bool then Some k else None)
  end.

Definition is_named_stream_defined (name : string) : CM bool :=
  cm ← getC; mret (bool_decide (is_Some (find_named_stream cm name))).

Definition release_stream (k : Z) : CM () :=
  s ← get_str k;
  n ← lift (ck32 (ref_count s - 1));
  set_str k (s <| ref_count := n |>);;
  if n =? 0 then
    apply_paths_to_devices_l (current_devices s) e_path_id_off (disable_path s);;
    apply_paths_to_global_l (disable_path s) e_path_id_off;;
    s ← get_str k;
    set_str k (s <| current_devices := 0 |>)
  else mret ().

Definition get_supported_output_devices : CM Z := cm ← getC; mret (supported_output_devices cm).
Definition get_supported_input_devices : CM Z := cm ← getC; mret (supported_input_devices cm).

(** Memory is not tracked; what remains is the descriptor of the mixer. *)
Definition free_audio_config (cm : option config_mgr) : CM () :=
  match cm with Some cm => match cm_mixer cm with Some m => mixer_close (Some m) | None => mret () end | None => mret () end.

(** ** Use cases *)

(** The positions of the use case and of the case: the first pair that fits. *)
Fixpoint find_case (cs : list scase) (name : string) (j : Z) : option Z :=
  match cs with
  | [] => None
  | c :: cs' => if bool_decide (case_name c = name) then Some j else find_case cs' name (j + 1)
  end.
Fixpoint find_usecase (us : list usecase) (setting name : string) (i : Z) : option (Z * Z) :=
  match us with
  | [] => None
  | u :: us' =>
      if bool_decide (usecase_name u = setting) then
        match find_case (elems (case_array u)) name 0 with
        | Some j => Some (i, j)
        | None => find_usecase us' setting name (i + 1)
        end
      else find_usecase us' setting name (i + 1)
  end.

Definition apply_use_case (k : Z) (setting case_name : string) : CM Z :=
  s ← get_str k;
  match find_usecase (elems (usecase_array s)) setting case_name 0 with
  | None => mret (- ENOSYS)
  | Some (i, j) =>
      u ← lift (ld (elems (usecase_array s)) i);
      c ← lift (ld (elems (case_array u)) j);
      ctls ← apply_ctls_l (elems (case_ctls c));
      ca ← lift (set_elem (case_array u) j (c <| case_ctls := mkArr ctls (cap (case_ctls c)) |>));
      ua ← lift (set_elem (usecase_array s) i (u <| case_array := ca |>));
      set_str k (s <| usecase_array := ua |>);;
      mret 0
  end.
End Config.
