(* ===== verification/AudioRoute.v ===== *)
(** * Applying controls and paths

    Writing the controls of a path is always defined and changes nothing but
    the controls themselves.  The routing operations therefore act on the
    reference counts and on the sequence of applied paths only: they implement
    an abstract machine without controls. *)

From S2P Require Import Prelude Monad Mixer DynArray Params AudioConfig.

#[local] Open Scope Z_scope.

(** ** Opening a mixer *)

Section Open.
Context `{A : Alsa, !AlsaOk A} {S : Type}.
Implicit Types (w : aworld S).

Lemma add_infos_ok fd n ctls w :
  (∀ i c, ld ctls i = Some c → info_ok (info c) ∧ ei_numid (info c) = i + 1) →
  wp (add_infos fd (seqZ (blen ctls + 1) n) ctls) (λ r w', aobj w' = aobj w ∧
    blen r.1 <= blen ctls + Z.max 0 n ∧ ∀ i c, ld r.1 i = Some c → info_ok (info c) ∧ ei_numid (info c) = i + 1) w.
Proof.
  remember (Z.to_nat n) as k eqn:Ek. revert n Ek ctls w. induction k as [|k IH]; intros n Ek ctls w Hc.
  - rewrite seqZ_nil by lia. unfold wp. simpl. split_and!; [done|lia|done].
  - rewrite seqZ_cons by lia. simpl. apply wp_bind. unfold io_info, acall_, wp at 1. simpl.
    destruct (al_info _ _ _) as [ei|] eqn:Ei; [|unfold wp; simpl; split_and!; [done|lia|done]].
    apply al_info_ok in Ei as [Hi Hn]. replace (Z.succ (blen ctls + 1)) with (blen (ctls ++ [mkCtl ei None]) + 1) by (rewrite blen_snoc; lia).
    eapply wp_mono; [apply (IH (Z.pred n)); [lia|]|].
    + intros i c Hl. destruct (decide (i = blen ctls)) as [->|Hne].
      * unfold ld, blen in Hl. rewrite bool_decide_true in Hl by lia. rewrite Nat2Z.id, list_lookup_middle in Hl by done.
        injection Hl as <-. done.
      * apply Hc. pose proof (ld_Some_bounds _ _ _ Hl) as Hb. rewrite blen_snoc in Hb. unfold ld, blen in *.
        rewrite bool_decide_true in * by lia. rewrite lookup_app_l in Hl by lia. done.
    + intros [l b] w' (-> & Hl & ?). simpl in *. rewrite blen_snoc in Hl. split_and!; [done|lia|done].
Qed.

Lemma mixer_close_wp m w : wp (mixer_close m) (λ _ w', aobj w' = aobj w) w.
Proof. unfold mixer_close. destruct m; wp_steps; done. Qed.

Lemma add_controls_ok fd w : wp (add_controls (mkMixer fd [])) (λ r w', mixer_ok r.2 ∧ m_fd r.2 = fd ∧ aobj w' = aobj w) w.
Proof.
  assert (mixer_ok (mkMixer fd [])) as H0.
  { split; [done|]. intros i c Hl%ld_Some_bounds. unfold blen in Hl. simpl in Hl. lia. }
  unfold add_controls. simpl. wp_steps; try done. zbool. apply al_count_ok in Heqo. apply al_list_ok in Heqo0. subst l.
  change (blen (A := mixer_ctl) []) with 0 in *. rewrite Z.sub_0_r in *.
  rewrite take_app_length' by (rewrite length_seqZ; lia).
  match goal with |- context [seqZ _ ?n] => eapply wp_mono; [apply (add_infos_ok fd n []); intros i c Hl%ld_Some_bounds; unfold blen in Hl; simpl in Hl; lia|] end.
  intros [ctls b] w' (Ew & Hl & Hc). simpl in *. change (blen (A := mixer_ctl) []) with 0 in Hl.
  unfold wp. simpl. split_and!; [split; [simpl; lia|done]|done|by rewrite Ew].
Qed.

Lemma mixer_open_ok card w :
  wp (mixer_open card) (λ m w', aobj w' = aobj w ∧ ∀ m', m = Some m' → mixer_ok m' ∧ 0 <= m_fd m') w.
Proof.
  unfold mixer_open. wp_steps; try done.
  eapply wp_mono; [apply add_controls_ok|]. intros [r m] w' (Hm & Hfd & Ew). simpl in *. wp_steps; (split; [congruence|]); try done.
  intros m' [= <-]. split; [done|]. zbool. lia.
Qed.

(** A card whose information cannot be read: the descriptor 0 is closed and
    the card's is not. *)
Theorem mixer_open_closes_stdin card w fd : fd = al_open (acalls w) card → 0 < fd →
  al_malloc (AOpen card fd :: acalls w) = true → al_card_info (AMalloc true :: AOpen card fd :: acalls w) fd = false →
  mixer_open card w = Some (None,
    AWorld (aobj w) (AClose 0 :: ACardInfo fd false :: AMalloc true :: AOpen card fd :: acalls w)).
Proof.
  intros -> Hfd Hm Hi. unfold mixer_open, sys_open, malloc, io_card_info, acall_, mbind, ST_bind. simpl.
  assert ((al_open (acalls w) card <? 0) = false) as -> by lia. simpl. rewrite Hm. simpl. rewrite Hi. reflexivity.
Qed.
End Open.

(** ** Writing controls *)

(** The paths applied, latest first. *)
Definition paths (l : alog) : list (Z * Z) := omap (λ c, match c with APath d p => Some (d, p) | _ => None end) l.

(** Nothing happened to the object. *)
Definition silent {S} (w w' : aworld S) : Prop := aobj w' = aobj w ∧ paths (acalls w') = paths (acalls w).

#[export] Instance silent_preorder {S} : PreOrder (@silent S).
Proof. split; [by split|]. intros w1 w2 w3 [E1 P1] [E2 P2]. split; congruence. Qed.

Section Silent.
Context `{A : Alsa, !AlsaOk A} {S : Type}.
Implicit Types (w : aworld S).

Lemma st_in {B} (l : list B) i x : 0 <= i < blen l → ∃ l', st l i x = Some l' ∧ blen l' = blen l.
Proof.
  intros H. unfold st, stn. rewrite bool_decide_true by (unfold blen in *; simpl; lia). eexists. split; [done|].
  unfold blen. by rewrite length_inserts.
Qed.

Lemma set_value_wp fd c id v w : info_ok (info c) → (ei_type (info c) = ELEM_BYTES → ei_count (info c) <= 512) → 0 <= id →
  wp (mixer_ctl_set_value fd (Some c) id v) (λ _, silent w) w.
Proof.
  intros (H0 & H1 & Hc) Ht Hid. unfold mixer_ctl_set_value. wp_steps; try done.
  all: zbool; pose proof (al_read_len (acalls w) fd (ei_numid (info c))) as Hl; rewrite Heqp in Hl; simpl in Hl; try specialize (Ht ltac:(done)).
  all: match goal with |- wp (lift (st ?l ?i ?x)) _ _ => destruct (st_in l i x) as (l' & -> & _) end;
    [unfold numbers, blen in *; rewrite ?length_take; lia|done].
Qed.

Lemma ldn_in {B} (l : list B) n : 0 <= n <= blen l → ∃ l', ldn l 0 n = Some l' ∧ blen l' = n.
Proof.
  intros H. unfold ldn. rewrite bool_decide_true by lia. eexists. split; [done|].
  unfold blen in *. rewrite drop_0, length_take. lia.
Qed.

Lemma stn_in {B} (l vs : list B) i : 0 <= i → i + blen vs <= blen l → ∃ l', stn l i vs = Some l' ∧ blen l' = blen l.
Proof.
  intros ??. unfold stn. rewrite bool_decide_true by lia. eexists. split; [done|]. unfold blen. by rewrite length_inserts.
Qed.

Lemma wp_lift_eq {B} (o : option B) b (Q : B → aworld S → Prop) w : o = Some b → Q b w → wp (lift o) Q w.
Proof. by intros ->. Qed.

Lemma get_array_wp fd c n w : info_ok (info c) → 0 <= n <= ei_count (info c) →
  wp (mixer_ctl_get_array fd (Some c) n) (λ r w', silent w w' ∧ (0 <= r.1 → blen r.2 = n)) w.
Proof.
  intros (H0 & H1 & Hc) Hn. unfold mixer_ctl_get_array. wp_steps; try (split; [done|simpl; unfold EINVAL, ENOMEM; lia]); zbool.
  - pose proof (al_tlv_len (AMalloc (al_malloc (acalls w)) :: acalls w) fd (ei_numid (info c)) n ltac:(lia)) as Hl. rewrite Heqp in Hl.
    destruct (ldn_in l n) as (l' & E & Hl'); [simpl in Hl; lia|]. eapply wp_lift_eq; [exact E|]. by split.
  - pose proof (al_read_len (acalls w) fd (ei_numid (info c))) as Hl. rewrite Heqp in Hl. simpl in Hl.
    destruct Hc as [Hc|Hc]; [congruence|].
    destruct (ldn_in l n) as (l' & E & Hl'); [lia|]. eapply wp_lift_eq; [exact E|]. by split.
Qed.

Lemma set_array_wp fd c a n w : info_ok (info c) → 0 <= n <= blen a →
  wp (mixer_ctl_set_array fd (Some c) a n) (λ _, silent w) w.
Proof.
  intros (H0 & H1 & Hc) Hn. unfold mixer_ctl_set_array. wp_steps; try done; zbool.
  all: destruct (ldn_in a n) as (l' & E & Hl'); [lia|]; eapply wp_lift_eq; [exact E|]; wp_steps; try done.
  destruct Hc as [Hc|Hc]; [congruence|].
  destruct (stn_in (replicate 512 0) l' 0) as (l2 & E2 & _); [lia| |by eapply wp_lift_eq; [exact E2|]].
  unfold total_count in *. rewrite bool_decide_true in * by done. rewrite H3 in *. simpl in *. unfold blen in *. simpl. lia.
Qed.

Lemma add_infos_wp fd ns ctls w : wp (add_infos fd ns ctls) (λ _, silent w) w.
Proof.
  revert ctls w. induction ns as [|n ns IH]; intros ctls w; simpl; [done|]. wp_steps; [|done].
  eapply wp_mono; [apply IH|]. intros r w' Hs. etrans; [|exact Hs]. done.
Qed.

Lemma mixer_open_silent card w : wp (mixer_open card) (λ _, silent w) w.
Proof.
  unfold mixer_open, mixer_close, add_controls. wp_steps; try done.
  all: eapply wp_mono; [apply add_infos_wp|]; intros r w' Hs; wp_steps; (etrans; [|exact Hs || (etrans; [exact Hs|done])]); done.
Qed.

Lemma enum_names_wp fd numid m n w : wp (enum_names fd numid m n) (λ _, silent w) w.
Proof.
  revert m w. induction n as [|n IH]; intros m w; simpl; wp_steps; try done.
  eapply wp_mono; [apply IH|]. intros l w' Hs. wp_steps. etrans; [|exact Hs]. done.
Qed.

Lemma set_enum_wp fd c s w :
  wp (mixer_ctl_set_enum_by_string fd (Some c) s) (λ r w', silent w w' ∧ ∃ c', r.2 = Some c' ∧ info c' = info c) w.
Proof.
  unfold mixer_ctl_set_enum_by_string. wp_steps; [by split; [|eauto]|].
  eapply (wp_mono _ (λ r w', silent w w' ∧ info r.2 = info c)).
  { unfold mixer_ctl_fill_enum_string. destruct (ename c); wp_steps; try done.
    eapply wp_mono; [apply enum_names_wp|]. intros [l|] w' Hs; wp_steps; (split; [|done]); (etrans; [|exact Hs]); done. }
  intros [r c'] w' [Hs Hi]. wp_steps; try (split; [done|eauto]).
Qed.
End Silent.

(** The mixers differ at most in the names read so far. *)
Definition mixer_sim (m m' : option mixer) : Prop :=
  match m, m' with
  | Some m, Some m' => m_fd m' = m_fd m ∧ info <$> m_ctl m' = info <$> m_ctl m
  | None, None => True
  | _, _ => False
  end.

Lemma mixer_sim_refl m : mixer_sim m m.
Proof. by destruct m. Qed.
Lemma mixer_sim_trans m1 m2 m3 : mixer_sim m1 m2 → mixer_sim m2 m3 → mixer_sim m1 m3.
Proof. destruct m1, m2, m3; simpl; try done. intros [-> ->] [-> ->]. done. Qed.

(** The information of the control with an identifier. *)
Definition info_at (m : option mixer) (id : Z) : option elem_info := m ← m; ld (info <$> m_ctl m) id.

Lemma mixer_sim_info m m' id : mixer_sim m m' → info_at m' id = info_at m id.
Proof. destruct m, m'; simpl; try done. intros [_ H]. unfold info_at. simpl. unfold fmap in *. by rewrite H. Qed.

Lemma ld_fmap {B C} (f : B → C) (l : list B) i : ld (f <$> l) i = f <$> ld l i.
Proof. unfold ld. case_bool_decide; [|done]. by rewrite list_lookup_fmap. Qed.

Lemma get_ctl_info m id ei : info_at m id = Some ei → ∃ c, mixer_get_ctl m id = Some c ∧ info c = ei.
Proof.
  unfold info_at, mixer_get_ctl. destruct m as [m|]; [|done]. simpl. rewrite ld_fmap. intros H.
  destruct (ld (m_ctl m) id) as [c|] eqn:E; [|done]. injection H as <-.
  assert ((id <? blen (m_ctl m)) = true) as -> by (apply ld_Some_bounds in E; lia). eauto.
Qed.

(** The value of an open control fits its type. *)
Definition opened (ei : elem_info) (c : ctl) : Prop :=
  match ei_type ei with
  | ELEM_BOOLEAN | ELEM_INTEGER => ∃ u, value c = VUint u
  | ELEM_ENUMERATED => ∃ s, value c = VString s
  | ELEM_BYTES => ∃ d, value c = VData d ∧ array_count c = blen d ∧ ctl_index c + blen d <= ei_count ei ∧ ei_count ei <= 512
  | _ => False
  end.

Definition ctl_ok (m : option mixer) (c : ctl) : Prop :=
  0 <= ctl_index c ∧
  if ctl_id c =? UINT_MAX then ∃ s, value c = VString s else ∃ ei, info_at m (ctl_id c) = Some ei ∧ opened ei c.

Definition omixer_ok (m : option mixer) : Prop := from_option mixer_ok True m.

Lemma ctl_ok_sim m m' c : mixer_sim m m' → ctl_ok m c → ctl_ok m' c.
Proof. intros Hs. unfold ctl_ok. by rewrite (mixer_sim_info m m'). Qed.

Lemma omixer_ok_sim m m' : mixer_sim m m' → omixer_ok m → omixer_ok m'.
Proof.
  destruct m as [m|], m' as [m'|]; simpl; try done. intros [_ Hs] [Hl Hc].
  assert (blen (m_ctl m') = blen (m_ctl m)) as El.
  { unfold blen. rewrite <- (length_fmap info (m_ctl m')), <- (length_fmap info (m_ctl m)). by rewrite Hs. }
  split; [lia|]. intros i c E. assert (ld (info <$> m_ctl m') i = Some (info c)) as E' by (rewrite ld_fmap; by rewrite E).
  rewrite Hs, ld_fmap in E'. destruct (ld (m_ctl m) i) as [c0|] eqn:E0; [|done]. injection E' as <-. by apply Hc.
Qed.

Lemma info_at_ok m id ei : omixer_ok m → info_at m id = Some ei → info_ok ei ∧ ei_numid ei = id + 1.
Proof.
  destruct m as [m|]; [|done]. unfold info_at. simpl. rewrite ld_fmap. intros [_ H].
  destruct (ld (m_ctl m) id) as [c|] eqn:E; [|done]. intros [= <-]. by apply H.
Qed.

(** Only the mixer's memory of names has changed. *)
Definition quiet (w w' : aworld config_mgr) : Prop :=
  ∃ m', aobj w' = (aobj w) <| cm_mixer := m' |> ∧ mixer_sim (cm_mixer (aobj w)) m' ∧ paths (acalls w') = paths (acalls w).

Lemma silent_quiet w w' : silent w w' → quiet w w'.
Proof. intros [E P]. exists (cm_mixer (aobj w)). split_and!; [|apply mixer_sim_refl|done]. rewrite E. by destruct (aobj w). Qed.

#[export] Instance quiet_preorder : PreOrder quiet.
Proof.
  split; [intros w; by apply silent_quiet|]. intros w1 w2 w3 (m1 & E1 & S1 & P1) (m2 & E2 & S2 & P2). exists m2.
  rewrite E1 in *. simpl in *. split_and!; [done|by eapply mixer_sim_trans|congruence].
Qed.

Lemma quiet_mixer w w' : quiet w w' → mixer_sim (cm_mixer (aobj w)) (cm_mixer (aobj w')).
Proof. by intros (m' & -> & ? & _). Qed.

Section Apply.
Context `{A : Alsa, !AlsaOk A}.
Implicit Types (w : aworld config_mgr).

Lemma set_all_values_wp fd c vnum n v w : info_ok (info c) → (ei_type (info c) = ELEM_BYTES → ei_count (info c) <= 512) → 0 <= vnum →
  wp (set_all_values fd (Some c) vnum n v) (λ _, silent w) w.
Proof.
  intros Hi Ht. revert vnum w. induction n as [|n IH]; intros vnum w Hv; simpl; [done|]. apply wp_bind.
  eapply wp_mono; [by apply set_value_wp|]. intros r w' Hs. destruct (r <? 0); [exact Hs|].
  eapply wp_mono; [apply IH; lia|]. intros [] w'' Hs'. by transitivity w'.
Qed.

Lemma apply_ctl_wp c w : omixer_ok (cm_mixer (aobj w)) → ctl_ok (cm_mixer (aobj w)) c → ctl_id c ≠ UINT_MAX →
  wp (apply_ctl c) (λ _, quiet w) w.
Proof.
  intros Hm [Hi Hc] Hid. assert ((ctl_id c =? UINT_MAX) = false) as E by lia. rewrite E in Hc.
  destruct Hc as (ei & Hei & Ho). destruct (info_at_ok _ _ _ Hm Hei) as [Hok _].
  destruct (get_ctl_info _ _ _ Hei) as (mc & Hg & <-).
  unfold apply_ctl. apply wp_bind. apply wp_gets'. rewrite Hg. unfold opened in Ho. cbn [mixer_ctl_get_type mixer_ctl_get_num_values from_option].
  destruct (ei_type (info mc)) eqn:Et; try done.
  - destruct Ho as [u ->]. destruct (ctl_index c =? _).
    + eapply wp_mono; [apply set_all_values_wp; [done|congruence|lia]|]. intros [] w' ?. by apply silent_quiet.
    + apply wp_bind. eapply wp_mono; [apply set_value_wp; [done|congruence|lia]|]. intros r w' ?. wp_steps. by apply silent_quiet.
  - destruct Ho as [u ->]. destruct (ctl_index c =? _).
    + eapply wp_mono; [apply set_all_values_wp; [done|congruence|lia]|]. intros [] w' ?. by apply silent_quiet.
    + apply wp_bind. eapply wp_mono; [apply set_value_wp; [done|congruence|lia]|]. intros r w' ?. wp_steps. by apply silent_quiet.
  - destruct Ho as [s ->]. apply wp_bind. eapply wp_mono; [apply set_enum_wp|]. intros [r c'] w' [[Ew Pw] (c1 & Hc1 & Hinf)].
    simpl in Hc1. subst c'. destruct (cm_mixer (aobj w)) as [m|] eqn:Em; [|done].
    unfold mixer_get_ctl in Hg. simpl in Hg. destruct (ctl_id c <? blen (m_ctl m)) eqn:Elt; [|done].
    pose proof (ld_Some_bounds _ _ _ Hg) as Hb. destruct (st_in (m_ctl m) (ctl_id c) c1 Hb) as (l' & Est & _).
    apply wp_bind. eapply wp_lift_eq; [exact Est|]. wp_steps. eexists. split; [simpl; by rewrite Ew|]. simpl. rewrite Em. split; [|done].
    split; [done|]. simpl. unfold st, stn in Est. case_bool_decide; [|done]. injection Est as <-. simpl.
    rewrite list_fmap_insert, Hinf. apply list_insert_id. rewrite list_lookup_fmap. unfold ld in Hg.
    rewrite bool_decide_true in Hg by lia. by rewrite Hg.
  - destruct Ho as (d & -> & Ha & Hd & H512). destruct Hok as (H0 & H1 & Hc). pose proof (blen_nonneg d).
    destruct ((ctl_index c =? 0) && _) eqn:Ez.
    + apply wp_bind. eapply wp_mono; [apply set_array_wp; [by split_and!|lia]|]. intros r w' ?. wp_steps. by apply silent_quiet.
    + destruct (ei_count (info mc) >? _) eqn:E5; [unfold BYTE_ARRAY_MAX_SIZE in E5; lia|]. apply wp_bind.
      eapply wp_mono; [apply get_array_wp; [by split_and!|lia]|]. intros [err old] w1 [Hs Hl]. simpl in *.
      destruct (err <? 0) eqn:Ee; [wp_steps; by apply silent_quiet|]. apply wp_bind.
      destruct (ldn_in d (array_count c)) as (bs & Eb & Hbs); [lia|]. eapply wp_lift_eq; [exact Eb|]. apply wp_bind.
      specialize (Hl ltac:(lia)). unfold BYTE_ARRAY_MAX_SIZE.
      assert (blen (old ++ replicate (Z.to_nat (512 - blen old)) 0) = 512) as Hbuf.
      { unfold blen in *. rewrite length_app, length_replicate. lia. }
      destruct (stn_in (old ++ replicate (Z.to_nat (512 - blen old)) 0) bs (ctl_index c)) as (buf & Est & Hbl); [lia|lia|].
      eapply wp_lift_eq; [exact Est|]. apply wp_bind.
      eapply wp_mono; [apply set_array_wp; [by split_and!|lia]|]. intros r w' ?. wp_steps. apply silent_quiet. by transitivity w1.
Qed.

Lemma find_name_ld name l n k c : find_name name l n = Some (k, c) → ld l (k - n) = Some c ∧ n <= k.
Proof.
  revert n. induction l as [|x l IH]; intros n; simpl; [done|]. case_bool_decide.
  - intros [= <- <-]. rewrite Z.sub_diag. done.
  - intros [Hl Hk]%IH. split; [|lia]. unfold ld in *. rewrite bool_decide_true in * by lia.
    replace (Z.to_nat (k - n)) with (S (Z.to_nat (k - (n + 1)))) by lia. done.
Qed.

Lemma ctl_by_name m name c : omixer_ok m → mixer_get_ctl_by_name m name = Some c →
  info_ok (info c) ∧ mixer_ctl_get_id (Some c) ≠ UINT_MAX ∧ info_at m (mixer_ctl_get_id (Some c)) = Some (info c).
Proof.
  destruct m as [m|]; [|done]. unfold mixer_get_ctl_by_name. simpl. intros [Hl Hm].
  destruct (find_name name (m_ctl m) 0) as [[k c']|] eqn:E; [|done]. intros [= <-]. simpl.
  apply find_name_ld in E as [E Hk]. rewrite Z.sub_0_r in E. destruct (Hm _ _ E) as [Hi Hn].
  pose proof (ld_Some_bounds _ _ _ E). assert (u32 (ei_numid (info c') - 1) = k) as ->.
  { rewrite Hn. unfold u32. replace (k + 1 - 1) with k by lia. apply Z.mod_small. lia. }
  split_and!; [done|unfold UINT_MAX; lia|]. rewrite ld_fmap, E. done.
Qed.

Lemma parse_bytes_len l bs : parse_bytes l = inr bs → blen bs = blen l.
Proof.
  revert bs. induction l as [|t l IH]; intros bs; cbn [parse_bytes]; [by intros [= <-]|].
  destruct (string_to_uint (Some t)) as [e [v|]]; [|done]. destruct (parse_bytes l) as [e'|bs'] eqn:E; [done|].
  intros [= <-]. specialize (IH _ eq_refl). unfold blen in *. simpl. lia.
Qed.

Lemma ctl_open_wp {S} m c (w : aworld S) : omixer_ok m → ctl_ok m c →
  wp (ctl_open m c) (λ r (w' : aworld S), silent w w' ∧ ctl_ok m r.2 ∧ (r.1 = 0 → ctl_id r.2 ≠ UINT_MAX)) w.
Proof.
  intros Hm [Hi Hc]. unfold ctl_open. destruct (ctl_id c =? UINT_MAX) eqn:Eid.
  2:{ simpl. apply wp_ret'. split_and!; [done|split; [done|simpl; by rewrite Eid]|intros _; simpl; lia]. }
  destruct Hc as [str Hv]. cbn [negb].
  assert (ctl_ok m c) as Hcok by (split; [done|rewrite Eid; eauto]).
  destruct (mixer_get_ctl_by_name m (ctl_name c)) as [mc|] eqn:Eg.
  2:{ apply wp_ret'. split_and!; [done|done|done]. }
  destruct (ctl_by_name _ _ _ Hm Eg) as (Hok & Hid & Hat). rewrite Hv. simpl in Hid, Hat.
  assert (∀ c' t, 0 <= ctl_index c' → opened (info mc) c' →
    ctl_ok m (c' <| ctl_type := t |> <| ctl_id := mixer_ctl_get_id (Some mc) |>)) as Hdone.
  { intros c' t Hi' Ho. split; [done|]. simpl. destruct (u32 _ =? UINT_MAX) eqn:E; [lia|]. eauto. }
  unfold opened in Hdone. unfold mixer_ctl_get_type. destruct (ei_type (info mc)) eqn:Et.
  - destruct (string_to_uint (Some str)) as [e [v|]]; apply wp_ret'.
    + split_and!; [done|cbn [snd]; apply Hdone; [done|simpl; eauto]|intros _; exact Hid].
    + split_and!; [done|done|done].
  - destruct (string_to_uint (Some str)) as [e [v|]]; apply wp_ret'.
    + split_and!; [done|cbn [snd]; apply Hdone; [done|simpl; eauto]|intros _; exact Hid].
    + split_and!; [done|done|done].
  - apply wp_ret'. split_and!; [done|cbn [snd]; apply Hdone; [done|eauto]|intros _; exact Hid].
  - apply wp_bind. set (c1 := if ctl_index c =? INVALID_CTL_INDEX then c <| ctl_index := 0 |> else c).
    assert (0 <= ctl_index c1 ∧ ctl_id c1 = ctl_id c ∧ value c1 = VString str) as (Hi1 & Hid1 & Hv1)
      by (unfold c1; destruct (_ =? INVALID_CTL_INDEX); simpl; split_and!; done || lia).
    assert (∀ c', ctl_id c' = ctl_id c → value c' = VString str → 0 <= ctl_index c' → ctl_ok m c') as Hkeep.
    { intros c' E1 E2 E3. split; [done|]. rewrite E1, Eid. eauto. }
    eapply (wp_mono _ (λ r (w' : aworld S), silent w w' ∧ if r.1 =? 0 then 0 <= ctl_index r.2 ∧
      (∃ d, value r.2 = VData d ∧ array_count r.2 = blen d ∧ ctl_index r.2 + blen d <= ei_count (info mc) ∧ ei_count (info mc) <= 512)
      else ctl_ok m r.2)).
    + unfold make_byte_array. simpl. wp_steps; try (split; [done|]; simpl; apply Hkeep; done). zbool.
      destruct (parse_bytes (tokens str)) as [e|bs] eqn:Ep; (split; [done|]); simpl.
      * destruct (e =? 0) eqn:Ee; [|by apply Hkeep]. exfalso. clear -Ep Ee.
        induction (tokens str) as [|t l IH]; cbn [parse_bytes] in Ep; [done|]. unfold string_to_uint in Ep.
        destruct (strtoul t) as [v rest]. destruct (bool_decide (rest = "") && _).
        -- destruct (parse_bytes l); [|done]. apply IH. congruence.
        -- injection Ep as <-. done.
      * split; [done|]. exists bs. unfold BYTE_ARRAY_MAX_SIZE in *. rewrite (parse_bytes_len _ _ Ep). split_and!; [done|done|lia|lia].
    + intros [r c2] w' [Hs Hr]. simpl in Hr |- *. destruct (r =? 0) eqn:Er; simpl; apply wp_ret'.
      * destruct Hr as [Hi2 Hd]. split_and!; [done|cbn [snd]; by apply Hdone|intros _; exact Hid].
      * split_and!; [done|done|]. simpl. lia.
  - apply wp_ret'. split_and!; [done|done|done].
  - apply wp_ret'. split_and!; [done|done|done].
  - apply wp_ret'. split_and!; [done|done|done].
Qed.

(** Applying a list of controls is defined, keeps them well formed and has no
    other effect on the configuration. *)
Lemma apply_ctls_wp cs w : omixer_ok (cm_mixer (aobj w)) → Forall (ctl_ok (cm_mixer (aobj w))) cs →
  wp (apply_ctls_l cs) (λ cs' w', quiet w w' ∧ Forall (ctl_ok (cm_mixer (aobj w'))) cs' ∧ length cs' = length cs) w.
Proof.
  intros Hm Hcs. revert w Hm Hcs. induction cs as [|c cs IH]; intros w Hm Hcs; simpl; [done|].
  apply Forall_cons in Hcs as [Hc Hcs]. apply wp_bind, wp_gets'. apply wp_bind.
  eapply wp_mono; [by apply ctl_open_wp|]. intros [r c'] w1 (Hs & Hc' & Hr). simpl in *.
  pose proof (silent_quiet _ _ Hs) as Hq. destruct Hs as [Ew Pw].
  destruct (r =? 0) eqn:Er; simpl.
  - apply wp_bind. eapply wp_mono; [apply apply_ctl_wp; rewrite ?Ew; [done|done|apply Hr; lia]|]. intros [] w2 Hq2. apply wp_bind.
    assert (quiet w w2) as Hq02 by (by transitivity w1).
    eapply wp_mono; [apply IH|].
    + eapply omixer_ok_sim; [by apply quiet_mixer|done].
    + eapply Forall_impl; [exact Hcs|]. intros x. apply ctl_ok_sim. by apply quiet_mixer.
    + intros cs' w3 (Hq3 & Hcs' & Hl). apply wp_ret'. split_and!; [by transitivity w2| |simpl; lia].
      apply Forall_cons. split; [|done]. eapply ctl_ok_sim; [|exact Hc']. apply quiet_mixer. by transitivity w2.
  - apply wp_ret'. split_and!; [done| |done]. rewrite Ew. by apply Forall_cons.
Qed.
End Apply.
