(* ===== verification/AudioMachine.v ===== *)
(** * The abstract routing machine

    What the routing operations of the configuration manager do, without the
    controls: the reference count of each device and the sequence of paths
    applied.  The operations of [AudioConfig] implement it. *)

From S2P Require Import Prelude Monad Mixer DynArray Params AudioConfig AudioRoute.

#[local] Open Scope Z_scope.

(** ** The machine *)

(** A device: its type, its users, the identifiers of its paths. *)
Record adev := mkA { a_type : Z; a_uses : Z; a_paths : list Z }.

(** The devices and the paths applied, latest first. *)
Definition rstate : Type := list adev * list (Z * Z).

Definition a_path (i pid : Z) (R : rstate) : option rstate :=
  let '(ds, tr) := R in
  d ← ld ds i;
  if pid =? e_path_id_off then
    n ← ck32 (a_uses d - 1);
    ds ← st ds i (mkA (a_type d) n (a_paths d));
    Some (ds, if n >? 0 then tr else (i, pid) :: tr)
  else if pid =? e_path_id_on then
    n ← ck32 (a_uses d + 1);
    ds ← st ds i (mkA (a_type d) n (a_paths d));
    Some (ds, if n >? 1 then tr else (i, pid) :: tr)
  else Some (ds, (i, pid) :: tr).

Definition a_when (b : bool) (F : rstate → option rstate) (R : rstate) : option rstate := if b then F R else Some R.

Definition a_by_id (i first_id second_id : Z) (R : rstate) : option rstate :=
  d ← ld R.1 i;
  R ← a_when (bool_decide (first_id ∈ a_paths d)) (a_path i first_id) R;
  a_when (bool_decide (second_id ∈ a_paths d ∧ second_id ≠ first_id)) (a_path i second_id) R.

Fixpoint a_loop (n : nat) (i devices input_flag first_id second_id : Z) (R : rstate) : option rstate :=
  match n with
  | O => Some R
  | S n' =>
      if devices =? 0 then Some R else
      d ← ld R.1 i;
      if (Z.land (a_type d) input_flag =? input_flag) && negb (Z.land (a_type d) devices =? 0) then
        R ← a_by_id i first_id second_id R;
        a_loop n' (i + 1) (Z.ldiff devices (a_type d)) input_flag first_id second_id R
      else a_loop n' (i + 1) devices input_flag first_id second_id R
  end.

Definition a_to_devices `{!AudioH} (devices first_id second_id : Z) (R : rstate) : option rstate :=
  a_loop (length R.1) 0 (Z.ldiff devices BIT_IN) (Z.land devices BIT_IN) first_id second_id R.

Fixpoint a_find_global (ds : list adev) (i : Z) : option Z :=
  match ds with [] => None | d :: ds' => if a_type d =? 0 then Some i else a_find_global ds' (i + 1) end.

Definition a_to_global (first_id second_id : Z) (R : rstate) : option rstate :=
  match a_find_global R.1 0 with Some i => a_by_id i first_id second_id R | None => Some R end.

(** ** The configuration as a state of the machine *)

Definition view_dev (d : device) : adev := mkA (dev_type d) (use_count d) (path_id <$> elems (path_array d)).
Definition view (w : aworld config_mgr) : rstate := (view_dev <$> elems (device_array (aobj w)), paths (acalls w)).

Definition path_ok (m : option mixer) (p : path) : Prop := Forall (ctl_ok m) (elems (ctl_array p)).
Definition dev_ok (m : option mixer) (d : device) : Prop := Forall (path_ok m) (elems (path_array d)).
(** A volume control is absent, or a control of the card. *)
Definition vol_ok (m : option mixer) (v : stream_control) : Prop :=
  sc_id v = UINT_MAX ∨ 0 <= sc_index v ∧ is_Some (info_at m (sc_id v)).
Definition stream_ok (m : option mixer) (s : stream) : Prop :=
  vol_ok m (volume_left s) ∧ vol_ok m (volume_right s) ∧
  Forall (λ u, Forall (λ c, Forall (ctl_ok m) (elems (case_ctls c))) (elems (case_array u))) (elems (usecase_array s)).

(** Every control of the configuration is well formed. *)
Record cm_ok (cm : config_mgr) : Prop := {
  cm_ok_mixer : omixer_ok (cm_mixer cm);
  cm_ok_devs : Forall (dev_ok (cm_mixer cm)) (elems (device_array cm));
  cm_ok_strs : Forall (stream_ok (cm_mixer cm)) (elems (stream_array cm)) }.

Lemma path_ok_sim m m' p : mixer_sim m m' → path_ok m p → path_ok m' p.
Proof. intros Hs H. eapply Forall_impl; [exact H|]. intros c. by apply ctl_ok_sim. Qed.
Lemma dev_ok_sim m m' d : mixer_sim m m' → dev_ok m d → dev_ok m' d.
Proof. intros Hs H. eapply Forall_impl; [exact H|]. intros c. by apply path_ok_sim. Qed.
Lemma stream_ok_sim m m' s : mixer_sim m m' → stream_ok m s → stream_ok m' s.
Proof.
  intros Hs (Hl & Hr & H). split_and!; [unfold vol_ok; by rewrite (mixer_sim_info m m')..|].
  eapply Forall_impl; [exact H|]. intros u Hu. eapply Forall_impl; [exact Hu|].
  intros c Hc. eapply Forall_impl; [exact Hc|]. intros x. by apply ctl_ok_sim.
Qed.

Lemma cm_ok_quiet w w' : quiet w w' → cm_ok (aobj w) → cm_ok (aobj w').
Proof.
  intros (m' & -> & Hs & _) []. split; simpl.
  - by eapply omixer_ok_sim.
  - eapply Forall_impl; [done|]. intros d. by apply dev_ok_sim.
  - eapply Forall_impl; [done|]. intros s. by apply stream_ok_sim.
Qed.

(** What the operations on devices leave alone. *)
Definition frame (w w' : aworld config_mgr) : Prop :=
  stream_array (aobj w') = stream_array (aobj w) ∧
  supported_output_devices (aobj w') = supported_output_devices (aobj w) ∧
  supported_input_devices (aobj w') = supported_input_devices (aobj w).

#[export] Instance frame_preorder : PreOrder frame.
Proof. split; [by intros w; split_and!|]. intros w1 w2 w3 (? & ? & ?) (? & ? & ?). split_and!; congruence. Qed.

Lemma quiet_frame w w' : quiet w w' → frame w w'.
Proof. intros (m' & E & _ & _). unfold frame. by rewrite E. Qed.
Lemma quiet_view w w' : quiet w w' → view w' = view w.
Proof. intros (m' & E & _ & P). unfold view. by rewrite E, P. Qed.

(** A computation that does what a function of the machine does. *)
Definition implements (m : ST (aworld config_mgr) ()) (F : rstate → option rstate) : Prop :=
  ∀ w R, cm_ok (aobj w) → F (view w) = Some R → wp m (λ _ w', cm_ok (aobj w') ∧ frame w w' ∧ view w' = R) w.

Lemma implements_ret : implements (mret ()) Some.
Proof. intros w R Hw [= <-]. by apply wp_ret'. Qed.

Lemma implements_seq m1 F1 m2 F2 : implements m1 F1 → implements m2 F2 → implements (m1;; m2) (λ R, F1 R ≫= F2).
Proof.
  intros H1 H2 w R Hw E. apply bind_Some in E as (R1 & E1 & E2). apply wp_bind.
  eapply wp_mono; [by apply H1|]. intros [] w1 (Hw1 & Hf & <-). eapply wp_mono; [by apply H2|].
  intros [] w2 (? & ? & ?). split_and!; [done|by transitivity w1|done].
Qed.

(** ** The operations on devices implement the machine *)

Lemma arena_insert_Some {B} (l : list B) i x : 0 <= i < blen l → st l i x = Some (<[Z.to_nat i := x]> l).
Proof. intros H. unfold st, stn. rewrite bool_decide_true by (unfold blen in *; simpl; lia). done. Qed.

Lemma arena_lookup_Some {B} (l : list B) i x : ld l i = Some x → l !! Z.to_nat i = Some x.
Proof. unfold ld. by case_bool_decide. Qed.

Lemma ld_insert_ne {B} (l : list B) i j x : 0 <= i → i ≠ j → ld (<[Z.to_nat i := x]> l) j = ld l j.
Proof. intros Hi Hne. unfold ld. case_bool_decide; [|done]. apply list_lookup_insert_ne. lia. Qed.
Lemma ld_insert_eq {B} (l : list B) i x y : ld l i = Some y → ld (<[Z.to_nat i := x]> l) i = Some x.
Proof.
  intros H. pose proof (ld_Some_bounds _ _ _ H). unfold ld, blen in *. rewrite bool_decide_true by lia. apply list_lookup_insert_eq. lia.
Qed.

Lemma Forall_ld {B} (P : B → Prop) l k x : Forall P l → ld l k = Some x → P x.
Proof. intros HF Hx%arena_lookup_Some. by eapply Forall_lookup_1. Qed.

Lemma ld_view w i d : ld (elems (device_array (aobj w))) i = Some d → ld (view w).1 i = Some (view_dev d).
Proof. intros H. unfold view. simpl. by rewrite ld_fmap, H. Qed.

Lemma ld_view_inv w i a : ld (view w).1 i = Some a → ∃ d, ld (elems (device_array (aobj w))) i = Some d ∧ view_dev d = a.
Proof. unfold view. simpl. rewrite ld_fmap. destruct (ld _ i) as [d|]; [|done]. intros [= <-]. eauto. Qed.

Lemma get_device_wp i d (Q : device → aworld config_mgr → Prop) w :
  ld (elems (device_array (aobj w))) i = Some d → Q d w → wp (get_device i) Q w.
Proof. intros E HQ. unfold get_device, getC. wp_steps. by eapply wp_lift_eq. Qed.

(** Two worlds agree up to the new value of device [i]. *)
Definition with_device (i : Z) (d : device) (w w' : aworld config_mgr) : Prop :=
  frame w w' ∧ cm_mixer (aobj w') = cm_mixer (aobj w) ∧ acalls w' = acalls w ∧
  elems (device_array (aobj w')) = <[Z.to_nat i := d]> (elems (device_array (aobj w))).

Lemma set_device_wp i d w : 0 <= i < blen (elems (device_array (aobj w))) → wp (set_device i d) (λ _, with_device i d w) w.
Proof.
  intros Hi. unfold set_device, getC, updC. wp_steps. eapply wp_lift_eq; [unfold set_elem; by rewrite arena_insert_Some|]. wp_steps. by split_and!.
Qed.

Lemma with_device_ok i d w w' : with_device i d w w' → cm_ok (aobj w) → dev_ok (cm_mixer (aobj w)) d → cm_ok (aobj w').
Proof.
  intros ((Es & _) & Em & _ & Ed) [] Hd. split; rewrite ?Em, ?Es; [done| |done]. rewrite Ed. by apply Forall_insert.
Qed.

Lemma with_device_view i d w w' : with_device i d w w' → view w' = (<[Z.to_nat i := view_dev d]> (view w).1, (view w).2).
Proof. intros (_ & _ & Ec & Ed). unfold view. rewrite Ec, Ed. by rewrite list_fmap_insert. Qed.

(** The steps of the machine keep the types and the paths. *)
Definition shape (ds : list adev) : list (Z * list Z) := (λ a, (a_type a, a_paths a)) <$> ds.

Lemma shape_ld ds ds' i a : shape ds' = shape ds → ld ds i = Some a → ∃ a', ld ds' i = Some a' ∧ a_type a' = a_type a ∧ a_paths a' = a_paths a.
Proof.
  intros E H. assert (ld (shape ds') i = Some (a_type a, a_paths a)) as H' by (rewrite E; unfold shape; by rewrite ld_fmap, H).
  unfold shape in H'. rewrite ld_fmap in H'. destruct (ld ds' i) as [a'|]; [|done]. injection H' as ??. eauto.
Qed.

Lemma shape_update ds i a n : ld ds i = Some a → shape (<[Z.to_nat i := mkA (a_type a) n (a_paths a)]> ds) = shape ds.
Proof. intros H%arena_lookup_Some. unfold shape. rewrite list_fmap_insert. apply list_insert_id. by rewrite list_lookup_fmap, H. Qed.

Lemma a_path_shape i pid R R' : a_path i pid R = Some R' → shape R'.1 = shape R.1.
Proof.
  destruct R as [ds tr]. unfold a_path. destruct (ld ds i) as [a|] eqn:E; [|done]. cbn [mbind option_bind].
  pose proof (ld_Some_bounds _ _ _ E). pose proof (λ n, shape_update ds i a n E) as Hs.
  destruct (pid =? _); [|destruct (pid =? _); [|by intros [= <-]]].
  all: destruct (ck32 _) as [n|]; [|done]; cbn [mbind option_bind]; rewrite arena_insert_Some by done; intros [= <-]; apply Hs.
Qed.

(** The walk over the paths finds positions of the two identifiers. *)
Lemma find_paths_sound ids ps k a b f0 f1 :
  (∀ n p, ps !! n = Some p → ld ids (k + Z.of_nat n) = Some (path_id p)) →
  (∀ j, f0 = Some j → ld ids j = Some a) → (∀ j, f1 = Some j → ld ids j = Some b) →
  (∀ j, (find_paths ps k a b f0 f1).1 = Some j → ld ids j = Some a) ∧
  (∀ j, (find_paths ps k a b f0 f1).2 = Some j → ld ids j = Some b).
Proof.
  revert k f0 f1. induction ps as [|p ps IH]; intros k f0 f1 Hps H0 H1; cbn [find_paths]; [done|].
  assert (ld ids k = Some (path_id p)) as Hp by (rewrite <- (Hps O p eq_refl); f_equal; lia).
  assert (∀ n x, ps !! n = Some x → ld ids (k + 1 + Z.of_nat n) = Some (path_id x)) as Hps'
    by (intros n x Hx; rewrite <- (Hps (S n) x Hx); f_equal; lia).
  destruct (path_id p =? a) eqn:Ea; [|destruct (path_id p =? b) eqn:Eb; [|by apply IH]].
  - assert (∀ j, Some k = Some j → ld ids j = Some a) by (intros j [= <-]; rewrite Hp; f_equal; lia).
    destruct (_ || _); [done|by apply IH].
  - assert (∀ j, Some k = Some j → ld ids j = Some b) by (intros j [= <-]; rewrite Hp; f_equal; lia).
    case_bool_decide; [done|by apply IH].
Qed.

(** It finds each that is there; the second only when it differs. *)
Lemma find_paths_complete ps k a b f0 f1 :
  (is_Some (find_paths ps k a b f0 f1).1 ↔ is_Some f0 ∨ a ∈ path_id <$> ps) ∧
  (is_Some (find_paths ps k a b f0 f1).2 ↔ is_Some f1 ∨ b ∈ path_id <$> ps ∧ b ≠ a).
Proof.
  revert k f0 f1. induction ps as [|p ps IH]; intros k f0 f1; cbn [find_paths].
  { cbn. rewrite !elem_of_nil. tauto. }
  rewrite fmap_cons, !elem_of_cons. assert (∀ j : Z, is_Some (Some j)) as HS by eauto. specialize (HS k).
  destruct (path_id p =? a) eqn:Ea; [|destruct (path_id p =? b) eqn:Eb].
  - apply Z.eqb_eq in Ea. assert (a = path_id p) by done. destruct (bool_decide (is_Some f1)) eqn:E1; [apply bool_decide_eq_true in E1; cbn [orb fst snd]; split; [split; [intros _; right; by left|done]|split; [by left|done]]|].
    apply bool_decide_eq_false in E1. destruct (a =? b) eqn:Eab; cbn [orb fst snd]; [split; [tauto|]; split; [tauto|]; intros [?|[_ ?]]; [done|lia]|].
    destruct (IH (k + 1) (Some k) f1) as [-> ->]. assert (a ≠ b) by lia. split; [tauto|].
    split; [tauto|]. intros [?|[[->|?] ?]]; [tauto|congruence|tauto].
  - apply Z.eqb_neq in Ea. apply Z.eqb_eq in Eb. assert (b = path_id p) by done. case_bool_decide; cbn [fst snd].
    + split; [tauto|]. split; [|done]. intros _. right. split; [by left|congruence].
    + destruct (IH (k + 1) f0 (Some k)) as [-> ->]. split; [split; [tauto|]; intros [?|[->|?]]; [tauto|done|tauto]|].
      split; [|tauto]. intros _. right. split; [by left|congruence].
  - apply Z.eqb_neq in Ea, Eb. destruct (IH (k + 1) f0 f1) as [-> ->]. split; (split; [tauto|]).
    + intros [?|[->|?]]; [tauto|done|tauto].
    + intros [?|[[->|?] ?]]; [tauto|done|tauto].
Qed.

Section Implement.
Context `{A : Alsa, !AlsaOk A}.

Lemma apply_path_wp i j d p w : cm_ok (aobj w) →
  ld (elems (device_array (aobj w))) i = Some d → ld (elems (path_array d)) j = Some p →
  wp (apply_path_l i j) (λ _ w', cm_ok (aobj w') ∧ frame w w' ∧ view w' = ((view w).1, (i, path_id p) :: (view w).2)) w.
Proof.
  intros Hw Hd Hp. unfold apply_path_l. apply wp_bind. eapply get_device_wp; [done|]. apply wp_bind. eapply wp_lift_eq; [done|].
  unfold log_path. wp_steps. set (w1 := AWorld (aobj w) (APath i (path_id p) :: acalls w)).
  pose proof Hw as [Hm Hds Hss]. pose proof (ld_Some_bounds _ _ _ Hd) as Hbi. pose proof (ld_Some_bounds _ _ _ Hp) as Hbj.
  apply arena_lookup_Some in Hd, Hp. pose proof (Forall_lookup_1 _ _ _ _ Hds Hd) as Hdok. pose proof (Forall_lookup_1 _ _ _ _ Hdok Hp) as Hpok.
  eapply wp_mono; [by apply (apply_ctls_wp _ w1)|]. intros cs w2 (Hq & Hcs & Hl). apply wp_bind.
  eapply wp_lift_eq; [unfold set_elem; by rewrite arena_insert_Some|].
  pose proof (quiet_frame _ _ Hq) as Hf. pose proof (quiet_view _ _ Hq) as Hv. pose proof (cm_ok_quiet _ _ Hq Hw) as Hw2.
  assert (device_array (aobj w2) = device_array (aobj w)) as Ed by (destruct Hq as (m' & -> & _ & _); done).
  eapply wp_mono; [apply set_device_wp; by rewrite Ed|]. intros [] w3 Hwd. split_and!.
  - eapply with_device_ok; [done|done|]. apply Forall_insert; [|done].
    eapply Forall_impl; [exact Hdok|]. intros x. apply path_ok_sim. by apply (quiet_mixer w1).
  - transitivity w2; [exact Hf|]. by destruct Hwd.
  - rewrite (with_device_view _ _ _ _ Hwd), Hv. unfold view. simpl. f_equal. apply list_insert_id.
    rewrite list_lookup_fmap, Hd. simpl. f_equal. unfold view_dev. simpl. f_equal. rewrite list_fmap_insert. simpl. symmetry. apply list_insert_id.
    by rewrite list_lookup_fmap, Hp.
Qed.

Lemma apply_device_path_wp i j a pid w R : cm_ok (aobj w) → ld (view w).1 i = Some a → ld (a_paths a) j = Some pid →
  a_path i pid (view w) = Some R → wp (apply_device_path_l i j) (λ _ w', cm_ok (aobj w') ∧ frame w w' ∧ view w' = R) w.
Proof.
  intros Hw Hi Hj HR. apply ld_view_inv in Hi as (d & Hd & <-). cbn [view_dev a_paths] in Hj. rewrite ld_fmap in Hj.
  destruct (ld (elems (path_array d)) j) as [p|] eqn:Hp; [|done]. injection Hj as <-.
  pose proof (ld_Some_bounds _ _ _ Hd) as Hbi. pose proof (ld_view _ _ _ Hd) as Hv.
  pose proof (arena_lookup_Some _ _ _ Hd) as Hdl. pose proof (Forall_lookup_1 _ _ _ _ (cm_ok_devs _ Hw) Hdl) as Hdok.
  unfold apply_device_path_l. apply wp_bind. eapply get_device_wp; [done|]. apply wp_bind. eapply wp_lift_eq; [done|].
  unfold a_path in HR. rewrite (surjective_pairing (view w)), Hv in HR. cbn [mbind option_bind view_dev a_uses a_type a_paths] in HR.
  assert (0 <= i < blen (view w).1) as Hbv by (by apply ld_Some_bounds in Hv).
  assert (∀ n (P : Prop) (b : bool) R, (b = true → R = (<[Z.to_nat i:=mkA (dev_type d) n (path_id <$> elems (path_array d))]> (view w).1, (view w).2)) →
     (b = false → R = (<[Z.to_nat i:=mkA (dev_type d) n (path_id <$> elems (path_array d))]> (view w).1, (i, path_id p) :: (view w).2)) →
     wp (set_device i (d <| use_count := n |>);; if b then mret () else apply_path_l i j)
       (λ _ w', cm_ok (aobj w') ∧ frame w w' ∧ view w' = R) w) as Hstep.
  { intros n P b R' Ht Hf. apply wp_bind. eapply wp_mono; [by apply set_device_wp|]. intros [] w1 Hwd.
    pose proof (with_device_view _ _ _ _ Hwd) as Hv1. pose proof (with_device_ok _ _ _ _ Hwd Hw Hdok) as Hw1.
    destruct Hwd as (Hf1 & _ & _ & Ed). destruct b.
    - apply wp_ret'. split_and!; [done|done|]. rewrite Ht by done. exact Hv1.
    - eapply wp_mono; [apply (apply_path_wp i j (d <| use_count := n |>) p); [done| |exact Hp]|].
      + rewrite Ed. unfold ld. rewrite bool_decide_true by lia. rewrite list_lookup_insert_eq; [done|]. unfold blen in *. lia.
      + intros [] w2 (? & ? & Hv2). split_and!; [done|by transitivity w1|]. rewrite Hf by done. by rewrite Hv2, Hv1. }
  destruct (path_id p =? e_path_id_off) eqn:E0; [|destruct (path_id p =? e_path_id_on) eqn:E1].
  - destruct (ck32 _) as [n|] eqn:En; [|done]. cbn [mbind option_bind] in HR. rewrite arena_insert_Some in HR by done. injection HR as <-.
    apply wp_bind. eapply wp_lift_eq; [done|]. apply (Hstep n True); by intros ->.
  - destruct (ck32 _) as [n|] eqn:En; [|done]. cbn [mbind option_bind] in HR. rewrite arena_insert_Some in HR by done. injection HR as <-.
    apply wp_bind. eapply wp_lift_eq; [done|]. apply (Hstep n True); by intros ->.
  - injection HR as <-. by eapply apply_path_wp.
Qed.

Lemma apply_opt_wp i g c (b : bool) a w R : cm_ok (aobj w) → ld (view w).1 i = Some a →
  (∀ j, g = Some j → ld (a_paths a) j = Some c) → (is_Some g ↔ b = true) →
  a_when b (a_path i c) (view w) = Some R → wp (apply_opt i g) (λ _ w', cm_ok (aobj w') ∧ frame w w' ∧ view w' = R) w.
Proof.
  intros Hw Ha Hg Hb HR. destruct g as [j|]; simpl.
  - assert (b = true) as -> by (apply Hb; eauto). by eapply apply_device_path_wp; [done|done|apply Hg|].
  - destruct b; [destruct Hb as [_ Hb]; by destruct (Hb eq_refl)|]. injection HR as <-. by apply wp_ret'.
Qed.

Lemma apply_paths_by_id_implements i first_id second_id : implements (apply_paths_by_id_l i first_id second_id) (a_by_id i first_id second_id).
Proof.
  intros w R Hw HR. unfold a_by_id in HR. destruct (ld (view w).1 i) as [a|] eqn:Ha; [|done]. cbn [mbind option_bind] in HR.
  apply bind_Some in HR as (R1 & HR1 & HR2). destruct (ld_view_inv _ _ _ Ha) as (d & Hd & <-).
  unfold apply_paths_by_id_l. apply wp_bind. eapply get_device_wp; [done|].
  pose proof (find_paths_sound (path_id <$> elems (path_array d)) (elems (path_array d)) 0 first_id second_id None None) as Hs.
  pose proof (find_paths_complete (elems (path_array d)) 0 first_id second_id None None) as Hc.
  destruct (find_paths _ _ _ _ _ _) as [g0 g1]. cbn [fst snd] in Hs, Hc. destruct Hs as [S0 S1]; [|done|done|].
  { intros n p Hp. unfold ld. rewrite bool_decide_true by lia. rewrite Z.add_0_l, Nat2Z.id, list_lookup_fmap, Hp. done. }
  destruct Hc as [C0 C1]. assert (¬ is_Some (@None Z)) as HN by (by intros [? ?]). cbn [view_dev a_paths] in *.
  apply wp_bind. eapply wp_mono; [eapply apply_opt_wp; [done|done|exact S0| |exact HR1]|].
  { rewrite bool_decide_eq_true. tauto. }
  intros [] w1 (Hw1 & Hf1 & E1). subst R1.
  assert (shape (view w1).1 = shape (view w).1) as Hsh by (unfold a_when in HR1; destruct (bool_decide _); [by apply a_path_shape in HR1|congruence]).
  destruct (shape_ld _ _ _ _ Hsh Ha) as (a1 & Ha1 & _ & Hp1).
  eapply wp_mono; [eapply apply_opt_wp; [done|exact Ha1|rewrite Hp1; exact S1| |exact HR2]|].
  { rewrite bool_decide_eq_true. tauto. }
  intros [] w2 (? & ? & ?). split_and!; [done|by transitivity w1|done].
Qed.

Context `{!AudioH}.

Lemma devices_loop_implements n i devices flag first_id second_id :
  implements (devices_loop n i devices flag first_id second_id) (a_loop n i devices flag first_id second_id).
Proof.
  revert i devices. induction n as [|n IH]; intros i devices w R Hw HR; cbn [a_loop devices_loop] in *; [by apply implements_ret|].
  destruct (devices =? 0); [by apply implements_ret|].
  destruct (ld (view w).1 i) as [a|] eqn:Ha; [|done]. cbn [mbind option_bind] in HR. destruct (ld_view_inv _ _ _ Ha) as (d & Hd & <-).
  apply wp_bind. eapply get_device_wp; [done|]. cbn [view_dev a_type] in HR.
  destruct (_ && _); [|by apply IH]. by apply (implements_seq _ _ _ _ (apply_paths_by_id_implements i first_id second_id) (IH _ _)).
Qed.

Lemma apply_paths_to_devices_implements devices first_id second_id :
  implements (apply_paths_to_devices_l devices first_id second_id) (a_to_devices devices first_id second_id).
Proof.
  intros w R Hw HR. unfold apply_paths_to_devices_l, getC. wp_steps. apply devices_loop_implements; [done|].
  unfold a_to_devices in HR. cbn [view fst] in HR. by rewrite length_fmap in HR.
Qed.

Lemma find_global_view ds i : a_find_global (view_dev <$> ds) i = find_global ds i.
Proof. revert i. induction ds as [|d ds IH]; intros i; [done|]. cbn. by rewrite IH. Qed.

Lemma apply_paths_to_global_implements first_id second_id :
  implements (apply_paths_to_global_l first_id second_id) (a_to_global first_id second_id).
Proof.
  intros w R Hw HR. unfold apply_paths_to_global_l, getC. wp_steps; unfold a_to_global in HR; cbn [view fst] in HR;
    rewrite find_global_view in HR; rewrite Heqo in HR.
  - by apply apply_paths_by_id_implements.
  - by apply implements_ret.
Qed.
End Implement.
