(* ===== verification/AudioRouteSpec.v ===== *)
(** * Routing keeps the devices powered exactly while they are used

    The invariant of the configuration manager's reference counts: the use
    count of a device is the number of streams routed to it, that of the
    global device the number of open streams, and the on and off paths of a
    device are applied in turn, on last exactly while the count is positive. *)

From S2P Require Import Prelude Monad Mixer DynArray Params AudioConfig AudioRoute AudioMachine.

#[local] Open Scope Z_scope.

(** ** One device *)

(** The on and off paths of device [i], latest first. *)
Definition switches (i : Z) (tr : list (Z * Z)) : list Z :=
  omap (λ '(j, pid), if (j =? i) && ((pid =? e_path_id_on) || (pid =? e_path_id_off)) then Some pid else None) tr.

(** On and off in turn, on first. *)
Fixpoint alternating (l : list Z) : Prop :=
  match l with
  | [] => True
  | x :: l' => x = (if bool_decide (head l' = Some e_path_id_on) then e_path_id_off else e_path_id_on) ∧ alternating l'
  end.

Definition counted (ids : list Z) : Prop := e_path_id_on ∈ ids.
Definition balanced (ids : list Z) : Prop := e_path_id_on ∈ ids ↔ e_path_id_off ∈ ids.

(** Device [i] is in the state for [n] users. *)
Definition tally (R : rstate) (i n : Z) : Prop := ∃ a, ld R.1 i = Some a ∧ balanced (a_paths a) ∧
  (counted (a_paths a) → a_uses a = n) ∧ alternating (switches i R.2) ∧
  (head (switches i R.2) = Some e_path_id_on ↔ counted (a_paths a) ∧ 0 < n).

Lemma tally_any R i n m a : ld R.1 i = Some a → ¬ counted (a_paths a) → tally R i n → tally R i m.
Proof. intros Ha Hc (a' & Ha' & Hb & _ & Halt & Hh). rewrite Ha in Ha'. injection Ha' as <-. exists a. split_and!; [done|done|done|done|tauto]. Qed.

Definition delta (pid : Z) : Z := if pid =? e_path_id_on then 1 else if pid =? e_path_id_off then -1 else 0.

(** A step on device [i] does not touch the others. *)
Definition others (i : Z) (R R' : rstate) : Prop := shape R'.1 = shape R.1 ∧ ∀ j m, j ≠ i → tally R j m → tally R' j m.

#[export] Instance others_preorder i : PreOrder (others i).
Proof. split; [by split|]. intros R1 R2 R3 [E1 H1] [E2 H2]. split; [congruence|auto]. Qed.

Lemma switches_other i j pid tr : j ≠ i → switches j ((i, pid) :: tr) = switches j tr.
Proof. intros H. unfold switches. simpl. destruct (Z.eqb_spec i j); [lia|done]. Qed.

Lemma a_path_tally i pid n R a : ld R.1 i = Some a → pid ∈ a_paths a → tally R i n → 0 <= n → 0 <= n + delta pid <= INT_MAX →
  ∃ R', a_path i pid R = Some R' ∧ tally R' i (n + delta pid) ∧ others i R R'.
Proof.
  destruct R as [ds tr]. cbn [fst]. intros Ha Hin (a' & Ha' & Hb & Hu & Halt & Hh) H0 Hn. cbn [fst snd] in *. rewrite Ha in Ha'. injection Ha' as <-.
  pose proof (ld_Some_bounds _ _ _ Ha) as Hi. unfold a_path. rewrite Ha. cbn [mbind option_bind]. unfold delta in *.
  assert (∀ n' tr', (∀ j, j ≠ i → switches j tr' = switches j tr) → others i (ds, tr) (<[Z.to_nat i := mkA (a_type a) n' (a_paths a)]> ds, tr')) as Ho.
  { intros n' tr' Htr. split; [by apply shape_update|]. intros j m Hj (b & Hjb & ?). exists b. cbn [fst snd] in *.
    rewrite ld_insert_ne, Htr by lia. done. }
  destruct (pid =? e_path_id_off) eqn:E0; [|destruct (pid =? e_path_id_on) eqn:E1].
  - assert (pid = e_path_id_off) as -> by lia. cbn [Z.eqb e_path_id_off e_path_id_on] in *.
    assert (counted (a_paths a)) as Hc by (by apply Hb). specialize (Hu Hc).
    rewrite ck32_Some by (unfold INT_MIN, INT_MAX in *; lia). cbn [mbind option_bind]. rewrite arena_insert_Some by done. cbn [mbind option_bind].
    eexists. split; [done|]. split; [|apply Ho; intros j Hj; destruct (_ >? 0); [done|by apply switches_other]].
    eexists. split; [by eapply ld_insert_eq|]. cbn [a_paths a_uses fst snd]. destruct (a_uses a - 1 >? 0) eqn:Eg.
    + split_and!; [done|lia|done|]. rewrite Hh. intuition lia.
    + unfold switches in *. cbn [omap list_omap]. rewrite Z.eqb_refl. cbn [andb orb Z.eqb e_path_id_off e_path_id_on].
      split_and!; [done|lia| |].
      * cbn [alternating]. split; [|done]. rewrite bool_decide_true; [done|]. apply Hh. split; [done|lia].
      * cbn. split; [done|]. intros [_ ?]. lia.
  - assert (pid = e_path_id_on) as -> by lia.
    assert (counted (a_paths a)) as Hc by done. specialize (Hu Hc).
    rewrite ck32_Some by (unfold INT_MIN, INT_MAX in *; lia). cbn [mbind option_bind]. rewrite arena_insert_Some by done. cbn [mbind option_bind].
    eexists. split; [done|]. split; [|apply Ho; intros j Hj; destruct (_ >? 1); [done|by apply switches_other]].
    eexists. split; [by eapply ld_insert_eq|]. cbn [a_paths a_uses fst snd]. destruct (a_uses a + 1 >? 1) eqn:Eg.
    + split_and!; [done|lia|done|]. rewrite Hh. intuition lia.
    + unfold switches in *. cbn [omap list_omap]. rewrite Z.eqb_refl. cbn [andb orb Z.eqb e_path_id_off e_path_id_on Pos.eqb].
      split_and!; [done|lia| |].
      * cbn [alternating]. split; [|done]. rewrite bool_decide_false; [done|]. intros [_ ?]%Hh. lia.
      * cbn. split; [|done]. intros _. split; [done|lia].
  - eexists. split; [done|]. assert (switches i ((i, pid) :: tr) = switches i tr) as Es.
    { unfold switches. cbn [omap list_omap]. rewrite Z.eqb_refl, E0, E1. done. }
    split.
    + exists a. cbn [fst snd]. rewrite Es, Z.add_0_r. done.
    + split; [done|]. intros j m Hj (b & Hjb & ?). exists b. cbn [fst snd] in *. by rewrite switches_other.
Qed.

(** A request for two paths: [c], one of the counted ones, and not its opposite. *)
Definition request (c first_id second_id : Z) : Prop :=
  (c = e_path_id_on ∨ c = e_path_id_off) ∧ (first_id = c ∨ second_id = c) ∧ first_id ≠ 1 - c ∧ second_id ≠ 1 - c.

Lemma delta_other c pid : c = e_path_id_on ∨ c = e_path_id_off → pid ≠ c → pid ≠ 1 - c → delta pid = 0.
Proof.
  unfold delta, e_path_id_on, e_path_id_off. intros [-> | ->] ??; destruct (Z.eqb_spec pid 1), (Z.eqb_spec pid 0); lia.
Qed.

Lemma a_when_tally i pid n R a (b : bool) : ld R.1 i = Some a → (b = true → pid ∈ a_paths a) → tally R i n → 0 <= n →
  (b = true → 0 <= n + delta pid <= INT_MAX) →
  ∃ R', a_when b (a_path i pid) R = Some R' ∧ tally R' i (if b then n + delta pid else n) ∧ others i R R'.
Proof. intros Ha Hb Ht H0 Hn. destruct b; simpl; [eapply a_path_tally; eauto|]. exists R. done. Qed.

Lemma a_by_id_tally c first_id second_id i n R : request c first_id second_id → tally R i n →
  0 <= n <= INT_MAX → 0 <= n + delta c <= INT_MAX →
  ∃ R', a_by_id i first_id second_id R = Some R' ∧ tally R' i (n + delta c) ∧ others i R R'.
Proof.
  intros (Hc & Hor & H1 & H2) Ht H0 Hn. pose proof Ht as (a & Ha & Hb & _). unfold a_by_id. rewrite Ha. cbn [mbind option_bind].
  pose proof (delta_other c first_id Hc) as D1. pose proof (delta_other c second_id Hc) as D2.
  assert (c ∈ a_paths a ↔ counted (a_paths a)) as Hcc by (destruct Hc as [-> | ->]; [done|symmetry; apply Hb]).
  assert (∀ n', 0 <= n' → ¬ counted (a_paths a) → tally R i n') as Hany by (intros; by eapply tally_any).
  set (b1 := bool_decide (first_id ∈ a_paths a)). set (b2 := bool_decide (second_id ∈ a_paths a ∧ second_id ≠ first_id)).
  assert (b1 = true → first_id ∈ a_paths a) as Hb1 by (by intros ?%bool_decide_eq_true).
  assert (b2 = true → second_id ∈ a_paths a ∧ second_id ≠ first_id) as Hb2 by (by intros ?%bool_decide_eq_true).
  assert ((b1 = true → first_id = c → 0 <= n + delta first_id <= INT_MAX)) as Hr1 by (intros _ ->; done).
  destruct (a_when_tally i first_id n R a b1) as (R1 & E1 & T1 & O1); [done|done|done|lia| |].
  { intros _. destruct (decide (first_id = c)) as [->|]; [done|]. rewrite D1 by done. lia. }
  rewrite E1. cbn [mbind option_bind]. destruct (shape_ld _ _ _ _ (proj1 O1) Ha) as (a1 & Ha1 & _ & Hp1).
  destruct (a_when_tally i second_id (if b1 then n + delta first_id else n) R1 a1 b2) as (R2 & E2 & T2 & O2); [done| |done| | |].
  { rewrite Hp1. intros ?. by apply Hb2. }
  { destruct b1; [|lia]. destruct (decide (first_id = c)) as [->|]; [lia|]. rewrite D1 by done. lia. }
  { intros B2. apply Hb2 in B2 as [_ Hne]. destruct (decide (second_id = c)) as [->|].
    - rewrite D1 by done. destruct b1; lia.
    - rewrite D2 by done. destruct b1; [|lia]. destruct (decide (first_id = c)) as [->|]; [lia|rewrite D1 by done; lia]. }
  rewrite E2. exists R2. split; [done|]. split; [|by transitivity R1].
  destruct (shape_ld _ _ _ _ (proj1 O2) Ha1) as (a2 & Ha2 & _ & Hp2). rewrite Hp1 in Hp2.
  destruct (decide (counted (a_paths a))) as [Hcnt|Hcnt]; [|eapply tally_any; [exact Ha2|by rewrite Hp2|exact T2]].
  replace (n + delta c) with (if b2 then (if b1 then n + delta first_id else n) + delta second_id else (if b1 then n + delta first_id else n)); [done|].
  apply Hcc in Hcnt. destruct (decide (first_id = c)) as [->|Hf].
  - assert (b1 = true) as -> by (by apply bool_decide_eq_true). destruct b2; [|done]. rewrite D2; [lia| |done]. by apply Hb2.
  - destruct Hor as [?| ->]; [done|]. rewrite D1 by done. assert (b2 = true) as -> by (apply bool_decide_eq_true; done). destruct b1; lia.
Qed.

(** ** All devices *)

Class AudioHOk (H : AudioH) : Prop := {
  BIT_IN_31 : BIT_IN = 2 ^ 31;
  OUT_ALL_31 : Z.testbit OUT_ALL 31 = false }.

Section Devices.
Context `{H : AudioH, !AudioHOk H}.

Definition bit_of (t : Z) : Z := Z.log2 (Z.ldiff t BIT_IN).
Definition is_in (t : Z) : bool := Z.testbit t 31.

(** A device stands for one bit of the masks of its direction. *)
Definition type_wf (t : Z) : Prop :=
  Z.ldiff t BIT_IN = 2 ^ bit_of t ∧ Z.testbit (if is_in t then IN_ALL else OUT_ALL) (bit_of t) = true.

(** The devices of a configuration, as types and path identifiers: distinct
    bits, and an off path wherever there is an on path. *)
Record layout_wf (sh : list (Z * list Z)) : Prop := {
  lw_type : ∀ j t ids, ld sh j = Some (t, ids) → t ≠ 0 → type_wf t;
  lw_bits : ∀ i j t t' ids ids', ld sh i = Some (t, ids) → ld sh j = Some (t', ids') → t ≠ 0 → t' ≠ 0 → i ≠ j → bit_of t ≠ bit_of t';
  lw_balanced : ∀ j t ids, ld sh j = Some (t, ids) → balanced ids }.

Definition hit (flag devices t : Z) : bool := (Z.land t flag =? flag) && negb (Z.land t devices =? 0).

Lemma bit_in n : 0 <= n → Z.testbit BIT_IN n = (31 =? n).
Proof. intros Hn. rewrite BIT_IN_31. by rewrite Z.pow2_bits_eqb. Qed.

Lemma land_low t devices : type_wf t → Z.testbit devices 31 = false → (Z.land t devices =? 0) = negb (Z.testbit devices (bit_of t)).
Proof.
  intros [Hlow _] H31. assert (0 <= bit_of t) as Hk by (apply Z.log2_nonneg).
  assert (∀ n, 0 <= n → n ≠ 31 → Z.testbit t n = (bit_of t =? n)) as Ht.
  { intros n Hn Hne. rewrite <- (Z.pow2_bits_eqb (bit_of t)) by done. rewrite <- Hlow, Z.ldiff_spec, bit_in by done.
    destruct (Z.eqb_spec 31 n); [lia|]. by rewrite andb_true_r. }
  assert (bit_of t ≠ 31) as Hne.
  { intros E. assert (Z.testbit (Z.ldiff t BIT_IN) 31 = true) as Hx by (rewrite Hlow, E; done).
    rewrite Z.ldiff_spec, bit_in in Hx by lia. by rewrite andb_false_r in Hx. }
  destruct (Z.testbit devices (bit_of t)) eqn:E; simpl.
  - apply Z.eqb_neq. intros E0. assert (Z.testbit (Z.land t devices) (bit_of t) = true) as Hx
      by (rewrite Z.land_spec, E, Ht by done; by rewrite Z.eqb_refl). rewrite E0, Z.bits_0 in Hx. done.
  - apply Z.eqb_eq. apply Z.bits_inj'. intros n Hn. rewrite Z.land_spec, Z.bits_0.
    destruct (decide (n = 31)) as [->|]; [rewrite H31; apply andb_false_r|]. rewrite Ht by done.
    destruct (Z.eqb_spec (bit_of t) n) as [<-|]; [by rewrite E|done].
Qed.

Lemma hit_0 flag devices : hit flag devices 0 = false.
Proof. unfold hit. rewrite !Z.land_0_l. apply andb_false_r. Qed.

(** Taking away the bit of another device changes nothing. *)
Lemma hit_ldiff flag devices t t' : type_wf t → type_wf t' → Z.testbit devices 31 = false → bit_of t ≠ bit_of t' →
  hit flag (Z.ldiff devices t') t = hit flag devices t.
Proof.
  intros Ht Ht' H31 Hne. unfold hit. f_equal. f_equal.
  rewrite !land_low by (done || (rewrite Z.ldiff_spec, H31; done)). f_equal. rewrite Z.ldiff_spec.
  assert (0 <= bit_of t ∧ 0 <= bit_of t') as [? ?] by (split; apply Z.log2_nonneg). destruct Ht' as [Hl _].
  destruct (Z.testbit devices (bit_of t)) eqn:E; [|done]. simpl.
  assert (bit_of t ≠ 31) by congruence.
  assert (Z.testbit (Z.ldiff t' BIT_IN) (bit_of t) = false) as Hx by (rewrite Hl, Z.pow2_bits_eqb by done; lia).
  rewrite Z.ldiff_spec, bit_in in Hx by done. destruct (Z.eqb_spec 31 (bit_of t)); [lia|]. rewrite andb_true_r in Hx. by rewrite Hx.
Qed.

Lemma shape_ld_inv R j t ids : ld (shape R) j = Some (t, ids) → ∃ a, ld R j = Some a ∧ a_type a = t ∧ a_paths a = ids.
Proof. unfold shape. rewrite ld_fmap. destruct (ld R j) as [a|]; [|done]. intros [= <- <-]. eauto. Qed.

Section Layout.
Variable sh : list (Z * list Z).
Hypothesis Hsh : layout_wf sh.

(** Every device is in the state for its number of users. *)
Definition tallies (R : rstate) (N : Z → Z) : Prop := shape R.1 = sh ∧ ∀ j, 0 <= j < blen sh → tally R j (N j).

Lemma tallies_ext R N N' : (∀ j, 0 <= j < blen sh → N j = N' j) → tallies R N → tallies R N'.
Proof. intros E [Hs HT]. split; [done|]. intros j Hj. rewrite <- E by done. by apply HT. Qed.

Lemma tallies_by_id c first_id second_id i R N : request c first_id second_id → tallies R N → 0 <= i < blen sh →
  0 <= N i <= INT_MAX → 0 <= N i + delta c <= INT_MAX →
  ∃ R', a_by_id i first_id second_id R = Some R' ∧ tallies R' (λ j, if j =? i then N j + delta c else N j).
Proof.
  intros Hr [Hs HT] Hi H0 H1. destruct (a_by_id_tally c first_id second_id i (N i) R) as (R' & E & T & Es & Ho); [done|by apply HT|done|done|].
  exists R'. split; [done|]. split; [congruence|]. intros j Hj. destruct (Z.eqb_spec j i) as [->|]; [done|]. by apply Ho, HT.
Qed.

Lemma a_loop_tally c first_id second_id flag : request c first_id second_id → ∀ n i devices R N,
  Z.testbit devices 31 = false → 0 <= i → i + Z.of_nat n = blen sh → tallies R N →
  (∀ j t ids, ld sh j = Some (t, ids) → hit flag devices t = true → 0 <= N j <= INT_MAX ∧ 0 <= N j + delta c <= INT_MAX) →
  ∃ R', a_loop n i devices flag first_id second_id R = Some R' ∧
    tallies R' (λ j, N j + if (i <=? j) && from_option (λ d, hit flag devices d.1) false (ld sh j) then delta c else 0).
Proof.
  intros Hr. induction n as [|n IH]; intros i devices R N H31 Hi Hn HT HN; cbn [a_loop].
  { exists R. split; [done|]. eapply tallies_ext; [|exact HT]. intros j Hj. simpl. destruct (Z.leb_spec i j); [lia|]. simpl. lia. }
  destruct (Z.eqb_spec devices 0) as [->|Hd].
  { exists R. split; [done|]. eapply tallies_ext; [|exact HT]. intros j Hj. simpl.
    assert (∀ t, hit flag 0 t = false) as H0 by (intros; unfold hit; rewrite Z.land_0_r; apply andb_false_r).
    destruct (ld sh j); simpl; rewrite ?H0, andb_false_r; lia. }
  destruct (ld_lt sh i) as [[t ids] Hld]; [lia|]. pose proof HT as [Hs _]. rewrite <- Hs in Hld.
  destruct (shape_ld_inv _ _ _ _ Hld) as (a & -> & <- & <-). cbn [mbind option_bind]. rewrite Hs in Hld.
  change ((Z.land (a_type a) flag =? flag) && negb (Z.land (a_type a) devices =? 0)) with (hit flag devices (a_type a)).
  destruct (hit flag devices (a_type a)) eqn:Eh.
  - assert (a_type a ≠ 0) as Hne by (intros E0; by rewrite E0, hit_0 in Eh).
    destruct (HN _ _ _ Hld Eh) as [HN0 HN1].
    destruct (tallies_by_id c first_id second_id i R N) as (R1 & E1 & T1); [done|done|lia|done|done|].
    rewrite E1. cbn [mbind option_bind].
    assert (∀ j t' ids', ld sh j = Some (t', ids') → j ≠ i → hit flag (Z.ldiff devices (a_type a)) t' = hit flag devices t') as Hh.
    { intros j t' ids' Hj Hji. destruct (decide (t' = 0)) as [->|]; [by rewrite !hit_0|].
      apply hit_ldiff; [by eapply lw_type|by eapply lw_type|done|]. by eapply (lw_bits _ Hsh j i). }
    assert (hit flag (Z.ldiff devices (a_type a)) (a_type a) = false) as Hself.
    { pose proof (lw_type _ Hsh _ _ _ Hld Hne) as Hw. unfold hit. rewrite land_low by (done || by rewrite Z.ldiff_spec, H31).
      rewrite Z.ldiff_spec. destruct (Z.testbit (a_type a) (bit_of (a_type a))) eqn:Et; [by rewrite !andb_false_r|].
      destruct Hw as [Hl _]. assert (0 <= bit_of (a_type a)) by apply Z.log2_nonneg.
      assert (Z.testbit (Z.ldiff (a_type a) BIT_IN) (bit_of (a_type a)) = true) as Hx by (by rewrite Hl, Z.pow2_bits_true).
      rewrite Z.ldiff_spec, Et in Hx. done. }
    destruct (IH (i + 1) (Z.ldiff devices (a_type a)) R1 _ ltac:(by rewrite Z.ldiff_spec, H31) ltac:(lia) ltac:(lia) T1) as (R2 & E2 & T2).
    { intros j t' ids' Hj Hj'. destruct (Z.eqb_spec j i) as [->|Hji]; [congruence|]. rewrite (Hh _ _ _ Hj Hji) in Hj'. by eapply HN. }
    exists R2. split; [done|]. eapply tallies_ext; [|exact T2]. intros j Hj. simpl. destruct (ld_lt sh j Hj) as [[t' ids'] Ej].
    rewrite Ej. simpl. destruct (Z.eqb_spec j i) as [->|Hji].
    + assert (t' = a_type a) as -> by congruence. rewrite Eh. destruct (Z.leb_spec (i + 1) i), (Z.leb_spec i i); simpl; lia.
    + rewrite (Hh _ _ _ Ej Hji). destruct (Z.leb_spec (i + 1) j), (Z.leb_spec i j); simpl; lia.
  - destruct (IH (i + 1) devices R N H31 ltac:(lia) ltac:(lia) HT HN) as (R2 & E2 & T2). exists R2. split; [done|].
    eapply tallies_ext; [|exact T2]. intros j Hj. simpl. destruct (Z.eqb_spec j i) as [->|Hji].
    + rewrite Hld. simpl. rewrite Eh, !andb_false_r. done.
    + destruct (Z.leb_spec (i + 1) j), (Z.leb_spec i j); simpl; lia || done.
Qed.

(** A mask names device [j]. *)
Definition on_mask (m j : Z) : bool := from_option (λ d : Z * list Z, negb (d.1 =? 0) && Z.testbit m (bit_of d.1)) false (ld sh j).

(** It names devices of one direction only. *)
Definition names (inp : bool) (m : Z) : Prop :=
  ∀ j t ids, ld sh j = Some (t, ids) → t ≠ 0 → Z.testbit m (bit_of t) = true → is_in t = inp.
Definition fits (inp : bool) (m : Z) : Prop := (Z.testbit m 31 = true → inp = true) ∧ names inp m.

Lemma fits_sub inp m m' : (∀ b, Z.testbit m' b = true → Z.testbit m b = true) → fits inp m → fits inp m'.
Proof. intros Hs [H1 H2]. split; [auto|]. intros j t ids Hj Ht Hb. eauto. Qed.

Lemma land_bit_in m : Z.land m BIT_IN = if Z.testbit m 31 then BIT_IN else 0.
Proof.
  apply Z.bits_inj'. intros n Hn. rewrite Z.land_spec, bit_in by done. destruct (Z.eqb_spec 31 n) as [<-|Hne].
  - rewrite andb_true_r. destruct (Z.testbit m 31); [by rewrite bit_in|by rewrite Z.bits_0].
  - rewrite andb_false_r. destruct (Z.testbit m 31); [rewrite bit_in by done; lia|by rewrite Z.bits_0].
Qed.

Lemma bit_of_31 t : type_wf t → 0 <= bit_of t ∧ bit_of t ≠ 31.
Proof.
  intros [Hlow _]. split; [apply Z.log2_nonneg|]. intros E. assert (Z.testbit (Z.ldiff t BIT_IN) 31 = true) as Hx by (rewrite Hlow, E; done).
  rewrite Z.ldiff_spec, bit_in in Hx by lia. by rewrite andb_false_r in Hx.
Qed.

Lemma bit_in_0 : BIT_IN ≠ 0.
Proof. by rewrite BIT_IN_31. Qed.

Lemma hit_mask inp m j t ids : fits inp m → ld sh j = Some (t, ids) →
  hit (Z.land m BIT_IN) (Z.ldiff m BIT_IN) t = on_mask m j.
Proof.
  intros [H31 Hm] Hj. unfold on_mask. rewrite Hj. simpl. destruct (Z.eqb_spec t 0) as [->|Hne]; [by rewrite hit_0|]. simpl.
  pose proof (lw_type _ Hsh _ _ _ Hj Hne) as Hw. destruct (bit_of_31 t Hw) as [Hb0 Hb]. unfold hit.
  assert (Z.testbit (Z.ldiff m BIT_IN) 31 = false) as Hx by (rewrite Z.ldiff_spec, bit_in by lia; by rewrite andb_false_r).
  rewrite land_low by done. rewrite negb_involutive, Z.ldiff_spec, bit_in by done.
  destruct (Z.eqb_spec 31 (bit_of t)); [lia|]. rewrite andb_true_r. destruct (Z.testbit m (bit_of t)) eqn:E; [|apply andb_false_r].
  rewrite andb_true_r. rewrite land_bit_in. destruct (Z.testbit m 31) eqn:E31; [|by rewrite Z.land_0_r].
  specialize (Hm _ _ _ Hj Hne E). rewrite H31 in Hm by done. unfold is_in in Hm. rewrite land_bit_in, Hm. apply Z.eqb_refl.
Qed.

Lemma to_devices_tally c first_id second_id inp m R N : request c first_id second_id → fits inp m → tallies R N →
  (∀ j, 0 <= j < blen sh → on_mask m j = true → 0 <= N j <= INT_MAX ∧ 0 <= N j + delta c <= INT_MAX) →
  ∃ R', a_to_devices m first_id second_id R = Some R' ∧ tallies R' (λ j, N j + if on_mask m j then delta c else 0).
Proof.
  intros Hr Hm HT HN. unfold a_to_devices. destruct HT as [Hs HT].
  assert (Z.of_nat (length R.1) = blen sh) as Hlen by (rewrite <- Hs; unfold blen, shape; by rewrite length_fmap).
  destruct (a_loop_tally c first_id second_id (Z.land m BIT_IN) Hr (length R.1) 0 (Z.ldiff m BIT_IN) R N) as (R' & E & T).
  - rewrite Z.ldiff_spec, bit_in by lia. by rewrite andb_false_r.
  - done.
  - lia.
  - done.
  - intros j t ids Hj Hh. rewrite (hit_mask inp m j t ids) in Hh by done. apply HN; [by apply ld_Some_bounds in Hj|done].
  - exists R'. split; [done|]. eapply tallies_ext; [|exact T]. intros j Hj. simpl. destruct (ld_lt sh j Hj) as [[t ids] Ej].
    rewrite Ej. simpl. rewrite (hit_mask inp m j t ids) by done. destruct (Z.leb_spec 0 j); [done|lia].
Qed.

(** ** Streams *)

Fixpoint count (P : stream → bool) (ss : list stream) : Z :=
  match ss with [] => 0 | s :: ss' => (if P s then 1 else 0) + count P ss' end.

Lemma count_bounds P ss : 0 <= count P ss <= blen ss.
Proof. unfold blen. induction ss as [|s ss IH]; simpl; [lia|]. destruct (P s); lia. Qed.

Lemma count_update P ss k s s' : ss !! k = Some s →
  count P (<[k := s']> ss) = count P ss + (if P s' then 1 else 0) - (if P s then 1 else 0).
Proof.
  revert k. induction ss as [|x ss IH]; intros k Hk; [done|]. destruct k as [|k]; simpl in *; [injection Hk as <-; lia|].
  rewrite (IH _ Hk). lia.
Qed.

Fixpoint global_at (l : list (Z * list Z)) (i : Z) : option Z :=
  match l with [] => None | d :: l' => if d.1 =? 0 then Some i else global_at l' (i + 1) end.

(** The streams that use device [j]: those routed to it, or for the global
    device those that are open. *)
Definition users (ss : list stream) (j : Z) : Z :=
  match ld sh j with
  | None => 0
  | Some (t, _) =>
      if t =? 0 then (if bool_decide (global_at sh 0 = Some j) then count (λ s, 0 <? ref_count s) ss else 0)
      else count (λ s, Z.testbit (current_devices s) (bit_of t)) ss
  end.

Record stream_wf (s : stream) : Prop := {
  sw_enable : enable_path s ≠ e_path_id_off;
  sw_disable : disable_path s ≠ e_path_id_on;
  sw_refs : 0 <= ref_count s <= max_ref_count s;
  sw_max : max_ref_count s <= INT_MAX;
  sw_current : fits (stream_is_input (s_info s)) (current_devices s) }.

Lemma users_bounds ss j : 0 <= users ss j <= blen ss.
Proof.
  unfold users. pose proof (blen_nonneg ss). destruct (ld sh j) as [[t ids]|]; [|lia]. repeat case_match; try lia; apply count_bounds.
Qed.

Lemma users_current ss k s m j : ss !! k = Some s →
  users (<[k := s <| current_devices := m |>]> ss) j =
  users ss j + (if on_mask m j then 1 else 0) - (if on_mask (current_devices s) j then 1 else 0).
Proof.
  intros Hk. unfold users, on_mask. destruct (ld sh j) as [[t ids]|]; simpl; [|lia]. destruct (Z.eqb_spec t 0) as [->|]; simpl.
  - case_bool_decide; [|lia]. rewrite (count_update _ _ _ _ _ Hk). simpl. lia.
  - by rewrite (count_update _ _ _ _ _ Hk).
Qed.

(** ** The operations keep the invariant *)

Context `{A : Alsa, !AlsaOk A}.

Abbreviation streams w := (elems (stream_array (aobj w))).

Record Inv (w : aworld config_mgr) : Prop := {
  inv_ok : cm_ok (aobj w);
  inv_tallies : tallies (view w) (users (streams w));
  inv_streams : Forall stream_wf (streams w);
  inv_len : blen (streams w) <= INT_MAX }.

Lemma to_devices_wp c first_id second_id inp m w N : request c first_id second_id → fits inp m → cm_ok (aobj w) → tallies (view w) N →
  (∀ j, 0 <= j < blen sh → on_mask m j = true → 0 <= N j <= INT_MAX ∧ 0 <= N j + delta c <= INT_MAX) →
  wp (apply_paths_to_devices_l m first_id second_id)
    (λ _ w', cm_ok (aobj w') ∧ frame w w' ∧ tallies (view w') (λ j, N j + if on_mask m j then delta c else 0)) w.
Proof.
  intros Hr Hm Hw HT HN. destruct (to_devices_tally c first_id second_id inp m _ N Hr Hm HT HN) as (R & E & T).
  eapply wp_mono; [by apply (apply_paths_to_devices_implements _ _ _ w R)|]. intros [] w' (? & ? & <-). done.
Qed.

Lemma find_global_shape ds i : a_find_global ds i = global_at (shape ds) i.
Proof. revert i. induction ds as [|d ds IH]; intros i; [done|]. cbn. by rewrite IH. Qed.

Lemma global_at_ld l i j : global_at l i = Some j → i <= j ∧ ∃ ids, ld l (j - i) = Some (0, ids).
Proof.
  revert i. induction l as [|[t ids] l IH]; intros i; simpl; [done|]. destruct (Z.eqb_spec t 0) as [->|].
  - intros [= <-]. rewrite Z.sub_diag. split; [lia|]. by exists ids.
  - intros [Hj (ids' & Hl)]%IH. split; [lia|]. exists ids'. unfold ld in *. rewrite bool_decide_true in * by lia.
    replace (Z.to_nat (j - i)) with (S (Z.to_nat (j - (i + 1)))) by lia. done.
Qed.

Lemma to_global_wp c first_id second_id w N : request c first_id second_id → cm_ok (aobj w) → tallies (view w) N →
  (∀ j, global_at sh 0 = Some j → 0 <= N j <= INT_MAX ∧ 0 <= N j + delta c <= INT_MAX) →
  wp (apply_paths_to_global_l first_id second_id) (λ _ w', cm_ok (aobj w') ∧ frame w w' ∧
    tallies (view w') (λ j, N j + if bool_decide (global_at sh 0 = Some j) then delta c else 0)) w.
Proof.
  intros Hr Hw HT HN. pose proof (proj1 HT) as Hs.
  assert (∃ R, a_to_global first_id second_id (view w) = Some R ∧
    tallies R (λ j, N j + if bool_decide (global_at sh 0 = Some j) then delta c else 0)) as (R & E & T).
  { unfold a_to_global. rewrite find_global_shape, Hs. destruct (global_at sh 0) as [g|] eqn:Eg.
    - destruct (global_at_ld _ _ _ Eg) as [Hg (ids & Hl)]. rewrite Z.sub_0_r in Hl. destruct (HN g eq_refl).
      destruct (tallies_by_id c first_id second_id g (view w) N) as (R & E & T); [done|done|by apply ld_Some_bounds in Hl|done|done|].
      exists R. split; [done|]. eapply tallies_ext; [|exact T]. intros j Hj. simpl.
      destruct (Z.eqb_spec j g) as [->|]; [by rewrite bool_decide_true|rewrite bool_decide_false by congruence; lia].
    - eexists. split; [done|]. eapply tallies_ext; [|exact HT]. intros j Hj. simpl. lia. }
  eapply wp_mono; [by apply (apply_paths_to_global_implements _ _ w R)|]. intros [] w' (? & ? & <-). done.
Qed.

Lemma get_str_wp k s (Q : stream → aworld config_mgr → Prop) w : ld (streams w) k = Some s → Q s w → wp (get_str k) Q w.
Proof. intros E HQ. unfold get_str, getC. wp_steps. by eapply wp_lift_eq. Qed.

Definition with_stream (k : Z) (s : stream) (w w' : aworld config_mgr) : Prop :=
  streams w' = <[Z.to_nat k := s]> (streams w) ∧ view w' = view w ∧
  (cm_ok (aobj w) → stream_ok (cm_mixer (aobj w)) s → cm_ok (aobj w')).

Lemma set_str_wp k s w : 0 <= k < blen (streams w) → wp (set_str k s) (λ _, with_stream k s w) w.
Proof.
  intros Hk. unfold set_str, getC, updC. wp_steps. eapply wp_lift_eq; [unfold set_elem; by rewrite arena_insert_Some|]. wp_steps.
  split_and!; [done|done|]. intros [] Hs. split; simpl; [done|done|]. by apply Forall_insert.
Qed.

Lemma on_mask_land m m' j : on_mask (Z.land m m') j = on_mask m j && on_mask m' j.
Proof.
  unfold on_mask. destruct (ld sh j) as [[t ids]|]; [|done]. simpl. rewrite Z.land_spec. destruct (t =? 0); done.
Qed.
Lemma on_mask_ldiff m m' j : on_mask (Z.ldiff m m') j = on_mask m j && negb (on_mask m' j).
Proof.
  unfold on_mask. destruct (ld sh j) as [[t ids]|]; [|done]. simpl. rewrite Z.ldiff_spec. destruct (t =? 0); done.
Qed.

(** What is stored names the same devices as what was asked for. *)
Lemma route_mask_names s m m' : names (stream_is_input (s_info s)) m → route_mask s m = Some m' →
  fits (stream_is_input (s_info s)) m ∧ fits (stream_is_input (s_info s)) m' ∧ ∀ j, on_mask m' j = on_mask m j.
Proof.
  intros Hm. unfold route_mask. set (inp := stream_is_input (s_info s)) in *.
  assert (∀ all b, (∀ j t ids, ld sh j = Some (t, ids) → t ≠ 0 → Z.testbit m (bit_of t) = true → Z.testbit all (bit_of t) = true) →
    (b = 0 ∨ b = BIT_IN) → (∀ j t ids, ld sh j = Some (t, ids) → t ≠ 0 →
      Z.testbit (Z.lor (Z.land m all) b) (bit_of t) = Z.testbit m (bit_of t))) as Hbit.
  { intros all b Hall Hb j t ids Hj Ht. rewrite Z.lor_spec, Z.land_spec.
    destruct (bit_of_31 t (lw_type _ Hsh _ _ _ Hj Ht)) as [Hb0 Hb31].
    assert (Z.testbit b (bit_of t) = false) as -> by (destruct Hb as [->| ->]; [apply Z.bits_0|rewrite bit_in by done; lia]).
    rewrite orb_false_r. destruct (Z.testbit m (bit_of t)) eqn:E; [|done]. by rewrite (Hall _ _ _ Hj Ht). }
  assert (∀ m', (∀ j t ids, ld sh j = Some (t, ids) → t ≠ 0 → Z.testbit m' (bit_of t) = Z.testbit m (bit_of t)) →
    names inp m' ∧ ∀ j, on_mask m' j = on_mask m j) as Hsame.
  { intros m1 H1. split; [intros j t ids Hj Ht; rewrite (H1 _ _ _ Hj Ht); by eapply Hm|]. intros j. unfold on_mask.
    destruct (ld sh j) as [[t ids]|] eqn:Ej; [|done]. simpl. destruct (Z.eqb_spec t 0); [done|]. simpl. by eapply H1. }
  destruct (Z.eqb_spec m 0) as [->|Hne].
  { intros [= <-]. split_and!; [|split|done]; [split; [by rewrite Z.bits_0|done]|by rewrite Z.bits_0|done]. }
  rewrite land_bit_in. destruct (Z.testbit m 31) eqn:E31.
  - rewrite (proj2 (Z.eqb_neq BIT_IN 0) bit_in_0). simpl. destruct inp; [|done]. intros [= <-].
    destruct (Hsame (Z.lor (Z.land m IN_ALL) BIT_IN)) as [? ?]; [|split_and!; [split; [by rewrite E31|done]|by split|done]].
    apply Hbit; [|by right]. intros j t ids Hj Ht E. destruct (lw_type _ Hsh _ _ _ Hj Ht) as [_ HA]. by rewrite (Hm _ _ _ Hj Ht E) in HA.
  - simpl. destruct inp; [done|]. intros [= <-].
    destruct (Hsame (Z.land m OUT_ALL)) as [? ?]; [|split_and!; [split; [by rewrite E31|done]|split; [by rewrite Z.land_spec, OUT_ALL_31, andb_false_r|done]|done]].
    rewrite <- (Z.lor_0_r (Z.land m OUT_ALL)). apply Hbit; [|by left]. intros j t ids Hj Ht E.
    destruct (lw_type _ Hsh _ _ _ Hj Ht) as [_ HA]. by rewrite (Hm _ _ _ Hj Ht E) in HA.
Qed.

Lemma request_on e : e ≠ e_path_id_off → request e_path_id_on e_path_id_on e.
Proof. intros. split_and!; [by left|by left|done|done]. Qed.
Lemma request_off d : d ≠ e_path_id_on → request e_path_id_off e_path_id_off d ∧ request e_path_id_off d e_path_id_off.
Proof. intros. split; (split_and!; [by right|auto|done|done]). Qed.

Lemma cm_stream_ok k s w : cm_ok (aobj w) → ld (streams w) k = Some s → stream_ok (cm_mixer (aobj w)) s.
Proof. intros Hw Hk. eapply Forall_ld; [by apply cm_ok_strs|exact Hk]. Qed.

Lemma Inv_with_stream k s s' w w' : with_stream k s' w w' → ld (streams w) k = Some s → cm_ok (aobj w) →
  (stream_ok (cm_mixer (aobj w)) s → stream_ok (cm_mixer (aobj w)) s') → Forall stream_wf (streams w) → stream_wf s' → blen (streams w) <= INT_MAX →
  tallies (view w) (users (<[Z.to_nat k := s']> (streams w))) → Inv w'.
Proof.
  intros (Es & Ev & Hok) Hk Hw Hs HF Hs' Hl HT. split.
  - apply Hok; [done|]. apply Hs. by eapply cm_stream_ok.
  - by rewrite Es, Ev.
  - rewrite Es. by apply Forall_insert.
  - rewrite Es. unfold blen in *. by rewrite length_insert.
Qed.

(** The streams after a request to route stream [k]. *)
Definition routed (k m : Z) (ss : list stream) : list stream :=
  match ld ss k with
  | Some s => match route_mask s m with Some m' => <[Z.to_nat k := s <| current_devices := m' |>]> ss | None => ss end
  | None => ss
  end.

Lemma apply_route_wp k m s w : Inv w → ld (streams w) k = Some s → names (stream_is_input (s_info s)) m →
  wp (apply_route k m) (λ _ w', Inv w' ∧ streams w' = routed k m (streams w)) w.
Proof.
  intros HI Hk Hm. unfold routed. rewrite Hk. pose proof HI as [Hw HT HF Hl]. pose proof (Forall_ld _ _ _ _ HF Hk) as Hs.
  unfold apply_route. apply wp_bind. eapply get_str_wp; [done|].
  destruct (route_mask s m) as [m'|] eqn:Er; [|by apply wp_ret']. destruct (route_mask_names s m m' Hm Er) as (Hf & Hf' & Hon).
  set (cur := current_devices s). pose proof (arena_lookup_Some _ _ _ Hk) as Hkl.
  set (ss1 := <[Z.to_nat k := s <| current_devices := Z.land cur m |>]> (streams w)).
  set (ss2 := <[Z.to_nat k := s <| current_devices := m' |>]> (streams w)).
  assert (blen ss1 = blen (streams w) ∧ blen ss2 = blen (streams w)) as [L1 L2] by (unfold ss1, ss2, blen; by rewrite !length_insert).
  assert (∀ j, users ss1 j = users (streams w) j + (if on_mask (Z.ldiff cur m) j then -1 else 0)) as U1.
  { intros j. unfold ss1. rewrite (users_current _ _ _ _ _ Hkl), on_mask_land, on_mask_ldiff. fold cur. destruct (on_mask cur j), (on_mask m j); simpl; lia. }
  assert (∀ j, users ss2 j = users ss1 j + (if on_mask (Z.ldiff m cur) j then 1 else 0)) as U2.
  { intros j. unfold ss1, ss2. rewrite !(users_current _ _ _ _ _ Hkl), Hon, on_mask_land, on_mask_ldiff. fold cur. destruct (on_mask cur j), (on_mask m j); simpl; lia. }
  pose proof (users_bounds (streams w)) as B0. pose proof (users_bounds ss1) as B1. pose proof (users_bounds ss2) as B2.
  rewrite L1 in B1. rewrite L2 in B2. apply wp_bind.
  eapply wp_mono; [apply (to_devices_wp e_path_id_off _ _ (stream_is_input (s_info s)) _ w (users (streams w)))|].
  - by apply request_off, sw_disable.
  - eapply fits_sub; [|apply Hs]. intros b. rewrite Z.ldiff_spec. fold cur. by intros [? _]%andb_true_iff.
  - done.
  - done.
  - intros j Hj Ho. specialize (U1 j). specialize (B0 j). specialize (B1 j). rewrite Ho in U1. change (delta e_path_id_off) with (-1). lia.
  - intros [] w1 (Hw1 & Hf1 & T1). change (delta e_path_id_off) with (-1) in T1.
    assert (tallies (view w1) (users ss1)) as T1' by (eapply tallies_ext; [|exact T1]; intros j _; simpl; symmetry; apply U1). apply wp_bind.
    eapply wp_mono; [apply (to_devices_wp e_path_id_on _ _ (stream_is_input (s_info s)) _ w1 (users ss1))|].
    + by apply request_on, sw_enable.
    + eapply fits_sub; [|exact Hf]. intros b. rewrite Z.ldiff_spec. by intros [? _]%andb_true_iff.
    + done.
    + done.
    + intros j Hj Ho. specialize (U2 j). specialize (B1 j). specialize (B2 j). rewrite Ho in U2. change (delta e_path_id_on) with 1. lia.
    + intros [] w2 (Hw2 & Hf2 & T2). change (delta e_path_id_on) with 1 in T2.
      assert (stream_array (aobj w2) = stream_array (aobj w)) as Ess by (destruct Hf1, Hf2; congruence).
      apply wp_bind. eapply get_str_wp; [rewrite Ess; exact Hk|].
      eapply wp_mono; [apply set_str_wp; rewrite Ess; by apply ld_Some_bounds in Hk|]. intros [] w3 H3.
      split; [|destruct H3 as [-> _]; by rewrite Ess].
      eapply Inv_with_stream; [exact H3|rewrite Ess; exact Hk|done|done|by rewrite Ess| |by rewrite Ess|].
      * destruct Hs. by split.
      * rewrite Ess. eapply tallies_ext; [|exact T2]. intros j _. simpl. symmetry. apply U2.
Qed.

Abbreviation is_global j := (bool_decide (global_at sh 0 = Some j)).

Lemma users_refs ss k s n j : ss !! k = Some s →
  users (<[k := s <| ref_count := n |>]> ss) j =
  users ss j + (if is_global j then (if 0 <? n then 1 else 0) - (if 0 <? ref_count s then 1 else 0) else 0).
Proof.
  intros Hk. unfold users. destruct (ld sh j) as [[t ids]|] eqn:Ej.
  - destruct (Z.eqb_spec t 0) as [->|Hne].
    + case_bool_decide; [|lia]. rewrite (count_update _ _ _ _ _ Hk). simpl. lia.
    + rewrite (count_update _ _ _ _ _ Hk). simpl. case_bool_decide as Eg; [|lia].
      apply global_at_ld in Eg as [_ (ids' & El)]. rewrite Z.sub_0_r, Ej in El. congruence.
  - case_bool_decide as Eg; [|lia]. apply global_at_ld in Eg as [_ (ids' & El)]. rewrite Z.sub_0_r, Ej in El. congruence.
Qed.

(** Stream [k] with one more user. *)
Definition opened_at (k : Z) (s : stream) (ss : list stream) : list stream :=
  <[Z.to_nat k := s <| ref_count := ref_count s + 1 |>]> ss.

Lemma open_stream_wp k s w : Inv w → ld (streams w) k = Some s →
  wp (open_stream_l k) (λ ok w', Inv w' ∧ ok = (ref_count s <? max_ref_count s) ∧
    streams w' = if ok then opened_at k s (streams w) else streams w) w.
Proof.
  intros HI Hk. pose proof HI as [Hw HT HF Hl]. pose proof (Forall_ld _ _ _ _ HF Hk) as Hs. pose proof (arena_lookup_Some _ _ _ Hk) as Hkl.
  pose proof (sw_refs _ Hs) as Hr. pose proof (sw_max _ Hs) as Hmax.
  unfold open_stream_l. apply wp_bind. eapply get_str_wp; [done|]. destruct (Z.ltb_spec (ref_count s) (max_ref_count s)) as [Hlt|]; [|by apply wp_ret'].
  apply wp_bind. eapply wp_mono; [apply set_str_wp; by apply ld_Some_bounds in Hk|]. intros [] w1 H1.
  set (ss1 := opened_at k s (streams w)). pose proof H1 as (Es & Ev & Hok). fold (opened_at k s (streams w)) in Es. fold ss1 in Es.
  assert (stream_wf (s <| ref_count := ref_count s + 1 |>)) as Hs' by (destruct Hs; split; simpl; done || lia).
  assert (cm_ok (aobj w1)) as Hw1 by (apply Hok; [done|exact (cm_stream_ok _ _ _ Hw Hk)]).
  assert (∀ j, users ss1 j = users (streams w) j + (if is_global j then if ref_count s + 1 =? 1 then 1 else 0 else 0)) as U.
  { intros j. unfold ss1, opened_at. rewrite (users_refs _ _ _ _ _ Hkl). destruct (is_global j); [|lia].
    destruct (Z.ltb_spec 0 (ref_count s + 1)), (Z.ltb_spec 0 (ref_count s)), (Z.eqb_spec (ref_count s + 1) 1); lia. }
  assert (Forall stream_wf (streams w1)) as HF1 by (rewrite Es; by apply Forall_insert).
  assert (blen (streams w1) <= INT_MAX) as Hl1 by (rewrite Es; unfold blen, ss1, opened_at in *; by rewrite length_insert).
  apply wp_bind. apply wp_when'; intros E1.
  - rewrite E1 in U. pose proof (users_bounds (streams w)) as B0. pose proof (users_bounds ss1) as B1. rewrite <- Es in B1.
    eapply wp_mono; [apply (to_global_wp e_path_id_on _ _ w1 (users (streams w)))|].
    + by apply request_on, sw_enable.
    + done.
    + by rewrite Ev.
    + intros j Hg. specialize (U j). specialize (B0 j). specialize (B1 j). rewrite Hg, bool_decide_true in U by done.
      change (delta e_path_id_on) with 1. rewrite <- Es in U. lia.
    + intros [] w2 (Hw2 & (Ess & _) & T2). apply wp_ret'. rewrite Ess, Es. split; [|done]. split; rewrite ?Ess; [done| |done|done].
      rewrite Es. eapply tallies_ext; [|exact T2]. intros j _. simpl. symmetry. apply U.
  - rewrite E1 in U. apply wp_ret'. split; [|done]. split; [done| |done|done]. rewrite Ev, Es.
    eapply tallies_ext; [|exact HT]. intros j _. rewrite U. destruct (is_global j); lia.
Qed.

(** Stream [k] with one user less; the last one takes its routes away. *)
Definition released_at (k : Z) (s : stream) (ss : list stream) : list stream :=
  <[Z.to_nat k := if ref_count s =? 1 then s <| ref_count := 0 |> <| current_devices := 0 |> else s <| ref_count := ref_count s - 1 |>]> ss.

Lemma on_mask_0 j : on_mask 0 j = false.
Proof. unfold on_mask. destruct (ld sh j) as [[t ids]|]; [|done]. simpl. rewrite Z.bits_0. apply andb_false_r. Qed.

Lemma release_stream_wp k s w : Inv w → ld (streams w) k = Some s → 0 < ref_count s →
  wp (release_stream k) (λ _ w', Inv w' ∧ streams w' = released_at k s (streams w)) w.
Proof.
  intros HI Hk Hpos. pose proof HI as [Hw HT HF Hl]. pose proof (Forall_ld _ _ _ _ HF Hk) as Hs. pose proof (arena_lookup_Some _ _ _ Hk) as Hkl.
  pose proof (sw_refs _ Hs) as Hr. pose proof (sw_max _ Hs) as Hmax. pose proof (ld_Some_bounds _ _ _ Hk) as Hbk.
  unfold release_stream. apply wp_bind. eapply get_str_wp; [done|]. apply wp_bind.
  eapply wp_lift_eq; [apply ck32_Some; unfold INT_MIN, INT_MAX in *; lia|].
  apply wp_bind. eapply wp_mono; [by apply set_str_wp|]. intros [] w1 H1. pose proof H1 as (Es & Ev & Hok).
  assert (cm_ok (aobj w1)) as Hw1 by (apply Hok; [done|exact (cm_stream_ok _ _ _ Hw Hk)]).
  unfold released_at. destruct (Z.eqb_spec (ref_count s - 1) 0) as [E0|Hn0].
  - assert (ref_count s = 1) as E1 by lia. rewrite E1 in *. change (1 =? 1) with true. cbn [Z.sub Z.add Z.opp Z.pos_sub] in Es. change (1 - 1) with 0 in *.
    set (s2 := s <| ref_count := 0 |>) in *.
    set (ss2 := <[Z.to_nat k := s2]> (streams w)) in *. set (ss3 := <[Z.to_nat k := s2 <| current_devices := 0 |>]> ss2).
    assert (ss2 !! Z.to_nat k = Some s2) as Hk2 by (apply list_lookup_insert_eq; by apply lookup_lt_Some in Hkl).
    assert (∀ j, users ss2 j = users (streams w) j + (if is_global j then -1 else 0)) as U2.
    { intros j. unfold ss2, s2. rewrite (users_refs _ _ _ _ _ Hkl), E1. destruct (is_global j); simpl; lia. }
    assert (∀ j, users ss3 j = users ss2 j + (if on_mask (current_devices s) j then -1 else 0)) as U3.
    { intros j. unfold ss3. rewrite (users_current _ _ _ _ _ Hk2), on_mask_0. simpl. destruct (on_mask _ j); lia. }
    assert (blen ss2 = blen (streams w) ∧ blen ss3 = blen (streams w)) as [L2 L3] by (unfold ss3, ss2, blen; by rewrite !length_insert).
    assert (∀ j, is_global j = true → on_mask (current_devices s) j = false) as Hgm.
    { intros j Hg%bool_decide_eq_true. apply global_at_ld in Hg as [_ (ids & Hj)]. rewrite Z.sub_0_r in Hj. unfold on_mask. by rewrite Hj. }
    pose proof (users_bounds (streams w)) as B0. pose proof (users_bounds ss2) as B2. pose proof (users_bounds ss3) as B3. rewrite L2 in B2. rewrite L3 in B3.
    apply wp_bind. eapply wp_mono; [apply (to_devices_wp e_path_id_off _ _ (stream_is_input (s_info s)) _ w1 (users (streams w)))|].
    + by apply request_off, sw_disable.
    + apply Hs.
    + done.
    + by rewrite Ev.
    + intros j Hj Ho. specialize (U3 j). specialize (U2 j). specialize (B0 j). specialize (B2 j). specialize (B3 j). rewrite Ho in U3.
      change (delta e_path_id_off) with (-1). destruct (is_global j) eqn:Eg; [rewrite Hgm in Ho by done; done|]. lia.
    + intros [] w2 (Hw2 & (Ess2 & _) & T2). change (delta e_path_id_off) with (-1) in T2. apply wp_bind.
      eapply wp_mono; [eapply (to_global_wp e_path_id_off _ _ w2)|].
      * by apply request_off, sw_disable.
      * done.
      * exact T2.
      * intros j Hg. simpl. rewrite Hgm by (by apply bool_decide_eq_true). specialize (U2 j). specialize (B0 j). specialize (B2 j).
        rewrite bool_decide_true in U2 by done. change (delta e_path_id_off) with (-1). lia.
      * intros [] w3 (Hw3 & (Ess3 & _) & T3). change (delta e_path_id_off) with (-1) in T3.
        assert (streams w3 = ss2) as Ess by (by rewrite Ess3, Ess2, Es).
        assert (ld (streams w3) k = Some s2) as Hk3 by (rewrite Ess; by eapply ld_insert_eq).
        apply wp_bind. eapply get_str_wp; [exact Hk3|]. eapply wp_mono; [apply set_str_wp; by apply ld_Some_bounds in Hk3|].
        intros [] w4 H4. split; [|destruct H4 as [-> _]; rewrite Ess; by apply list_insert_insert_eq].
        eapply Inv_with_stream; [exact H4|exact Hk3|done|done| | | |].
        -- rewrite Ess. apply Forall_insert; [done|]. destruct Hs. split; simpl; done || lia.
        -- destruct Hs. split; simpl; try done; [lia|]. split; [by rewrite Z.bits_0|]. intros j t ids _ _ Hb. by rewrite Z.bits_0 in Hb.
        -- rewrite Ess. lia.
        -- rewrite Ess. fold ss3. eapply tallies_ext; [|exact T3]. intros j _. simpl. rewrite U3, U2. lia.
  - destruct (Z.eqb_spec (ref_count s) 1); [lia|]. apply wp_ret'. split; [|exact Es]. split; [done| | |].
    + rewrite Ev, Es. eapply tallies_ext; [|exact HT]. intros j _. rewrite (users_refs _ _ _ _ _ Hkl).
      destruct (Z.ltb_spec 0 (ref_count s - 1)), (Z.ltb_spec 0 (ref_count s)); destruct (is_global j); lia.
    + rewrite Es. apply Forall_insert; [done|]. destruct Hs. split; simpl; done || lia.
    + rewrite Es. unfold blen in *. by rewrite length_insert.
Qed.
End Layout.
End Devices.
