(* ===== verification/AudioStreams.v ===== *)
(** * The streams of the configuration manager

    The operations a client of the configuration manager calls, as the steps
    of a system: from the state after loading, every sequence of valid calls
    is defined and keeps the routing invariant. *)

From S2P Require Import Prelude Monad Mixer DynArray Params AudioConfig AudioRoute AudioMachine AudioRouteSpec.

#[local] Open Scope Z_scope.

Section Streams.
Context `{H : AudioH, !AudioHOk H} `{A : Alsa, !AlsaOk A}.
Variable sh : list (Z * list Z).
Hypothesis Hsh : layout_wf sh.

Abbreviation streams w := (elems (stream_array (aobj w))).
Abbreviation Inv := (Inv sh).

(** ** Opening *)

Definition stream_kind (devices format : Z) : stream_type :=
  if negb (Z.land devices BIT_IN =? 0)
  then (if audio_is_linear_pcm format then e_stream_in_pcm else e_stream_in_compress)
  else (if audio_is_linear_pcm format then e_stream_out_pcm else e_stream_out_compress).

(** A stream that a request of a kind can have. *)
Definition available (type : stream_type) (s : stream) : Prop := hw_type (s_info s) = type ∧ ref_count s < max_ref_count s.

(** The result of an open: the last available stream, with one more user;
    nothing when there is none. *)
Definition opens (type : stream_type) (n : nat) (w : aworld config_mgr) (r : option Z) (w' : aworld config_mgr) : Prop :=
  match r with
  | Some k => ∃ s, ld (streams w) k = Some s ∧ 0 <= k < Z.of_nat n ∧ available type s ∧ streams w' = opened_at k s (streams w) ∧
      ∀ i s', k < i < Z.of_nat n → ld (streams w) i = Some s' → ¬ available type s'
  | None => streams w' = streams w ∧ ∀ i s', i < Z.of_nat n → ld (streams w) i = Some s' → ¬ available type s'
  end.

Lemma open_first_wp type n w : Inv w → Z.of_nat n <= blen (streams w) →
  wp (open_first type n) (λ r w', Inv w' ∧ opens type n w r w') w.
Proof.
  revert w. induction n as [|n IH]; intros w HI Hn; cbn [open_first].
  { apply wp_ret'. split; [done|]. split; [done|]. intros i s' Hi Hl%ld_Some_bounds. lia. }
  destruct (ld_lt (streams w) (Z.of_nat n)) as [s Hs]; [lia|]. apply wp_bind. eapply get_str_wp; [done|].
  assert (∀ w', streams w' = streams w → ¬ available type s → Inv w' →
    wp (open_first type n) (λ r w'', Inv w'' ∧ opens type (S n) w r w'') w') as Hrest.
  { intros w' Ess Hna HI'. eapply wp_mono; [apply IH; [done|rewrite Ess; lia]|]. intros r w'' [HI'' Ho]. split; [done|].
    unfold opens in *. rewrite Ess in Ho. destruct r as [k|].
    - destruct Ho as (s' & Hk & Hb & Hav & Es & Hlast). exists s'. split; [done|]. split; [lia|]. split; [done|]. split; [done|].
      intros i s2 Hi Hl. destruct (decide (i = Z.of_nat n)) as [->|]; [congruence|]. eapply Hlast; [|done]. lia.
    - destruct Ho as [Es Hnone]. split; [done|]. intros i s2 Hi Hl. destruct (decide (i = Z.of_nat n)) as [->|]; [congruence|].
      eapply Hnone; [|done]. lia. }
  case_bool_decide as Et.
  - apply wp_bind. eapply wp_mono; [by apply (open_stream_wp sh)|]. intros ok w' (HI' & -> & Es).
    destruct (Z.ltb_spec (ref_count s) (max_ref_count s)).
    + apply wp_ret'. split; [done|]. exists s. split; [done|]. split; [lia|]. split; [by split|]. split; [done|]. intros i s2 Hi. lia.
    + apply Hrest; [done| |done]. intros [_ ?]. lia.
  - apply Hrest; [done| |done]. by intros [? _].
Qed.

Lemma get_stream_wp devices format w : Inv w →
  wp (get_stream devices format) (λ r w', Inv w' ∧ opens (stream_kind devices format) (length (streams w)) w r w') w.
Proof. intros HI. unfold get_stream, getC. wp_steps. apply open_first_wp; [done|]. unfold blen. lia. Qed.

Lemma find_named_ld ss name i k : find_named ss name i = Some k → i <= k ∧ ∃ s, ld ss (k - i) = Some s ∧ s_name s = Some name.
Proof.
  revert i. induction ss as [|s ss IH]; intros i; simpl; [done|]. case_bool_decide as E.
  - intros [= <-]. split; [lia|]. exists s. by rewrite Z.sub_diag.
  - intros [Hk (s' & Hl & Hn)]%IH. split; [lia|]. exists s'. split; [|done]. unfold ld in *. rewrite bool_decide_true in * by lia.
    replace (Z.to_nat (k - i)) with (S (Z.to_nat (k - (i + 1)))) by lia. done.
Qed.

Lemma get_named_stream_wp name w : Inv w →
  wp (get_named_stream name) (λ r w', Inv w' ∧ match r with
    | Some k => ∃ s, ld (streams w) k = Some s ∧ s_name s = Some name ∧ streams w' = opened_at k s (streams w)
    | None => streams w' = streams w end) w.
Proof.
  intros HI. unfold get_named_stream, getC. wp_steps; [|done]. unfold find_named_stream in Heqo.
  destruct (find_named_ld _ _ _ _ Heqo) as [Hk (s & Hl & Hn)]. rewrite Z.sub_0_r in Hl.
  eapply wp_mono; [by eapply (open_stream_wp sh)|]. intros ok w' (HI' & _ & Es). wp_steps. split; [done|]. destruct ok; [by exists s|done].
Qed.

(** ** Volume and use cases *)

Lemma Inv_silent w w' : silent w w' → Inv w → Inv w'.
Proof.
  intros Hs [Hok HT HF Hl]. pose proof (silent_quiet _ _ Hs) as Hq. pose proof (quiet_view _ _ Hq) as Ev. destruct Hs as [E _].
  split; rewrite ?Ev, ?E; done.
Qed.

(** The control's values fit the driver's array. *)
Definition short_vol (m : option mixer) (v : stream_control) : Prop :=
  ∀ ei, info_at m (sc_id v) = Some ei → ei_type ei = ELEM_BYTES → ei_count ei <= 512.

Lemma set_vol_ctl_wp v pc w : cm_ok (aobj w) → vol_ok (cm_mixer (aobj w)) v → short_vol (cm_mixer (aobj w)) v → sc_id v ≠ UINT_MAX → wp (set_vol_ctl v pc) (λ r w', r = 0 ∧ silent w w') w.
Proof.
  intros Hw [?|(Hi & ei & Hat)] Hb Hne; [done|]. specialize (Hb _ Hat). unfold set_vol_ctl, getC. wp_steps.
  destruct (get_ctl_info _ _ _ Hat) as (c & -> & <-). destruct (info_at_ok _ _ _ (cm_ok_mixer _ Hw) Hat) as [Hok _].
  eapply wp_mono; [by apply set_value_wp|]. intros r w' Hs. by wp_steps.
Qed.

Lemma set_hw_volume_wp k l r s w : Inv w → ld (streams w) k = Some s → 0 <= l <= 100 → 0 <= r <= 100 →
  short_vol (cm_mixer (aobj w)) (volume_left s) → short_vol (cm_mixer (aobj w)) (volume_right s) →
  wp (set_hw_volume k l r) (λ ret w', Inv w' ∧ streams w' = streams w ∧
    (ret = - ENOSYS ↔ sc_id (volume_left s) = UINT_MAX ∧ sc_id (volume_right s) = UINT_MAX)) w.
Proof.
  intros HI Hk Hl Hr Sl Sr. pose proof (inv_ok _ _ HI) as Hw. destruct (cm_stream_ok _ _ _ Hw Hk) as (Vl & Vr & _).
  assert (∀ w' ret, silent w w' → (ret = - ENOSYS ↔ sc_id (volume_left s) = UINT_MAX ∧ sc_id (volume_right s) = UINT_MAX) →
    Inv w' ∧ streams w' = streams w ∧ (ret = - ENOSYS ↔ sc_id (volume_left s) = UINT_MAX ∧ sc_id (volume_right s) = UINT_MAX)) as Hd.
  { intros w' ret Hs Hret. split_and!; [by eapply Inv_silent|by destruct Hs as [-> _]|done]. }
  unfold set_hw_volume. apply wp_bind. eapply get_str_wp; [done|]. apply wp_bind.
  eapply (wp_mono _ (λ ret w', silent w w' ∧ ret = if sc_id (volume_left s) =? UINT_MAX then - ENOSYS else 0)).
  - destruct (Z.eqb_spec (sc_id (volume_left s)) UINT_MAX); simpl; [by apply wp_ret'|]. apply wp_bind.
    eapply (wp_mono _ (λ _ w', w' = w)).
    + destruct (_ =? UINT_MAX); [|by apply wp_ret']. apply wp_bind. eapply wp_lift_eq; [apply ck32_Some; unfold INT_MIN, INT_MAX; lia|]. by wp_steps.
    + intros x w' ->. eapply wp_mono; [by apply set_vol_ctl_wp|]. by intros r' w' [-> ?].
  - intros ret w' [Hs ->]. assert (cm_mixer (aobj w') = cm_mixer (aobj w)) as Em by (by destruct Hs as [-> _]).
    destruct (Z.eqb_spec (sc_id (volume_right s)) UINT_MAX); simpl.
    + apply wp_ret'. apply Hd; [done|]. destruct (Z.eqb_spec (sc_id (volume_left s)) UINT_MAX); unfold ENOSYS; intuition lia.
    + eapply wp_mono; [apply set_vol_ctl_wp; [destruct Hs as [-> _]; done|by rewrite Em|by rewrite Em|done]|].
      intros r' w2 [-> Hs2]. apply Hd; [by transitivity w'|]. unfold ENOSYS. intuition lia.
Qed.

(** A use case changes controls only. *)
Lemma find_case_ld cs name j k : find_case cs name j = Some k → j <= k ∧ ∃ c, ld cs (k - j) = Some c ∧ case_name c = name.
Proof.
  revert j. induction cs as [|c cs IH]; intros j; simpl; [done|]. case_bool_decide as E.
  - intros [= <-]. split; [lia|]. exists c. by rewrite Z.sub_diag.
  - intros [Hk (c' & Hl & Hn)]%IH. split; [lia|]. exists c'. split; [|done]. unfold ld in *. rewrite bool_decide_true in * by lia.
    replace (Z.to_nat (k - j)) with (S (Z.to_nat (k - (j + 1)))) by lia. done.
Qed.

Lemma find_usecase_ld us setting name i k j : find_usecase us setting name i = Some (k, j) →
  i <= k ∧ ∃ u c, ld us (k - i) = Some u ∧ usecase_name u = setting ∧ ld (elems (case_array u)) j = Some c ∧ case_name c = name.
Proof.
  assert (∀ (us' : list usecase) x d v, i + 1 <= x → ld us' (x - (i + 1)) = Some d → ld (v :: us') (x - i) = Some d) as Hup.
  { intros us' x d v Hx Hl. unfold ld in *. rewrite bool_decide_true in * by lia.
    replace (Z.to_nat (x - i)) with (S (Z.to_nat (x - (i + 1)))) by lia. done. }
  revert i Hup. induction us as [|u us IH]; intros i Hup; simpl; [done|].
  assert (find_usecase us setting name (i + 1) = Some (k, j) → i <= k ∧ ∃ u0 c, ld (u :: us) (k - i) = Some u0 ∧
    usecase_name u0 = setting ∧ ld (elems (case_array u0)) j = Some c ∧ case_name c = name) as Hrec.
  { intros E. apply IH in E as [Hk (u' & c & Hl & ?)]; [split; [lia|]; exists u', c; split; [by apply Hup|done]|].
    intros us' x d v Hx Hl. unfold ld in *. rewrite bool_decide_true in * by lia.
    replace (Z.to_nat (x - (i + 1))) with (S (Z.to_nat (x - (i + 1 + 1)))) by lia. done. }
  case_bool_decide as E; [|done]. destruct (find_case _ name 0) as [j'|] eqn:Ec; [|done]. intros [= <- <-].
  apply find_case_ld in Ec as [_ (c & Hl & Hn)]. rewrite Z.sub_0_r in Hl. split; [lia|]. exists u, c. by rewrite Z.sub_diag.
Qed.

Lemma apply_use_case_wp k setting name s w : Inv w → ld (streams w) k = Some s →
  wp (apply_use_case k setting name) (λ ret w', Inv w' ∧
    (ret = 0 ↔ is_Some (find_usecase (elems (usecase_array s)) setting name 0)) ∧
    (λ s, (s_info s, ref_count s, current_devices s)) <$> streams w' = (λ s, (s_info s, ref_count s, current_devices s)) <$> streams w) w.
Proof.
  intros HI Hk. pose proof HI as [Hw HT HF Hl]. destruct (cm_stream_ok _ _ _ Hw Hk) as (Vl & Vr & Hu).
  unfold apply_use_case. apply wp_bind. eapply get_str_wp; [done|].
  destruct (find_usecase _ _ _ _) as [[i j]|] eqn:Ef.
  2:{ apply wp_ret'. split_and!; [done| |done]. split; [done|by intros [? ?]]. }
  apply find_usecase_ld in Ef as [_ (u & c & Hlu & _ & Hlc & _)]. rewrite Z.sub_0_r in Hlu.
  apply wp_bind. eapply wp_lift_eq; [done|]. apply wp_bind. eapply wp_lift_eq; [done|].
  pose proof (Forall_ld _ _ _ _ Hu Hlu) as Hcs. pose proof (Forall_ld _ _ _ _ Hcs Hlc) as Hcc. simpl in Hcc.
  apply wp_bind. eapply wp_mono; [apply apply_ctls_wp; [apply Hw|done]|]. intros ctls w1 (Hq & Hctls & _).
  apply wp_bind. eapply wp_lift_eq; [unfold set_elem; rewrite arena_insert_Some by (by apply ld_Some_bounds in Hlc); done|].
  apply wp_bind. eapply wp_lift_eq; [unfold set_elem; rewrite arena_insert_Some by (by apply ld_Some_bounds in Hlu); done|].
  assert (stream_array (aobj w1) = stream_array (aobj w)) as Ess by (destruct Hq as (m' & -> & _ & _); done).
  pose proof (quiet_mixer _ _ Hq) as Hsim. pose proof (cm_ok_quiet _ _ Hq Hw) as Hw1. pose proof (quiet_view _ _ Hq) as Ev.
  apply wp_bind. eapply wp_mono; [apply set_str_wp; rewrite Ess; by apply ld_Some_bounds in Hk|]. intros [] w2 H2. apply wp_ret'.
  split_and!; [|done|].
  - eapply (Inv_with_stream sh k s); [exact H2|by rewrite Ess|done| |by rewrite Ess| |by rewrite Ess|].
    + intros (Vl' & Vr' & Hu'). split_and!; [done|done|]. simpl. apply Forall_insert; [done|]. apply Forall_insert; [|done].
      exact (Forall_ld _ _ _ _ Hu' Hlu).
    + destruct (Forall_ld _ _ _ _ HF Hk). by split.
    + rewrite Ev, Ess. eapply tallies_ext; [|exact HT]. intros x _. unfold users. pose proof (arena_lookup_Some _ _ _ Hk) as Hkl.
      destruct (ld sh x) as [[t ids]|]; [|done]. rewrite !(count_update _ _ _ _ _ Hkl). simpl. repeat case_match; lia.
  - destruct H2 as [-> _]. rewrite list_fmap_insert, Ess. apply list_insert_id. rewrite list_lookup_fmap.
    by rewrite (arena_lookup_Some _ _ _ Hk).
Qed.

(** ** Clients *)

Inductive cm_call :=
  | CGet (devices format : Z)
  | CNamed (name : string)
  | CRoute (k devices : Z)
  | CRelease (k : Z)
  | CVolume (k left right : Z)
  | CUse (k : Z) (setting case : string).

Definition do_call (c : cm_call) : ST (aworld config_mgr) () :=
  match c with
  | CGet d f => get_stream d f;; mret ()
  | CNamed n => get_named_stream n;; mret ()
  | CRoute k d => apply_route k d
  | CRelease k => release_stream k
  | CVolume k l r => set_hw_volume k l r;; mret ()
  | CUse k s c => apply_use_case k s c;; mret ()
  end.

(** A stream is released by a holder only, routes name devices of the
    stream's direction, volumes are percentages and the volume control of a
    stream is no byte array that only fits the TLV form. *)
Definition call_ok (w : aworld config_mgr) (c : cm_call) : Prop :=
  match c with
  | CGet _ _ | CNamed _ => True
  | CRoute k d => ∃ s, ld (streams w) k = Some s ∧ names sh (stream_is_input (s_info s)) d
  | CRelease k => ∃ s, ld (streams w) k = Some s ∧ 0 < ref_count s
  | CVolume k l r => ∃ s, ld (streams w) k = Some s ∧ 0 <= l <= 100 ∧ 0 <= r <= 100 ∧
      short_vol (cm_mixer (aobj w)) (volume_left s) ∧ short_vol (cm_mixer (aobj w)) (volume_right s)
  | CUse k _ _ => 0 <= k < blen (streams w)
  end.

Lemma do_call_wp c w : Inv w → call_ok w c → wp (do_call c) (λ _, Inv) w.
Proof.
  intros HI Hc. destruct c as [d f|n|k d|k|k l r|k st c]; simpl in *.
  - apply wp_bind. eapply wp_mono; [by apply get_stream_wp|]. intros r w' [? _]. by apply wp_ret'.
  - apply wp_bind. eapply wp_mono; [by apply get_named_stream_wp|]. intros r w' [? _]. by apply wp_ret'.
  - destruct Hc as (s & Hk & Hn). eapply wp_mono; [by eapply apply_route_wp|]. by intros [] w' [? _].
  - destruct Hc as (s & Hk & Hp). eapply wp_mono; [by eapply release_stream_wp|]. by intros [] w' [? _].
  - destruct Hc as (s & Hs & Hl & Hr & ? & ?). apply wp_bind.
    eapply wp_mono; [by eapply set_hw_volume_wp|]. intros x w' [? _]. by apply wp_ret'.
  - destruct (ld_lt _ _ Hc) as [s Hs]. apply wp_bind.
    eapply wp_mono; [by eapply apply_use_case_wp|]. intros x w' [? _]. by apply wp_ret'.
Qed.

(** Sequences of valid calls. *)
Inductive calls : aworld config_mgr → list cm_call → aworld config_mgr → Prop :=
  | calls_nil w : calls w [] w
  | calls_cons w c w1 cs w2 : call_ok w c → do_call c w = Some ((), w1) → calls w1 cs w2 → calls w (c :: cs) w2.

Lemma calls_inv w cs w' : calls w cs w' → Inv w → Inv w'.
Proof.
  induction 1 as [|w c w1 cs w2 Hc E _ IH]; [done|]. intros HI. apply IH. pose proof (do_call_wp c w HI Hc) as Hwp.
  unfold wp in Hwp. by rewrite E in Hwp.
Qed.

(** The state after loading: nothing open, nothing routed, no path of a
    device applied. *)
Record loaded (w : aworld config_mgr) : Prop := {
  lo_ok : cm_ok (aobj w);
  lo_shape : shape (view w).1 = sh;
  lo_uses : Forall (λ d, use_count d = 0) (elems (device_array (aobj w)));
  lo_paths : paths (acalls w) = [];
  lo_len : blen (streams w) <= INT_MAX;
  lo_streams : Forall (λ s, ref_count s = 0 ∧ current_devices s = 0 ∧ 0 <= max_ref_count s <= INT_MAX ∧
    enable_path s ≠ e_path_id_off ∧ disable_path s ≠ e_path_id_on) (streams w) }.

Lemma count_none P ss : Forall (λ s, P s = false) ss → count P ss = 0.
Proof. induction 1 as [|s ss E _ IH]; simpl; [done|]. by rewrite E, IH. Qed.

Lemma loaded_inv w : loaded w → Inv w.
Proof.
  intros [Hok Hs Hu Hp Hl HF]. split; [done| | |done].
  - split; [done|]. intros j Hj. assert (users sh (streams w) j = 0) as ->.
    { unfold users. destruct (ld sh j) as [[t ids]|]; [|done]. repeat case_match; try done; apply count_none;
        (eapply Forall_impl; [exact HF|]); simpl; intros s (E1 & E2 & _); rewrite ?E1, ?E2; [done|apply Z.bits_0]. }
    destruct (ld_lt sh j Hj) as [[t ids] Ej]. pose proof (lw_balanced _ Hsh _ _ _ Ej) as Hb. rewrite <- Hs in Ej.
    destruct (shape_ld_inv _ _ _ _ Ej) as (a & Ha & _ & <-). exists a. unfold view in *. simpl in *. rewrite Hp in *.
    split_and!; [done|done| |done|]; [|simpl; split; [done|lia]]. intros _. rewrite ld_fmap in Ha.
    destruct (ld (elems (device_array (aobj w))) j) as [d|] eqn:Ed; [|done]. injection Ha as <-. by apply (Forall_ld _ _ _ _ Hu Ed).
  - eapply Forall_impl; [exact HF|]. intros s (Hr & Hc & Hm & He & Hd). split; [done|done|lia|lia|]. rewrite Hc.
    split; [by rewrite Z.bits_0|]. intros j t ids _ _ Hb. by rewrite Z.bits_0 in Hb.
Qed.

(** The uses of a device with an on path. *)
Lemma inv_uses w j d : Inv w → ld (elems (device_array (aobj w))) j = Some d → e_path_id_on ∈ path_id <$> elems (path_array d) →
  use_count d = users sh (streams w) j ∧ alternating (switches j (paths (acalls w))) ∧
  (head (switches j (paths (acalls w))) = Some e_path_id_on ↔ 0 < users sh (streams w) j).
Proof.
  intros HI Hd Hon. destruct (inv_tallies _ _ HI) as [Hs HT]. pose proof (ld_view _ _ _ Hd) as Hv.
  destruct (HT j) as (a & Ha & Hb & Hu & Halt & Hh).
  { rewrite <- Hs. unfold shape, blen. rewrite length_fmap. by apply (ld_Some_bounds _ _ _ Hv). }
  rewrite Hv in Ha. injection Ha as <-. split_and!; [by apply Hu|done|]. unfold view in Hh. simpl in Hh. rewrite Hh. unfold counted. tauto.
Qed.

(** C14: for a configuration whose devices have distinct bits and an off path
    wherever they have an on path ([layout_wf]: a condition on the file, which
    the shipped audio.mocha.xml does not meet, see [mocha_use_count_grows] and
    [mocha_reroute_keeps_mic]), freshly loaded, and any sequence of valid calls
    ([call_ok]: opening by kind or by name, routing to devices of the stream's
    direction, releasing by a holder, volumes from 0 to 100, use cases): the
    use count of a device with an on path is the number of streams routed to it
    (for the global device, of open streams); its on and off paths have been
    applied in turn, and on last exactly when a stream uses it; and the next
    valid call is defined. *)
Theorem routing_invariant w0 cs w : loaded w0 → calls w0 cs w →
  (∀ j d, ld (elems (device_array (aobj w))) j = Some d → e_path_id_on ∈ path_id <$> elems (path_array d) →
    use_count d = users sh (streams w) j ∧ alternating (switches j (paths (acalls w))) ∧
    (head (switches j (paths (acalls w))) = Some e_path_id_on ↔ 0 < users sh (streams w) j)) ∧
  (∀ c, call_ok w c → ∃ w', do_call c w = Some ((), w')).
Proof.
  intros Hl Hc. pose proof (calls_inv _ _ _ Hc (loaded_inv _ Hl)) as HI. split.
  - intros j d. by apply inv_uses.
  - intros c Hok. pose proof (do_call_wp c w HI Hok) as Hwp. apply wp_run in Hwp as ([] & w' & E & _). eauto.
Qed.
End Streams.
