(* ===== verification/AudioDemo.v ===== *)
(** * The routing operations on concrete configurations

    A configuration with a speaker and a microphone on which the routing
    invariant applies, and the devices and streams of the shipped
    audio/audio.mocha.xml, on which its hypotheses fail. *)

From S2P Require Import Prelude Monad Mixer DynArray Params AudioConfig AudioRoute AudioMachine AudioRouteSpec AudioStreams.

#[local] Open Scope string_scope.
#[local] Open Scope list_scope.
#[local] Open Scope Z_scope.

(** ** A platform and a card *)

(** The values of system/audio.h. *)
Definition android : AudioH := {|
  BIT_IN := 0x80000000; OUT_ALL := 0x47FFFFFF; IN_ALL := 0x8FFFFFFF;
  OUT_SPEAKER := 0x2; OUT_EARPIECE := 0x1; OUT_WIRED_HEADSET := 0x4; OUT_WIRED_HEADPHONE := 0x8;
  OUT_ALL_SCO := 0x70; OUT_ALL_A2DP := 0x380; OUT_ALL_USB := 0x6000;
  IN_WIRED_HEADSET := 0x80000010; IN_ALL_SCO := 0x80000008; IN_BUILTIN_MIC := 0x80000004;
  IN_BACK_MIC := 0x80000080; IN_VOICE_CALL := 0x80000040; IN_AUX_DIGITAL := 0x80000020;
  audio_is_linear_pcm := λ f, f =? 1 |}.
#[local] Existing Instance android.

#[local] Instance android_ok : AudioHOk android.
Proof. split; reflexivity. Qed.

(** A card with one switch. *)
Definition demo_info (n : Z) : elem_info := mkInfo n "Switch" ELEM_BOOLEAN 1 0 1 0 false.
Definition demo_card : Alsa := {|
  al_open := λ _ _, 3; al_card_info := λ _ _, true; al_list_count := λ _ _, Some 1;
  al_list := λ _ _ off space, Some (seqZ (off + 1) space); al_info := λ _ _ n, Some (demo_info n);
  al_enum_name := λ _ _ _ _, None; al_read := λ _ _ _, (0, replicate 512 0); al_write := λ _ _ _ _, 0;
  al_tlv_read := λ _ _ _ len, (0, replicate (Z.to_nat len) 0); al_tlv_write := λ _ _ _ _, 0;
  al_subscribe := λ _ _ _, 0;
  al_poll := λ _ _ _, inr (0, 0);
  al_malloc := λ _, true |}.
#[local] Existing Instance demo_card.

#[local] Instance demo_card_ok : AlsaOk demo_card.
Proof.
  split; simpl.
  - intros h fd n ei [= <-]. done.
  - by intros h fd off space l [= <-].
  - intros h fd n [= <-]. lia.
  - done.
  - intros h fd n len Hl. unfold blen. rewrite length_replicate. lia.
Qed.

Definition no_vol : stream_control := mkSC UINT_MAX 0 0 0.
Definition demo_path (id : Z) (ctls : list ctl) : path := mkPath id (mkArr ctls (blen ctls)).
Definition demo_device (type : Z) (ps : list path) : device := mkDevice type 0 (mkArr ps (blen ps)).
Definition pcm_stream (type : stream_type) (enable disable : Z) : stream :=
  mkStream (mkHw type 1 0 48000 0 0) None 0 INT_MAX enable disable 0 no_vol no_vol arr_new.
Definition demo_ctl (v : string) : ctl := mkCtlCfg UINT_MAX "Switch" INVALID_CTL_INDEX 0 MIXER_CTL_TYPE_UNKNOWN (VString v).
Definition demo_mixer : mixer := mkMixer 3 [mkCtl (demo_info 1) None].
Definition demo_cm (ds : list device) (ss : list stream) : aworld config_mgr :=
  AWorld (mkCM (Some demo_mixer) 0 0 (mkArr ds (blen ds)) (mkArr ss (blen ss))) [].

(** ** The invariant applies *)

Definition switched (type : Z) : device :=
  demo_device type [demo_path 0 [demo_ctl "0"]; demo_path 1 [demo_ctl "1"]; demo_path 2 []].
Definition demo_world : aworld config_mgr :=
  demo_cm [switched 0x2; switched 0x80000004] [pcm_stream e_stream_out_pcm 2 (-1); pcm_stream e_stream_in_pcm (-1) (-1)].
Definition demo_layout : list (Z * list Z) := [(0x2, [0; 1; 2]); (0x80000004, [0; 1; 2])].

Lemma ld_cons_inv {B} (x : B) l j y : ld (x :: l) j = Some y → (j = 0 ∧ y = x) ∨ (0 < j ∧ ld l (j - 1) = Some y).
Proof.
  intros Hl. pose proof (ld_Some_bounds _ _ _ Hl). destruct (decide (j = 0)) as [->|]; [left; by injection Hl as <-|]. right.
  split; [lia|]. unfold ld in *. rewrite bool_decide_true in * by lia. replace (Z.to_nat j) with (S (Z.to_nat (j - 1))) in Hl by lia. done.
Qed.

Ltac ld_cases := repeat match goal with
  | Hl : ld (_ :: _) _ = Some _ |- _ => apply ld_cons_inv in Hl as [[? Hl]|[? Hl]]; [simplify_eq|]
  | Hl : ld [] _ = Some _ |- _ => by apply ld_Some_bounds in Hl as [? ?]; unfold blen in *; simpl in *; lia
  end.

Lemma demo_layout_wf : layout_wf demo_layout.
Proof.
  split.
  - intros j t ids Hl Ht. unfold demo_layout in Hl. ld_cases; split; reflexivity.
  - intros i j t t' ids ids' Hi Hj _ _ Hne. unfold demo_layout in *. ld_cases; simpl; try lia; done.
  - intros j t ids Hl. unfold demo_layout in Hl. ld_cases; (split; intros _; unfold e_path_id_on, e_path_id_off; set_solver).
Qed.

Lemma demo_loaded : loaded demo_layout demo_world.
Proof.
  assert (∀ v, ctl_ok (Some demo_mixer) (demo_ctl v)) as Hc by (intros v; split; [done|]; simpl; eauto).
  split; [|done|by repeat constructor|done|by vm_compute|].
  - split.
    + split; [done|]. simpl. intros i c Hl. ld_cases. done.
    + repeat (constructor; try apply Hc).
    + repeat constructor.
  - repeat constructor; by vm_compute.
Qed.

Ltac call_step := eapply calls_cons; [| vm_compute; reflexivity|].

Lemma routing_invariant_witness : ∃ w,
  calls demo_layout demo_world [CGet 0x2 1; CRoute 0 0x2; CGet 0x80000004 1; CRoute 1 0x80000004; CRoute 0 0] w ∧
  ∀ j d, ld (elems (device_array (aobj w))) j = Some d → e_path_id_on ∈ path_id <$> elems (path_array d) →
    use_count d = users demo_layout (elems (stream_array (aobj w))) j.
Proof.
  assert (∃ w, calls demo_layout demo_world [CGet 0x2 1; CRoute 0 0x2; CGet 0x80000004 1; CRoute 1 0x80000004; CRoute 0 0] w) as [w Hw].
  { eexists. call_step; [exact I|]. call_step.
    { eexists. split; [reflexivity|]. intros j t ids Hl Ht Hb. unfold demo_layout in Hl. ld_cases; done. }
    call_step; [exact I|]. call_step.
    { eexists. split; [reflexivity|]. intros j t ids Hl Ht Hb. unfold demo_layout in Hl. ld_cases; done. }
    call_step.
    { eexists. split; [reflexivity|]. intros j t ids Hl Ht Hb. by rewrite Z.bits_0 in Hb. }
    apply calls_nil. }
  exists w. split; [exact Hw|]. intros j d Hd Hon.
  exact (proj1 (proj1 (routing_invariant demo_layout demo_layout_wf _ _ _ demo_loaded Hw) j d Hd Hon)).
Defined.

(** ** The shipped configuration *)

(** The devices and streams of audio/audio.mocha.xml with the identifiers of
    their paths: 1 on, 2 on_pcm, 3 off_pcm, 4 on_pcm_rec, 5 off_pcm_rec. *)
Definition mocha_device (type : Z) (ids : list Z) : device := demo_device type ((λ id, demo_path id []) <$> ids).
Definition mocha_world : aworld config_mgr := demo_cm
  [mocha_device OUT_SPEAKER [1; 2; 3]; mocha_device OUT_WIRED_HEADPHONE [1; 2; 3]; mocha_device OUT_WIRED_HEADSET [1; 2; 3];
   mocha_device IN_WIRED_HEADSET [4; 5]; mocha_device IN_BUILTIN_MIC [1; 4; 5]]
  [pcm_stream e_stream_out_pcm 2 3; pcm_stream e_stream_in_pcm 4 5].

Fixpoint run_calls (cs : list cm_call) (w : aworld config_mgr) : option (aworld config_mgr) :=
  match cs with [] => Some w | c :: cs' => r ← do_call c w; run_calls cs' r.2 end.

(** No device has an off path, so a use count never goes down: after one
    stream has used the speaker twice, in turn, and gone, the count is 2, and
    the on path was applied the first time only. *)
Theorem mocha_use_count_grows :
  (λ w, (use_count <$> elems (device_array (aobj w)), paths (acalls w))) <$>
    run_calls [CGet OUT_SPEAKER 1; CRoute 0 OUT_SPEAKER; CRelease 0; CGet OUT_SPEAKER 1; CRoute 0 OUT_SPEAKER; CRelease 0] mocha_world =
  Some ([2; 0; 0; 0; 0], [(0, 3); (0, 2); (0, 3); (0, 2); (0, 1)]).
Proof. vm_compute. reflexivity. Qed.

(** Moving an input stream from the microphone to the headset's: the masks of
    what changes have lost the direction bit, the microphone's bit is also the
    (output) headset's, which comes first, and whose off_pcm_rec does not
    exist: the microphone's off_pcm_rec is not applied.  Routed to nothing in
    between, the same move applies it. *)
Theorem mocha_reroute_keeps_mic :
  (λ w, paths (acalls w)) <$> run_calls [CGet IN_BUILTIN_MIC 1; CRoute 1 IN_BUILTIN_MIC; CRoute 1 IN_WIRED_HEADSET] mocha_world =
    Some [(3, 4); (4, 4); (4, 1)] ∧
  (λ w, paths (acalls w)) <$> run_calls [CGet IN_BUILTIN_MIC 1; CRoute 1 IN_BUILTIN_MIC; CRoute 1 0; CRoute 1 IN_WIRED_HEADSET] mocha_world =
    Some [(3, 4); (4, 5); (4, 4); (4, 1)].
Proof. split; vm_compute; reflexivity. Qed.
