(* ===== verification/Pcm.v ===== *)
(** * The PCM library (tinyalsa/src/pcm.c)

    Opening, configuring, reading and writing a PCM device.  The driver is a
    parameter: an instance of [PcmDev] gives the reply to every call as a
    function of the calls before it.  [errno] is part of the state.  The text of
    the last error is not kept. *)

From S2P Require Import Prelude Monad Mixer.

#[local] Open Scope Z_scope.

(** ** The interface of the driver (sound/asound.h) *)

Definition HW_PARAM_ACCESS : Z := 0.
Definition HW_PARAM_FORMAT : Z := 1.
Definition HW_PARAM_SUBFORMAT : Z := 2.
Definition FIRST_MASK : Z := 0.
Definition LAST_MASK : Z := 2.
Definition HW_PARAM_SAMPLE_BITS : Z := 8.
Definition HW_PARAM_FRAME_BITS : Z := 9.
Definition HW_PARAM_CHANNELS : Z := 10.
Definition HW_PARAM_RATE : Z := 11.
Definition HW_PARAM_PERIOD_SIZE : Z := 13.
Definition HW_PARAM_PERIODS : Z := 15.
Definition FIRST_INTERVAL : Z := 8.
Definition LAST_INTERVAL : Z := 19.
Definition MASK_MAX : Z := 256.
Definition NO_PERIOD_WAKEUP : Z := 4.
Definition ACCESS_MMAP_INTERLEAVED : Z := 0.
Definition ACCESS_RW_INTERLEAVED : Z := 3.

(** [struct snd_interval]: the open bounds and [empty] are not used here. *)
Record interval := mkIv { iv_min : Z; iv_max : Z; iv_integer : bool }.
#[export] Instance interval_eta : Eta interval := λ i, mkIv (iv_min i) (iv_max i) (iv_integer i).

(** [struct snd_pcm_hw_params]: a mask is its eight words. *)
Record hw_params := mkHwp { masks : list (list Z); intervals : list interval; hp_flags : Z; rmask : Z; cmask : Z; hp_info : Z }.
#[export] Instance hw_params_eta : Eta hw_params := λ p, mkHwp
  (masks p) (intervals p) (hp_flags p) (rmask p) (cmask p) (hp_info p).

Record sw_params := mkSwp { sw_start : Z; sw_stop : Z; sw_silence : Z; sw_boundary : Z; sw_xfer_align : Z; sw_avail_min : Z }.

(** The status and control areas that the driver shares, or that
    [SNDRV_PCM_IOCTL_SYNC_PTR] exchanges. *)
Record areas := mkAreas { ar_state : Z; ar_hw_ptr : Z; ar_tstamp : Z * Z; ar_appl_ptr : Z; ar_avail_min : Z }.
#[export] Instance areas_eta : Eta areas := λ a, mkAreas
  (ar_state a) (ar_hw_ptr a) (ar_tstamp a) (ar_appl_ptr a) (ar_avail_min a).

Inductive page := PgBuffer | PgStatus | PgControl.

(** Calls with their replies.  A reply [e] of an ioctl is 0 or the error. *)
Inductive pcall :=
  | PCalloc (ok : bool)
  | POpen (card device flags fd e : Z)
  | PClose (fd : Z)
  | PInfo (fd sub e : Z)
  | PHwParams (fd : Z) (p : hw_params) (e : Z)
  | PHwRefine (fd e : Z)
  | PSwParams (fd : Z) (p : sw_params) (e : Z)
  | PMap (fd : Z) (pg : page) (len : Z) (e : Z)
  | PUnmap (pg : page)
  | PSetControl (fd appl_ptr avail_min : Z)             (* a store into the mapped control area *)
  | PSyncPtr (fd flags : Z) (a : areas) (e : Z)
  | PTtstamp (fd e : Z)
  | PPrepare (fd e : Z)
  | PStart (fd e : Z)
  | PDrop (fd e : Z)
  | PWritei (fd : Z) (data : list Z) (frames e : Z)
  | PReadi (fd frames e : Z)
  | PCopyOut (fd off : Z) (data : list Z)               (* memcpy into the mapped buffer *)
  | PCopyIn (fd off len : Z)
  | PPoll (fd timeout e : Z)
  | PLink (fd fd2 e : Z)
  | PUnlink (fd e : Z)
  | PDelay (fd e : Z).

Abbreviation plog := (list pcall).

Class PcmDev := {
  pd_calloc : plog → bool;
  pd_open : plog → Z → Z → Z → Z + Z;                    (* the error, or the descriptor *)
  pd_info : plog → Z → Z * Z;                            (* the error and the subdevice *)
  pd_hw_params : plog → Z → hw_params → Z * hw_params;
  pd_hw_refine : plog → Z → hw_params → Z * hw_params;
  pd_sw_params : plog → Z → sw_params → Z;
  pd_map : plog → Z → page → Z → Z;                      (* mmap *)
  pd_areas : plog → Z → areas;                           (* what the mapped areas hold *)
  pd_sync : plog → Z → Z → areas → Z * areas;
  pd_ttstamp : plog → Z → Z;
  pd_prepare : plog → Z → Z;
  pd_start : plog → Z → Z;
  pd_drop : plog → Z → Z;
  pd_writei : plog → Z → list Z → Z → Z * Z;             (* the error and the frames moved *)
  pd_readi : plog → Z → Z → Z * Z * list Z;
  pd_copy_in : plog → Z → Z → Z → list Z;                (* bytes of the mapped buffer *)
  pd_poll : plog → Z → Z → Z * (Z * Z);                  (* the error; the result and revents *)
  pd_link : plog → Z → Z → Z;
  pd_unlink : plog → Z → Z;
  pd_delay : plog → Z → Z * Z }.

(** An object, the error of the last failed call and the log. *)
Record pworld (S : Type) := PWorld { pobj : S; perrno : Z; pcalls : plog }.
Arguments PWorld {_} _ _ _.
Arguments pobj {_} _.
Arguments perrno {_} _.
Arguments pcalls {_} _.

(** ** The library's objects *)

Inductive pcm_format :=
  PCM_FORMAT_S16_LE | PCM_FORMAT_S8 | PCM_FORMAT_S16_BE | PCM_FORMAT_S24_LE | PCM_FORMAT_S24_BE
  | PCM_FORMAT_S24_3LE | PCM_FORMAT_S24_3BE | PCM_FORMAT_S32_LE | PCM_FORMAT_S32_BE.

Record pcm_config := mkPcmCfg {
  channels : Z; rate : Z; period_size : Z; period_count : Z; format : pcm_format;
  start_threshold : Z; stop_threshold : Z; silence_threshold : Z }.
#[export] Instance pcm_config_eta : Eta pcm_config := λ c, mkPcmCfg
  (channels c) (rate c) (period_size c) (period_count c) (format c)
  (start_threshold c) (stop_threshold c) (silence_threshold c).

(** [mmap_status] and [mmap_control]: null, in [sync_ptr], or mapped. *)
Inductive mapping := MNone | MSync (a : areas) | MMapped.

(** [buffer_map] is the length of the mapped buffer. *)
Record pcm := mkPcm {
  fd : Z; flags : Z; running : bool; prepared : bool; underruns : Z; buffer_size : Z; boundary : Z;
  config : pcm_config; mmaps : mapping; buffer_map : option Z; noirq_frames_per_msec : Z; pcm_delay : Z; subdevice : Z }.
#[export] Instance pcm_eta : Eta pcm := λ p, mkPcm
  (fd p) (flags p) (running p) (prepared p) (underruns p) (buffer_size p) (boundary p)
  (config p) (mmaps p) (buffer_map p) (noirq_frames_per_msec p) (pcm_delay p) (subdevice p).

Definition PCM_OUT : Z := 0.
Definition PCM_IN : Z := 0x10000000.
Definition PCM_MMAP : Z := 1.
Definition PCM_NOIRQ : Z := 2.
Definition PCM_NORESTART : Z := 4.
Definition PCM_MONOTONIC : Z := 8.
Definition PCM_NONBLOCK : Z := 16.
Definition PCM_STATE_RUNNING : Z := 3.
Definition PCM_STATE_XRUN : Z := 4.
Definition PCM_STATE_DRAINING : Z := 5.
Definition PCM_STATE_SUSPENDED : Z := 7.
Definition PCM_STATE_DISCONNECTED : Z := 8.
Definition EPIPE : Z := 32.
Definition EIO : Z := 5.
Definition ESTRPIPE : Z := 86.
Definition ENODEV : Z := 19.
Definition EFAULT : Z := 14.
Definition TINYALSA_FRAMES_MAX : Z := UINT_MAX / (32 * 4).

Definition has (flags bit : Z) : bool := negb (Z.land flags bit =? 0).

(** ** Hardware parameters *)

Definition param_is_mask (p : Z) : bool := (p >=? FIRST_MASK) && (p <=? LAST_MASK).
Definition param_is_interval (p : Z) : bool := (p >=? FIRST_INTERVAL) && (p <=? LAST_INTERVAL).

Definition param_to_interval (p : hw_params) (n : Z) : option interval := ld (intervals p) (n - FIRST_INTERVAL).
Definition param_to_mask (p : hw_params) (n : Z) : option (list Z) := ld (masks p) (n - FIRST_MASK).

Definition param_set_mask (p : hw_params) (n bit : Z) : option hw_params :=
  if bit >=? MASK_MAX then Some p else
  if param_is_mask n then
    m ← param_to_mask p n;
    m ← st m 0 0; m ← st m 1 0;
    b ← ld m (bit ≫ 5);
    m ← st m (bit ≫ 5) (Z.lor b (1 ≪ Z.land bit 31));
    l ← st (masks p) (n - FIRST_MASK) m;
    Some (p <| masks := l |>)
  else Some p.

Definition set_interval (p : hw_params) (n : Z) (f : interval → interval) : option hw_params :=
  if param_is_interval n then
    i ← param_to_interval p n;
    l ← st (intervals p) (n - FIRST_INTERVAL) (f i);
    Some (p <| intervals := l |>)
  else Some p.
Definition param_set_min (p : hw_params) (n val : Z) : option hw_params := set_interval p n (λ i, i <| iv_min := val |>).
Definition param_set_int (p : hw_params) (n val : Z) : option hw_params := set_interval p n (λ _, mkIv val val true).

Definition param_get_min (p : hw_params) (n : Z) : option Z :=
  if param_is_interval n then i ← param_to_interval p n; Some (iv_min i) else Some 0.
Definition param_get_max (p : hw_params) (n : Z) : option Z :=
  if param_is_interval n then i ← param_to_interval p n; Some (iv_max i) else Some 0.
Definition param_get_int (p : hw_params) (n : Z) : option Z :=
  if param_is_interval n then i ← param_to_interval p n; Some (if iv_integer i then iv_max i else 0) else Some 0.

(** All masks full in their first two words, all intervals unbounded. *)
Definition param_init : hw_params := mkHwp
  (replicate 3 (UINT_MAX :: UINT_MAX :: replicate 6 0)) (replicate 12 (mkIv 0 UINT_MAX false)) 0 UINT_MAX 0 UINT_MAX.

Definition pcm_format_to_alsa (f : pcm_format) : Z :=
  match f with
  | PCM_FORMAT_S8 => 0
  | PCM_FORMAT_S16_LE => 2 | PCM_FORMAT_S16_BE => 3
  | PCM_FORMAT_S24_LE => 6 | PCM_FORMAT_S24_BE => 7
  | PCM_FORMAT_S24_3LE => 32 | PCM_FORMAT_S24_3BE => 33
  | PCM_FORMAT_S32_LE => 10 | PCM_FORMAT_S32_BE => 11
  end.

Definition pcm_format_to_bits (f : pcm_format) : Z :=
  match f with
  | PCM_FORMAT_S32_LE | PCM_FORMAT_S32_BE | PCM_FORMAT_S24_LE | PCM_FORMAT_S24_BE => 32
  | PCM_FORMAT_S24_3LE | PCM_FORMAT_S24_3BE => 24
  | PCM_FORMAT_S16_LE | PCM_FORMAT_S16_BE => 16
  | PCM_FORMAT_S8 => 8
  end.

(** The bytes of a frame, in unsigned arithmetic. *)
Definition frame_bytes (p : pcm) : Z := u32 (channels (config p) * (pcm_format_to_bits (format (config p)) ≫ 3)).
Definition pcm_bytes_to_frames (p : pcm) (bytes : Z) : option Z :=
  if frame_bytes p =? 0 then None else Some (bytes / frame_bytes p).
Definition pcm_frames_to_bytes (p : pcm) (frames : Z) : Z :=
  u32 (u32 (frames * channels (config p)) * (pcm_format_to_bits (format (config p)) ≫ 3)).

(** ** Calls *)

Section Pcm.
Context `{!PcmDev}.

Section Calls.
Context {S : Type}.
Abbreviation PM := (ST (pworld S)).

(** A call that can fail: whether it did, and what it returns. *)
Definition pcall_ {A} (reply : plog → Z * A) (ev : Z → pcall) : PM (bool * A) :=
  λ w, let '(e, a) := reply (pcalls w) in
       Some ((negb (e =? 0), a), PWorld (pobj w) (if e =? 0 then perrno w else e) (ev e :: pcalls w)).
Definition ioctl (reply : plog → Z) (ev : Z → pcall) : PM bool :=
  '(failed, _) ← pcall_ (λ h, (reply h, ())) ev; mret failed.
Definition note (c : pcall) : PM () := modify (λ w, PWorld (pobj w) (perrno w) (c :: pcalls w)).
Definition calloc : PM bool := λ w, let ok := pd_calloc (pcalls w) in Some (ok, PWorld (pobj w) (perrno w) (PCalloc ok :: pcalls w)).
(** The descriptor, or -1. *)
Definition dev_open (card device flags : Z) : PM Z :=
  λ w, match pd_open (pcalls w) card device flags with
       | inl e => Some (-1, PWorld (pobj w) e (POpen card device flags (-1) e :: pcalls w))
       | inr d => Some (d, PWorld (pobj w) (perrno w) (POpen card device flags d 0 :: pcalls w))
       end.
Definition dev_close (d : Z) : PM () := note (PClose d).
End Calls.

Abbreviation PM := (ST (pworld pcm)).

Definition getP : PM pcm := gets pobj.
Definition updP (f : pcm → pcm) : PM () := modify (λ w, PWorld (f (pobj w)) (perrno w) (pcalls w)).
Definition get_errno {S} : ST (pworld S) Z := gets perrno.

(** Run a method on an object of its own. *)
Definition on {S A} (p : pcm) (m : PM A) : ST (pworld S) (A * pcm) :=
  λ w, match m (PWorld p (perrno w) (pcalls w)) with
       | Some (a, w') => Some ((a, pobj w'), PWorld (pobj w) (perrno w') (pcalls w'))
       | None => None
       end.

(** ** Configuration *)

Definition default_config : pcm_config := mkPcmCfg 2 48000 1024 4 PCM_FORMAT_S16_LE 4096 4096 0.

(** [while (boundary * 2 <= INT_MAX - buffer_size) boundary *= 2], in
    unsigned arithmetic.  Thirty-two doublings clear every bit, so a loop that
    has not ended by then does not end. *)
Fixpoint double_boundary (n : nat) (b bs : Z) : option Z :=
  match n with
  | O => None
  | Datatypes.S n' => if u32 (b * 2) <=? u32 (INT_MAX - bs) then double_boundary n' (u32 (b * 2)) bs else Some b
  end.

(** The parameters asked of the driver. *)
Definition request_params (c : pcm_config) (fl : Z) : option hw_params :=
  let p := param_init in
  p ← param_set_mask p HW_PARAM_FORMAT (pcm_format_to_alsa (format c));
  p ← param_set_mask p HW_PARAM_SUBFORMAT 0;
  p ← param_set_min p HW_PARAM_PERIOD_SIZE (period_size c);
  p ← param_set_int p HW_PARAM_SAMPLE_BITS (pcm_format_to_bits (format c));
  p ← param_set_int p HW_PARAM_FRAME_BITS (u32 (pcm_format_to_bits (format c) * channels c));
  p ← param_set_int p HW_PARAM_CHANNELS (channels c);
  p ← param_set_int p HW_PARAM_PERIODS (period_count c);
  p ← param_set_int p HW_PARAM_RATE (rate c);
  let p := if has fl PCM_NOIRQ then p <| hp_flags := Z.lor (hp_flags p) NO_PERIOD_WAKEUP |> else p in
  param_set_mask p HW_PARAM_ACCESS (if has fl PCM_MMAP then ACCESS_MMAP_INTERLEAVED else ACCESS_RW_INTERLEAVED).

(** With a null configuration the code goes on with its own one, which the
    reply of the driver changes; with the caller's it goes on with that. *)
Definition pcm_set_config (cfg : option pcm_config) : PM Z :=
  let rd : PM pcm_config := match cfg with Some c => mret c | None => p ← getP; mret (config p) end in
  updP (λ p, p <| config := default default_config cfg |>);;
  p ← getP;
  let fl := flags p in
  if has fl PCM_NOIRQ && negb (has fl PCM_MMAP) then mret (- EINVAL) else
  c ← rd;
  when (has fl PCM_NOIRQ) (updP (λ p, p <| noirq_frames_per_msec := rate c / 1000 |>));;
  params ← lift (request_params c fl);
  '(failed, params) ← pcall_ (λ h, pd_hw_params h (fd p) params) (PHwParams (fd p) params);
  if failed : bool then e ← get_errno; mret (- e) else
  ps ← lift (param_get_int params HW_PARAM_PERIOD_SIZE);
  pc ← lift (param_get_int params HW_PARAM_PERIODS);
  updP (λ p, p <| config := (config p) <| period_size := ps |> <| period_count := pc |> |>);;
  c ← rd;
  let bs := u32 (period_count c * period_size c) in
  updP (λ p, p <| buffer_size := bs |>);;
  p ← getP;
  failed ← (if has fl PCM_MMAP then
              let len := pcm_frames_to_bytes p bs in
              failed ← ioctl (λ h, pd_map h (fd p) PgBuffer len) (PMap (fd p) PgBuffer len);
              when (negb failed) (updP (λ p, p <| buffer_map := Some len |>));;
              mret failed
            else mret false);
  if failed : bool then e ← get_errno; mret (- e) else
  let start := if start_threshold c =? 0
               then if has fl PCM_IN then 1 else bs / 2 else start_threshold c in
  when (start_threshold c =? 0) (updP (λ p, p <| config := (config p) <| start_threshold := start |> |>));;
  let stop := if stop_threshold c =? 0
              then if has fl PCM_IN then u32 (bs * 10) else bs else stop_threshold c in
  when (stop_threshold c =? 0) (updP (λ p, p <| config := (config p) <| stop_threshold := stop |> |>));;
  b ← lift (double_boundary 32 bs bs);
  updP (λ p, p <| boundary := b |>);;
  let sp := mkSwp start stop (silence_threshold c) bs (period_size c / 2) 1 in
  failed ← ioctl (λ h, pd_sw_params h (fd p) sp) (PSwParams (fd p) sp);
  if failed : bool then e ← get_errno; mret (- e) else mret 0.

(** ** The shared areas *)

Definition SYNC_HWSYNC : Z := 1.
Definition SYNC_APPL : Z := 2.

Definition pcm_sync_ptr (fl : Z) : PM Z :=
  p ← getP;
  match mmaps p with
  | MSync a =>
      '(failed, a') ← pcall_ (λ h, pd_sync h (fd p) fl a) (PSyncPtr (fd p) fl a);
      if failed : bool then mret (-1) else updP (λ p, p <| mmaps := MSync a' |>);; mret 0
  | _ => mret (-1)
  end.

Definition pcm_hw_mmap_status : PM Z :=
  p ← getP;
  match mmaps p with
  | MSync _ => mret 0
  | _ =>
      let mmap_error : PM Z :=
        ok ← calloc;
        if negb ok then updP (λ p, p <| mmaps := MNone |>);; mret (- ENOMEM) else
        updP (λ p, p <| mmaps := MSync (mkAreas 0 0 (0, 0) 0 1) |>);;
        pcm_sync_ptr 0;;
        mret 0 in
      failed ← ioctl (λ h, pd_map h (fd p) PgStatus 0) (PMap (fd p) PgStatus 0);
      if failed : bool then mmap_error else
      failed ← ioctl (λ h, pd_map h (fd p) PgControl 0) (PMap (fd p) PgControl 0);
      if failed : bool then note (PUnmap PgStatus);; mmap_error else
      h ← gets pcalls;
      note (PSetControl (fd p) (ar_appl_ptr (pd_areas h (fd p))) 1);;
      updP (λ p, p <| mmaps := MMapped |>);;
      mret 0
  end.

Definition pcm_hw_munmap_status : PM () :=
  p ← getP;
  when (match mmaps p with MMapped => true | _ => false end) (note (PUnmap PgStatus);; note (PUnmap PgControl));;
  updP (λ p, p <| mmaps := MNone |>).

(** ** State of the device *)

Definition pcm_prepare : PM Z :=
  p ← getP;
  if prepared p then mret 0 else
  failed ← ioctl (λ h, pd_prepare h (fd p)) (PPrepare (fd p));
  if failed : bool then mret (-1) else
  updP (λ p, p <| prepared := true |>);; mret 0.

Definition pcm_start : PM Z :=
  e ← pcm_prepare;
  if negb (e =? 0) then mret e else
  p ← getP;
  when (has (flags p) PCM_MMAP) (pcm_sync_ptr 0;; mret ());;
  failed ← ioctl (λ h, pd_start h (fd p)) (PStart (fd p));
  if failed : bool then mret (-1) else
  updP (λ p, p <| running := true |>);; mret 0.

Definition pcm_stop : PM Z :=
  p ← getP;
  failed ← ioctl (λ h, pd_drop h (fd p)) (PDrop (fd p));
  if failed : bool then mret (-1) else
  updP (λ p, p <| prepared := false |> <| running := false |>);; mret 0.

Definition pcm_link (fd2 : Z) : PM Z :=
  p ← getP; failed ← ioctl (λ h, pd_link h (fd p) fd2) (PLink (fd p) fd2); mret (if failed : bool then -1 else 0).
Definition pcm_unlink : PM Z :=
  p ← getP; failed ← ioctl (λ h, pd_unlink h (fd p)) (PUnlink (fd p)); mret (if failed : bool then -1 else 0).
Definition pcm_get_delay : PM Z :=
  p ← getP;
  '(failed, d) ← pcall_ (λ h, pd_delay h (fd p)) (PDelay (fd p));
  if failed : bool then mret (-1) else updP (λ p, p <| pcm_delay := d |>);; mret d.

(** ** Opening and closing *)

(** [bad_pcm] is static; all other handles are allocated. *)
Inductive handle := HBad | HPcm (p : pcm).

Definition handle_fd (h : handle) : Z := match h with HBad => -1 | HPcm p => fd p end.
Definition pcm_is_ready (h : handle) : bool := handle_fd h >=? 0.

Definition new_pcm (fl : Z) : pcm := mkPcm
  0 fl false false 0 0 0 (mkPcmCfg 0 0 0 0 PCM_FORMAT_S16_LE 0 0 0) MNone None 0 0 0.

(** The body after the allocation, on the new object. *)
Definition open_body (card device fl : Z) (cfg : option pcm_config) : PM () :=
  d ← dev_open card device fl;
  updP (λ p, p <| fd := d |>);;
  if d <? 0 then mret () else
  let fail_close : PM () := p ← getP; dev_close (fd p);; updP (λ p, p <| fd := -1 |>) in
  let fail : PM () := p ← getP; when (has fl PCM_MMAP) (note (PUnmap PgBuffer));; fail_close in
  '(failed, sub) ← pcall_ (λ h, pd_info h d) (λ e, PInfo d 0 e);
  if failed : bool then fail_close else
  updP (λ p, p <| subdevice := sub |>);;
  r ← pcm_set_config cfg;
  if negb (r =? 0) then fail_close else
  rc ← pcm_hw_mmap_status;
  if rc <? 0 then fail else
  failed ← (if has fl PCM_MONOTONIC then ioctl (λ h, pd_ttstamp h d) (PTtstamp d) else mret false);
  if failed : bool then fail else
  updP (λ p, p <| underruns := 0 |>).

Definition pcm_open {S} (card device fl : Z) (cfg : option pcm_config) : ST (pworld S) handle :=
  ok ← calloc;
  if negb ok then mret HBad else
  '(_, p) ← on (new_pcm fl) (open_body card device fl cfg);
  mret (HPcm p).

(** The body before the memory is freed.  The mapping of the buffer is
    released whatever [mmap_buffer] holds. *)
Definition close_body : PM () :=
  pcm_hw_munmap_status;;
  p ← getP;
  when (has (flags p) PCM_MMAP) (pcm_stop;; note (PUnmap PgBuffer));;
  p ← getP;
  when (fd p >=? 0) (dev_close (fd p)).

Definition pcm_close {S} (h : handle) : ST (pworld S) () :=
  match h with
  | HBad => mret ()
  | HPcm p => on p close_body;; mret ()
  end.

(** ** Reading and writing *)

Definition add_underrun : PM () :=
  p ← getP; n ← lift (ck32 (underruns p + 1)); updP (λ p, p <| underruns := n |>).

(** A failed transfer. *)
Definition stopped : PM () := updP (λ p, p <| prepared := false |> <| running := false |>).

Definition write_frames (data : list Z) (frames : Z) : PM (bool * Z) :=
  p ← getP; pcall_ (λ h, pd_writei h (fd p) data frames) (PWritei (fd p) data frames).

(** The loop; [None] when the fuel is used up. *)
Fixpoint writei_loop (fuel : nat) (data : list Z) (frames : Z) : PM Z :=
  match fuel with
  | O => ub
  | Datatypes.S fuel' =>
      p ← getP;
      if negb (running p) then
        e ← pcm_prepare;
        if negb (e =? 0) then mret e else
        '(failed, _) ← write_frames data frames;
        if failed : bool then mret (-1) else
        updP (λ p, p <| running := true |>);; mret 0
      else
        '(failed, r) ← write_frames data frames;
        if failed : bool then
          stopped;;
          e ← get_errno;
          if e =? EPIPE then
            add_underrun;;
            if has (flags p) PCM_NORESTART then mret (- EPIPE) else writei_loop fuel' data frames
          else mret (-1)
        else mret r
  end.

Definition pcm_writei (fuel : nat) (data : list Z) (frame_count : Z) : PM Z :=
  p ← getP;
  if has (flags p) PCM_IN then mret (- EINVAL) else
  if frame_count >? TINYALSA_FRAMES_MAX then mret (- EINVAL) else
  if frame_count >? INT_MAX then mret (- EINVAL) else
  writei_loop fuel data frame_count.

(** The result and the data read. *)
Fixpoint readi_loop (fuel : nat) (frames : Z) : PM (Z * list Z) :=
  match fuel with
  | O => ub
  | Datatypes.S fuel' =>
      p ← getP;
      started ← (if running p then mret true else r ← pcm_start; mret (negb (r <? 0)));
      if negb started then e ← get_errno; mret (- e, []) else
      '(failed, (r, data)) ← pcall_ (λ h, let '(e, r, data) := pd_readi h (fd p) frames in (e, (r, data))) (PReadi (fd p) frames);
      if failed : bool then
        stopped;;
        e ← get_errno;
        if e =? EPIPE then add_underrun;; readi_loop fuel' frames else mret (-1, [])
      else mret (r, data)
  end.

Definition pcm_readi (fuel : nat) (frame_count : Z) : PM (Z * list Z) :=
  p ← getP;
  if negb (has (flags p) PCM_IN) then mret (- EINVAL, []) else
  if frame_count >? TINYALSA_FRAMES_MAX then mret (- EINVAL, []) else
  if frame_count >? INT_MAX then mret (- EINVAL, []) else
  readi_loop fuel frame_count.

Definition pcm_write (fuel : nat) (data : list Z) (count : Z) : PM Z :=
  p ← getP; n ← lift (pcm_bytes_to_frames p count); pcm_writei fuel data n.
Definition pcm_read (fuel : nat) (count : Z) : PM (Z * list Z) :=
  p ← getP; n ← lift (pcm_bytes_to_frames p count); pcm_readi fuel n.

(** ** Parameters without a handle *)

Definition pcm_params_get (card device fl : Z) : ST (pworld ()) (option hw_params) :=
  d ← dev_open card device fl;
  if d <? 0 then mret None else
  ok ← calloc;
  if negb ok then dev_close d;; mret None else
  '(failed, p) ← pcall_ (λ h, pd_hw_refine h d param_init) (PHwRefine d);
  dev_close d;;
  mret (if failed : bool then None else Some p).

End Pcm.
