(* ===== verification/PcmSpec.v ===== *)
(** * What the PCM library does

    The ring boundary, the resources of opening and closing, and the transfer
    loops: how often they call the driver, when they end, and what their result
    says about the device. *)

From S2P Require Import Prelude Monad Mixer Pcm.

#[local] Open Scope Z_scope.

(** ** The boundary of the ring pointers *)

Lemma u32_double b : 0 <= b <= INT_MAX → u32 (b * 2) = b * 2.
Proof. intros. apply u32_id. unfold INT_MAX in *. lia. Qed.

Lemma double_boundary_ok n b bs : 0 < bs <= INT_MAX → 0 < b <= INT_MAX → INT_MAX < b * 2 ^ Z.of_nat n →
  ∃ k, 0 <= k ∧ double_boundary n b bs = Some (b * 2 ^ k) ∧ b * 2 ^ k <= INT_MAX ∧ INT_MAX - bs < b * 2 ^ k * 2.
Proof.
  revert b. induction n as [|n IH]; intros b Hbs Hb Hn; simpl.
  { change (2 ^ Z.of_nat 0) with 1 in Hn. lia. }
  rewrite u32_double, (u32_id (INT_MAX - bs)) by (unfold INT_MAX in *; lia). destruct (Z.leb_spec (b * 2) (INT_MAX - bs)).
  - rewrite Nat2Z.inj_succ, Z.pow_succ_r in Hn by lia. destruct (IH (b * 2)) as (k & Hk & E & ? & ?); [done|lia|lia|].
    exists (k + 1). rewrite Z.pow_add_r, Z.pow_1_r by lia. rewrite E. replace (b * (2 ^ k * 2)) with (b * 2 * 2 ^ k) by lia.
    split_and!; [lia|done|lia|lia].
  - exists 0. rewrite Z.pow_0_r, Z.mul_1_r. split_and!; [lia|done|lia|lia].
Qed.

(** For every buffer of a positive, representable size the search of
    [pcm_set_config] ends and gives a multiple of the size by a power of two,
    the largest that the test allows; it fits an [int]. *)
Theorem boundary_found bs : 0 < bs <= INT_MAX →
  ∃ k, 0 <= k ∧ double_boundary 32 bs bs = Some (bs * 2 ^ k) ∧ bs * 2 ^ k <= INT_MAX ∧ INT_MAX - bs < bs * 2 ^ k * 2.
Proof. intros H. apply double_boundary_ok; [done|done|]. unfold INT_MAX in *. lia. Qed.

Lemma boundary_found_witness : 0 < 1024 <= INT_MAX ∧ ∃ k, 0 <= k ∧ double_boundary 32 1024 1024 = Some (1024 * 2 ^ k) ∧
  1024 * 2 ^ k <= INT_MAX ∧ INT_MAX - 1024 < 1024 * 2 ^ k * 2.
Proof. assert (0 < 1024 <= INT_MAX) as H by (unfold INT_MAX; lia). split; [exact H|]. apply (boundary_found 1024 H). Defined.

Lemma boundary_defined bs : 0 < bs <= INT_MAX → is_Some (double_boundary 32 bs bs).
Proof. intros H. destruct (double_boundary_ok 32 bs bs) as (k & _ & -> & _); [done|done|unfold INT_MAX in *; lia|]. by eexists. Qed.

(** For an empty buffer it never ends. *)
Lemma boundary_zero n : double_boundary n 0 0 = None.
Proof. induction n as [|n IH]; [done|]. simpl. exact IH. Qed.

(** ** Documented behaviour of the driver *)

Class PcmDevOk (D : PcmDev) : Prop := {
  pd_open_fd : ∀ h c d f n, pd_open h c d f = inr n → 0 <= n;
  (* the structure keeps its twelve intervals *)
  pd_hw_len : ∀ h d p, length (intervals p) = 12%nat → length (intervals (pd_hw_params h d p).2) = 12%nat;
  pd_prepare_err : ∀ h d, 0 <= pd_prepare h d;
  pd_start_err : ∀ h d, 0 <= pd_start h d;
  pd_writei_res : ∀ h d data n, 0 <= (pd_writei h d data n).1 ∧ 0 <= (pd_writei h d data n).2;
  pd_readi_res : ∀ h d n, 0 <= (pd_readi h d n).1.1 ∧ 0 <= (pd_readi h d n).1.2 }.

(** ** Symbolic execution *)

Section Rules.
Context {S : Type}.
Implicit Types (w : pworld S).

Lemma wp_pcall {A} (reply : plog → Z * A) ev (Q : bool * A → pworld S → Prop) w :
  (∀ e a, reply (pcalls w) = (e, a) →
    Q (negb (e =? 0), a) (PWorld (pobj w) (if e =? 0 then perrno w else e) (ev e :: pcalls w))) → wp (pcall_ reply ev) Q w.
Proof. intros HQ. unfold wp, pcall_. destruct (reply (pcalls w)) as [e a] eqn:E. by apply HQ. Qed.

Lemma wp_ioctl (reply : plog → Z) ev (Q : bool → pworld S → Prop) w :
  (let e := reply (pcalls w) in
   Q (negb (e =? 0)) (PWorld (pobj w) (if e =? 0 then perrno w else e) (ev e :: pcalls w))) → wp (ioctl reply ev) Q w.
Proof. done. Qed.

Lemma wp_gets_p {A} (f : pworld S → A) Q w : Q (f w) w → wp (gets f) Q w.
Proof. done. Qed.
Lemma wp_modify_p f (Q : () → pworld S → Prop) w : Q () (f w) → wp (modify f) Q w.
Proof. done. Qed.
Lemma wp_ret_p {A} (a : A) (Q : A → pworld S → Prop) w : Q a w → wp (mret a) Q w.
Proof. done. Qed.
Lemma wp_when_p (b : bool) (m : ST (pworld S) ()) Q w :
  (b = true → wp m Q w) → (b = false → Q () w) → wp (when b m) Q w.
Proof. intros Ht Hf. destruct b; [by apply Ht|by apply Hf]. Qed.
Lemma wp_if_p {A} (b : bool) (m1 m2 : ST (pworld S) A) Q w :
  (b = true → wp m1 Q w) → (b = false → wp m2 Q w) → wp (if b then m1 else m2) Q w.
Proof. destruct b; auto. Qed.
Lemma wp_lift_p {A} (o : option A) a (Q : A → pworld S → Prop) w : o = Some a → Q a w → wp (lift o) Q w.
Proof. by intros ->. Qed.

Context `{!PcmDev}.
Lemma wp_on {A} (p : pcm) (m : ST (pworld pcm) A) (Q : A * pcm → pworld S → Prop) w :
  wp m (λ a (w' : pworld pcm), Q (a, pobj w') (PWorld (pobj w) (perrno w') (pcalls w'))) (PWorld p (perrno w) (pcalls w)) → wp (on p m) Q w.
Proof. unfold wp, on. by destruct (m _) as [[a w']|]. Qed.
Lemma wp_calloc (Q : bool → pworld S → Prop) w :
  (∀ ok, Q ok (PWorld (pobj w) (perrno w) (PCalloc ok :: pcalls w))) → wp calloc Q w.
Proof. intros HQ. apply HQ. Qed.
End Rules.

Ltac pp_step :=
  lazymatch goal with
  | |- wp (mbind _ _) _ _ => apply wp_bind
  | |- wp (mret _) _ _ => apply wp_ret_p
  | |- wp (gets _) _ _ => apply wp_gets_p
  | |- wp getP _ _ => apply wp_gets_p
  | |- wp get_errno _ _ => apply wp_gets_p
  | |- wp (modify _) _ _ => apply wp_modify_p
  | |- wp (updP _) _ _ => apply wp_modify_p
  | |- wp stopped _ _ => apply wp_modify_p
  | |- wp (note _) _ _ => apply wp_modify_p
  | |- wp (dev_close _) _ _ => apply wp_modify_p
  | |- wp calloc _ _ => apply wp_calloc; intros ?
  | |- wp (when _ _) _ _ => apply wp_when_p; intros ?
  | |- wp (ioctl _ _) _ _ => apply wp_ioctl
  | |- wp (pcall_ _ _) _ _ => apply wp_pcall; intros ? ? ?
  | |- wp (if ?b then _ else _) _ _ => first [apply wp_if_p; intros ? | destruct b eqn:?]
  | |- wp (let '(_, _) := ?x in _) _ _ => destruct x eqn:?
  | |- wp (match ?x with _ => _ end) _ _ => destruct x eqn:?
  end.
Ltac pp_steps := repeat (pp_step; cbn beta zeta; cbn [pobj perrno pcalls]).

(** ** Descriptors *)

(** How often a descriptor is open, by the log. *)
Definition fd_delta (c : pcall) (d : Z) : Z :=
  match c with
  | POpen _ _ _ n _ => if (n =? d) && (0 <=? n) then 1 else 0
  | PClose n => if n =? d then -1 else 0
  | _ => 0
  end.
Fixpoint fds (l : plog) (d : Z) : Z := match l with [] => 0 | c :: l' => fds l' d + fd_delta c d end.

(** The descriptor of a handle. *)
Definition fd_of (n d : Z) : Z := if (n =? d) && (0 <=? n) then 1 else 0.

Lemma fd_of_neg n d : n < 0 → fd_of n d = 0.
Proof. intros Hn. unfold fd_of. destruct (Z.leb_spec 0 n); [lia|]. by rewrite andb_false_r. Qed.
Lemma fd_of_close n d : 0 <= n → (if n =? d then -1 else 0) = - fd_of n d.
Proof. intros Hn. unfold fd_of. destruct (Z.leb_spec 0 n); [|lia]. by destruct (n =? d). Qed.

Ltac same := split_and!; [done|done|intros ?; simpl; lia].

Section Resources.
Context `{D : PcmDev, !PcmDevOk D}.

(** The object keeps its descriptor and flags, no descriptor is opened or closed. *)
Definition same_fd (w w' : pworld pcm) : Prop :=
  fd (pobj w') = fd (pobj w) ∧ flags (pobj w') = flags (pobj w) ∧ ∀ d, fds (pcalls w') d = fds (pcalls w) d.

Lemma same_fd_trans w1 w2 w3 : same_fd w1 w2 → same_fd w2 w3 → same_fd w1 w3.
Proof. intros (A1 & B1 & C1) (A2 & B2 & C2). split_and!; [congruence..|]. intros d. by rewrite C2. Qed.

(** The shape of the structure: three masks of eight words, twelve intervals. *)
Definition hwp_wf (p : hw_params) : Prop :=
  length (masks p) = 3%nat ∧ Forall (λ m, length m = 8%nat) (masks p) ∧ length (intervals p) = 12%nat.

Lemma st_in_place {A} (l : list A) i x : 0 <= i < blen l → ∃ l', st l i x = Some l' ∧ l' = <[Z.to_nat i := x]> l.
Proof.
  intros Hi. unfold st, stn. rewrite bool_decide_true by (unfold blen in *; simpl; lia). eexists. split; [done|]. by destruct (Z.to_nat i).
Qed.

Lemma set_mask_ok p n bit : hwp_wf p → 0 <= bit → ∃ p', param_set_mask p n bit = Some p' ∧ hwp_wf p'.
Proof.
  intros (H3 & H8 & H12) Hb. unfold param_set_mask, MASK_MAX. destruct (Z.geb_spec bit 256); [by eexists|].
  unfold param_is_mask, FIRST_MASK, LAST_MASK. destruct (_ && _) eqn:E; [|by eexists]. zbool.
  unfold param_to_mask, FIRST_MASK. destruct (ld_lt (masks p) (n - 0)) as [m Hm]; [unfold blen; lia|]. rewrite Hm. cbn [mbind option_bind].
  assert (length m = 8%nat) as Lm.
  { unfold ld in Hm. rewrite bool_decide_true in Hm by lia. exact (Forall_lookup_1 _ _ _ _ H8 Hm). }
  destruct (st_in_place m 0 0) as (m1 & -> & E1); [unfold blen; lia|]. cbn [mbind option_bind].
  assert (length m1 = 8%nat) as L1 by (by rewrite E1, length_insert).
  destruct (st_in_place m1 1 0) as (m2 & -> & E2); [unfold blen; lia|]. cbn [mbind option_bind].
  assert (length m2 = 8%nat) as L2 by (by rewrite E2, length_insert).
  assert (0 <= bit ≫ 5 < 8) as Hs by (rewrite shiftr_div by lia; change (2 ^ 5) with 32; split; [apply Z.div_pos; lia|apply Z.div_lt_upper_bound; lia]).
  destruct (ld_lt m2 (bit ≫ 5)) as [b ->]; [unfold blen; lia|]. cbn [mbind option_bind].
  destruct (st_in_place m2 (bit ≫ 5) (Z.lor b (1 ≪ Z.land bit 31))) as (m3 & -> & E3); [unfold blen; lia|]. cbn [mbind option_bind].
  destruct (st_in_place (masks p) (n - 0) m3) as (l & -> & El); [unfold blen; lia|]. cbn [mbind option_bind].
  eexists. split; [done|]. unfold hwp_wf. simpl. subst l. rewrite length_insert. split_and!; [done| |done].
  apply Forall_insert; [done|]. by rewrite E3, length_insert.
Qed.

Lemma set_interval_ok p n f : hwp_wf p → ∃ p', set_interval p n f = Some p' ∧ hwp_wf p'.
Proof.
  intros (H3 & H8 & H12). unfold set_interval, param_is_interval, FIRST_INTERVAL, LAST_INTERVAL. destruct (_ && _) eqn:E; [|by eexists]. zbool.
  unfold param_to_interval, FIRST_INTERVAL. destruct (ld_lt (intervals p) (n - 8)) as [i ->]; [unfold blen; lia|]. cbn [mbind option_bind].
  destruct (st_in_place (intervals p) (n - 8) (f i)) as (l & -> & El); [unfold blen; lia|]. cbn [mbind option_bind].
  eexists. split; [done|]. unfold hwp_wf. simpl. by rewrite El, length_insert.
Qed.

Lemma request_params_ok c fl : ∃ p, request_params c fl = Some p ∧ length (intervals p) = 12%nat.
Proof.
  assert (hwp_wf param_init) as H0 by (by repeat constructor).
  unfold request_params, param_set_min, param_set_int.
  destruct (set_mask_ok param_init HW_PARAM_FORMAT (pcm_format_to_alsa (format c)) H0) as (p1 & -> & H1); [by destruct (format c)|].
  cbn [mbind option_bind]. destruct (set_mask_ok p1 HW_PARAM_SUBFORMAT 0 H1) as (p2 & -> & H2); [done|].
  clear H0 H1. cbn [mbind option_bind].
  do 6 (match goal with |- context [set_interval ?p ?n ?f] =>
    let q := fresh "q" in let Hq := fresh "Hq" in destruct (set_interval_ok p n f) as (q & -> & Hq); [done|]; cbn [mbind option_bind] end).
  match goal with |- context [param_set_mask (if _ then ?q1 else ?q2) ?n ?b] =>
    destruct (set_mask_ok (if has fl PCM_NOIRQ then q1 else q2) n b) as (p' & -> & (_ & _ & Hl)) end; [| |by eexists].
  - by destruct (has fl PCM_NOIRQ).
  - by destruct (has fl PCM_MMAP).
Qed.

Lemma get_int_ok p n : length (intervals p) = 12%nat → ∃ v, param_get_int p n = Some v.
Proof.
  intros Hl. unfold param_get_int, param_is_interval, FIRST_INTERVAL, LAST_INTERVAL. destruct (_ && _) eqn:E; [|eauto]. zbool.
  unfold param_to_interval, FIRST_INTERVAL. destruct (ld_lt (intervals p) (n - 8)) as [i Hi]; [unfold blen; lia|]. rewrite Hi. simpl. eauto.
Qed.

(** The sizes of a configuration the library accepts. *)
Definition sizes_ok (c : pcm_config) : Prop := 0 < u32 (period_count c * period_size c) <= INT_MAX.

(** A device that has just been configured. *)
Definition idle (c : pcm_config) (p : pcm) : Prop :=
  running p = false ∧ prepared p = false ∧ channels (config p) = channels c ∧ format (config p) = format c.

Ltac idled := split; [same|split_and!; done].

Lemma set_config_wp c w : sizes_ok c → running (pobj w) = false → prepared (pobj w) = false →
  wp (pcm_set_config (Some c)) (λ _ w', same_fd w w' ∧ idle c (pobj w')) w.
Proof.
  intros Hs Hr Hp0. destruct (boundary_defined _ Hs) as [b Hb]. destruct (request_params_ok c (flags (pobj w))) as (p & Hp & Hlen).
  unfold pcm_set_config. pp_steps; try by idled.
  all: eapply wp_lift_p; [exact Hp|]; pp_steps; try by idled.
  all: pose proof (pd_hw_len (pcalls w) (fd (pobj w)) p Hlen) as Hl.
  all: match goal with E : pd_hw_params _ _ _ = _ |- _ => simpl in E; rewrite E in Hl end; simpl in Hl.
  all: destruct (get_int_ok _ HW_PARAM_PERIOD_SIZE Hl) as [v Hv], (get_int_ok _ HW_PARAM_PERIODS Hl) as [v' Hv'].
  all: eapply wp_lift_p; [exact Hv|]; pp_steps; eapply wp_lift_p; [exact Hv'|]; pp_steps; try by idled.
  all: eapply wp_lift_p; [exact Hb|]; pp_steps; by idled.
Qed.

Lemma sync_ptr_wp fl w : wp (pcm_sync_ptr fl) (λ _ w', same_fd w w' ∧ ∀ c, idle c (pobj w) → idle c (pobj w')) w.
Proof. unfold pcm_sync_ptr. pp_steps; (split; [by same|done]). Qed.

Lemma mmap_status_wp w : wp pcm_hw_mmap_status (λ _ w', same_fd w w' ∧ ∀ c, idle c (pobj w) → idle c (pobj w')) w.
Proof.
  unfold pcm_hw_mmap_status. pp_steps; try (split; [by same|done]).
  all: eapply wp_mono; [apply sync_ptr_wp|]; intros r w' (Hs & Hi); pp_steps; (split; [eapply same_fd_trans; [|exact Hs]; by same|]); intros c Hc; by apply Hi.
Qed.

Lemma dev_open_wp {S} card device fl (w : pworld S) :
  wp (dev_open card device fl) (λ n w', pobj w' = pobj w ∧ -1 <= n ∧ ∀ d, fds (pcalls w') d = fds (pcalls w) d + fd_of n d) w.
Proof.
  unfold wp, dev_open. destruct (pd_open _ _ _ _) as [e|n] eqn:E; simpl.
  - split_and!; [done|lia|]. done.
  - apply pd_open_fd in E. split_and!; [done|lia|]. done.
Qed.

(** Opening leaves exactly the descriptor of a ready handle open. *)
Lemma open_body_wp card device fl c w : sizes_ok c → flags (pobj w) = fl → running (pobj w) = false → prepared (pobj w) = false →
  wp (open_body card device fl (Some c)) (λ _ w', -1 <= fd (pobj w') ∧ flags (pobj w') = fl ∧
    (0 <= fd (pobj w') → idle c (pobj w') ∧ underruns (pobj w') = 0) ∧ ∀ d, fds (pcalls w') d = fds (pcalls w) d + fd_of (fd (pobj w')) d) w.
Proof.
  intros Hs Hfl Hr Hp. unfold open_body. apply wp_bind. eapply wp_mono; [apply dev_open_wp|]. intros n w1 (Ew & Hn & Hd). apply wp_bind.
  pp_step. cbn beta zeta. rewrite Ew.
  destruct (Z.ltb_spec n 0) as [Hneg|Hpos]; [pp_steps; split_and!; [done|done|simpl; lia|done]|].
  assert (∀ x d, (x + fd_of n d) + (if n =? d then -1 else 0) = x + fd_of (-1) d) as Hc.
  { intros x d. rewrite fd_of_close, (fd_of_neg (-1)) by lia. lia. }
  pp_steps.
  - split_and!; [simpl; lia|done|simpl; lia|]. intros d. simpl. rewrite <- Hc, Hd. lia.
  - eapply wp_mono; [by apply set_config_wp|]. intros r w2 ((Hf2 & Hl2 & Hd2) & Hi2). simpl in Hf2, Hl2, Hd2.
    assert (∀ d, fds (pcalls w2) d = fds (pcalls w) d + fd_of n d) as Hd2' by (intros d; rewrite Hd2, Hd; lia).
    pp_steps.
    + split_and!; [simpl; lia|simpl; congruence|simpl; lia|]. intros d. simpl. rewrite <- Hc, Hd2', Hf2. lia.
    + eapply wp_mono; [apply mmap_status_wp|]. intros rc w3 ((Hf3 & Hl3 & Hd3) & Hi3). specialize (Hi3 _ Hi2).
      assert (fd (pobj w3) = n) as Hn3 by congruence.
      assert (∀ d, fds (pcalls w3) d = fds (pcalls w) d + fd_of n d) as Hd3' by (intros d; rewrite Hd3, Hd2'; lia).
      pp_steps; (split_and!; [simpl; lia|simpl; congruence|simpl; first [lia|by intros _]|]); intros d; simpl; rewrite ?Hn3, ?Z.add_0_r, Hd3'; [by rewrite ?Hc..|done|done].
Qed.

Lemma pcm_open_wp {S} card device fl c (w : pworld S) : sizes_ok c →
  wp (pcm_open card device fl (Some c)) (λ h w', pobj w' = pobj w ∧
    (∀ p, h = HPcm p → flags p = fl ∧ (0 <= fd p → idle c p ∧ underruns p = 0)) ∧ ∀ d, fds (pcalls w') d = fds (pcalls w) d + fd_of (handle_fd h) d) w.
Proof.
  intros Hs. unfold pcm_open. pp_steps.
  - split_and!; [done|done|]. intros d. simpl. by rewrite fd_of_neg.
  - apply wp_on. eapply wp_mono; [by apply open_body_wp|]. intros [] w' (Hf & Hfl & Hi & Hd). simpl. apply wp_ret_p.
    split_and!; [done|by intros p [= <-]|]. intros d. simpl. rewrite Hd. simpl. lia.
Qed.

(** Closing gives the descriptor back. *)
Lemma pcm_close_wp {S} h (w : pworld S) :
  wp (pcm_close h) (λ _ w', pobj w' = pobj w ∧ ∀ d, fds (pcalls w') d = fds (pcalls w) d - fd_of (handle_fd h) d) w.
Proof.
  destruct h as [|p]; simpl.
  - apply wp_ret_p. split; [done|]. intros d. rewrite fd_of_neg by lia. lia.
  - apply wp_bind, wp_on. unfold close_body, pcm_hw_munmap_status, pcm_stop.
    pp_steps; simpl; (split; [done|]); intros d; simpl in *; zbool;
      try (rewrite fd_of_close by (simpl in *; lia)); try rewrite fd_of_neg by (simpl in *; lia); lia.
Qed.
End Resources.

(** ** Transfers *)

(** A running device is prepared. *)
Definition pcm_wf (p : pcm) : Prop := running p = true → prepared p = true.

(** The write calls in the log. *)
Fixpoint writes (l : plog) : nat :=
  match l with [] => 0 | PWritei _ _ _ _ :: l' => S (writes l') | _ :: l' => writes l' end.

(** Reads that have just overrun, one after the other. *)
Fixpoint overruns (l : plog) : nat :=
  match l with
  | PReadi _ _ e :: l' => if e =? EPIPE then S (overruns l') else 0
  | PPrepare _ _ :: l' | PStart _ _ :: l' | PSyncPtr _ _ _ _ :: l' => overruns l'
  | _ => 0
  end.

(** What a call leaves alone. *)
Definition keeps (w w' : pworld pcm) : Prop :=
  same_fd w w' ∧ config (pobj w') = config (pobj w) ∧ underruns (pobj w') = underruns (pobj w) ∧
  writes (pcalls w') = writes (pcalls w) ∧ overruns (pcalls w') = overruns (pcalls w).

(** The last call was not a read. *)
Definition no_read (l : plog) : Prop := match l with PReadi _ _ _ :: _ => False | _ => True end.

Section Transfer.
Context `{D : PcmDev, !PcmDevOk D}.

Ltac kept := split; [by same|done].
Ltac kept_by A3 := split; [split_and!; [done|done|intros ?; simpl; rewrite A3; lia]|done].

Lemma prepare_wp w : wp pcm_prepare (λ r w', keeps w w' ∧ running (pobj w') = running (pobj w) ∧
  (r = 0 ∧ prepared (pobj w') = true ∨ r = -1 ∧ 0 < perrno w' ∧ ∃ e l, e ≠ 0 ∧ pcalls w' = PPrepare (fd (pobj w)) e :: l)) w.
Proof.
  unfold pcm_prepare. pp_steps; (split; [by kept|]); (split; [done|]); [by left| |by left]. right. zbool. split; [done|]. simpl in *.
  pose proof (pd_prepare_err (pcalls w) (fd (pobj w))). destruct (Z.eqb_spec (pd_prepare (pcalls w) (fd (pobj w))) 0); [lia|].
  split; [lia|]. eauto.
Qed.

Lemma start_wp w : wp pcm_start (λ r w', keeps w w' ∧
  (r = 0 ∧ prepared (pobj w') = true ∧ running (pobj w') = true ∨
   r = -1 ∧ running (pobj w') = running (pobj w) ∧ 0 < perrno w' ∧ no_read (pcalls w'))) w.
Proof.
  unfold pcm_start. apply wp_bind. eapply wp_mono; [apply prepare_wp|]. intros r w1 (Hk & Hr & [[-> Hp]|(-> & He & e & l & _ & El)]); simpl.
  2:{ pp_steps. split; [done|]. right. rewrite El. by split_and!. }
  set (Q := λ w2 : pworld pcm, keeps w w2 ∧ prepared (pobj w2) = true ∧ running (pobj w2) = running (pobj w)).
  pp_step. cbn beta. pp_step. pp_step. eapply (wp_mono _ (λ _, Q)).
  - apply wp_when_p; [|done]. intros _. apply wp_bind. eapply (wp_mono _ (λ _, Q)); [|by intros]. unfold pcm_sync_ptr.
    destruct Hk as ((A1 & A2 & A3) & B & C & E & F). pp_steps; (split; [kept_by A3|done]).
  - intros [] w2 (((A1 & A2 & A3) & B & C & E & F) & Hp2 & Hr2). pp_steps.
    + split; [kept_by A3|]. right. zbool. simpl in *.
      pose proof (pd_start_err (pcalls w2) (fd (pobj w1))). destruct (Z.eqb_spec (pd_start (pcalls w2) (fd (pobj w1))) 0); [lia|].
      split_and!; [done|done|lia|done].
    + split; [kept_by A3|]. by left.
Qed.

(** ** Writing *)

Abbreviation wrote w w' data n := (∃ l, pcalls w' = PWritei (fd (pobj w)) data n 0 :: l).

(** A write that restarts the device at most once. *)
Record write_post (data : list Z) (n : Z) (k : nat) (r : Z) (w w' : pworld pcm) : Prop := {
  wr_fd : same_fd w w';
  wr_config : config (pobj w') = config (pobj w);
  wr_wf : pcm_wf (pobj w');
  wr_running : running (pobj w') = true ↔ 0 <= r;
  wr_wrote : 0 <= r ↔ wrote w w' data n;
  wr_calls : (writes (pcalls w') <= k + writes (pcalls w))%nat;
  wr_under : underruns (pobj w) <= underruns (pobj w') <= underruns (pobj w) + 1 }.

Lemma write_stopped fuel data n w : running (pobj w) = false →
  wp (writei_loop (S fuel) data n) (λ r w', write_post data n 1 r w w' ∧ underruns (pobj w') = underruns (pobj w)) w.
Proof.
  intros Hr. cbn [writei_loop]. pp_step. pp_step. cbn beta. rewrite Hr. cbn [negb]. apply wp_bind.
  eapply wp_mono; [apply prepare_wp|]. intros r w1 (((A1 & A2 & A3) & B & C & E & F) & Hr1 & [[-> Hp]|(-> & He & e & l & Hne & El)]); simpl.
  - unfold write_frames. pp_steps; (split; [|done]); zbool; simpl in *; (split; simpl; try (split_and!; [done|done|intros d; simpl; rewrite A3; lia]); try done; try lia).
    + intros Hx. congruence.
    + rewrite Hr1, Hr. by split; [|lia].
    + split; [lia|]. intros [l [= _ E0]]. lia.
    + by intros _.
    + subst e. split; [intros _; rewrite A1; eauto|lia].
  - pp_steps. split; [|done]. split; try done; try lia.
    + intros Hx. congruence.
    + rewrite Hr1, Hr. by split; [|lia].
    + split; [lia|]. intros [l' El']. congruence.
Qed.

Lemma pcm_writei_wp fuel data n w : (2 <= fuel)%nat → pcm_wf (pobj w) → has (flags (pobj w)) PCM_IN = false →
  n <= TINYALSA_FRAMES_MAX → INT_MIN <= underruns (pobj w) < INT_MAX →
  wp (pcm_writei fuel data n) (λ r w', write_post data n 2 r w w') w.
Proof.
  intros Hf Hwf Hin Hn Hu. destruct fuel as [|[|fuel]]; [lia|lia|]. unfold pcm_writei. pp_step. pp_step. cbn beta. rewrite Hin.
  destruct (Z.gtb_spec n TINYALSA_FRAMES_MAX); [lia|]. destruct (Z.gtb_spec n INT_MAX); [assert (TINYALSA_FRAMES_MAX <= INT_MAX) by done; lia|].
  destruct (running (pobj w)) eqn:Hr.
  2:{ eapply wp_mono; [by apply write_stopped|]. intros r w' [[] ?]. split; try done. lia. }
  remember (S fuel) as f eqn:Ef. cbn [writei_loop]. pp_step. pp_step. cbn beta. rewrite Hr. cbn [negb]. unfold write_frames. pp_steps; zbool; simpl in *.
  - destruct (Z.eqb_spec e 0); [lia|]. unfold add_underrun. pp_steps. eapply wp_lift_p; [apply ck32_Some; simpl; lia|]. pp_steps.
    + split; simpl; try done; try lia; [by same|]. split; [unfold EPIPE; lia|]. intros [l [=]]. lia.
    + rewrite Ef. eapply wp_mono; [by apply write_stopped|]. intros r w' [[S1 S2 S3 S4 S5 S6 S7] S8]. simpl in *.
      split; try done; try lia. destruct S1 as (B1 & B2 & B3). split_and!; [done|done|]. intros d. rewrite B3. simpl. lia.
  - split; simpl; try done; try lia; [by same|]. split; [lia|]. intros [l [=]]. lia.
  - subst e. destruct (pd_writei_res (pcalls w) (fd (pobj w)) data n) as [_ Hr0]. rewrite H1 in Hr0. simpl in Hr0.
    split; simpl; try done; try lia; [by same|]. split; [eauto|lia].
Qed.

(** C20: A write to a playback device: whatever the driver answers, the loop ends
    after at most two write calls; the result is not negative exactly when
    the last call has written the data, and exactly then the device runs. *)
Theorem pcm_writei_result fuel data n w : (2 <= fuel)%nat → pcm_wf (pobj w) → has (flags (pobj w)) PCM_IN = false →
  n <= TINYALSA_FRAMES_MAX → INT_MIN <= underruns (pobj w) < INT_MAX →
  wp (pcm_writei fuel data n) (λ r w', write_post data n 2 r w w') w.
Proof. intros. by apply pcm_writei_wp. Qed.

(** ** Reading *)

(** The driver answers with at most [K] overruns one after the other. *)
Definition recovers (K : nat) : Prop := ∀ h d n, (pd_readi h d n).1.1 = EPIPE → (overruns h < K)%nat.

Record read_post (n : Z) (r : Z) (w w' : pworld pcm) : Prop := {
  rd_fd : same_fd w w';
  rd_config : config (pobj w') = config (pobj w);
  rd_wf : pcm_wf (pobj w');
  rd_running : running (pobj w') = true ↔ 0 <= r;
  rd_read : 0 <= r ↔ ∃ l, pcalls w' = PReadi (fd (pobj w)) n 0 :: l;
  rd_under : underruns (pobj w) <= underruns (pobj w') }.

Lemma readi_loop_wp K fuel n w : recovers K → pcm_wf (pobj w) → (K <= overruns (pcalls w) + fuel)%nat →
  INT_MIN <= underruns (pobj w) → underruns (pobj w) + Z.of_nat K <= INT_MAX + Z.of_nat (overruns (pcalls w)) →
  wp (readi_loop (S fuel) n) (λ r w', read_post n r.1 w w') w.
Proof.
  intros HK. revert w. induction fuel as [fuel IH] using (well_founded_induction lt_wf). intros w Hwf Hf Hu1 Hu2. cbn [readi_loop].
  pp_step. pp_step. cbn beta. pp_step.
  eapply (wp_mono _ (λ ok w1, keeps w w1 ∧ (ok = true ∧ running (pobj w1) = true ∧ prepared (pobj w1) = true ∨
    ok = false ∧ running (pobj w1) = false ∧ 0 < perrno w1 ∧ no_read (pcalls w1)))).
  { destruct (running (pobj w)) eqn:Hr; [apply wp_ret_p; split; [by kept|left; auto]|]. apply wp_bind. eapply wp_mono; [apply start_wp|].
    intros r w1 [Hk [(-> & ? & ?)|(-> & ? & ? & ?)]]; apply wp_ret_p; (split; [done|]); [by left|right]. split_and!; congruence || done. }
  intros ok w1 [Hk Hok]. destruct Hk as ((A1 & A2 & A3) & B & C & _ & F). destruct Hok as [(-> & Hr & Hp)|(-> & Hr & He & Hno)]; cbn [negb].
  2:{ pp_steps. split; simpl; try done; [by intros Hx; congruence|rewrite Hr; split; [done|lia]|..].
      - split; [lia|]. intros [l El]. by rewrite El in Hno.
      - lia. }
  pp_steps; zbool; simpl in *.
  all: match goal with E : context [pd_readi] |- _ => rename E into Er end.
  all: pose proof (HK (pcalls w1) (fd (pobj w)) n) as Hpat; pose proof (pd_readi_res (pcalls w1) (fd (pobj w)) n) as [_ Hres].
  all: destruct (pd_readi (pcalls w1) (fd (pobj w)) n) as [[e' r'] data'] eqn:Ed; simpl in Er, Hpat, Hres; simplify_eq.
  - destruct (Z.eqb_spec e 0); [lia|]. subst e. specialize (Hpat eq_refl). destruct fuel as [|fuel]; [lia|]. unfold add_underrun. pp_steps.
    eapply wp_lift_p; [apply ck32_Some; simpl; lia|]. pp_steps. eapply wp_mono; [apply (IH fuel); simpl; [lia|done|lia|lia|lia]|].
    intros rr w2 [S1 S2 S3 S4 S5 S6]. simpl in *. split; try done; [|congruence|by rewrite <- A1|lia].
    destruct S1 as (B1 & B2 & B3). split_and!; [by rewrite B1|by rewrite B2|]. intros d. rewrite B3. simpl. rewrite A3. lia.
  - split; simpl; try done; [split_and!; [done|done|intros d; simpl; rewrite A3; lia]|..]; [|lia]. split; [lia|]. intros [l0 [=]]. lia.
  - split; simpl; [split_and!; [done|done|intros d; simpl; rewrite A3; lia]|done|by intros _|split; [intros _; exact Hres|done]|split; [eauto|intros _; exact Hres]|lia].
Qed.

Lemma pcm_readi_wp K fuel n w : recovers K → (K < fuel)%nat → pcm_wf (pobj w) → has (flags (pobj w)) PCM_IN = true →
  n <= TINYALSA_FRAMES_MAX → INT_MIN <= underruns (pobj w) → underruns (pobj w) + Z.of_nat K <= INT_MAX →
  wp (pcm_readi fuel n) (λ r w', read_post n r.1 w w') w.
Proof.
  intros HK Hf Hwf Hin Hn Hu1 Hu2. destruct fuel as [|fuel]; [lia|]. unfold pcm_readi. pp_step. pp_step. cbn beta. rewrite Hin. cbn [negb].
  destruct (Z.gtb_spec n TINYALSA_FRAMES_MAX); [lia|]. destruct (Z.gtb_spec n INT_MAX); [assert (TINYALSA_FRAMES_MAX <= INT_MAX) by done; lia|].
  apply (readi_loop_wp K); [done|done|lia|done|lia].
Qed.

(** A read from a capture device restarts the device after every overrun.
    If the driver overruns at most [K] times in a row, the loop ends; the
    result is not negative exactly when the last read call succeeded, and
    exactly then the device runs. *)
Theorem pcm_readi_result K fuel n w : recovers K → (K < fuel)%nat → pcm_wf (pobj w) → has (flags (pobj w)) PCM_IN = true →
  n <= TINYALSA_FRAMES_MAX → INT_MIN <= underruns (pobj w) → underruns (pobj w) + Z.of_nat K <= INT_MAX →
  wp (pcm_readi fuel n) (λ r w', read_post n r.1 w w') w.
Proof. apply pcm_readi_wp. Qed.
End Transfer.
