(* ===== verification/PcmMmap.v ===== *)
(** * Transfers through the mapped ring (tinyalsa/src/pcm.c)

    The rest of the PCM library: the ring buffer that the driver and the
    application share, its two pointers, waiting, and the accessors of
    hardware parameters.  The pointers run up to a boundary, a multiple of the
    size of the buffer.  A function sees one snapshot of the areas between two
    calls. *)

From S2P Require Import Prelude Monad Mixer Pcm.

#[local] Open Scope Z_scope.

Definition POLLIN : Z := 1.
Definition POLLOUT : Z := 4.
Definition POLLERR : Z := 8.
Definition POLLNVAL : Z := 32.
Definition EINTR : Z := 4.
Definition E_NOSYS : Z := 38.

(** ** Hardware parameters *)

Inductive pcm_param :=
  PCM_PARAM_ACCESS | PCM_PARAM_FORMAT | PCM_PARAM_SUBFORMAT | PCM_PARAM_SAMPLE_BITS | PCM_PARAM_FRAME_BITS
  | PCM_PARAM_CHANNELS | PCM_PARAM_RATE | PCM_PARAM_PERIOD_TIME | PCM_PARAM_PERIOD_SIZE | PCM_PARAM_PERIOD_BYTES
  | PCM_PARAM_PERIODS | PCM_PARAM_BUFFER_TIME | PCM_PARAM_BUFFER_SIZE | PCM_PARAM_BUFFER_BYTES | PCM_PARAM_TICK_TIME.

Definition pcm_param_to_alsa (p : pcm_param) : Z :=
  match p with
  | PCM_PARAM_ACCESS => 0 | PCM_PARAM_FORMAT => 1 | PCM_PARAM_SUBFORMAT => 2
  | PCM_PARAM_SAMPLE_BITS => 8 | PCM_PARAM_FRAME_BITS => 9 | PCM_PARAM_CHANNELS => 10 | PCM_PARAM_RATE => 11
  | PCM_PARAM_PERIOD_TIME => 12 | PCM_PARAM_PERIOD_SIZE => 13 | PCM_PARAM_PERIOD_BYTES => 14 | PCM_PARAM_PERIODS => 15
  | PCM_PARAM_BUFFER_TIME => 16 | PCM_PARAM_BUFFER_SIZE => 17 | PCM_PARAM_BUFFER_BYTES => 18 | PCM_PARAM_TICK_TIME => 19
  end.

(** A null mask is [Some None]; [None] is undefined. *)
Definition pcm_params_get_mask (params : option hw_params) (param : pcm_param) : option (option (list Z)) :=
  match params with
  | None => Some None
  | Some p => let n := pcm_param_to_alsa param in
      if (n <? 0) || negb (param_is_mask n) then Some None else m ← param_to_mask p n; Some (Some m)
  end.
Definition pcm_params_get_min (params : option hw_params) (param : pcm_param) : option Z :=
  match params with
  | None => Some 0
  | Some p => let n := pcm_param_to_alsa param in if n <? 0 then Some 0 else param_get_min p n
  end.
Definition pcm_params_get_max (params : option hw_params) (param : pcm_param) : option Z :=
  match params with
  | None => Some 0
  | Some p => let n := pcm_param_to_alsa param in if n <? 0 then Some 0 else param_get_max p n
  end.

Section Mmap.
Context `{!PcmDev}.
Abbreviation PM := (ST (pworld pcm)).

(** ** The pointers *)

(** [*pcm->mmap_status] and [*pcm->mmap_control]. *)
Definition get_areas : PM areas :=
  p ← getP;
  match mmaps p with
  | MNone => ub
  | MSync a => mret a
  | MMapped => h ← gets pcalls; mret (pd_areas h (fd p))
  end.

Definition set_appl_ptr (v : Z) : PM () :=
  a ← get_areas;
  p ← getP;
  match mmaps p with
  | MSync a => updP (λ p, p <| mmaps := MSync (a <| ar_appl_ptr := v |>) |>)
  | _ => note (PSetControl (fd p) v (ar_avail_min a))
  end.

Definition playback_avail (p : pcm) (a : areas) : Z :=
  let avail := i32 (ar_hw_ptr a + buffer_size p - ar_appl_ptr a) in
  if avail <? 0 then i32 (avail + boundary p)
  else if avail >=? i32 (boundary p) then i32 (avail - boundary p)
  else avail.
Definition pcm_mmap_playback_avail : PM Z := p ← getP; a ← get_areas; mret (playback_avail p a).

Definition capture_avail (p : pcm) (a : areas) : Z :=
  let avail := i32 (ar_hw_ptr a - ar_appl_ptr a) in
  if avail <? 0 then i32 (avail + boundary p) else avail.
Definition pcm_mmap_capture_avail : PM Z := p ← getP; a ← get_areas; mret (capture_avail p a).

Definition pcm_mmap_avail : PM Z :=
  pcm_sync_ptr SYNC_HWSYNC;;
  p ← getP;
  if has (flags p) PCM_IN then pcm_mmap_capture_avail else pcm_mmap_playback_avail.

Definition appl_forward (p : pcm) (appl_ptr frames : Z) : Z :=
  let v := u32 (appl_ptr + frames) in if v >? boundary p then v - boundary p else v.
Definition pcm_mmap_appl_forward (frames : Z) : PM () :=
  p ← getP; a ← get_areas; set_appl_ptr (appl_forward p (ar_appl_ptr a) frames).

(** The offset and the frames that can be copied. *)
Definition pcm_mmap_begin (frames : Z) : PM (Z * Z) :=
  p ← getP;
  a ← get_areas;
  if buffer_size p =? 0 then ub else
  let offset := ar_appl_ptr a mod buffer_size p in
  avail ← pcm_mmap_avail;
  let avail := Z.min (u32 avail) (buffer_size p) in
  let continuous := u32 (buffer_size p - offset) in
  mret (offset, Z.min (Z.min frames avail) continuous).

Definition pcm_mmap_commit (frames : Z) : PM Z :=
  pcm_mmap_appl_forward frames;;
  ret ← pcm_sync_ptr 0;
  mret (if negb (ret =? 0) then ret else i32 frames).

Definition pcm_avail_update : PM Z := pcm_sync_ptr 0;; pcm_mmap_avail.

Definition pcm_state : PM Z :=
  err ← pcm_sync_ptr 0;
  if err <? 0 then mret err else a ← get_areas; mret (ar_state a).

(** The result, the frames available and the time stamp. *)
Definition pcm_get_htimestamp : PM (Z * Z * (Z * Z)) :=
  p ← getP;
  let fail (t : Z * Z) : PM (Z * Z * (Z * Z)) := mret (-1, 0, t) in
  if fd p <? 0 then fail (0, 0) else
  rc ← pcm_sync_ptr (Z.lor SYNC_APPL SYNC_HWSYNC);
  if rc <? 0 then fail (0, 0) else
  a ← get_areas;
  if negb (ar_state a =? PCM_STATE_RUNNING) && negb (ar_state a =? PCM_STATE_DRAINING) then fail (0, 0) else
  if (fst (ar_tstamp a) =? 0) && (snd (ar_tstamp a) =? 0) then fail (ar_tstamp a) else
  let frames := if has (flags p) PCM_IN then i32 (ar_hw_ptr a - ar_appl_ptr a)
                else i32 (ar_hw_ptr a + buffer_size p - ar_appl_ptr a) in
  if frames <? 0 then fail (ar_tstamp a) else mret (0, frames, ar_tstamp a).

(** ** Copying *)

(** The caller's buffer after the copy; the mapped buffer has [buffer_map]
    bytes. *)
Definition pcm_areas_copy (pcm_offset : Z) (buf : list Z) (src_offset frames : Z) : PM (list Z) :=
  p ← getP;
  let size_bytes := i32 (pcm_frames_to_bytes p frames) in
  let pcm_offset_bytes := i32 (pcm_frames_to_bytes p pcm_offset) in
  let src_offset_bytes := i32 (pcm_frames_to_bytes p src_offset) in
  len ← lift (buffer_map p);
  if negb (bool_decide (0 <= size_bytes ∧ 0 <= pcm_offset_bytes ∧ pcm_offset_bytes + size_bytes <= len)) then ub else
  if has (flags p) PCM_IN then
    h ← gets pcalls;
    note (PCopyIn (fd p) pcm_offset_bytes size_bytes);;
    lift (stn buf src_offset_bytes (pd_copy_in h (fd p) pcm_offset_bytes size_bytes))
  else
    data ← lift (ldn buf src_offset_bytes size_bytes);
    note (PCopyOut (fd p) pcm_offset_bytes data);;
    mret buf.

(** The result and the buffer. *)
Fixpoint transfer_areas (n : nat) (buf : list Z) (offset size count : Z) : PM (Z * list Z) :=
  if size >? 0 then
    match n with
    | O => ub
    | Datatypes.S n' =>
        '(pcm_offset, frames) ← pcm_mmap_begin size;
        buf ← pcm_areas_copy pcm_offset buf offset frames;
        commit ← pcm_mmap_commit frames;
        if commit <? 0 then mret (commit, buf)
        else transfer_areas n' buf (u32 (offset + commit)) (u32 (size - commit)) (u32 (count + commit))
    end
  else mret (i32 count, buf).
Definition pcm_mmap_transfer_areas (n : nat) (buf : list Z) (offset size : Z) : PM (Z * list Z) := transfer_areas n buf offset size 0.

(** ** Waiting *)

Fixpoint pcm_wait (n : nat) (timeout : Z) : PM Z :=
  match n with
  | O => ub
  | Datatypes.S n' =>
      p ← getP;
      '(failed, (err, revents)) ← pcall_ (λ h, pd_poll h (fd p) timeout) (PPoll (fd p) timeout);
      e ← get_errno;
      if failed : bool then mret (- e) else
      if err =? 0 then mret 0 else
      let again := if negb (Z.land revents (Z.lor POLLIN POLLOUT) =? 0) then mret 1 else pcm_wait n' timeout in
      if e =? - EINTR then again else
      if negb (Z.land revents (Z.lor POLLERR POLLNVAL) =? 0) then
        s ← pcm_state;
        mret (if s =? PCM_STATE_XRUN then - EPIPE else if s =? PCM_STATE_SUSPENDED then - ESTRPIPE
              else if s =? PCM_STATE_DISCONNECTED then - ENODEV else - EIO)
      else again
  end.

(** [while (count > 0)]: [n] bounds the rounds and the polls of each. *)
Fixpoint transfer_loop (n : nat) (buf : list Z) (err offset count : Z) : PM (Z * list Z) :=
  if count >? 0 then
    match n with
    | O => ub
    | Datatypes.S n' =>
        avail ← pcm_avail_update;
        if avail <? 0 then mret (err, buf) else
        p ← getP;
        started ← (if negb (running p) && (u32 (buffer_size p - avail) >=? start_threshold (config p)) then
                     r ← pcm_start; e ← get_errno; mret (if r <? 0 then Some (- e) else None)
                   else mret None);
        match started with
        | Some e => mret (e, buf)
        | None =>
            p ← getP;
            a ← get_areas;
            if running p && (avail <? ar_avail_min a) then
              time ← (if has (flags p) PCM_NOIRQ then
                        if noirq_frames_per_msec p =? 0 then ub
                        else mret (i32 (u32 (buffer_size p - avail - ar_avail_min a) / noirq_frames_per_msec p))
                      else mret (-1));
              err ← pcm_wait n' time;
              if err <? 0 then
                updP (λ p, p <| prepared := false |> <| running := false |>);;
                set_appl_ptr 0;;
                mret (err, buf)
              else transfer_loop n' buf err offset count
            else
              let frames := Z.min (i32 count) avail in
              if frames =? 0 then mret (0, buf) else
              '(frames, buf) ← pcm_mmap_transfer_areas n' buf offset (u32 frames);
              if frames <? 0 then mret (frames, buf)
              else transfer_loop n' buf err (u32 (offset + frames)) (u32 (count - frames))
        end
    end
  else mret (0, buf).

Definition pcm_mmap_transfer (n : nat) (buffer : list Z) (bytes : Z) : PM (Z * list Z) :=
  if bytes =? 0 then mret (0, buffer) else
  p ← getP;
  count ← lift (pcm_bytes_to_frames p bytes);
  transfer_loop n buffer 0 0 count.

Definition pcm_mmap_write (n : nat) (data : list Z) (count : Z) : PM Z :=
  p ← getP;
  if negb (has (flags p) PCM_MMAP) then mret (- E_NOSYS) else
  '(r, _) ← pcm_mmap_transfer n data count; mret r.
Definition pcm_mmap_read (n : nat) (data : list Z) (count : Z) : PM (Z * list Z) :=
  p ← getP;
  if negb (has (flags p) PCM_IN && has (flags p) PCM_MMAP) then mret (- E_NOSYS, data) else
  pcm_mmap_transfer n data count.
End Mmap.
