(* ===== verification/PcmMmapSpec.v ===== *)
(** * What the mapped ring does

    The frames available are those of a ring of [bs] frames whose pointers
    count modulo the boundary, and a transfer puts the caller's frames at the
    application pointer, around the end of the ring. *)

From S2P Require Import Prelude Monad Mixer Pcm PcmSpec PcmMmap.

#[local] Open Scope Z_scope.

(** ** Pointers *)

Section Pointers.
Variables (bs bnd : Z).

(** The geometry that [pcm_set_config] chooses, with at least one doubling of
    the boundary ([boundary_found]). *)
Record geometry : Prop := {
  ge_bs : 0 < bs; ge_lt : bs < bnd; ge_div : (bs | bnd); ge_int : bs + bnd <= INT_MAX }.
Hypothesis Hg : geometry.

(** The frames written and not yet played. *)
Definition fill (a : areas) : Z := (ar_appl_ptr a - ar_hw_ptr a) mod bnd.

(** The application pointer may be left at the boundary. *)
Record ptrs_ok (a : areas) : Prop := {
  po_hw : 0 <= ar_hw_ptr a < bnd; po_appl : 0 <= ar_appl_ptr a <= bnd; po_fill : fill a <= bs }.

Lemma i32_int z : - INT_MAX <= z <= INT_MAX → i32 z = z.
Proof. intros. apply i32_id. unfold INT_MAX in *. lia. Qed.

Lemma fill_cases a : 0 <= ar_hw_ptr a < bnd → 0 <= ar_appl_ptr a <= bnd →
  fill a = ar_appl_ptr a - ar_hw_ptr a ∧ 0 <= ar_appl_ptr a - ar_hw_ptr a < bnd ∨
  fill a = ar_appl_ptr a - ar_hw_ptr a + bnd ∧ ar_appl_ptr a < ar_hw_ptr a ∨
  fill a = 0 ∧ ar_appl_ptr a = bnd ∧ ar_hw_ptr a = 0.
Proof.
  intros Hh Ha. unfold fill. destruct (Z.ltb_spec (ar_appl_ptr a) (ar_hw_ptr a)).
  - right; left. split; [|done]. rewrite <- (Z.mod_add _ 1) by lia. rewrite Z.mod_small; lia.
  - destruct (decide (ar_appl_ptr a - ar_hw_ptr a = bnd)) as [E|].
    + right; right. rewrite E, Z.mod_same by lia. lia.
    + left. rewrite Z.mod_small by lia. lia.
Qed.

Lemma fill_range a : 0 <= fill a < bnd.
Proof. destruct Hg. apply Z.mod_pos_bound. lia. Qed.

Lemma playback_avail_eq p a : buffer_size p = bs → boundary p = bnd → ptrs_ok a → playback_avail p a = bs - fill a.
Proof.
  intros Eb En [Hh Ha Hf]. destruct Hg as [H1 H2 _ H3]. unfold playback_avail. rewrite Eb, En.
  pose proof (fill_range a). rewrite (i32_int bnd) by lia. rewrite (i32_int (ar_hw_ptr a + bs - ar_appl_ptr a)) by lia.
  destruct (fill_cases a Hh Ha) as [[E ?]|[[E ?]|(E & E1 & E2)]]; rewrite E in *.
  - destruct (Z.ltb_spec (ar_hw_ptr a + bs - ar_appl_ptr a) 0); [lia|].
    destruct (Z.geb_spec (ar_hw_ptr a + bs - ar_appl_ptr a) bnd); lia.
  - destruct (Z.ltb_spec (ar_hw_ptr a + bs - ar_appl_ptr a) 0); [lia|].
    destruct (Z.geb_spec (ar_hw_ptr a + bs - ar_appl_ptr a) bnd); [rewrite i32_int by lia; lia|lia].
  - rewrite E1, E2. destruct (Z.ltb_spec (0 + bs - bnd) 0); [rewrite i32_int by lia; lia|lia].
Qed.

Lemma capture_avail_eq p a : boundary p = bnd → 0 <= ar_hw_ptr a < bnd → 0 <= ar_appl_ptr a <= bnd →
  capture_avail p a = (ar_hw_ptr a - ar_appl_ptr a) mod bnd.
Proof.
  intros En Hh Ha. destruct Hg as [H1 H2 _ H3]. unfold capture_avail. rewrite En, (i32_int (ar_hw_ptr a - ar_appl_ptr a)) by lia.
  destruct (Z.ltb_spec (ar_hw_ptr a - ar_appl_ptr a) 0).
  - rewrite i32_int by lia. destruct (decide (ar_hw_ptr a - ar_appl_ptr a = - bnd)) as [E|].
    + rewrite E, Z.mod_opp_l_z by (try apply Z.mod_same; lia). lia.
    + rewrite <- (Z.mod_add _ 1), Z.mod_small by lia. lia.
  - rewrite Z.mod_small; lia.
Qed.

Lemma appl_forward_eq p v n : boundary p = bnd → 0 <= v <= bnd → 0 <= n <= bs →
  let v' := appl_forward p v n in 0 <= v' <= bnd ∧ v' mod bnd = (v + n) mod bnd ∧ v' mod bs = (v + n) mod bs.
Proof.
  intros En Hv Hn v'. destruct Hg as [H1 H2 [q Hq] H3]. unfold v', appl_forward. rewrite En, u32_id by (unfold INT_MAX in *; lia).
  destruct (Z.gtb_spec (v + n) bnd); [|lia]. split; [lia|]. split.
  - rewrite <- (Z.mod_add (v + n - bnd) 1) by lia. f_equal. lia.
  - rewrite <- (Z.mod_add (v + n - bnd) q) by lia. f_equal. lia.
Qed.

Lemma fill_forward p a n : boundary p = bnd → ptrs_ok a → 0 <= n <= bs - fill a →
  let a' := a <| ar_appl_ptr := appl_forward p (ar_appl_ptr a) n |> in ptrs_ok a' ∧ fill a' = fill a + n.
Proof.
  intros En [Hh Ha Hf] Hn a'. pose proof (fill_range a) as Hr. destruct (appl_forward_eq p (ar_appl_ptr a) n En Ha) as (Hv & Hm & _); [lia|].
  assert (fill a' = fill a + n) as Ef.
  { unfold fill, a'. simpl. rewrite Zminus_mod, Hm, <- Zminus_mod. replace (ar_appl_ptr a + n - ar_hw_ptr a) with (ar_appl_ptr a - ar_hw_ptr a + n) by lia.
    rewrite <- Zplus_mod_idemp_l. fold (fill a). destruct Hg. apply Z.mod_small. lia. }
  split; [|done]. split; [done|done|lia].
Qed.

(** The frames recorded and not yet read. *)
Definition queued (a : areas) : Z := (ar_hw_ptr a - ar_appl_ptr a) mod bnd.

Lemma queued_forward p a n : boundary p = bnd → 0 <= ar_appl_ptr a <= bnd → 0 <= n <= bs → n <= queued a →
  queued (a <| ar_appl_ptr := appl_forward p (ar_appl_ptr a) n |>) = queued a - n.
Proof.
  intros En Ha Hn Hq. destruct (appl_forward_eq p (ar_appl_ptr a) n En Ha Hn) as (_ & Hm & _).
  assert (0 <= queued a < bnd) by (destruct Hg; apply Z.mod_pos_bound; lia).
  unfold queued at 1. simpl. rewrite Zminus_mod, Hm, <- Zminus_mod.
  replace (ar_hw_ptr a - (ar_appl_ptr a + n)) with (ar_hw_ptr a - ar_appl_ptr a - n) by lia.
  rewrite Zminus_mod. fold (queued a). rewrite <- Zminus_mod_idemp_r, Zmod_mod, Zminus_mod_idemp_r. apply Z.mod_small. lia.
Qed.

(** C26: the frames the library sees available are those of a ring whose
    pointers wrap at the boundary, also when the application pointer stands at
    the boundary itself.  For playback, with at most a buffer of frames not
    yet played, they are the size of the buffer less those frames; for
    capture, with at most a buffer of frames not yet read (no overrun), they
    are those frames.  In both directions moving the application pointer by
    [n] of the available frames keeps it in range and leaves [n] fewer. *)
Theorem ring_avail p a : buffer_size p = bs → boundary p = bnd →
  0 <= ar_hw_ptr a < bnd → 0 <= ar_appl_ptr a <= bnd →
  let forward n := a <| ar_appl_ptr := appl_forward p (ar_appl_ptr a) n |> in
  (fill a <= bs → playback_avail p a = bs - fill a ∧
    ∀ n, 0 <= n <= playback_avail p a → 0 <= ar_appl_ptr (forward n) <= bnd ∧
      playback_avail p (forward n) = playback_avail p a - n) ∧
  (queued a <= bs → capture_avail p a = queued a ∧
    ∀ n, 0 <= n <= capture_avail p a → 0 <= ar_appl_ptr (forward n) <= bnd ∧
      capture_avail p (forward n) = capture_avail p a - n).
Proof.
  intros Eb En Hh Ha forward. split; intros Hf.
  - assert (ptrs_ok a) as Hp by done. rewrite playback_avail_eq by done. split; [done|]. intros n Hn.
    destruct (fill_forward p a n En Hp Hn) as [Hp' Ef]. split; [apply Hp'|]. unfold forward. rewrite playback_avail_eq by done. lia.
  - rewrite capture_avail_eq by done. fold (queued a). split; [done|]. intros n Hn.
    destruct (appl_forward_eq p (ar_appl_ptr a) n En Ha) as (Hv & _); [lia|]. split; [exact Hv|].
    unfold forward. rewrite capture_avail_eq by done. apply (queued_forward p a n); [done..|lia|lia].
Qed.
End Pointers.

(** A ring of four frames of four bytes with the pointer at the boundary. *)
Definition demo_ring : areas := mkAreas 3 14 (0, 0) 16 1.
Definition ring_pcm (a : areas) : pcm :=
  mkPcm 4 PCM_MMAP true true 0 4 16 (mkPcmCfg 2 48000 2 2 PCM_FORMAT_S16_LE 2 4 0) (MSync a) (Some 16) 0 0 0.

Lemma demo_geometry : geometry 4 16.
Proof. split; [lia|lia|by exists 4|done]. Qed.
Lemma demo_ring_ok : ptrs_ok 4 16 demo_ring.
Proof. split; simpl; [lia|lia|vm_compute; discriminate]. Qed.

(** A capture ring: two frames recorded across the boundary. *)
Definition demo_capture : areas := mkAreas 3 1 (0, 0) 15 1.

Lemma ring_avail_witness : geometry 4 16 ∧
  (playback_avail (ring_pcm demo_ring) demo_ring = 4 - (16 - 14) mod 16) ∧
  capture_avail (ring_pcm demo_capture) demo_capture = (1 - 15) mod 16 ∧
  capture_avail (ring_pcm demo_capture) (demo_capture <| ar_appl_ptr := appl_forward (ring_pcm demo_capture) 15 2 |>) = 0.
Proof.
  split; [exact demo_geometry|]. split.
  - refine (proj1 (proj1 (ring_avail 4 16 demo_geometry (ring_pcm demo_ring) demo_ring eq_refl eq_refl _ _) _)); vm_compute; repeat split; discriminate.
  - destruct (proj2 (ring_avail 4 16 demo_geometry (ring_pcm demo_capture) demo_capture eq_refl eq_refl
      ltac:(vm_compute; repeat split; discriminate) ltac:(vm_compute; repeat split; discriminate)) ltac:(vm_compute; discriminate)) as [Hc Hf].
    split; [exact Hc|]. destruct (Hf 2) as [_ H2]; [vm_compute; repeat split; discriminate|].
    refine (eq_trans H2 _). vm_compute. reflexivity.
Defined.

(** ** Transfers *)

(** The byte last copied to an address of the mapped buffer. *)
Fixpoint image (l : plog) (d addr : Z) : option Z :=
  match l with
  | [] => None
  | PCopyOut d' off data :: l' =>
      if (d' =? d) && (off <=? addr) && (addr <? off + blen data) then ld data (addr - off) else image l' d addr
  | _ :: l' => image l' d addr
  end.

Section Transfers.
Context `{D : PcmDev}.
Variables (bs bnd : Z).
Hypothesis Hg : geometry bs bnd.

(** What the driver does with the pointers of a running or prepared device: it
    takes over the application's and moves its own at most up to it. *)
Definition ring_driver : Prop := ∀ h d fl a, ptrs_ok bs bnd a → fl = 0 ∨ fl = SYNC_HWSYNC →
  let '(e, a') := pd_sync h d fl a in
  e = 0 ∧ ar_appl_ptr a' = ar_appl_ptr a ∧ 0 <= ar_hw_ptr a' < bnd ∧ fill bnd a' <= fill bnd a.
Hypothesis Hd : ring_driver.

(** A playback device with this ring and [fb] bytes in a frame. *)
Record ringed (fb : Z) (a : areas) (p : pcm) : Prop := {
  ri_maps : mmaps p = MSync a; ri_ptrs : ptrs_ok bs bnd a; ri_out : has (flags p) PCM_IN = false;
  ri_bs : buffer_size p = bs; ri_bnd : boundary p = bnd; ri_fb : frame_bytes p = fb;
  ri_len : buffer_map p = Some (bs * fb); ri_pos : 0 < fb; ri_int : bs * fb <= INT_MAX }.

Lemma frames_bytes p n : pcm_frames_to_bytes p n = u32 (n * frame_bytes p).
Proof.
  unfold pcm_frames_to_bytes, frame_bytes, u32. rewrite Zmult_mod_idemp_l, Zmult_mod_idemp_r. f_equal. lia.
Qed.
Lemma frames_bytes_id p fb n : frame_bytes p = fb → 0 <= n * fb <= INT_MAX → i32 (pcm_frames_to_bytes p n) = n * fb.
Proof. intros E Hn. rewrite frames_bytes, E, u32_id by (unfold INT_MAX in *; lia). apply i32_int. unfold INT_MAX in *. lia. Qed.

(** The pointers are exchanged; nothing is copied. *)
Lemma ring_sync_wp fb a fl w : ringed fb a (pobj w) → fl = 0 ∨ fl = SYNC_HWSYNC →
  wp (pcm_sync_ptr fl) (λ r w', r = 0 ∧ fd (pobj w') = fd (pobj w) ∧ image (pcalls w') = image (pcalls w) ∧
    ∃ a', ringed fb a' (pobj w') ∧ ar_appl_ptr a' = ar_appl_ptr a ∧ fill bnd a' <= fill bnd a) w.
Proof.
  intros [R1 R2 R3 R4 R5 R6 R7 R8 R9] Hfl. unfold pcm_sync_ptr. apply wp_bind, wp_gets_p. cbn beta. rewrite R1.
  apply wp_bind, wp_pcall. intros e a' E. pose proof (Hd (pcalls w) (fd (pobj w)) fl a R2 Hfl) as HD. rewrite E in HD. destruct HD as (-> & Ea & Hh & Hf).
  simpl. apply wp_bind, wp_modify_p. simpl. apply wp_ret_p. split_and!; [done|done|done|]. exists a'. split; [|done].
  destruct R2 as [_ ? ?]. split; try done. split; [done|by rewrite Ea|]. lia.
Qed.

Lemma get_areas_wp a (Q : areas → pworld pcm → Prop) w : mmaps (pobj w) = MSync a → Q a w → wp get_areas Q w.
Proof. intros E HQ. unfold get_areas. apply wp_bind, wp_gets_p. cbn beta. rewrite E. by apply wp_ret_p. Qed.
Lemma getP_wp (Q : pcm → pworld pcm → Prop) w : Q (pobj w) w → wp getP Q w.
Proof. done. Qed.

Lemma begin_wp fb a size w : ringed fb a (pobj w) → 0 <= size <= bs - fill bnd a →
  wp (pcm_mmap_begin size) (λ r w', r = (ar_appl_ptr a mod bs, Z.min size (bs - ar_appl_ptr a mod bs)) ∧
    fd (pobj w') = fd (pobj w) ∧ image (pcalls w') = image (pcalls w) ∧
    ∃ a', ringed fb a' (pobj w') ∧ ar_appl_ptr a' = ar_appl_ptr a ∧ fill bnd a' <= fill bnd a) w.
Proof.
  intros HR Hs. pose proof HR as [R1 R2 R3 R4 R5 R6 R7 R8 R9]. pose proof Hg as [G1 G2 G3 G4]. unfold pcm_mmap_begin.
  apply wp_bind, getP_wp, wp_bind. eapply get_areas_wp; [done|].
  rewrite R4. destruct (Z.eqb_spec bs 0); [lia|]. apply wp_bind. unfold pcm_mmap_avail. apply wp_bind.
  eapply wp_mono; [apply ring_sync_wp; [done|by right]|]. intros r w1 (_ & Ef & Ei & a1 & HR1 & Ea & Hf). pose proof HR1 as [S1 S2 S3 S4 S5 S6 S7 S8 S9].
  apply wp_bind, getP_wp. rewrite S3. unfold pcm_mmap_playback_avail. apply wp_bind, getP_wp, wp_bind. eapply get_areas_wp; [done|].
  apply wp_ret_p. rewrite (playback_avail_eq bs bnd) by done.
  apply wp_ret_p. pose proof (fill_range bs bnd Hg a1). pose proof (Z.mod_pos_bound (ar_appl_ptr a) bs G1). rewrite !u32_id by (unfold INT_MAX in *; lia).
  split_and!; [|done|done|by exists a1]. f_equal. lia.
Qed.

Lemma copy_wp fb a buf o offset n w : ringed fb a (pobj w) → 0 <= o → 0 <= n → o + n <= bs → 0 <= offset → (offset + n) * fb <= blen buf → blen buf <= INT_MAX →
  wp (pcm_areas_copy o buf offset n) (λ r w', r = buf ∧ pobj w' = pobj w ∧ perrno w' = perrno w ∧ ∀ addr, image (pcalls w') (fd (pobj w)) addr =
    if (o * fb <=? addr) && (addr <? o * fb + n * fb) then ld buf (offset * fb + (addr - o * fb)) else image (pcalls w) (fd (pobj w)) addr) w.
Proof.
  intros [R1 R2 R3 R4 R5 R6 R7 R8 R9] Ho Hn Hon Hoff Hb Hbi. unfold pcm_areas_copy. apply wp_bind, getP_wp.
  rewrite !(frames_bytes_id _ fb) by (try done; nia). apply wp_bind. eapply wp_lift_p; [done|].
  rewrite bool_decide_true by nia. cbn [negb]. rewrite R3. apply wp_bind.
  destruct (ldn_defined buf (offset * fb) (n * fb)) as [data Hl]; [nia|nia|nia|]. eapply wp_lift_p; [done|].
  destruct (ldn_Some _ _ _ _ Hl) as (Hlen & _ & _ & Hk). apply wp_bind, wp_modify_p. apply wp_ret_p. split_and!; [done|done|done|].
  intros addr. simpl. rewrite Z.eqb_refl, Hlen. cbn [andb]. destruct (_ && _) eqn:E; [|done]. zbool. apply Hk. lia.
Qed.

Lemma commit_wp fb a n w : ringed fb a (pobj w) → 0 <= n <= bs - fill bnd a →
  wp (pcm_mmap_commit n) (λ r w', r = n ∧ fd (pobj w') = fd (pobj w) ∧ image (pcalls w') = image (pcalls w) ∧
    ∃ a', ringed fb a' (pobj w') ∧ fill bnd a' <= fill bnd a + n ∧
      ar_appl_ptr a' mod bnd = (ar_appl_ptr a + n) mod bnd ∧ ar_appl_ptr a' mod bs = (ar_appl_ptr a + n) mod bs) w.
Proof.
  intros HR Hn. pose proof HR as [R1 R2 R3 R4 R5 R6 R7 R8 R9]. pose proof Hg as [G1 G2 G3 G4]. pose proof (fill_range bs bnd Hg a).
  unfold pcm_mmap_commit, pcm_mmap_appl_forward, set_appl_ptr. apply wp_bind, wp_bind, getP_wp, wp_bind. eapply get_areas_wp; [done|].
  apply wp_bind. eapply get_areas_wp; [done|]. apply wp_bind, getP_wp. rewrite R1. apply wp_modify_p.
  destruct (fill_forward bs bnd Hg (pobj w) a n R5 R2 Hn) as [Hp Hf].
  destruct (appl_forward_eq bs bnd Hg (pobj w) (ar_appl_ptr a) n R5 (po_appl _ _ _ R2)) as (_ & Hm & Hm'); [lia|].
  apply wp_bind. eapply wp_mono; [eapply (ring_sync_wp fb (a <| ar_appl_ptr := appl_forward (pobj w) (ar_appl_ptr a) n |>)); [|by left]|].
  - by split.
  - intros r w1 (-> & Ef & Ei & a1 & HR1 & Ea & Hf1). apply wp_ret_p. cbn [negb Z.eqb]. split_and!; [apply i32_int; lia|done|done|].
    exists a1. rewrite Ea. split_and!; [done|lia|done|done].
Qed.

(** What is left in the ring: [n] frames from frame [offset] of [buf], from
    position [o] on and around the end. *)
Definition ring_image (fb o : Z) (buf : list Z) (offset n : Z) (old : Z → option Z) (addr : Z) : option Z :=
  let i := (addr - o * fb) mod (bs * fb) in if i <? n * fb then ld buf (offset * fb + i) else old addr.

Lemma ring_index t o i : 0 <= o < t → 0 <= i < t → (i - o) mod t = if o <=? i then i - o else i - o + t.
Proof.
  intros Ho Hi. destruct (Z.leb_spec o i); [apply Z.mod_small; lia|]. rewrite <- (Z.mod_add _ 1), Z.mod_small by lia. lia.
Qed.

(** A transfer that reaches no further than the end of the ring. *)
Lemma ring_image_flat fb o buf offset n old addr : 0 < fb → 0 <= o < bs → 0 <= n → o + n <= bs → 0 <= addr < bs * fb →
  ring_image fb o buf offset n old addr =
    if (o * fb <=? addr) && (addr <? o * fb + n * fb) then ld buf (offset * fb + (addr - o * fb)) else old addr.
Proof.
  intros Hfb Ho Hn Hon Ha. unfold ring_image. rewrite ring_index by nia.
  destruct (Z.leb_spec (o * fb) addr); cbn [andb].
  - destruct (Z.ltb_spec (addr - o * fb) (n * fb)), (Z.ltb_spec addr (o * fb + n * fb)); try lia; done.
  - destruct (Z.ltb_spec (addr - o * fb + bs * fb) (n * fb)); [nia|done].
Qed.

(** A transfer around the end is two. *)
Lemma ring_image_wrap fb o buf offset n old addr : 0 < fb → 0 <= o < bs → bs - o <= n <= bs → 0 <= addr < bs * fb →
  ring_image fb o buf offset n old addr =
    ring_image fb 0 buf (offset + (bs - o)) (n - (bs - o)) (ring_image fb o buf offset (bs - o) old) addr.
Proof.
  intros Hfb Ho Hn Ha. unfold ring_image at 1 2. rewrite (ring_image_flat fb o buf offset (bs - o)) by lia. rewrite !ring_index by nia.
  rewrite Z.mul_0_l, Z.sub_0_r. destruct (Z.leb_spec 0 addr); [|lia].
  destruct (Z.leb_spec (o * fb) addr); cbn [andb].
  - destruct (Z.ltb_spec (addr - o * fb) (n * fb)); [|nia]. destruct (Z.ltb_spec addr ((n - (bs - o)) * fb)); [nia|].
    destruct (Z.ltb_spec addr (o * fb + (bs - o) * fb)); [done|nia].
  - destruct (Z.ltb_spec (addr - o * fb + bs * fb) (n * fb)), (Z.ltb_spec addr ((n - (bs - o)) * fb)); try nia; [f_equal; nia|done].
Qed.

Lemma ring_image_ext fb o buf offset n old old' addr : old addr = old' addr →
  ring_image fb o buf offset n old addr = ring_image fb o buf offset n old' addr.
Proof. intros E. unfold ring_image. by rewrite E. Qed.
Lemma ring_image_0 fb o buf offset old addr : 0 < fb → ring_image fb o buf offset 0 old addr = old addr.
Proof.
  intros Hfb. pose proof (ge_bs _ _ Hg). unfold ring_image. destruct (Z.ltb_spec ((addr - o * fb) mod (bs * fb)) (0 * fb)); [|done].
  pose proof (Z.mod_pos_bound (addr - o * fb) (bs * fb)). nia.
Qed.

Record transferred (fb : Z) (a : areas) (buf : list Z) (offset size : Z) (w w' : pworld pcm) : Prop := {
  tr_fd : fd (pobj w') = fd (pobj w);
  tr_ring : ∃ a', ringed fb a' (pobj w') ∧ fill bnd a' <= fill bnd a + size ∧ ar_appl_ptr a' mod bnd = (ar_appl_ptr a + size) mod bnd;
  tr_image : ∀ addr, 0 <= addr < bs * fb → image (pcalls w') (fd (pobj w)) addr =
    ring_image fb (ar_appl_ptr a mod bs) buf offset size (image (pcalls w) (fd (pobj w))) addr }.

Lemma transferred_none fb a buf offset w : ringed fb a (pobj w) → transferred fb a buf offset 0 w w.
Proof.
  intros HR. pose proof HR as [_ _ _ _ _ _ _ R8 _]. split; [done| |].
  - exists a. rewrite !Z.add_0_r. by split_and!.
  - intros addr Ha. by rewrite ring_image_0.
Qed.

(** The rounds of a transfer. *)
Definition rounds (a : areas) (size : Z) : Z := if size =? 0 then 0 else if size <=? bs - ar_appl_ptr a mod bs then 1 else 2.

Lemma transfer_wp n fb a buf offset size count w : ringed fb a (pobj w) → 0 <= size <= bs - fill bnd a → 0 <= offset → 0 <= count →
  count + size <= INT_MAX → (offset + size) * fb <= blen buf → blen buf <= INT_MAX → rounds a size <= Z.of_nat n →
  wp (transfer_areas n buf offset size count) (λ r w', r = (count + size, buf) ∧ transferred fb a buf offset size w w') w.
Proof.
  revert a offset size count w. induction n as [|n IH]; intros a offset size count w HR Hs Ho Hc Hci Hb Hbi Hn; cbn [transfer_areas]; destruct (Z.gtb_spec size 0).
  2,4: assert (size = 0) as -> by lia; apply wp_ret_p; rewrite i32_int, Z.add_0_r by lia; (split; [done|]); by apply transferred_none.
  { unfold rounds in Hn. destruct (Z.eqb_spec size 0); [lia|]. destruct (_ <=? _); lia. }
  pose proof HR as [_ R2 _ _ _ _ _ R8 R9]. pose proof Hg as [G1 G2 G3 G4]. pose proof (fill_range bs bnd Hg a) as Hfa.
  pose proof (Z.mod_pos_bound (ar_appl_ptr a) bs G1) as Hmo. set (o := ar_appl_ptr a mod bs) in *. assert (offset <= INT_MAX) as Hoi by nia.
  apply wp_bind. eapply wp_mono; [by eapply begin_wp|]. intros r w1 (-> & Ef1 & Ei1 & a1 & HR1 & Ea1 & Hf1). fold o. cbn beta iota.
  set (k := Z.min size (bs - o)). apply wp_bind. eapply wp_mono; [eapply copy_wp; [exact HR1|lia|lia|lia|lia|nia|done]|].
  intros b w2 (-> & Ep2 & _ & Ei2). rewrite <- Ep2 in HR1. apply wp_bind. eapply wp_mono; [eapply commit_wp; [exact HR1|lia]|].
  intros r w3 (-> & Ef3 & Ei3 & a3 & HR3 & Hf3 & Hm3 & Hs3). destruct (Z.ltb_spec k 0); [lia|].
  rewrite !u32_id by (unfold INT_MAX in *; lia). rewrite Ea1 in Hm3, Hs3.
  assert (ar_appl_ptr a3 mod bs = (o + k) mod bs) as Hs4 by (rewrite Hs3; unfold o; by rewrite Zplus_mod_idemp_l).
  assert (k < size → (o + k) mod bs = 0) as Hwrap by (intros Hk; replace (o + k) with bs by lia; apply Z.mod_same; lia).
  eapply wp_mono; [apply (IH a3 (offset + k) (size - k) (count + k) w3 HR3); [lia|lia|lia|lia|nia|done|]|].
  { unfold rounds in *. fold o in Hn. rewrite Hs4. destruct (Z.eqb_spec (size - k) 0); [lia|]. destruct (Z.eqb_spec size 0); [lia|].
    rewrite Hwrap by lia. destruct (Z.leb_spec size (bs - o)); [lia|]. destruct (Z.leb_spec (size - k) (bs - 0)); lia. }
  intros r w4 [-> [T1 (a4 & HR4 & Hf4 & Hm4) T3]]. split; [f_equal; lia|]. split; [congruence| |].
  - exists a4. split_and!; [done|lia|]. rewrite Hm4, <- Zplus_mod_idemp_l, Hm3, Zplus_mod_idemp_l. f_equal. lia.
  - intros addr Ha. fold o. rewrite Ep2, Ef1 in *. rewrite Ef3 in T3. rewrite (T3 addr Ha), Hs4.
    assert (image (pcalls w3) (fd (pobj w)) addr = ring_image fb o buf offset k (image (pcalls w) (fd (pobj w))) addr) as E.
    { rewrite ring_image_flat by lia. rewrite Ei3, Ei2, Ei1. done. }
    destruct (decide (k < size)) as [Hk|Hk].
    + rewrite (Hwrap Hk), (ring_image_wrap fb o buf offset size) by lia. replace (bs - o) with k by lia. by apply ring_image_ext.
    + replace (size - k) with 0 by lia. rewrite ring_image_0, E by done. by replace k with size by lia.
Qed.

(** Where the status area is mapped, and not exchanged, a commit never
    succeeds: the call that would exchange it reports an error. *)
Lemma mapped_areas (Q : areas → pworld pcm → Prop) w : mmaps (pobj w) = MMapped →
  Q (pd_areas (pcalls w) (fd (pobj w))) w → wp get_areas Q w.
Proof. intros E HQ. unfold get_areas. apply wp_bind, getP_wp. rewrite E. by apply wp_bind, wp_gets_p, wp_ret_p. Qed.

Lemma mapped_sync fl (Q : Z → pworld pcm → Prop) w : mmaps (pobj w) = MMapped → Q (-1) w → wp (pcm_sync_ptr fl) Q w.
Proof. intros E HQ. unfold pcm_sync_ptr. apply wp_bind, getP_wp. rewrite E. by apply wp_ret_p. Qed.

Lemma mapped_commit_wp n w : mmaps (pobj w) = MMapped → wp (pcm_mmap_commit n) (λ r _, r = -1) w.
Proof.
  intros E. unfold pcm_mmap_commit, pcm_mmap_appl_forward, set_appl_ptr.
  apply wp_bind, wp_bind, getP_wp, wp_bind, mapped_areas; [done|]. apply wp_bind, mapped_areas; [done|]. apply wp_bind, getP_wp.
  rewrite E. apply wp_modify_p. apply wp_bind. apply mapped_sync; [done|]. by apply wp_ret_p.
Qed.

(** A playback device of [bs] frames of [fb] bytes, however its status is
    shared. *)
Record ring_dev (fb : Z) (p : pcm) : Prop := {
  rd_out : has (flags p) PCM_IN = false; rd_bs : buffer_size p = bs; rd_bnd : boundary p = bnd;
  rd_fb : frame_bytes p = fb; rd_len : buffer_map p = Some (bs * fb); rd_pos : 0 < fb; rd_int : bs * fb <= INT_MAX }.

Lemma mapped_begin_wp fb size w : ring_dev fb (pobj w) → mmaps (pobj w) = MMapped → 0 <= size →
  wp (pcm_mmap_begin size) (λ '(o, n) w', w' = w ∧ 0 <= o ∧ 0 <= n <= size ∧ o + n <= bs) w.
Proof.
  intros [R3 R4 R5 R6 R7 R8 R9] E Hs. pose proof Hg as [G1 G2 G3 G4]. unfold pcm_mmap_begin.
  apply wp_bind, getP_wp, wp_bind, mapped_areas; [done|]. rewrite R4. destruct (Z.eqb_spec bs 0); [lia|].
  apply wp_bind. unfold pcm_mmap_avail, pcm_mmap_playback_avail. apply wp_bind, mapped_sync; [done|]. apply wp_bind, getP_wp. rewrite R3.
  apply wp_bind, getP_wp, wp_bind, mapped_areas; [done|]. apply wp_ret_p, wp_ret_p.
  set (v := playback_avail _ _). set (o := ar_appl_ptr _ mod bs). assert (0 <= u32 v) by apply u32_range.
  pose proof (Z.mod_pos_bound (ar_appl_ptr (pd_areas (pcalls w) (fd (pobj w)))) bs G1) as Ho. fold o in Ho.
  rewrite (u32_id (bs - o)) by (unfold INT_MAX in *; lia). split; [done|]. lia.
Qed.

Lemma mapped_copy_wp fb o buf offset n w : ring_dev fb (pobj w) → 0 <= o → 0 <= n → o + n <= bs → 0 <= offset →
  (offset + n) * fb <= blen buf → blen buf <= INT_MAX →
  wp (pcm_areas_copy o buf offset n) (λ r w', r = buf ∧ pobj w' = pobj w) w.
Proof.
  intros [R3 R4 R5 R6 R7 R8 R9] Ho Hn Hon Hoff Hb Hbi. unfold pcm_areas_copy. apply wp_bind, getP_wp.
  rewrite !(frames_bytes_id _ fb) by (try done; nia). apply wp_bind. eapply wp_lift_p; [done|].
  rewrite bool_decide_true by nia. cbn [negb]. rewrite R3. apply wp_bind.
  destruct (ldn_defined buf (offset * fb) (n * fb)) as [data Hl]; [nia|nia|nia|]. eapply wp_lift_p; [done|].
  apply wp_bind, wp_modify_p. by apply wp_ret_p.
Qed.

Lemma mapped_transfer_wp fb buf offset size w n : ring_dev fb (pobj w) → mmaps (pobj w) = MMapped → 0 < size → 0 <= offset →
  (offset + size) * fb <= blen buf → blen buf <= INT_MAX →
  wp (pcm_mmap_transfer_areas (S n) buf offset size) (λ r _, r = (-1, buf)) w.
Proof.
  intros HR E Hs Ho Hb Hbi. pose proof (rd_pos _ _ HR). unfold pcm_mmap_transfer_areas. cbn [transfer_areas].
  destruct (Z.gtb_spec size 0); [|lia]. apply wp_bind. eapply wp_mono; [eapply mapped_begin_wp; [done|done|lia]|].
  intros [o k] ? (-> & Ho' & Hk & Hok). apply wp_bind. eapply wp_mono; [eapply mapped_copy_wp; [done|lia..|nia|done]|].
  intros ? w1 [-> E1]. apply wp_bind. eapply wp_mono; [apply mapped_commit_wp; by rewrite E1|]. intros ? w2 ->. by apply wp_ret_p.
Qed.

(** C25: a transfer into the ring of a playback device, in both ways the library
    shares the pointers with the driver.  Where the status area could not be
    mapped and is exchanged by an ioctl, with a driver that answers every
    exchange without error and never plays past the application pointer
    ([ring_driver]: no underrun), a transfer for which there is room succeeds
    in at most two rounds and copies the caller's frames, in order, to the
    positions after the application pointer, around the end of the ring; every
    other byte of the ring stays, and the pointer moves by the frames.  Where
    the status area is mapped every transfer of a frame or more returns -1,
    whatever the room: the commit reports the missing exchange as an error. *)
Theorem ring_transfer fb buf offset size w : ring_dev fb (pobj w) → 0 <= offset →
  (offset + size) * fb <= blen buf → blen buf <= INT_MAX →
  (∀ a, mmaps (pobj w) = MSync a → ptrs_ok bs bnd a → 0 <= size <= playback_avail (pobj w) a →
    wp (pcm_mmap_transfer_areas 2 buf offset size) (λ r w', r = (size, buf) ∧ transferred fb a buf offset size w w') w) ∧
  (mmaps (pobj w) = MMapped → 0 < size → wp (pcm_mmap_transfer_areas 2 buf offset size) (λ r _, r = (-1, buf)) w).
Proof.
  intros HD Ho Hb Hbi. split; [|intros E Hs; by eapply mapped_transfer_wp].
  intros a E Hp Hs. pose proof Hg as [G1 G2 G3 G4]. assert (ringed fb a (pobj w)) as HR by (by destruct HD).
  rewrite (playback_avail_eq bs bnd) in Hs by (done || apply HD). pose proof (fill_range bs bnd Hg a). pose proof (rd_pos _ _ HD).
  apply transfer_wp; [done|lia|done|lia|lia|done|done|].
  unfold rounds. destruct (size =? 0); [lia|]. destruct (_ <=? _); lia.
Qed.
End Transfers.
