(* ===== verification/PcmName.v ===== *)
(** * Opening a PCM by its name (tinyalsa/src/pcm.c)

    [pcm_open_by_name] and the accessors of an open device. *)

From S2P Require Import Prelude Monad Params Mixer Pcm.
From stdpp Require Import strings.
From Stdlib Require Import Ascii String.

#[local] Open Scope string_scope.
#[local] Open Scope Z_scope.

(** [%u] of [sscanf]: the number is read with [strtoumax], which saturates at 64
    bits, and truncated. *)
Definition scan_u (s : string) : option (Z * string) :=
  let '(neg, t) := read_sign (skip_space s) in
  if is_digit 10 t then
    let '(v, r) := read_digits 10 t 0 in
    Some (u32 (if v >=? 2 ^ 64 then 2 ^ 64 - 1 else if neg : bool then - v else v), r)
  else None.

(** [sscanf (s, "%u,%u", ...)] when it assigns both numbers. *)
Definition scan_pair (s : string) : option (Z * Z) :=
  '(card, r) ← scan_u s;
  match r with
  | String a r' => if bool_decide (a = ","%char) then '(device, _) ← scan_u r'; Some (card, device) else None
  | EmptyString => None
  end.

Section Name.
Context `{!PcmDev}.

(** [None] is a null pointer. *)
Definition pcm_open_by_name {S} (name : string) (fl : Z) (cfg : option pcm_config) : ST (pworld S) (option handle) :=
  match name with
  | String a (String b (String c s)) =>
      if bool_decide (a = "h"%char) && bool_decide (b = "w"%char) && bool_decide (c = ":"%char) then
        match scan_pair s with
        | Some (card, device) => h ← pcm_open card device fl cfg; mret (Some h)
        | None => mret None
        end
      else mret None
  | _ => mret None
  end.
End Name.

Definition pcm_get_buffer_size (p : pcm) : Z := buffer_size p.
Definition pcm_get_channels (p : pcm) : Z := channels (config p).
Definition pcm_get_config (p : option pcm) : option pcm_config := config <$> p.
Definition pcm_get_rate (p : pcm) : Z := rate (config p).
Definition pcm_get_format (p : pcm) : pcm_format := format (config p).
Definition pcm_get_file_descriptor (p : pcm) : Z := fd p.
Definition pcm_get_subdevice (p : pcm) : Z := subdevice p.

Lemma scan_u_print n r : 0 <= n < 2 ^ 32 → is_digit 10 r = false → scan_u (print_digits 10 n "" +:+ r) = Some (n, r).
Proof.
  intros Hn Hr. rewrite print_digits_app. change ("" +:+ r) with r. unfold scan_u.
  assert (0 <= n < 10 ^ Z.of_nat 10) as Hn' by (change (10 ^ Z.of_nat 10) with 10000000000; lia).
  destruct (print_first 10 n r Hn' ltac:(lia)) as (d & t & Et & Hd & _). pose proof (read_print 10 n r Hn' ltac:(lia)) as Hrd. rewrite Et in *.
  destruct (skip_space_digit d t Hd) as (-> & -> & ->). rewrite Hrd.
  assert (read_digits 10 r n = (n, r)) as ->.
  { destruct r as [|c r']; [done|]. simpl in *. destruct (digit_value c); [|done]. by rewrite Hr. }
  destruct (Z.geb_spec n (2 ^ 64)); [lia|]. by rewrite u32_id.
Qed.

(** The name [hw:card,device] opens that device, whatever follows the
    device's digits; and a name is refused without touching the driver unless
    it starts with [hw:]. *)
Theorem open_by_name_parses `{!PcmDev} {S} card device rest fl cfg (w : pworld S) :
  0 <= card < 2 ^ 32 → 0 <= device < 2 ^ 32 → is_digit 10 rest = false →
  pcm_open_by_name ("hw:" +:+ (print_digits 10 card "" +:+ ("," +:+ (print_digits 10 device "" +:+ rest)))) fl cfg w
    = (h ← pcm_open card device fl cfg; mret (Some h)) w ∧
  (∀ name, ¬ (∃ s, name = "hw:" +:+ s) → pcm_open_by_name name fl cfg w = Some (None, w)).
Proof.
  intros Hc Hd Hr. split.
  - change ("hw:" +:+ ?s) with (String "h" (String "w" (String ":" s))). cbn [pcm_open_by_name]. rewrite !bool_decide_true by done. cbn [andb].
    unfold scan_pair. rewrite scan_u_print by done. change ("," +:+ ?s) with (String "," s). cbn [mbind option_bind].
    rewrite bool_decide_true by done. by rewrite scan_u_print.
  - intros name Hn. destruct name as [|a [|b [|c s]]]; [done|done|done|]. cbn [pcm_open_by_name].
    do 3 (case_bool_decide; subst; cbn [andb]; try done). exfalso. apply Hn. by exists s.
Qed.
