(* ===== verification/AudioOffload.v ===== *)
(** * Compressed playback (audio/audio_hw.c)

    The operations of a compressed output stream on its compressed device.  The
    library of these devices (tinycompress) is a parameter: an instance of
    [Compress] gives the reply to every call as a function of the calls before
    it.  A call with a null handle is undefined.  An operation is one step;
    the thread of the asynchronous mode is in [AudioAsync]. *)

From S2P Require Import Prelude Monad Mixer Params AudioConfig.

#[local] Open Scope string_scope.
#[local] Open Scope list_scope.
#[local] Open Scope Z_scope.

(** ** The library of compressed devices *)

Record snd_codec := mkCodec {
  cd_id : Z; cd_ch_in : Z; cd_ch_out : Z; cd_sample_rate : Z; cd_rate_control : Z; cd_level : Z; cd_format : Z; cd_align : Z }.
#[export] Instance snd_codec_eta : Eta snd_codec := λ c, mkCodec
  (cd_id c) (cd_ch_in c) (cd_ch_out c) (cd_sample_rate c) (cd_rate_control c) (cd_level c) (cd_format c) (cd_align c).
Definition zero_codec : snd_codec := mkCodec 0 0 0 0 0 0 0 0.

(** A handle; one that is not ready is only asked for its error and closed. *)
Record chandle := mkCH { ch_id : Z; ch_ready : bool }.

Inductive ccall :=
  | COpen (card device : Z) (input : bool) (codec : snd_codec) (r : option chandle)
  | CClose (id : Z)
  | CStart (id r : Z) | CStop (id : Z) | CPause (id r : Z) | CResume (id r : Z)
  | CDrain (id r : Z) | CPartialDrain (id r : Z) | CNextTrack (id r : Z)
  | CWrite (id : Z) (data : list Z) (r : Z) | CRead (id bytes r : Z)
  | CTstamp (id r : Z) | CMaxPoll (id ms : Z) | CNonblock (id : Z) (b : bool)
  | CGapless (id delay padding : Z) | CWait (id : Z).

Abbreviation clog := (list ccall).

(** The reply to an open is the handle, null when there is no memory, with the
    fragment size and count the device has chosen. *)
Class Compress := {
  co_open : clog → Z → Z → bool → Z → Z → snd_codec → option chandle * Z * Z;
  co_start : clog → Z → Z; co_pause : clog → Z → Z; co_resume : clog → Z → Z;
  co_drain : clog → Z → Z; co_partial_drain : clog → Z → Z; co_next_track : clog → Z → Z;
  co_write : clog → Z → list Z → Z;
  co_read : clog → Z → Z → Z * list Z;
  co_tstamp : clog → Z → Z * Z;
  co_errno : clog → Z }.                   (* of an open that failed *)

Record cworld (S : Type) := CWorld { cobj : S; ccalls : clog }.
Arguments CWorld {_} _ _.
Arguments cobj {_} _.
Arguments ccalls {_} _.

Section Calls.
Context `{!Compress} {S : Type}.
Abbreviation M := (ST (cworld S)).

Definition ccall_ {A} (reply : clog → A) (ev : A → ccall) : M A :=
  λ w, let a := reply (ccalls w) in Some (a, CWorld (cobj w) (ev a :: ccalls w)).
Definition cnote (c : ccall) : M () := modify (λ w, CWorld (cobj w) (c :: ccalls w)).

Definition compress_open (card device : Z) (input : bool) (fragment_size fragments : Z) (codec : snd_codec) : M (option chandle * Z * Z) :=
  ccall_ (λ h, co_open h card device input fragment_size fragments codec) (λ r, COpen card device input codec r.1.1).
Definition compress_close (c : chandle) : M () := cnote (CClose (ch_id c)).
Definition compress_start (c : chandle) : M Z := ccall_ (λ h, co_start h (ch_id c)) (CStart (ch_id c)).
Definition compress_stop (c : chandle) : M () := cnote (CStop (ch_id c)).
Definition compress_pause (c : chandle) : M Z := ccall_ (λ h, co_pause h (ch_id c)) (CPause (ch_id c)).
Definition compress_resume (c : chandle) : M Z := ccall_ (λ h, co_resume h (ch_id c)) (CResume (ch_id c)).
Definition compress_drain (c : chandle) : M Z := ccall_ (λ h, co_drain h (ch_id c)) (CDrain (ch_id c)).
Definition compress_partial_drain (c : chandle) : M Z := ccall_ (λ h, co_partial_drain h (ch_id c)) (CPartialDrain (ch_id c)).
Definition compress_next_track (c : chandle) : M Z := ccall_ (λ h, co_next_track h (ch_id c)) (CNextTrack (ch_id c)).
Definition compress_write (c : chandle) (data : list Z) : M Z := ccall_ (λ h, co_write h (ch_id c) data) (CWrite (ch_id c) data).
Definition compress_read (c : chandle) (bytes : Z) : M (Z * list Z) :=
  ccall_ (λ h, co_read h (ch_id c) bytes) (λ r, CRead (ch_id c) bytes r.1).
Definition compress_get_tstamp (c : chandle) : M (Z * Z) := ccall_ (λ h, co_tstamp h (ch_id c)) (λ r, CTstamp (ch_id c) r.1).
End Calls.

(** ** The stream *)

Inductive async_mode := ASYNC_NONE | ASYNC_POLL | ASYNC_EARLY_DRAIN | ASYNC_FULL_DRAIN.
#[export] Instance async_mode_eq_dec : EqDecision async_mode.
Proof. solve_decision. Defined.

(** [mode] is the field of [async_common]; [oc_buffer_size] and [use_async] are
    fields of the common part. *)
Record stream_out_compress := mkOC {
  oc_compress : option chandle; oc_codec : snd_codec; started : bool; paused : bool;
  encoder_delay : Z; encoder_padding : Z; refresh_gapless_meta : bool;
  use_async : bool; mode : async_mode; oc_buffer_size : Z }.
#[export] Instance stream_out_compress_eta : Eta stream_out_compress := λ o, mkOC
  (oc_compress o) (oc_codec o) (started o) (paused o) (encoder_delay o) (encoder_padding o) (refresh_gapless_meta o)
  (use_async o) (mode o) (oc_buffer_size o).
Definition zero_out_compress : stream_out_compress := mkOC None zero_codec false false 0 0 false false ASYNC_NONE 0.

Definition EBUSY : Z := 16.
Definition EBADFD : Z := 77.

(** Formats of system/audio.h. *)
Class AudioFormats := {
  FORMAT_MAIN_MASK : Z; FORMAT_MP3 : Z; FORMAT_AAC : Z; FORMAT_HE_AAC_V1 : Z; FORMAT_HE_AAC_V2 : Z; FORMAT_VORBIS : Z;
  CODEC_PCM : Z; CODEC_MP3 : Z; CODEC_AAC : Z; CODEC_VORBIS : Z; AUDIOMODE_AAC_HE : Z; RATECONTROL : Z }.

Fixpoint popcount_p (p : positive) : Z := match p with xH => 1 | xO p => popcount_p p | xI p => 1 + popcount_p p end.
Definition popcount (z : Z) : Z := match z with Zpos p => popcount_p p | _ => 0 end.

Section Offload.
Context `{!Compress} `{!AudioFormats}.
Abbreviation M := (ST (cworld stream_out_compress)).

Definition getO : M stream_out_compress := gets cobj.
Definition updO (f : stream_out_compress → stream_out_compress) : M () := modify (λ w, CWorld (f (cobj w)) (ccalls w)).
(** The handle, which must not be null. *)
Definition the_compress : M chandle := o ← getO; lift (oc_compress o).

Definition do_standby_compress_l : M Z :=
  o ← getO;
  match oc_compress o with
  | Some c =>
      if paused o then mret 0 else
      when (started o) (compress_stop c;; updO (λ o, o <| started := false |>));;
      compress_close c;;
      updO (λ o, o <| oc_compress := None |>);;
      mret 0
  | None => mret 0
  end.

Definition out_compress_standby : M Z := do_standby_compress_l.

Definition open_output_compress (card device : Z) : M Z :=
  o ← getO;
  match oc_compress o with
  | Some _ => mret 0
  | None =>
      '(r, fragment_size, fragments) ← compress_open card device false 0 0 (oc_codec o);
      cmpr ← lift r;
      if negb (ch_ready cmpr) then compress_close cmpr;; mret (- EBUSY) else
      cnote (CMaxPoll (ch_id cmpr) (-1));;
      cnote (CNonblock (ch_id cmpr) (use_async o));;
      updO (λ o, o <| oc_buffer_size := u32 (fragment_size * fragments) |> <| oc_compress := Some cmpr |>);;
      mret 0
  end.

Definition start_output_compress : M Z :=
  c ← the_compress;
  ret ← compress_start c;
  if ret <? 0 then do_standby_compress_l;; mret ret else
  updO (λ o, o <| started := true |>);;
  o ← getO;
  when (refresh_gapless_meta o)
    (cnote (CGapless (ch_id c) (encoder_delay o) (encoder_padding o));;
     updO (λ o, o <| refresh_gapless_meta := false |> <| encoder_delay := 0 |> <| encoder_padding := 0 |>));;
  mret ret.

(** [rv] is the result of creating the condition variable, the mutex and the
    thread. *)
Definition out_set_callback (rv : Z) : M Z :=
  if negb (rv =? 0) then mret rv else updO (λ o, o <| use_async := true |>);; mret 0.

Definition signal_async_thread (m : async_mode) : M Z :=
  o ← getO;
  if negb (bool_decide (mode o = ASYNC_NONE)) then mret (- EBUSY) else
  updO (λ o, o <| mode := m |>);; mret 0.

Definition out_compress_write (card device : Z) (buffer : list Z) : M Z :=
  ret ← open_output_compress card device;
  if ret <? 0 then mret ret else
  c ← the_compress;
  ret ← compress_write c buffer;
  if ret <? 0 then mret ret else
  o ← getO;
  failed ← (if negb (started o) then r ← start_output_compress; mret (r <? 0) else mret false);
  if failed : bool then mret (-1) else
  when (use_async o) (when (ret <? blen buffer) (signal_async_thread ASYNC_POLL;; mret ()));;
  mret ret.

Definition out_compress_pause : M Z :=
  o ← getO;
  match oc_compress o with
  | Some c => if paused o then mret (- EBADFD) else updO (λ o, o <| paused := true |>);; compress_pause c
  | None => mret (- EBADFD)
  end.

Definition out_compress_resume : M Z :=
  o ← getO;
  match oc_compress o with
  | Some c => if paused o then updO (λ o, o <| paused := false |>);; compress_resume c else mret (- EBADFD)
  | None => mret (- EBADFD)
  end.

(** [early] is AUDIO_DRAIN_EARLY_NOTIFY. *)
Definition out_compress_drain (early : bool) : M Z :=
  o ← getO;
  if use_async o then signal_async_thread (if early then ASYNC_EARLY_DRAIN else ASYNC_FULL_DRAIN) else
  c ← the_compress;
  if early then
    ret ← compress_next_track c;
    if negb (ret =? 0) then mret ret else
    ret ← compress_partial_drain c;
    updO (λ o, o <| started := false |>);; mret ret
  else
    ret ← compress_drain c;
    updO (λ o, o <| started := false |>);; mret ret.

Definition out_compress_flush : M Z :=
  o ← getO;
  match oc_compress o with
  | Some c => when (started o) (compress_stop c;; updO (λ o, o <| paused := false |> <| started := false |>));; mret 0
  | None => mret 0
  end.

(** The frames rendered. *)
Definition out_compress_get_render_position : M Z :=
  o ← getO;
  if negb (started o) then mret 0 else
  c ← the_compress;
  '(r, samples) ← compress_get_tstamp c;
  mret (if r =? 0 then samples else 0).

(** The job of the thread, outside its mutex: drain or wait, then call back. *)
Definition async_job (m : async_mode) : M () :=
  match m with
  | ASYNC_POLL => c ← the_compress; cnote (CWait (ch_id c))
  | ASYNC_EARLY_DRAIN =>
      c ← the_compress; compress_next_track c;; compress_partial_drain c;; updO (λ o, o <| started := false |>)
  | ASYNC_FULL_DRAIN => c ← the_compress; compress_drain c;; updO (λ o, o <| started := false |>)
  | ASYNC_NONE => mret ()
  end.

(** Up to the call of [do_close_out_common]. *)
Definition out_compress_close : M () := updO (λ o, o <| paused := false |>);; out_compress_standby;; mret ().

(** The numbers of the parameters, where given. *)
Definition out_compress_set_gapless (delay padding : option Z) : M () :=
  when (bool_decide (is_Some delay)) (updO (λ o, o <| encoder_delay := default 0 delay |>));;
  when (bool_decide (is_Some padding)) (updO (λ o, o <| encoder_padding := default 0 padding |>));;
  when (bool_decide (is_Some delay) || bool_decide (is_Some padding)) (updO (λ o, o <| refresh_gapless_meta := true |>)).

(** The codec and its level for a format. *)
Definition codec_of (format : Z) : option (Z * Z) :=
  let f := Z.land format FORMAT_MAIN_MASK in
  if f =? FORMAT_MP3 then Some (CODEC_MP3, 0)
  else if f =? FORMAT_AAC then Some (CODEC_AAC, 0)
  else if f =? FORMAT_HE_AAC_V1 then Some (CODEC_AAC, AUDIOMODE_AAC_HE)
  else if f =? FORMAT_HE_AAC_V2 then Some (CODEC_AAC, AUDIOMODE_AAC_HE)
  else if f =? FORMAT_VORBIS then Some (CODEC_VORBIS, 0)
  else None.

Definition do_init_out_compress (card device format sample_rate channel_mask : Z) : M Z :=
  updO (λ o, o <| oc_codec := (oc_codec o) <| cd_align := 1 |> <| cd_rate_control := RATECONTROL |> <| cd_sample_rate := sample_rate |> |>);;
  match codec_of format with
  | None => mret (- EINVAL)
  | Some (id, level) =>
      updO (λ o, o <| oc_codec := (oc_codec o) <| cd_id := id |> <| cd_level := level |> <| cd_ch_out := popcount channel_mask |> |>);;
      open_output_compress card device
  end.
End Offload.
