(* ===== verification/AudioAsync.v ===== *)
(** * The thread of asynchronous playback (audio/audio_hw.c)

    [out_set_callback] starts a thread that waits for a request, does it and
    calls the framework back.  The thread and its clients are a transition
    system: a client's critical section is one step, the thread has a step for
    each access to the shared fields.  A wait on the condition variable ends
    with a signal sent while the thread waits, or spuriously. *)

From S2P Require Import Prelude Monad Mixer AudioConfig AudioOffload.
From stdpp Require Import relations.

#[local] Open Scope Z_scope.

(** Where the thread is in [out_compress_async_fn]. *)
Inductive wpc :=
  | WStart                   (* before pW->stream is read *)
  | WTest                    (* while (!pW->exit) *)
  | WLock                    (* before the lock and the wait *)
  | WWaiting                 (* in pthread_cond_wait, mutex released *)
  | WWoken                   (* woken, before the mutex is taken again *)
  | WJob (m : async_mode)    (* the switch, mutex released *)
  | WDone.                   (* returned; the mutex is held for ever if it left at the break *)

(** [stream_set]: the fields that [out_set_callback] fills after it has created
    the thread.  [seen]: the thread has read the stream, and what it read.
    [mutex]: taken by the thread at the break.  [accepted] requests, [called]
    callbacks. *)
Record async := mkAsync {
  exit : bool; amode : async_mode; stream_set : bool; seen : bool; pc : wpc; mutex : bool; accepted : nat; called : nat }.
#[export] Instance async_eta : Eta async := λ a, mkAsync
  (exit a) (amode a) (stream_set a) (seen a) (pc a) (mutex a) (accepted a) (called a).

(** After [pthread_create]. *)
Definition async_init : async := mkAsync false ASYNC_NONE false false WStart false 0 0.

(** [pthread_cond_signal]. *)
Definition signal (a : async) : async := match pc a with WWaiting => a <| pc := WWoken |> | _ => a end.

Inductive label := LThread | LSpurious | LSet | LRequest (m : async_mode) (r : Z) | LClose.

(** The steps of the thread. *)
Definition thread_step (a : async) : option async :=
  match pc a with
  | WStart => Some (a <| seen := stream_set a |> <| pc := WTest |>)
  | WTest => Some (a <| pc := if exit a then WDone else WLock |>)
  | WLock => if mutex a then None else Some (a <| pc := WWaiting |>)
  | WWaiting => None
  | WWoken =>
      if mutex a then None
      else if exit a then Some (a <| mutex := true |> <| pc := WDone |>)
      else Some (a <| amode := ASYNC_NONE |> <| pc := WJob (amode a) |>)
  | WJob ASYNC_NONE => Some (a <| pc := WTest |>)
  | WJob _ => Some (a <| called := S (called a) |> <| pc := WTest |>)
  | WDone => None
  end.

(** [signal_async_thread]. *)
Definition request (m : async_mode) (a : async) : Z * async :=
  if bool_decide (amode a = ASYNC_NONE) then (0, signal (a <| amode := m |> <| accepted := S (accepted a) |>)) else (- EBUSY, a).

Inductive step : async → label → async → Prop :=
  | step_thread a a' : thread_step a = Some a' → step a LThread a'
  | step_spurious a : pc a = WWaiting → step a LSpurious (a <| pc := WWoken |>)
  | step_set a a' : stream_set a = false → a <| stream_set := true |> = a' → step a LSet a'
  | step_request a m r a' : m ≠ ASYNC_NONE → stream_set a = true → mutex a = false → exit a = false →
      request m a = (r, a') → step a (LRequest m r) a'
  | step_close a a' : stream_set a = true → mutex a = false → exit a = false → signal (a <| exit := true |>) = a' → step a LClose a'.

(** States reached with labels of some kind. *)
Inductive reach (P : label → Prop) : async → async → Prop :=
  | reach_refl a : reach P a a
  | reach_step a l a1 a2 : step a l a1 → P l → reach P a1 a2 → reach P a a2.

Definition any : label → Prop := λ _, True.

(** ** Every accepted request is answered at most once *)

Definition pending (a : async) : nat := if bool_decide (amode a = ASYNC_NONE) then 0 else 1.
Definition in_job (a : async) : nat := match pc a with WJob m => if bool_decide (m = ASYNC_NONE) then 0 else 1 | _ => 0 end.

Definition balanced (a : async) : Prop := accepted a = (called a + pending a + in_job a)%nat.

Lemma signal_pc a : in_job (signal a) = in_job a ∧ amode (signal a) = amode a ∧ accepted (signal a) = accepted a ∧ called (signal a) = called a.
Proof. unfold signal, in_job. destruct a as [? ? ? ? []]; done. Qed.

Lemma balanced_step a l a' : step a l a' → balanced a → balanced a'.
Proof.
  unfold balanced. intros Hs HB. destruct Hs as [a a' E|a E|a a' _ <-|a m r a' Hm ? ? ? Er|a a' ? ? ? <-].
  - destruct a as [ex mo ss se p mx ac ca]. unfold thread_step, pending, in_job in *. simpl in *.
    destruct p as [| | | | |[]|], ex, mx; simplify_eq; simpl in *; repeat case_bool_decide; try done; lia.
  - unfold pending, in_job in *. simpl. by rewrite E in HB.
  - done.
  - unfold request in Er. case_bool_decide as E; [|by injection Er as _ <-]. injection Er as _ <-. unfold pending in *. simpl.
    destruct (signal_pc (a <| amode := m |> <| accepted := S (accepted a) |>)) as (J & M & A & C). rewrite J, M, A, C.
    unfold in_job in *. simpl. rewrite bool_decide_true in HB by done. rewrite bool_decide_false by done. lia.
  - unfold pending in *. destruct (signal_pc (a <| exit := true |>)) as (J & M & A & C). by rewrite J, M, A, C.
Qed.

(** C18: In every state the thread and its clients reach, with any spurious
    wakeups, the requests accepted are the callbacks made plus the one that
    is waiting and the one being served: no request is answered twice and
    none is dropped from the books. *)
Theorem callbacks_account a : reach any async_init a → accepted a = (called a + pending a + in_job a)%nat.
Proof.
  intros Hr. assert (balanced async_init) as H0 by done. revert H0. induction Hr as [a|a l a1 a2 Hs _ _ IH]; [done|].
  intros H0. apply IH. by eapply balanced_step.
Qed.

Ltac thread := eapply reach_step; [apply step_thread; vm_compute; reflexivity|done|].
Ltac set_stream := eapply reach_step; [eapply step_set; [done|vm_compute; reflexivity]|done|].
Ltac requests m := eapply reach_step; [eapply (step_request _ m); [done..|vm_compute; reflexivity]|done|].
Ltac close := eapply reach_step; [eapply step_close; [done..|vm_compute; reflexivity]|done|].

Lemma callbacks_account_witness : reach any async_init (mkAsync false ASYNC_NONE true true WTest false 1 1) ∧ 1%nat = (1 + 0 + 0)%nat.
Proof.
  assert (reach any async_init (mkAsync false ASYNC_NONE true true WTest false 1 1)) as Hr.
  { set_stream. do 3 thread.
    requests ASYNC_POLL. do 2 thread. apply reach_refl. }
  split; [exact Hr|]. exact (callbacks_account _ Hr).
Defined.

(** ** Wakeups that are lost *)

(** A request that waits while the thread waits. *)
Definition stuck (a : async) : Prop := pc a = WWaiting ∧ amode a ≠ ASYNC_NONE.

(** Steps without a close or a spurious wakeup. *)
Definition playing (l : label) : Prop := match l with LClose | LSpurious => False | _ => True end.

Lemma stuck_step a l a' : stuck a → step a l a' → playing l → stuck a' ∧ called a' = called a ∧ ∀ m r, l = LRequest m r → r = - EBUSY.
Proof.
  intros [Hp Hm] Hs Hl. destruct Hs as [a a' E|a E|a a' _ <-|a m r a' Hm' ? ? ? Er|a a' ? ? ? _]; try done.
  - unfold thread_step in E. by rewrite Hp in E.
  - unfold request in Er. rewrite bool_decide_false in Er by done. injection Er as <- <-. split_and!; [done|done|]. by intros ? ? [= _ <-].
Qed.

(** C19: A request made while the thread is between its job and the next wait is
    accepted and its signal is lost: the thread waits with the request
    pending, every later request is refused, and no callback comes again
    until the stream is closed. *)
Theorem wakeup_lost : ∃ a, reach playing async_init a ∧ stuck a ∧ accepted a = S (called a) ∧
  ∀ a', reach playing a a' → stuck a' ∧ called a' = called a ∧ ∀ m, (request m a').1 = - EBUSY.
Proof.
  exists (mkAsync false ASYNC_FULL_DRAIN true true WWaiting false 2 1). split_and!; [|done|done|].
  - set_stream. do 3 thread.
    requests ASYNC_POLL. thread.
    requests ASYNC_FULL_DRAIN. do 3 thread. apply reach_refl.
  - intros a' Hr. remember (mkAsync _ _ _ _ _ _ _ _) as a0 eqn:E0. assert (stuck a0) as H0 by (by subst). clear E0.
    induction Hr as [a|a l a1 a2 Hs Hl _ IH].
    + split_and!; [done|done|]. intros m. unfold request. destruct H0 as [_ H0]. by rewrite bool_decide_false.
    + destruct (stuck_step _ _ _ H0 Hs Hl) as (H1 & C1 & _). destruct (IH H1) as (? & ? & ?). split_and!; [done|congruence|done].
Qed.

(** The close can be lost in the same way: [pthread_join] waits for a thread
    that nothing will wake. *)
Theorem close_lost : ∃ a, reach any async_init a ∧ exit a = true ∧ pc a = WWaiting ∧ ∀ l a', step a l a' → l = LSpurious.
Proof.
  exists (mkAsync true ASYNC_NONE true true WWaiting false 0 0). split_and!; [|done|done|].
  - set_stream. do 2 thread. close. thread. apply reach_refl.
  - intros l a' Hs. inversion Hs; subst; done.
Qed.

(** The thread may read the stream before it is set: its first job then runs
    on a null pointer. *)
Theorem stream_read_too_early : ∃ a m, reach any async_init a ∧ seen a = false ∧ pc a = WJob m ∧ m ≠ ASYNC_NONE.
Proof.
  exists (mkAsync false ASYNC_NONE true false (WJob ASYNC_POLL) false 1 0), ASYNC_POLL. split_and!; [|done|done|done].
  do 3 thread. set_stream.
  requests ASYNC_POLL. thread. apply reach_refl.
Qed.
