(* ===== verification/AudioOffloadSpec.v ===== *)
(** * The life of a compressed device

    Every operation of a compressed stream is defined (except those that use the
    device in standby), calls the library on the open device only, and leaves
    exactly the device of the stream open. *)

From S2P Require Import Prelude Monad Mixer Params AudioConfig Pcm AudioOffload.

#[local] Open Scope Z_scope.

(** ** Open devices, by the log *)

Definition open_delta (c : ccall) (id : Z) : Z :=
  match c with
  | COpen _ _ _ _ (Some h) => if ch_id h =? id then 1 else 0
  | CClose i => if i =? id then -1 else 0
  | _ => 0
  end.
Fixpoint opens (l : clog) (id : Z) : Z := match l with [] => 0 | c :: l' => opens l' id + open_delta c id end.

(** The device a call is made on. *)
Definition used (c : ccall) : option Z :=
  match c with
  | COpen _ _ _ _ _ => None
  | CClose i | CStart i _ | CStop i | CPause i _ | CResume i _ | CDrain i _ | CPartialDrain i _ | CNextTrack i _
  | CWrite i _ _ | CRead i _ _ | CTstamp i _ | CMaxPoll i _ | CNonblock i _ | CGapless i _ _ | CWait i => Some i
  end.
(** Every call was made on a device open at the time. *)
Fixpoint proper (l : clog) : Prop :=
  match l with [] => True | c :: l' => match used c with Some i => 0 < opens l' i | None => True end ∧ proper l' end.

Definition holds (h : option chandle) (id : Z) : Z := match h with Some c => if ch_id c =? id then 1 else 0 | None => 0 end.

Record oc_inv (w : cworld stream_out_compress) : Prop := {
  oi_started : started (cobj w) = true → is_Some (oc_compress (cobj w));
  oi_paused : paused (cobj w) = true → is_Some (oc_compress (cobj w));
  oi_open : ∀ id, opens (ccalls w) id = holds (oc_compress (cobj w)) id;
  oi_proper : proper (ccalls w) }.

(** The library never answers with a null handle: it has a static one for
    devices that cannot be opened. *)
Class CompressOk (C : Compress) : Prop := { co_open_some : ∀ h c d i fs fn k, is_Some (co_open h c d i fs fn k).1.1 }.

Section Rules.
Context {S : Type}.
Implicit Types (w : cworld S).
Lemma wp_ccall {A} (reply : clog → A) ev (Q : A → cworld S → Prop) w :
  Q (reply (ccalls w)) (CWorld (cobj w) (ev (reply (ccalls w)) :: ccalls w)) → wp (ccall_ reply ev) Q w.
Proof. done. Qed.
Lemma wp_c_ret {A} (a : A) (Q : A → cworld S → Prop) w : Q a w → wp (mret a) Q w.
Proof. done. Qed.
Lemma wp_c_gets {A} (f : cworld S → A) Q w : Q (f w) w → wp (gets f) Q w.
Proof. done. Qed.
Lemma wp_c_modify f (Q : () → cworld S → Prop) w : Q () (f w) → wp (modify f) Q w.
Proof. done. Qed.
Lemma wp_c_if {A} (b : bool) (m1 m2 : ST (cworld S) A) Q w :
  (b = true → wp m1 Q w) → (b = false → wp m2 Q w) → wp (if b then m1 else m2) Q w.
Proof. destruct b; auto. Qed.
Lemma wp_c_when (b : bool) (m : ST (cworld S) ()) Q w :
  (b = true → wp m Q w) → (b = false → Q () w) → wp (when b m) Q w.
Proof. intros Ht Hf. destruct b; [by apply Ht|by apply Hf]. Qed.
Lemma wp_c_lift {A} (o : option A) a (Q : A → cworld S → Prop) w : o = Some a → Q a w → wp (lift o) Q w.
Proof. by intros ->. Qed.
End Rules.

Ltac oc_step :=
  lazymatch goal with
  | |- wp (mbind _ _) _ _ => apply wp_bind
  | |- wp (mret _) _ _ => apply wp_c_ret
  | |- wp (gets _) _ _ => apply wp_c_gets
  | |- wp getO _ _ => apply wp_c_gets
  | |- wp (modify _) _ _ => apply wp_c_modify
  | |- wp (updO _) _ _ => apply wp_c_modify
  | |- wp (cnote _) _ _ => apply wp_c_modify
  | |- wp (when _ _) _ _ => apply wp_c_when; intros ?
  | |- wp (ccall_ _ _) _ _ => apply wp_ccall
  | |- wp (compress_close _) _ _ => apply wp_c_modify
  | |- wp (compress_stop _) _ _ => apply wp_c_modify
  | |- wp (compress_start _) _ _ => apply wp_ccall
  | |- wp (compress_pause _) _ _ => apply wp_ccall
  | |- wp (compress_resume _) _ _ => apply wp_ccall
  | |- wp (compress_drain _) _ _ => apply wp_ccall
  | |- wp (compress_partial_drain _) _ _ => apply wp_ccall
  | |- wp (compress_next_track _) _ _ => apply wp_ccall
  | |- wp (compress_write _ _) _ _ => apply wp_ccall
  | |- wp (compress_get_tstamp _) _ _ => apply wp_ccall
  | |- wp (if ?b then _ else _) _ _ => first [apply wp_c_if; intros ? | destruct b eqn:?]
  | |- wp (let '(_, _) := ?x in _) _ _ => destruct x eqn:?
  | |- wp (match ?x with _ => _ end) _ _ => destruct x eqn:?
  end.
Ltac oc_steps := repeat (oc_step; cbn beta zeta; cbn [cobj ccalls]).

(** ** Operations *)

Section Life.
Context `{C : Compress, !CompressOk C} `{!AudioFormats}.
Variables card device : Z.
Implicit Types (w : cworld stream_out_compress).

Inductive oc_op :=
  | OWrite (data : list Z) | OPause | OResume | ODrain (early : bool) | OFlush | OStandby | OPosition
  | OJob (m : async_mode) | OGapless (delay padding : option Z) | OCallback (rv : Z) | OClose.

Definition oc_do (op : oc_op) : ST (cworld stream_out_compress) () :=
  match op with
  | OWrite data => out_compress_write card device data;; mret ()
  | OPause => out_compress_pause;; mret ()
  | OResume => out_compress_resume;; mret ()
  | ODrain early => out_compress_drain early;; mret ()
  | OFlush => out_compress_flush;; mret ()
  | OStandby => out_compress_standby;; mret ()
  | OPosition => out_compress_get_render_position;; mret ()
  | OJob m => async_job m
  | OGapless d p => out_compress_set_gapless d p
  | OCallback rv => out_set_callback rv;; mret ()
  | OClose => out_compress_close
  end.

(** A drain in the calling thread, and the job of the other one, use the
    device: they are undefined in standby, and nothing else is ever undefined
    ([offload_life]). *)
Definition op_ok (o : stream_out_compress) (op : oc_op) : Prop :=
  match op with
  | ODrain _ => use_async o = true ∨ is_Some (oc_compress o)
  | OJob m => m = ASYNC_NONE ∨ is_Some (oc_compress o)
  | _ => True
  end.

Lemma holds_self c : holds (Some c) (ch_id c) = 1.
Proof. simpl. by rewrite Z.eqb_refl. Qed.

(** A call on the open device that opens and closes nothing. *)
Lemma oi_call w c call o' : oc_inv w → oc_compress (cobj w) = Some c → used call = Some (ch_id c) → (∀ id, open_delta call id = 0) →
  oc_compress o' = Some c → oc_inv (CWorld o' (call :: ccalls w)).
Proof.
  intros [H1 H2 H3 H4] Hc Hu Hd Ho. split; simpl; rewrite ?Ho; [by eexists..| |].
  - intros id. by rewrite Hd, H3, Hc, Z.add_0_r.
  - rewrite Hu, H3, Hc, holds_self. split; [lia|done].
Qed.

(** Only flags change. *)
Lemma oi_flags w o' : oc_inv w → oc_compress o' = oc_compress (cobj w) →
  (started o' = true → started (cobj w) = true ∨ is_Some (oc_compress (cobj w))) →
  (paused o' = true → paused (cobj w) = true ∨ is_Some (oc_compress (cobj w))) → oc_inv (CWorld o' (ccalls w)).
Proof. intros [H1 H2 H3 H4] Hc Hs Hp. split; simpl; rewrite ?Hc; [intros E; destruct (Hs E); auto|intros E; destruct (Hp E); auto|done|done]. Qed.

Lemma oi_closed w c o' : oc_inv w → oc_compress (cobj w) = Some c → oc_compress o' = None → started o' = false → paused o' = false →
  oc_inv (CWorld o' (CClose (ch_id c) :: ccalls w)).
Proof.
  intros [H1 H2 H3 H4] Hc Ho Hs Hp. split; simpl; rewrite ?Ho, ?Hs, ?Hp; [done|done| |].
  - intros id. rewrite H3, Hc. simpl. destruct (ch_id c =? id); lia.
  - rewrite H3, Hc, holds_self. split; [lia|done].
Qed.

Lemma standby_wp w : oc_inv w → wp do_standby_compress_l (λ r w', r = 0 ∧ oc_inv w' ∧ (paused (cobj w) = false → oc_compress (cobj w') = None)) w.
Proof.
  intros HI. unfold do_standby_compress_l. oc_steps; try (split_and!; [done|done|congruence]).
  - split_and!; [done| |done]. by apply (oi_closed (CWorld ((cobj w) <| started := false |>) (CStop (ch_id c) :: ccalls w)) c);
      [eapply oi_call|..].
  - split_and!; [done| |done]. by apply (oi_closed w c).
Qed.

Lemma open_compress_wp w : oc_inv w → wp (open_output_compress card device) (λ r w', oc_inv w' ∧
  (r = 0 ∧ is_Some (oc_compress (cobj w')) ∨ r < 0 ∧ oc_compress (cobj w') = oc_compress (cobj w))) w.
Proof.
  intros HI. unfold open_output_compress. oc_steps; [by split; [|left; split; [|eexists]]|].
  unfold compress_open. oc_step. destruct (co_open _ _ _ _ _ _ _) as [[r fs] fn] eqn:E. cbn beta iota.
  destruct (co_open_some (ccalls w) card device false 0 0 (oc_codec (cobj w))) as [h Hh]. rewrite E in Hh. simpl in Hh. subst r.
  apply wp_bind. eapply wp_c_lift; [done|]. destruct HI as [H1 H2 H3 H4]. rewrite Heqo in *.
  assert (∀ id, opens (ccalls w) id = 0) as H0 by (intros id; by rewrite H3).
  oc_steps; simpl.
  - split; [|right; split; [unfold EBUSY; lia|done]]. split; simpl; rewrite ?Heqo; try done.
    + intros id. rewrite H0. simpl. destruct (_ =? id); lia.
    + rewrite H0, Z.eqb_refl. split; [lia|done].
  - split; [|left; split; [done|by eexists]]. split; simpl; [by eexists..| |].
    + intros id. rewrite H0. simpl. lia.
    + rewrite H0, Z.eqb_refl. split_and!; [lia|lia|done|done].
Qed.

Lemma start_compress_wp c w : oc_inv w → oc_compress (cobj w) = Some c → wp start_output_compress (λ _, oc_inv) w.
Proof.
  intros HI Hc. unfold start_output_compress, the_compress. oc_steps. eapply wp_c_lift; [done|]. oc_steps.
  - eapply wp_mono; [apply standby_wp; by eapply oi_call|]. intros r w' (_ & ? & _). by apply wp_c_ret.
  - by eapply (oi_call (CWorld ((cobj w) <| started := true |>) (CStart (ch_id c) (co_start (ccalls w) (ch_id c)) :: ccalls w)));
      [eapply oi_call|..].
  - by eapply oi_call.
Qed.

Lemma signal_wp m w : oc_inv w → wp (signal_async_thread m) (λ _, oc_inv) w.
Proof. intros HI. unfold signal_async_thread. oc_steps; [done|]. apply oi_flags; auto. Qed.

Lemma write_wp data w : oc_inv w → wp (out_compress_write card device data) (λ _, oc_inv) w.
Proof.
  intros HI. unfold out_compress_write. apply wp_bind. eapply wp_mono; [by apply open_compress_wp|].
  intros r w1 (HI1 & [(-> & c & Hc)|[Hr _]]); cbn beta iota zeta delta [Z.ltb Z.compare].
  2:{ change (match r ?= 0 with Lt => true | _ => false end) with (r <? 0). destruct (Z.ltb_spec r 0); [by apply wp_c_ret|lia]. }
  unfold the_compress. oc_steps. eapply wp_c_lift; [done|]. oc_steps; try (by eapply oi_call).
  - eapply wp_mono; [eapply start_compress_wp; [by eapply oi_call|done]|]. intros r w3 HI3. oc_steps; try done.
    eapply wp_mono; [by apply signal_wp|]. intros ? w4 HI4. by oc_steps.
  - eapply wp_mono; [apply signal_wp; by eapply oi_call|]. intros ? w4 HI4. by oc_steps.
Qed.

Lemma drain_wp early w : oc_inv w → op_ok (cobj w) (ODrain early) → wp (out_compress_drain early) (λ _, oc_inv) w.
Proof.
  intros HI Hok. unfold out_compress_drain, the_compress. oc_steps.
  - by apply signal_wp.
  - destruct Hok as [?|[c Hc]]; [congruence|]. eapply wp_c_lift; [done|]. oc_steps; try (by eapply oi_call).
    by eapply (oi_call (CWorld (cobj w) (CNextTrack (ch_id c) (co_next_track (ccalls w) (ch_id c)) :: ccalls w))); [eapply oi_call|..].
Qed.

Lemma job_wp m w : oc_inv w → op_ok (cobj w) (OJob m) → wp (async_job m) (λ _, oc_inv) w.
Proof.
  intros HI Hok. unfold async_job, the_compress. destruct m; oc_steps; try done; (destruct Hok as [?|[c Hc]]; [done|]);
    (eapply wp_c_lift; [done|]); oc_steps; try (by eapply oi_call).
  by eapply (oi_call (CWorld (cobj w) (CNextTrack (ch_id c) (co_next_track (ccalls w) (ch_id c)) :: ccalls w))); [eapply oi_call|..].
Qed.

Lemma gapless_wp d p w : oc_inv w → wp (out_compress_set_gapless d p) (λ _, oc_inv) w.
Proof. intros HI. unfold out_compress_set_gapless. oc_steps; try done; apply oi_flags; auto. Qed.

Lemma oc_do_wp op w : oc_inv w → op_ok (cobj w) op → wp (oc_do op) (λ _, oc_inv) w.
Proof.
  intros HI Hok. destruct op; cbn [oc_do].
  - apply wp_bind. eapply wp_mono; [by apply write_wp|done].
  - unfold out_compress_pause. oc_steps; try done. by eapply oi_call.
  - unfold out_compress_resume. oc_steps; try done. by eapply oi_call.
  - apply wp_bind. eapply wp_mono; [by apply drain_wp|done].
  - unfold out_compress_flush. oc_steps; try done. by eapply oi_call.
  - unfold out_compress_standby. apply wp_bind. eapply wp_mono; [by apply standby_wp|]. by intros r w' (_ & ? & _).
  - unfold out_compress_get_render_position, the_compress. oc_steps; try done. destruct (oi_started _ HI) as [c Hc]; [by zbool|].
    eapply wp_c_lift; [done|]. oc_steps. by eapply oi_call.
  - by apply job_wp.
  - by apply gapless_wp.
  - unfold out_set_callback. oc_steps; [done|]. apply oi_flags; auto.
  - unfold out_compress_close, out_compress_standby. oc_steps. eapply wp_mono; [apply standby_wp; apply oi_flags; by auto|].
    by intros r w' (_ & ? & _).
Qed.

(** In standby the device is a null pointer. *)
Lemma oc_do_undefined op w : ¬ op_ok (cobj w) op → oc_do op w = None.
Proof.
  intros Hno. destruct op as [| | |early| | | |m| | |]; simpl in Hno; try (exfalso; by apply Hno).
  - destruct (use_async (cobj w)) eqn:Ea, (oc_compress (cobj w)) as [c|] eqn:Ec;
      try (exfalso; apply Hno; by auto); try (exfalso; apply Hno; right; by eexists).
    simpl. unfold out_compress_drain, the_compress, getO, mbind, ST_bind, gets, lift. simpl. rewrite Ea. simpl. by rewrite Ec.
  - destruct (oc_compress (cobj w)) as [c|] eqn:Ec; [exfalso; apply Hno; right; by eexists|].
    destruct m; try (exfalso; apply Hno; by left); simpl; unfold the_compress, getO, mbind, ST_bind, gets, lift; simpl; by rewrite Ec.
Qed.

Lemma oc_do_defined op w : oc_inv w → (is_Some (oc_do op w) ↔ op_ok (cobj w) op).
Proof.
  intros HI. assert (op_ok (cobj w) op ∨ ¬ op_ok (cobj w) op) as [Hok|Hno].
  { destruct op as [| | |early| | | |m| | |]; simpl; try tauto.
    - destruct (use_async (cobj w)); [auto|]. destruct (oc_compress (cobj w)); [left; right; by eexists|right; by intros [?|[? ?]]].
    - destruct (oc_compress (cobj w)); [left; right; by eexists|]. destruct m; auto; right; by intros [?|[? ?]]. }
  - split; [done|]. intros _. pose proof (oc_do_wp op w HI Hok) as Hwp. unfold wp in Hwp. destruct (oc_do op w) as [[]|]; [by eexists|done].
  - rewrite (oc_do_undefined op w Hno). split; [by intros [? ?]|done].
Qed.

(** Sequences of operations that ran. *)
Inductive oc_calls : cworld stream_out_compress → list oc_op → cworld stream_out_compress → Prop :=
  | oc_nil w : oc_calls w [] w
  | oc_cons w op w1 ops w2 : oc_do op w = Some ((), w1) → oc_calls w1 ops w2 → oc_calls w (op :: ops) w2.

Lemma oc_calls_inv w ops w' : oc_calls w ops w' → oc_inv w → oc_inv w'.
Proof.
  induction 1 as [|w op w1 ops w2 E _ IH]; [done|]. intros HI. apply IH.
  assert (op_ok (cobj w) op) as Hok by (apply oc_do_defined; [done|by rewrite E]).
  pose proof (oc_do_wp op w HI Hok) as Hwp. unfold wp in Hwp. by rewrite E in Hwp.
Qed.

End Life.

(** ** A concrete device *)

Definition demo_formats : AudioFormats := {|
  FORMAT_MAIN_MASK := 0xFF000000; FORMAT_MP3 := 0x01000000; FORMAT_AAC := 0x04000000; FORMAT_HE_AAC_V1 := 0x05000000;
  FORMAT_HE_AAC_V2 := 0x06000000; FORMAT_VORBIS := 0x07000000; CODEC_PCM := 1; CODEC_MP3 := 2; CODEC_AAC := 6;
  CODEC_VORBIS := 9; AUDIOMODE_AAC_HE := 32; RATECONTROL := 3 |}.

(** Every device opens, with an identifier of its own, and accepts everything. *)
Definition demo_compress : Compress := {|
  co_open := λ h _ _ _ _ _ _, (Some (mkCH (blen h) true), 4096, 4);
  co_start := λ _ _, 0; co_pause := λ _ _, 0; co_resume := λ _ _, 0; co_drain := λ _ _, 0; co_partial_drain := λ _ _, 0;
  co_next_track := λ _ _, 0; co_write := λ _ _ d, blen d; co_read := λ _ _ n, (n, replicate (Z.to_nat n) 0); co_tstamp := λ _ _, (0, 0); co_errno := λ _, ENODEV |}.

Definition demo_compress_ok : CompressOk demo_compress.
Proof. split. intros. by eexists. Defined.

#[local] Existing Instances demo_formats demo_compress demo_compress_ok.

