(* ===== verification/AudioHal.v ===== *)
(** * The audio device (audio/audio_hw.c)

    The state of the device, its output streams and the voice trigger.  The
    device calls the configuration manager ([AudioConfig]), the PCM library
    ([Pcm]) and, for compressed streams, [AudioOffload]; [run_cm], [run_pcm] and
    [run_comp] run their computations on their part of the state.  Streams of
    the framework are pointers: keys of two maps.  A call is one step: the
    locks of the device and of the stream are held by every operation that
    changes them. *)

From S2P Require Import Prelude Monad Float32 Mixer DynArray Params AudioConfig Pcm AudioOffload.
From Stdlib Require Import Ascii Floats.SpecFloat.

#[local] Open Scope string_scope.
#[local] Open Scope list_scope.
#[local] Open Scope Z_scope.

(** ** The platform *)

Inductive hevent :=
  | HAlloc (ok : bool)
  | HTime (t : Z)
  | HSleep (sec nsec : Z)
  | HCreateResampler (r : Z)
  | HResample (frames : Z).

(** What a resampler does with its provider, call by call: it asks for a number
    of frames and is given samples, gives frames back, and ends with the
    samples it has made. *)
Inductive rprog :=
  | RDone (out : list Z)
  | RGet (frame_count : Z) (k : Z → list (option Z) → rprog)
  | RRelease (frame_count : Z) (k : rprog).

(** [hl_parms]: the parser of parameters (libcutils), null without memory, and
    the value of a key.  [hl_log]: the natural logarithm of doubles (libm). *)
Class HalLib := {
  hl_alloc : list hevent → bool;
  hl_time : list hevent → Z;
  hl_parms : list hevent → string → option (string → option string);
  hl_log : spec_float → spec_float;
  hl_out_frame_size : Z → Z → Z;          (* of a format and a channel mask *)
  hl_in_frame_size : Z → Z → Z;
  hl_bytes_per_sample : Z → Z;
  hl_create_resampler : list hevent → Z → Z → Z → Z;
  hl_resample : list hevent → Z → rprog }.

(** Constants of the code. *)
Definition OUT_PERIOD_SIZE_DEFAULT : Z := 256.
Definition OUT_PERIOD_COUNT_DEFAULT : Z := 4.
Definition OUT_CHANNEL_MASK_DEFAULT : Z := 3.
Definition OUT_CHANNEL_COUNT_DEFAULT : Z := 2.
Definition OUT_RATE_DEFAULT : Z := 44100.
Definition IN_PERIOD_SIZE_DEFAULT : Z := 256.
Definition IN_PERIOD_COUNT_DEFAULT : Z := 4.
Definition IN_CHANNEL_MASK_DEFAULT : Z := 16.
Definition IN_CHANNEL_COUNT_DEFAULT : Z := 1.
Definition IN_RATE_DEFAULT : Z := 44100.
Definition IN_COMPRESS_BUFFER_SIZE_DEFAULT : Z := 1024.
Definition ENOTSUP : Z := 95.
Definition kVoiceTriggerStreamName : string := "voice trigger".
Definition kVoiceRecogStreamName : string := "voice recognition".

(** ** State *)

Inductive voice_state :=
  eVoiceNone | eVoiceTriggerIdle | eVoiceTriggerArmed | eVoiceTriggerFired
  | eVoiceRecogIdle | eVoiceRecogArmed | eVoiceRecogFired | eVoiceRecogAudio | eVoiceRecogReArm.
#[export] Instance voice_state_eq_dec : EqDecision voice_state.
Proof. solve_decision. Defined.

(** A [struct pcm *].  [pcm_open] does not return null. *)
Inductive pcm_ptr := PNull | PHandle (h : handle) | PFreed.

(** [audio_config] of the framework. *)
Record audio_config := mkConf { ac_sample_rate : Z; ac_channel_mask : Z; ac_format : Z }.

Inductive out_kind :=
  | OutPcm (pcm : pcm_ptr) (hw_sample_rate hw_channel_count : Z)
  | OutCompress (o : stream_out_compress).

(** [struct stream_out_common] and the part of its kind; [o_hw] is a position
    in the streams of the configuration manager. *)
Record stream_out := mkOut {
  o_hw : Z; o_standby : bool; o_format : Z; o_channel_mask : Z; o_channel_count : Z; o_sample_rate : Z;
  o_frame_size : Z; o_buffer_size : Z; o_latency : Z; o_kind : out_kind }.
#[export] Instance stream_out_eta : Eta stream_out := λ o, mkOut
  (o_hw o) (o_standby o) (o_format o) (o_channel_mask o) (o_channel_count o) (o_sample_rate o)
  (o_frame_size o) (o_buffer_size o) (o_latency o) (o_kind o).

(** [struct in_resampler]: a buffer is its samples, [None] where it was never
    written. *)
Record in_resampler := mkRsp {
  rs_resampler : bool; rs_buffer : option (list (option Z)); in_buffer_size : Z; in_buffer_frames : Z; frames_in : Z; read_status : Z }.
#[export] Instance in_resampler_eta : Eta in_resampler := λ r, mkRsp
  (rs_resampler r) (rs_buffer r) (in_buffer_size r) (in_buffer_frames r) (frames_in r) (read_status r).

(** The union of [pcm] and [compress]. *)
Inductive in_dev := InNull | InPcm (h : handle) | InCompress (c : chandle).

Record stream_in := mkIn {
  i_hw : option Z; i_standby : bool; i_devices : Z; i_format : Z; i_channel_mask : Z; i_channel_count : Z; i_sample_rate : Z;
  i_frame_size : Z; i_buffer_size : Z; input_source : Z; last_read_ns : Z;
  i_dev : in_dev; i_hw_sample_rate : Z; i_hw_channel_count : Z; i_period_size : Z; i_resampler : in_resampler }.
#[export] Instance stream_in_eta : Eta stream_in := λ i, mkIn
  (i_hw i) (i_standby i) (i_devices i) (i_format i) (i_channel_mask i) (i_channel_count i) (i_sample_rate i)
  (i_frame_size i) (i_buffer_size i) (input_source i) (last_read_ns i)
  (i_dev i) (i_hw_sample_rate i) (i_hw_channel_count i) (i_period_size i) (i_resampler i).

(** [voice_trig_stream] is also [voice_recog_stream], a union. *)
Record audio_device := mkDev {
  mic_mute : bool; active_voice_control : option Z; voice_st : voice_state; voice_trig_mic : Z;
  global_stream : option Z; voice_trig_stream : option Z }.
#[export] Instance audio_device_eta : Eta audio_device := λ d, mkDev
  (mic_mute d) (active_voice_control d) (voice_st d) (voice_trig_mic d) (global_stream d) (voice_trig_stream d).

Record hal := mkHal {
  h_cm : aworld config_mgr; h_pcm : pworld (); h_comp : cworld (); h_dev : audio_device;
  h_outs : gmap Z stream_out; h_ins : gmap Z stream_in; h_next : Z; h_events : list hevent }.
#[export] Instance hal_eta : Eta hal := λ h, mkHal
  (h_cm h) (h_pcm h) (h_comp h) (h_dev h) (h_outs h) (h_ins h) (h_next h) (h_events h).

(** Tests on the type of a stream (include/tinyhal/audio_config.h). *)
Definition stream_is_compressed (h : hw_stream) : bool :=
  match hw_type h with e_stream_out_compress | e_stream_in_compress => true | _ => false end.
Definition stream_is_compressed_in (h : hw_stream) : bool := bool_decide (hw_type h = e_stream_in_compress).

(** [double] is binary64; conversions between the two formats. *)
Definition convert (prec emax : Z) (f : spec_float) : spec_float :=
  match f with S754_finite s m e => binary_normalize prec emax (if s then Zneg m else Zpos m) e s | _ => f end.
Definition to_double : f32 → spec_float := convert 53 1024.
Definition to_float : spec_float → f32 := convert 24 128.
Definition d_of_Z (z : Z) : spec_float := binary_normalize 53 1024 z 0 false.

Definition atoi (s : string) : Z := (strtol 10 s).1.

(** The pieces between separators that are not empty. *)
Fixpoint strtok_on (c : ascii) (s acc : string) : list string :=
  match s with
  | EmptyString => if bool_decide (acc = "") then [] else [acc]
  | String a s' =>
      if bool_decide (a = c) then (if bool_decide (acc = "") then [] else [acc]) ++ strtok_on c s' ""
      else strtok_on c s' (acc +:+ String a "")
  end.

(** [strchr (p, '=')]: what is before and after. *)
Fixpoint split_eq (s acc : string) : option (string * string) :=
  match s with
  | EmptyString => None
  | String a s' => if bool_decide (a = "="%char) then Some (acc, s') else split_eq s' (acc +:+ String a "")
  end.

Section Hal.
Context `{!Alsa} `{!AudioH} `{!PcmDev} `{!Compress} `{!AudioFormats} `{!HalLib}.

Abbreviation HM := (ST hal).

(** ** Parts of the state *)

Definition run_cm {A} (m : ST (aworld config_mgr) A) : HM A :=
  λ h, match m (h_cm h) with Some (a, w) => Some (a, h <| h_cm := w |>) | None => None end.
Definition run_pcm {A} (m : ST (pworld ()) A) : HM A :=
  λ h, match m (h_pcm h) with Some (a, w) => Some (a, h <| h_pcm := w |>) | None => None end.
Definition run_comp {A} (m : ST (cworld ()) A) : HM A :=
  λ h, match m (h_comp h) with Some (a, w) => Some (a, h <| h_comp := w |>) | None => None end.

Definition getD : HM audio_device := gets h_dev.
Definition updD (f : audio_device → audio_device) : HM () := modify (λ h, h <| h_dev := f (h_dev h) |>).
Definition get_out (p : Z) : HM stream_out := h ← get_st; lift (h_outs h !! p).
Definition set_out (p : Z) (o : stream_out) : HM () := modify (λ h, h <| h_outs := <[p := o]> (h_outs h) |>).
Definition get_in (p : Z) : HM stream_in := h ← get_st; lift (h_ins h !! p).
Definition set_in (p : Z) (i : stream_in) : HM () := modify (λ h, h <| h_ins := <[p := i]> (h_ins h) |>).

Definition event {A} (reply : list hevent → A) (ev : A → hevent) : HM A :=
  λ h, let a := reply (h_events h) in Some (a, h <| h_events := ev a :: h_events h |>).
Definition h_alloc : HM bool := event hl_alloc HAlloc.
Definition systemTime : HM Z := event hl_time HTime.
Definition fresh : HM Z := h ← get_st; put_st (h <| h_next := h_next h + 1 |>);; mret (h_next h).

Definition hw_info (k : Z) : HM hw_stream := run_cm (s ← get_str k; mret (s_info s)).

(** ** Parameters *)

Definition stream_invoke_usecases (stream : option Z) (kvpairs : string) : HM Z :=
  ok ← h_alloc;
  if negb ok then mret (- ENOMEM) else
  match stream with
  | None => mret (- ENOTSUP)
  | Some k =>
      (fix go (ps : list string) (ret : Z) : HM Z :=
         match ps with
         | [] => mret ret
         | p :: ps' =>
             match split_eq p "" with
             | Some (setting, String a v) =>
                 r ← run_cm (apply_use_case k setting (String a v));
                 go ps' (if r >=? 0 then 0 else ret)
             | _ => go ps' ret
             end
         end) (strtok_on ";" kvpairs "") (- ENOTSUP)
  end.

Definition str_parms_create_str (kvpairs : string) : HM (option (string → option string)) :=
  h ← get_st; mret (hl_parms (h_events h) kvpairs).

(** The value of the routing key, if it is there. *)
Definition common_get_routing_param (kvpairs : string) : HM (option Z) :=
  parms ← str_parms_create_str kvpairs;
  get ← lift parms;
  mret ((λ v, u32 (atoi v)) <$> get "routing").

(** ** Output streams: common functions *)

Definition out_get_sample_rate (p : Z) : HM Z :=
  o ← get_out p; if negb (o_sample_rate o =? 0) then mret (o_sample_rate o) else i ← hw_info (o_hw o); mret (hw_rate i).
Definition out_get_buffer_size (p : Z) : HM Z := o ← get_out p; mret (o_buffer_size o).
Definition out_get_channels (p : Z) : HM Z :=
  o ← get_out p; mret (if negb (o_channel_mask o =? 0) then o_channel_mask o else OUT_CHANNEL_MASK_DEFAULT).
Definition out_get_format (p : Z) : HM Z := o ← get_out p; mret (o_format o).
Definition out_get_latency (p : Z) : HM Z := o ← get_out p; mret (o_latency o).

Definition out_set_parameters (p : Z) (kvpairs : string) : HM Z :=
  o ← get_out p;
  v ← common_get_routing_param kvpairs;
  match v with Some v => run_cm (apply_route (o_hw o) v) | None => mret () end;;
  stream_invoke_usecases (Some (o_hw o)) kvpairs;;
  mret 0.

(** Undefined when the result is no [int]. *)
Definition volume_to_percent (volume : f32) : option Z :=
  let decibels := if fgt volume (f_of_Z 0) then to_float (SFdiv 53 1024 (hl_log (to_double volume)) (to_double (f_lit 115129 1000000)))
                  else f_of_Z (-58) in
  let percent := to_float (SFmul 53 1024 (SFadd 53 1024 (to_double decibels) (d_of_Z 58)) (SFdiv 53 1024 (d_of_Z 100) (d_of_Z 58))) in
  f_to_int percent.

Definition out_set_volume (p : Z) (left right : f32) : HM Z :=
  l_pc ← lift (volume_to_percent left);
  r_pc ← lift (volume_to_percent right);
  o ← get_out p;
  run_cm (set_hw_volume (o_hw o) l_pc r_pc).

(** The memory of the stream is freed.  The thread of a compressed stream has
    been stopped ([AudioAsync]). *)
Definition do_close_out_common (p : Z) : HM () :=
  o ← get_out p;
  run_cm (release_stream (o_hw o));;
  modify (λ h, h <| h_outs := delete p (h_outs h) |>).

(** The fields and the first route. *)
Definition do_init_out_common (p : Z) (c : audio_config) (devices : Z) : HM Z :=
  o ← get_out p;
  set_out p (o <| o_standby := true |> <| o_format := ac_format c |> <| o_sample_rate := ac_sample_rate c |>
    <| o_channel_mask := ac_channel_mask c |> <| o_channel_count := popcount (ac_channel_mask c) |>
    <| o_frame_size := hl_out_frame_size (ac_format c)
         (if negb (ac_channel_mask c =? 0) then ac_channel_mask c else OUT_CHANNEL_MASK_DEFAULT) |>);;
  run_cm (apply_route (o_hw o) devices);;
  mret 0.

(** ** PCM output *)

Definition or_default (v d : Z) : Z := if negb (v =? 0) then v else d.
Definition out_pcm_cfg_period_count (i : hw_stream) : Z := or_default (hw_period_count i) OUT_PERIOD_COUNT_DEFAULT.
Definition out_pcm_cfg_period_size (i : hw_stream) : Z := or_default (hw_period_size i) OUT_PERIOD_SIZE_DEFAULT.
Definition out_pcm_cfg_rate (i : hw_stream) : Z := or_default (hw_rate i) OUT_RATE_DEFAULT.
Definition out_pcm_cfg_channel_count (o : stream_out) : Z := or_default (o_channel_count o) OUT_CHANNEL_COUNT_DEFAULT.

(** The pointer after [pcm_close]: [bad_pcm] is static. *)
Definition closed_ptr (h : handle) : pcm_ptr := match h with HBad => PHandle HBad | HPcm _ => PFreed end.

Definition get_pcm (o : stream_out) : option (handle * Z * Z) :=
  match o_kind o with OutPcm (PHandle h) r c => Some (h, r, c) | _ => None end.

Definition do_out_pcm_standby (p : Z) : HM () :=
  o ← get_out p;
  if o_standby o then mret () else
  '(h, r, c) ← lift (get_pcm o);
  run_pcm (pcm_close h);;
  set_out p (o <| o_kind := OutPcm PNull r c |> <| o_standby := true |>).

Definition out_config (o : stream_out) (i : hw_stream) : pcm_config := mkPcmCfg
  (out_pcm_cfg_channel_count o) (out_pcm_cfg_rate i) (out_pcm_cfg_period_size i) (out_pcm_cfg_period_count i)
  PCM_FORMAT_S16_LE 0 0 0.

Definition out_pcm_fill_params (o : stream_out) (p : pcm) (c : pcm_config) : option stream_out :=
  if rate c =? 0 then None else
  Some (o <| o_kind := OutPcm (PHandle (HPcm p)) (rate c) (channels c) |>
          <| o_buffer_size := pcm_frames_to_bytes p (period_size c) |>
          <| o_latency := u32 (u32 (period_size c * period_count c) * 1000) / rate c |>).

Definition start_output_pcm (p : Z) : HM Z :=
  o ← get_out p;
  i ← hw_info (o_hw o);
  let c := out_config o i in
  h ← run_pcm (pcm_open (card_number i) (device_number i) PCM_OUT (Some c));
  if negb (pcm_is_ready h) then
    run_pcm (pcm_close h);;
    set_out p (o <| o_kind := OutPcm (closed_ptr h) (match o_kind o with OutPcm _ r _ => r | _ => 0 end)
                                    (match o_kind o with OutPcm _ _ c => c | _ => 0 end) |>);;
    mret (- ENOMEM)
  else
    match h with
    | HPcm q => o' ← lift (out_pcm_fill_params o q c); set_out p o';; mret 0
    | HBad => ub
    end.

Definition out_pcm_standby (p : Z) : HM Z := do_out_pcm_standby p;; mret 0.

(** Run a method on the stream's PCM. *)
Definition on_out_pcm {A} (p : Z) (m : pcm → ST (pworld pcm) A) : HM A :=
  o ← get_out p;
  '(h, r, c) ← lift (get_pcm o);
  match h with
  | HPcm q => '(a, q') ← run_pcm (on q (m q)); set_out p (o <| o_kind := OutPcm (PHandle (HPcm q')) r c |>);; mret a
  | HBad => ub
  end.

Definition out_pcm_write (p : Z) (buffer : list Z) : HM Z :=
  let bytes := blen buffer in
  o ← get_out p;
  routes ← run_cm (get_current_routes (o_hw o));
  if routes =? 0 then mret 0 else
  ret ← (if o_standby o then
           ret ← start_output_pcm p;
           if negb (ret =? 0) then mret ret else
           o ← get_out p; set_out p (o <| o_standby := false |>);; mret 0
         else mret 0);
  if negb (ret =? 0) then mret ret else
  ret ← on_out_pcm p (λ q, n ← lift (pcm_bytes_to_frames q bytes); pcm_writei 2 buffer n);
  mret (if ret >=? 0 then i32 bytes else ret).

Definition do_close_out_pcm (p : Z) : HM () := out_pcm_standby p;; do_close_out_common p.

Definition do_init_out_pcm (p : Z) : HM Z :=
  o ← get_out p;
  i ← hw_info (o_hw o);
  if o_sample_rate o =? 0 then ub else
  set_out p (o <| o_buffer_size := u32 (out_pcm_cfg_period_size i * o_frame_size o) |>
               <| o_latency := u32 (u32 (out_pcm_cfg_period_size i * out_pcm_cfg_period_count i) * 1000) / o_sample_rate o |>);;
  mret 0.

(** ** Compressed output *)

(** Run an operation of [AudioOffload] on the stream. *)
Definition on_compress {A} (p : Z) (m : ST (cworld stream_out_compress) A) : HM A :=
  λ h, match h_outs h !! p with
       | Some o =>
           match o_kind o with
           | OutCompress c =>
               match m (CWorld c (ccalls (h_comp h))) with
               | Some (a, w) => Some (a, h <| h_comp := CWorld () (ccalls w) |>
                                          <| h_outs := <[p := o <| o_kind := OutCompress (cobj w) |> <| o_buffer_size := oc_buffer_size (cobj w) |>]> (h_outs h) |>)
               | None => None
               end
           | _ => None
           end
       | None => None
       end.

Definition out_compress_set_parameters (p : Z) (kvpairs : string) : HM Z :=
  parms ← str_parms_create_str kvpairs;
  get ← lift parms;
  on_compress p (out_compress_set_gapless (atoi <$> get "delay_samples") (atoi <$> get "padding_samples"));;
  out_set_parameters p kvpairs.

(** ** Operations of every output stream: the function pointers *)

Definition out_standby (p : Z) : HM Z :=
  o ← get_out p;
  match o_kind o with OutPcm _ _ _ => out_pcm_standby p | OutCompress _ => on_compress p out_compress_standby end.
Definition out_write (p : Z) (buffer : list Z) : HM Z :=
  o ← get_out p;
  match o_kind o with
  | OutPcm _ _ _ => out_pcm_write p buffer
  | OutCompress _ => i ← hw_info (o_hw o); on_compress p (out_compress_write (card_number i) (device_number i) buffer)
  end.
Definition out_parameters (p : Z) (kvpairs : string) : HM Z :=
  o ← get_out p;
  match o_kind o with OutPcm _ _ _ => out_set_parameters p kvpairs | OutCompress _ => out_compress_set_parameters p kvpairs end.

Definition adev_close_output_stream (p : Z) : HM () :=
  o ← get_out p;
  match o_kind o with
  | OutPcm _ _ _ => do_close_out_pcm p
  | OutCompress _ => on_compress p out_compress_close;; do_close_out_common p
  end.

(** The object of [calloc] for a type of stream. *)
Definition new_out (hw : Z) (k : out_kind) : stream_out := mkOut hw false 0 0 0 0 0 0 0 k.

(** The result and the stream; neither error gives the configuration
    manager's stream back. *)
Definition adev_open_output_stream (devices : Z) (c : audio_config) : HM (Z * option Z) :=
  let devices := Z.land devices OUT_ALL in
  hw ← run_cm (get_stream devices (ac_format c));
  match hw with
  | None => mret (- EINVAL, None)
  | Some k =>
      i ← hw_info k;
      ok ← h_alloc;
      if negb ok then mret (- ENOMEM, None) else
      p ← fresh;
      let pcm := bool_decide (hw_type i = e_stream_out_pcm) in
      set_out p (new_out k (if pcm then OutPcm PNull 0 0 else OutCompress zero_out_compress));;
      do_init_out_common p c devices;;
      ret ← (if pcm then do_init_out_pcm p
             else on_compress p (do_init_out_compress (card_number i) (device_number i) (ac_format c) (ac_sample_rate c) (ac_channel_mask c)));
      if ret <? 0 then modify (λ h, h <| h_outs := delete p (h_outs h) |>);; mret (ret, None)
      else mret (0, Some p)
  end.

(** ** The voice trigger *)

Definition do_voice_trigger_open_stream (name : string) : HM () :=
  s ← run_cm (get_named_stream name);
  updD (λ d, d <| voice_trig_stream := s |>);;
  match s with
  | None => mret ()
  | Some k => d ← getD; run_cm (apply_route k (if voice_trig_mic d =? 0 then IN_BUILTIN_MIC else voice_trig_mic d))
  end.

(** The last statement of the source compares with null. *)
Definition do_voice_trigger_close_stream : HM () :=
  d ← getD;
  match voice_trig_stream d with
  | None => mret ()
  | Some k => run_cm (apply_route k 0);; run_cm (release_stream k)
  end.

Definition set_voice (s : voice_state) : HM () := updD (λ d, d <| voice_st := s |>).

Definition voice_trigger_enable : HM () :=
  d ← getD;
  match voice_st d with
  | eVoiceNone => mret ()
  | eVoiceTriggerIdle | eVoiceTriggerFired => do_voice_trigger_open_stream kVoiceTriggerStreamName;; set_voice eVoiceTriggerArmed
  | eVoiceTriggerArmed => mret ()
  | eVoiceRecogIdle => do_voice_trigger_open_stream kVoiceRecogStreamName;; set_voice eVoiceRecogArmed
  | eVoiceRecogArmed | eVoiceRecogFired | eVoiceRecogReArm => mret ()
  | eVoiceRecogAudio => set_voice eVoiceRecogReArm
  end.

Definition voice_trigger_disable : HM () :=
  d ← getD;
  match voice_st d with
  | eVoiceNone | eVoiceTriggerIdle => mret ()
  | eVoiceTriggerFired | eVoiceTriggerArmed => do_voice_trigger_close_stream;; set_voice eVoiceTriggerIdle
  | eVoiceRecogIdle => mret ()
  | eVoiceRecogArmed => do_voice_trigger_close_stream;; set_voice eVoiceRecogIdle
  | eVoiceRecogFired | eVoiceRecogAudio => mret ()
  | eVoiceRecogReArm => set_voice eVoiceRecogAudio
  end.

Definition voice_trigger_triggered : HM () :=
  d ← getD;
  match voice_st d with
  | eVoiceTriggerArmed => set_voice eVoiceTriggerFired
  | eVoiceRecogArmed => set_voice eVoiceRecogFired
  | _ => mret ()
  end.

Definition voice_trigger_audio_started_locked : HM () :=
  d ← getD; match voice_st d with eVoiceRecogFired => set_voice eVoiceRecogAudio | _ => mret () end.

Definition voice_trigger_audio_ended_locked : HM () :=
  d ← getD;
  match voice_st d with
  | eVoiceRecogAudio => do_voice_trigger_close_stream;; set_voice eVoiceRecogIdle
  | eVoiceRecogReArm => set_voice eVoiceRecogArmed
  | _ => mret ()
  end.

Definition voice_trigger_audio_stream_name (s : voice_state) : option string :=
  match s with
  | eVoiceNone | eVoiceTriggerIdle | eVoiceTriggerArmed | eVoiceTriggerFired => Some kVoiceRecogStreamName
  | eVoiceRecogIdle | eVoiceRecogArmed | eVoiceRecogReArm => None
  | eVoiceRecogFired => Some kVoiceRecogStreamName
  | eVoiceRecogAudio => None
  end.

Definition voice_trigger_set_params (get : string → option string) : HM () :=
  match get "voice_trigger_mic" with Some v => updD (λ d, d <| voice_trig_mic := u32 (atoi v) |>) | None => mret () end;;
  match get "voice_trigger" with
  | Some v =>
      if bool_decide (v = "2") then voice_trigger_triggered
      else if bool_decide (v = "1") then voice_trigger_enable
      else if bool_decide (v = "0") then voice_trigger_disable
      else mret ()
  | None => mret ()
  end.

Definition voice_trigger_init : HM () :=
  r ← run_cm (is_named_stream_defined kVoiceRecogStreamName);
  if r : bool then set_voice eVoiceRecogIdle else
  t ← run_cm (is_named_stream_defined kVoiceTriggerStreamName);
  set_voice (if t : bool then eVoiceTriggerIdle else eVoiceNone).

(** ** Global functions *)

Definition adev_set_parameters (kvpairs : string) : HM Z :=
  parms ← str_parms_create_str kvpairs;
  match parms with Some get => voice_trigger_set_params get | None => mret () end;;
  d ← getD;
  match global_stream d with Some k => stream_invoke_usecases (Some k) kvpairs;; mret 0 | None => mret 0 end.

Definition adev_set_mic_mute (state : bool) : HM Z := updD (λ d, d <| mic_mute := state |>);; mret 0.
Definition adev_get_mic_mute : HM bool := d ← getD; mret (mic_mute d).

Definition adev_get_input_buffer_size (c : audio_config) : Z :=
  let s := u32 (IN_PERIOD_SIZE_DEFAULT * hl_bytes_per_sample (ac_format c) * popcount (ac_channel_mask c)) in
  if s >? IN_COMPRESS_BUFFER_SIZE_DEFAULT then IN_COMPRESS_BUFFER_SIZE_DEFAULT else s.

(** After the configuration has been read: the stream of global controls and
    the mode of the voice trigger. *)
Definition adev_open_body : HM Z :=
  g ← run_cm (get_named_stream "global");
  updD (λ d, d <| global_stream := g |>);;
  voice_trigger_init;;
  mret 0.

Definition adev_close : HM Z := h ← get_st; run_cm (free_audio_config (Some (aobj (h_cm h))));; mret 0.

(** The device with a configuration manager; nothing else in it. *)
Definition new_hal (cm : aworld config_mgr) : hal := mkHal
  cm (PWorld () 0 []) (CWorld () []) (mkDev false None eVoiceNone 0 None None) ∅ ∅ 1 [].

(** [loaded] is the result of [init_audio_config]. *)
Definition adev_open (name_ok alloc_ok : bool) (loaded : option (aworld config_mgr)) : Z + option (Z * hal) :=
  if negb name_ok then inl (- EINVAL) else
  if negb alloc_ok then inl (- ENOMEM) else
  match loaded with None => inl (- EINVAL) | Some cm => inr (adev_open_body (new_hal cm)) end.
End Hal.
