(* ===== verification/AudioCapture.v ===== *)
(** * Audio input (audio/audio_hw.c)

    Input streams: they get a stream of the configuration manager when the
    framework names an input source, read from a PCM device, through a
    resampler where the rates differ, or from a compressed device, and give
    silence in place of errors. *)

From S2P Require Import Prelude Monad Mixer DynArray Params AudioConfig Pcm AudioOffload AudioHal.
From Stdlib Require Import Ascii.

#[local] Open Scope string_scope.
#[local] Open Scope list_scope.
#[local] Open Scope Z_scope.

(** AUDIO_SOURCE_VOICE_RECOGNITION *)
Definition SOURCE_VOICE_RECOGNITION : Z := 6.

(** The samples of a buffer of bytes. *)
Fixpoint samples (l : list Z) : list (option Z) :=
  match l with a :: b :: l' => Some (i16 (a + 256 * b)) :: samples l' | _ => [] end.

(** [for (i = 1; i < n; i++) b[i] = b[2 * i]] *)
Fixpoint drop_right (n : nat) (i : Z) (b : list (option Z)) : option (list (option Z)) :=
  match n with
  | O => Some b
  | Datatypes.S n' => x ← ld b (i * 2); b ← st b i x; drop_right n' (i + 1) b
  end.

(** The bytes a read delivers. *)
Inductive delivered := DData (l : list Z) | DResampled (l : list Z) | DSilence (bytes : Z).

Section Capture.
Context `{!Alsa} `{!AudioH} `{!PcmDev} `{!Compress} `{!AudioFormats} `{!HalLib}.
(** The fuel of the loops that wait for the driver and the resampler. *)
Variable fuel : nat.

Abbreviation HM := (ST hal).

Definition upd_in (p : Z) (f : stream_in → stream_in) : HM () := i ← get_in p; set_in p (f i).

(** ** Common functions *)

Definition in_get_sample_rate (i : stream_in) : HM Z :=
  if negb (i_sample_rate i =? 0) then mret (i_sample_rate i) else k ← lift (i_hw i); h ← hw_info k; mret (hw_rate h).
Definition in_set_sample_rate (p rate : Z) : HM Z := i ← get_in p; mret (if rate =? i_sample_rate i then 0 else - ENOTSUP).
Definition in_get_channels (p : Z) : HM Z :=
  i ← get_in p; mret (if negb (i_channel_mask i =? 0) then i_channel_mask i else IN_CHANNEL_MASK_DEFAULT).
Definition in_get_buffer_size (p : Z) : HM Z := i ← get_in p; mret (i_buffer_size i).

Definition do_in_set_read_timestamp (p : Z) : HM () :=
  ns ← systemTime; upd_in p (λ i, i <| last_read_ns := if ns =? 0 then 1 else ns |>).

(** A [timespec] whose nanoseconds are a full second or more makes
    [nanosleep] fail at once; [tv_nsec] is a [long]. *)
Definition do_in_realtime_delay (p bytes : Z) : HM () :=
  i ← get_in p;
  if last_read_ns i =? 0 then mret () else
  let d := u32 (i_frame_size i * i_sample_rate i) in
  if d =? 0 then ub else
  let required_interval := u32 (1907 * bytes) / d in
  let required_ns := required_interval ≪ 19 in
  now ← systemTime;
  let elapsed_ns := now - last_read_ns i in
  when (required_interval >? (elapsed_ns ≫ 19)) (event (λ _, ()) (λ _, HSleep 0 (i32 (required_ns - elapsed_ns)))).

(** ** Resampler *)

Definition get_handle (i : stream_in) : option handle := match i_dev i with InPcm h => Some h | _ => None end.

(** Run a method on the stream's PCM. *)
Definition on_in_pcm {A} (p : Z) (m : pcm → ST (pworld pcm) A) : HM A :=
  i ← get_in p;
  h ← lift (get_handle i);
  match h with
  | HPcm q => '(a, q') ← run_pcm (on q (m q)); set_in p (i <| i_dev := InPcm (HPcm q') |>);; mret a
  | HBad => ub
  end.

(** [pcm_readi] into the buffer of [n] bytes. *)
Definition read_pcm (p n : Z) : HM (Z * list Z) :=
  on_in_pcm p (λ q, k ← lift (pcm_bytes_to_frames q n); pcm_readi fuel k).

(** The status, and the frames given: their number and samples. *)
Definition get_next_buffer (p frame_count : Z) : HM (Z * Z * list (option Z)) :=
  i ← get_in p;
  match i_dev i with
  | InNull => upd_in p (λ i, i <| i_resampler := (i_resampler i) <| read_status := - ENODEV |> |>);; mret (- ENODEV, 0, [])
  | _ =>
      let rsp := i_resampler i in
      ok ← (if frames_in rsp =? 0 then
              '(r, data) ← read_pcm p (in_buffer_size rsp);
              if r <? 0 then
                upd_in p (λ i, i <| i_resampler := (i_resampler i) <| read_status := r |> |>);; mret false
              else
                b ← lift (rs_buffer rsp);
                b ← lift (stn b 0 (samples data));
                b ← lift (if (i_channel_count i =? 1) && (i_hw_channel_count i =? 2)
                          then drop_right (Z.to_nat (in_buffer_frames rsp - 1)) 1 b else Some b);
                upd_in p (λ i, i <| i_resampler := (i_resampler i) <| read_status := r |> <| frames_in := in_buffer_frames rsp |>
                                     <| rs_buffer := Some b |> |>);;
                mret true
            else mret true);
      i ← get_in p;
      let rsp := i_resampler i in
      if negb ok then mret (read_status rsp, 0, []) else
      let n := Z.min frame_count (frames_in rsp) in
      b ← lift (rs_buffer rsp);
      given ← lift (ldn b (in_buffer_frames rsp - frames_in rsp) (n * i_channel_count i));
      mret (read_status rsp, n, given)
  end.

Definition release_buffer (p frame_count : Z) : HM () :=
  upd_in p (λ i, i <| i_resampler := (i_resampler i) <| frames_in := u32 (frames_in (i_resampler i) - frame_count) |> |>).

(** Run the resampler against the provider. *)
Fixpoint run_resampler (p : Z) (r : rprog) : HM (list Z) :=
  match r with
  | RDone out => mret out
  | RGet n k => '(_, n', given) ← get_next_buffer p n; run_resampler p (k n' given)
  | RRelease n k => release_buffer p n;; run_resampler p k
  end.

(** The result and the samples made. *)
Fixpoint read_resampled (n : nat) (p frames frames_wr : Z) (made : list Z) : HM (Z * list Z) :=
  match n with
  | O => ub
  | Datatypes.S n' =>
      if frames_wr <? frames then
        prog ← event (λ h, hl_resample h (frames - frames_wr)) (λ _, HResample (frames - frames_wr));
        out ← run_resampler p prog;
        i ← get_in p;
        if negb (read_status (i_resampler i) =? 0) then mret (read_status (i_resampler i), made ++ out) else
        let c := i_channel_count i in
        if c =? 0 then ub else
        read_resampled n' p frames (frames_wr + blen out / c) (made ++ out)
      else mret (frames_wr, made)
  end.
Definition read_resampled_frames (p frames : Z) : HM (Z * list Z) := read_resampled fuel p frames 0 [].

Definition in_resampler_init (p hw_rate channels hw_fragment : Z) : HM Z :=
  i ← get_in p;
  let size := u32 (u32 (hw_fragment * channels) * i_frame_size i) in
  let d := u32 (channels * i_frame_size i) in
  if d =? 0 then ub else
  ok ← h_alloc;
  let rsp := (i_resampler i) <| in_buffer_size := size |> <| in_buffer_frames := i32 (size / d) |> in
  if negb ok then set_in p (i <| i_resampler := rsp <| rs_buffer := None |> |>);; mret (- ENOMEM) else
  ret ← event (λ h, hl_create_resampler h hw_rate (i_sample_rate i) (i_channel_count i)) HCreateResampler;
  if ret <? 0 then set_in p (i <| i_resampler := rsp <| rs_buffer := None |> |>);; mret ret else
  set_in p (i <| i_resampler := rsp <| rs_buffer := Some (replicate (Z.to_nat (size / 2)) None) |> <| rs_resampler := true |> |>);;
  mret ret.

Definition in_resampler_free (p : Z) : HM () :=
  upd_in p (λ i, i <| i_resampler := (i_resampler i) <| rs_resampler := false |> <| rs_buffer := None |> |>).

(** ** Input from a compressed device *)

Definition do_open_compress_pcm_in (p : Z) : HM Z :=
  i ← get_in p;
  match i_hw i with
  | None => mret (- EINVAL)
  | Some k =>
      hw ← hw_info k;
      let codec := zero_codec <| cd_id := CODEC_PCM |> <| cd_ch_in := i_channel_count i |>
        <| cd_sample_rate := i_sample_rate i |> <| cd_format := 2 |> in
      '(r, fragment_size, fragments) ← run_comp (compress_open (card_number hw) (device_number hw) true 4096 1 codec);
      match r with
      | None => ub                                   (* compress_close of a null handle *)
      | Some c =>
          if negb (ch_ready c) then h ← get_st; run_comp (compress_close c);; mret (co_errno (ccalls (h_comp h))) else
          set_in p (i <| i_dev := InCompress c |>
                      <| i_buffer_size := u32 (u32 (fragment_size * fragments) * i_frame_size i) |>);;
          run_comp (compress_start c);;
          mret 0
      end
  end.

Definition start_compress_pcm_input_stream (p : Z) : HM Z :=
  i ← get_in p;
  if i_standby i then
    ret ← do_open_compress_pcm_in p;
    if ret <? 0 then mret ret else
    i ← get_in p;
    let d := u32 (i_frame_size i * i_sample_rate i) in
    if d =? 0 then ub else
    match i_dev i with
    | InCompress c =>
        run_comp (cnote (CMaxPoll (ch_id c) (i32 (1000 * i_buffer_size i / d) * 2)));;
        set_in p (i <| i_standby := false |>);; mret 0
    | _ => ub
    end
  else mret 0.

Definition do_in_compress_pcm_standby (p : Z) : HM () :=
  i ← get_in p;
  if i_standby i then mret () else
  match i_dev i with
  | InCompress c =>
      set_in p (i <| i_dev := InNull |> <| i_standby := true |>);;
      run_comp (compress_stop c);; run_comp (compress_close c)
  | _ => ub
  end.

Definition do_in_compress_pcm_read (p bytes : Z) : HM (Z * delivered) :=
  ret ← start_compress_pcm_input_stream p;
  if ret <? 0 then mret (ret, DData []) else
  i ← get_in p;
  match i_dev i with
  | InCompress c =>
      '(ret, data) ← run_comp (compress_read c bytes);
      when (ret >? 0) (do_in_realtime_delay p (bytes / 4));;
      mret (ret, DData data)
  | _ => ub
  end.

Definition do_in_compress_pcm_close (p : Z) : HM () :=
  i ← get_in p;
  match i_dev i with
  | InCompress c => run_comp (compress_stop c);; run_comp (compress_close c)
  | InNull => mret ()
  | InPcm _ => ub
  end.

(** ** Input from a PCM device *)

Definition in_pcm_cfg_period_count (i : hw_stream) : Z := or_default (hw_period_count i) IN_PERIOD_COUNT_DEFAULT.
Definition in_pcm_cfg_period_size (i : hw_stream) : Z := or_default (hw_period_size i) IN_PERIOD_SIZE_DEFAULT.
Definition in_pcm_cfg_rate (i : hw_stream) : Z := or_default (hw_rate i) IN_RATE_DEFAULT.
Definition in_pcm_cfg_channel_count (i : stream_in) : Z := or_default (i_channel_count i) IN_CHANNEL_COUNT_DEFAULT.

Definition do_in_pcm_standby (p : Z) : HM () :=
  i ← get_in p;
  (if i_standby i then mret () else
   h ← lift (get_handle i);
   run_pcm (pcm_close h);;
   set_in p (i <| i_dev := InNull |>));;
  in_resampler_free p;;
  upd_in p (λ i, i <| i_standby := true |>).

Definition in_pcm_fill_params (i : stream_in) (c : pcm_config) : option stream_in :=
  if rate c =? 0 then None else
  let size := u32 (period_size c * i_sample_rate i) / rate c in
  let size := u32 (u32 (size + 15) / 16 * 16) in
  Some (i <| i_hw_sample_rate := rate c |> <| i_hw_channel_count := channels c |> <| i_period_size := period_size c |>
          <| i_buffer_size := u32 (size * i_frame_size i) |>).

Definition in_config (i : stream_in) (hw : hw_stream) : pcm_config := mkPcmCfg
  (in_pcm_cfg_channel_count i) (in_pcm_cfg_rate hw) (in_pcm_cfg_period_size hw) (in_pcm_cfg_period_count hw)
  PCM_FORMAT_S16_LE 0 0 0.

Definition do_open_pcm_input (p : Z) : HM Z :=
  i ← get_in p;
  match i_hw i with
  | None => mret (- EINVAL)
  | Some k =>
      hw ← hw_info k;
      let c := in_config i hw in
      h ← run_pcm (pcm_open (card_number hw) (device_number hw) PCM_IN (Some c));
      let fail (ret : Z) : HM Z := run_pcm (pcm_close h);; upd_in p (λ i, i <| i_dev := InNull |>);; mret ret in
      if negb (pcm_is_ready h) then fail (- ENOMEM) else
      match h with
      | HBad => ub
      | HPcm q =>
          i ← lift (in_pcm_fill_params i c);
          set_in p (i <| i_dev := InPcm h |>);;
          r ← in_get_sample_rate i;
          if negb (r =? rate c) then
            ret ← in_resampler_init p (i32 (rate c)) (i32 (channels c)) (pcm_frames_to_bytes q (period_size c));
            if ret <? 0 then fail ret else mret 0
          else mret 0
      end
  end.

Definition start_pcm_input_stream (p : Z) : HM Z :=
  i ← get_in p;
  if i_standby i then
    ret ← do_open_pcm_input p;
    when (ret =? 0) (upd_in p (λ i, i <| i_standby := false |>));;
    mret ret
  else mret 0.

(** The result and what was read. *)
Definition do_in_pcm_read (p bytes : Z) : HM (Z * delivered) :=
  i ← get_in p;
  if i_frame_size i =? 0 then ub else
  let frames_rq := bytes / i_frame_size i in
  ret ← start_pcm_input_stream p;
  if ret <? 0 then mret (ret, DData []) else
  i ← get_in p;
  '(ret, d) ← (if rs_resampler (i_resampler i) then '(r, out) ← read_resampled_frames p frames_rq; mret (r, DResampled out)
               else '(r, data) ← read_pcm p bytes; mret (r, DData data));
  mret (if ret >=? 0 then i32 bytes else ret, d).

Definition in_pcm_standby (p : Z) : HM Z :=
  i ← get_in p;
  match i_hw i with
  | None => mret 0
  | Some k =>
      hw ← hw_info k;
      (if stream_is_compressed_in hw then do_in_compress_pcm_standby p else do_in_pcm_standby p);; mret 0
  end.

Definition in_pcm_read (p bytes : Z) : HM (Z * delivered) :=
  i ← get_in p;
  '(ret, d) ← match i_hw i with
              | None => mret (- EINVAL, DData [])
              | Some k =>
                  routes ← run_cm (get_current_routes k);
                  if routes =? 0 then mret (- EINVAL, DData []) else
                  hw ← hw_info k;
                  if stream_is_compressed_in hw then do_in_compress_pcm_read p bytes else do_in_pcm_read p bytes
              end;
  dev ← getD;
  '(ret, d) ← (if (ret <=? 0) || mic_mute dev then
                 when (ret <=? 0) (do_in_realtime_delay p bytes);;
                 mret (i32 bytes, DSilence bytes)
               else mret (ret, d));
  do_in_set_read_timestamp p;;
  mret (ret, d).

(** The result, and whether the source has changed. *)
Definition change_input_source_locked (p : Z) (value : string) (devices : Z) : HM (Z * bool) :=
  let new_source := atoi value in
  i ← get_in p;
  if negb (i_standby i) then mret (- EINVAL, false) else
  if input_source i =? new_source then mret (0, false) else
  dev ← getD;
  let voice_control := new_source =? SOURCE_VOICE_RECOGNITION in
  let stream_name := if voice_control then voice_trigger_audio_stream_name (voice_st dev) else None in
  named ← match stream_name with Some n => run_cm (get_named_stream n) | None => mret None end;
  hw ← match named with Some k => mret (Some k) | None => run_cm (get_stream devices (i_format i)) end;
  match hw with
  | None => mret (- EINVAL, false)
  | Some k =>
      match i_hw i with Some k0 => run_cm (release_stream k0) | None => mret () end;;
      set_in p (i <| i_hw := Some k |>);;
      dev ← getD;
      (if voice_control then
         updD (λ d, d <| active_voice_control := Some p |>);; voice_trigger_audio_started_locked
       else if bool_decide (active_voice_control dev = Some p) then
         updD (λ d, d <| active_voice_control := None |>);; voice_trigger_audio_ended_locked
       else mret ());;
      upd_in p (λ i, i <| input_source := new_source |>);;
      mret (0, true)
  end.

Definition in_pcm_set_parameters (p : Z) (kvpairs : string) : HM Z :=
  routing ← common_get_routing_param kvpairs;
  parms ← str_parms_create_str kvpairs;
  get ← lift parms;
  i ← get_in p;
  r ← match get "input_source" with
      | Some value =>
          devices ← match routing with
                    | Some d => mret d
                    | None => match i_hw i with Some k => run_cm (get_routed_devices k) | None => mret 0 end
                    end;
          '(ret, _) ← change_input_source_locked p value devices;
          mret (if ret <? 0 then None else Some (Some devices))
      | None => mret (Some routing)
      end;
  match r with
  | None => mret 0
  | Some routing =>
      match routing with
      | Some d =>
          upd_in p (λ i, i <| i_devices := d |>);;
          i ← get_in p;
          match i_hw i with Some k => run_cm (apply_route k d) | None => mret () end
      | None => mret ()
      end;;
      i ← get_in p;
      stream_invoke_usecases (i_hw i) kvpairs;;
      mret 0
  end.

(** ** Opening and closing *)

Definition do_close_in_common (p : Z) : HM () :=
  in_pcm_standby p;;
  dev ← getD;
  when (bool_decide (active_voice_control dev = Some p))
    (updD (λ d, d <| active_voice_control := None |>);; voice_trigger_audio_ended_locked);;
  i ← get_in p;
  match i_hw i with Some k => run_cm (release_stream k) | None => mret () end;;
  modify (λ h, h <| h_ins := delete p (h_ins h) |>).

(** The compressed device is stopped and closed here, and again by the standby
    that follows when the stream is active. *)
Definition do_close_in_pcm (p : Z) : HM () :=
  i ← get_in p;
  match i_hw i with
  | Some k => hw ← hw_info k; when (stream_is_compressed hw) (do_in_compress_pcm_close p)
  | None => mret ()
  end;;
  do_close_in_common p.

Definition no_resampler : in_resampler := mkRsp false None 0 0 0 0.

(** The fields of the object of [calloc]. *)
Definition do_init_in_common (c : audio_config) (devices : Z) : stream_in :=
  mkIn None true devices (ac_format c) (ac_channel_mask c) (popcount (ac_channel_mask c)) (ac_sample_rate c)
    (hl_in_frame_size (ac_format c) (if negb (ac_channel_mask c =? 0) then ac_channel_mask c else IN_CHANNEL_MASK_DEFAULT))
    0 0 0 InNull 0 0 0 no_resampler.
Definition do_init_in_pcm (i : stream_in) : stream_in := i <| i_buffer_size := IN_COMPRESS_BUFFER_SIZE_DEFAULT |>.

Definition adev_open_input_stream (devices : Z) (c : audio_config) : HM (Z * option Z) :=
  ok ← h_alloc;
  if negb ok then mret (- ENOMEM, None) else
  p ← fresh;
  let devices := Z.land devices IN_ALL in
  set_in p (do_init_in_pcm (do_init_in_common c devices));;
  mret (0, Some p).

Definition adev_close_input_stream (p : Z) : HM () := do_close_in_pcm p.
End Capture.
