(* ===== verification/AudioHalSpec.v ===== *)
(** * Sessions of the audio device: resources

    What the device needs of the configuration manager and of the PCM library,
    and the accounts it keeps: the users of every stream of the
    configuration, and the descriptors of the PCM devices. *)

From S2P Require Import Prelude Monad Mixer DynArray Params AudioConfig AudioRoute AudioMachine AudioRouteSpec AudioStreams Pcm PcmSpec AudioOffload AudioHal AudioCapture.

#[local] Open Scope Z_scope.

(** ** Sums over maps *)

Section Msum.
Context {A : Type}.
Implicit Types (m : gmap Z A) (f : A → Z).

Definition msum f m : Z := map_fold (λ _ x n, f x + n) 0 m.

Lemma msum_insert f m i x : m !! i = None → msum f (<[i := x]> m) = f x + msum f m.
Proof. intros Hi. unfold msum. rewrite map_fold_insert_L; [done| |done]. intros. lia. Qed.
Lemma msum_delete f m i x : m !! i = Some x → msum f m = f x + msum f (delete i m).
Proof. intros Hi. rewrite <- (insert_delete_id m i x Hi) at 1. apply msum_insert. apply lookup_delete_eq. Qed.
Lemma msum_update f m i x y : m !! i = Some x → msum f (<[i := y]> m) = msum f m - f x + f y.
Proof.
  intros Hi. rewrite (msum_delete f m i x Hi). rewrite <- insert_delete_eq, msum_insert by apply lookup_delete_eq. lia.
Qed.
Lemma msum_nonneg f m : (∀ x, 0 <= f x) → 0 <= msum f m.
Proof.
  intros Hf. unfold msum. apply (map_fold_weak_ind (λ n _, 0 <= n)); [done|]. intros i x m' n _ Hn. specialize (Hf x). lia.
Qed.
Lemma msum_le f m i x : (∀ x, 0 <= f x) → m !! i = Some x → f x <= msum f m.
Proof. intros Hf Hi. rewrite (msum_delete f m i x Hi). pose proof (msum_nonneg f (delete i m) Hf). lia. Qed.
Lemma msum_empty f : msum f ∅ = 0.
Proof. apply map_fold_empty. Qed.
End Msum.

(** ** The configuration manager, as the device sees it *)

Section Spec.
Context `{H : AudioH, !AudioHOk H} `{A : Alsa, !AlsaOk A} `{D : PcmDev, !PcmDevOk D} `{!Compress} `{!AudioFormats} `{!HalLib}.
Variable sh : list (Z * list Z).
Hypothesis Hsh : layout_wf sh.
(** The fixed part of the streams of the configuration. *)
Variable infos : list hw_stream.

Abbreviation streams w := (elems (stream_array (aobj w))).

(** A mask of devices of the direction its top bit gives. *)
Definition mask_ok (m : Z) : Prop := m = 0 ∨ names sh (Z.testbit m 31) m.

(** The users of stream [k]. *)
Definition refs (w : aworld config_mgr) (k : Z) : Z := from_option ref_count 0 (ld (streams w) k).

Record cm_inv (w : aworld config_mgr) : Prop := {
  ci_inv : Inv sh w;
  ci_masks : Forall (λ s, mask_ok (current_devices s)) (streams w);
  ci_infos : s_info <$> streams w = infos }.

Lemma refs_ld w k : 0 < refs w k → ∃ s, ld (streams w) k = Some s ∧ refs w k = ref_count s.
Proof. unfold refs. destruct (ld _ k) as [s|]; simpl; [eauto|lia]. Qed.

Lemma ci_info w k s : cm_inv w → ld (streams w) k = Some s → ld infos k = Some (s_info s).
Proof. intros [_ _ HI] Hk. rewrite <- HI, ld_fmap, Hk. done. Qed.

Lemma refs_insert w w' k s s' : ld (streams w) k = Some s → streams w' = <[Z.to_nat k := s']> (streams w) →
  ∀ j, refs w' j = refs w j + (if j =? k then ref_count s' - ref_count s else 0).
Proof.
  intros Hk Hs j. unfold refs. rewrite Hs. destruct (Z.eqb_spec j k) as [->|Hne].
  - rewrite (ld_insert_eq _ _ _ _ Hk), Hk. simpl. lia.
  - apply ld_Some_bounds in Hk. rewrite ld_insert_ne by lia. lia.
Qed.

(** Replacing a stream by one with the same fixed part. *)
Lemma ci_update w w' k s s' : cm_inv w → Inv sh w' → ld (streams w) k = Some s → streams w' = <[Z.to_nat k := s']> (streams w) →
  s_info s' = s_info s → mask_ok (current_devices s') → cm_inv w'.
Proof.
  intros [_ HM HI] HI' Hk Hs Hinf Hm. split; [done| |].
  - rewrite Hs. by apply Forall_insert.
  - rewrite Hs, list_fmap_insert, Hinf, HI. apply list_insert_id. rewrite <- HI, list_lookup_fmap.
    by rewrite (arena_lookup_Some _ _ _ Hk).
Qed.

Lemma mask_ok_0 : mask_ok 0.
Proof. by left. Qed.

Lemma route_mask_ok s m m' : mask_ok m → route_mask s m = Some m' → names sh (stream_is_input (s_info s)) m ∧ mask_ok m'.
Proof.
  intros Hm Er. assert (names sh (stream_is_input (s_info s)) m) as Hn.
  { destruct Hm as [->|Hm]; [intros j t ids _ _ Hb; by rewrite Z.bits_0 in Hb|]. unfold route_mask in Er.
    destruct (Z.eqb_spec m 0) as [->|]; [intros j t ids _ _ Hb; by rewrite Z.bits_0 in Hb|]. rewrite land_bit_in in Er.
    destruct (Z.testbit m 31); [rewrite (proj2 (Z.eqb_neq BIT_IN 0) bit_in_0) in Er|change (0 =? 0) with true in Er]; simpl in Er;
      by destruct (stream_is_input (s_info s)). }
  split; [done|]. destruct (route_mask_names sh Hsh s m m' Hn Er) as (_ & [H31 Hn'] & _).
  destruct (decide (m' = 0)) as [->|]; [apply mask_ok_0|]. right.
  replace (Z.testbit m' 31) with (stream_is_input (s_info s)); [done|]. unfold route_mask in Er.
  destruct (Z.eqb_spec m 0) as [->|]; [congruence|]. rewrite land_bit_in in Er. destruct (Z.testbit m 31) eqn:E31.
  - rewrite (proj2 (Z.eqb_neq BIT_IN 0) bit_in_0) in Er. simpl in Er. destruct (stream_is_input (s_info s)); [|done]. injection Er as <-.
    rewrite Z.lor_spec, bit_in by lia. by rewrite orb_true_r.
  - change (0 =? 0) with true in Er. simpl in Er. destruct (stream_is_input (s_info s)); [done|]. injection Er as <-.
    by rewrite Z.land_spec, E31.
Qed.

Lemma cm_route k m w : cm_inv w → 0 < refs w k → mask_ok m →
  wp (apply_route k m) (λ _ w', cm_inv w' ∧ ∀ j, refs w' j = refs w j) w.
Proof.
  intros HI Hr Hm. destruct (refs_ld _ _ Hr) as (s & Hk & _). destruct (route_mask s m) as [m'|] eqn:Er.
  - destruct (route_mask_ok s m m' Hm Er) as [Hn Hm']. eapply wp_mono; [by eapply (apply_route_wp sh), Hn; [..|apply HI|]|].
    intros [] w' [HI' Es]. unfold routed in Es. rewrite Hk, Er in Es. split; [by eapply ci_update|].
    intros j. rewrite (refs_insert _ _ _ _ _ Hk Es). simpl. destruct (j =? k); lia.
  - unfold apply_route. apply wp_bind. eapply get_str_wp; [done|]. rewrite Er. by apply wp_ret'.
Qed.

Lemma cm_release k w : cm_inv w → 0 < refs w k →
  wp (release_stream k) (λ _ w', cm_inv w' ∧ ∀ j, refs w' j = refs w j - (if j =? k then 1 else 0)) w.
Proof.
  intros HI Hr. destruct (refs_ld _ _ Hr) as (s & Hk & Er). rewrite Er in Hr. eapply wp_mono; [eapply (release_stream_wp sh); [..|apply HI|exact Hk|]; done|].
  intros [] w' [HI' Es]. unfold released_at in Es. pose proof (Forall_ld _ _ _ _ (ci_masks _ HI) Hk) as Hm. simpl in Hm. split.
  - eapply ci_update; [done|done|done|exact Es|by destruct (_ =? 1)|]. destruct (_ =? 1); [apply mask_ok_0|done].
  - intros j. rewrite (refs_insert _ _ _ _ _ Hk Es). destruct (j =? k); [|lia]. destruct (Z.eqb_spec (ref_count s) 1); simpl; lia.
Qed.

(** One more user of [k]. *)
Definition gains (w w' : aworld config_mgr) (k : Z) : Prop := ∀ j, refs w' j = refs w j + (if j =? k then 1 else 0).

Lemma opened_gains w w' k s : cm_inv w → Inv sh w' → ld (streams w) k = Some s → streams w' = opened_at k s (streams w) →
  cm_inv w' ∧ gains w w' k.
Proof.
  intros HI HI' Hk Es. unfold opened_at in Es. pose proof (Forall_ld _ _ _ _ (ci_masks _ HI) Hk) as Hm. split; [by eapply ci_update|].
  intros j. rewrite (refs_insert _ _ _ _ _ Hk Es). simpl. destruct (j =? k); lia.
Qed.

Lemma same_streams w w' : cm_inv w → Inv sh w' → streams w' = streams w → cm_inv w' ∧ ∀ j, refs w' j = refs w j.
Proof. intros [_ HM HI] HI' Es. unfold refs. split; [split; rewrite ?Es; done|]. by rewrite Es. Qed.

Lemma cm_get d f w : cm_inv w → wp (get_stream d f) (λ r w', cm_inv w' ∧ match r with
  | Some k => gains w w' k ∧ ∃ i, ld infos k = Some i ∧ hw_type i = stream_kind d f
  | None => ∀ j, refs w' j = refs w j end) w.
Proof.
  intros HI. eapply wp_mono; [apply (get_stream_wp sh), HI|]. intros r w' [HI' Ho]. destruct r as [k|]; simpl in Ho.
  - destruct Ho as (s & Hk & _ & [Ht _] & Es & _). destruct (opened_gains _ _ _ _ HI HI' Hk Es). split; [done|]. split; [done|].
    exists (s_info s). split; [by apply (ci_info w)|done].
  - destruct Ho as [Es _]. by apply same_streams.
Qed.

Lemma cm_named n w : cm_inv w → wp (get_named_stream n) (λ r w', cm_inv w' ∧ match r with
  | Some k => gains w w' k | None => ∀ j, refs w' j = refs w j end) w.
Proof.
  intros HI. eapply wp_mono; [apply (get_named_stream_wp sh), HI|]. intros r w' [HI' Ho]. destruct r as [k|].
  - destruct Ho as (s & Hk & _ & Es). by eapply opened_gains.
  - by apply same_streams.
Qed.

Lemma cm_use k st c w : cm_inv w → 0 < refs w k → wp (apply_use_case k st c) (λ _ w', cm_inv w' ∧ ∀ j, refs w' j = refs w j) w.
Proof.
  intros HI Hr. destruct (refs_ld _ _ Hr) as (s & Hk & _). eapply wp_mono; [eapply (apply_use_case_wp sh); [apply HI|exact Hk]|].
  intros r w' (HI' & _ & Es).
  assert (∀ {B} (g : hw_stream * Z * Z → B), (λ s, g (s_info s, ref_count s, current_devices s)) <$> streams w' =
    (λ s, g (s_info s, ref_count s, current_devices s)) <$> streams w) as Hg.
  { intros B g. change ((g ∘ (λ s, (s_info s, ref_count s, current_devices s))) <$> streams w' = (g ∘ (λ s, (s_info s, ref_count s, current_devices s))) <$> streams w).
    rewrite !list_fmap_compose. by rewrite Es. }
  split; [split; [done| |]|].
  - destruct HI as [_ HM _]. change (Forall (mask_ok ∘ current_devices) (streams w)) in HM. change (Forall (mask_ok ∘ current_devices) (streams w')).
    apply Forall_fmap in HM. apply Forall_fmap. pose proof (Hg _ snd) as Hc. simpl in Hc.
    change (current_devices <$> streams w' = current_devices <$> streams w) in Hc. by rewrite Hc.
  - transitivity (s_info <$> streams w); [exact (Hg _ (λ x, x.1.1))|apply HI].
  - intros j. unfold refs. assert (ref_count <$> ld (streams w') j = ref_count <$> ld (streams w) j) as E.
    { rewrite <- !ld_fmap. f_equal. exact (Hg _ (λ x, x.1.2)). }
    by destruct (ld (streams w') j), (ld (streams w) j); simplify_eq/=.
Qed.

Lemma cm_routes k w : cm_inv w → 0 < refs w k → wp (get_current_routes k) (λ r w', w' = w ∧ mask_ok r) w.
Proof.
  intros HI Hr. destruct (refs_ld _ _ Hr) as (s & Hk & _). unfold get_current_routes. apply wp_bind. eapply get_str_wp; [done|].
  apply wp_ret'. split; [done|]. exact (Forall_ld _ _ _ _ (ci_masks _ HI) Hk).
Qed.
End Spec.
