(* ===== verification/AudioSession.v ===== *)
(** * Sessions of the audio device: every call keeps the accounts

    The invariant of the device with PCM streams: every stream of the
    configuration has at least as many users as the device holds references to
    it, and exactly the PCM devices of the active streams are open.  Every
    call of the framework is defined and keeps it. *)

From S2P Require Import Prelude Monad Mixer DynArray Params AudioConfig AudioRoute AudioMachine AudioRouteSpec AudioStreams Pcm PcmSpec AudioOffload AudioHal AudioCapture AudioHalSpec.
From Stdlib Require Import Ascii.

#[local] Open Scope string_scope.
#[local] Open Scope list_scope.
#[local] Open Scope Z_scope.

(** ** Symbolic execution *)

Section Rules.
Implicit Types (h : hal).
Lemma wp_h_ret {A} (a : A) (Q : A → hal → Prop) h : Q a h → wp (mret a) Q h.
Proof. done. Qed.
Lemma wp_h_gets {A} (f : hal → A) Q h : Q (f h) h → wp (gets f) Q h.
Proof. done. Qed.
Lemma wp_h_get (Q : hal → hal → Prop) h : Q h h → wp get_st Q h.
Proof. done. Qed.
Lemma wp_h_put h' (Q : () → hal → Prop) h : Q () h' → wp (put_st h') Q h.
Proof. done. Qed.
Lemma wp_h_modify f (Q : () → hal → Prop) h : Q () (f h) → wp (modify f) Q h.
Proof. done. Qed.
Lemma wp_h_if {A} (b : bool) (m1 m2 : ST hal A) Q h :
  (b = true → wp m1 Q h) → (b = false → wp m2 Q h) → wp (if b then m1 else m2) Q h.
Proof. destruct b; auto. Qed.
Lemma wp_h_when (b : bool) (m : ST hal ()) Q h : (b = true → wp m Q h) → (b = false → Q () h) → wp (when b m) Q h.
Proof. intros Ht Hf. destruct b; [by apply Ht|by apply Hf]. Qed.
Lemma wp_h_lift {A} (o : option A) a (Q : A → hal → Prop) h : o = Some a → Q a h → wp (lift o) Q h.
Proof. by intros ->. Qed.
Lemma wp_event {A} (reply : list hevent → A) ev (Q : A → hal → Prop) h :
  (let a := reply (h_events h) in Q a (h <| h_events := ev a :: h_events h |>)) → wp (event reply ev) Q h.
Proof. done. Qed.
Lemma wp_run_cm {A} (m : ST (aworld config_mgr) A) (Q : A → hal → Prop) h :
  wp m (λ a w, Q a (h <| h_cm := w |>)) (h_cm h) → wp (run_cm m) Q h.
Proof. unfold wp, run_cm. by destruct (m _) as [[a w]|]. Qed.
Lemma wp_run_pcm {A} (m : ST (pworld ()) A) (Q : A → hal → Prop) h :
  wp m (λ a w, Q a (h <| h_pcm := w |>)) (h_pcm h) → wp (run_pcm m) Q h.
Proof. unfold wp, run_pcm. by destruct (m _) as [[a w]|]. Qed.
Lemma wp_get_out p o (Q : stream_out → hal → Prop) h : h_outs h !! p = Some o → Q o h → wp (get_out p) Q h.
Proof. intros E HQ. unfold get_out. apply wp_bind, wp_h_get. by eapply wp_h_lift. Qed.
Lemma wp_get_in p i (Q : stream_in → hal → Prop) h : h_ins h !! p = Some i → Q i h → wp (get_in p) Q h.
Proof. intros E HQ. unfold get_in. apply wp_bind, wp_h_get. by eapply wp_h_lift. Qed.
End Rules.

Ltac hh_step :=
  lazymatch goal with
  | |- wp (mbind _ _) _ _ => apply wp_bind
  | |- wp (mret _) _ _ => apply wp_h_ret
  | |- wp (gets _) _ _ => apply wp_h_gets
  | |- wp getD _ _ => apply wp_h_gets
  | |- wp get_st _ _ => apply wp_h_get
  | |- wp (put_st _) _ _ => apply wp_h_put
  | |- wp (modify _) _ _ => apply wp_h_modify
  | |- wp (updD _) _ _ => apply wp_h_modify
  | |- wp (set_voice _) _ _ => apply wp_h_modify
  | |- wp (set_out _ _) _ _ => apply wp_h_modify
  | |- wp (set_in _ _) _ _ => apply wp_h_modify
  | |- wp (when _ _) _ _ => apply wp_h_when; intros ?
  | |- wp (event _ _) _ _ => apply wp_event
  | |- wp h_alloc _ _ => apply wp_event
  | |- wp systemTime _ _ => apply wp_event
  | |- wp (if ?b then _ else _) _ _ => first [apply wp_h_if; intros ? | destruct b eqn:?]
  | |- wp (let '(_, _) := ?x in _) _ _ => destruct x eqn:?
  | |- wp (match ?x with _ => _ end) _ _ => destruct x eqn:?
  end.
Ltac hh_steps := repeat (hh_step; cbn beta zeta).

Section Session.
Context `{H : AudioH, !AudioHOk H} `{A : Alsa, !AlsaOk A} `{D : PcmDev, !PcmDevOk D} `{!Compress} `{!AudioFormats} `{!HalLib}.
Variable sh : list (Z * list Z).
Hypothesis Hsh : layout_wf sh.
Variable infos : list hw_stream.

Abbreviation cm_inv := (cm_inv sh infos).
Abbreviation mask_ok := (mask_ok sh).

(** ** Accounts *)

(** A PCM device that is open and configured for a direction. *)
Record pcm_good (fl : Z) (q : pcm) : Prop := {
  pg_flags : flags q = fl; pg_fd : 0 <= fd q; pg_wf : pcm_wf q; pg_frame : frame_bytes q ≠ 0; pg_under : INT_MIN <= underruns q }.

Definition one (b : bool) : Z := if b then 1 else 0.
Definition opt_is (o : option Z) (k : Z) : bool := bool_decide (o = Some k).

(** The states in which the trigger holds its stream. *)
Definition armed (s : voice_state) : bool :=
  match s with eVoiceNone | eVoiceTriggerIdle | eVoiceRecogIdle => false | _ => true end.

Definition dev_holds (d : audio_device) (k : Z) : Z :=
  one (opt_is (global_stream d) k) + one (armed (voice_st d) && opt_is (voice_trig_stream d) k).
Definition holders (h : hal) (k : Z) : Z :=
  msum (λ o, one (o_hw o =? k)) (h_outs h) + msum (λ i, one (opt_is (i_hw i) k)) (h_ins h) + dev_holds (h_dev h) k.

Definition out_fd (o : stream_out) (d : Z) : Z := match o_kind o with OutPcm (PHandle h) _ _ => fd_of (handle_fd h) d | _ => 0 end.
Definition in_fd (i : stream_in) (d : Z) : Z := match i_dev i with InPcm h => fd_of (handle_fd h) d | _ => 0 end.
Definition hal_fds (h : hal) (d : Z) : Z := msum (λ o, out_fd o d) (h_outs h) + msum (λ i, in_fd i d) (h_ins h).

(** An output stream; in standby the pointer is null, stale or to [bad_pcm]. *)
Definition out_ok (o : stream_out) : Prop :=
  0 <= o_channel_count o <= 32 ∧
  match o_kind o with
  | OutPcm ptr _ _ =>
      if o_standby o then match ptr with PHandle (HPcm _) => False | _ => True end
      else ∃ q, ptr = PHandle (HPcm q) ∧ pcm_good PCM_OUT q
  | OutCompress _ => False
  end.

(** An input stream whose frames and rate are positive; no resampler. *)
Definition in_ok (i : stream_in) : Prop :=
  0 <= i_channel_count i <= 32 ∧ i_frame_size i ≠ 0 ∧ u32 (i_frame_size i * i_sample_rate i) ≠ 0 ∧ rs_resampler (i_resampler i) = false ∧
  if i_standby i then i_dev i = InNull else is_Some (i_hw i) ∧ ∃ q, i_dev i = InPcm (HPcm q) ∧ pcm_good PCM_IN q.

(** A stream of the configuration: PCM or a hardware path, with buffer sizes
    the library accepts. *)
Definition good_info (i : hw_stream) : Prop :=
  stream_is_compressed i = false ∧
  0 < u32 (or_default (hw_period_count i) 4 * or_default (hw_period_size i) 256) <= INT_MAX.

Hypothesis Hinfos : Forall good_info infos.
(** The built-in microphone is a device of the inputs. *)
Hypothesis Hmic : mask_ok IN_BUILTIN_MIC.

Record hal_inv (h : hal) : Prop := {
  hv_cm : cm_inv (h_cm h);
  hv_refs : ∀ k, holders h k <= refs (h_cm h) k;
  hv_outs : ∀ p o, h_outs h !! p = Some o → out_ok o;
  hv_ins : ∀ p i, h_ins h !! p = Some i → in_ok i;
  hv_fds : ∀ d, fds (pcalls (h_pcm h)) d = hal_fds h d;
  hv_fresh : ∀ p, h_next h <= p → h_outs h !! p = None ∧ h_ins h !! p = None;
  hv_mic : mask_ok (voice_trig_mic (h_dev h)) }.

Lemma one_nonneg b : 0 <= one b.
Proof. by destruct b. Qed.
Lemma dev_holds_nonneg d k : 0 <= dev_holds d k.
Proof. unfold dev_holds. pose proof (one_nonneg (opt_is (global_stream d) k)). pose proof (one_nonneg (armed (voice_st d) && opt_is (voice_trig_stream d) k)). lia. Qed.
Lemma outs_nonneg (m : gmap Z stream_out) k : 0 <= msum (λ o, one (o_hw o =? k)) m.
Proof. apply msum_nonneg. intros. apply one_nonneg. Qed.
Lemma ins_nonneg (m : gmap Z stream_in) k : 0 <= msum (λ i, one (opt_is (i_hw i) k)) m.
Proof. apply msum_nonneg. intros. apply one_nonneg. Qed.

(** Holders have a stream. *)
Lemma out_refs h p o : hal_inv h → h_outs h !! p = Some o → 0 < refs (h_cm h) (o_hw o).
Proof.
  intros HI Hp. pose proof (hv_refs _ HI (o_hw o)) as Hr. unfold holders in Hr.
  pose proof (msum_le (λ x, one (o_hw x =? o_hw o)) (h_outs h) p o (λ x, one_nonneg _) Hp) as Hle. simpl in Hle. rewrite Z.eqb_refl in Hle.
  pose proof (ins_nonneg (h_ins h) (o_hw o)). pose proof (dev_holds_nonneg (h_dev h) (o_hw o)). unfold one in Hle at 1. lia.
Qed.
Lemma in_refs h p i k : hal_inv h → h_ins h !! p = Some i → i_hw i = Some k → 0 < refs (h_cm h) k.
Proof.
  intros HI Hp Hk. pose proof (hv_refs _ HI k) as Hr. unfold holders in Hr.
  pose proof (msum_le (λ x, one (opt_is (i_hw x) k)) (h_ins h) p i (λ x, one_nonneg _) Hp) as Hle. simpl in Hle.
  unfold opt_is in Hle at 1. rewrite bool_decide_true in Hle by done. pose proof (outs_nonneg (h_outs h) k). pose proof (dev_holds_nonneg (h_dev h) k). unfold one in Hle at 1. lia.
Qed.
Lemma global_refs h k : hal_inv h → global_stream (h_dev h) = Some k → 0 < refs (h_cm h) k.
Proof.
  intros HI Hk. pose proof (hv_refs _ HI k) as Hr. unfold holders, dev_holds, opt_is in Hr. rewrite (bool_decide_true (global_stream _ = _)) in Hr by done.
  pose proof (outs_nonneg (h_outs h) k). pose proof (ins_nonneg (h_ins h) k).
  pose proof (one_nonneg (armed (voice_st (h_dev h)) && bool_decide (voice_trig_stream (h_dev h) = Some k))). unfold one in Hr at 3. unfold opt_is in *. lia.
Qed.
Lemma voice_refs h k : hal_inv h → armed (voice_st (h_dev h)) = true → voice_trig_stream (h_dev h) = Some k → 0 < refs (h_cm h) k.
Proof.
  intros HI Ha Hk. pose proof (hv_refs _ HI k) as Hr. unfold holders, dev_holds in Hr. rewrite Ha in Hr.
  unfold opt_is in Hr at 3. rewrite (bool_decide_true (voice_trig_stream _ = _)) in Hr by done.
  pose proof (outs_nonneg (h_outs h) k). pose proof (ins_nonneg (h_ins h) k). pose proof (one_nonneg (opt_is (global_stream (h_dev h)) k)).
  change (one (true && true)) with 1 in Hr. lia.
Qed.

(** ** Changes that keep the invariant *)

(** Only the configuration manager moves, and no user comes or goes. *)
Definition cm_only (h h' : hal) : Prop :=
  h_dev h' = h_dev h ∧ h_pcm h' = h_pcm h ∧ h_outs h' = h_outs h ∧ h_ins h' = h_ins h ∧ h_next h' = h_next h ∧
  cm_inv (h_cm h') ∧ ∀ j, refs (h_cm h') j = refs (h_cm h) j.

Lemma cm_only_trans h1 h2 h3 : cm_only h1 h2 → cm_only h2 h3 → cm_only h1 h3.
Proof. intros (?&?&?&?&?&?&E1) (?&?&?&?&?&?&E2). split_and!; [congruence..|done|]. intros j. by rewrite E2. Qed.
Lemma cm_only_refl h : cm_inv (h_cm h) → cm_only h h.
Proof. by intros. Qed.

Lemma hv_cm_only h h' : hal_inv h → cm_only h h' → hal_inv h'.
Proof.
  intros [I1 I2 I3 I4 I5 I6 I7] (Ed & Ep & Eo & Ei & En & HC & HR). split; rewrite ?Ed, ?Ep, ?Eo, ?Ei, ?En; try done.
  - intros k. rewrite HR. unfold holders. rewrite Ed, Eo, Ei. apply I2.
  - intros d. unfold hal_fds. by rewrite Eo, Ei, I5.
Qed.

(** An output stream changes, with the PCM calls that go with it. *)
Lemma hv_out h p o o' pw : hal_inv h → h_outs h !! p = Some o → o_hw o' = o_hw o → out_ok o' →
  (∀ d, fds (pcalls pw) d = fds (pcalls (h_pcm h)) d - out_fd o d + out_fd o' d) →
  hal_inv (h <| h_pcm := pw |> <| h_outs := <[p := o']> (h_outs h) |>).
Proof.
  intros [I1 I2 I3 I4 I5 I6 I7] Hp Ehw Hok Hd. split; simpl; try done.
  - intros k. specialize (I2 k). unfold holders in *. simpl. rewrite (msum_update _ _ _ _ o' Hp). rewrite Ehw. lia.
  - intros p' o1. destruct (decide (p' = p)) as [->|]; [rewrite lookup_insert_eq; by intros [= <-]|rewrite lookup_insert_ne by done; apply I3].
  - intros d. rewrite Hd, I5. unfold hal_fds. simpl. rewrite (msum_update _ _ _ _ o' Hp). lia.
  - intros p' Hp'. destruct (I6 p' Hp') as [Ho Hi]. split; [|done]. rewrite lookup_insert_ne; [done|]. intros ->. congruence.
Qed.
Lemma hv_out' h p o o' : hal_inv h → h_outs h !! p = Some o → o_hw o' = o_hw o → out_ok o' → (∀ d, out_fd o' d = out_fd o d) →
  hal_inv (h <| h_outs := <[p := o']> (h_outs h) |>).
Proof.
  intros HI Hp Ehw Hok Hd. pose proof (hv_out h p o o' (h_pcm h) HI Hp Ehw Hok) as Hx. destruct h. apply Hx. intros d. rewrite Hd. lia.
Qed.

Lemma hv_in h p i i' pw : hal_inv h → h_ins h !! p = Some i → i_hw i' = i_hw i → in_ok i' →
  (∀ d, fds (pcalls pw) d = fds (pcalls (h_pcm h)) d - in_fd i d + in_fd i' d) →
  hal_inv (h <| h_pcm := pw |> <| h_ins := <[p := i']> (h_ins h) |>).
Proof.
  intros [I1 I2 I3 I4 I5 I6 I7] Hp Ehw Hok Hd. split; simpl; try done.
  - intros k. specialize (I2 k). unfold holders in *. simpl. rewrite (msum_update _ _ _ _ i' Hp). rewrite Ehw. lia.
  - intros p' o1. destruct (decide (p' = p)) as [->|]; [rewrite lookup_insert_eq; by intros [= <-]|rewrite lookup_insert_ne by done; apply I4].
  - intros d. rewrite Hd, I5. unfold hal_fds. simpl. rewrite (msum_update _ _ _ _ i' Hp). lia.
  - intros p' Hp'. destruct (I6 p' Hp') as [Ho Hi]. split; [done|]. rewrite lookup_insert_ne; [done|]. intros ->. congruence.
Qed.
Lemma hv_in' h p i i' : hal_inv h → h_ins h !! p = Some i → i_hw i' = i_hw i → in_ok i' → (∀ d, in_fd i' d = in_fd i d) →
  hal_inv (h <| h_ins := <[p := i']> (h_ins h) |>).
Proof.
  intros HI Hp Ehw Hok Hd. pose proof (hv_in h p i i' (h_pcm h) HI Hp Ehw Hok) as Hx. destruct h. apply Hx. intros d. rewrite Hd. lia.
Qed.

(** ** Calls to the configuration manager *)

Lemma cm_only_cm h w : cm_inv w → (∀ j, refs w j = refs (h_cm h) j) → cm_only h (h <| h_cm := w |>).
Proof. by intros. Qed.
Lemma cm_only_event h e : cm_inv (h_cm h) → cm_only h (h <| h_events := e |>).
Proof. by intros. Qed.

Lemma route_wp k m h : cm_inv (h_cm h) → 0 < refs (h_cm h) k → mask_ok m → wp (run_cm (apply_route k m)) (λ _ h', cm_only h h') h.
Proof. intros HI Hr Hm. apply wp_run_cm. eapply wp_mono; [by apply (cm_route sh Hsh infos)|]. intros [] w [? ?]. by apply cm_only_cm. Qed.

Lemma info_wp k h : cm_inv (h_cm h) → 0 < refs (h_cm h) k → wp (hw_info k) (λ i h', h' = h ∧ ld infos k = Some i) h.
Proof.
  intros HI Hr. destruct (refs_ld _ _ Hr) as (s & Hk & _). unfold hw_info. apply wp_run_cm, wp_bind. eapply get_str_wp; [done|]. apply wp_ret'.
  split; [by destruct h|]. by eapply ci_info.
Qed.

Lemma usecases_wp k kv h : cm_inv (h_cm h) → 0 < refs (h_cm h) k → wp (stream_invoke_usecases (Some k) kv) (λ _ h', cm_only h h') h.
Proof.
  intros HI Hr. unfold stream_invoke_usecases. hh_steps; [done|].
  match goal with |- wp _ _ ?h1 => assert (cm_only h h1) as Hc by done; revert Hc; generalize h1 end. clear HI.
  generalize (- ENOTSUP). induction (strtok_on ";"%char kv "") as [|t ts IH]; intros ret h1 Hc; [by apply wp_h_ret|].
  destruct (split_eq t "") as [[setting [|a v]]|]; [by apply IH| |by apply IH]. apply wp_bind, wp_run_cm.
  pose proof Hc as (_&_&_&_&_&HI1&HR1). eapply wp_mono; [apply (cm_use sh infos); [done|by rewrite HR1]|].
  intros r w [HI2 HR2]. apply IH. eapply cm_only_trans; [exact Hc|]. by apply cm_only_cm.
Qed.

(** The parser of parameters has memory. *)
Definition parses (kv : string) : Prop := ∀ ev, is_Some (hl_parms ev kv).
(** Every value of a key that names devices names devices of one direction. *)
Definition key_ok (kv key : string) : Prop := ∀ ev get v, hl_parms ev kv = Some get → get key = Some v → mask_ok (u32 (atoi v)).

Lemma routing_param_wp kv h : parses kv → key_ok kv "routing" →
  wp (common_get_routing_param kv) (λ r h', h' = h ∧ ∀ m, r = Some m → mask_ok m) h.
Proof.
  intros Hp Hk. unfold common_get_routing_param, str_parms_create_str. hh_steps. destruct (Hp (h_events h)) as [get Hg].
  eapply wp_h_lift; [done|]. hh_steps. split; [done|]. intros m Hm. apply fmap_Some in Hm as (v & Hv & ->). by eapply Hk.
Qed.

(** ** Output streams *)

Lemma hv_next h n : hal_inv h → h_next h <= n → hal_inv (h <| h_next := n |>).
Proof. intros [I1 I2 I3 I4 I5 I6 I7] Hn. split; try done. simpl. intros p Hp. apply I6. lia. Qed.
Lemma hv_event h e : hal_inv h → hal_inv (h <| h_events := e |>).
Proof. intros HI. eapply hv_cm_only; [exact HI|]. apply cm_only_event, HI. Qed.

Lemma out_parameters_wp p kv h : hal_inv h → is_Some (h_outs h !! p) → parses kv → key_ok kv "routing" →
  wp (out_parameters p kv) (λ _ h', hal_inv h' ∧ h_outs h' = h_outs h ∧ h_ins h' = h_ins h) h.
Proof.
  intros HI [o Ho] Hp Hk. pose proof (out_refs _ _ _ HI Ho) as Hr. pose proof (hv_outs _ HI _ _ Ho) as [_ Hok].
  unfold out_parameters. apply wp_bind. eapply wp_get_out; [done|]. destruct (o_kind o); [|done].
  unfold out_set_parameters. apply wp_bind. eapply wp_get_out; [done|]. apply wp_bind.
  eapply wp_mono; [by apply routing_param_wp|]. intros v h1 [-> Hv]. apply wp_bind.
  eapply (wp_mono _ (λ _, cm_only h)).
  - destruct v as [v|]; [|apply wp_h_ret; by apply cm_only_refl, HI]. apply route_wp; [apply HI|done|by apply Hv].
  - intros [] h1 Hc. pose proof Hc as (_&_&_&_&_&HI1&HR1). apply wp_bind. eapply wp_mono; [apply usecases_wp; [done|by rewrite HR1]|].
    intros r h2 Hc2. hh_steps. pose proof (cm_only_trans _ _ _ Hc Hc2) as Hc3. split; [by eapply hv_cm_only|]. by destruct Hc3 as (_&_&->&->&_).
Qed.

(** ** PCM output *)

Lemma or_default_range v d n : 0 <= v <= n → 1 <= d <= n → 1 <= or_default v d <= n.
Proof. intros. unfold or_default. destruct (Z.eqb_spec v 0); simpl; lia. Qed.

Lemma frame_bytes_s16 q c : idle c q → format c = PCM_FORMAT_S16_LE → 1 <= channels c <= 32 → frame_bytes q ≠ 0.
Proof.
  intros (_ & _ & Hc & Hf) Ef Hr. unfold frame_bytes. rewrite Hc, Hf, Ef. change (pcm_format_to_bits PCM_FORMAT_S16_LE ≫ 3) with 2.
  rewrite u32_id by lia. lia.
Qed.

(** What an open for a stream gives. *)
Lemma open_good fl c p : (∀ q, HPcm p = HPcm q → flags q = fl ∧ (0 <= fd q → idle c q ∧ underruns q = 0)) → 0 <= fd p →
  format c = PCM_FORMAT_S16_LE → 1 <= channels c <= 32 → pcm_good fl p.
Proof.
  intros Hq Hfd Hf Hc. destruct (Hq p eq_refl) as [Hfl Hi]. destruct (Hi Hfd) as [Hid Hu]. split; [done|done| |by eapply frame_bytes_s16|].
  - intros Hr. destruct Hid. congruence.
  - rewrite Hu. unfold INT_MIN. lia.
Qed.

Lemma good_sizes i : good_info i → sizes_ok (mkPcmCfg 0 0 (or_default (hw_period_size i) 256) (or_default (hw_period_count i) 4) PCM_FORMAT_S16_LE 0 0 0).
Proof. by intros [_ ?]. Qed.

(** The underruns of an active stream. *)
Definition out_underruns (o : stream_out) : Z := match o_kind o with OutPcm (PHandle (HPcm q)) _ _ => underruns q | _ => 0 end.

Lemma start_output_wp p o h : hal_inv h → h_outs h !! p = Some o → o_standby o = true →
  wp (start_output_pcm p) (λ r h', (r = - ENOMEM ∧ hal_inv h' ∧ ∃ o', h_outs h' !! p = Some o' ∧ o_hw o' = o_hw o) ∨
    (r = 0 ∧ ∃ o', h_outs h' !! p = Some o' ∧ out_underruns o' = 0 ∧
      hal_inv (h' <| h_outs := <[p := o' <| o_standby := false |>]> (h_outs h') |>))) h.
Proof.
  intros HI Ho Hs. pose proof (out_refs _ _ _ HI Ho) as Hr. pose proof (hv_outs _ HI _ _ Ho) as [Hch Hok].
  unfold start_output_pcm. apply wp_bind. eapply wp_get_out; [done|]. apply wp_bind. eapply wp_mono; [by apply info_wp; [apply HI|]|].
  intros i h1 [-> Hi]. pose proof (Forall_ld _ _ _ _ Hinfos Hi) as Hg. cbn zeta. set (c := out_config o i).
  assert (sizes_ok c) as Hsz by exact (good_sizes i Hg).
  assert (1 <= channels c <= 32) as Hcc by (apply or_default_range; [done|unfold OUT_CHANNEL_COUNT_DEFAULT; lia]).
  rewrite Hs in Hok. destruct (o_kind o) as [ptr r0 c0|] eqn:Ek; [|done].
  assert (∀ d, out_fd o d = 0) as Hf0.
  { intros d. unfold out_fd. rewrite Ek. destruct ptr as [|[|]|]; try done. by apply fd_of_neg. }
  apply wp_bind, wp_run_pcm. eapply wp_mono; [by apply pcm_open_wp|]. intros hd pw (_ & Hp & Hd). unfold pcm_is_ready.
  destruct (Z.geb_spec (handle_fd hd) 0) as [Hrdy|Hrdy]; cbn [negb].
  - destruct hd as [|q]; [done|]. simpl in Hrdy. apply wp_bind.
    eapply wp_h_lift; [unfold out_pcm_fill_params; destruct (Z.eqb_spec (rate c) 0) as [E|]; [|done]|].
    { exfalso. unfold c in E. simpl in E. unfold out_pcm_cfg_rate, or_default, OUT_RATE_DEFAULT in E. destruct (Z.eqb_spec (hw_rate i) 0); simpl in E; lia. }
    hh_steps. right. split; [done|]. eexists. split; [apply lookup_insert_eq|]. split; [by destruct (Hp q eq_refl) as [_ Hq]; destruct (Hq Hrdy)|]. cbn [h_outs]. simpl.
    rewrite insert_insert_eq. apply (hv_out h p o); [done|done|done| |].
    + split; [done|]. simpl. eexists. split; [done|]. eapply (open_good PCM_OUT c); done.
    + intros d. rewrite Hd, Hf0. unfold out_fd. simpl. lia.
  - apply wp_bind, wp_run_pcm. eapply wp_mono; [apply pcm_close_wp|]. intros [] pw2 (_ & Hd2). hh_steps. left. split; [done|]. split.
    + apply (hv_out h p o); [done|done|done| |].
      * split; [done|]. simpl. rewrite Hs. by destruct hd.
      * intros d. simpl in Hd2. rewrite Hd2, Hd, Hf0. unfold out_fd. simpl. destruct hd; simpl; [rewrite fd_of_neg by lia|]; lia.
    + eexists. split; [apply lookup_insert_eq|done].
Qed.

Lemma out_standby_wp p o h : hal_inv h → h_outs h !! p = Some o →
  wp (do_out_pcm_standby p) (λ _ h', hal_inv h' ∧ ∃ o', h_outs h' !! p = Some o' ∧ o_hw o' = o_hw o ∧ o_standby o' = true ∧ ∀ d, out_fd o' d = 0) h.
Proof.
  intros HI Ho. pose proof (hv_outs _ HI _ _ Ho) as [Hch Hok]. unfold do_out_pcm_standby. apply wp_bind. eapply wp_get_out; [done|].
  destruct (o_kind o) as [ptr r0 c0|] eqn:Ek; [|done]. destruct (o_standby o) eqn:Es.
  - apply wp_h_ret. split; [done|]. exists o. split_and!; [done|done|done|]. intros d. unfold out_fd. rewrite Ek. destruct ptr as [|[|]|]; try done. by apply fd_of_neg.
  - destruct Hok as (q & -> & Hq). apply wp_bind. eapply wp_h_lift; [unfold get_pcm; by rewrite Ek|]. apply wp_bind, wp_run_pcm.
    eapply wp_mono; [apply pcm_close_wp|]. intros [] pw (_ & Hd). hh_steps. split.
    + apply (hv_out h p o); [done|done|done|done|]. intros d. rewrite Hd. unfold out_fd. rewrite Ek. simpl. lia.
    + eexists. split; [apply lookup_insert_eq|done].
Qed.

Lemma good_moved fl q q' : pcm_good fl q → fd q' = fd q → flags q' = flags q → config q' = config q → pcm_wf q' → underruns q <= underruns q' →
  pcm_good fl q'.
Proof. intros [? ? ? ? ?] E1 E2 E3 ? ?. split; [congruence|congruence|done|unfold frame_bytes in *; by rewrite E3|lia]. Qed.

Lemma bytes_to_frames q n : frame_bytes q ≠ 0 → 0 <= n → ∃ k, pcm_bytes_to_frames q n = Some k ∧ 0 <= k <= n.
Proof.
  intros Hf Hn. unfold pcm_bytes_to_frames. destruct (Z.eqb_spec (frame_bytes q) 0); [done|]. eexists. split; [done|].
  pose proof (u32_range (channels (config q) * (pcm_format_to_bits (format (config q)) ≫ 3))) as Hr. fold (frame_bytes q) in Hr.
  split; [apply Z.div_pos; lia|]. apply Z.div_le_upper_bound; [lia|]. nia.
Qed.

(** A write to an active stream. *)
Lemma on_out_wp p o q rt ch data n h : hal_inv h → h_outs h !! p = Some o → o_kind o = OutPcm (PHandle (HPcm q)) rt ch → o_standby o = false →
  underruns q < INT_MAX → 0 <= n <= TINYALSA_FRAMES_MAX →
  wp (on_out_pcm p (λ q, k ← lift (pcm_bytes_to_frames q n); pcm_writei 2 data k)) (λ _ h', hal_inv h' ∧ is_Some (h_outs h' !! p)) h.
Proof.
  intros HI Ho Ek Es Hu Hn. pose proof (hv_outs _ HI _ _ Ho) as [Hch Hok]. rewrite Ek, Es in Hok. destruct Hok as (q' & [= <-] & Hq).
  unfold on_out_pcm. apply wp_bind. eapply wp_get_out; [done|]. apply wp_bind. eapply wp_h_lift; [unfold get_pcm; by rewrite Ek|].
  apply wp_bind, wp_run_pcm, wp_on, wp_bind. destruct (bytes_to_frames q n (pg_frame _ _ Hq) ltac:(lia)) as (k & Hk & Hkn).
  eapply wp_lift_p; [done|]. eapply wp_mono; [apply pcm_writei_wp; simpl|].
  - lia.
  - apply Hq.
  - by rewrite (pg_flags _ _ Hq).
  - lia.
  - split; [apply Hq|done].
  - intros r w' [(F1 & F2 & F3) C W _ _ _ U]. simpl in *. hh_steps. split; [|eexists; apply lookup_insert_eq].
    apply (hv_out h p o); [done|done|done| |].
    + split; [done|]. simpl. rewrite Es. eexists. split; [done|]. eapply good_moved; [exact Hq|done|done|done|done|lia].
    + intros d. rewrite F3. unfold out_fd. rewrite Ek. simpl. rewrite F1. lia.
Qed.

Lemma out_write_wp p o data h : hal_inv h → h_outs h !! p = Some o → out_underruns o < INT_MAX → blen data <= TINYALSA_FRAMES_MAX →
  wp (out_write p data) (λ _ h', hal_inv h') h.
Proof.
  intros HI Ho Hu Hn. pose proof (out_refs _ _ _ HI Ho) as Hr. pose proof (hv_outs _ HI _ _ Ho) as [Hch Hok]. pose proof (blen_nonneg data) as H0n.
  unfold out_write. apply wp_bind. eapply wp_get_out; [done|]. destruct (o_kind o) as [ptr r0 c0|] eqn:Ek; [|done].
  unfold out_pcm_write. cbn zeta. apply wp_bind. eapply wp_get_out; [done|]. apply wp_bind, wp_run_cm.
  eapply wp_mono; [apply (cm_routes sh infos); [apply HI|done]|]. intros routes w [-> _].
  replace (h <| h_cm := h_cm h |>) with h by (by destruct h). destruct (routes =? 0); [by apply wp_h_ret|]. apply wp_bind.
  eapply (wp_mono _ (λ r h', hal_inv h' ∧ (r = 0 → ∃ o' q rt ch, h_outs h' !! p = Some o' ∧ o_kind o' = OutPcm (PHandle (HPcm q)) rt ch ∧
    o_standby o' = false ∧ underruns q < INT_MAX))).
  - destruct (o_standby o) eqn:Es.
    + apply wp_bind. eapply wp_mono; [by apply start_output_wp|]. intros r h1 [(-> & HI1 & _)|(-> & o' & Ho' & Hu0 & HI1)]; cbn [Z.eqb negb].
      * apply wp_h_ret. by split.
      * apply wp_bind. eapply wp_get_out; [done|]. hh_steps. split; [done|]. intros _.
        pose proof (hv_outs _ HI1 p (o' <| o_standby := false |>) ltac:(simpl; apply lookup_insert_eq)) as [_ Hok']. simpl in Hok'.
        destruct (o_kind o') as [ptr' r' c'|] eqn:Ek'; [|done]. destruct Hok' as (q & -> & Hq). exists (o' <| o_standby := false |>), q, r', c'.
        split_and!; [simpl; apply lookup_insert_eq|done|done|]. unfold out_underruns in Hu0. rewrite Ek' in Hu0. rewrite Hu0. unfold INT_MAX. lia.
    + destruct Hok as (q & -> & Hq). apply wp_h_ret. split; [done|]. intros _. exists o, q, r0, c0. unfold out_underruns in Hu. rewrite Ek in Hu. by split_and!.
  - intros r h1 [HI1 Hact]. destruct (Z.eqb_spec r 0) as [->|]; simpl; [|by apply wp_h_ret]. destruct (Hact eq_refl) as (o' & q & rt & ch & Ho' & Ek' & Es' & Hu').
    apply wp_bind. eapply wp_mono; [by eapply on_out_wp|]. intros ret h2 [HI2 _]. by apply wp_h_ret.
Qed.

(** ** Opening and closing output streams *)

Lemma hv_close_out h p o w : hal_inv h → h_outs h !! p = Some o → (∀ d, out_fd o d = 0) → cm_inv w →
  (∀ j, refs w j = refs (h_cm h) j - (if j =? o_hw o then 1 else 0)) →
  hal_inv (h <| h_cm := w |> <| h_outs := delete p (h_outs h) |>).
Proof.
  intros [I1 I2 I3 I4 I5 I6 I7] Hp Hf HC HR. split; simpl; try done.
  - intros k. specialize (I2 k). unfold holders in *. simpl. rewrite (msum_delete _ _ _ _ Hp) in I2. rewrite HR, Z.eqb_sym. unfold one in I2 at 1.
    destruct (o_hw o =? k); lia.
  - intros p' o1 Hl. apply lookup_delete_Some in Hl as [_ Hl]. by eapply I3.
  - intros d. rewrite I5. unfold hal_fds. simpl. rewrite (msum_delete _ _ _ _ Hp), Hf. lia.
  - intros p' Hp'. destruct (I6 p' Hp') as [Ho Hi]. split; [|done]. apply lookup_delete_None. by right.
Qed.

Lemma close_output_wp p h : hal_inv h → is_Some (h_outs h !! p) → wp (adev_close_output_stream p) (λ _ h', hal_inv h') h.
Proof.
  intros HI [o Ho]. pose proof (hv_outs _ HI _ _ Ho) as [Hch Hok]. unfold adev_close_output_stream. apply wp_bind. eapply wp_get_out; [done|].
  destruct (o_kind o) as [ptr r0 c0|] eqn:Ek; [|done]. unfold do_close_out_pcm, out_pcm_standby. apply wp_bind, wp_bind.
  eapply wp_mono; [by apply out_standby_wp|]. intros [] h1 (HI1 & o' & Ho' & Ehw & Es & Hf). apply wp_h_ret. unfold do_close_out_common.
  apply wp_bind. eapply wp_get_out; [done|]. apply wp_bind, wp_run_cm. eapply wp_mono; [eapply (cm_release sh); [..|apply HI1|by eapply out_refs]; done|].
  intros [] w [HC HR]. hh_steps. by eapply (hv_close_out h1 p o').
Qed.

(** A stream of the configuration gains a user that the device does not hold yet. *)
Lemma hv_gain h w : hal_inv h → cm_inv w → (∀ j, refs (h_cm h) j <= refs w j) → hal_inv (h <| h_cm := w |>).
Proof. intros [I1 I2 I3 I4 I5 I6 I7] HC HR. split; try done. intros k. specialize (I2 k). specialize (HR k). unfold holders in *. simpl. lia. Qed.

(** A new output stream for the user gained. *)
Lemma hv_new_out h w k o p : hal_inv h → cm_inv w → gains (h_cm h) w k → h_next h <= p → o_hw o = k → out_ok o → (∀ d, out_fd o d = 0) →
  hal_inv (h <| h_cm := w |> <| h_next := p + 1 |> <| h_outs := <[p := o]> (h_outs h) |>).
Proof.
  intros [I1 I2 I3 I4 I5 I6 I7] HC HR Hp Hk Hok Hf. destruct (I6 p Hp) as [Hno Hni]. split; simpl; try done.
  - intros j. specialize (I2 j). specialize (HR j). unfold holders in *. simpl. rewrite msum_insert by done. rewrite Hk, Z.eqb_sym. unfold one at 1.
    destruct (j =? k); lia.
  - intros p' o1. destruct (decide (p' = p)) as [->|]; [rewrite lookup_insert_eq; by intros [= <-]|rewrite lookup_insert_ne by done; apply I3].
  - intros d. rewrite I5. unfold hal_fds. simpl. rewrite msum_insert, Hf by done. lia.
  - intros p' Hp'. destruct (I6 p') as [Ho Hi]; [lia|]. split; [|done]. rewrite lookup_insert_ne; [done|lia].
Qed.

Lemma popcount_range m : 0 <= m < 2 ^ 32 → 0 <= popcount m <= 32.
Proof.
  assert (∀ n p, Z.pos p < 2 ^ Z.of_nat n → 0 <= popcount_p p <= Z.of_nat n) as Hp.
  { induction n as [|n IH]; intros p Hp; [simpl in Hp; lia|]. rewrite Nat2Z.inj_succ, Z.pow_succ_r in Hp by lia.
    destruct p as [p|p|]; simpl; [specialize (IH p ltac:(lia)); lia|specialize (IH p ltac:(lia)); lia|lia]. }
  intros Hm. destruct m as [|p|p]; simpl; [lia| |lia]. apply (Hp 32%nat). lia.
Qed.

(** What the framework asks for: a positive rate, a mask of 32 bits. *)
Definition conf_ok (c : audio_config) : Prop := 0 < ac_sample_rate c ∧ 0 <= ac_channel_mask c < 2 ^ 32.

Lemma kind_not_compressed k i d f : ld infos k = Some i → hw_type i = stream_kind d f → Z.testbit d 31 = false → hw_type i = e_stream_out_pcm.
Proof.
  intros Hi Ht Hd. pose proof (Forall_ld _ _ _ _ Hinfos Hi) as [Hc _]. unfold stream_kind in Ht. rewrite land_bit_in, Hd in Ht. simpl in Ht.
  destruct (audio_is_linear_pcm f); [done|]. unfold stream_is_compressed in Hc. by rewrite Ht in Hc.
Qed.

Lemma open_output_wp devices c h : hal_inv h → mask_ok (Z.land devices OUT_ALL) → conf_ok c →
  wp (adev_open_output_stream devices c) (λ r h', hal_inv h' ∧ ∀ p, r.2 = Some p → r.1 = 0 ∧ is_Some (h_outs h' !! p)) h.
Proof.
  intros HI Hm [Hrate Hmask]. unfold adev_open_output_stream. cbn zeta. apply wp_bind, wp_run_cm.
  eapply wp_mono; [apply (cm_get sh infos), HI|]. intros r w [HC Hr]. destruct r as [k|].
  2:{ apply wp_h_ret. split; [|done]. apply hv_gain; [done|done|]. intros j. rewrite Hr. lia. }
  destruct Hr as [HG (i & Hi & Ht)]. assert (hw_type i = e_stream_out_pcm) as Hpcm.
  { eapply kind_not_compressed; [done|done|]. rewrite Z.land_spec, OUT_ALL_31. apply andb_false_r. }
  assert (hal_inv (h <| h_cm := w |>)) as HI1.
  { apply hv_gain; [done|done|]. intros j. rewrite HG. destruct (j =? k); lia. }
  assert (0 < refs w k) as Hk. { rewrite HG, Z.eqb_refl. pose proof (hv_refs _ HI k). unfold holders in *. pose proof (outs_nonneg (h_outs h) k).
    pose proof (ins_nonneg (h_ins h) k). pose proof (dev_holds_nonneg (h_dev h) k). lia. }
  apply wp_bind. eapply wp_mono; [apply info_wp; [apply HI1|done]|]. intros i' h1 [-> Hi']. rewrite Hi in Hi'. injection Hi' as <-.
  rewrite bool_decide_true by done. hh_step. hh_step. cbn beta zeta. destruct (negb _) eqn:Ea; [apply wp_h_ret; split; [by apply hv_event|done]|].
  unfold fresh, do_init_out_common. do 3 hh_step. cbn beta. do 2 hh_step. cbn beta. hh_step. cbn beta zeta. do 3 hh_step. cbn beta.
  apply wp_bind. eapply wp_get_out; [apply lookup_insert_eq|]. do 2 hh_step. cbn beta.
  match goal with |- wp _ _ ?h2 => assert (hal_inv h2 ∧ h_cm h2 = w ∧ ∃ o, h_outs h2 !! h_next h = Some o ∧ o_hw o = k ∧ o_standby o = true ∧
    o_kind o = OutPcm PNull 0 0 ∧ o_channel_count o = popcount (ac_channel_mask c) ∧ o_sample_rate o = ac_sample_rate c) as (HI2 & Ew & o2 & Ho2 & Hk2 & Hs2 & Hkd & Hcc & Hsr);
    [|revert HI2 Ew Ho2; generalize h2] end.
  { split; [|split; [done|eexists; split; [apply lookup_insert_eq|done]]]. simpl. rewrite insert_insert_eq.
    match goal with |- context [<[_ := ?o]> (h_outs h)] => pose proof (hv_event _ (HAlloc (hl_alloc (h_events h)) :: h_events h)
      (hv_new_out h w k o (h_next h) HI HC HG ltac:(lia) eq_refl ltac:(split; [by apply popcount_range|done]) (λ d, eq_refl))) as Hx end.
    exact Hx. }
  intros h2 HI2 Ew Ho2. hh_step. eapply wp_mono; [apply route_wp; [apply HI2|by rewrite Ew|done]|]. intros [] h3 Hc3.
  pose proof (hv_cm_only _ _ HI2 Hc3) as HI3. destruct Hc3 as (_ & _ & Eo3 & _ & _ & _ & HR3). rewrite <- Eo3 in Ho2. apply wp_h_ret.
  apply wp_bind. unfold do_init_out_pcm. apply wp_bind. eapply wp_get_out; [done|]. apply wp_bind.
  eapply wp_mono; [apply info_wp; [apply HI3|by eapply out_refs]|]. intros i3 h4 [-> _].
  destruct (Z.eqb_spec (o_sample_rate o2) 0); [lia|]. hh_steps; [done|]. split.
  - apply (hv_out' h3 _ o2); [done|done|done| |done]. simpl. destruct (hv_outs _ HI3 _ _ Ho2) as [? Hok]. split; done.
  - intros p [= <-]. split; [done|]. eexists. apply lookup_insert_eq.
Qed.

(** ** The voice trigger *)

(** The fields of the device change. *)
Lemma hv_dev h w d : hal_inv h → cm_inv w → (∀ k, dev_holds d k - dev_holds (h_dev h) k <= refs w k - refs (h_cm h) k) →
  mask_ok (voice_trig_mic d) → hal_inv (h <| h_cm := w |> <| h_dev := d |>).
Proof. intros [I1 I2 I3 I4 I5 I6 I7] HC HR Hm. split; try done. intros k. specialize (I2 k). specialize (HR k). unfold holders in *. simpl. lia. Qed.
Lemma hv_dev' h d : hal_inv h → (∀ k, dev_holds d k <= dev_holds (h_dev h) k) → mask_ok (voice_trig_mic d) → hal_inv (h <| h_dev := d |>).
Proof. intros HI HR Hm. pose proof (hv_dev h (h_cm h) d HI (hv_cm _ HI)) as Hx. destruct h. apply Hx; [|done]. intros k. specialize (HR k). simpl in *. lia. Qed.

(** The users of a stream that are not the device itself. *)
Definition slack (h : hal) (k : Z) : Z := refs (h_cm h) k - dev_holds (h_dev h) k.

Lemma voice_open_wp name st' h : hal_inv h → armed st' = true →
  wp (do_voice_trigger_open_stream name;; set_voice st') (λ _ h', hal_inv h' ∧ h_outs h' = h_outs h ∧ h_ins h' = h_ins h ∧
    (armed (voice_st (h_dev h)) = false → ∀ k, slack h' k = slack h k)) h.
Proof.
  intros HI Ha. pose proof HI as [I1 I2 I3 I4 I5 I6 I7]. unfold do_voice_trigger_open_stream. apply wp_bind, wp_bind, wp_run_cm.
  eapply wp_mono; [apply (cm_named sh infos), HI|]. intros s w [HC Hs]. do 2 hh_step. cbn beta. destruct s as [k|].
  - do 2 hh_step. cbn beta. apply wp_run_cm. eapply wp_mono; [apply (cm_route sh Hsh infos); [done| |]|].
    + rewrite Hs, Z.eqb_refl. specialize (I2 k). unfold holders in I2. pose proof (outs_nonneg (h_outs h) k). pose proof (ins_nonneg (h_ins h) k).
      pose proof (dev_holds_nonneg (h_dev h) k). lia.
    + simpl. by destruct (_ =? 0).
    + intros [] w2 [HC2 HR2]. hh_step. simpl in *.
      assert (∀ j, one (opt_is (Some k) j) = if j =? k then 1 else 0) as Hj.
      { intros j. unfold opt_is. rewrite Z.eqb_sym. by destruct (Z.eqb_spec k j) as [->|Hne]; [rewrite bool_decide_true by done|rewrite bool_decide_false by congruence]. }
      split_and!; [|done|done|].
      * apply (hv_dev h w2); [done|done| |done]. intros j. rewrite HR2, (Hs j). unfold dev_holds. simpl. rewrite Ha. cbn [andb]. rewrite Hj.
        pose proof (one_nonneg (armed (voice_st (h_dev h)) && opt_is (voice_trig_stream (h_dev h)) j)). lia.
      * intros Ha0 j. unfold slack, dev_holds. simpl. rewrite HR2, (Hs j), Ha, Ha0. cbn [andb]. rewrite Hj. change (one false) with 0. lia.
  - hh_steps. simpl. assert (∀ j, one (opt_is None j) = 0) as Hj by (intros j; unfold opt_is; by rewrite bool_decide_false).
    split_and!; [|done|done|].
    + apply (hv_dev h w); [done|done| |done]. intros j. rewrite (Hs j). unfold dev_holds. simpl. rewrite Ha. cbn [andb]. rewrite Hj.
      pose proof (one_nonneg (armed (voice_st (h_dev h)) && opt_is (voice_trig_stream (h_dev h)) j)). lia.
    + intros Ha0 j. unfold slack, dev_holds. simpl. rewrite (Hs j), Ha, Ha0. cbn [andb]. rewrite Hj. change (one false) with 0. lia.
Qed.

Lemma voice_close_wp st' h : hal_inv h → armed (voice_st (h_dev h)) = true → armed st' = false →
  wp (do_voice_trigger_close_stream;; set_voice st') (λ _ h', hal_inv h' ∧ h_outs h' = h_outs h ∧ h_ins h' = h_ins h ∧ ∀ k, slack h' k = slack h k) h.
Proof.
  intros HI Ha Ha'. pose proof HI as [I1 I2 I3 I4 I5 I6 I7]. unfold do_voice_trigger_close_stream. apply wp_bind. do 2 hh_step. cbn beta.
  destruct (voice_trig_stream (h_dev h)) as [k|] eqn:Ek.
  - pose proof (voice_refs _ _ HI Ha Ek) as Hr. apply wp_bind, wp_run_cm. eapply wp_mono; [apply (cm_route sh Hsh infos); [done|done|apply mask_ok_0]|].
    intros [] w [HC HR]. apply wp_run_cm. eapply wp_mono; [eapply (cm_release sh); [..|exact HC|by simpl; rewrite HR]; done|].
    intros [] w2 [HC2 HR2]. hh_step. simpl in *. assert (∀ j, slack (h <| h_cm := w2 |> <| h_dev := (h_dev h) <| voice_st := st' |> |>) j = slack h j) as Hsl.
    { intros j. unfold slack, dev_holds. simpl. rewrite HR2, HR, Ha, Ha', Ek. cbn [andb]. unfold opt_is at 3. rewrite Z.eqb_sym.
      destruct (Z.eqb_spec k j) as [->|Hne]; [rewrite bool_decide_true by done|rewrite bool_decide_false by congruence]; unfold one at 2 4; lia. }
    split_and!; [|done|done|exact Hsl]. apply (hv_dev h w2); [done|done| |done]. intros j. specialize (Hsl j). unfold slack in Hsl. simpl in Hsl. lia.
  - hh_steps. assert (∀ j, slack (h <| h_dev := (h_dev h) <| voice_st := st' |> |>) j = slack h j) as Hsl.
    { intros j. unfold slack, dev_holds. simpl. rewrite Ha, Ha', Ek. done. }
    split_and!; [|done|done|exact Hsl]. apply hv_dev'; [done| |done]. intros j. specialize (Hsl j). unfold slack in Hsl. simpl in Hsl. lia.
Qed.

Lemma voice_move_wp st' h : hal_inv h → armed st' = armed (voice_st (h_dev h)) →
  wp (set_voice st') (λ _ h', hal_inv h' ∧ h_outs h' = h_outs h ∧ h_ins h' = h_ins h ∧ ∀ k, slack h' k = slack h k) h.
Proof.
  intros HI Ha. hh_steps. split_and!; [|done|done|intros j; unfold slack, dev_holds; simpl; by rewrite Ha].
  apply hv_dev'; [done| |apply HI]. intros j. unfold dev_holds. simpl. rewrite Ha. lia.
Qed.

(** The streams of the framework stay, and the trigger gives back what it has
    taken, unless it is armed again after it has fired. *)
Abbreviation keeps_streams h := (λ (_ : ()) h', hal_inv h' ∧ h_outs h' = h_outs h ∧ h_ins h' = h_ins h ∧
  (voice_st (h_dev h) ≠ eVoiceTriggerFired → ∀ k, slack h' k = slack h k)).

Ltac voice := first
  [ by apply wp_h_ret
  | eapply wp_mono; [by apply voice_open_wp|]; intros [] ? (? & ? & ? & Hsl); split_and!; [done..|];
      match goal with E : voice_st _ = _ |- _ => rewrite E in Hsl; first [by intros _; apply Hsl|done] end
  | eapply wp_mono; [apply voice_close_wp; [done|by match goal with E : voice_st _ = _ |- _ => rewrite E end|done]|]; intros [] ? (? & ? & ? & ?); by split_and!
  | eapply wp_mono; [apply voice_move_wp; [done|by match goal with E : voice_st _ = _ |- _ => rewrite E end]|]; intros [] ? (? & ? & ? & ?); by split_and! ].

Lemma voice_enable_wp h : hal_inv h → wp voice_trigger_enable (keeps_streams h) h.
Proof. intros HI. unfold voice_trigger_enable. do 2 hh_step. cbn beta. destruct (voice_st (h_dev h)) eqn:E; voice. Qed.
Lemma voice_disable_wp h : hal_inv h → wp voice_trigger_disable (keeps_streams h) h.
Proof. intros HI. unfold voice_trigger_disable. do 2 hh_step. cbn beta. destruct (voice_st (h_dev h)) eqn:E; voice. Qed.
Lemma voice_triggered_wp h : hal_inv h → wp voice_trigger_triggered (keeps_streams h) h.
Proof. intros HI. unfold voice_trigger_triggered. do 2 hh_step. cbn beta. destruct (voice_st (h_dev h)) eqn:E; voice. Qed.
Lemma voice_started_wp h : hal_inv h → wp voice_trigger_audio_started_locked (keeps_streams h) h.
Proof. intros HI. unfold voice_trigger_audio_started_locked. do 2 hh_step. cbn beta. destruct (voice_st (h_dev h)) eqn:E; voice. Qed.
Lemma voice_ended_wp h : hal_inv h → wp voice_trigger_audio_ended_locked (keeps_streams h) h.
Proof. intros HI. unfold voice_trigger_audio_ended_locked. do 2 hh_step. cbn beta. destruct (voice_st (h_dev h)) eqn:E; voice. Qed.

(** ** Input streams *)

Lemma upd_in_wp p i f h (Q : () → hal → Prop) : h_ins h !! p = Some i → Q () (h <| h_ins := <[p := f i]> (h_ins h) |>) → wp (upd_in p f) Q h.
Proof. intros Hi HQ. unfold upd_in. apply wp_bind. eapply wp_get_in; [done|]. by hh_steps. Qed.

Lemma hv_new_in h i p e : hal_inv h → h_next h <= p → i_hw i = None → in_ok i → i_dev i = InNull →
  hal_inv (h <| h_events := e |> <| h_next := p + 1 |> <| h_ins := <[p := i]> (h_ins h) |>).
Proof.
  intros [I1 I2 I3 I4 I5 I6 I7] Hp Hk Hok Hf. destruct (I6 p Hp) as [Hno Hni]. split; simpl; try done.
  - intros j. specialize (I2 j). unfold holders in *. simpl. rewrite msum_insert by done. rewrite Hk. unfold opt_is at 1. simpl. lia.
  - intros p' o1. destruct (decide (p' = p)) as [->|]; [rewrite lookup_insert_eq; by intros [= <-]|rewrite lookup_insert_ne by done; apply I4].
  - intros d. rewrite I5. unfold hal_fds. simpl. rewrite msum_insert by done. unfold in_fd at 2. rewrite Hf. lia.
  - intros p' Hp'. destruct (I6 p') as [Ho Hi]; [lia|]. split; [done|]. rewrite lookup_insert_ne; [done|lia].
Qed.

(** The frames of the framework's inputs, times the rate, in 32 bits. *)
Definition in_conf_ok (c : audio_config) : Prop := conf_ok c ∧ ∀ m, hl_in_frame_size (ac_format c) m ≠ 0 ∧
  u32 (hl_in_frame_size (ac_format c) m * ac_sample_rate c) ≠ 0.

Lemma open_input_wp devices c h : hal_inv h → in_conf_ok c →
  wp (adev_open_input_stream devices c) (λ r h', hal_inv h' ∧ ∀ p, r.2 = Some p → r.1 = 0 ∧ is_Some (h_ins h' !! p)) h.
Proof.
  intros HI [[Hrate Hmask] Hf]. unfold adev_open_input_stream, fresh. hh_steps; [split; [by apply hv_event|done]|]. simpl. split.
  - match goal with |- context [<[_ := ?i]> (h_ins h)] => exact (hv_new_in h i (h_next h) _ HI ltac:(lia) eq_refl
      ltac:(split_and!; [by apply popcount_range|by apply popcount_range|by apply Hf|by apply Hf|done|done]) eq_refl) end.
  - intros p [= <-]. split; [done|]. eexists. apply lookup_insert_eq.
Qed.

Lemma in_standby_wp p i h : hal_inv h → h_ins h !! p = Some i →
  wp (in_pcm_standby p) (λ _ h', hal_inv h' ∧ h_dev h' = h_dev h ∧ ∃ i', h_ins h' !! p = Some i' ∧ i_hw i' = i_hw i ∧ i_dev i' = InNull) h.
Proof.
  intros HI Hi. pose proof (hv_ins _ HI _ _ Hi) as (Hch & Hfs & Hfr & Hrs & Hok). unfold in_pcm_standby. apply wp_bind. eapply wp_get_in; [done|].
  destruct (i_hw i) as [k|] eqn:Ek.
  2:{ apply wp_h_ret. split_and!; [done|done|]. exists i. split_and!; [done|done|]. destruct (i_standby i); [done|]. destruct Hok as [[? ?] _]. done. }
  pose proof (in_refs _ _ _ _ HI Hi Ek) as Hr. apply wp_bind. eapply wp_mono; [apply info_wp; [apply HI|done]|]. intros hi h1 [-> Hhi].
  destruct (Forall_ld _ _ _ _ Hinfos Hhi) as [Hnc _]. assert (stream_is_compressed_in hi = false) as ->.
  { unfold stream_is_compressed_in, stream_is_compressed in *. case_bool_decide as E; [by rewrite E in Hnc|done]. }
  apply wp_bind. unfold do_in_pcm_standby. apply wp_bind. eapply wp_get_in; [done|]. apply wp_bind.
  set (i1 := i <| i_dev := InNull |>).
  eapply (wp_mono _ (λ _ h', h' = h ∧ i_dev i = InNull ∨ h_dev h' = h_dev h ∧ h_ins h' = <[p := i1]> (h_ins h) ∧
    hal_inv (h' <| h_ins := <[p := i1 <| i_standby := true |>]> (h_ins h) |>))).
  - destruct (i_standby i) eqn:Es; [apply wp_h_ret; by left|]. destruct Hok as (_ & q & Eq & Hq). apply wp_bind.
    eapply wp_h_lift; [unfold get_handle; by rewrite Eq|]. apply wp_bind, wp_run_pcm. eapply wp_mono; [apply pcm_close_wp|]. intros [] pw (_ & Hd).
    hh_steps. right. split_and!; [done|done|]. simpl. apply (hv_in h p i); [done|done|done|done|]. intros d. rewrite Hd. unfold in_fd. rewrite Eq. simpl. lia.
  - intros [] h1 [(-> & En)|(Ed1 & Ei1 & HI1)]; apply wp_bind; unfold in_resampler_free.
    + eapply upd_in_wp; [done|]. eapply upd_in_wp; [apply lookup_insert_eq|]. apply wp_h_ret. simpl. rewrite insert_insert_eq. split_and!; [|done|].
      * apply (hv_in' h p i); [done|done|done|done|done].
      * eexists. split; [apply lookup_insert_eq|]. simpl. done.
    + eapply upd_in_wp; [rewrite Ei1; apply lookup_insert_eq|]. eapply upd_in_wp; [apply lookup_insert_eq|]. apply wp_h_ret. simpl. rewrite insert_insert_eq.
      split_and!; [|done|eexists; split; [apply lookup_insert_eq|done]]. rewrite Ei1, insert_insert_eq.
      pose proof (hv_in' _ p (i1 <| i_standby := true |>) (i1 <| i_resampler := (i_resampler i1) <| rs_resampler := false |> <| rs_buffer := None |> |> <| i_standby := true |>) HI1) as Hx.
      simpl in Hx. rewrite lookup_insert_eq, insert_insert_eq in Hx. apply Hx; done.
Qed.

(** ** Reading *)

Section Reading.
Variables (fuel K : nat).
(** The driver recovers from overruns, within the fuel. *)
Hypothesis Hrec : recovers K.
Hypothesis Hfuel : (K < fuel)%nat.

Definition in_underruns (i : stream_in) : Z := match i_dev i with InPcm (HPcm q) => underruns q | _ => 0 end.

(** The stream has the rate of the device: no resampler. *)
Definition same_rate (i : stream_in) : Prop :=
  ∀ k hi, i_hw i = Some k → ld infos k = Some hi → i_sample_rate i = or_default (hw_rate hi) 44100.

Lemma in_rate_pos i : in_ok i → i_sample_rate i ≠ 0.
Proof. intros (_ & _ & Hf & _) E. rewrite E, Z.mul_0_r in Hf. done. Qed.

(** An active input stream. *)
Definition in_active (h : hal) (p : Z) : Prop := hal_inv h ∧ ∃ i q, h_ins h !! p = Some i ∧ i_dev i = InPcm (HPcm q) ∧ i_standby i = false ∧
  underruns q + Z.of_nat K <= INT_MAX.

Lemma start_input_wp p i h : hal_inv h → h_ins h !! p = Some i → is_Some (i_hw i) → same_rate i → in_underruns i + Z.of_nat K <= INT_MAX →
  wp (start_pcm_input_stream p) (λ r h', h_dev h' = h_dev h ∧ (r = 0 ∧ in_active h' p ∨ r < 0 ∧ hal_inv h' ∧ is_Some (h_ins h' !! p))) h.
Proof.
  intros HI Hi [k Ek] Hsr Hu. pose proof (hv_ins _ HI _ _ Hi) as Hok0. pose proof Hok0 as (Hch & Hfs & Hfr & Hrs & Hok).
  unfold start_pcm_input_stream. apply wp_bind. eapply wp_get_in; [done|]. destruct (i_standby i) eqn:Es.
  2:{ apply wp_h_ret. split; [done|]. left. split; [done|]. destruct Hok as (_ & q & Eq & Hq). split; [done|]. exists i, q. unfold in_underruns in Hu. rewrite Eq in Hu. done. }
  pose proof (in_refs _ _ _ _ HI Hi Ek) as Hr. unfold do_open_pcm_input. apply wp_bind, wp_bind. eapply wp_get_in; [done|]. rewrite Ek.
  apply wp_bind. eapply wp_mono; [apply info_wp; [apply HI|done]|]. intros hi h1 [-> Hhi]. pose proof (Forall_ld _ _ _ _ Hinfos Hhi) as Hg. cbn zeta.
  set (c := in_config i hi). assert (sizes_ok c) as Hsz by exact (good_sizes hi Hg).
  assert (1 <= channels c <= 32) as Hcc by (apply or_default_range; [done|unfold IN_CHANNEL_COUNT_DEFAULT; lia]).
  assert (rate c = i_sample_rate i) as Erate by (symmetry; by eapply Hsr).
  pose proof (in_rate_pos i Hok0) as Hr0. assert (∀ d, in_fd i d = 0) as Hf0 by (intros d; unfold in_fd; by rewrite Hok).
  apply wp_bind, wp_run_pcm. eapply wp_mono; [by apply pcm_open_wp|]. intros hd pw (_ & Hp & Hd). unfold pcm_is_ready.
  destruct (Z.geb_spec (handle_fd hd) 0) as [Hrdy|Hrdy]; cbn [negb].
  - destruct hd as [|q]; [done|]. simpl in Hrdy. apply wp_bind.
    eapply wp_h_lift; [unfold in_pcm_fill_params; destruct (Z.eqb_spec (rate c) 0); [lia|done]|]. do 2 hh_step. cbn beta. apply wp_bind.
    unfold in_get_sample_rate. simpl. destruct (Z.eqb_spec (i_sample_rate i) 0); [done|]. cbn [negb]. apply wp_h_ret.
    assert (in_pcm_cfg_rate hi = i_sample_rate i) as Erate' by exact Erate. rewrite ?Erate, ?Erate', Z.eqb_refl. cbn [negb]. apply wp_h_ret. apply wp_bind. cbn [Z.eqb]. unfold when. eapply upd_in_wp; [apply lookup_insert_eq|].
    apply wp_h_ret. split; [done|]. left. split; [done|]. simpl. rewrite insert_insert_eq.
    destruct (Hp q eq_refl) as [_ Hq]. destruct (Hq Hrdy) as [_ Hu0]. split.
    + eapply (hv_in h p i); [done|done|done| |].
      * split_and!; [apply Hch|apply Hch|done|done|done|]. simpl. split; [by rewrite Ek|]. eexists. split; [done|]. by eapply (open_good PCM_IN c).
      * intros d. rewrite Hd, Hf0. unfold in_fd. simpl. lia.
    + eexists _, q. split; [apply lookup_insert_eq|]. split_and!; [done|done|]. rewrite Hu0. unfold in_underruns in Hu. rewrite Hok in Hu. lia.
  - apply wp_bind, wp_run_pcm. eapply wp_mono; [apply pcm_close_wp|]. intros [] pw2 (_ & Hd2). apply wp_bind. eapply upd_in_wp; [done|].
    apply wp_h_ret. apply wp_bind. cbn [Z.eqb]. apply wp_h_ret. apply wp_h_ret. split; [done|]. right. split; [done|]. split.
    + apply (hv_in h p i); [done|done|done| |].
      * split_and!; [apply Hch|apply Hch|done|done|done|]. simpl. by rewrite Es.
      * intros d. simpl in Hd2. rewrite Hd2, Hd, Hf0. unfold in_fd. simpl. lia.
    + eexists. apply lookup_insert_eq.
Qed.

Lemma read_pcm_wp p n h : in_active h p → 0 <= n <= TINYALSA_FRAMES_MAX →
  wp (read_pcm fuel p n) (λ _ h', h_dev h' = h_dev h ∧ hal_inv h' ∧ is_Some (h_ins h' !! p)) h.
Proof.
  intros (HI & i & q & Hi & Eq & Es & Hu) Hn. pose proof (hv_ins _ HI _ _ Hi) as (Hch & Hfs & Hfr & Hrs & Hok). rewrite Es in Hok.
  destruct Hok as (Hhw & q' & Eq' & Hq). rewrite Eq in Eq'. injection Eq' as <-.
  unfold read_pcm, on_in_pcm. apply wp_bind. eapply wp_get_in; [done|]. apply wp_bind. eapply wp_h_lift; [unfold get_handle; by rewrite Eq|].
  apply wp_bind, wp_run_pcm, wp_on, wp_bind. destruct (bytes_to_frames q n (pg_frame _ _ Hq) ltac:(lia)) as (k & Hk & Hkn).
  eapply wp_lift_p; [done|]. eapply wp_mono; [apply (pcm_readi_wp K); simpl|].
  - done.
  - done.
  - apply Hq.
  - by rewrite (pg_flags _ _ Hq).
  - lia.
  - apply Hq.
  - done.
  - intros r w' [(F1 & F2 & F3) C W _ _ U]. simpl in *. hh_steps. split; [done|]. split; [|eexists; apply lookup_insert_eq].
    apply (hv_in h p i); [done|done|done| |].
    + split_and!; [apply Hch|apply Hch|done|done|done|]. simpl. rewrite Es. split; [done|]. eexists. split; [done|]. eapply good_moved; [exact Hq|done|done|done|done|lia].
    + intros d. rewrite F3. unfold in_fd. rewrite Eq. simpl. rewrite F1. lia.
Qed.

Lemma frames_max_int : TINYALSA_FRAMES_MAX <= INT_MAX.
Proof. done. Qed.

Lemma do_in_pcm_read_wp p i bytes h : hal_inv h → h_ins h !! p = Some i → is_Some (i_hw i) → same_rate i →
  in_underruns i + Z.of_nat K <= INT_MAX → 0 <= bytes <= TINYALSA_FRAMES_MAX →
  wp (do_in_pcm_read fuel p bytes) (λ r h', h_dev h' = h_dev h ∧ hal_inv h' ∧ is_Some (h_ins h' !! p) ∧ (r.1 = bytes ∨ r.1 < 0) ∧ ∃ l, r.2 = DData l) h.
Proof.
  intros HI Hi Hhw Hsr Hu Hb. pose proof (hv_ins _ HI _ _ Hi) as (_ & Hfs & _). unfold do_in_pcm_read. apply wp_bind. eapply wp_get_in; [done|].
  destruct (Z.eqb_spec (i_frame_size i) 0); [done|]. cbn zeta. apply wp_bind. eapply wp_mono; [by eapply start_input_wp|].
  intros r h1 [Ed [[-> HA]|(Hr & HI1 & Hi1)]].
  - cbn [Z.ltb Z.compare]. pose proof HA as (HI1 & i1 & q & Hi1 & _). apply wp_bind. eapply wp_get_in; [done|].
    pose proof (hv_ins _ HI1 _ _ Hi1) as (_ & _ & _ & Hrs & _). rewrite Hrs. apply wp_bind, wp_bind.
    eapply wp_mono; [by apply read_pcm_wp|]. intros [r data] h2 (Ed2 & HI2 & Hi2). apply wp_h_ret. apply wp_h_ret. simpl.
    split_and!; [congruence|done|done| |by eexists]. destruct (Z.geb_spec r 0); [left|by right]. apply i32_id. pose proof frames_max_int. unfold INT_MAX in *. lia.
  - destruct (Z.ltb_spec r 0); [|lia]. apply wp_h_ret. split_and!; [done|done|done|by right|by eexists].
Qed.

Lemma delay_wp p i bytes h : hal_inv h → h_ins h !! p = Some i →
  wp (do_in_realtime_delay p bytes) (λ _ h', hal_inv h' ∧ h_dev h' = h_dev h ∧ h_ins h' = h_ins h) h.
Proof.
  intros HI Hi. pose proof (hv_ins _ HI _ _ Hi) as (_ & _ & Hfr & _). unfold do_in_realtime_delay. apply wp_bind. eapply wp_get_in; [done|].
  destruct (_ =? 0); [by apply wp_h_ret|]. cbn zeta. destruct (Z.eqb_spec (u32 (i_frame_size i * i_sample_rate i)) 0); [done|].
  hh_steps; (split; [|done]); repeat apply hv_event; done.
Qed.

Lemma timestamp_wp p i h : hal_inv h → h_ins h !! p = Some i → wp (do_in_set_read_timestamp p) (λ _ h', hal_inv h') h.
Proof.
  intros HI Hi. unfold do_in_set_read_timestamp. hh_steps. eapply upd_in_wp; [done|].
  match goal with |- hal_inv (_ <| h_ins := <[_ := ?i']> _ |>) =>
    pose proof (hv_in' _ p i i' (hv_event h (HTime (hl_time (h_events h)) :: h_events h) HI) Hi eq_refl) as Hx end.
  apply Hx; [exact (hv_ins _ HI _ _ Hi)|done].
Qed.

(** The part of [in_pcm_read] that asks the device: its status and data. *)
Definition device_read (p bytes : Z) : ST hal (Z * delivered) :=
  i ← get_in p;
  match i_hw i with
  | None => mret (- EINVAL, DData [])
  | Some k =>
      routes ← run_cm (get_current_routes k);
      if routes =? 0 then mret (- EINVAL, DData []) else
      hw ← hw_info k;
      if stream_is_compressed_in hw then do_in_compress_pcm_read p bytes else do_in_pcm_read fuel p bytes
  end.

(** The part that follows: silence in place of an error or of a muted
    microphone, and the time. *)
Definition read_end (p bytes : Z) (r : Z * delivered) : ST hal (Z * delivered) :=
  dev ← getD;
  '(ret, d) ← (if (r.1 <=? 0) || mic_mute dev then
                 when (r.1 <=? 0) (do_in_realtime_delay p bytes);;
                 mret (i32 bytes, DSilence bytes)
               else mret r);
  do_in_set_read_timestamp p;;
  mret (ret, d).

Lemma in_pcm_read_split p bytes h : in_pcm_read fuel p bytes h = (device_read p bytes ≫= read_end p bytes) h.
Proof.
  unfold in_pcm_read, device_read, read_end, mbind, ST_bind. destruct (get_in p h) as [[i h1]|]; [|done].
  match goal with |- match ?m with _ => _ end = _ => by destruct m as [[[ret d] h2]|] end.
Qed.

Lemma device_read_wp p i bytes h : hal_inv h → h_ins h !! p = Some i → same_rate i →
  in_underruns i + Z.of_nat K <= INT_MAX → 0 <= bytes <= TINYALSA_FRAMES_MAX →
  wp (device_read p bytes) (λ r h', h_dev h' = h_dev h ∧ hal_inv h' ∧ is_Some (h_ins h' !! p) ∧ (r.1 = bytes ∨ r.1 < 0) ∧ ∃ l, r.2 = DData l) h.
Proof.
  intros HI Hi Hsr Hu Hb. unfold device_read. apply wp_bind. eapply wp_get_in; [done|].
  destruct (i_hw i) as [k|] eqn:Ek; [|apply wp_h_ret; split_and!; [done|done|by rewrite Hi|by right|by eexists]].
  pose proof (in_refs _ _ _ _ HI Hi Ek) as Hr. apply wp_bind, wp_run_cm. eapply wp_mono; [apply (cm_routes sh infos); [apply HI|done]|].
  intros routes w [-> _]. replace (h <| h_cm := h_cm h |>) with h by (by destruct h).
  destruct (routes =? 0); [apply wp_h_ret; split_and!; [done|done|by rewrite Hi|by right|by eexists]|]. apply wp_bind.
  eapply wp_mono; [apply info_wp; [apply HI|done]|]. intros hi h1 [-> Hhi]. destruct (Forall_ld _ _ _ _ Hinfos Hhi) as [Hnc _].
  assert (stream_is_compressed_in hi = false) as ->.
  { unfold stream_is_compressed_in, stream_is_compressed in *. case_bool_decide as E; [by rewrite E in Hnc|done]. }
  apply (do_in_pcm_read_wp p i); [done|done|by rewrite Ek|done|done|done].
Qed.

(** What a read delivers, from the status and data of the device. *)
Definition read_result (bytes : Z) (muted : bool) (r : Z * delivered) : Z * delivered :=
  (bytes, if (r.1 <=? 0) || muted then DSilence bytes else r.2).

Lemma read_end_wp p bytes r h : hal_inv h → is_Some (h_ins h !! p) → (r.1 = bytes ∨ r.1 < 0) → 0 <= bytes <= TINYALSA_FRAMES_MAX →
  wp (read_end p bytes r) (λ r' h', hal_inv h' ∧ r' = read_result bytes (mic_mute (h_dev h)) r) h.
Proof.
  intros HI [i Hi] Hret Hb. destruct r as [ret d]. simpl in Hret. unfold read_end, read_result. apply wp_bind. apply wp_h_gets. apply wp_bind.
  assert (i32 bytes = bytes) as Eb by (apply i32_id; pose proof frames_max_int; unfold INT_MAX in *; lia).
  eapply (wp_mono _ (λ r' h', hal_inv h' ∧ is_Some (h_ins h' !! p) ∧ r' = read_result bytes (mic_mute (h_dev h)) (ret, d))).
  - unfold read_result. cbn [fst snd]. rewrite Eb. destruct (Z.leb_spec ret 0); cbn [orb].
    + apply wp_bind. unfold when. eapply wp_mono; [by eapply delay_wp|]. intros [] h2 (HI2 & _ & Ei). apply wp_h_ret. rewrite Ei, Hi. done.
    + destruct (mic_mute (h_dev h)) eqn:Em; [apply wp_bind; apply wp_h_ret; apply wp_h_ret; rewrite Hi; done|].
      apply wp_h_ret. rewrite Hi. destruct Hret as [->|]; [done|lia].
  - intros [ret' d'] h2 (HI2 & [i2 Hi2] & Hr'). apply wp_bind. eapply wp_mono; [by eapply timestamp_wp|]. intros [] h3 HI3. by apply wp_h_ret.
Qed.

(** A read delivers the number of bytes asked for: the device's data, or
    silence when the device failed or the microphone is muted. *)
Lemma in_pcm_read_wp p i bytes h : hal_inv h → h_ins h !! p = Some i → same_rate i →
  in_underruns i + Z.of_nat K <= INT_MAX → 0 <= bytes <= TINYALSA_FRAMES_MAX →
  ∃ r h1, device_read p bytes h = Some (r, h1) ∧ (r.1 = bytes ∨ r.1 < 0) ∧ (∃ l, r.2 = DData l) ∧
    wp (in_pcm_read fuel p bytes) (λ r' h', hal_inv h' ∧ r' = read_result bytes (mic_mute (h_dev h)) r) h.
Proof.
  intros HI Hi Hsr Hu Hb. pose proof (device_read_wp p i bytes h HI Hi Hsr Hu Hb) as Hd.
  apply wp_run in Hd as (r & h1 & E & Ed & HI1 & Hi1 & Hret & Hl). exists r, h1. split_and!; [done..|].
  unfold wp. rewrite in_pcm_read_split. unfold mbind, ST_bind. rewrite E, <- Ed.
  pose proof (read_end_wp p bytes r h1 HI1 Hi1 Hret Hb) as Hw. unfold wp in Hw. by destruct (read_end _ _ _ _) as [[? ?]|].
Qed.

End Reading.

(** ** Changing the source, closing *)

(** An input stream gives its stream of the configuration up for another. *)
Lemma hv_switch_in h w k p i : hal_inv h → h_ins h !! p = Some i → i_standby i = true → cm_inv w →
  (∀ j, refs w j = refs (h_cm h) j + (if j =? k then 1 else 0) - one (opt_is (i_hw i) j)) →
  hal_inv (h <| h_cm := w |> <| h_ins := <[p := i <| i_hw := Some k |>]> (h_ins h) |>).
Proof.
  intros [I1 I2 I3 I4 I5 I6 I7] Hp Hs HC HR. split; simpl; try done.
  - intros j. specialize (I2 j). rewrite HR. unfold holders in *. simpl. rewrite (msum_update _ _ _ _ _ Hp). simpl. unfold opt_is at 3. rewrite Z.eqb_sym.
    destruct (Z.eqb_spec k j) as [->|]; [rewrite bool_decide_true by done|rewrite bool_decide_false by congruence]; unfold one in I2 |- *; lia.
  - intros p' i1. destruct (decide (p' = p)) as [->|]; [|rewrite lookup_insert_ne by done; apply I4]. rewrite lookup_insert_eq. intros [= <-].
    destruct (I4 _ _ Hp) as (? & ? & ? & ? & Hok). rewrite Hs in Hok. do 4 (split; [done|]). simpl. by rewrite Hs.
  - intros d. rewrite I5. unfold hal_fds. simpl. rewrite (msum_update _ _ _ _ _ Hp). change (in_fd (i <| i_hw := Some k |>) d) with (in_fd i d). lia.
  - intros p' Hp'. destruct (I6 p' Hp') as [Ho Hi]. split; [done|]. rewrite lookup_insert_ne; [done|]. intros ->. congruence.
Qed.

Lemma change_source_wp p i value devices h : hal_inv h → h_ins h !! p = Some i →
  wp (change_input_source_locked p value devices) (λ _ h', hal_inv h' ∧ is_Some (h_ins h' !! p)) h.
Proof.
  intros HI Hi. unfold change_input_source_locked. cbn zeta. apply wp_bind. eapply wp_get_in; [done|].
  destruct (i_standby i) eqn:Es; cbn [negb]; [|apply wp_h_ret; by rewrite Hi]. destruct (_ =? _); [apply wp_h_ret; by rewrite Hi|].
  apply wp_bind, wp_h_gets. set (vc := atoi value =? SOURCE_VOICE_RECOGNITION).
  set (name := if vc then voice_trigger_audio_stream_name (voice_st (h_dev h)) else None).
  apply wp_bind. eapply (wp_mono _ (λ named h', ∃ w, h' = h <| h_cm := w |> ∧ cm_inv w ∧
    match named with Some k => gains (h_cm h) w k | None => ∀ j, refs w j = refs (h_cm h) j end)).
  { destruct name as [n|].
    - apply wp_run_cm. eapply wp_mono; [apply (cm_named sh infos), HI|]. intros r w ?. by exists w.
    - apply wp_h_ret. exists (h_cm h). split; [by destruct h|]. split; [apply HI|done]. }
  intros named h1 (w1 & -> & HC1 & HR1). apply wp_bind.
  eapply (wp_mono _ (λ hw h', ∃ w, h' = h <| h_cm := w |> ∧ cm_inv w ∧
    match hw with Some k => gains (h_cm h) w k | None => ∀ j, refs w j = refs (h_cm h) j end)).
  { destruct named as [k|]; [apply wp_h_ret; by exists w1|]. apply wp_run_cm. eapply wp_mono; [by apply (cm_get sh infos)|].
    intros r w [HC Hr]. exists w. split; [done|]. split; [done|]. destruct r as [k|]; [destruct Hr as [Hr _]; intros j; by rewrite Hr, HR1|].
    intros j. by rewrite Hr, HR1. }
  intros hw h2 (w2 & -> & HC2 & HR2). destruct hw as [k|].
  2:{ apply wp_h_ret. split; [|by exists i]. apply hv_gain; [done|done|]. intros j. rewrite HR2. lia. }
  apply wp_bind. eapply (wp_mono _ (λ _ h', ∃ w, h' = h <| h_cm := w |> ∧ cm_inv w ∧
    ∀ j, refs w j = refs (h_cm h) j + (if j =? k then 1 else 0) - one (opt_is (i_hw i) j))).
  { destruct (i_hw i) as [k0|] eqn:Ek.
    - pose proof (in_refs _ _ _ _ HI Hi Ek) as Hr0. apply wp_run_cm. eapply wp_mono; [eapply (cm_release sh); [..|exact HC2|]; try done|].
      { rewrite HR2. destruct (k0 =? k); lia. }
      intros [] w [HC HR]. exists w. split_and!; [done|done|]. intros j. rewrite HR. simpl. rewrite (HR2 j). unfold opt_is. rewrite (Z.eqb_sym j k0).
      destruct (Z.eqb_spec k0 j) as [->|]; [rewrite bool_decide_true by done|rewrite bool_decide_false by congruence]; unfold one; lia.
    - apply wp_h_ret. exists w2. split_and!; [done|done|]. intros j. rewrite (HR2 j). unfold opt_is. rewrite bool_decide_false by done. unfold one. lia. }
  intros [] h3 (w3 & -> & HC3 & HR3). do 2 hh_step. cbn beta.
  pose proof (hv_switch_in h w3 k p i HI Hi Es HC3 HR3) as HI3. simpl in HI3. simpl.
  match goal with |- wp _ _ ?h4 => set (h4' := h4); assert (is_Some (h_ins h4' !! p)) as Hp4 by (eexists; apply lookup_insert_eq);
    assert (hal_inv h4') as HI4 by exact HI3; clearbody h4'; clear HI3 end.
  apply wp_bind, wp_h_gets. apply wp_bind.
  assert (∀ a, hal_inv (h4' <| h_dev := (h_dev h4') <| active_voice_control := a |> |>)) as Hact.
  { intros a. apply hv_dev'; [done| |apply HI4]. intros j. unfold dev_holds. simpl. lia. }
  eapply (wp_mono _ (λ _ h', hal_inv h' ∧ is_Some (h_ins h' !! p))).
  - destruct vc; [|case_bool_decide; [|by apply wp_h_ret]]; do 2 hh_step; cbn beta.
    + eapply wp_mono; [apply voice_started_wp; apply Hact|]. intros [] h5 (? & _ & Ei & _). split; [done|]. rewrite Ei. exact Hp4.
    + eapply wp_mono; [apply voice_ended_wp; apply Hact|]. intros [] h5 (? & _ & Ei & _). split; [done|]. rewrite Ei. exact Hp4.
  - intros [] h5 [HI5 [i5 Hi5]]. apply wp_bind. eapply upd_in_wp; [done|]. apply wp_h_ret. split; [|eexists; apply lookup_insert_eq].
    apply (hv_in' h5 p i5); [done|done|done|exact (hv_ins _ HI5 _ _ Hi5)|done].
Qed.

Lemma in_set_parameters_wp p kv h : hal_inv h → is_Some (h_ins h !! p) → parses kv → key_ok kv "routing" →
  wp (in_pcm_set_parameters p kv) (λ _ h', hal_inv h') h.
Proof.
  intros HI [i Hi] Hp Hk. unfold in_pcm_set_parameters. apply wp_bind. eapply wp_mono; [by apply routing_param_wp|].
  intros routing h1 [-> Hrt]. unfold str_parms_create_str. do 4 hh_step. cbn beta. apply wp_bind. destruct (Hp (h_events h)) as [get Hg].
  eapply wp_h_lift; [done|]. apply wp_bind. eapply wp_get_in; [done|]. apply wp_bind.
  eapply (wp_mono _ (λ r h', hal_inv h' ∧ is_Some (h_ins h' !! p) ∧ ∀ m, r = Some (Some m) → mask_ok m)).
  - destruct (get "input_source") as [value|].
    2:{ apply wp_h_ret. split; [done|]. split; [by rewrite Hi|]. intros m [= ->]. by apply Hrt. }
    apply wp_bind. eapply (wp_mono _ (λ d h', h' = h ∧ mask_ok d)).
    + destruct routing as [d|]; [apply wp_h_ret; split; [done|by apply Hrt]|]. destruct (i_hw i) as [k|] eqn:Ek; [|apply wp_h_ret; split; [done|apply mask_ok_0]].
      apply wp_run_cm. eapply wp_mono; [apply (cm_routes sh infos); [apply HI|by eapply in_refs]|]. intros r w [-> ?]. split; [by destruct h|done].
    + intros d h1 [-> Hd]. apply wp_bind. eapply wp_mono; [by eapply change_source_wp|]. intros [ret chg] h1 [HI1 Hi1]. apply wp_h_ret.
      split_and!; [done|done|]. intros m. destruct (ret <? 0); [done|]. by intros [= <-].
  - intros r h1 (HI1 & [i1 Hi1] & Hm). destruct r as [r|]; [|by apply wp_h_ret]. apply wp_bind.
    eapply (wp_mono _ (λ _ h', hal_inv h' ∧ is_Some (h_ins h' !! p))).
    + destruct r as [d|]; [|apply wp_h_ret; split; [done|by exists i1]]. apply wp_bind. eapply upd_in_wp; [done|]. apply wp_bind.
      eapply wp_get_in; [apply lookup_insert_eq|]. simpl.
      assert (hal_inv (h1 <| h_ins := <[p := i1 <| i_devices := d |>]> (h_ins h1) |>)) as HI2.
      { apply (hv_in' h1 p i1); [done|done|done|exact (hv_ins _ HI1 _ _ Hi1)|done]. }
      destruct (i_hw i1) as [k|] eqn:Ek; [|apply wp_h_ret; split; [done|eexists; apply lookup_insert_eq]].
      eapply wp_mono; [apply route_wp; [apply HI2|eapply (in_refs _ p); [exact HI2|apply lookup_insert_eq|done]|by apply Hm]|].
      intros [] h3 Hc. split; [by eapply hv_cm_only|]. destruct Hc as (_&_&_&Ei&_). rewrite Ei. eexists. apply lookup_insert_eq.
    + intros [] h3 [HI3 [i3 Hi3]]. apply wp_bind. eapply wp_get_in; [done|]. apply wp_bind. destruct (i_hw i3) as [k|] eqn:Ek.
      * eapply wp_mono; [apply usecases_wp; [apply HI3|by eapply in_refs]|]. intros r2 h4 Hc. apply wp_h_ret. by eapply hv_cm_only.
      * unfold stream_invoke_usecases. hh_steps; by apply hv_event.
Qed.

Lemma hv_close_in h p i w : hal_inv h → h_ins h !! p = Some i → i_dev i = InNull → cm_inv w →
  (∀ j, refs w j = refs (h_cm h) j - one (opt_is (i_hw i) j)) →
  hal_inv (h <| h_cm := w |> <| h_ins := delete p (h_ins h) |>).
Proof.
  intros [I1 I2 I3 I4 I5 I6 I7] Hp Hf HC HR. split; simpl; try done.
  - intros k. specialize (I2 k). unfold holders in *. simpl. rewrite (msum_delete _ (h_ins h) _ _ Hp) in I2. rewrite HR. lia.
  - intros p' o1 Hl. apply lookup_delete_Some in Hl as [_ Hl]. by eapply I4.
  - intros d. rewrite I5. unfold hal_fds. simpl. rewrite (msum_delete _ (h_ins h) _ _ Hp). unfold in_fd at 1. rewrite Hf. lia.
  - intros p' Hp'. destruct (I6 p' Hp') as [Ho Hi]. split; [done|]. apply lookup_delete_None. by right.
Qed.

Lemma close_input_wp p h : hal_inv h → is_Some (h_ins h !! p) → wp (adev_close_input_stream p) (λ _ h', hal_inv h') h.
Proof.
  intros HI [i Hi]. unfold adev_close_input_stream, do_close_in_pcm. apply wp_bind. eapply wp_get_in; [done|]. apply wp_bind.
  eapply (wp_mono _ (λ _ h', h' = h)).
  { destruct (i_hw i) as [k|] eqn:Ek; [|by apply wp_h_ret]. apply wp_bind. eapply wp_mono; [apply info_wp; [apply HI|by eapply in_refs]|].
    intros hi h1 [-> Hhi]. destruct (Forall_ld _ _ _ _ Hinfos Hhi) as [Hnc _]. rewrite Hnc. by apply wp_h_ret. }
  intros [] h1 ->. unfold do_close_in_common. apply wp_bind. eapply wp_mono; [by apply in_standby_wp|].
  intros r h1 (HI1 & _ & i1 & Hi1 & Ehw & Hnull). apply wp_bind, wp_h_gets. apply wp_bind.
  eapply (wp_mono _ (λ _ h', hal_inv h' ∧ h_ins h' = h_ins h1)).
  { apply wp_h_when; intros _; [|done]. do 2 hh_step. cbn beta. eapply wp_mono; [apply voice_ended_wp|].
    - apply hv_dev'; [done| |apply HI1]. intros j. unfold dev_holds. simpl. lia.
    - by intros [] h2 (? & _ & Ei & _). }
  intros [] h2 [HI2 Ei]. rewrite <- Ei in Hi1. apply wp_bind. eapply wp_get_in; [done|]. apply wp_bind. destruct (i_hw i1) as [k|] eqn:Ek.
  - apply wp_run_cm. eapply wp_mono; [eapply (cm_release sh); [..|apply HI2|by eapply in_refs]; done|]. intros [] w [HC HR]. hh_steps.
    eapply (hv_close_in h2 p i1); [done|done|done|done|]. intros j. rewrite HR, Ek. unfold opt_is. rewrite Z.eqb_sym.
    destruct (Z.eqb_spec k j) as [->|]; [by rewrite bool_decide_true|by rewrite bool_decide_false by congruence].
  - apply wp_h_ret. hh_steps. pose proof (hv_close_in h2 p i1 (h_cm h2) HI2 Hi1 Hnull (hv_cm _ HI2)) as Hx. destruct h2. apply Hx.
    intros j. rewrite Ek. unfold opt_is. rewrite bool_decide_false by done. unfold one. simpl. lia.
Qed.

(** ** The device *)

Lemma set_parameters_wp kv h : hal_inv h → key_ok kv "voice_trigger_mic" → wp (adev_set_parameters kv) (λ _ h', hal_inv h') h.
Proof.
  intros HI Hk. unfold adev_set_parameters, str_parms_create_str. do 4 hh_step. cbn beta. apply wp_bind.
  eapply (wp_mono _ (λ _ h', hal_inv h')).
  - destruct (hl_parms (h_events h) kv) as [get|] eqn:Eg; [|by apply wp_h_ret]. unfold voice_trigger_set_params. apply wp_bind.
    eapply (wp_mono _ (λ _ h', hal_inv h')).
    + destruct (get "voice_trigger_mic") as [v|] eqn:Ev; [|by apply wp_h_ret]. hh_steps. apply hv_dev'; [done| |by eapply Hk].
      intros j. unfold dev_holds. simpl. lia.
    + intros [] h1 HI1. destruct (get "voice_trigger") as [v|]; [|by apply wp_h_ret].
      repeat case_bool_decide; [..|by apply wp_h_ret]; (eapply wp_mono; [first [by apply voice_triggered_wp|by apply voice_enable_wp|by apply voice_disable_wp]|]); by intros [] h2 [? _].
  - intros [] h1 HI1. do 2 hh_step. cbn beta. destruct (global_stream (h_dev h1)) as [k|] eqn:Ek; [|by apply wp_h_ret]. apply wp_bind.
    eapply wp_mono; [apply usecases_wp; [apply HI1|by apply global_refs]|]. intros r h2 Hc. apply wp_h_ret. by eapply hv_cm_only.
Qed.
End Session.
