(* ===== verification/AudioCalls.v ===== *)
(** * Sessions of the audio device

    The calls of the framework on the audio device, any number of them in any
    order, from [adev_open] on, and what holds after every session. *)

From S2P Require Import Prelude Monad Float32 Mixer DynArray Params AudioConfig AudioRoute AudioMachine AudioRouteSpec AudioStreams Pcm PcmSpec AudioOffload AudioHal AudioCapture AudioHalSpec AudioSession.
From Stdlib Require Import Ascii.

#[local] Open Scope string_scope.
#[local] Open Scope list_scope.
#[local] Open Scope Z_scope.

(** ** Calls *)

Inductive hal_call :=
  | HOpenOut (devices : Z) (c : audio_config)
  | HCloseOut (p : Z)
  | HWrite (p : Z) (data : list Z)
  | HStandbyOut (p : Z)
  | HSetOut (p : Z) (kvpairs : string)
  | HVolume (p : Z) (left right : f32)
  | HOpenIn (devices : Z) (c : audio_config)
  | HCloseIn (p : Z)
  | HRead (p bytes : Z)
  | HStandbyIn (p : Z)
  | HSetIn (p : Z) (kvpairs : string)
  | HSetParameters (kvpairs : string)
  | HMicMute (state : bool).

Section Calls.
Context `{!Alsa} `{!AudioH} `{!PcmDev} `{!Compress} `{!AudioFormats} `{!HalLib}.
Variable fuel : nat.

Definition hal_do (c : hal_call) : ST hal () :=
  match c with
  | HOpenOut d c => adev_open_output_stream d c;; mret ()
  | HCloseOut p => adev_close_output_stream p
  | HWrite p data => out_write p data;; mret ()
  | HStandbyOut p => out_standby p;; mret ()
  | HSetOut p kv => out_parameters p kv;; mret ()
  | HVolume p l r => out_set_volume p l r;; mret ()
  | HOpenIn d c => adev_open_input_stream d c;; mret ()
  | HCloseIn p => adev_close_input_stream p
  | HRead p n => in_pcm_read fuel p n;; mret ()
  | HStandbyIn p => in_pcm_standby p;; mret ()
  | HSetIn p kv => in_pcm_set_parameters p kv;; mret ()
  | HSetParameters kv => adev_set_parameters kv;; mret ()
  | HMicMute b => adev_set_mic_mute b;; mret ()
  end.
End Calls.

Section Sessions.
Context `{H : AudioH, !AudioHOk H} `{A : Alsa, !AlsaOk A} `{D : PcmDev, !PcmDevOk D} `{!Compress} `{!AudioFormats} `{!HalLib}.
Variable sh : list (Z * list Z).
Hypothesis Hsh : layout_wf sh.
Variable infos : list hw_stream.
Variables (fuel K : nat).
Hypothesis Hinfos : Forall good_info infos.
Hypothesis Hrec : recovers K.
Hypothesis Hfuel : (K < fuel)%nat.
Hypothesis Hmic : mask_ok sh IN_BUILTIN_MIC.

Abbreviation hal_inv := (hal_inv sh infos).
Abbreviation cm_streams h := (elems (stream_array (aobj (h_cm h)))).

(** What the framework keeps to: it uses streams it has opened; routes name
    devices of one direction; its parameters can be parsed; inputs are read at
    the rate of their device; a transfer is of a size the library takes, and
    the count of underruns has room. *)
Definition hal_ok (h : hal) (c : hal_call) : Prop :=
  match c with
  | HOpenOut d c => mask_ok sh (Z.land d OUT_ALL) ∧ conf_ok c
  | HCloseOut p | HStandbyOut p => is_Some (h_outs h !! p)
  | HWrite p data => ∃ o, h_outs h !! p = Some o ∧ out_underruns o < INT_MAX ∧ blen data <= TINYALSA_FRAMES_MAX
  | HSetOut p kv => is_Some (h_outs h !! p) ∧ parses kv ∧ key_ok sh kv "routing"
  | HVolume p l r => ∃ o s pl pr, h_outs h !! p = Some o ∧ ld (cm_streams h) (o_hw o) = Some s ∧
      volume_to_percent l = Some pl ∧ volume_to_percent r = Some pr ∧ 0 <= pl <= 100 ∧ 0 <= pr <= 100 ∧
      short_vol (cm_mixer (aobj (h_cm h))) (volume_left s) ∧ short_vol (cm_mixer (aobj (h_cm h))) (volume_right s)
  | HOpenIn d c => in_conf_ok c
  | HCloseIn p | HStandbyIn p => is_Some (h_ins h !! p)
  | HRead p n => ∃ i, h_ins h !! p = Some i ∧ same_rate infos i ∧ in_underruns i + Z.of_nat K <= INT_MAX ∧ 0 <= n <= TINYALSA_FRAMES_MAX
  | HSetIn p kv => is_Some (h_ins h !! p) ∧ parses kv ∧ key_ok sh kv "routing"
  | HSetParameters kv => key_ok sh kv "voice_trigger_mic"
  | HMicMute _ => True
  end.

Lemma volume_wp p l r h : hal_inv h → hal_ok h (HVolume p l r) → wp (out_set_volume p l r) (λ _ h', hal_inv h') h.
Proof.
  intros HI (o & s & pl & pr & Ho & Hs & El & Er & Hl & Hr & Hvl & Hvr). unfold out_set_volume. apply wp_bind. eapply wp_h_lift; [done|].
  apply wp_bind. eapply wp_h_lift; [done|]. apply wp_bind. eapply wp_get_out; [done|]. apply wp_run_cm.
  eapply wp_mono; [eapply (set_hw_volume_wp sh); [apply HI|done..]|]. intros ret w (HI' & Es & _).
  destruct (same_streams sh infos (h_cm h) w (hv_cm _ _ _ HI) HI' Es) as [HC HR].
  apply (hv_gain sh infos); [done|done|]. intros j. rewrite HR. lia.
Qed.

Lemma hal_do_wp c h : hal_inv h → hal_ok h c → wp (hal_do fuel c) (λ _ h', hal_inv h') h.
Proof.
  intros HI Hc. destruct c; simpl in *; repeat match goal with Hx : _ ∧ _ |- _ => destruct Hx | Hx : ∃ _, _ |- _ => destruct Hx end.
  - apply wp_bind. eapply wp_mono; [by apply (open_output_wp sh Hsh infos Hinfos)|]. by intros r h' [? _].
  - by apply (close_output_wp sh Hsh).
  - apply wp_bind. eapply wp_mono; [by eapply (out_write_wp sh infos Hinfos)|]. by intros r h' ?.
  - match goal with Hx : is_Some _ |- _ => destruct Hx as [o Ho] end. apply wp_bind.
    destruct (hv_outs _ _ _ HI _ _ Ho) as [_ Hk]. unfold out_standby, out_pcm_standby. apply wp_bind. eapply wp_get_out; [done|].
    destruct (o_kind o); [|done]. apply wp_bind. eapply wp_mono; [by eapply (out_standby_wp sh infos)|]. by intros [] h' [? _].
  - apply wp_bind. eapply wp_mono; [by apply (out_parameters_wp sh Hsh infos)|]. by intros r h' [? _].
  - apply wp_bind. eapply wp_mono; [apply volume_wp; [done|]|by intros r h' ?]. simpl. naive_solver.
  - apply wp_bind. eapply wp_mono; [by apply (open_input_wp sh infos)|]. by intros r h' [? _].
  - by apply (close_input_wp sh Hsh).
  - edestruct (in_pcm_read_wp sh infos Hinfos fuel K Hrec Hfuel) as (r & h1 & _ & _ & _ & Hw); [done..|].
    apply wp_bind. eapply wp_mono; [exact Hw|]. by intros r' h' [? _].
  - match goal with Hx : is_Some _ |- _ => destruct Hx as [i Hi] end. apply wp_bind.
    eapply wp_mono; [by eapply (in_standby_wp sh infos Hinfos)|]. by intros r h' [? _].
  - apply wp_bind. eapply wp_mono; [by apply (in_set_parameters_wp sh Hsh infos)|]. by intros r h' ?.
  - apply wp_bind. eapply wp_mono; [by apply (set_parameters_wp sh Hsh infos)|]. by intros r h' ?.
  - apply wp_bind. unfold adev_set_mic_mute. hh_steps. apply (hv_dev' sh infos); [done| |apply HI]. intros k. done.
Qed.

(** ** Opening the device *)

Lemma new_hal_inv w : loaded sh w → s_info <$> elems (stream_array (aobj w)) = infos → hal_inv (new_hal w).
Proof.
  intros Hl Hi. pose proof (lo_streams _ _ Hl) as Hs. split; simpl; try done.
  - split; [by apply loaded_inv| |done]. eapply Forall_impl; [exact Hs|]. intros s (_ & E & _). rewrite E. apply mask_ok_0.
  - intros k. unfold holders, dev_holds, refs. simpl. rewrite !msum_empty. destruct (ld _ k) as [s|] eqn:E; [|done].
    destruct (Forall_ld _ _ _ _ Hs E) as [Er _]. simpl in *. by rewrite Er.
  - apply mask_ok_0.
Qed.

Lemma open_wp w : loaded sh w → s_info <$> elems (stream_array (aobj w)) = infos → wp adev_open_body (λ r h, r = 0 ∧ hal_inv h) (new_hal w).
Proof.
  intros Hl Hi. pose proof (new_hal_inv w Hl Hi) as HI. unfold adev_open_body. apply wp_bind, wp_run_cm.
  eapply wp_mono; [apply (cm_named sh infos), HI|]. intros g w1 [HC Hg]. do 2 hh_step. cbn beta. apply wp_bind.
  match goal with |- wp _ _ ?h1 => assert (hal_inv h1 ∧ voice_st (h_dev h1) = eVoiceNone) as [HI1 Hv]; [|revert HI1 Hv; generalize h1] end.
  - split; [|done]. simpl. apply (hv_dev sh infos (new_hal w)); [done|done| |apply mask_ok_0]. intros k. unfold dev_holds. simpl.
    destruct g as [k0|]; [rewrite Hg|rewrite Hg; simpl; lia]. unfold opt_is. rewrite Z.eqb_sym.
    destruct (Z.eqb_spec k0 k) as [->|]; [rewrite bool_decide_true by done|rewrite bool_decide_false by congruence]; simpl; lia.
  - intros h1 HI1 Hv. unfold voice_trigger_init, is_named_stream_defined.
    assert (∀ s, armed s = false → hal_inv (h1 <| h_dev := (h_dev h1) <| voice_st := s |> |>)) as Hidle.
    { intros s Hs. apply (hv_dev' sh infos); [done| |apply HI1]. intros k. unfold dev_holds. simpl. rewrite Hs, Hv. done. }
    apply wp_bind, wp_run_cm. apply wp_bind. apply wp_gets'. apply wp_ret'. replace (h1 <| h_cm := h_cm h1 |>) with h1 by (by destruct h1).
    case_bool_decide; [hh_steps; split; [done|by apply Hidle]|].
    apply wp_bind, wp_run_cm. apply wp_bind. apply wp_gets'. apply wp_ret'. replace (h1 <| h_cm := h_cm h1 |>) with h1 by (by destruct h1).
    hh_steps. split; [done|]. apply Hidle. by case_bool_decide.
Qed.

(** ** Sessions *)

Inductive hal_calls : hal → list hal_call → hal → Prop :=
  | hal_calls_nil h : hal_calls h [] h
  | hal_calls_cons h c h1 cs h2 : hal_ok h c → hal_do fuel c h = Some ((), h1) → hal_calls h1 cs h2 → hal_calls h (c :: cs) h2.

(** The device is opened on a loaded configuration and used. *)
Definition session (w0 : aworld config_mgr) (cs : list hal_call) (h : hal) : Prop :=
  ∃ h0, adev_open_body (new_hal w0) = Some (0, h0) ∧ hal_calls h0 cs h.

Lemma hal_calls_inv h cs h' : hal_calls h cs h' → hal_inv h → hal_inv h'.
Proof.
  induction 1 as [|h c h1 cs h2 Hc E _ IH]; [done|]. intros HI. apply IH. pose proof (hal_do_wp c h HI Hc) as Hwp.
  unfold wp in Hwp. by rewrite E in Hwp.
Qed.

Lemma session_inv w0 cs h : loaded sh w0 → s_info <$> elems (stream_array (aobj w0)) = infos → session w0 cs h → hal_inv h.
Proof.
  intros Hl Hi (h0 & E & Hc). eapply hal_calls_inv; [done|]. pose proof (open_wp w0 Hl Hi) as Hwp. unfold wp in Hwp. rewrite E in Hwp. apply Hwp.
Qed.


(** C16: reading an input stream in a session never fails.  Let [r] be the
    status and the data of the device (an error when the stream has no route,
    the device cannot be opened or the transfer fails; otherwise the number of
    bytes asked for and what the PCM library read).  The call gives back the
    number of bytes asked for, in every case; what it delivers is the device's
    data, and silence (zeroes) in its place when the device failed or the
    microphone is muted.  Conditions, beyond those of a session ([layout_wf],
    [good_info], [recovers K]): the stream is read at the rate of its device
    ([same_rate]), and the size of the transfer and the count of overruns fit
    the library's integers. *)
Theorem capture_always_delivers w0 cs h p bytes : loaded sh w0 → s_info <$> elems (stream_array (aobj w0)) = infos →
  session w0 cs h → hal_ok h (HRead p bytes) →
  ∃ r h1, device_read fuel p bytes h = Some (r, h1) ∧ (r.1 = bytes ∨ r.1 < 0) ∧ (∃ l, r.2 = DData l) ∧
    wp (in_pcm_read fuel p bytes)
      (λ r' _, r' = (bytes, if (r.1 <=? 0) || mic_mute (h_dev h) then DSilence bytes else r.2)) h.
Proof.
  intros Hl Hi Hs (i & Hp & Hr & Hu & Hn). pose proof (session_inv w0 cs h Hl Hi Hs) as HI.
  destruct (in_pcm_read_wp sh infos Hinfos fuel K Hrec Hfuel p i bytes h) as (r & h1 & E & Hret & Hd & Hw); [done..|].
  exists r, h1. split_and!; [done..|]. eapply wp_mono; [exact Hw|]. by intros r' h' [_ ->].
Qed.

(** The references of the voice trigger: a change of its state by the
    framework leaves the users that are not the device's own as they were,
    whatever the state, unless the trigger has fired and is enabled again. *)
Theorem voice_trigger_balanced w0 cs h get : loaded sh w0 → s_info <$> elems (stream_array (aobj w0)) = infos → session w0 cs h →
  (∀ v, get "voice_trigger_mic" = Some v → mask_ok sh (u32 (atoi v))) → voice_st (h_dev h) ≠ eVoiceTriggerFired →
  wp (voice_trigger_set_params get) (λ _ h', h_outs h' = h_outs h ∧ h_ins h' = h_ins h ∧ ∀ k, slack h' k = slack h k) h.
Proof.
  intros Hl Hi Hs Hm Hv. pose proof (session_inv w0 cs h Hl Hi Hs) as HI. unfold voice_trigger_set_params. apply wp_bind.
  eapply (wp_mono _ (λ _ h', hal_inv h' ∧ h_outs h' = h_outs h ∧ h_ins h' = h_ins h ∧ voice_st (h_dev h') = voice_st (h_dev h) ∧
    ∀ k, slack h' k = slack h k)).
  - destruct (get "voice_trigger_mic") as [v|] eqn:Ev; [|by apply wp_h_ret]. hh_steps. split_and!; [|done..].
    apply (hv_dev' sh infos); [done|done|by apply Hm].
  - intros [] h1 (HI1 & Eo & Ei & Es & Hsl). destruct (get "voice_trigger") as [v|]; [|by apply wp_h_ret].
    rewrite <- Es in Hv. assert (∀ h', (voice_st (h_dev h1) ≠ eVoiceTriggerFired → ∀ k, slack h' k = slack h1 k) → ∀ k, slack h' k = slack h k) as Ht.
    { intros h' Hx k. rewrite (Hx Hv). apply Hsl. }
    repeat case_bool_decide; [..|by apply wp_h_ret];
      (eapply wp_mono; [first [by apply (voice_triggered_wp sh infos)|by apply (voice_enable_wp sh Hsh infos)|by apply (voice_disable_wp sh Hsh infos)]|]);
      intros [] h2 (_ & Eo2 & Ei2 & Hx); (split_and!; [congruence|congruence|by apply Ht]).
Qed.
End Sessions.
