(* ===== verification/AudioHalDemo.v ===== *)
(** * The audio device and the PCM library on concrete hardware

    A driver that accepts every call, a configuration with an output, an input
    and a named stream for the voice trigger, and sessions on them: the
    theorems of [PcmSpec] and [AudioCalls] apply, and a reference is lost when
    the voice trigger is enabled again after it has fired. *)

From S2P Require Import Prelude Monad Float32 Mixer DynArray Params AudioConfig AudioRoute AudioMachine AudioRouteSpec AudioStreams AudioDemo Pcm PcmSpec PcmMmap PcmMmapSpec AudioOffload AudioOffloadSpec AudioHal AudioCapture AudioHalSpec AudioSession AudioCalls.
From Stdlib Require Import Ascii Floats.SpecFloat.

#[local] Open Scope string_scope.
#[local] Open Scope list_scope.
#[local] Open Scope Z_scope.

#[local] Existing Instances android android_ok demo_card demo_card_ok demo_compress demo_formats.

(** ** The driver *)

Definition demo_areas : areas := mkAreas 0 0 (0, 0) 0 0.

(** Descriptors are not used twice; the second read overruns. *)
Definition demo_driver : PcmDev := {|
  pd_calloc := λ _, true; pd_open := λ h _ _ _, inr (blen h); pd_info := λ _ _, (0, 0);
  pd_hw_params := λ _ _ p, (0, p); pd_hw_refine := λ _ _ p, (0, p); pd_sw_params := λ _ _ _, 0;
  pd_map := λ _ _ _ _, ENODEV; pd_areas := λ _ _, demo_areas; pd_sync := λ _ _ _ a, (0, a);
  pd_ttstamp := λ _ _, 0; pd_prepare := λ _ _, 0; pd_start := λ _ _, 0; pd_drop := λ _ _, 0;
  pd_writei := λ _ _ _ n, (0, Z.max 0 n);
  pd_readi := λ h _ n, if (overruns h =? 0)%nat then (EPIPE, 0, []) else (0, 0, replicate (Z.to_nat (4 * n)) 1);
  pd_copy_in := λ _ _ _ _, []; pd_poll := λ _ _ _, (0, (1, 5)); pd_link := λ _ _ _, 0; pd_unlink := λ _ _, 0; pd_delay := λ _ _, (0, 0) |}.
#[local] Existing Instance demo_driver.

#[local] Instance demo_driver_ok : PcmDevOk demo_driver.
Proof.
  split; simpl; try done.
  - intros h _ _ _ n [= <-]. apply blen_nonneg.
  - intros. lia.
  - intros h _ n. by destruct (overruns h =? 0)%nat.
Qed.

Lemma demo_recovers : recovers 1.
Proof. intros h d n. simpl. destruct (Nat.eqb_spec (overruns h) 0); simpl; [lia|done]. Qed.

(** A device that was just configured. *)
Definition demo_pcm (fl : Z) : pcm := mkPcm 4 fl false false 0 1024 1024 (mkPcmCfg 2 48000 256 4 PCM_FORMAT_S16_LE 0 0 0) MNone None 0 0 0.

Lemma pcm_writei_result_witness : ∃ w, pcm_writei 2 [0; 0; 0; 0] 1 (PWorld (demo_pcm PCM_OUT) 0 []) = Some (0, w) ∧
  write_post [0; 0; 0; 0] 1 2 0 (PWorld (demo_pcm PCM_OUT) 0 []) w.
Proof.
  eexists. split; [vm_compute; reflexivity|].
  assert (wp (pcm_writei 2 [0; 0; 0; 0] 1) (λ r w', write_post [0; 0; 0; 0] 1 2 r (PWorld (demo_pcm PCM_OUT) 0 []) w') (PWorld (demo_pcm PCM_OUT) 0 [])) as Hw.
  { apply pcm_writei_result; [lia|done|done|done|done]. }
  exact Hw.
Defined.

Lemma pcm_readi_result_witness : ∃ d w, pcm_readi 2 1 (PWorld (demo_pcm PCM_IN) 0 []) = Some ((0, d), w) ∧
  read_post 1 0 (PWorld (demo_pcm PCM_IN) 0 []) w.
Proof.
  eexists _, _. split; [vm_compute; reflexivity|].
  assert (wp (pcm_readi 2 1) (λ r w', read_post 1 r.1 (PWorld (demo_pcm PCM_IN) 0 []) w') (PWorld (demo_pcm PCM_IN) 0 [])) as Hw.
  { apply (pcm_readi_result 1); [exact demo_recovers|lia|done|done|done|done|done]. }
  exact Hw.
Defined.

(** Two frames around the end of a ring of four. *)
Definition wrapping : areas := mkAreas 3 5 (0, 0) 7 1.

Lemma ring_transfer_witness : ∃ w', pcm_mmap_transfer_areas 2 [1; 2; 3; 4; 5; 6; 7; 8] 0 2 (PWorld (ring_pcm wrapping) 0 []) =
    Some ((2, [1; 2; 3; 4; 5; 6; 7; 8]), w') ∧
  image (pcalls w') 4 13 = Some 2 ∧ image (pcalls w') 4 0 = Some 5.
Proof.
  assert (ring_driver 4 16) as Hd by (intros h d fl a [Hh _ _] _; split; [done|]; split; [done|]; split; [exact Hh|lia]).
  assert (ring_dev 4 16 4 (ring_pcm wrapping)) as Hr by (by split).
  assert (ptrs_ok 4 16 wrapping) as Hp by (by split).
  assert (wp (pcm_mmap_transfer_areas 2 [1; 2; 3; 4; 5; 6; 7; 8] 0 2)
    (λ r w', r = (2, [1; 2; 3; 4; 5; 6; 7; 8]) ∧ transferred 4 16 4 wrapping [1; 2; 3; 4; 5; 6; 7; 8] 0 2 (PWorld (ring_pcm wrapping) 0 []) w')
    (PWorld (ring_pcm wrapping) 0 [])) as Hw.
  { refine (proj1 (ring_transfer 4 16 demo_geometry Hd 4 _ 0 2 (PWorld (ring_pcm wrapping) 0 []) Hr _ _ _) wrapping eq_refl Hp _);
      vm_compute; repeat split; discriminate. }
  apply wp_run in Hw as (r & w' & E & -> & [_ _ Hi]). exists w'. split; [exact E|].
  split; [exact (Hi 13 ltac:(lia))|exact (Hi 0 ltac:(lia))].
Defined.

(** ** The platform and the configuration *)

(** Parameters are pairs of a key and a value. *)
Definition demo_parms (kv : string) : option (string → option string) :=
  Some (λ key, List.find (λ p, bool_decide (p.1 = key)) (omap (λ s, split_eq s "") (strtok_on ";" kv "")) ≫= λ p, Some p.2).

(** The logarithm where the sessions use it: ln 1 = 0 and ln 0.001. *)
Definition demo_log (x : spec_float) : spec_float :=
  if SFeqb x (d_of_Z 1) then d_of_Z 0 else SFdiv 53 1024 (d_of_Z (-6907755)) (d_of_Z 1000000).

Definition demo_lib : HalLib := {|
  hl_alloc := λ _, true; hl_time := λ h, 1000000 * (1 + blen h); hl_parms := λ _, demo_parms; hl_log := demo_log;
  hl_out_frame_size := λ _ _, 4; hl_in_frame_size := λ _ _, 4; hl_bytes_per_sample := λ _, 2;
  hl_create_resampler := λ _ _ _ _, 0; hl_resample := λ _ _, RDone [] |}.
#[local] Existing Instance demo_lib.

Definition voice_stream : stream := (pcm_stream e_stream_in_hw (-1) (-1)) <| s_name := Some kVoiceTriggerStreamName |>.
Definition voice_world : aworld config_mgr := demo_cm [switched 0x2; switched 0x80000004]
  [pcm_stream e_stream_out_pcm 2 (-1); pcm_stream e_stream_in_pcm (-1) (-1); voice_stream].
Definition voice_infos : list hw_stream := s_info <$> elems (stream_array (aobj voice_world)).

Lemma voice_loaded : loaded demo_layout voice_world.
Proof.
  assert (∀ v, ctl_ok (Some demo_mixer) (demo_ctl v)) as Hc by (intros v; split; [done|]; simpl; eauto).
  split; [|done|by repeat constructor|done|by vm_compute|].
  - split.
    + split; [done|]. simpl. intros i c Hl. ld_cases. done.
    + repeat (constructor; try apply Hc).
    + repeat constructor.
  - repeat constructor; by vm_compute.
Qed.

Lemma voice_good : Forall good_info voice_infos.
Proof. repeat constructor; by vm_compute. Qed.

Lemma demo_mask (m : Z) : m = 0x2 ∨ m = 0x80000004 → mask_ok demo_layout m.
Proof. intros [-> | ->]; right; intros j t ids Hl Ht Hb; unfold demo_layout in Hl; ld_cases; done. Qed.

Definition demo_conf : audio_config := mkConf 48000 3 1.
Definition demo_source : string := "input_source=1;routing=-2147483644".
Definition demo_session : list hal_call :=
  [HOpenOut 0x2 demo_conf; HWrite 1 [0; 0; 0; 0]; HOpenIn 0x80000004 demo_conf; HSetIn 2 demo_source; HRead 2 4;
   HMicMute true; HSetParameters "voice_trigger=1"; HSetParameters "voice_trigger=2"; HSetParameters "voice_trigger=0";
   HVolume 1 (f_of_Z 1) (f_of_Z 0); HStandbyOut 1; HWrite 1 [0; 0; 0; 0]; HCloseOut 1].

Fixpoint run_hal (cs : list hal_call) (h : hal) : option hal :=
  match cs with [] => Some h | c :: cs' => r ← hal_do 2 c h; run_hal cs' r.2 end.
Definition run_session (cs : list hal_call) : option hal := r ← adev_open_body (new_hal voice_world); run_hal cs r.2.
Definition counts (h : hal) := ((λ k, (holders h k, refs (h_cm h) k)) <$> [0; 1; 2], fds (pcalls (h_pcm h)) <$> seqZ 0 20).

(** ** A session *)

Lemma demo_key kv key : (∀ v, (demo_parms kv ≫= λ get, get key) = Some v → u32 (atoi v) = 0x2 ∨ u32 (atoi v) = 0x80000004) → key_ok demo_layout kv key.
Proof. intros Hk ev get v Hg Hv. apply demo_mask, Hk. simpl in Hg. rewrite Hg. exact Hv. Qed.

Ltac same_demo := intros ? ? [= <-] [= <-]; reflexivity.
Ltac hal_step := eapply hal_calls_cons; [simpl|vm_compute; reflexivity|].
Ltac key_none := apply demo_key; intros v Hv; vm_compute in Hv; discriminate Hv.

Definition demo_runs (cs : list hal_call) : Prop := ∃ h, run_session cs = Some h ∧ session demo_layout voice_infos 2 1 voice_world cs h.

Lemma demo_session_runs : demo_runs demo_session.
Proof.
  eexists. split; [vm_compute; reflexivity|]. eexists. split; [vm_compute; reflexivity|].
  hal_step. { split; [apply demo_mask; by left|done]. }
  hal_step. { eexists. split; [reflexivity|done]. }
  hal_step. { split; [done|]. done. }
  hal_step. { split; [by eexists|]. split; [by eexists|]. apply demo_key. intros v Hv. vm_compute in Hv. injection Hv as <-. by right. }
  hal_step. { eexists. split; [reflexivity|]. split; [same_demo|done]. }
  hal_step. { done. }
  hal_step. { key_none. }
  hal_step. { key_none. }
  hal_step. { key_none. }
  hal_step. { eexists _, _, 100, 0. do 2 (split; [reflexivity|]). do 2 (split; [by vm_compute|]). split; [done|]. split; [done|]. by split. }
  hal_step. { by eexists. }
  hal_step. { eexists. split; [reflexivity|done]. }
  hal_step. { by eexists. }
  apply hal_calls_nil.
Qed.


Lemma capture_always_delivers_witness : ∃ h, session demo_layout voice_infos 2 1 voice_world demo_session h ∧
  mic_mute (h_dev h) = true ∧ wp (in_pcm_read 2 2 8) (λ r _, r = (8, DSilence 8)) h.
Proof.
  destruct demo_session_runs as (h & Er & Hs). exists h. split; [exact Hs|].
  assert (mic_mute (h_dev h) = true ∧ hal_ok demo_layout voice_infos 1 h (HRead 2 8)) as [Em Hok].
  { vm_compute in Er. injection Er as <-. split; [done|]. eexists. split; [reflexivity|]. split; [same_demo|done]. }
  split; [exact Em|].
  destruct (capture_always_delivers demo_layout demo_layout_wf voice_infos 2 1 voice_good demo_recovers ltac:(lia) (demo_mask _ (or_intror eq_refl))
      voice_world demo_session h 2 8 voice_loaded eq_refl Hs Hok) as (r & h1 & _ & _ & _ & Hw).
  eapply wp_mono; [exact Hw|]. intros r' h' ->. by rewrite Em, orb_true_r.
Defined.

Lemma voice_trigger_balanced_witness : ∃ h, session demo_layout voice_infos 2 1 voice_world demo_session h ∧
  wp (voice_trigger_set_params (λ key, if bool_decide (key = "voice_trigger") then Some "1" else None)) (λ _ h', slack h' 2 = slack h 2) h.
Proof.
  destruct demo_session_runs as (h & Er & Hs). exists h. split; [exact Hs|].
  assert (voice_st (h_dev h) ≠ eVoiceTriggerFired) as Hv by (vm_compute in Er; injection Er as <-; done).
  eapply wp_mono.
  - refine (voice_trigger_balanced demo_layout demo_layout_wf voice_infos 2 1 voice_good demo_recovers ltac:(lia) (demo_mask _ (or_intror eq_refl))
      voice_world demo_session h _ voice_loaded eq_refl Hs _ Hv). done.
  - intros [] h' (_ & _ & Hk). exact (Hk 2).
Defined.

(** ** A lost reference *)

(** The voice trigger is enabled, fires, is enabled again and disabled: it
    opened its stream twice and released it once, so the stream keeps a user
    although nothing holds it. *)
Theorem voice_trigger_leaks :
  (λ h, (voice_st (h_dev h), holders h 2, refs (h_cm h) 2)) <$>
    run_session (HSetParameters <$> ["voice_trigger=1"; "voice_trigger=2"; "voice_trigger=1"; "voice_trigger=0"]) =
  Some (eVoiceTriggerIdle, 0, 1).
Proof. vm_compute. reflexivity. Qed.

(** ** Volumes *)

(** The percentage of a volume: silence is 0 and full volume 100, but a
    volume below the range of -58 dB the conversion assumes, 0.001 (-60 dB),
    becomes a negative one, which the volume control takes for a large
    unsigned number. *)
Theorem quiet_volume_wraps : volume_to_percent (f_of_Z 0) = Some 0 ∧ volume_to_percent (f_of_Z 1) = Some 100 ∧
  volume_to_percent (f_lit 1 1000) = Some (-3) ∧ u32 (-3) = 4294967293.
Proof. repeat split; vm_compute; reflexivity. Qed.
