(* ===== verification/AudioParse.v ===== *)
(** * Loading the audio configuration (configmgr/audio_config.c)

    The parser of the configuration file: the tables of elements and
    attributes, the handlers, and the driver that follows the events of the
    XML parser.  expat, the files and the system property are parameters.
    Pointers to the objects under construction are their positions. *)

From S2P Require Import Prelude Monad Mixer DynArray Params AudioConfig.
From Stdlib Require Import Ascii.

#[local] Open Scope string_scope.
#[local] Open Scope list_scope.
#[local] Open Scope Z_scope.

(** ** Indices *)

Definition e_elem_ctl := 0.
Definition e_elem_path := 1.
Definition e_elem_device := 2.
Definition e_elem_stream := 3.
Definition e_elem_enable := 4.
Definition e_elem_disable := 5.
Definition e_elem_case := 6.
Definition e_elem_usecase := 7.
Definition e_elem_stream_ctl := 8.
Definition e_elem_init := 9.
Definition e_elem_mixer := 10.
Definition e_elem_audiohal := 11.
Definition e_elem_codec_probe := 12.
Definition e_elem_codec_case := 13.
Definition e_elem_count := 14.

Definition e_attrib_name := 0.
Definition e_attrib_val := 1.
Definition e_attrib_path := 2.
Definition e_attrib_function := 3.
Definition e_attrib_type := 4.
Definition e_attrib_index := 5.
Definition e_attrib_dir := 6.
Definition e_attrib_card := 7.
Definition e_attrib_device := 8.
Definition e_attrib_instances := 9.
Definition e_attrib_rate := 10.
Definition e_attrib_period_size := 11.
Definition e_attrib_period_count := 12.
Definition e_attrib_min := 13.
Definition e_attrib_max := 14.
Definition e_attrib_file := 15.
Definition e_attrib_count := 16.

Definition attrib_table : list string :=
  ["name"; "val"; "path"; "function"; "type"; "index"; "dir"; "card"; "device"; "instances"; "rate";
   "period_size"; "period_count"; "min"; "max"; "file"].

Definition predefined_path_name_table : list string := ["off"; "on"].

Definition MAX_PARSE_DEPTH : Z := 6.
Definition MIXER_CARD_DEFAULT : Z := 0.
Definition PCM_CARD_DEFAULT : Z := 0.
Definition PCM_DEVICE_DEFAULT : Z := 0.
Definition COMPRESS_CARD_DEFAULT : Z := 0.
Definition COMPRESS_DEVICE_DEFAULT : Z := 0.
Definition EIO : Z := 5.

(** [BIT (x) | BIT (y) | ...] *)
Definition BITS (l : list Z) : Z := foldr (λ x m, Z.lor (Z.shiftl 1 x) m) 0 l.
Definition has_bit (i m : Z) : bool := negb (Z.land (Z.shiftl 1 i) m =? 0).

(** ** State *)

Record codec_case := mkCodec { codec_name : option string; cc_file : option string }.

Record codec_probe := mkProbe { probe_file : option string; new_xml_file : option string; codec_case_array : arr codec_case }.
#[export] Instance codec_probe_eta : Eta codec_probe := λ p, mkProbe (probe_file p) (new_xml_file p) (codec_case_array p).

(** A path under construction: that of <init>, or path [j] of device [i]. *)
Inductive path_ref := PInit | PDev (i j : Z).

Record current := mkCurrent {
  cur_device : option Z; cur_stream : option Z; cur_path : option path_ref;
  cur_usecase : option (Z * Z); cur_case : option (Z * Z * Z); cur_probe : bool }.
#[export] Instance current_eta : Eta current := λ c, mkCurrent
  (cur_device c) (cur_stream c) (cur_path c) (cur_usecase c) (cur_case c) (cur_probe c).

Record parse_state := mkPS {
  ps_cm : config_mgr; cur_xml_file : option string;
  parse_error : Z;
  attr_value : list (option string);
  cur : current;
  path_name_array : arr string;
  init_path : path;
  init_probe : codec_probe;
  stack_index : Z; stack_entry : list (Z * Z);      (* elem_index, valid_subelem *)
  stopped : option bool }.                          (* XML_StopParser was called; whether resumable *)
#[export] Instance parse_state_eta : Eta parse_state := λ s, mkPS
  (ps_cm s) (cur_xml_file s) (parse_error s) (attr_value s) (cur s) (path_name_array s) (init_path s) (init_probe s)
  (stack_index s) (stack_entry s) (stopped s).

Inductive xml_event := XStart (name : string) (attribs : list (string * string)) | XEnd (name : string).

(** The environment of the parser. *)
Class Files := {
  read_xml : string → option (list xml_event * Z);  (* by path: [None] not there; the events, and 0 or the error that ends them *)
  probe_line : string → option string;              (* what [fgets] reads from the start of the file; the wait for it to appear is over *)
  ro_product_device : string;
  uninit : Z }.                                     (* an uninitialised variable *)

(** Element [i] of an array, replaced. *)
Definition alter_elem {A} (i : Z) (f : A → option A) (a : arr A) : option (arr A) :=
  x ← ld (elems a) i; y ← f x; set_elem a i y.

Section Parse.
Context `{!Alsa} `{!AudioH} `{!Files}.

Abbreviation PM := (ST (aworld parse_state)).

Definition getP : PM parse_state := gets aobj.
Definition updP (f : parse_state → parse_state) : PM () := modify (λ w, AWorld (f (aobj w)) (acalls w)).
Definition updCur (f : current → current) : PM () := updP (λ s, s <| cur := f (cur s) |>).
Definition updCM (f : config_mgr → option config_mgr) : PM () :=
  s ← getP; cm ← lift (f (ps_cm s)); updP (λ s, s <| ps_cm := cm |>).

(** Some operations are those of the configuration manager. *)
Definition on_cm {A} (m : ST (aworld config_mgr) A) : PM A := λ w,
  match m (AWorld (ps_cm (aobj w)) (acalls w)) with
  | Some (a, w') => Some (a, AWorld ((aobj w) <| ps_cm := aobj w' |>) (acalls w'))
  | None => None
  end.

Definition attr (i : Z) : PM (option string) := s ← getP; lift (ld (attr_value s) i).
(** Of a required attribute. *)
Definition attr_req (i : Z) : PM string := v ← attr i; lift v.

Definition strdup (s : string) : PM (option string) := ok ← malloc; mret (if ok : bool then Some s else None).

(** ** Building arrays *)

(** Append a fresh element. *)
Definition extend {A} (x : A) (a : arr A) : PM (option (arr A)) :=
  if full a then
    if cap a >? 0xFFFF - DYN_ARRAY_GRANULE then mret None else ok ← malloc; mret (arr_extend ok x a)
  else mret (arr_extend true x a).

Definition fix_ {A} (a : arr A) : PM (arr A) := ok ← malloc; mret (arr_fix ok a).

Definition new_ctl (name : string) : ctl := mkCtlCfg UINT_MAX name INVALID_CTL_INDEX 0 MIXER_CTL_TYPE_UNKNOWN (VUint 0).
Definition new_path (id : Z) : path := mkPath id arr_new.
Definition new_case (name : string) : scase := mkCase name arr_new.
Definition new_usecase (name : string) : usecase := mkUsecase name arr_new.
Definition new_device (type : Z) : device := mkDevice type 0 arr_new.
Definition new_stream : stream :=
  mkStream (mkHw e_stream_out_pcm 0 0 0 0 0) None 0 0 (-1) (-1) 0 (mkSC UINT_MAX 0 0 0) (mkSC UINT_MAX 0 0 0) arr_new.
Definition new_config_mgr : config_mgr := mkCM None 0 0 arr_new arr_new.

(** ** Numbers in attributes *)

Definition attrib_to_uint (i : Z) : PM (Z * option Z) := v ← attr i; mret (string_to_uint v).

(** ** Names of paths *)

(** The last position with the name. *)
Fixpoint last_name (l : list string) (name : string) (i : Z) : option Z :=
  match l with
  | [] => None
  | n :: l' => match last_name l' name (i + 1) with
               | Some j => Some j
               | None => if bool_decide (n = name) then Some i else None
               end
  end.
Definition find_path_name (s : parse_state) (name : string) : Z := default (- EINVAL) (last_name (elems (path_name_array s)) name 0).

Definition add_path_name (name : string) : PM Z :=
  s ← getP;
  let index := find_path_name s name in
  if index >=? 0 then mret index else
  n ← strdup name;
  match n with
  | None => mret (- ENOMEM)
  | Some n =>
      a ← extend n (path_name_array s);
      match a with
      | None => mret (- ENOMEM)
      | Some a => updP (λ s, s <| path_name_array := a |>);; mret (blen (elems a) - 1)
      end
  end.

(** ** Controls *)

(** The array a <ctl> goes to. *)
Inductive ctl_target := TPath (r : path_ref) | TCase (k u c : Z).

Definition get_ctls (t : ctl_target) (s : parse_state) : option (arr ctl) :=
  match t with
  | TPath PInit => Some (ctl_array (init_path s))
  | TPath (PDev i j) => d ← ld (elems (device_array (ps_cm s))) i; p ← ld (elems (path_array d)) j; Some (ctl_array p)
  | TCase k u c =>
      st ← ld (elems (stream_array (ps_cm s))) k; us ← ld (elems (usecase_array st)) u;
      sc ← ld (elems (case_array us)) c; Some (case_ctls sc)
  end.

Definition set_ctls (t : ctl_target) (a : arr ctl) (s : parse_state) : option parse_state :=
  match t with
  | TPath PInit => Some (s <| init_path := (init_path s) <| ctl_array := a |> |>)
  | TPath (PDev i j) =>
      ds ← alter_elem i (λ d, ps ← alter_elem j (λ p, Some (p <| ctl_array := a |>)) (path_array d); Some (d <| path_array := ps |>))
             (device_array (ps_cm s));
      Some (s <| ps_cm := (ps_cm s) <| device_array := ds |> |>)
  | TCase k u c =>
      ss ← alter_elem k (λ st,
             us ← alter_elem u (λ uc, cs ← alter_elem c (λ sc, Some (sc <| case_ctls := a |>)) (case_array uc); Some (uc <| case_array := cs |>))
                    (usecase_array st);
             Some (st <| usecase_array := us |>)) (stream_array (ps_cm s));
      Some (s <| ps_cm := (ps_cm s) <| stream_array := ss |> |>)
  end.

Definition put_ctls (t : ctl_target) (a : arr ctl) : PM () := s ← getP; s' ← lift (set_ctls t a s); updP (λ _, s').

Definition target (s : parse_state) : option ctl_target :=
  match cur_path (cur s), cur_case (cur s) with
  | Some r, _ => Some (TPath r)
  | None, Some (k, u, c) => Some (TCase k u c)
  | None, None => None
  end.

(** The label [fail]: the new element of the array is passed to [free].  Only
    the first element is the start of an allocated block; the block of the
    <init> path is freed once more when the parser is cleaned up. *)
Definition free_ctl (t : ctl_target) (pos ret : Z) : PM Z :=
  match t with
  | TPath PInit => ub
  | _ => if pos =? 0 then mret ret else ub
  end.

Definition parse_ctl_start : PM Z :=
  name ← attr_req e_attrib_name;
  n ← strdup name;
  match n with
  | None => mret (- ENOMEM)
  | Some name =>
      s ← getP;
      t ← lift (target s);
      a ← lift (get_ctls t s);
      a' ← extend (new_ctl name) a;
      match a' with
      | None => mret (- ENOMEM)
      | Some a' =>
          put_ctls t a';;
          let pos := blen (elems a') - 1 in
          '(r, idx) ← attrib_to_uint e_attrib_index;
          if r =? - EINVAL then free_ctl t pos (- EINVAL) else
          let c := (new_ctl name) <| ctl_index := default INVALID_CTL_INDEX idx |> in
          v ← attr_req e_attrib_val;
          v ← strdup v;
          match v with
          | None => free_ctl t pos (- ENOMEM)
          | Some v =>
              '(ret, c) ← ctl_open (cm_mixer (ps_cm s)) (c <| value := VString v |>);
              a'' ← lift (set_elem a' pos c);
              put_ctls t a'';;
              mret (if ret =? - ENOENT then 0 else ret)
          end
      end
  end.

(** ** Codec probe *)

Definition parse_codec_case_start : PM Z :=
  name ← attr_req e_attrib_name;
  codec ← strdup name;
  f ← attr_req e_attrib_file;
  file ← strdup f;
  s ← getP;
  if negb (cur_probe (cur s)) then ub else
  a ← extend (mkCodec codec file) (codec_case_array (init_probe s));
  match a with
  | None => mret (- ENOMEM)
  | Some a => updP (λ s, s <| init_probe := (init_probe s) <| codec_case_array := a |> |>);; mret 0
  end.

Definition parse_init_start : PM Z := updCur (λ c, c <| cur_path := Some PInit |>);; mret 0.

(** Without the spaces at the end. *)
Fixpoint trim_end (s : string) : string :=
  match s with
  | EmptyString => ""
  | String a s' => match trim_end s' with "" => if isspace a then "" else String a "" | t => String a t end
  end.
Definition probe_trim_spaces (s : string) : string := trim_end (skip_space s).

(** The file of the first case for the codec. *)
Fixpoint find_codec (l : list codec_case) (codec : string) : option (option (option string)) :=
  match l with
  | [] => Some None
  | cc :: l' =>
      n ← codec_name cc;                                (* strcmp *)
      if bool_decide (codec = n) then Some (Some (cc_file cc)) else find_codec l' codec
  end.

(** [buf] has 40 bytes. *)
Definition probe_config_file : PM Z :=
  s ← getP;
  file ← lift (probe_file (init_probe s));
  match probe_line file with
  | None => mret (- EIO)
  | Some line =>
      let codec := probe_trim_spaces (String.substring 0 39 line) in
      updP (λ s, s <| init_probe := (init_probe s) <| new_xml_file := None |> |>);;
      r ← lift (find_codec (elems (codec_case_array (init_probe s))) codec);
      match r with
      | None => mret 0
      | Some f =>
          f ← lift f;
          f' ← strdup f;
          f' ← lift f';
          updP (λ s, s <| init_probe := (init_probe s) <| new_xml_file := Some f' |> |>);;
          c ← lift (cur_xml_file s);                    (* strcmp *)
          if bool_decide (f' = c) then
            updP (λ s, s <| init_probe := (init_probe s) <| new_xml_file := None |> |> <| stopped := Some false |>);;
            mret (- EINVAL)
          else updP (λ s, s <| stopped := Some true |>);; mret 0
      end
  end.

Definition parse_codec_probe_start : PM Z :=
  f ← attr_req e_attrib_file;
  file ← strdup f;
  s ← getP;
  match probe_file (init_probe s) with
  | None =>
      updP (λ s, s <| init_probe := (init_probe s) <| probe_file := file |> |>);;
      updCur (λ c, c <| cur_probe := true |>);;
      mret 0
  | Some _ => mret (- EINVAL)
  end.

Definition parse_codec_probe_end : PM Z :=
  s ← getP;
  if negb (cur_probe (cur s)) then ub else
  a ← fix_ (codec_case_array (init_probe s));
  updP (λ s, s <| init_probe := (init_probe s) <| codec_case_array := a |> |>);;
  updCur (λ c, c <| cur_probe := false |>);;
  probe_config_file;;
  mret 0.

(** ** Devices and paths *)

(** The table of device names. *)
Definition device_table : list (string * Z) :=
  [("global", 0); ("speaker", OUT_SPEAKER); ("earpiece", OUT_EARPIECE); ("headset", OUT_WIRED_HEADSET);
   ("headset_in", IN_WIRED_HEADSET); ("headphone", OUT_WIRED_HEADPHONE); ("sco", OUT_ALL_SCO); ("sco_in", IN_ALL_SCO);
   ("a2dp", OUT_ALL_A2DP); ("usb", OUT_ALL_USB); ("mic", IN_BUILTIN_MIC); ("back mic", IN_BACK_MIC);
   ("voice", IN_VOICE_CALL); ("aux", IN_AUX_DIGITAL)].

Fixpoint match_device (l : list (string * Z)) (name : string) : option Z :=
  match l with [] => None | (n, d) :: l' => if bool_decide (name = n) then Some d else match_device l' name end.
Definition parse_match_device (name : string) : option Z := match_device device_table name.

Definition parse_device_start : PM Z :=
  dev_name ← attr_req e_attrib_name;
  match parse_match_device dev_name with
  | None => mret (- EINVAL)
  | Some device_flag =>
      s ← getP;
      let inp := negb (Z.land device_flag BIT_IN =? 0) in
      let existing := if inp then supported_input_devices (ps_cm s) else supported_output_devices (ps_cm s) in
      if negb (device_flag =? 0) && (Z.land device_flag existing =? device_flag) then mret (- EINVAL) else
      when (negb (device_flag =? 0))
        (updCM (λ cm, Some (if inp then cm <| supported_input_devices := Z.lor existing device_flag |>
                            else cm <| supported_output_devices := Z.lor existing device_flag |>)));;
      a ← extend (new_device device_flag) (device_array (ps_cm s));
      match a with
      | None => mret (- ENOMEM)
      | Some a =>
          updCM (λ cm, Some (cm <| device_array := a |>));;
          updCur (λ c, c <| cur_device := Some (blen (elems a) - 1) |>);;
          mret 0
      end
  end.

Definition parse_device_end : PM Z :=
  s ← getP;
  i ← lift (cur_device (cur s));
  d ← lift (ld (elems (device_array (ps_cm s))) i);
  a ← fix_ (path_array d);
  updCM (λ cm, ds ← alter_elem i (λ d, Some (d <| path_array := a |>)) (device_array cm); Some (cm <| device_array := ds |>));;
  mret 0.

Definition parse_path_start : PM Z :=
  name ← attr_req e_attrib_name;
  s ← getP;
  i ← lift (cur_device (cur s));
  id ← add_path_name name;
  if id <? 0 then mret id else
  d ← lift (ld (elems (device_array (ps_cm s))) i);
  a ← extend (new_path id) (path_array d);
  match a with
  | None => mret (- ENOMEM)
  | Some a =>
      updCM (λ cm, ds ← alter_elem i (λ d, Some (d <| path_array := a |>)) (device_array cm); Some (cm <| device_array := ds |>));;
      updCur (λ c, c <| cur_path := Some (PDev i (blen (elems a) - 1)) |>);;
      mret 0
  end.

Definition parse_path_end : PM Z :=
  s ← getP;
  r ← lift (cur_path (cur s));
  a ← lift (get_ctls (TPath r) s);
  a ← fix_ a;
  put_ctls (TPath r) a;;
  updCur (λ c, c <| cur_path := None |>);;
  mret 0.

(** ** Streams *)

Definition upd_stream (k : Z) (f : stream → option stream) : PM () :=
  updCM (λ cm, ss ← alter_elem k f (stream_array cm); Some (cm <| stream_array := ss |>)).

Definition parse_usecase_start : PM Z :=
  name ← attr_req e_attrib_name;
  n ← strdup name;
  s ← getP;
  k ← lift (cur_stream (cur s));
  match n with
  | None => mret (- ENOMEM)
  | Some n =>
      st ← lift (ld (elems (stream_array (ps_cm s))) k);
      a ← extend (new_usecase n) (usecase_array st);
      match a with
      | None => mret (- ENOMEM)
      | Some a =>
          upd_stream k (λ st, Some (st <| usecase_array := a |>));;
          updCur (λ c, c <| cur_usecase := Some (k, blen (elems a) - 1) |>);;
          mret 0
      end
  end.

Definition upd_usecase (k u : Z) (f : usecase → option usecase) : PM () :=
  upd_stream k (λ st, us ← alter_elem u f (usecase_array st); Some (st <| usecase_array := us |>)).

Definition get_usecase (k u : Z) (s : parse_state) : option usecase :=
  st ← ld (elems (stream_array (ps_cm s))) k; ld (elems (usecase_array st)) u.

Definition parse_usecase_end : PM Z :=
  s ← getP;
  '(k, u) ← lift (cur_usecase (cur s));
  uc ← lift (get_usecase k u s);
  a ← fix_ (case_array uc);
  upd_usecase k u (λ uc, Some (uc <| case_array := a |>));;
  mret 0.

Definition parse_case_start : PM Z :=
  name ← attr_req e_attrib_name;
  n ← strdup name;
  s ← getP;
  '(k, u) ← lift (cur_usecase (cur s));
  match n with
  | None => mret (- ENOMEM)
  | Some n =>
      uc ← lift (get_usecase k u s);
      a ← extend (new_case n) (case_array uc);
      match a with
      | None => mret (- ENOMEM)
      | Some a =>
          upd_usecase k u (λ uc, Some (uc <| case_array := a |>));;
          updCur (λ c, c <| cur_case := Some (k, u, blen (elems a) - 1) |>);;
          mret 0
      end
  end.

Definition parse_case_end : PM Z :=
  s ← getP;
  '(k, u, c) ← lift (cur_case (cur s));
  a ← lift (get_ctls (TCase k u c) s);
  a ← fix_ a;
  put_ctls (TCase k u c) a;;
  updCur (λ c, c <| cur_case := None |>);;
  mret 0.

Definition parse_enable_disable_start (is_enable : bool) : PM Z :=
  path_name ← attr_req e_attrib_path;
  s ← getP;
  let i := find_path_name s path_name in
  if i <? 0 then mret (- EINVAL) else
  k ← lift (cur_stream (cur s));
  upd_stream k (λ st, Some (if is_enable then st <| enable_path := i |> else st <| disable_path := i |>));;
  mret 0.

Definition parse_enable_start : PM Z := parse_enable_disable_start true.
Definition parse_disable_start : PM Z := parse_enable_disable_start false.

(** The limit given by an attribute, or else that of the control. *)
Definition limit (r : Z * option Z) (dflt : Z) : Z + Z :=
  match r with
  | (_, Some v) => inr v
  | (e, None) => if e =? - EINVAL then inl (- EINVAL) else if dflt <? 0 then inl dflt else inr dflt
  end.

Definition parse_stream_ctl_start : PM Z :=
  name ← attr_req e_attrib_name;
  function ← attr_req e_attrib_function;
  s ← getP;
  match mixer_get_ctl_by_name (cm_mixer (ps_cm s)) name with
  | None => mret (- EINVAL)
  | Some ctl =>
      '(r, idx) ← attrib_to_uint e_attrib_index;
      if r =? - EINVAL then mret (- EINVAL) else
      k ← lift (cur_stream (cur s));
      let left := bool_decide (function = "leftvol") in
      if negb left && negb (bool_decide (function = "rightvol")) then mret (- EINVAL) else
      let upd f := upd_stream k (λ st, Some (if left then st <| volume_left := f (volume_left st) |>
                                             else st <| volume_right := f (volume_right st) |>)) in
      upd (λ v, mkSC (sc_id v) (default 0 idx) (sc_min v) (sc_max v));;
      mi ← attrib_to_uint e_attrib_min;
      match limit mi (mixer_ctl_get_range_min (Some ctl)) with
      | inl e => mret e
      | inr lo =>
          upd (λ v, mkSC (sc_id v) (sc_index v) lo (sc_max v));;
          ma ← attrib_to_uint e_attrib_max;
          match limit ma (mixer_ctl_get_range_max (Some ctl)) with
          | inl e => mret e
          | inr hi =>
              upd (λ v, mkSC (mixer_ctl_get_id (Some ctl)) (sc_index v) (sc_min v) hi);;
              mret 0
          end
      end
  end.

(** The direction, [None] for an error; not set for a global stream without one. *)
Definition stream_dir (dir : option string) (global : bool) : option bool :=
  match dir with
  | None => if global then Some true else None
  | Some d => if bool_decide (d = "out") then Some true else if bool_decide (d = "in") then Some false else None
  end.

(** The type with the card and device that are the default. *)
Definition stream_info (type : string) (named global out : bool) : option (stream_type * Z * Z) :=
  if global then Some (e_stream_global, uninit, uninit)
  else if bool_decide (type = "hw") then
    if negb named then None else Some (if out then e_stream_out_hw else e_stream_in_hw, uninit, uninit)
  else if bool_decide (type = "pcm") then
    Some (if out then e_stream_out_pcm else e_stream_in_pcm, PCM_CARD_DEFAULT, PCM_DEVICE_DEFAULT)
  else if bool_decide (type = "compress") then
    Some (if out then e_stream_out_compress else e_stream_in_compress, COMPRESS_CARD_DEFAULT, COMPRESS_DEVICE_DEFAULT)
  else None.

(** An attribute that must be a number if it is there. *)
Definition opt_uint (i dflt : Z) (k : Z → PM Z) : PM Z :=
  '(r, v) ← attrib_to_uint i; if r =? - EINVAL then mret (- EINVAL) else k (default dflt v).

Definition parse_stream_start : PM Z :=
  type ← attr_req e_attrib_type;
  dir ← attr e_attrib_dir;
  name ← attr e_attrib_name;
  ok ← (match name with Some _ => malloc | None => mret true end);
  if negb ok then mret (- ENOMEM) else
  s ← getP;
  if bool_decide (is_Some (name ≫= find_named_stream (ps_cm s))) then mret (- EINVAL) else
  a ← extend new_stream (stream_array (ps_cm s));
  match a with
  | None => mret (- ENOMEM)
  | Some a =>
      updCM (λ cm, Some (cm <| stream_array := a |>));;
      let k := blen (elems a) - 1 in
      let global := bool_decide (name = Some "global") in
      match stream_dir dir global with
      | None => mret (- EINVAL)
      | Some out =>
          match stream_info type (bool_decide (is_Some name)) global out with
          | None => mret (- EINVAL)
          | Some (ty, card, device) =>
              upd_stream k (λ st, Some (st <| s_info := (s_info st) <| hw_type := ty |> |>));;
              opt_uint e_attrib_card card (λ card,
              opt_uint e_attrib_device device (λ device,
              opt_uint e_attrib_instances INT_MAX (λ maxref,
              opt_uint e_attrib_rate 0 (λ rate,
              upd_stream k (λ st, Some (st <| s_info := (s_info st) <| hw_rate := rate |> |>));;
              opt_uint e_attrib_period_count 0 (λ pcount,
              upd_stream k (λ st, Some (st <| s_info := (s_info st) <| hw_period_count := pcount |> |>));;
              opt_uint e_attrib_period_size 0 (λ psize,
              upd_stream k (λ st, Some (st <| s_info := (s_info st) <| hw_period_size := psize |> <| card_number := u8 card |>
                                               <| device_number := u8 device |> |>
                                          <| s_name := name |> <| max_ref_count := i32 maxref |>));;
              updCur (λ c, c <| cur_stream := Some k |>);;
              mret 0))))))
          end
      end
  end.

Definition parse_stream_end : PM Z :=
  s ← getP;
  k ← lift (cur_stream (cur s));
  st ← lift (ld (elems (stream_array (ps_cm s))) k);
  a ← fix_ (usecase_array st);
  upd_stream k (λ st, Some (st <| usecase_array := a |>));;
  mret 0.

(** ** The mixer *)

Definition parse_mixer_start : PM Z :=
  opt_uint e_attrib_card MIXER_CARD_DEFAULT (λ card,
  m ← mixer_open card;
  updCM (λ cm, Some (cm <| cm_mixer := m |>));;
  match m with
  | None => mret (- EINVAL)
  | Some _ =>
      s ← getP;
      e ← lift (ld (stack_entry s) (stack_index s - 1));
      es ← lift (st (stack_entry s) (stack_index s - 1) (e.1, BITS [e_elem_device; e_elem_stream]));
      updP (λ s, s <| stack_entry := es |>);;
      mret 0
  end).

(** ** The table of elements *)

Record parse_element := mkElem {
  pe_name : string; valid_attribs : Z; required_attribs : Z; valid_subelem : Z;
  start_fn : option (PM Z); end_fn : option (PM Z) }.

Definition elem_table : list parse_element := [
  mkElem "ctl" (BITS [e_attrib_name; e_attrib_val; e_attrib_index]) (BITS [e_attrib_name; e_attrib_val]) 0
    (Some parse_ctl_start) None;
  mkElem "path" (BITS [e_attrib_name]) (BITS [e_attrib_name]) (BITS [e_elem_ctl]) (Some parse_path_start) (Some parse_path_end);
  mkElem "device" (BITS [e_attrib_name]) (BITS [e_attrib_name]) (BITS [e_elem_path]) (Some parse_device_start) (Some parse_device_end);
  mkElem "stream"
    (BITS [e_attrib_name; e_attrib_type; e_attrib_dir; e_attrib_card; e_attrib_device; e_attrib_instances; e_attrib_rate;
           e_attrib_period_size; e_attrib_period_count])
    (BITS [e_attrib_type]) (BITS [e_elem_stream_ctl; e_elem_enable; e_elem_disable; e_elem_usecase])
    (Some parse_stream_start) (Some parse_stream_end);
  mkElem "enable" (BITS [e_attrib_path]) (BITS [e_attrib_path]) 0 (Some parse_enable_start) None;
  mkElem "disable" (BITS [e_attrib_path]) (BITS [e_attrib_path]) 0 (Some parse_disable_start) None;
  mkElem "case" (BITS [e_attrib_name]) (BITS [e_attrib_name]) (BITS [e_elem_ctl]) (Some parse_case_start) (Some parse_case_end);
  mkElem "usecase" (BITS [e_attrib_name]) (BITS [e_attrib_name]) (BITS [e_elem_case]) (Some parse_usecase_start) (Some parse_usecase_end);
  mkElem "ctl" (BITS [e_attrib_name; e_attrib_function; e_attrib_index; e_attrib_min; e_attrib_max])
    (BITS [e_attrib_name; e_attrib_function]) 0 (Some parse_stream_ctl_start) None;
  mkElem "init" 0 0 (BITS [e_elem_ctl]) (Some parse_init_start) None;
  mkElem "mixer" (BITS [e_attrib_card]) 0 (BITS [e_elem_init]) (Some parse_mixer_start) None;
  mkElem "audiohal" 0 0 (BITS [e_elem_mixer; e_elem_codec_probe]) None None;
  mkElem "codec_probe" (BITS [e_attrib_file]) (BITS [e_attrib_file]) (BITS [e_elem_codec_case])
    (Some parse_codec_probe_start) (Some parse_codec_probe_end);
  mkElem "case" (BITS [e_attrib_name; e_attrib_file]) (BITS [e_attrib_name; e_attrib_file]) 0 (Some parse_codec_case_start) None].

(** ** Events *)

(** The first index whose bit is in the mask and whose name fits. *)
Fixpoint find_index (names : list string) (name : string) (mask i : Z) : option Z :=
  match names with
  | [] => None
  | n :: names' => if has_bit i mask && bool_decide (name = n) then Some i else find_index names' name mask (i + 1)
  end.

(** The values, and the required attributes that are missing. *)
Fixpoint extract_loop (attribs : list (string * string)) (valid required : Z) (values : list (option string)) :
    option (list (option string) * Z) :=
  match attribs with
  | [] => Some (values, required)
  | (n, v) :: attribs' =>
      i ← find_index attrib_table n valid 0;
      values' ← st values i (Some v);
      extract_loop attribs' valid (Z.ldiff required (Z.shiftl 1 i)) values'
  end.

(** Whether the attributes are accepted. *)
Definition extract_attribs (e : parse_element) (attribs : list (string * string)) : PM bool :=
  match extract_loop attribs (valid_attribs e) (required_attribs e) (replicate 16 None) with
  | None => mret false
  | Some (values, required) => updP (λ s, s <| attr_value := values |>);; mret (required =? 0)
  end.

Definition parse_set_error (e : Z) : PM () := updP (λ s, s <| parse_error := e |>).

Definition parse_section_start (name : string) (attribs : list (string * string)) : PM () :=
  s ← getP;
  entry ← lift (ld (stack_entry s) (stack_index s));
  if negb (parse_error s =? 0) then mret () else
  match find_index (pe_name <$> elem_table) name entry.2 0 with
  | None => parse_set_error (- EINVAL)
  | Some i =>
      if stack_index s >=? MAX_PARSE_DEPTH then parse_set_error (- EINVAL) else
      e ← lift (ld elem_table i);
      let idx := stack_index s + 1 in
      es ← lift (st (stack_entry s) idx (i, valid_subelem e));
      updP (λ s, s <| stack_entry := es |> <| stack_index := idx |>);;
      ok ← extract_attribs e attribs;
      if negb ok then parse_set_error (- EINVAL) else
      match start_fn e with Some f => r ← f; parse_set_error r | None => mret () end
  end.

Definition parse_section_end : PM () :=
  s ← getP;
  entry ← lift (ld (stack_entry s) (stack_index s));
  if negb (parse_error s =? 0) then mret () else
  e ← lift (ld elem_table entry.1);
  match end_fn e with Some f => r ← f; parse_set_error r | None => mret () end;;
  updP (λ s, s <| stack_index := stack_index s - 1 |>).

(** Until the parser is stopped; after an error the rest has no effect. *)
Fixpoint feed (evs : list xml_event) : PM () :=
  match evs with
  | [] => mret ()
  | ev :: evs' =>
      s ← getP;
      if bool_decide (is_Some (stopped s)) then mret () else
      match ev with XStart n a => parse_section_start n a | XEnd _ => parse_section_end end;;
      feed evs'
  end.

(** ** Files *)

(** [status]: of the XML document itself.  A parser that was stopped reports an
    error; after a redirection the result is not used. *)
Definition do_parse (evs : list xml_event) (status : Z) : PM Z :=
  updP (λ s, s <| parse_error := 0 |> <| stack_index := 0 |> <| stopped := None |>);;
  s ← getP;
  e ← lift (ld (stack_entry s) 0);
  es ← lift (st (stack_entry s) 0 (e.1, BITS [e_elem_audiohal]));
  updP (λ s, s <| stack_entry := es |>);;
  feed evs;;
  s ← getP;
  mret (if parse_error s <? 0 then - EINVAL else
        match stopped s with Some _ => - EINVAL | None => status end).

(** The name of the file, and the name kept as the current one. *)
Definition config_file_name (file : option string) : string * string :=
  match file with
  | None => (String.substring 0 79 ("/vendor/etc/audio." +:+ ro_product_device +:+ ".xml"),
             String.substring 0 39 ("audio." +:+ ro_product_device +:+ ".xml"))
  | Some f => (String.substring 0 79 ("/vendor/etc/" +:+ f), f)
  end.

Definition init_state : PM Z :=
  n0 ← lift (ld predefined_path_name_table 0);
  ret ← add_path_name n0;
  if ret <? 0 then mret ret else
  n1 ← lift (ld predefined_path_name_table 1);
  ret ← add_path_name n1;
  mret (if ret <? 0 then ret else 0).

(** The loop over the files, at most [fuel] of them; [None] when that is not enough. *)
Fixpoint parse_files (fuel : nat) : PM (option Z) :=
  match fuel with
  | O => mret None
  | Datatypes.S fuel' =>
      s ← getP;
      let '(name, cur_file) := config_file_name (new_xml_file (init_probe s)) in
      c ← strdup cur_file;
      updP (λ s, s <| cur_xml_file := c |>);;
      match read_xml name with
      | None => mret (Some (- ENOMEM))
      | Some (evs, status) =>
          when (bool_decide (is_Some (new_xml_file (init_probe s))))
            (updP (λ s, s <| init_probe := (init_probe s) <| probe_file := None |> <| new_xml_file := None |> |>));;
          ret ← do_parse evs status;
          s ← getP;
          if bool_decide (is_Some (new_xml_file (init_probe s))) then parse_files fuel' else mret (Some ret)
      end
  end.

Definition ps_init (cm : config_mgr) : parse_state :=
  mkPS cm None 0 (replicate 16 None) (mkCurrent None None None None None false) arr_new (mkPath 0 arr_new)
    (mkProbe None None arr_new) 0 (replicate 6 (0, 0)) None.

(** The <init> path is applied after everything was read. *)
Definition parse_config_file (fuel : nat) : PM (option Z) :=
  ok ← malloc;
  if negb ok then mret (Some (- ENOMEM)) else
  ret ← init_state;
  if ret <? 0 then mret (Some ret) else
  r ← parse_files fuel;
  match r with
  | None => mret None
  | Some ret =>
      when (ret >=? 0)
        (s ← getP;
         ctls ← on_cm (apply_ctls_l (elems (ctl_array (init_path s))));
         updP (λ s, s <| init_path := (init_path s) <| ctl_array := mkArr ctls (cap (ctl_array (init_path s))) |> |>));;
      mret (Some ret)
  end.

(** The manager, or nothing; the inner [None] when the fuel is not enough.
    Without memory for the manager the handlers dereference a null pointer. *)
Definition init_audio_config (fuel : nat) (h : alog) : option (option (option config_mgr) * alog) :=
  w ← malloc (AWorld (ps_init new_config_mgr) h);
  if negb w.1 then None else
  w ← parse_config_file fuel w.2;
  match w with
  | (None, w) => Some (None, acalls w)
  | (Some ret, w) =>
      if negb (ret =? 0) then Some (Some None, acalls w) else
      let cm := ps_cm (aobj w) in
      ds ← (fix_ (device_array cm)) w;
      ss ← (fix_ (stream_array cm)) ds.2;
      Some (Some (Some (cm <| device_array := ds.1 |> <| stream_array := ss.1 |>)), acalls ss.2)
  end.
End Parse.
