(* ===== verification/AudioParseSpec.v ===== *)
(** * Well-formed configurations under construction

    Rules for the computations of the parser, and the invariant of the
    configuration it builds. *)

From S2P Require Import Prelude Monad Mixer DynArray Params AudioConfig AudioRoute AudioMachine AudioParse.

#[local] Open Scope string_scope.
#[local] Open Scope list_scope.
#[local] Open Scope Z_scope.

(** ** Runs

    A computation of the parser from state [s] is defined, ends in a state
    that satisfies [Φ], and applies no path of a device. *)

Definition runs {X} (m : ST (aworld parse_state) X) (s : parse_state) (Φ : X → parse_state → Prop) : Prop :=
  ∀ h, wp m (λ x w', Φ x (aobj w') ∧ paths (acalls w') = paths h) (AWorld s h).

Section Rules.
Context `{A : Alsa, !AlsaOk A} `{!AudioH} `{!Files}.

Lemma runs_ret {X} (x : X) s (Φ : X → parse_state → Prop) : Φ x s → runs (mret x) s Φ.
Proof. intros HΦ h. by apply wp_ret'. Qed.

Lemma runs_bind {X Y} (m : ST (aworld parse_state) X) (k : X → ST (aworld parse_state) Y) s Φ :
  runs m s (λ x s', runs (k x) s' Φ) → runs (m ≫= k) s Φ.
Proof.
  intros Hm h. apply wp_bind. eapply wp_mono; [apply Hm|]. intros x [s' h'] [Hk Hp]. cbn [aobj acalls] in *.
  eapply wp_mono; [apply Hk|]. intros y w' [? ?]. split; [done|congruence].
Qed.

Lemma runs_mono {X} (m : ST (aworld parse_state) X) s (Φ Ψ : X → parse_state → Prop) :
  runs m s Φ → (∀ x s', Φ x s' → Ψ x s') → runs m s Ψ.
Proof. intros Hm Himp h. eapply wp_mono; [apply Hm|]. intros x w' [? ?]. split; [by apply Himp|done]. Qed.

Lemma runs_get s (Φ : parse_state → parse_state → Prop) : Φ s s → runs getP s Φ.
Proof. intros HΦ h. by apply wp_gets'. Qed.

Lemma runs_upd f s (Φ : () → parse_state → Prop) : Φ () (f s) → runs (updP f) s Φ.
Proof. intros HΦ h. by apply wp_modify'. Qed.

Lemma runs_lift {X} (o : option X) x s (Φ : X → parse_state → Prop) : o = Some x → Φ x s → runs (lift o) s Φ.
Proof. intros -> HΦ h. by apply wp_ret'. Qed.

Lemma runs_silent {X} (m : ST (aworld parse_state) X) s (Φ : X → parse_state → Prop) :
  (∀ w : aworld parse_state, aobj w = s → wp m (λ x w', silent w w' ∧ Φ x s) w) → runs m s Φ.
Proof.
  intros Hm h. eapply wp_mono; [by apply (Hm (AWorld s h))|]. intros x [s' h'] [[E P] HΦ]. cbn in *. by subst.
Qed.

Definition malloc_ok : Prop := ∀ h, al_malloc h = true.
Context (Hmem : malloc_ok).

Lemma runs_malloc s (Φ : bool → parse_state → Prop) : Φ true s → runs malloc s Φ.
Proof. intros HΦ h. unfold malloc. apply wp_acall. by rewrite Hmem. Qed.

Lemma runs_strdup x s (Φ : option string → parse_state → Prop) : Φ (Some x) s → runs (strdup x) s Φ.
Proof. intros HΦ. apply runs_bind, runs_malloc. by apply runs_ret. Qed.

Lemma runs_attr i v s (Φ : option string → parse_state → Prop) : ld (attr_value s) i = Some v → Φ v s → runs (attr i) s Φ.
Proof. intros E HΦ. apply runs_bind, runs_get. by eapply runs_lift. Qed.

Lemma runs_attr_req i v s (Φ : string → parse_state → Prop) : ld (attr_value s) i = Some (Some v) → Φ v s → runs (attr_req i) s Φ.
Proof. intros E HΦ. apply runs_bind. eapply runs_attr; [done|]. by eapply runs_lift. Qed.

Lemma runs_uint i v s (Φ : Z * option Z → parse_state → Prop) :
  ld (attr_value s) i = Some v → Φ (string_to_uint v) s → runs (attrib_to_uint i) s Φ.
Proof. intros E HΦ. apply runs_bind. eapply runs_attr; [done|]. by apply runs_ret. Qed.

Lemma runs_extend {X} (x : X) a s (Φ : option (arr X) → parse_state → Prop) :
  Φ None s → (∀ a', elems a' = elems a ++ [x] → Φ (Some a') s) → runs (extend x a) s Φ.
Proof.
  intros HN HS. unfold extend, arr_extend. destruct (full a).
  - destruct (cap a >? _); [by apply runs_ret|]. apply runs_bind, runs_malloc, runs_ret. cbn [orb negb]. by apply HS.
  - apply runs_ret. by apply HS.
Qed.

(** The bound of the arrays. *)
Lemma runs_extend_ok {X} (x : X) a s (Φ : option (arr X) → parse_state → Prop) : arr_ok a →
  Φ None s → (∀ c, blen (elems a) + 1 <= c <= 0xFFFF → Φ (Some (mkArr (elems a ++ [x]) c)) s) → runs (extend x a) s Φ.
Proof.
  intros [H1 H2] HN HS. unfold extend, arr_extend, full. destruct (Z.gtb_spec (blen (elems a) + 1) (cap a)) as [Hf|Hf].
  - destruct (Z.gtb_spec (cap a) (0xFFFF - DYN_ARRAY_GRANULE)) as [Hc|Hc]; [by apply runs_ret|]. apply runs_bind, runs_malloc, runs_ret. cbn [orb negb].
    apply HS. unfold DYN_ARRAY_GRANULE in *. lia.
  - apply runs_ret. apply HS. lia.
Qed.

Lemma runs_fix {X} (a : arr X) s (Φ : arr X → parse_state → Prop) : (∀ a', elems a' = elems a → Φ a' s) → runs (fix_ a) s Φ.
Proof. intros HΦ. apply runs_bind, runs_malloc, runs_ret. by apply HΦ. Qed.

Lemma runs_updCM f cm s (Φ : () → parse_state → Prop) : f (ps_cm s) = Some cm → Φ () (s <| ps_cm := cm |>) → runs (updCM f) s Φ.
Proof. intros E HΦ. apply runs_bind, runs_get, runs_bind. eapply runs_lift; [done|]. by apply runs_upd. Qed.

Lemma runs_put t a s s' (Φ : () → parse_state → Prop) : set_ctls t a s = Some s' → Φ () s' → runs (put_ctls t a) s Φ.
Proof. intros E HΦ. apply runs_bind, runs_get, runs_bind. eapply runs_lift; [done|]. by apply runs_upd. Qed.
End Rules.

(** ** Arrays *)

Lemma alter_elem_Some {B} (f : B → option B) i (a : arr B) x y : ld (elems a) i = Some x → f x = Some y →
  alter_elem i f a = Some (mkArr (<[Z.to_nat i := y]> (elems a)) (cap a)).
Proof.
  intros Hx Hy. unfold alter_elem. rewrite Hx. cbn [mbind option_bind]. rewrite Hy. cbn [mbind option_bind].
  unfold set_elem. by rewrite arena_insert_Some by (by apply ld_Some_bounds in Hx).
Qed.

Lemma fmap_insert_same {B C} (f : B → C) (l : list B) i x y : ld l i = Some x → f y = f x → f <$> <[Z.to_nat i := y]> l = f <$> l.
Proof.
  intros Hx%arena_lookup_Some E. rewrite list_fmap_insert. apply list_insert_id. rewrite list_lookup_fmap, Hx. simpl. by rewrite E.
Qed.

Lemma arena_snoc {B} (l : list B) x : ld (l ++ [x]) (blen l) = Some x.
Proof. unfold ld, blen. rewrite bool_decide_true by lia. rewrite Nat2Z.id. by rewrite list_lookup_middle. Qed.

Lemma ld_app_l {B} (l l' : list B) i x : ld l i = Some x → ld (l ++ l') i = Some x.
Proof.
  intros Hx. pose proof (ld_Some_bounds _ _ _ Hx). unfold ld, blen in *. rewrite bool_decide_true in * by lia. by apply lookup_app_l_Some.
Qed.

Lemma insert_snoc {B} (l : list B) x y : <[Z.to_nat (blen l) := y]> (l ++ [x]) = l ++ [y].
Proof. unfold blen. rewrite Nat2Z.id. rewrite insert_app_r_alt by lia. by rewrite Nat.sub_diag. Qed.

(** ** Well-formed configurations *)

Section Cfg.
Context `{H : AudioH}.

(** The sizes that positions refer to: paths of devices, cases of use cases of streams. *)
Definition dskel (cm : config_mgr) : list Z := (λ d, blen (elems (path_array d))) <$> elems (device_array cm).
Definition uskel (s : stream) : list Z := (λ u, blen (elems (case_array u))) <$> elems (usecase_array s).
Definition sskel (cm : config_mgr) : list (list Z) := uskel <$> elems (stream_array cm).

(** The positions of the objects under construction exist. *)
Record ptrs_ok (c : current) (dsk : list Z) (ssk : list (list Z)) : Prop := {
  po_device : ∀ i, cur_device c = Some i → is_Some (ld dsk i);
  po_path : ∀ i j, cur_path c = Some (PDev i j) → ∃ n, ld dsk i = Some n ∧ 0 <= j < n;
  po_stream : ∀ k, cur_stream c = Some k → is_Some (ld ssk k);
  po_usecase : ∀ k u, cur_usecase c = Some (k, u) → ∃ us, ld ssk k = Some us ∧ is_Some (ld us u);
  po_case : ∀ k u n, cur_case c = Some (k, u, n) → ∃ us m, ld ssk k = Some us ∧ ld us u = Some m ∧ 0 <= n < m }.

Definition grows (l l' : list Z) : Prop := ∀ i n, ld l i = Some n → ∃ n', ld l' i = Some n' ∧ n <= n'.
Definition sgrows (l l' : list (list Z)) : Prop := ∀ k us, ld l k = Some us → ∃ us', ld l' k = Some us' ∧ grows us us'.

Lemma grows_refl l : grows l l.
Proof. intros i n Hi. eexists. split; [done|lia]. Qed.
Lemma sgrows_refl l : sgrows l l.
Proof. intros k us Hk. eexists. split; [done|apply grows_refl]. Qed.
Lemma grows_app l x : grows l (l ++ [x]).
Proof. intros i n Hi. exists n. split; [by apply ld_app_l|lia]. Qed.
Lemma sgrows_app l x : sgrows l (l ++ [x]).
Proof. intros k us Hk. exists us. split; [by apply ld_app_l|apply grows_refl]. Qed.

Lemma grows_insert l i n n' : ld l i = Some n → n <= n' → grows l (<[Z.to_nat i := n']> l).
Proof.
  intros Hi Hn j m Hj. destruct (decide (i = j)) as [->|].
  - exists n'. split; [by eapply ld_insert_eq|]. rewrite Hi in Hj. injection Hj as <-. done.
  - exists m. split; [|lia]. rewrite ld_insert_ne; [done| |done]. apply ld_Some_bounds in Hi. lia.
Qed.
Lemma sgrows_insert l k us us' : ld l k = Some us → grows us us' → sgrows l (<[Z.to_nat k := us']> l).
Proof.
  intros Hk Hus j vs Hj. destruct (decide (k = j)) as [->|].
  - exists us'. split; [by eapply ld_insert_eq|]. rewrite Hk in Hj. by injection Hj as <-.
  - exists vs. split; [|apply grows_refl]. rewrite ld_insert_ne; [done| |done]. apply ld_Some_bounds in Hk. lia.
Qed.

Lemma ptrs_grow c dsk ssk dsk' ssk' : grows dsk dsk' → sgrows ssk ssk' → ptrs_ok c dsk ssk → ptrs_ok c dsk' ssk'.
Proof.
  intros Hd Hs [P1 P2 P3 P4 P5]. split.
  - intros i Hi. destruct (P1 i Hi) as [n Hn]. destruct (Hd _ _ Hn) as (n' & ? & _). eauto.
  - intros i j Hi. destruct (P2 i j Hi) as (n & Hn & Hj). destruct (Hd _ _ Hn) as (n' & ? & ?). exists n'. split; [done|lia].
  - intros k Hk. destruct (P3 k Hk) as [us Hus]. destruct (Hs _ _ Hus) as (us' & ? & _). eauto.
  - intros k u Hk. destruct (P4 k u Hk) as (us & Hus & [n Hn]). destruct (Hs _ _ Hus) as (us' & ? & Hg).
    destruct (Hg _ _ Hn) as (n' & ? & _). exists us'. split; [done|eauto].
  - intros k u n Hk. destruct (P5 k u n Hk) as (us & m & Hus & Hm & Hn). destruct (Hs _ _ Hus) as (us' & ? & Hg).
    destruct (Hg _ _ Hm) as (m' & ? & ?). exists us', m'. split_and!; [done|done|lia|lia].
Qed.

(** With [n] names of paths. *)
Definition path_good (m : option mixer) (n : Z) (p : path) : Prop := 0 <= path_id p < n ∧ path_ok m p.
Definition dev_good (m : option mixer) (n : Z) (d : device) : Prop :=
  use_count d = 0 ∧ dev_type d ∈ device_table.*2 ∧ Forall (path_good m n) (elems (path_array d)).
Definition id_good (n i : Z) : Prop := i = -1 ∨ 0 <= i < n.
Definition str_good (m : option mixer) (n : Z) (s : stream) : Prop :=
  ref_count s = 0 ∧ current_devices s = 0 ∧ max_ref_count s <= INT_MAX ∧ id_good n (enable_path s) ∧ id_good n (disable_path s) ∧
  stream_ok m s.

Definition types (cm : config_mgr) : list Z := dev_type <$> elems (device_array cm).
Definition supported (cm : config_mgr) (t : Z) : Z :=
  if negb (Z.land t BIT_IN =? 0) then supported_input_devices cm else supported_output_devices cm.

Record cm_good (n : Z) (cm : config_mgr) : Prop := {
  cg_mixer : omixer_ok (cm_mixer cm);
  cg_devs : Forall (dev_good (cm_mixer cm) n) (elems (device_array cm));
  cg_strs : Forall (str_good (cm_mixer cm) n) (elems (stream_array cm));
  cg_types : NoDup (filter (λ t, t ≠ 0) (types cm));
  cg_supported : ∀ t, t ∈ types cm → Z.land t (supported cm t) = t;
  cg_snames : NoDup (omap s_name (elems (stream_array cm)));
  cg_room : arr_ok (stream_array cm) }.

Record cfg (s : parse_state) : Prop := {
  cf_cm : cm_good (blen (elems (path_name_array s))) (ps_cm s);
  cf_init : Forall (ctl_ok (cm_mixer (ps_cm s))) (elems (ctl_array (init_path s)));
  cf_names : ∃ l, elems (path_name_array s) = "off" :: "on" :: l;
  cf_nodup : NoDup (elems (path_name_array s));
  cf_codecs : Forall (λ cc, is_Some (codec_name cc) ∧ is_Some (cc_file cc)) (elems (codec_case_array (init_probe s)));
  cf_probe : cur_probe (cur s) = true → is_Some (probe_file (init_probe s));
  cf_xml : is_Some (cur_xml_file s);
  cf_ptrs : ptrs_ok (cur s) (dskel (ps_cm s)) (sskel (ps_cm s)) }.

(** What the handlers leave alone. *)
Definition same_ctx (s s' : parse_state) : Prop :=
  stack_index s' = stack_index s ∧ stack_entry s' = stack_entry s ∧ attr_value s' = attr_value s ∧ parse_error s' = parse_error s ∧
  (stopped s' = stopped s ∧ init_probe s' = init_probe s).

#[export] Instance same_ctx_preorder : PreOrder same_ctx.
Proof. split; [by intros s; split_and!|]. intros s1 s2 s3 (?&?&?&?&?&?) (?&?&?&?&?&?). split_and!; congruence. Qed.

Lemma path_good_mono m n n' p : n <= n' → path_good m n p → path_good m n' p.
Proof. intros Hn [? ?]. split; [lia|done]. Qed.
Lemma dev_good_mono m n n' d : n <= n' → dev_good m n d → dev_good m n' d.
Proof. intros Hn (?&?&HF). split_and!; [done|done|]. eapply Forall_impl; [exact HF|]. intros p. by apply path_good_mono. Qed.
Lemma str_good_mono m n n' s : n <= n' → str_good m n s → str_good m n' s.
Proof.
  unfold str_good, id_good. intros Hn (?&?&?&Hi&Hd&?). do 3 (split; [done|]). split; [lia|]. split; [lia|done].
Qed.

Lemma cm_good_mono n n' cm : n <= n' → cm_good n cm → cm_good n' cm.
Proof.
  intros Hn []. split; try done; (eapply Forall_impl; [eassumption|]); intros x; [by apply dev_good_mono|by apply str_good_mono].
Qed.

(** A device replaced by one of the same type. *)
Lemma cm_good_device n cm i d d' c : cm_good n cm → ld (elems (device_array cm)) i = Some d → dev_type d' = dev_type d →
  dev_good (cm_mixer cm) n d' → cm_good n (cm <| device_array := mkArr (<[Z.to_nat i := d']> (elems (device_array cm))) c |>).
Proof.
  intros [] Hi Ht Hd. split; try done.
  - simpl. by apply Forall_insert.
  - unfold types. simpl. rewrite (fmap_insert_same _ _ _ _ _ Hi) by done. done.
  - unfold types. simpl. rewrite (fmap_insert_same _ _ _ _ _ Hi) by done. done.
Qed.

(** A stream replaced by one of the same name. *)
Lemma omap_insert_same {B C} (f : B → option C) (l : list B) i x y : ld l i = Some x → f y = f x → omap f (<[Z.to_nat i := y]> l) = omap f l.
Proof.
  intros Hx%arena_lookup_Some E. unfold omap. revert Hx. generalize (Z.to_nat i). induction l as [|z l IH]; intros k Hk; [done|]. destruct k as [|k]; simpl in *.
  - injection Hk as ->. by rewrite E.
  - by rewrite (IH _ Hk).
Qed.
Lemma cm_good_stream n cm k s s' : cm_good n cm → ld (elems (stream_array cm)) k = Some s → s_name s' = s_name s →
  str_good (cm_mixer cm) n s' →
  cm_good n (cm <| stream_array := mkArr (<[Z.to_nat k := s']> (elems (stream_array cm))) (cap (stream_array cm)) |>).
Proof.
  intros [] Hi Ht Hd. split; try done.
  - simpl. by apply Forall_insert.
  - simpl. by rewrite (omap_insert_same _ _ _ _ _ Hi).
  - unfold arr_ok, blen in *. simpl. by rewrite length_insert.
Qed.

(** Replacing the manager. *)
Lemma cfg_cm s cm c : cfg s → cm_mixer cm = cm_mixer (ps_cm s) → cm_good (blen (elems (path_name_array s))) cm →
  ptrs_ok c (dskel cm) (sskel cm) → (cur_probe c = true → is_Some (probe_file (init_probe s))) →
  cfg (s <| ps_cm := cm |> <| cur := c |>).
Proof. intros [] Em Hcm Hp Hpr. split; simpl; try done. by rewrite Em. Qed.

Lemma cfg_cm' s cm : cfg s → cm_mixer cm = cm_mixer (ps_cm s) → cm_good (blen (elems (path_name_array s))) cm →
  grows (dskel (ps_cm s)) (dskel cm) → sgrows (sskel (ps_cm s)) (sskel cm) → cfg (s <| ps_cm := cm |>).
Proof. intros [] Em Hcm Hd Hs. split; simpl; try done; [by rewrite Em|by eapply ptrs_grow]. Qed.

(** The list of controls a handler works on. *)
Lemma get_ctls_ok t s a : cfg s → get_ctls t s = Some a → Forall (ctl_ok (cm_mixer (ps_cm s))) (elems a).
Proof.
  intros Hs Ha. destruct t as [[|i j]|k u c]; simpl in Ha.
  - injection Ha as <-. apply Hs.
  - apply bind_Some in Ha as (d & Hd & Ha). apply bind_Some in Ha as (p & Hp & [= <-]).
    destruct (Forall_ld _ _ _ _ (cg_devs _ _ (cf_cm _ Hs)) Hd) as (_ & _ & HF). by destruct (Forall_ld _ _ _ _ HF Hp).
  - apply bind_Some in Ha as (st & Hst & Ha). apply bind_Some in Ha as (us & Hus & Ha). apply bind_Some in Ha as (sc & Hsc & [= <-]).
    destruct (Forall_ld _ _ _ _ (cg_strs _ _ (cf_cm _ Hs)) Hst) as (_ & _ & _ & _ & _ & _ & _ & HF).
    pose proof (Forall_ld _ _ _ _ HF Hus) as HF'. apply (Forall_ld _ _ _ _ HF' Hsc).
Qed.

Definition kept (s s' : parse_state) : Prop :=
  same_ctx s s' ∧ cur s' = cur s ∧ cm_mixer (ps_cm s') = cm_mixer (ps_cm s).

Lemma set_ctls_ok t a0 a s : cfg s → get_ctls t s = Some a0 → Forall (ctl_ok (cm_mixer (ps_cm s))) (elems a) →
  ∃ s', set_ctls t a s = Some s' ∧ cfg s' ∧ kept s s' ∧ get_ctls t s' = Some a.
Proof.
  intros Hs Ha HF. destruct t as [[|i j]|k u c]; simpl in Ha |- *.
  - eexists. split; [done|]. split; [|by split_and!]. destruct Hs. by split.
  - apply bind_Some in Ha as (d & Hd & Ha). apply bind_Some in Ha as (p & Hp & [= <-]).
    erewrite alter_elem_Some; [|exact Hd|cbn beta; erewrite alter_elem_Some; [|exact Hp|done]; done].
    cbn [mbind option_bind]. eexists. split; [done|].
    destruct (Forall_ld _ _ _ _ (cg_devs _ _ (cf_cm _ Hs)) Hd) as (Hu & Ht & HF').
    destruct (Forall_ld _ _ _ _ HF' Hp) as [Hid _]. split; [|split; [by split_and!|]].
    + apply cfg_cm'; [done|done| | |apply sgrows_refl].
      * eapply cm_good_device; [apply Hs|exact Hd|done|]. split_and!; [done|done|]. simpl. apply Forall_insert; [done|]. by split.
      * unfold dskel. simpl. rewrite (fmap_insert_same _ _ _ _ _ Hd); [apply grows_refl|]. simpl. unfold blen. by rewrite length_insert.
    + simpl. erewrite ld_insert_eq by exact Hd. cbn [mbind option_bind]. simpl. erewrite ld_insert_eq by exact Hp. done.
  - apply bind_Some in Ha as (st & Hst & Ha). apply bind_Some in Ha as (us & Hus & Ha). apply bind_Some in Ha as (sc & Hsc & [= <-]).
    erewrite alter_elem_Some; [|exact Hst|cbn beta; erewrite alter_elem_Some;
      [|exact Hus|cbn beta; erewrite alter_elem_Some; [|exact Hsc|done]; done]; done].
    cbn [mbind option_bind]. eexists. split; [done|].
    destruct (Forall_ld _ _ _ _ (cg_strs _ _ (cf_cm _ Hs)) Hst) as (H1 & H2 & H3 & H4 & H5 & Vl & Vr & HF').
    pose proof (Forall_ld _ _ _ _ HF' Hus) as HF''. split; [|split; [by split_and!|]].
    + apply cfg_cm'; [done|done| |apply grows_refl|].
      * eapply cm_good_stream; [apply Hs|exact Hst|done|]. do 5 (split; [done|]). split; [done|]. split; [done|]. simpl.
        apply Forall_insert; [done|]. simpl. by apply Forall_insert.
      * unfold sskel. simpl. rewrite (fmap_insert_same _ _ _ _ _ Hst); [apply sgrows_refl|]. unfold uskel. simpl.
        rewrite (fmap_insert_same _ _ _ _ _ Hus); [done|]. simpl. unfold blen. by rewrite length_insert.
    + simpl. erewrite ld_insert_eq by exact Hst. cbn [mbind option_bind]. simpl. erewrite ld_insert_eq by exact Hus.
      cbn [mbind option_bind]. simpl. erewrite ld_insert_eq by exact Hsc. done.
Qed.

(** A second write to the same list wins. *)
Lemma set_ctls_defined t a0 a s : get_ctls t s = Some a0 →
  ∃ s', set_ctls t a s = Some s' ∧ same_ctx s s' ∧ cur s' = cur s ∧ cm_mixer (ps_cm s') = cm_mixer (ps_cm s) ∧
    ∀ b, set_ctls t b s' = set_ctls t b s.
Proof.
  intros Ha. destruct t as [[|i j]|k u c]; simpl in Ha |- *.
  - eexists. split; [done|]. by split_and!.
  - apply bind_Some in Ha as (d & Hd & Ha). apply bind_Some in Ha as (p & Hp & [= <-]).
    erewrite alter_elem_Some; [|exact Hd|cbn beta; erewrite alter_elem_Some; [|exact Hp|done]; done].
    cbn [mbind option_bind]. eexists. split; [done|]. do 3 (split; [by try split_and!|]). intros b. simpl.
    erewrite alter_elem_Some; [|simpl; eapply ld_insert_eq; exact Hd|cbn beta; simpl; erewrite alter_elem_Some; [|simpl; eapply ld_insert_eq; exact Hp|done]; done].
    erewrite alter_elem_Some; [|exact Hd|cbn beta; erewrite alter_elem_Some; [|exact Hp|done]; done].
    simpl. by rewrite !list_insert_insert_eq.
  - apply bind_Some in Ha as (st & Hst & Ha). apply bind_Some in Ha as (us & Hus & Ha). apply bind_Some in Ha as (sc & Hsc & [= <-]).
    erewrite alter_elem_Some; [|exact Hst|cbn beta; erewrite alter_elem_Some;
      [|exact Hus|cbn beta; erewrite alter_elem_Some; [|exact Hsc|done]; done]; done].
    cbn [mbind option_bind]. eexists. split; [done|]. do 3 (split; [by try split_and!|]). intros b. simpl.
    erewrite alter_elem_Some; [|simpl; eapply ld_insert_eq; exact Hst|cbn beta; simpl; erewrite alter_elem_Some;
      [|simpl; eapply ld_insert_eq; exact Hus|cbn beta; simpl; erewrite alter_elem_Some; [|simpl; eapply ld_insert_eq; exact Hsc|done]; done]; done].
    erewrite alter_elem_Some; [|exact Hst|cbn beta; erewrite alter_elem_Some;
      [|exact Hus|cbn beta; erewrite alter_elem_Some; [|exact Hsc|done]; done]; done].
    simpl. by rewrite !list_insert_insert_eq.
Qed.

Lemma ld_dskel cm i n : ld (dskel cm) i = Some n → ∃ d, ld (elems (device_array cm)) i = Some d ∧ blen (elems (path_array d)) = n.
Proof. unfold dskel. rewrite ld_fmap. destruct (ld _ i) as [d|]; [|done]. intros [= <-]. eauto. Qed.
Lemma ld_sskel cm k us : ld (sskel cm) k = Some us → ∃ s, ld (elems (stream_array cm)) k = Some s ∧ uskel s = us.
Proof. unfold sskel. rewrite ld_fmap. destruct (ld _ k) as [d|]; [|done]. intros [= <-]. eauto. Qed.
Lemma ld_uskel s u m : ld (uskel s) u = Some m → ∃ uc, ld (elems (usecase_array s)) u = Some uc ∧ blen (elems (case_array uc)) = m.
Proof. unfold uskel. rewrite ld_fmap. destruct (ld _ u) as [d|]; [|done]. intros [= <-]. eauto. Qed.

Lemma target_ok s t : cfg s → target s = Some t → is_Some (get_ctls t s).
Proof.
  intros Hs. destruct (cf_ptrs _ Hs) as [_ P2 _ _ P5]. unfold target.
  destruct (cur_path (cur s)) as [[|i j]|] eqn:Ep.
  - intros [= <-]. simpl. eauto.
  - intros [= <-]. destruct (P2 i j eq_refl) as (n & Hn & Hj). apply ld_dskel in Hn as (d & Hd & <-).
    destruct (ld_lt _ _ Hj) as [p Hp]. simpl. rewrite Hd. cbn [mbind option_bind]. rewrite Hp. eauto.
  - destruct (cur_case (cur s)) as [[[k u] c]|] eqn:Ec; [|done]. intros [= <-].
    destruct (P5 k u c eq_refl) as (us & m & Hus & Hm & Hc). apply ld_sskel in Hus as (st & Hst & <-). apply ld_uskel in Hm as (uc & Huc & <-).
    destruct (ld_lt _ _ Hc) as [sc Hsc]. simpl. rewrite Hst. cbn [mbind option_bind]. rewrite Huc. cbn [mbind option_bind]. rewrite Hsc. eauto.
Qed.
End Cfg.

(** ** Numbers *)

Lemma read_digits_nonneg base s acc : 0 <= base → 0 <= acc → 0 <= (read_digits base s acc).1.
Proof.
  intros Hb. revert acc. induction s as [|a s IH]; intros acc Ha; simpl; [done|].
  destruct (digit_value a) as [d|] eqn:Ed; [|done]. destruct (d <? base); [|done]. apply IH.
  assert (0 <= d) by (unfold digit_value in Ed; repeat (case_match; zbool; simplify_eq; try lia)). nia.
Qed.

Lemma strtoul_range s : 0 <= (strtoul s).1 <= UINT_MAX.
Proof.
  unfold strtoul. destruct (read_sign (skip_space s)) as [neg t].
  assert (∀ (base : Z) (u : string), 0 <= base → 0 <= (if is_digit base u then
    let '(v, r) := read_digits base u 0 in (if v >? UINT_MAX then UINT_MAX else if neg then u32 (- v) else v, r) else (0, s)).1 <= UINT_MAX) as Hd.
  { intros base u Hb. destruct (is_digit base u); [|simpl; unfold UINT_MAX; lia].
    pose proof (read_digits_nonneg base u 0 Hb ltac:(lia)) as Hn. destruct (read_digits base u 0) as [v r]. simpl in *.
    destruct (Z.gtb_spec v UINT_MAX); [unfold UINT_MAX; lia|]. destruct neg; [|lia]. pose proof (u32_range (- v)). unfold UINT_MAX. lia. }
  destruct (read_hex_prefix t) as [t'|]; [apply Hd; lia|]. apply Hd. destruct t; [lia|]. case_bool_decide; lia.
Qed.

Lemma string_to_uint_range o r v : string_to_uint o = (r, Some v) → 0 <= v <= UINT_MAX ∧ r = 0.
Proof.
  unfold string_to_uint. destruct o as [str|]; [|done]. pose proof (strtoul_range str). destruct (strtoul str) as [x e].
  destruct (_ && _); [|done]. intros [= <- <-]. done.
Qed.
