(* ===== verification/AudioHandlers.v ===== *)
(** * The handlers of the configuration parser

    Every handler is defined wherever the grammar of the tables allows its
    element, and keeps the configuration well formed. *)

From S2P Require Import Prelude Monad Mixer DynArray Params AudioConfig AudioRoute AudioMachine AudioParse AudioParseSpec.

#[local] Open Scope string_scope.
#[local] Open Scope list_scope.
#[local] Open Scope Z_scope.

Section Handlers.
Context `{A : Alsa, !AlsaOk A} `{!AudioH} `{!Files} (Hmem : malloc_ok).
#[local] Hint Resolve Hmem : core.

Definition attrs_ok (req : list Z) (s : parse_state) : Prop :=
  blen (attr_value s) = 16 ∧ Forall (λ i, ∃ v, ld (attr_value s) i = Some (Some v)) req.

Lemma attrs_get req s i : attrs_ok req s → 0 <= i < 16 → ∃ v, ld (attr_value s) i = Some v.
Proof. intros [Hl _] Hi. apply ld_lt. lia. Qed.

Lemma parse_ctl_start_ok s : cfg s → attrs_ok [e_attrib_name; e_attrib_val] s → is_Some (target s) →
  (∀ v, ld (attr_value s) e_attrib_index = Some v → (string_to_uint v).1 ≠ - EINVAL) →
  runs parse_ctl_start s (λ _ s', cfg s' ∧ kept s s').
Proof.
  intros Hs Hat [t Ht] Hidx. pose proof Hat as [_ Hr]. apply Forall_cons in Hr as [[name Hn] Hr]. apply Forall_cons in Hr as [[v Hv] _].
  destruct (attrs_get _ _ e_attrib_index Hat ltac:(done)) as [ix Hix]. specialize (Hidx _ Hix).
  destruct (target_ok _ _ Hs Ht) as [a Ha]. pose proof (get_ctls_ok _ _ _ Hs Ha) as HF.
  unfold parse_ctl_start. apply runs_bind. eapply runs_attr_req; [done|]. apply runs_bind, runs_strdup; [done|].
  apply runs_bind, runs_get, runs_bind. eapply runs_lift; [done|]. apply runs_bind. eapply runs_lift; [done|].
  apply runs_bind, runs_extend; [done|by apply runs_ret; split_and!|]. intros a' Ea'.
  destruct (set_ctls_defined t a a' s Ha) as (s1 & E1 & (Hc1 & Hc2 & Hc3 & Hc4 & Hc5) & Hcur & Hmx & Hset).
  apply runs_bind. eapply runs_put; [exact E1|]. apply runs_bind. eapply runs_uint; [rewrite Hc3; exact Hix|].
  destruct (string_to_uint ix) as [r idx] eqn:Er. simpl in Hidx. destruct (Z.eqb_spec r (- EINVAL)); [done|].
  apply runs_bind. eapply runs_attr_req; [rewrite Hc3; exact Hv|]. apply runs_bind, runs_strdup; [done|].
  apply runs_bind. apply runs_silent. intros w Ew.
  eapply wp_mono; [apply ctl_open_wp; [apply Hs|]|].
  - split; [|simpl; eauto]. simpl. destruct idx as [x|]; [|done]. simpl. apply string_to_uint_range in Er as [? _]. lia.
  - intros [ret c] w' (Hsil & Hc & _). split; [done|]. simpl in Hc.
    assert (blen (elems a') - 1 = blen (elems a)) as Epos by (rewrite Ea', blen_snoc; lia). rewrite Epos.
    apply runs_bind. eapply runs_lift.
    { unfold set_elem. rewrite arena_insert_Some; [done|]. rewrite Ea', blen_snoc. pose proof (blen_nonneg (elems a)). lia. }
    rewrite Ea', insert_snoc.
    destruct (set_ctls_ok t a (mkArr (elems a ++ [c]) (cap a')) s Hs Ha) as (s2 & E2 & Hs2 & Hk2 & _).
    { apply Forall_app. split; [done|]. by apply Forall_singleton. }
    apply runs_bind. eapply runs_put; [rewrite Hset; exact E2|]. by apply runs_ret.
Qed.

(** The probe changes nothing but its own objects. *)
Definition probe_only (s s' : parse_state) : Prop :=
  stack_index s' = stack_index s ∧ stack_entry s' = stack_entry s ∧ parse_error s' = parse_error s ∧
  ps_cm s' = ps_cm s ∧ init_path s' = init_path s.

Abbreviation redirect s := (new_xml_file (init_probe s)).

Lemma parse_codec_case_start_ok s : cfg s → attrs_ok [e_attrib_name; e_attrib_file] s → cur_probe (cur s) = true →
  runs parse_codec_case_start s (λ _ s', cfg s' ∧ probe_only s s' ∧ cur s' = cur s ∧ stopped s' = stopped s ∧ redirect s' = redirect s).
Proof.
  intros Hs [_ Hr] Hp. apply Forall_cons in Hr as [[name Hn] Hr]. apply Forall_cons in Hr as [[f Hf] _].
  unfold parse_codec_case_start. apply runs_bind. eapply runs_attr_req; [done|]. apply runs_bind, runs_strdup; [done|].
  apply runs_bind. eapply runs_attr_req; [done|]. apply runs_bind, runs_strdup; [done|]. apply runs_bind, runs_get. rewrite Hp. cbn [negb].
  apply runs_bind, runs_extend; [done|by apply runs_ret; split_and!|]. intros a Ea. apply runs_bind, runs_upd, runs_ret. split; [|by split_and!].
  destruct Hs. split; simpl; try done. rewrite Ea. apply Forall_app. split; [done|]. apply Forall_singleton. simpl. eauto.
Qed.

Lemma cfg_cur s c : cfg s → (cur_probe c = true → is_Some (probe_file (init_probe s))) → ptrs_ok c (dskel (ps_cm s)) (sskel (ps_cm s)) → cfg (s <| cur := c |>).
Proof. intros [] ? ?. by split. Qed.

Lemma parse_init_start_ok s : cfg s →
  runs parse_init_start s (λ _ s', cfg s' ∧ same_ctx s s' ∧ cur s' = (cur s) <| cur_path := Some PInit |>).
Proof.
  intros Hs. apply runs_bind, runs_upd, runs_ret. split; [|by split_and!]. apply cfg_cur; [done|apply Hs|].
  destruct (cf_ptrs _ Hs). by split.
Qed.

Lemma parse_codec_probe_start_ok s : cfg s → attrs_ok [e_attrib_file] s →
  runs parse_codec_probe_start s (λ r s', cfg s' ∧ probe_only s s' ∧ stopped s' = stopped s ∧ redirect s' = redirect s ∧ (r = 0 → cur_probe (cur s') = true)).
Proof.
  intros Hs [_ Hr]. apply Forall_cons in Hr as [[f Hf] _].
  unfold parse_codec_probe_start. apply runs_bind. eapply runs_attr_req; [done|]. apply runs_bind, runs_strdup; [done|].
  apply runs_bind, runs_get. destruct (probe_file (init_probe s)) eqn:Ep; [by apply runs_ret; split_and!|].
  apply runs_bind, runs_upd, runs_bind, runs_upd, runs_ret. split; [|by split_and!]. destruct Hs as [????? ?? Hp]. split; simpl; try done.
  destruct Hp. by split.
Qed.

Lemma find_codec_ok l codec : Forall (λ cc, is_Some (codec_name cc) ∧ is_Some (cc_file cc)) l →
  ∃ r, find_codec l codec = Some r ∧ ∀ f, r = Some f → is_Some f.
Proof.
  induction 1 as [|cc l [[n Hn] Hf] _ IH]; simpl; [by exists None|]. rewrite Hn. cbn [mbind option_bind].
  case_bool_decide; [|done]. eexists. split; [done|]. by intros f [= <-].
Qed.

Lemma parse_codec_probe_end_ok s : cfg s → cur_probe (cur s) = true → redirect s = None →
  runs parse_codec_probe_end s (λ r s', r = 0 ∧ cfg s' ∧ probe_only s s' ∧ (stopped s' = None → redirect s' = None) ∧ cur_probe (cur s') = false).
Proof.
  intros Hs Hp Hre. destruct (cf_probe _ Hs Hp) as [f Hf]. destruct (cf_xml _ Hs) as [x Hx].
  unfold parse_codec_probe_end. apply runs_bind, runs_get. rewrite Hp. cbn [negb]. apply runs_bind, runs_fix; [done|]. intros a Ea.
  apply runs_bind, runs_upd, runs_bind, runs_upd.
  set (s1 := _ <| cur := _ |>).
  assert (cfg s1 ∧ probe_only s s1) as [Hs1 Hpo].
  { unfold s1. split; [|by split_and!]. destruct Hs as [????? ?? Hpt]. split; simpl; try done; [by rewrite Ea|]. destruct Hpt. by split. }
  assert (probe_file (init_probe s1) = Some f ∧ cur_xml_file s1 = Some x ∧ redirect s1 = None ∧ cur_probe (cur s1) = false) as (Hf1 & Hx1 & Hre1 & Hcp1) by done.
  assert (∀ p, codec_case_array p = codec_case_array (init_probe s1) → probe_file p = probe_file (init_probe s1) → ∀ st,
    cfg (s1 <| init_probe := p |> <| stopped := st |>)) as Hset.
  { intros p E1 E2 st. destruct Hs1. split; simpl; try done; by rewrite ?E1, ?E2. }
  clearbody s1. clear Hs. apply runs_bind.
  eapply (runs_mono _ _ (λ _ s', cfg s' ∧ probe_only s s' ∧ (stopped s' = None → redirect s' = None) ∧ cur_probe (cur s') = false)); [|intros r s' [? ?]; by apply runs_ret].
  unfold probe_config_file. apply runs_bind, runs_get, runs_bind. eapply runs_lift; [exact Hf1|].
  destruct (probe_line f) as [line|]; [|by apply runs_ret]. apply runs_bind, runs_upd.
  destruct (find_codec_ok _ (probe_trim_spaces (String.substring 0 39 line)) (cf_codecs _ Hs1)) as (r & Er & Hfile).
  apply runs_bind. eapply runs_lift; [exact Er|]. destruct r as [fo|].
  - destruct (Hfile _ eq_refl) as [f' ->]. apply runs_bind. eapply runs_lift; [done|]. apply runs_bind, runs_strdup; [done|].
    apply runs_bind. eapply runs_lift; [done|]. apply runs_bind, runs_upd. apply runs_bind. eapply runs_lift; [exact Hx1|].
    case_bool_decide; apply runs_bind, runs_upd, runs_ret.
    + split; [by apply (Hset (mkProbe _ _ _))|]. destruct Hpo as (?&?&?&?&?). by split_and!.
    + split; [by apply (Hset (mkProbe _ _ _))|]. destruct Hpo as (?&?&?&?&?). by split_and!.
  - apply runs_ret. split; [exact (Hset (mkProbe (probe_file (init_probe s1)) None (codec_case_array (init_probe s1))) eq_refl eq_refl (stopped s1))|]. destruct Hpo as (?&?&?&?&?). by split_and!.
Qed.

(** ** Devices and paths *)

Lemma match_device_in l name t : match_device l name = Some t → t ∈ l.*2.
Proof.
  induction l as [|[n d] l IH]; simpl; [done|]. case_bool_decide; [intros [= ->]; by left|]. intros Ht. right. by apply IH.
Qed.

Lemma land_lor_l a b : Z.land a (Z.lor b a) = a.
Proof. apply Z.bits_inj'. intros n _. rewrite Z.land_spec, Z.lor_spec. destruct (Z.testbit a n), (Z.testbit b n); done. Qed.
Lemma land_lor_keep a b c : Z.land a b = a → Z.land a (Z.lor b c) = a.
Proof.
  intros E. apply Z.bits_inj'. intros n _. rewrite Z.land_spec, Z.lor_spec.
  assert (Z.testbit (Z.land a b) n = Z.testbit a n) as E' by (by rewrite E). rewrite Z.land_spec in E'.
  destruct (Z.testbit a n), (Z.testbit b n), (Z.testbit c n); done.
Qed.

(** The device added to the masks of its direction. *)
Definition add_supported (t : Z) (cm : config_mgr) : config_mgr :=
  if t =? 0 then cm
  else if negb (Z.land t BIT_IN =? 0) then cm <| supported_input_devices := Z.lor (supported_input_devices cm) t |>
  else cm <| supported_output_devices := Z.lor (supported_output_devices cm) t |>.

Lemma add_supported_same t cm : device_array (add_supported t cm) = device_array cm ∧ stream_array (add_supported t cm) = stream_array cm ∧
  cm_mixer (add_supported t cm) = cm_mixer cm.
Proof. unfold add_supported. by repeat case_match. Qed.

Lemma cm_good_new_device n cm t a : cm_good n cm → t ∈ device_table.*2 → (t ≠ 0 → Z.land t (supported cm t) ≠ t) →
  elems a = elems (device_array cm) ++ [new_device t] → cm_good n ((add_supported t cm) <| device_array := a |>).
Proof.
  intros Hg Ht Hnew Ea. destruct (add_supported_same t cm) as (Ed & Es & Em). pose proof Hg as [Hm Hd Hs Hty Hsup Hnm Hrm].
  assert (types ((add_supported t cm) <| device_array := a |>) = types cm ++ [t]) as Etypes by (unfold types; simpl; rewrite Ea, fmap_app; done).
  split; simpl; rewrite ?Em, ?Es; try done.
  - rewrite Ea. apply Forall_app. split; [done|]. apply Forall_singleton. split_and!; [done|done|]. by apply Forall_nil.
  - rewrite Etypes, filter_app. apply NoDup_app. split_and!; [done| |].
    + intros x Hx Hx'. apply list_elem_of_filter in Hx' as [Hx0 Hx']. apply list_elem_of_singleton in Hx'. subst x.
      apply list_elem_of_filter in Hx as [_ Hx]. by apply Hnew, Hsup.
    + destruct (decide (t = 0)) as [->|]; [rewrite filter_cons_False by (by intros []); constructor|].
      rewrite filter_cons_True by done. apply NoDup_singleton.
  - intros x Hx. rewrite Etypes in Hx. apply elem_of_app in Hx as [Hx|Hx].
    + specialize (Hsup _ Hx). unfold supported, add_supported in *. destruct (t =? 0); [done|].
      destruct (Z.land t BIT_IN =? 0), (Z.land x BIT_IN =? 0); simpl in *; try done; by apply land_lor_keep.
    + apply list_elem_of_singleton in Hx as ->. unfold supported, add_supported. destruct (Z.eqb_spec t 0) as [->|]; [by rewrite !Z.land_0_l|].
      destruct (Z.land t BIT_IN =? 0); simpl; apply land_lor_l.
Qed.

Lemma parse_device_start_ok s : cfg s → attrs_ok [e_attrib_name] s →
  runs parse_device_start s (λ r s', cfg s' ∧ same_ctx s s' ∧ (r = 0 → is_Some (cur_device (cur s')))).
Proof.
  intros Hs [_ Hr]. apply Forall_cons in Hr as [[name Hn] _]. unfold parse_device_start. apply runs_bind. eapply runs_attr_req; [done|].
  destruct (parse_match_device name) as [t|] eqn:Et; [|by apply runs_ret; split_and!]. apply match_device_in in Et.
  apply runs_bind, runs_get. destruct (negb (t =? 0) && _) eqn:Edup; [by apply runs_ret; split_and!|].
  assert (t ≠ 0 → Z.land t (supported (ps_cm s) t) ≠ t) as Hnew.
  { intros Hnz. apply andb_false_iff in Edup as [Ex|Ex]; [by destruct (Z.eqb_spec t 0)|by apply Z.eqb_neq in Ex]. }
  apply runs_bind. eapply (runs_mono _ _ (λ _ s', s' = s <| ps_cm := add_supported t (ps_cm s) |>)).
  { unfold add_supported, when. destruct (t =? 0); simpl; [apply runs_ret; by destruct s|]. eapply runs_updCM; [done|].
    destruct (negb (Z.land t BIT_IN =? 0)); done. }
  intros _ s1 ->. destruct (add_supported_same t (ps_cm s)) as (Ed & Es & Em).
  assert (cm_good (blen (elems (path_name_array s))) (add_supported t (ps_cm s))) as Hg1.
  { destruct (cf_cm _ Hs) as [Hm Hd Hst Hty Hsup Hnm Hrm]. split; rewrite ?Em, ?Ed, ?Es; try done; unfold types in *; rewrite ?Ed; try done.
    intros x Hx. specialize (Hsup _ Hx). unfold supported, add_supported in *. destruct (t =? 0); [done|].
    destruct (Z.land t BIT_IN =? 0), (Z.land x BIT_IN =? 0); simpl in *; try done; by apply land_lor_keep. }
  apply runs_bind, runs_extend; [done| |].
  - apply runs_ret. split; [|by split_and!]. apply cfg_cm'; [done|done|done| |]; unfold dskel, sskel; rewrite ?Ed, ?Es; [apply grows_refl|apply sgrows_refl].
  - intros a Ea. apply runs_bind. eapply runs_updCM; [done|]. apply runs_bind, runs_upd, runs_ret. split; [|by split_and!].
    assert (dskel ((add_supported t (ps_cm s)) <| device_array := a |>) = dskel (ps_cm s) ++ [0]) as Esk
      by (unfold dskel; simpl; rewrite Ea, fmap_app; done).
    apply (cfg_cm s); [done|done|by apply cm_good_new_device; [apply Hs|..]| |apply Hs].
    pose proof (cf_ptrs _ Hs) as Hp. eapply (ptrs_grow _ _ _ (dskel ((add_supported t (ps_cm s)) <| device_array := a |>)) (sskel (ps_cm s))) in Hp;
      [|rewrite Esk; apply grows_app|apply sgrows_refl].
    replace (sskel _) with (sskel (ps_cm s)) by (unfold sskel; simpl; by rewrite Es).
    destruct Hp. split; simpl; try done. intros i [= <-]. rewrite Esk, Ea, blen_snoc.
    replace (blen (elems (device_array (ps_cm s))) + 1 - 1) with (blen (dskel (ps_cm s))) by (unfold dskel, blen; rewrite length_fmap; lia).
    rewrite arena_snoc. eauto.
Qed.

(** Device [i] with [l] more paths. *)
Definition with_paths (i : Z) (d : device) (a : arr path) (cm : config_mgr) : config_mgr :=
  cm <| device_array := mkArr (<[Z.to_nat i := d <| path_array := a |>]> (elems (device_array cm))) (cap (device_array cm)) |>.

Lemma runs_paths i d a s (Φ : () → parse_state → Prop) : ld (elems (device_array (ps_cm s))) i = Some d →
  Φ () (s <| ps_cm := with_paths i d a (ps_cm s) |>) →
  runs (updCM (λ cm, ds ← alter_elem i (λ d, Some (d <| path_array := a |>)) (device_array cm); Some (cm <| device_array := ds |>))) s Φ.
Proof. intros Hd HΦ. eapply runs_updCM; [erewrite alter_elem_Some; [|exact Hd|done]; done|]. exact HΦ. Qed.

Lemma with_paths_skel i d a cm : ld (elems (device_array cm)) i = Some d →
  dskel (with_paths i d a cm) = <[Z.to_nat i := blen (elems a)]> (dskel cm) ∧ sskel (with_paths i d a cm) = sskel cm.
Proof. intros Hd. split; [|done]. unfold dskel, with_paths. simpl. by rewrite list_fmap_insert. Qed.

Lemma with_paths_good n i d a l cm : cm_good n cm → ld (elems (device_array cm)) i = Some d → elems a = elems (path_array d) ++ l →
  Forall (path_good (cm_mixer cm) n) l → cm_good n (with_paths i d a cm).
Proof.
  intros Hg Hd Ea Hl. destruct (Forall_ld _ _ _ _ (cg_devs _ _ Hg) Hd) as (Hu & Ht & HF).
  eapply cm_good_device; [done|exact Hd|done|]. split_and!; [done|done|]. simpl. rewrite Ea. by apply Forall_app.
Qed.

Lemma with_paths_grows i d a l cm : ld (elems (device_array cm)) i = Some d → elems a = elems (path_array d) ++ l →
  grows (dskel cm) (dskel (with_paths i d a cm)).
Proof.
  intros Hd Ea. destruct (with_paths_skel i d a cm Hd) as [-> _]. eapply grows_insert; [unfold dskel; by rewrite ld_fmap, Hd|].
  rewrite Ea. unfold blen. rewrite length_app. lia.
Qed.

Lemma parse_device_end_ok s : cfg s → is_Some (cur_device (cur s)) →
  runs parse_device_end s (λ r s', r = 0 ∧ cfg s' ∧ same_ctx s s').
Proof.
  intros Hs [i Hi]. destruct (po_device _ _ _ (cf_ptrs _ Hs) i Hi) as [n Hn]. apply ld_dskel in Hn as (d & Hd & _).
  unfold parse_device_end. apply runs_bind, runs_get, runs_bind. eapply runs_lift; [exact Hi|]. apply runs_bind. eapply runs_lift; [exact Hd|].
  apply runs_bind, runs_fix; [done|]. intros a Ea. rewrite <- (app_nil_r (elems (path_array d))) in Ea.
  apply runs_bind. eapply runs_paths; [exact Hd|]. apply runs_ret. split; [done|]. split; [|by split_and!].
  apply cfg_cm'; [done|done|by eapply with_paths_good; [apply Hs|..]|by eapply with_paths_grows|apply sgrows_refl].
Qed.

(** ** Names *)

Lemma last_name_ld l name i j : last_name l name i = Some j → i <= j < i + blen l.
Proof.
  revert i j. induction l as [|n l IH]; intros i j; simpl; [done|]. unfold blen in *. simpl.
  destruct (last_name l name (i + 1)) as [j'|] eqn:E; [intros [= <-]; apply IH in E; lia|]. case_bool_decide; [intros [= <-]; lia|done].
Qed.
Lemma last_name_none l name i : last_name l name i = None → name ∉ l.
Proof.
  revert i. induction l as [|n l IH]; intros i; simpl; [intros _; by apply not_elem_of_nil|].
  destruct (last_name l name (i + 1)) as [j'|] eqn:E; [done|]. case_bool_decide; [done|]. intros _. apply IH in E.
  intros Hin. apply elem_of_cons in Hin as [->|?]; done.
Qed.

Lemma find_path_name_range s name : find_path_name s name < blen (elems (path_name_array s)).
Proof.
  unfold find_path_name. destruct (last_name _ _ _) as [j|] eqn:E; simpl; [apply last_name_ld in E; lia|].
  pose proof (blen_nonneg (elems (path_name_array s))). unfold EINVAL. lia.
Qed.

Lemma add_path_name_ok name s : cfg s →
  runs (add_path_name name) s (λ id s', cfg s' ∧ same_ctx s s' ∧ ps_cm s' = ps_cm s ∧ cur s' = cur s ∧
    (0 <= id → id < blen (elems (path_name_array s')))).
Proof.
  intros Hs. unfold add_path_name. apply runs_bind, runs_get. pose proof (find_path_name_range s name) as Hr.
  destruct (find_path_name s name >=? 0) eqn:E; [by apply runs_ret; split_and!|]. zbool.
  apply runs_bind, runs_strdup; [done|]. apply runs_bind, runs_extend; [done|by apply runs_ret; split_and!|]. intros a Ea.
  apply runs_bind, runs_upd, runs_ret. simpl. rewrite Ea, blen_snoc. split; [|split_and!; done || lia].
  destruct Hs as [Hcm Hi (l & Hn) Hnd]. split; simpl; try done.
  - rewrite Ea, blen_snoc. eapply cm_good_mono; [|done]. lia.
  - rewrite Ea, Hn. by exists (l ++ [name]).
  - rewrite Ea. apply NoDup_app. split_and!; [done| |apply NoDup_singleton]. intros x Hx Hx'. apply list_elem_of_singleton in Hx'. subst x.
    unfold find_path_name in E. destruct (last_name (elems (path_name_array s)) name 0) as [j|] eqn:El.
    + simpl in E. apply last_name_ld in El. lia.
    + by apply last_name_none in El.
Qed.

Lemma parse_path_start_ok s : cfg s → attrs_ok [e_attrib_name] s → is_Some (cur_device (cur s)) →
  runs parse_path_start s (λ r s', cfg s' ∧ same_ctx s s' ∧ cur_device (cur s') = cur_device (cur s) ∧ (r = 0 → is_Some (cur_path (cur s')))).
Proof.
  intros Hs [_ Hr] [i Hi]. apply Forall_cons in Hr as [[name Hn] _]. unfold parse_path_start. apply runs_bind. eapply runs_attr_req; [done|].
  apply runs_bind, runs_get, runs_bind. eapply runs_lift; [exact Hi|]. apply runs_bind.
  eapply runs_mono; [by apply add_path_name_ok|]. intros id s1 (Hs1 & Hc1 & Ecm & Ecur & Hid).
  destruct (Z.ltb_spec id 0). { apply runs_ret. rewrite Ecur. split; [done|]. split; [done|]. split; [done|lia]. }
  rewrite <- Ecur in Hi. destruct (po_device _ _ _ (cf_ptrs _ Hs1) i Hi) as [n Hnn]. apply ld_dskel in Hnn as (d & Hd & _).
  rewrite <- Ecm. apply runs_bind. eapply runs_lift; [exact Hd|]. apply runs_bind, runs_extend; [done| |].
  { apply runs_ret. rewrite Ecur. split_and!; done || by destruct Hc1 as (?&?&?&?&?). }
  intros a Ea. apply runs_bind. eapply runs_paths; [exact Hd|]. apply runs_bind, runs_upd, runs_ret. simpl.
  split; [|split; [|split; [by rewrite Ecur|by eauto]]]; [|by destruct Hc1 as (?&?&?&?&?)].
  destruct (with_paths_skel i d a (ps_cm s1) Hd) as [Ed Es].
  apply (cfg_cm s1); [done|done| | |apply Hs1].
  - eapply with_paths_good; [apply Hs1|exact Hd|exact Ea|]. apply Forall_singleton. split; [simpl; lia|]. by apply Forall_nil.
  - pose proof (cf_ptrs _ Hs1) as Hp. eapply (ptrs_grow _ _ _ (dskel (with_paths i d a (ps_cm s1))) (sskel (ps_cm s1))) in Hp;
      [|by eapply with_paths_grows|apply sgrows_refl].
    rewrite Es. destruct Hp. split; simpl; try done. intros i' j [= <- <-]. exists (blen (elems a)). rewrite Ed. split.
    + eapply (ld_insert_eq _ _ _ (blen (elems (path_array d)))). unfold dskel. by rewrite ld_fmap, Hd.
    + rewrite Ea, blen_snoc. pose proof (blen_nonneg (elems (path_array d))). lia.
Qed.

(** Shrinking a list of controls. *)
Lemma fix_put_ok {X} t a (k : ST (aworld parse_state) X) s Φ : cfg s → get_ctls t s = Some a →
  (∀ s', cfg s' → kept s s' → runs k s' Φ) → runs (a' ← fix_ a; put_ctls t a';; k) s Φ.
Proof.
  intros Hs Ha HΦ. apply runs_bind, runs_fix; [done|]. intros a' Ea.
  destruct (set_ctls_ok t a a' s Hs Ha) as (s' & E & Hs' & Hk & _); [rewrite Ea; by eapply get_ctls_ok|].
  apply runs_bind. eapply runs_put; [exact E|]. by apply HΦ.
Qed.

Lemma cur_path_ok s r : cfg s → cur_path (cur s) = Some r → is_Some (get_ctls (TPath r) s).
Proof. intros Hs E. apply target_ok; [done|]. unfold target. by rewrite E. Qed.

Lemma parse_path_end_ok s : cfg s → is_Some (cur_path (cur s)) →
  runs parse_path_end s (λ r s', r = 0 ∧ cfg s' ∧ same_ctx s s' ∧ cur s' = (cur s) <| cur_path := None |>).
Proof.
  intros Hs [r Hr]. destruct (cur_path_ok _ _ Hs Hr) as [a Ha]. unfold parse_path_end. apply runs_bind, runs_get, runs_bind. eapply runs_lift; [exact Hr|].
  apply runs_bind. eapply runs_lift; [exact Ha|]. eapply fix_put_ok; [done|exact Ha|]. intros s' Hs' (Hc & Hcur & Hm).
  apply runs_bind, runs_upd, runs_ret. split; [done|]. split; [|split; [|simpl; by rewrite Hcur]].
  - apply cfg_cur; [done|apply Hs'|]. destruct (cf_ptrs _ Hs'). by split.
  - by destruct Hc as (?&?&?&?&?).
Qed.

(** ** Streams *)

Definition with_str (k : Z) (st : stream) (cm : config_mgr) : config_mgr :=
  cm <| stream_array := mkArr (<[Z.to_nat k := st]> (elems (stream_array cm))) (cap (stream_array cm)) |>.

Lemma runs_stream k f st st' s (Φ : () → parse_state → Prop) : ld (elems (stream_array (ps_cm s))) k = Some st → f st = Some st' →
  Φ () (s <| ps_cm := with_str k st' (ps_cm s) |>) → runs (upd_stream k f) s Φ.
Proof. intros Hk Hf HΦ. eapply runs_updCM; [erewrite alter_elem_Some; [|exact Hk|exact Hf]; done|]. exact HΦ. Qed.

Lemma with_str_skel k st cm : dskel (with_str k st cm) = dskel cm ∧ sskel (with_str k st cm) = <[Z.to_nat k := uskel st]> (sskel cm).
Proof. split; [done|]. unfold sskel, with_str. simpl. by rewrite list_fmap_insert. Qed.

Lemma cfg_stream s k st st' : cfg s → ld (elems (stream_array (ps_cm s))) k = Some st → s_name st' = s_name st →
  str_good (cm_mixer (ps_cm s)) (blen (elems (path_name_array s))) st' → grows (uskel st) (uskel st') →
  cfg (s <| ps_cm := with_str k st' (ps_cm s) |>).
Proof.
  intros Hs Hk Hn Hg Hgr. apply cfg_cm'; [done|done|by eapply cm_good_stream; [apply Hs|..]|apply grows_refl|].
  destruct (with_str_skel k st' (ps_cm s)) as [_ ->]. eapply sgrows_insert; [|exact Hgr]. unfold sskel. by rewrite ld_fmap, Hk.
Qed.

Lemma cur_stream_ok s k : cfg s → cur_stream (cur s) = Some k → ∃ st, ld (elems (stream_array (ps_cm s))) k = Some st ∧
  str_good (cm_mixer (ps_cm s)) (blen (elems (path_name_array s))) st.
Proof.
  intros Hs Hk. destruct (po_stream _ _ _ (cf_ptrs _ Hs) k Hk) as [us Hus]. apply ld_sskel in Hus as (st & Hst & _). exists st.
  split; [done|]. by apply (Forall_ld _ _ _ _ (cg_strs _ _ (cf_cm _ Hs)) Hst).
Qed.

Lemma parse_stream_end_ok s : cfg s → is_Some (cur_stream (cur s)) → runs parse_stream_end s (λ r s', r = 0 ∧ cfg s' ∧ same_ctx s s').
Proof.
  intros Hs [k Hk]. destruct (cur_stream_ok s k Hs Hk) as (st & Hst & Hg). unfold parse_stream_end.
  apply runs_bind, runs_get, runs_bind. eapply runs_lift; [exact Hk|]. apply runs_bind. eapply runs_lift; [exact Hst|].
  apply runs_bind, runs_fix; [done|]. intros a Ea. apply runs_bind. eapply runs_stream; [exact Hst|done|]. apply runs_ret.
  split; [done|]. split; [|by split_and!]. eapply cfg_stream; [done|exact Hst|done| |].
  - destruct Hg as (?&?&?&?&?&?&?&HF). do 7 (split; [done|]). simpl. by rewrite Ea.
  - unfold uskel. simpl. rewrite Ea. apply grows_refl.
Qed.

Lemma parse_enable_disable_start_ok b s : cfg s → attrs_ok [e_attrib_path] s → is_Some (cur_stream (cur s)) →
  runs (parse_enable_disable_start b) s (λ _ s', cfg s' ∧ kept s s').
Proof.
  intros Hs [_ Hr] [k Hk]. apply Forall_cons in Hr as [[name Hn] _]. destruct (cur_stream_ok s k Hs Hk) as (st & Hst & Hg).
  unfold parse_enable_disable_start. apply runs_bind. eapply runs_attr_req; [done|]. apply runs_bind, runs_get.
  pose proof (find_path_name_range s name). destruct (Z.ltb_spec (find_path_name s name) 0); [by apply runs_ret; split_and!|].
  apply runs_bind. eapply runs_lift; [exact Hk|]. apply runs_bind. eapply runs_stream; [exact Hst|done|]. apply runs_ret.
  split; [|by split_and!]. destruct Hg as (?&?&?&?&?&?&?&HF).
  assert (id_good (blen (elems (path_name_array s))) (find_path_name s name)) by (right; lia).
  eapply cfg_stream; [done|exact Hst|by destruct b| |]; destruct b; try (by do 7 (split; [done|])); apply grows_refl.
Qed.

Lemma parse_usecase_start_ok s : cfg s → attrs_ok [e_attrib_name] s → is_Some (cur_stream (cur s)) →
  runs parse_usecase_start s (λ r s', cfg s' ∧ same_ctx s s' ∧ cur_stream (cur s') = cur_stream (cur s) ∧ (r = 0 → is_Some (cur_usecase (cur s')))).
Proof.
  intros Hs [_ Hr] [k Hk]. apply Forall_cons in Hr as [[name Hn] _]. destruct (cur_stream_ok s k Hs Hk) as (st & Hst & Hg).
  unfold parse_usecase_start. apply runs_bind. eapply runs_attr_req; [done|]. apply runs_bind, runs_strdup; [done|].
  apply runs_bind, runs_get, runs_bind. eapply runs_lift; [exact Hk|]. apply runs_bind. eapply runs_lift; [exact Hst|].
  apply runs_bind, runs_extend; [done|by apply runs_ret; split_and!|]. intros a Ea.
  apply runs_bind. eapply runs_stream; [exact Hst|done|]. apply runs_bind, runs_upd, runs_ret. simpl.
  split; [|split; [by split_and!|split; [done|by eauto]]].
  assert (uskel (st <| usecase_array := a |>) = uskel st ++ [0]) as Eu by (unfold uskel; simpl; rewrite Ea, fmap_app; done).
  assert (cfg (s <| ps_cm := with_str k (st <| usecase_array := a |>) (ps_cm s) |>)) as Hc.
  { eapply cfg_stream; [done|exact Hst|done| |rewrite Eu; apply grows_app]. destruct Hg as (?&?&?&?&?&?&?&HF). do 7 (split; [done|]). simpl.
    rewrite Ea. apply Forall_app. split; [done|]. apply Forall_singleton. by apply Forall_nil. }
  apply (cfg_cur _ _ Hc); [apply Hs|]. destruct (cf_ptrs _ Hc) as [????]. split; simpl; try done. intros k' u [= <- <-]. eexists.
  destruct (with_str_skel k (st <| usecase_array := a |>) (ps_cm s)) as [_ ->]. split.
  - eapply ld_insert_eq. unfold sskel. rewrite ld_fmap, Hst. done.
  - rewrite Eu. replace (blen (elems a) - 1) with (blen (uskel st)) by (rewrite Ea, blen_snoc; unfold uskel, blen; rewrite length_fmap; lia).
    rewrite arena_snoc. eauto.
Qed.

(** A use case with [l] more cases. *)
Definition with_uc (u : Z) (uc : usecase) (a : arr scase) (st : stream) : stream :=
  st <| usecase_array := mkArr (<[Z.to_nat u := uc <| case_array := a |>]> (elems (usecase_array st))) (cap (usecase_array st)) |>.

Lemma cur_usecase_ok s k u : cfg s → cur_usecase (cur s) = Some (k, u) → ∃ st uc, ld (elems (stream_array (ps_cm s))) k = Some st ∧
  ld (elems (usecase_array st)) u = Some uc ∧ get_usecase k u s = Some uc ∧
  str_good (cm_mixer (ps_cm s)) (blen (elems (path_name_array s))) st.
Proof.
  intros Hs Hk. destruct (po_usecase _ _ _ (cf_ptrs _ Hs) k u Hk) as (us & Hus & [n Hn]). apply ld_sskel in Hus as (st & Hst & <-).
  apply ld_uskel in Hn as (uc & Huc & _). exists st, uc. split_and!; [done|done|unfold get_usecase; rewrite Hst; done|].
  by apply (Forall_ld _ _ _ _ (cg_strs _ _ (cf_cm _ Hs)) Hst).
Qed.

Lemma runs_usecase k u a st uc s (Φ : () → parse_state → Prop) : ld (elems (stream_array (ps_cm s))) k = Some st →
  ld (elems (usecase_array st)) u = Some uc → Φ () (s <| ps_cm := with_str k (with_uc u uc a st) (ps_cm s) |>) →
  runs (upd_usecase k u (λ uc, Some (uc <| case_array := a |>))) s Φ.
Proof. intros Hk Hu HΦ. eapply runs_stream; [exact Hk|cbn beta; erewrite alter_elem_Some; [|exact Hu|done]; done|]. exact HΦ. Qed.

Lemma cfg_usecase s k u a l st uc : cfg s → ld (elems (stream_array (ps_cm s))) k = Some st → ld (elems (usecase_array st)) u = Some uc →
  str_good (cm_mixer (ps_cm s)) (blen (elems (path_name_array s))) st →
  elems a = elems (case_array uc) ++ l → Forall (λ c, Forall (ctl_ok (cm_mixer (ps_cm s))) (elems (case_ctls c))) l →
  cfg (s <| ps_cm := with_str k (with_uc u uc a st) (ps_cm s) |>).
Proof.
  intros Hs Hk Hu Hg Ea Hl. destruct Hg as (?&?&?&?&?&?&?&HF). pose proof (Forall_ld _ _ _ _ HF Hu) as HF'.
  eapply cfg_stream; [done|exact Hk|done| |].
  - do 7 (split; [done|]). simpl. apply Forall_insert; [done|]. simpl. rewrite Ea. by apply Forall_app.
  - unfold uskel. simpl. rewrite list_fmap_insert. eapply grows_insert; [by rewrite ld_fmap, Hu|]. simpl. rewrite Ea.
    unfold blen. rewrite length_app. lia.
Qed.

Lemma parse_usecase_end_ok s : cfg s → is_Some (cur_usecase (cur s)) →
  runs parse_usecase_end s (λ r s', r = 0 ∧ cfg s' ∧ kept s s').
Proof.
  intros Hs [[k u] Hk]. destruct (cur_usecase_ok s k u Hs Hk) as (st & uc & Hst & Huc & Hget & Hg). unfold parse_usecase_end.
  apply runs_bind, runs_get, runs_bind. eapply runs_lift; [exact Hk|]. apply runs_bind. eapply runs_lift; [exact Hget|].
  apply runs_bind, runs_fix; [done|]. intros a Ea. apply runs_bind. eapply runs_usecase; [exact Hst|exact Huc|]. apply runs_ret.
  split; [done|]. split; [|by split_and!]. eapply (cfg_usecase s k u a []); try done. by rewrite app_nil_r.
Qed.

Lemma parse_case_start_ok s : cfg s → attrs_ok [e_attrib_name] s → is_Some (cur_usecase (cur s)) →
  runs parse_case_start s (λ r s', cfg s' ∧ same_ctx s s' ∧ cur_stream (cur s') = cur_stream (cur s) ∧ cur_usecase (cur s') = cur_usecase (cur s) ∧
    (r = 0 → is_Some (cur_case (cur s')))).
Proof.
  intros Hs [_ Hr] [[k u] Hk]. apply Forall_cons in Hr as [[name Hn] _].
  destruct (cur_usecase_ok s k u Hs Hk) as (st & uc & Hst & Huc & Hget & Hg).
  unfold parse_case_start. apply runs_bind. eapply runs_attr_req; [done|]. apply runs_bind, runs_strdup; [done|].
  apply runs_bind, runs_get, runs_bind. eapply runs_lift; [exact Hk|]. apply runs_bind. eapply runs_lift; [exact Hget|].
  apply runs_bind, runs_extend; [done|by apply runs_ret; split_and!|]. intros a Ea.
  apply runs_bind. eapply runs_usecase; [exact Hst|exact Huc|]. apply runs_bind, runs_upd, runs_ret. simpl.
  split; [|split; [by split_and!|split; [done|split; [done|by eauto]]]].
  assert (cfg (s <| ps_cm := with_str k (with_uc u uc a st) (ps_cm s) |>)) as Hc.
  { eapply cfg_usecase; [done|exact Hst|exact Huc|done|exact Ea|]. apply Forall_singleton. by apply Forall_nil. }
  apply (cfg_cur _ _ Hc); [apply Hs|]. destruct (cf_ptrs _ Hc) as [????]. split; simpl; try done. intros k' u' c [= <- <- <-].
  exists (uskel (with_uc u uc a st)), (blen (elems a)). destruct (with_str_skel k (with_uc u uc a st) (ps_cm s)) as [_ ->]. split_and!.
  - eapply ld_insert_eq. unfold sskel. rewrite ld_fmap, Hst. done.
  - unfold uskel. simpl. rewrite list_fmap_insert. eapply (ld_insert_eq _ _ _ (blen (elems (case_array uc)))). by rewrite ld_fmap, Huc.
  - rewrite Ea, blen_snoc. pose proof (blen_nonneg (elems (case_array uc))). lia.
  - lia.
Qed.

Lemma parse_case_end_ok s : cfg s → is_Some (cur_case (cur s)) →
  runs parse_case_end s (λ r s', r = 0 ∧ cfg s' ∧ same_ctx s s' ∧ cur s' = (cur s) <| cur_case := None |>).
Proof.
  intros Hs [[[k u] c] Hr]. destruct (po_case _ _ _ (cf_ptrs _ Hs) k u c Hr) as (us & m & Hus & Hm & Hc).
  apply ld_sskel in Hus as (st & Hst & <-). apply ld_uskel in Hm as (uc & Huc & <-). destruct (ld_lt _ _ Hc) as [sc Hsc].
  unfold parse_case_end. apply runs_bind, runs_get, runs_bind. eapply runs_lift; [exact Hr|]. apply runs_bind.
  assert (get_ctls (TCase k u c) s = Some (case_ctls sc)) as Ha
    by (simpl; rewrite Hst; cbn [mbind option_bind]; rewrite Huc; cbn [mbind option_bind]; by rewrite Hsc).
  eapply runs_lift; [exact Ha|]. eapply fix_put_ok; [done|exact Ha|]. intros s' Hs' (Hc' & Hcur & Hmx).
  apply runs_bind, runs_upd, runs_ret. split; [done|]. split; [|split; [|simpl; by rewrite Hcur]].
  - apply cfg_cur; [done|apply Hs'|]. destruct (cf_ptrs _ Hs'). by split.
  - by destruct Hc' as (?&?&?&?&?).
Qed.

(** One of the two volume controls. *)
Definition get_vol (left : bool) (st : stream) : stream_control := if left then volume_left st else volume_right st.
Definition upd_vol (left : bool) (f : stream_control → stream_control) (st : stream) : stream :=
  if left then st <| volume_left := f (volume_left st) |> else st <| volume_right := f (volume_right st) |>.

Lemma runs_vol left f k st s (Φ : () → parse_state → Prop) : cfg s → ld (elems (stream_array (ps_cm s))) k = Some st →
  vol_ok (cm_mixer (ps_cm s)) (f (get_vol left st)) →
  (∀ s', cfg s' → kept s s' → ld (elems (stream_array (ps_cm s'))) k = Some (upd_vol left f st) → Φ () s') →
  runs (upd_stream k (λ st, Some (upd_vol left f st))) s Φ.
Proof.
  intros Hs Hk Hv HΦ. pose proof (Forall_ld _ _ _ _ (cg_strs _ _ (cf_cm _ Hs)) Hk) as (?&?&?&?&?&?&?&HF).
  eapply runs_stream; [exact Hk|done|]. apply HΦ.
  - eapply cfg_stream; [done|exact Hk|by destruct left| |by destruct left; apply grows_refl].
    destruct left; do 5 (split; [done|]); split; try done; by split.
  - by split_and!.
  - simpl. by eapply ld_insert_eq.
Qed.

Lemma parse_stream_ctl_start_ok s : cfg s → attrs_ok [e_attrib_name; e_attrib_function] s → is_Some (cur_stream (cur s)) →
  runs parse_stream_ctl_start s (λ _ s', cfg s' ∧ kept s s').
Proof.
  intros Hs Hat [k Hk]. pose proof Hat as [_ Hr]. apply Forall_cons in Hr as [[name Hn] Hr]. apply Forall_cons in Hr as [[fn Hf] _].
  destruct (cur_stream_ok s k Hs Hk) as (st & Hst & _).
  destruct (attrs_get _ _ e_attrib_index Hat ltac:(done)) as [ix Hix]. destruct (attrs_get _ _ e_attrib_min Hat ltac:(done)) as [mi Hmi].
  destruct (attrs_get _ _ e_attrib_max Hat ltac:(done)) as [ma Hma].
  unfold parse_stream_ctl_start. apply runs_bind. eapply runs_attr_req; [done|]. apply runs_bind. eapply runs_attr_req; [done|].
  apply runs_bind, runs_get. destruct (mixer_get_ctl_by_name _ name) as [c|] eqn:Ec; [|by apply runs_ret; split_and!].
  destruct (ctl_by_name _ _ _ (cg_mixer _ _ (cf_cm _ Hs)) Ec) as (_ & _ & Hat').
  apply runs_bind. eapply runs_uint; [exact Hix|]. destruct (string_to_uint ix) as [r idx] eqn:Er.
  destruct (r =? - EINVAL); [by apply runs_ret; split_and!|]. apply runs_bind. eapply runs_lift; [exact Hk|].
  set (left := bool_decide (fn = "leftvol")). destruct (negb left && _); [by apply runs_ret; split_and!|].
  assert (0 <= default 0 idx) as Hi by (destruct idx; [apply string_to_uint_range in Er as [? _]; simpl; lia|done]).
  assert (vol_ok (cm_mixer (ps_cm s)) (get_vol left st)) as Hv0.
  { pose proof (Forall_ld _ _ _ _ (cg_strs _ _ (cf_cm _ Hs)) Hst) as (?&?&?&?&?&?&?&_). by destruct left. }
  fold (upd_vol left). apply runs_bind. apply (runs_vol left (λ v, mkSC (sc_id v) (default 0 idx) (sc_min v) (sc_max v)) k st); [done|done| |].
  { destruct Hv0 as [?|[_ ?]]; [by left|by right]. }
  intros s1 Hs1 Hk1 Hst1. pose proof Hk1 as ((_&_&Ha1&_&_) & _ & Hm1). apply runs_bind. eapply runs_uint; [rewrite Ha1; exact Hmi|].
  destruct (limit _ _) as [e|lo]; [by apply runs_ret|]. apply runs_bind.
  apply (runs_vol left (λ v, mkSC (sc_id v) (sc_index v) lo (sc_max v)) k _ _ _ Hs1 Hst1).
  { rewrite Hm1. unfold vol_ok. destruct left; simpl; (destruct Hv0 as [?|[_ ?]]; [by left|by right]). }
  intros s2 Hs2 Hk2 Hst2. pose proof Hk2 as ((_&_&Ha2&_&_) & _ & Hm2). apply runs_bind. eapply runs_uint; [rewrite Ha2, Ha1; exact Hma|].
  assert (∀ s3, kept s2 s3 → kept s s3) as Hk3.
  { intros s3 [Hc3 [Hcur3 Hm3]]. destruct Hk1 as [Hc1 [Hcur1 _]], Hk2 as [Hc2 [Hcur2 _]]. split_and!; [|congruence|congruence].
    transitivity s2; [|done]. by transitivity s1. }
  destruct (limit _ _) as [e|hi]; [apply runs_ret; split; [done|by apply Hk3]|]. apply runs_bind.
  apply (runs_vol left (λ v, mkSC (mixer_ctl_get_id (Some c)) (sc_index v) (sc_min v) hi) k _ _ _ Hs2 Hst2).
  { rewrite Hm2, Hm1. right. split; [by destruct left|]. cbn [sc_id]. rewrite Hat'. eauto. }
  intros s3 Hs3 Hk23 _. apply runs_ret. split; [done|by apply Hk3].
Qed.

(** A configuration with one more stream. *)
Definition with_new (st : stream) (c : Z) (cm : config_mgr) : config_mgr :=
  cm <| stream_array := mkArr (elems (stream_array cm) ++ [st]) c |>.

Lemma runs_new (f : stream → stream) st c s (Φ : () → parse_state → Prop) :
  Φ () (s <| ps_cm := with_new (f st) c (ps_cm s) |>) →
  runs (upd_stream (blen (elems (stream_array (ps_cm s)))) (λ st, Some (f st))) (s <| ps_cm := with_new st c (ps_cm s) |>) Φ.
Proof.
  intros HΦ. eapply runs_stream; [apply arena_snoc|done|]. unfold with_str. simpl. by rewrite insert_snoc.
Qed.

Lemma find_named_none l name i : find_named l name i = None → name ∉ omap s_name l.
Proof.
  revert i. unfold omap. induction l as [|s l IH]; intros i; simpl; [intros _; by apply not_elem_of_nil|]. case_bool_decide as E; [done|].
  intros Hn%IH. destruct (s_name s) as [n|]; [|done]. intros Hin. apply elem_of_cons in Hin as [->|?]; done.
Qed.

Lemma cfg_new s st c : cfg s → blen (elems (stream_array (ps_cm s))) + 1 <= c <= 0xFFFF → str_good (cm_mixer (ps_cm s)) (blen (elems (path_name_array s))) st →
  (∀ name, s_name st = Some name → find_named_stream (ps_cm s) name = None) → cfg (s <| ps_cm := with_new st c (ps_cm s) |>).
Proof.
  intros Hs Hroom Hg Hn. apply cfg_cm'; [done|done| |apply grows_refl|unfold sskel; simpl; rewrite fmap_app; apply sgrows_app].
  destruct (cf_cm _ Hs) as [Hm Hd Hst Hty Hsup Hnm]. split; try done; simpl.
  - apply Forall_app. split; [done|]. by apply Forall_singleton.
  - rewrite omap_app. apply NoDup_app. split_and!; [done| |].
    + intros x Hx Hx'. unfold omap in Hx'. simpl in Hx'. destruct (s_name st) as [n|] eqn:En; [|by apply not_elem_of_nil in Hx'].
      apply list_elem_of_singleton in Hx' as ->. by apply (find_named_none _ _ _ (Hn _ eq_refl)).
    + unfold omap. simpl. destruct (s_name st); [apply NoDup_singleton|constructor].
  - unfold arr_ok. simpl. by rewrite blen_snoc.
Qed.

Lemma runs_opt req i dflt k s (Φ : Z → parse_state → Prop) : attrs_ok req s → 0 <= i < 16 →
  Φ (- EINVAL) s → (∀ v, runs (k v) s Φ) → runs (opt_uint i dflt k) s Φ.
Proof.
  intros Ha Hi HE Hk. destruct (attrs_get _ _ _ Ha Hi) as [v Hv]. unfold opt_uint. apply runs_bind. eapply runs_uint; [exact Hv|].
  destruct (string_to_uint v) as [r x]. destruct (r =? - EINVAL); [by apply runs_ret|by apply Hk].
Qed.

Lemma new_stream_good m n f : 2 <= n → str_good m n (new_stream <| s_info := f |>).
Proof. intros Hn. do 3 (split; [done|]). split; [by left|]. split; [by left|]. split; [by left|]. split; [by left|]. by apply Forall_nil. Qed.

Lemma names_two s : cfg s → 2 <= blen (elems (path_name_array s)).
Proof. intros Hs. destruct (cf_names _ Hs) as [l ->]. unfold blen. simpl. lia. Qed.

Lemma parse_stream_start_ok s : cfg s → attrs_ok [e_attrib_type] s →
  runs parse_stream_start s (λ r s', cfg s' ∧ same_ctx s s' ∧ (r = 0 → is_Some (cur_stream (cur s')))).
Proof.
  intros Hs Hat. pose proof (names_two _ Hs) as H2. pose proof Hat as [_ Hr]. apply Forall_cons in Hr as [[type Ht] _].
  destruct (attrs_get _ _ e_attrib_dir Hat ltac:(done)) as [dir Hdir]. destruct (attrs_get _ _ e_attrib_name Hat ltac:(done)) as [name Hname].
  unfold parse_stream_start. apply runs_bind. eapply runs_attr_req; [done|]. apply runs_bind. eapply runs_attr; [done|].
  apply runs_bind. eapply runs_attr; [done|]. apply runs_bind.
  eapply (runs_mono _ _ (λ b s', b = true ∧ s' = s)); [destruct name; [by apply runs_malloc|by apply runs_ret]|]. intros b s' [-> ->].
  cbn [negb]. apply runs_bind, runs_get. case_bool_decide as Edup; [by apply runs_ret; split_and!|].
  assert (∀ nm, name = Some nm → find_named_stream (ps_cm s) nm = None) as Hfresh.
  { intros nm ->. simpl in Edup. destruct (find_named_stream (ps_cm s) nm); [|done]. by destruct Edup. }
  apply runs_bind, runs_extend_ok; [done|apply Hs|by apply runs_ret; split_and!|]. intros c Hroom.
  apply runs_bind. eapply runs_updCM; [done|]. simpl. rewrite blen_snoc, Z.add_simpl_r.
  change (s <| ps_cm := _ |>) with (s <| ps_cm := with_new new_stream c (ps_cm s) |>).
  assert (∀ f, cfg (s <| ps_cm := with_new (new_stream <| s_info := f |>) c (ps_cm s) |>)) as Hc
    by (intros f; apply cfg_new; [done|done|by apply new_stream_good|done]).
  assert (∀ f (r : Z), r ≠ 0 → cfg (s <| ps_cm := with_new (new_stream <| s_info := f |>) c (ps_cm s) |>) ∧
    same_ctx s (s <| ps_cm := with_new (new_stream <| s_info := f |>) c (ps_cm s) |>) ∧
    (r = 0 → is_Some (cur_stream (cur (s <| ps_cm := with_new (new_stream <| s_info := f |>) c (ps_cm s) |>))))) as Herr.
  { intros f r Hr. split; [apply Hc|]. split; [by split_and!|done]. }
  assert (- EINVAL ≠ 0) as Hne by done.
  destruct (stream_dir dir _) as [out|]; [|apply runs_ret; by apply (Herr (s_info new_stream))].
  destruct (stream_info type _ _ out) as [[[ty card] device]|]; [|apply runs_ret; by apply (Herr (s_info new_stream))].
  apply runs_bind, (runs_new (λ st, st <| s_info := (s_info st) <| hw_type := ty |> |>)). simpl.
  eapply runs_opt; [exact Hat|done|by apply Herr|intros card']. eapply runs_opt; [exact Hat|done|by apply Herr|intros device'].
  eapply runs_opt; [exact Hat|done|by apply Herr|intros maxref]. eapply runs_opt; [exact Hat|done|by apply Herr|intros rate].
  apply runs_bind, (runs_new (λ st, st <| s_info := (s_info st) <| hw_rate := rate |> |>)). simpl.
  eapply runs_opt; [exact Hat|done|by apply Herr|intros pcount].
  apply runs_bind, (runs_new (λ st, st <| s_info := (s_info st) <| hw_period_count := pcount |> |>)). simpl.
  eapply runs_opt; [exact Hat|done|by apply Herr|intros psize].
  apply runs_bind, (runs_new (λ st, st <| s_info := (s_info st) <| hw_period_size := psize |> <| card_number := u8 card' |>
                                               <| device_number := u8 device' |> |>
                                          <| s_name := name |> <| max_ref_count := i32 maxref |>)). simpl.
  apply runs_bind, runs_upd, runs_ret. simpl. split; [|split; [by split_and!|by eauto]].
  match goal with |- context [with_new ?x c _] => set (st := x) end.
  assert (cfg (s <| ps_cm := with_new st c (ps_cm s) |>)) as Hst.
  { apply cfg_new; [done|done| |done]. pose proof (i32_range maxref). do 2 (split; [done|]). split; [unfold INT_MAX; simpl; lia|].
    split; [by left|]. split; [by left|]. split; [by left|]. split; [by left|]. by apply Forall_nil. }
  apply (cfg_cur _ _ Hst); [apply Hs|]. destruct (cf_ptrs _ Hst). split; simpl; try done. intros k [= <-].
  unfold sskel. simpl. rewrite fmap_app. change (uskel <$> [st]) with [uskel st]. replace (blen (elems (stream_array (ps_cm s)))) with (blen (uskel <$> elems (stream_array (ps_cm s))))
    by (unfold blen; by rewrite length_fmap). rewrite arena_snoc. eauto.
Qed.

(** ** The mixer *)

(** Nothing is defined yet. *)
Definition virgin (s : parse_state) : Prop :=
  elems (device_array (ps_cm s)) = [] ∧ elems (stream_array (ps_cm s)) = [] ∧ elems (ctl_array (init_path s)) = [].

Lemma parse_mixer_start_ok s e : cfg s → attrs_ok [] s → virgin s → ld (stack_entry s) (stack_index s - 1) = Some e →
  runs parse_mixer_start s (λ r s', cfg s' ∧ stack_index s' = stack_index s ∧ parse_error s' = parse_error s ∧ stopped s' = stopped s ∧
    cur s' = cur s ∧ init_probe s' = init_probe s ∧ length (stack_entry s') = length (stack_entry s) ∧
    (r = 0 → stack_entry s' = <[Z.to_nat (stack_index s - 1) := (e.1, BITS [e_elem_device; e_elem_stream])]> (stack_entry s))).
Proof.
  intros Hs Hat (Vd & Vs & Vi) He. unfold parse_mixer_start. eapply runs_opt; [exact Hat|done|by split_and!|]. intros card. apply runs_bind.
  eapply (runs_mono _ _ (λ m s', s' = s ∧ omixer_ok m)).
  { intros h. eapply wp_mono; [apply wp_and; [apply mixer_open_ok|apply wp_wlp, mixer_open_silent]|]. intros m w' [[E Hm] [_ Hp]]. cbn [aobj acalls] in *.
    split; [split; [done|]|done]. destruct m as [m|]; [by apply Hm|done]. }
  intros m s' [-> Hm]. apply runs_bind. eapply runs_updCM; [done|].
  assert (cfg (s <| ps_cm := (ps_cm s) <| cm_mixer := m |> |>)) as Hs1.
  { destruct Hs as [Hcm Hi ?????]. split; simpl; try done; [|by rewrite Vi]. destruct Hcm as [_ _ _ Hty Hsup Hnm].
    split; simpl; try done; [rewrite Vd|rewrite Vs]; by apply Forall_nil. }
  destruct m as [m|]; [|by apply runs_ret; split_and!]. apply runs_bind, runs_get, runs_bind. eapply runs_lift; [exact He|].
  apply runs_bind. eapply runs_lift; [apply arena_insert_Some; by apply ld_Some_bounds in He|]. apply runs_bind, runs_upd, runs_ret.
  split; [destruct Hs1; by split|]. do 5 (split; [done|]). simpl. rewrite length_insert. by split_and!.
Qed.
End Handlers.
