(* ===== verification/AudioLoad.v ===== *)
(** * Loading a configuration is defined and gives a well-formed manager

    The events of an XML document follow the grammar of the element table;
    the stack of open elements stays below its bound, every handler finds the
    object it extends, and the manager that results satisfies what the routing
    operations rely on. *)

From S2P Require Import Prelude Monad Mixer DynArray Params AudioConfig AudioRoute AudioMachine AudioParse AudioParseSpec AudioHandlers.

#[local] Open Scope string_scope.
#[local] Open Scope list_scope.
#[local] Open Scope Z_scope.

(** ** Attributes *)

Lemma find_index_spec names name mask i j : find_index names name mask i = Some j →
  i <= j < i + blen names ∧ ld names (j - i) = Some name ∧ has_bit j mask = true.
Proof.
  revert i. induction names as [|n names IH]; intros i; simpl; [done|]. unfold blen. simpl.
  destruct (has_bit i mask && bool_decide (name = n)) eqn:E.
  - intros [= <-]. apply andb_true_iff in E as [E1 E2]. apply bool_decide_eq_true in E2 as ->. rewrite Z.sub_diag. split_and!; [lia|lia|done|done].
  - intros (Hj & Hl & Hb)%IH. unfold blen in Hj. split_and!; [lia|lia| |done]. unfold ld in *. rewrite bool_decide_true in * by lia.
    replace (Z.to_nat (j - i)) with (S (Z.to_nat (j - (i + 1)))) by lia. done.
Qed.

Lemma extract_loop_len attribs valid required values vals r : extract_loop attribs valid required values = Some (vals, r) → blen vals = blen values.
Proof.
  revert required values. induction attribs as [|[n v] l IH]; intros required values; cbn [extract_loop]; [by intros [= <- <-]|].
  intros (i & Hi & E)%bind_Some. apply bind_Some in E as (vs & Hvs & E). rewrite (IH _ _ E).
  unfold st in Hvs. destruct (stn_spec _ _ _ _ Hvs) as [Hl _]. exact Hl.
Qed.

(** A required attribute that is not missing has a value. *)
Lemma extract_loop_required attribs valid required values vals r i : extract_loop attribs valid required values = Some (vals, r) →
  0 <= i → (Z.testbit required i = true ∨ ∃ v, ld values i = Some (Some v)) → Z.testbit r i = false → ∃ v, ld vals i = Some (Some v).
Proof.
  revert required values. induction attribs as [|[n v] l IH]; intros required values; cbn [extract_loop].
  - intros [= <- <-] _ [?|?] ?; [congruence|done].
  - intros (j & Hj & E)%bind_Some Hi0 Hor Hr. apply bind_Some in E as (vs & Hvs & E).
    apply find_index_spec in Hj as (Hj & _). apply (IH _ _ E Hi0); [|done].
    destruct (decide (i = j)) as [->|Hne].
    + right. exists v. unfold st, stn in Hvs. case_bool_decide as Hb; [|done]. injection Hvs as <-. simpl. unfold ld. rewrite bool_decide_true by done.
      rewrite list_lookup_insert_eq; [done|]. unfold blen in Hb. simpl in Hb. lia.
    + destruct Hor as [Hq|[x Hx]].
      * left. rewrite Z.ldiff_spec, Hq, Z.shiftl_spec by done. destruct (Z.testbit 1 (i - j)) eqn:Eb; [|done].
        destruct (decide (i - j = 0)); [lia|]. rewrite <- (Z.pow_0_r 2), Z.pow2_bits_false in Eb by lia. done.
      * right. exists x. unfold st, stn in Hvs. case_bool_decide; [|done]. injection Hvs as <-. simpl. unfold ld in *. rewrite bool_decide_true in * by done.
        rewrite list_lookup_insert_ne by lia. done.
Qed.

(** A value comes from the element. *)
Lemma extract_loop_source attribs valid required values vals r i v : extract_loop attribs valid required values = Some (vals, r) →
  ld vals i = Some (Some v) → ld values i = Some (Some v) ∨ ∃ n, ld attrib_table i = Some n ∧ (n, v) ∈ attribs.
Proof.
  revert required values. induction attribs as [|[n x] l IH]; intros required values; cbn [extract_loop]; [intros [= <- <-]; by left|].
  intros (j & Hj & E)%bind_Some Hv. apply bind_Some in E as (vs & Hvs & E). apply find_index_spec in Hj as (Hj & Hn & _).
  rewrite Z.sub_0_r in Hn. destruct (IH _ _ E Hv) as [Hx|(n' & Hn' & Hin)]; [|right; exists n'; split; [done|by right]].
  unfold st, stn in Hvs. case_bool_decide as Hb; [|done]. injection Hvs as <-. simpl in Hx. pose proof (ld_Some_bounds _ _ _ Hx) as Hbi.
  destruct (decide (i = j)) as [->|Hne].
  - right. exists n. split; [done|]. unfold ld in Hx. rewrite bool_decide_true, list_lookup_insert_eq in Hx; [injection Hx as <-; by left| |lia].
    unfold blen in Hb. simpl in Hb. lia.
  - left. unfold ld in *. rewrite bool_decide_true in * by lia. by rewrite list_lookup_insert_ne in Hx by lia.
Qed.

(** ** The grammar *)

Section Grammar.
Context `{A : Alsa} `{!AudioH} `{!Files}.

Definition sub (e : Z) : Z := default 0 (valid_subelem <$> ld elem_table e).

(** The chains of open elements, before and after the mixer was opened. *)
Definition spines (opened : bool) : list (list Z) :=
  if opened then
    [[]; [11]; [11; 10]; [11; 10; 9]; [11; 10; 9; 0]; [11; 2]; [11; 2; 1]; [11; 2; 1; 0]; [11; 3]; [11; 3; 8]; [11; 3; 4]; [11; 3; 5];
     [11; 3; 7]; [11; 3; 7; 6]; [11; 3; 7; 6; 0]]
  else [[]; [11]; [11; 12]; [11; 12; 13]].

(** What may be opened next. *)
Definition valid_next (opened : bool) (S : list Z) : Z :=
  match last S with
  | None => BITS [e_elem_audiohal]
  | Some e => if opened && bool_decide (S = [e]) then BITS [e_elem_device; e_elem_stream] else sub e
  end.

(** The chains an element can extend. *)
Definition parents (opened : bool) (i : Z) : list (list Z) :=
  if i =? e_elem_ctl then (if opened then [[11; 10; 9]; [11; 2; 1]; [11; 3; 7; 6]] else [])
  else if i =? e_elem_path then [[11; 2]]
  else if (i =? e_elem_device) || (i =? e_elem_stream) then [[11]]
  else if i =? e_elem_case then [[11; 3; 7]]
  else if i =? e_elem_init then [[11; 10]]
  else if (i =? e_elem_mixer) || (i =? e_elem_codec_probe) then (if opened then [] else [[11]])
  else if i =? e_elem_audiohal then [[]]
  else if i =? e_elem_codec_case then [[11; 12]]
  else [[11; 3]].

Definition opens (opened : bool) (i : Z) : bool := opened || (i =? e_elem_mixer).

(** Checked by enumeration. *)
Lemma grammar opened S i : S ∈ spines opened → 0 <= i < 14 → has_bit i (valid_next opened S) = true → (S = [] → opened = false) →
  S ∈ parents opened i ∧ S ++ [i] ∈ spines (opens opened i).
Proof.
  intros HS Hi Hb He.
  assert (forallb (λ o : bool, forallb (λ S, forallb (λ i,
    implb (has_bit i (valid_next o S) && negb (o && bool_decide (S = []))) (bool_decide (S ∈ parents o i) && bool_decide (S ++ [i] ∈ spines (opens o i))))
    (seqZ 0 14)) (spines o)) [true; false] = true) as Hall by (vm_compute; reflexivity).
  rewrite forallb_forall in Hall. specialize (Hall opened ltac:(destruct opened; simpl; auto)).
  rewrite forallb_forall in Hall. specialize (Hall S ltac:(by apply list_elem_of_In)).
  rewrite forallb_forall in Hall. specialize (Hall i ltac:(apply list_elem_of_In; apply elem_of_seqZ; lia)). rewrite Hb in Hall.
  destruct (opened && bool_decide (S = [])) eqn:Eo.
  - apply andb_true_iff in Eo as [-> Eo]. apply bool_decide_eq_true in Eo. by specialize (He Eo).
  - simpl in Hall. apply andb_true_iff in Hall as [H1 H2]. by apply bool_decide_eq_true in H1, H2.
Qed.

Lemma grammar_end opened S e : S ++ [e] ∈ spines opened → S ∈ spines opened ∧ 0 <= e < 14.
Proof.
  intros HS.
  assert (∀ (l : list (list Z)), forallb (λ X, forallb (λ k, bool_decide (take k X ∈ l)) (seq 0 6) && forallb (λ y, (0 <=? y) && (y <? 14)) X) l = true →
    S ++ [e] ∈ l → S ∈ l ∧ 0 <= e < 14) as Hgen.
  { intros l Hl Hin. rewrite forallb_forall in Hl. specialize (Hl _ ltac:(by apply list_elem_of_In)). apply andb_true_iff in Hl as [H1 H2].
    split.
    - rewrite forallb_forall in H1. destruct (decide (length S < 6)%nat).
      + specialize (H1 (length S) ltac:(apply in_seq; lia)). apply bool_decide_eq_true in H1. by rewrite take_app_length in H1.
      + specialize (H1 5%nat ltac:(apply in_seq; lia)). apply bool_decide_eq_true in H1. exfalso. clear -n H1 HS.
        assert (Forall (λ X : list Z, length X <= 5)%nat (spines opened)) as HF by (destruct opened; repeat constructor).
        pose proof (proj1 (Forall_forall _ _) HF _ HS) as Hl. simpl in Hl. rewrite length_app in Hl. simpl in Hl. lia.
    - rewrite forallb_forall in H2. specialize (H2 e ltac:(apply in_or_app; right; by left)). apply andb_true_iff in H2. lia. }
  apply Hgen; [|done]. destruct opened; vm_compute; reflexivity.
Qed.

Lemma grammar_parent opened S i : S ++ [i] ∈ spines opened → i ≠ e_elem_mixer → S ∈ parents opened i.
Proof.
  intros HS Hi.
  assert (forallb (λ o : bool, forallb (λ X, match last X with
    | Some i => (i =? e_elem_mixer) || bool_decide (removelast X ∈ parents o i) | None => true end) (spines o)) [true; false] = true) as Hall
    by (vm_compute; reflexivity).
  rewrite forallb_forall in Hall. specialize (Hall opened ltac:(destruct opened; simpl; auto)).
  rewrite forallb_forall in Hall. specialize (Hall (S ++ [i]) ltac:(by apply list_elem_of_In)). rewrite last_snoc, removelast_last in Hall.
  apply orb_true_iff in Hall as [?|Hall]; [lia|by apply bool_decide_eq_true in Hall].
Qed.

Lemma spine_len opened S : S ∈ spines opened → (length S <= 5)%nat.
Proof. intros HS. assert (Forall (λ X : list Z, length X <= 5)%nat (spines opened)) as HF by (destruct opened; repeat constructor).
  exact (proj1 (Forall_forall _ _) HF _ HS). Qed.

(** The handler of an element finds what the open elements have set up. *)
Definition cur_has (e : Z) (c : current) : Prop :=
  (e = 2 → is_Some (cur_device c)) ∧ (e = 1 ∨ e = 9 → is_Some (cur_path c)) ∧ (e = 3 → is_Some (cur_stream c)) ∧
  (e = 7 → is_Some (cur_usecase c)) ∧ (e = 6 → is_Some (cur_case c)) ∧ (e = 12 → cur_probe c = true).
Definition has_cur (S : list Z) (c : current) : Prop := Forall (λ e, cur_has e c) S.

(** The stack of the parser is the chain. *)
Record stk (opened : bool) (S : list Z) (s : parse_state) : Prop := {
  sk_in : S ∈ spines opened;
  sk_len : length (stack_entry s) = 6%nat;
  sk_index : stack_index s = blen S;
  sk_root : snd <$> stack_entry s !! 0%nat = Some (BITS [e_elem_audiohal]);
  sk_entry : ∀ k e, S !! k = Some e →
    stack_entry s !! (Datatypes.S k) = Some (e, if opened && bool_decide (k = 0%nat) then BITS [e_elem_device; e_elem_stream] else sub e) }.

Lemma stk_top opened S s : stk opened S s → ∃ x, ld (stack_entry s) (stack_index s) = Some (x, valid_next opened S) ∧ (∀ e, last S = Some e → x = e).
Proof.
  intros [HS Hl Hi Hr He]. rewrite Hi. unfold ld, blen. rewrite bool_decide_true by lia. rewrite Nat2Z.id. unfold valid_next.
  destruct (last S) as [e|] eqn:El.
  - rewrite last_lookup in El. pose proof (lookup_lt_Some _ _ _ El) as Hlt. specialize (He _ _ El). replace (Datatypes.S (pred (length S))) with (length S) in He by lia.
    rewrite He. exists e. split; [|congruence]. do 2 f_equal. destruct opened; [|done]. simpl.
    destruct (decide (length S = 1%nat)) as [E1|E1].
    + destruct S as [|y [|? ?]]; try done. injection El as ->. by rewrite !bool_decide_true.
    + rewrite !bool_decide_false; [done| |lia]. intros ->. done.
  - apply last_None in El as ->. simpl in *. destruct (stack_entry s) as [|[x v] l]; [done|]. simpl in *. injection Hr as ->. exists x. done.
Qed.
End Grammar.

(** ** Events *)

(** A document has one root, and an element is closed after it was opened. *)
Fixpoint wf_events (evs : list xml_event) (depth : nat) : Prop :=
  match evs with
  | [] => True
  | XStart _ _ :: evs' => wf_events evs' (Datatypes.S depth)
  | XEnd _ :: evs' => match depth with O => False | 1%nat => evs' = [] | Datatypes.S d => wf_events evs' d end
  end.

(** The index of a <ctl> is a number. *)
Definition index_ok (ev : xml_event) : Prop :=
  match ev with
  | XStart n a => n = "ctl" → ∀ v, ("index", v) ∈ a → (string_to_uint (Some v)).1 ≠ - EINVAL
  | XEnd _ => True
  end.

Section Load.
Context `{A : Alsa, !AlsaOk A} `{!AudioH} `{!Files} (Hmem : malloc_ok).

Abbreviation redirect s := (new_xml_file (init_probe s)).

(** The parser has seen no error and was not stopped. *)
Record live (opened : bool) (S : list Z) (s : parse_state) : Prop := {
  lv_error : parse_error s = 0;
  lv_stopped : stopped s = None;
  lv_redirect : redirect s = None;
  lv_cfg : cfg s;
  lv_stk : stk opened S s;
  lv_cur : has_cur S (cur s);
  lv_virgin : opened = false → virgin s }.

(** Nothing more happens: after an error, or stopped. *)
Record halted (s : parse_state) : Prop := {
  ht_why : parse_error s ≠ 0 ∨ is_Some (stopped s);
  ht_cfg : cfg s;
  ht_len : length (stack_entry s) = 6%nat;
  ht_index : 0 <= stack_index s < 6;
  ht_redirect : is_Some (redirect s) → virgin s ∧ cur_probe (cur s) = false }.

(** The state in which a handler starts. *)
Record ready (opened : bool) (S : list Z) (i : Z) (s : parse_state) : Prop := {
  rd_error : parse_error s = 0;
  rd_stopped : stopped s = None;
  rd_redirect : redirect s = None;
  rd_cfg : cfg s;
  rd_parent : S ∈ parents opened i;
  rd_in : S ++ [i] ∈ spines (opens opened i);
  rd_len : length (stack_entry s) = 6%nat;
  rd_index : stack_index s = blen S + 1;
  rd_root : snd <$> stack_entry s !! 0%nat = Some (BITS [e_elem_audiohal]);
  rd_entry : ∀ k e, (S ++ [i]) !! k = Some e →
    stack_entry s !! (Datatypes.S k) = Some (e, if opened && bool_decide (k = 0%nat) then BITS [e_elem_device; e_elem_stream] else sub e);
  rd_cur : has_cur S (cur s);
  rd_virgin : opened = false → virgin s }.

(** A handler that keeps the stack. *)
Lemma ready_live opened S i s s' : ready opened S i s → i ≠ e_elem_mixer → cfg s' →
  stack_index s' = stack_index s → stack_entry s' = stack_entry s → parse_error s' = parse_error s → stopped s' = stopped s → redirect s' = redirect s →
  (opened = false → virgin s') → has_cur S (cur s') → cur_has i (cur s') → live opened (S ++ [i]) s'.
Proof.
  intros [] Hi Hc Ei Ee Eerr Est Ere Hv Hcur Hhas.
  assert (opens opened i = opened) as Eo by (unfold opens; destruct (Z.eqb_spec i e_elem_mixer); [done|by rewrite orb_false_r]).
  split; try congruence.
  - rewrite Eo in rd_in0. split; rewrite ?Ee, ?Ei; try done. rewrite rd_index0. by rewrite blen_snoc.
  - apply Forall_app. split; [done|]. by apply Forall_singleton.
  - done.
Qed.

(** The status of a start handler becomes the error of the parser. *)
Definition started (opened : bool) (S : list Z) (i : Z) (f : ST (aworld parse_state) Z) (s : parse_state) : Prop :=
  runs f s (λ r s', length (stack_entry s') = 6%nat ∧ stack_index s' = stack_index s ∧ cfg s' ∧ redirect s' = None ∧
    (r = 0 → live (opens opened i) (S ++ [i]) s')).

(** Before the mixer only the root and the probe are opened. *)
Lemma ready_opened opened S i s : ready opened S i s → i ∉ [10; 11; 12; 13] → opened = true.
Proof.
  intros [] Hi. destruct opened; [done|]. exfalso. apply Hi. unfold opens in rd_in0.
  destruct (Z.eqb_spec i e_elem_mixer) as [->|]; [by left|]. cbn [orb spines] in rd_in0.
  repeat (apply elem_of_cons in rd_in0 as [Hx|rd_in0]; [apply (f_equal last) in Hx; rewrite last_snoc in Hx; simpl in Hx; simplify_eq;
    unfold e_elem_mixer in *; rewrite ?elem_of_cons; auto|]). by apply not_elem_of_nil in rd_in0.
Qed.

Lemma started_same opened S i f s : ready opened S i s → i ∉ [10; 11; 12; 13] →
  runs f s (λ r s', cfg s' ∧ same_ctx s s' ∧ (r = 0 → has_cur S (cur s') ∧ cur_has i (cur s'))) → started opened S i f s.
Proof.
  intros Hr Hi Hf. pose proof (ready_opened _ _ _ _ Hr Hi) as ->. assert (i ≠ e_elem_mixer) by (intros ->; apply Hi; by left).
  eapply runs_mono; [exact Hf|]. intros r s' (Hc & (Ei & Ee & _ & Eerr & Est & Epr) & Hcur).
  split; [rewrite Ee; apply Hr|]. split; [done|]. split; [done|]. split; [rewrite Epr; apply Hr|].
  intros E0. destruct (Hcur E0). cbn [opens orb]. eapply ready_live; try done. by rewrite Epr.
Qed.

(** What a handler needs of the stack's chain and gives back. *)
Ltac cur_solve := repeat match goal with
  | |- has_cur _ _ => apply Forall_cons; split
  | |- Forall _ (_ :: _) => apply Forall_cons; split
  | |- Forall _ [] => constructor
  | |- cur_has ?e ?c => let e' := eval vm_compute in e in change (cur_has e' c); unfold cur_has; split_and!; try (intros ?; lia); intros _
  end.

Lemma has_cur_elem S e c : has_cur S c → e ∈ S → cur_has e c.
Proof. intros HF He. exact (proj1 (Forall_forall _ _) HF _ He). Qed.

Ltac parent_cases Hp := cbn in Hp; repeat (apply elem_of_cons in Hp as [->|Hp]); try (by apply not_elem_of_nil in Hp).

(** The required attributes of an element are there. *)
Definition attrs_for (e : parse_element) (s : parse_state) : Prop :=
  blen (attr_value s) = 16 ∧ ∀ j, 0 <= j → Z.testbit (required_attribs e) j = true → ∃ v, ld (attr_value s) j = Some (Some v).

Ltac attrs_solve := match goal with Ha : attrs_for _ _ |- attrs_ok _ _ =>
  let Hl := fresh in let Hr := fresh in destruct Ha as [Hl Hr]; split; [exact Hl|];
  repeat (apply Forall_cons; split; [apply Hr; [done|reflexivity]|]); constructor end.

Lemma started_ctl opened S s : ready opened S e_elem_ctl s → attrs_ok [e_attrib_name; e_attrib_val] s →
  (∀ v, ld (attr_value s) e_attrib_index = Some v → (string_to_uint v).1 ≠ - EINVAL) → started opened S e_elem_ctl parse_ctl_start s.
Proof.
  intros Hr Ha Hi. assert (e_elem_ctl ∉ [10; 11; 12; 13]) as Hn by (rewrite !not_elem_of_cons; split_and!; try done; apply not_elem_of_nil).
  pose proof (ready_opened _ _ _ _ Hr Hn) as ->. apply started_same; [done|done|].
  pose proof (rd_parent _ _ _ _ Hr) as Hp. pose proof (rd_cur _ _ _ _ Hr) as Hc.
  assert (is_Some (target s)) as Ht.
  { unfold target. parent_cases Hp.
    - destruct (has_cur_elem _ 9 _ Hc) as (_ & Hx & _); [rewrite !elem_of_cons; auto|]. destruct Hx as [r ->]; [auto|]. eauto.
    - destruct (has_cur_elem _ 1 _ Hc) as (_ & Hx & _); [rewrite !elem_of_cons; auto|]. destruct Hx as [r ->]; [auto|]. eauto.
    - destruct (has_cur_elem _ 6 _ Hc) as (_ & _ & _ & _ & Hx & _); [rewrite !elem_of_cons; auto 10|]. destruct Hx as [[[k u] c] ->]; [done|].
      destruct (cur_path (cur s)); eauto. }
  eapply runs_mono; [apply parse_ctl_start_ok; [done|apply Hr|done|done|done]|]. intros r s' (Hs' & Hc' & Ecur & _).
  split; [done|]. split; [done|]. intros _. rewrite Ecur. split; [done|]. cur_solve.
Qed.

Lemma started_plain opened S i f s : ready opened S i s → i ∈ [4; 5; 8] → runs f s (λ _ s', cfg s' ∧ kept s s') → started opened S i f s.
Proof.
  intros Hr Hi Hf. assert ((i ∉ [10; 11; 12; 13]) ∧ cur_has i (cur s)) as [Hn Hh].
  { repeat (apply elem_of_cons in Hi as [->|Hi]); try (by apply not_elem_of_nil in Hi);
      (split; [rewrite !not_elem_of_cons; split_and!; try done; apply not_elem_of_nil|cur_solve]). }
  apply started_same; [done|done|]. eapply runs_mono; [exact Hf|]. intros r s' (Hs' & Hc' & Ecur & _). split; [done|]. split; [done|].
  intros _. rewrite Ecur. split; [apply Hr|done].
Qed.

Lemma parent_stream opened S i s : ready opened S i s → i ∈ [4; 5; 7; 8] → is_Some (cur_stream (cur s)).
Proof.
  intros Hr Hi. pose proof (rd_parent _ _ _ _ Hr) as Hp.
  assert (S = [11; 3]) as ->.
  { repeat (apply elem_of_cons in Hi as [->|Hi]); try (by apply not_elem_of_nil in Hi); by apply list_elem_of_singleton in Hp. }
  destruct (has_cur_elem _ 3 _ (rd_cur _ _ _ _ Hr)) as (_ & _ & Hx & _); [rewrite !elem_of_cons; auto|]. by apply Hx.
Qed.

Ltac notin := rewrite !not_elem_of_cons; split_and!; try done; apply not_elem_of_nil.

Lemma started_device opened S s : ready opened S e_elem_device s → attrs_ok [e_attrib_name] s → started opened S e_elem_device parse_device_start s.
Proof.
  intros Hr Ha. pose proof (rd_parent _ _ _ _ Hr) as Hp. parent_cases Hp. apply started_same; [done|notin|].
  eapply runs_mono; [apply parse_device_start_ok; [done|apply Hr|done]|]. intros r s' (? & ? & Hd). split; [done|]. split; [done|].
  intros E0. specialize (Hd E0). split; cur_solve. done.
Qed.

Lemma started_stream opened S s : ready opened S e_elem_stream s → attrs_ok [e_attrib_type] s → started opened S e_elem_stream parse_stream_start s.
Proof.
  intros Hr Ha. pose proof (rd_parent _ _ _ _ Hr) as Hp. parent_cases Hp. apply started_same; [done|notin|].
  eapply runs_mono; [apply parse_stream_start_ok; [done|apply Hr|done]|]. intros r s' (? & ? & Hd). split; [done|]. split; [done|].
  intros E0. specialize (Hd E0). split; cur_solve. done.
Qed.

Lemma started_path opened S s : ready opened S e_elem_path s → attrs_ok [e_attrib_name] s → started opened S e_elem_path parse_path_start s.
Proof.
  intros Hr Ha. pose proof (rd_parent _ _ _ _ Hr) as Hp. parent_cases Hp. apply started_same; [done|notin|].
  destruct (has_cur_elem _ 2 _ (rd_cur _ _ _ _ Hr)) as (Hx & _); [rewrite !elem_of_cons; auto|]. specialize (Hx eq_refl).
  eapply runs_mono; [apply parse_path_start_ok; [done|apply Hr|done|done]|]. intros r s' (? & ? & Ed & Hd). split; [done|]. split; [done|].
  intros E0. specialize (Hd E0). split; cur_solve; [by rewrite Ed|done].
Qed.

Lemma started_usecase opened S s : ready opened S e_elem_usecase s → attrs_ok [e_attrib_name] s → started opened S e_elem_usecase parse_usecase_start s.
Proof.
  intros Hr Ha. assert (is_Some (cur_stream (cur s))) as Hx by (eapply parent_stream; [done|rewrite !elem_of_cons; auto]).
  pose proof (rd_parent _ _ _ _ Hr) as Hp. parent_cases Hp. apply started_same; [done|notin|].
  eapply runs_mono; [apply parse_usecase_start_ok; [done|apply Hr|done|done]|]. intros r s' (? & ? & Ed & Hd). split; [done|]. split; [done|].
  intros E0. specialize (Hd E0). split; cur_solve; [by rewrite Ed|done].
Qed.

Lemma started_case opened S s : ready opened S e_elem_case s → attrs_ok [e_attrib_name] s → started opened S e_elem_case parse_case_start s.
Proof.
  intros Hr Ha. pose proof (rd_parent _ _ _ _ Hr) as Hp. parent_cases Hp. apply started_same; [done|notin|].
  destruct (has_cur_elem _ 7 _ (rd_cur _ _ _ _ Hr)) as (_ & _ & _ & Hx & _); [rewrite !elem_of_cons; auto|]. specialize (Hx eq_refl).
  destruct (has_cur_elem _ 3 _ (rd_cur _ _ _ _ Hr)) as (_ & _ & Hy & _); [rewrite !elem_of_cons; auto|]. specialize (Hy eq_refl).
  eapply runs_mono; [apply parse_case_start_ok; [done|apply Hr|done|done]|]. intros r s' (? & ? & Ed & Eu & Hd). split; [done|]. split; [done|].
  intros E0. specialize (Hd E0). split; cur_solve; [by rewrite Ed|by rewrite Eu|done].
Qed.

Lemma started_init opened S s : ready opened S e_elem_init s → started opened S e_elem_init parse_init_start s.
Proof.
  intros Hr. pose proof (rd_parent _ _ _ _ Hr) as Hp. parent_cases Hp. apply started_same; [done|notin|].
  eapply runs_mono; [apply parse_init_start_ok, Hr|]. intros r s' (? & ? & Ed). split; [done|]. split; [done|].
  intros _. rewrite Ed. split; cur_solve. simpl. eauto.
Qed.

Lemma virgin_probe s s' : probe_only s s' → virgin s → virgin s'.
Proof. intros (_ & _ & _ & Ecm & Ei) Hv. unfold virgin in *. by rewrite Ecm, Ei. Qed.

Lemma started_probe opened S s : ready opened S e_elem_codec_probe s → attrs_ok [e_attrib_file] s →
  started opened S e_elem_codec_probe parse_codec_probe_start s.
Proof.
  intros Hr Ha. pose proof (rd_parent _ _ _ _ Hr) as Hp. destruct opened; [by apply not_elem_of_nil in Hp|]. apply list_elem_of_singleton in Hp as ->.
  eapply runs_mono; [apply parse_codec_probe_start_ok; [done|apply Hr|done]|]. intros r s' (Hc & Hpo & Est & Ere & Hcur).
  pose proof Hpo as (Ei & Ee & Eerr & _). split; [rewrite Ee; apply Hr|]. split; [done|]. split; [done|]. split; [rewrite Ere; apply Hr|].
  intros E0. specialize (Hcur E0). eapply (ready_live false); try done; [|cur_solve|cur_solve; done]. intros _. eapply virgin_probe; [done|]. by apply Hr.
Qed.

Lemma started_codec_case opened S s : ready opened S e_elem_codec_case s → attrs_ok [e_attrib_name; e_attrib_file] s →
  started opened S e_elem_codec_case parse_codec_case_start s.
Proof.
  intros Hr Ha. pose proof (rd_parent _ _ _ _ Hr) as Hp. parent_cases Hp.
  destruct (has_cur_elem _ 12 _ (rd_cur _ _ _ _ Hr)) as (_ & _ & _ & _ & _ & Hx); [rewrite !elem_of_cons; auto|]. specialize (Hx eq_refl).
  eapply runs_mono; [apply parse_codec_case_start_ok; [done|apply Hr|done|done]|]. intros r s' (Hc & Hpo & Ecur & Est & Ere).
  pose proof Hpo as (Ei & Ee & Eerr & _). split; [rewrite Ee; apply Hr|]. split; [done|]. split; [done|]. split; [rewrite Ere; apply Hr|].
  intros _. assert (opens opened e_elem_codec_case = opened) as -> by (by destruct opened).
  eapply ready_live; try done; [|rewrite Ecur; apply Hr|cur_solve]. intros Eo. eapply virgin_probe; [done|]. by apply Hr.
Qed.

Lemma started_mixer opened S s : ready opened S e_elem_mixer s → attrs_ok [] s → started opened S e_elem_mixer parse_mixer_start s.
Proof.
  intros Hr Ha. pose proof (rd_parent _ _ _ _ Hr) as Hp. destruct opened; [by apply not_elem_of_nil in Hp|]. apply list_elem_of_singleton in Hp as ->.
  pose proof Hr as [Herr Hst Hre Hc _ Hin Hl Hix Hroot He Hcur Hv].
  pose proof (He 0%nat 11 eq_refl) as He1. simpl in He1. pose proof (He 1%nat 10 eq_refl) as He2. simpl in He2. change (blen [11] + 1) with 2 in Hix.
  assert (ld (stack_entry s) (stack_index s - 1) = Some (11, sub 11)) as Hld by (rewrite Hix; exact He1).
  eapply runs_mono; [eapply parse_mixer_start_ok; [done|done|by apply Hv|exact Hld]|].
  intros r s' (Hc' & Ei & Eerr & Est & Ecur & Ere & Hlen & Eent). split; [by rewrite Hlen|]. split; [done|]. split; [done|].
  split; [by rewrite Ere|]. intros E0. specialize (Eent E0). rewrite Hix in Eent. change (Z.to_nat (2 - 1)) with 1%nat in Eent. simpl in Eent. split; try congruence.
  - split; [done|by rewrite Hlen|by rewrite Ei, Hix|by rewrite Eent, list_lookup_insert_ne|].
    intros k e Hk. rewrite Eent. destruct k as [|[|k]]; [|simpl in Hk; injection Hk as <-|by destruct k].
    + injection Hk as <-. rewrite list_lookup_insert_eq by lia. done.
    + rewrite list_lookup_insert_ne by lia. exact He2.
  - cur_solve.
  - done.
Qed.

(** Every element of the table starts well. *)
Lemma started_all opened S i e s : ready opened S i s → ld elem_table i = Some e → attrs_for e s →
  (pe_name e = "ctl" → ∀ v, ld (attr_value s) e_attrib_index = Some v → (string_to_uint v).1 ≠ - EINVAL) →
  match start_fn e with
  | Some f => started opened S i f s
  | None => live opened (S ++ [i]) s
  end.
Proof.
  intros Hr He Ha Hi.
  pose proof (ld_Some_bounds _ _ _ He) as Hb. change (blen elem_table) with 14 in Hb.
  assert (i ∈ seqZ 0 14) as Hin by (apply elem_of_seqZ; lia). change (seqZ 0 14) with [0; 1; 2; 3; 4; 5; 6; 7; 8; 9; 10; 11; 12; 13] in Hin.
  repeat (apply elem_of_cons in Hin as [->|Hin]); [injection He as <-; cbn [start_fn]..|by apply not_elem_of_nil in Hin].
  - apply started_ctl; [done|attrs_solve|by apply Hi].
  - apply started_path; [done|attrs_solve].
  - apply started_device; [done|attrs_solve].
  - apply started_stream; [done|attrs_solve].
  - apply started_plain; [done|rewrite !elem_of_cons; auto|]. apply parse_enable_disable_start_ok; [apply Hr|attrs_solve|].
    eapply parent_stream; [done|rewrite !elem_of_cons; auto].
  - apply started_plain; [done|rewrite !elem_of_cons; auto|]. apply parse_enable_disable_start_ok; [apply Hr|attrs_solve|].
    eapply parent_stream; [done|rewrite !elem_of_cons; auto].
  - apply started_case; [done|attrs_solve].
  - apply started_usecase; [done|attrs_solve].
  - apply started_plain; [done|rewrite !elem_of_cons; auto|]. apply parse_stream_ctl_start_ok; [apply Hr|attrs_solve|].
    eapply parent_stream; [done|rewrite !elem_of_cons; auto].
  - by apply started_init.
  - apply started_mixer; [done|attrs_solve].
  - assert (opens opened 11 = opened) as Eo by (by destruct opened). eapply ready_live; try done; [apply Hr|apply Hr|apply Hr|cur_solve].
  - apply started_probe; [done|attrs_solve].
  - apply started_codec_case; [done|attrs_solve].
Qed.

Lemma fmap_ld_name i e : ld elem_table i = Some e → ld (pe_name <$> elem_table) i = Some (pe_name e).
Proof. intros E. by rewrite ld_fmap, E. Qed.

(** The pushed element with its attributes. *)
Lemma push_ready opened S i e name v_req vals s es : live opened S s → (S = [] → opened = false) → ld elem_table i = Some e →
  has_bit i (valid_next opened S) = true → st (stack_entry s) (stack_index s + 1) (i, valid_subelem e) = Some es →
  extract_loop name (valid_attribs e) (required_attribs e) (replicate 16 None) = Some (vals, v_req) → v_req = 0 →
  let s' := s <| stack_entry := es |> <| stack_index := stack_index s + 1 |> <| attr_value := vals |> in ready opened S i s' ∧ attrs_for e s'.
Proof.
  intros [Herr Hst Hre Hc [Hin Hl Hix Hroot Hent] Hcur Hv] He0 He Hb Hes Hx ->.
  pose proof (ld_Some_bounds _ _ _ He) as Hi. change (blen elem_table) with 14 in Hi. destruct (grammar opened S i Hin Hi Hb He0) as [Hp Hin'].
  assert (es = <[Datatypes.S (length S) := (i, valid_subelem e)]> (stack_entry s)) as ->.
  { unfold st, stn in Hes. case_bool_decide; [|done]. injection Hes as <-. simpl. f_equal. rewrite Hix. unfold blen. lia. }
  pose proof (spine_len _ _ Hin') as Hlen. rewrite length_app in Hlen. simpl in Hlen. split.
  - split; simpl; try done.
    + destruct Hc. by split.
    + by rewrite length_insert.
    + by rewrite Hix.
    + by rewrite list_lookup_insert_ne.
    + intros k y Hk. destruct (decide (k = length S)) as [->|Hne].
      * rewrite list_lookup_middle in Hk by done. injection Hk as <-. rewrite list_lookup_insert_eq by lia. do 2 f_equal.
        assert (valid_subelem e = sub i) as -> by (unfold sub; by rewrite He). destruct opened; [|done]. simpl.
        case_bool_decide as E0; [|done]. destruct S; [|done]. by specialize (He0 eq_refl).
      * rewrite list_lookup_insert_ne by lia. apply Hent. apply lookup_lt_Some in Hk as Hlt. rewrite length_app in Hlt. simpl in Hlt.
        by rewrite lookup_app_l in Hk by lia.
  - split; simpl; [by rewrite (extract_loop_len _ _ _ _ _ _ Hx)|]. intros j Hj Hq.
    eapply extract_loop_required; [exact Hx|done|by left|by rewrite Z.bits_0].
Qed.

Lemma section_start_ok opened S name attribs s : live opened S s → (S = [] → opened = false) → index_ok (XStart name attribs) →
  runs (parse_section_start name attribs) s (λ _ s', halted s' ∨ ∃ i opened', live opened' (S ++ [i]) s').
Proof.
  intros Hlv He0 Hok. pose proof Hlv as [Herr Hst Hre Hc Hsk Hcur Hv]. destruct (stk_top _ _ _ Hsk) as (x & Htop & _).
  pose proof (spine_len _ _ (sk_in _ _ _ Hsk)) as Hls. pose proof (sk_index _ _ _ Hsk) as Hix.
  unfold parse_section_start. apply runs_bind, runs_get, runs_bind. eapply runs_lift; [exact Htop|]. rewrite Herr. cbn [negb Z.eqb snd].
  assert (∀ s', 0 <= stack_index s' < 6 → length (stack_entry s') = 6%nat →
    cfg s' → redirect s' = None → ∀ r, r ≠ 0 → halted (s' <| parse_error := r |>)) as Hhalt.
  { intros s' Hi6 Hl6 Hc' Hre' r Hr. split; simpl; [by left|destruct Hc'; by split|done|done|]. rewrite Hre'. by intros [? ?]. }
  destruct (find_index (pe_name <$> elem_table) name (valid_next opened S) 0) as [i|] eqn:Ei.
  2:{ apply runs_upd. left. apply Hhalt; [rewrite Hix; unfold blen; lia|apply Hsk|done|done|done]. }
  apply find_index_spec in Ei as (Hi & Hnm & Hb). rewrite Z.sub_0_r in Hnm.
  assert (0 <= i < 14) as Hi14 by (unfold blen in Hi; rewrite length_fmap in Hi; simpl in Hi; lia).
  destruct (grammar opened S i (sk_in _ _ _ Hsk) Hi14 Hb He0) as [_ Hin']. pose proof (spine_len _ _ Hin') as Hlen. rewrite length_app in Hlen. simpl in Hlen.
  assert ((stack_index s >=? MAX_PARSE_DEPTH) = false) as -> by (rewrite Hix; unfold MAX_PARSE_DEPTH, blen; lia).
  destruct (ld_lt elem_table i Hi14) as [e He]. apply runs_bind. eapply runs_lift; [exact He|]. apply runs_bind.
  assert (0 <= stack_index s + 1 < blen (stack_entry s)) as Hroom by (unfold blen; rewrite (sk_len _ _ _ Hsk), Hix; unfold blen; lia).
  eapply runs_lift; [by apply arena_insert_Some|]. apply runs_bind, runs_upd. apply runs_bind. unfold extract_attribs.
  destruct (extract_loop attribs _ _ _) as [[vals req]|] eqn:Ex.
  2:{ apply runs_ret. cbn [negb]. apply runs_upd. left. apply Hhalt; simpl; try done; [unfold blen in Hroom; rewrite (sk_len _ _ _ Hsk) in Hroom; lia| |].
      - rewrite length_insert. apply Hsk.
      - destruct Hc. by split. }
  apply runs_bind, runs_upd, runs_ret. destruct (Z.eqb_spec req 0) as [->|Hreq].
  2:{ cbn [negb]. apply runs_upd. left. apply Hhalt; simpl; try done; [unfold blen in Hroom; rewrite (sk_len _ _ _ Hsk) in Hroom; lia| |].
      - rewrite length_insert. apply Hsk.
      - destruct Hc. by split. }
  cbn [negb]. destruct (push_ready opened S i e attribs 0 vals s _ Hlv He0 He Hb (arena_insert_Some _ _ _ Hroom) Ex eq_refl) as [Hrd Hat].
  match goal with |- context [runs _ ?s1 _] => set (s1' := s1) in * end.
  assert (pe_name e = name) as Hname by (apply fmap_ld_name in He; rewrite He in Hnm; by injection Hnm).
  pose proof (started_all opened S i e s1' Hrd He Hat) as Hstart.
  destruct (start_fn e) as [f|].
  - apply runs_bind. eapply runs_mono; [apply Hstart|].
    { rewrite Hname. intros -> v Hv'. destruct v as [v|]; [|done].
      destruct (extract_loop_source _ _ _ _ _ _ _ _ Ex Hv') as [Hbad|(n & Hn & Hin)]; [done|]. injection Hn as <-. by apply Hok. }
    intros r s2 (Hl2 & Hi2 & Hc2 & Hr2 & Hlive). apply runs_upd. destruct (decide (r = 0)) as [->|Hr].
    + right. exists i, (opens opened i). specialize (Hlive eq_refl). replace (s2 <| parse_error := 0 |>) with s2; [done|].
      pose proof (lv_error _ _ _ Hlive). destruct s2. simpl in *. by subst.
    + left. apply Hhalt; try done. rewrite Hi2. simpl. unfold blen in Hroom. rewrite (sk_len _ _ _ Hsk) in Hroom. lia.
  - apply runs_ret. right. exists i, opened. apply Hstart. rewrite Hname. intros -> v Hv'. destruct v as [v|]; [|done].
    destruct (extract_loop_source _ _ _ _ _ _ _ _ Ex Hv') as [Hbad|(n & Hn & Hin)]; [done|]. injection Hn as <-. by apply Hok.
Qed.

(** ** Closing an element *)

(** The chain without its last element. *)
Lemma pop_live opened S e s s' : live opened (S ++ [e]) s → cfg s' → stack_index s' = stack_index s → stack_entry s' = stack_entry s →
  parse_error s' = 0 → stopped s' = None → redirect s' = None → (opened = false → virgin s') → has_cur S (cur s') →
  live opened S (s' <| stack_index := stack_index s' - 1 |>).
Proof.
  intros [Herr Hst Hre Hc [Hin Hl Hix Hroot Hent] Hcur Hv] Hc' Ei Ee Eerr Est Ere Hv' Hcur'. split; simpl; try done.
  - destruct Hc'. by split.
  - split; simpl; rewrite ?Ee; try done; [by apply grammar_end in Hin as [? _]|rewrite Ei, Hix, blen_snoc; lia|].
    intros k x Hk. apply Hent. apply lookup_app_l_Some. exact Hk.
Qed.

(** An end handler succeeds, and leaves what the rest of the chain needs. *)
Lemma ended_all opened S i e s : live opened (S ++ [i]) s → ld elem_table i = Some e →
  match end_fn e with
  | Some f => runs f s (λ r s', r = 0 ∧ cfg s' ∧ stack_index s' = stack_index s ∧ stack_entry s' = stack_entry s ∧ parse_error s' = parse_error s ∧
      (stopped s' = None → redirect s' = None) ∧ (opened = false → virgin s') ∧ (redirect s' = None ∨ virgin s' ∧ cur_probe (cur s') = false) ∧ has_cur S (cur s'))
  | None => True
  end.
Proof.
  intros [Herr Hst Hre Hc Hsk Hcur Hv] He. pose proof (sk_in _ _ _ Hsk) as Hin.
  assert (i ≠ e_elem_mixer → S ∈ parents opened i) as Hp by (intros; by apply grammar_parent).
  assert (i ∉ [10; 11; 12; 13] → opened = true) as Hop.
  { intros Hi. destruct opened; [done|]. exfalso. apply Hi. cbn [spines] in Hin.
    repeat (apply elem_of_cons in Hin as [Hx|Hin]; [apply (f_equal last) in Hx; rewrite last_snoc in Hx; simpl in Hx; simplify_eq;
      rewrite ?elem_of_cons; auto|]). by apply not_elem_of_nil in Hin. }
  apply Forall_app in Hcur as [HS Hi]. rewrite Forall_singleton in Hi.
  assert (∀ r s', r = 0 → cfg s' → same_ctx s s' → opened = true → has_cur S (cur s') →
    r = 0 ∧ cfg s' ∧ stack_index s' = stack_index s ∧ stack_entry s' = stack_entry s ∧ parse_error s' = parse_error s ∧
      (stopped s' = None → redirect s' = None) ∧ (opened = false → virgin s') ∧ (redirect s' = None ∨ virgin s' ∧ cur_probe (cur s') = false) ∧ has_cur S (cur s')) as Hsame.
  { intros r s' -> Hc' (Ei & Ee & _ & Eerr & Est & Epr) -> Hcur'. rewrite Epr. split_and!; try done. by left. }
  pose proof (ld_Some_bounds _ _ _ He) as Hb. change (blen elem_table) with 14 in Hb.
  assert (i ∈ seqZ 0 14) as Hseq by (apply elem_of_seqZ; lia). change (seqZ 0 14) with [0; 1; 2; 3; 4; 5; 6; 7; 8; 9; 10; 11; 12; 13] in Hseq.
  repeat (apply elem_of_cons in Hseq as [->|Hseq]); [injection He as <-; cbn [end_fn]; try exact I..|by apply not_elem_of_nil in Hseq].
  - specialize (Hp ltac:(done)). apply list_elem_of_singleton in Hp as ->. assert (opened = true) by (apply Hop; notin).
    destruct Hi as (_ & Hx & _). eapply runs_mono; [apply parse_path_end_ok; [done|done|auto]|]. intros r s' (-> & Hc' & Hct & Ecur).
    apply Hsame; try done. rewrite Ecur. destruct (has_cur_elem _ 2 _ HS) as (Hd & _); [rewrite !elem_of_cons; auto|]. cur_solve. by apply Hd.
  - specialize (Hp ltac:(done)). apply list_elem_of_singleton in Hp as ->. assert (opened = true) by (apply Hop; notin).
    destruct Hi as (Hx & _). eapply runs_mono; [apply parse_device_end_ok; [done|done|auto]|]. intros r s' (-> & Hc' & Hct).
    apply Hsame; try done. cur_solve.
  - specialize (Hp ltac:(done)). apply list_elem_of_singleton in Hp as ->. assert (opened = true) by (apply Hop; notin).
    destruct Hi as (_ & _ & Hx & _). eapply runs_mono; [apply parse_stream_end_ok; [done|done|auto]|]. intros r s' (-> & Hc' & Hct).
    apply Hsame; try done. cur_solve.
  - specialize (Hp ltac:(done)). apply list_elem_of_singleton in Hp as ->. assert (opened = true) by (apply Hop; notin).
    destruct Hi as (_ & _ & _ & _ & Hx & _). eapply runs_mono; [apply parse_case_end_ok; [done|done|auto]|]. intros r s' (-> & Hc' & Hct & Ecur).
    apply Hsame; try done. rewrite Ecur. destruct (has_cur_elem _ 3 _ HS) as (_ & _ & Hd & _); [rewrite !elem_of_cons; auto|].
    destruct (has_cur_elem _ 7 _ HS) as (_ & _ & _ & Hu & _); [rewrite !elem_of_cons; auto|]. cur_solve; [by apply Hd|by apply Hu].
  - specialize (Hp ltac:(done)). apply list_elem_of_singleton in Hp as ->. assert (opened = true) by (apply Hop; notin).
    destruct Hi as (_ & _ & _ & Hx & _). eapply runs_mono; [apply parse_usecase_end_ok; [done|done|auto]|]. intros r s' (-> & Hc' & Hct & Ecur & _).
    apply Hsame; try done. by rewrite Ecur.
  - specialize (Hp ltac:(done)). destruct opened; [by apply not_elem_of_nil in Hp|]. apply list_elem_of_singleton in Hp as ->.
    destruct Hi as (_ & _ & _ & _ & _ & Hx). eapply runs_mono; [apply parse_codec_probe_end_ok; [done|done|auto|done]|].
    intros r s' (-> & Hc' & Hpo & Hre' & Hcp). pose proof (virgin_probe _ _ Hpo (Hv eq_refl)) as Hv'. destruct Hpo as (? & ? & ? & _).
    split_and!; try done; [by right|cur_solve].
Qed.

Lemma section_end_ok opened S e s : live opened (S ++ [e]) s →
  runs parse_section_end s (λ _ s', halted s' ∨ live opened S s').
Proof.
  intros Hlv. pose proof Hlv as [Herr Hst Hre Hc Hsk Hcur Hv]. destruct (stk_top _ _ _ Hsk) as (x & Htop & Hx). rewrite last_snoc in Hx.
  specialize (Hx _ eq_refl). subst x. destruct (grammar_end _ _ _ (sk_in _ _ _ Hsk)) as [_ Hi].
  unfold parse_section_end. apply runs_bind, runs_get, runs_bind. eapply runs_lift; [exact Htop|]. rewrite Herr. cbn [negb Z.eqb fst].
  destruct (ld_lt elem_table e Hi) as [el He]. apply runs_bind. eapply runs_lift; [exact He|].
  pose proof (ended_all opened S e el s Hlv He) as Hend. apply runs_bind. destruct (end_fn el) as [f|].
  - apply runs_bind. eapply runs_mono; [exact Hend|]. intros r s' (-> & Hc' & Ei & Ee & Eerr & Hr1 & Hv1 & Hr2 & Hcur'). apply runs_upd, runs_upd.
    assert (cfg (s' <| parse_error := 0 |>)) as Hc2 by (destruct Hc'; by split).
    destruct (stopped s') as [b|] eqn:Est.
    + left. split; simpl; [right; rewrite Est; eauto|destruct Hc'; by split|rewrite Ee; apply Hsk| |].
      * rewrite Ei, (sk_index _ _ _ Hsk), blen_snoc. pose proof (spine_len _ _ (sk_in _ _ _ Hsk)) as Hl. rewrite length_app in Hl. simpl in Hl.
        unfold blen. lia.
      * intros [y Hy]. destruct Hr2 as [Hr2|?]; [congruence|done].
    + right. by apply (pop_live opened S e s (s' <| parse_error := 0 |>)); simpl; auto.
  - apply runs_ret, runs_upd. right. apply (pop_live opened S e s s); try done. apply Forall_app in Hcur as [? _]. done.
Qed.
End Load.
