(* ===== verification/AudioLoadSpec.v ===== *)
(** * From the configuration file to the routing invariant

    Reading the configuration file is defined and gives a well-formed manager
    (or none); on such a manager the routing operations keep their invariant. *)

From S2P Require Import Prelude Monad Mixer DynArray Params AudioConfig AudioRoute AudioMachine AudioRouteSpec AudioStreams AudioParse AudioParseSpec AudioHandlers AudioLoad.

#[local] Open Scope string_scope.
#[local] Open Scope list_scope.
#[local] Open Scope Z_scope.

(** A well-formed XML document whose <ctl> indices are numbers. *)
Definition doc_ok (evs : list xml_event) : Prop := wf_events evs 0 ∧ Forall index_ok evs.

Section Load.
Context `{A : Alsa, !AlsaOk A} `{!AudioH} `{!Files} (Hmem : malloc_ok).

Abbreviation redirect s := (new_xml_file (init_probe s)).

(** The state after a document: another one may follow while nothing is defined. *)
Record fin (s : parse_state) : Prop := {
  fn_cfg : cfg s;
  fn_len : length (stack_entry s) = 6%nat;
  fn_redirect : is_Some (redirect s) → virgin s ∧ cur_probe (cur s) = false }.

Lemma halted_fin s : halted s → fin s.
Proof. by intros []. Qed.
Lemma live_fin opened S s : live opened S s → fin s.
Proof. intros []. split; [done|apply lv_stk|]. rewrite lv_redirect. by intros [? ?]. Qed.

Lemma feed_halted evs s : halted s → runs (feed evs) s (λ _ s', fin s').
Proof.
  intros Hh. induction evs as [|ev evs IH]; cbn [feed]; [apply runs_ret; by apply halted_fin|].
  pose proof Hh as [Hwhy Hc Hl Hi _]. apply runs_bind, runs_get. case_bool_decide as Es; [apply runs_ret; by apply halted_fin|].
  destruct Hwhy as [Herr|?]; [|done]. destruct (ld_lt (stack_entry s) (stack_index s)) as [en Hen]; [unfold blen; rewrite Hl; lia|].
  assert ((parse_error s =? 0) = false) as Ee by lia. apply runs_bind. destruct ev as [n a|n].
  - unfold parse_section_start. apply runs_bind, runs_get, runs_bind. eapply runs_lift; [exact Hen|]. rewrite Ee. by apply runs_ret.
  - unfold parse_section_end. apply runs_bind, runs_get, runs_bind. eapply runs_lift; [exact Hen|]. rewrite Ee. by apply runs_ret.
Qed.

Lemma feed_live evs opened S s : live opened S s → (S = [] → opened = false ∨ evs = []) → wf_events evs (length S) → Forall index_ok evs →
  runs (feed evs) s (λ _ s', fin s').
Proof.
  revert opened S s. induction evs as [|ev evs IH]; intros opened S s Hlv He0 Hwf Hok; cbn [feed]; [apply runs_ret; by eapply live_fin|].
  apply Forall_cons in Hok as [Hev Hok]. apply runs_bind, runs_get. rewrite (lv_stopped _ _ _ Hlv), bool_decide_false by (by intros [? ?]).
  apply runs_bind. destruct ev as [n a|n]; cbn [wf_events] in Hwf.
  - eapply runs_mono; [apply (section_start_ok Hmem opened S n a s Hlv)|]; [by intros E; destruct (He0 E)|exact Hev|].
    intros _ s' [Hh|(i & opened' & Hlv')]; [by apply feed_halted|]. eapply IH; [exact Hlv'| | |done].
    + intros E. by destruct S.
    + rewrite length_app. simpl. by rewrite Nat.add_1_r.
  - destruct (length S) as [|d] eqn:El; [done|]. destruct (nil_or_length_pos S) as [->|?]; [done|].
    destruct (exists_last (l := S) ltac:(by intros ->)) as (S0 & e & ->). rewrite length_app in El. simpl in El.
    eapply runs_mono; [apply (section_end_ok Hmem opened S0 e s Hlv)|]. intros _ s' [Hh|Hlv']; [by apply feed_halted|].
    destruct d as [|d].
    + subst evs. eapply IH; [exact Hlv'|by right|done|done].
    + eapply IH; [exact Hlv'| | |done]; [intros ->; simpl in El; lia|]. by replace (length S0) with (Datatypes.S d) by lia.
Qed.

Lemma do_parse_ok evs status s : cfg s → virgin s → redirect s = None → length (stack_entry s) = 6%nat → doc_ok evs →
  runs (do_parse evs status) s (λ _ s', fin s').
Proof.
  intros Hc Hv Hre Hl [Hwf Hok]. unfold do_parse. apply runs_bind, runs_upd, runs_bind, runs_get.
  destruct (stack_entry s) as [|e l] eqn:Es; [done|]. apply runs_bind. eapply runs_lift; [simpl; rewrite Es; done|].
  apply runs_bind. eapply runs_lift; [simpl; rewrite Es; by apply arena_insert_Some|]. apply runs_bind, runs_upd. apply runs_bind.
  eapply runs_mono; [eapply (feed_live evs false [])|].
  - split; simpl; try done; [destruct Hc; by split| |by apply Forall_nil]. split; simpl; try done. by left.
  - by left.
  - done.
  - done.
  - intros [] s' Hf. apply runs_bind, runs_get, runs_ret. done.
Qed.

Context (Hdocs : ∀ name evs status, read_xml name = Some (evs, status) → doc_ok evs).

Lemma parse_files_ok fuel s : virgin s → cur_probe (cur s) = false → length (stack_entry s) = 6%nat → (∀ x, cfg (s <| cur_xml_file := Some x |>)) →
  runs (parse_files fuel) s (λ r s', is_Some r → cfg s').
Proof.
  revert s. induction fuel as [|fuel IH]; intros s Hv Hcp Hl Hc; cbn [parse_files]; [apply runs_ret; by intros [? ?]|].
  apply runs_bind, runs_get. destruct (config_file_name (redirect s)) as [name cf]. apply runs_bind, runs_strdup; [done|].
  apply runs_bind, runs_upd. destruct (read_xml name) as [[evs status]|] eqn:Er; [|apply runs_ret; by intros _]. apply runs_bind.
  eapply (runs_mono _ _ (λ _ s', cfg s' ∧ virgin s' ∧ redirect s' = None ∧ length (stack_entry s') = 6%nat)).
  { specialize (Hc cf). case_bool_decide as Er0; unfold when.
    - apply runs_upd. split; [|by split_and!]. destruct Hc as [????? Hp ??]. split; simpl in *; try done. by rewrite Hcp.
    - apply runs_ret. split; [done|]. split; [done|]. split; [|done]. simpl. destruct (redirect s); [|done]. by destruct Er0. }
  intros [] s1 (Hc1 & Hv1 & Hre1 & Hl1). apply runs_bind.
  eapply runs_mono; [apply do_parse_ok; [done..|by eapply Hdocs]|]. intros ret s2 [Hc2 Hl2 Hr2]. apply runs_bind, runs_get.
  case_bool_decide as Er2; [|by apply runs_ret]. destruct (Hr2 Er2) as [Hv2 Hcp2]. apply IH; [done|done|done|]. intros x. destruct Hc2. by split.
Qed.

Lemma init_state_ok cm : runs init_state (ps_init cm)
  (λ r s', 0 <= r → ∃ a, elems a = ["off"; "on"] ∧ s' = (ps_init cm) <| path_name_array := a |>).
Proof.
  unfold init_state. apply runs_bind. eapply runs_lift; [done|]. apply runs_bind. unfold add_path_name at 1. apply runs_bind, runs_get. simpl.
  apply runs_bind, runs_strdup; [done|]. apply runs_bind, runs_extend; [done| |].
  { apply runs_ret. simpl. apply runs_ret. unfold ENOMEM. lia. }
  intros a Ea. apply runs_bind, runs_upd, runs_ret. simpl in Ea. rewrite Ea. simpl. apply runs_bind. eapply runs_lift; [done|]. apply runs_bind.
  unfold add_path_name. apply runs_bind, runs_get. unfold find_path_name. simpl. rewrite Ea. simpl.
  apply runs_bind, runs_strdup; [done|]. apply runs_bind, runs_extend; [done| |].
  { apply runs_ret, runs_ret. simpl. unfold ENOMEM. lia. }
  intros b Eb. apply runs_bind, runs_upd, runs_ret. apply runs_ret. intros _. exists b. rewrite Eb, Ea. done.
Qed.

(** Only the mixer's memory of names may change when controls are applied. *)
Lemma cm_good_sim n cm m' : mixer_sim (cm_mixer cm) m' → cm_good n cm → cm_good n (cm <| cm_mixer := m' |>).
Proof.
  intros Hs []. split; simpl; try done; [by eapply omixer_ok_sim| |].
  - eapply Forall_impl; [exact cg_devs|]. intros d (?&?&HF). split_and!; [done|done|]. eapply Forall_impl; [exact HF|].
    intros p [? ?]. split; [done|]. by eapply path_ok_sim.
  - eapply Forall_impl; [exact cg_strs|]. intros st (?&?&?&?&?&?). do 5 (split; [done|]). by eapply stream_ok_sim.
Qed.

Lemma runs_on_cm {X} (m : ST (aworld config_mgr) X) s (Φ : X → parse_state → Prop) :
  (∀ w, aobj w = ps_cm s → wp m (λ x w', paths (acalls w') = paths (acalls w) ∧ Φ x (s <| ps_cm := aobj w' |>)) w) → runs (on_cm m) s Φ.
Proof.
  intros Hm h. specialize (Hm (AWorld (ps_cm s) h) eq_refl). unfold wp, on_cm in *. cbn [aobj acalls] in *.
  destruct (m _) as [[x w']|]; [|done]. destruct Hm as [Hp HΦ]. done.
Qed.

Lemma cfg_init cm a : cm_good 2 cm → elems a = ["off"; "on"] → ∀ x, cfg ((ps_init cm) <| path_name_array := a |> <| cur_xml_file := Some x |>).
Proof.
  intros Hg Ea x. split; simpl; rewrite ?Ea; try done; [by exists []|].
  rewrite NoDup_cons. split; [by intros ?%list_elem_of_singleton|apply NoDup_singleton].
Qed.

Lemma new_config_mgr_good n : cm_good n new_config_mgr.
Proof. split; simpl; try done; [constructor| |constructor]. intros t Ht. by apply not_elem_of_nil in Ht. Qed.

Lemma parse_config_file_ok fuel : runs (parse_config_file fuel) (ps_init new_config_mgr)
  (λ r s', ∀ ret, r = Some ret → 0 <= ret → ∃ n, cm_good n (ps_cm s')).
Proof.
  unfold parse_config_file. apply runs_bind, runs_malloc; [done|]. cbn [negb]. apply runs_bind.
  eapply runs_mono; [apply init_state_ok|]. intros r s1 H1. destruct (Z.ltb_spec r 0).
  { apply runs_ret. intros ret [= <-]. lia. }
  destruct (H1 ltac:(lia)) as (a & Ea & ->). apply runs_bind.
  eapply runs_mono; [apply parse_files_ok; [done|done|done|by apply cfg_init; [apply new_config_mgr_good|]]|].
  intros [ret|] s2 Hc; [|by apply runs_ret]. specialize (Hc ltac:(eauto)). apply runs_bind. unfold when.
  destruct (Z.geb_spec ret 0).
  - apply runs_bind, runs_get, runs_bind, runs_on_cm. intros w Ew.
    eapply wp_mono; [apply apply_ctls_wp; [rewrite Ew; apply Hc|rewrite Ew; apply Hc]|]. intros ctls w' [(m' & E & Hs & Hp) _].
    split; [done|]. apply runs_upd, runs_ret. intros ret' _ _. simpl. rewrite E, Ew. eexists. apply cm_good_sim; [by rewrite <- Ew|apply Hc].
  - apply runs_ret, runs_ret. intros ret' [= <-]. lia.
Qed.

Lemma fix_good n cm a b : elems a = elems (device_array cm) → elems b = elems (stream_array cm) → arr_ok b → cm_good n cm →
  cm_good n (cm <| device_array := a |> <| stream_array := b |>).
Proof.
  intros Ea Eb Hb [Hm Hd Hs Ht Hsup Hn Hr]. split; simpl; try done; unfold types in *; simpl; rewrite ?Ea, ?Eb; try done.
Qed.

Lemma init_audio_config_ok fuel h : ∃ r h', init_audio_config fuel h = Some (r, h') ∧ paths h' = paths h ∧
  ∀ cm, r = Some (Some cm) → ∃ n, cm_good n cm.
Proof.
  unfold init_audio_config, malloc, acall_. cbn [mbind option_bind fst snd aobj acalls]. rewrite Hmem. cbn [negb].
  pose proof (parse_config_file_ok fuel (AMalloc true :: h)) as Hp. apply wp_run in Hp as (r & w & E & Hr & Hpaths). rewrite E. cbn [mbind option_bind].
  destruct r as [ret|]; [|by eexists _, _; split; [done|]]. destruct (Z.eqb_spec ret 0) as [->|]; cbn [negb].
  2:{ eexists _, _. split; [done|]. split; [done|]. by intros cm [= ?]. }
  destruct (Hr 0 eq_refl ltac:(lia)) as [n Hg]. unfold fix_, malloc, acall_, mbind, ST_bind, mret, ST_ret. simpl. rewrite !Hmem. simpl. eexists _, _. split; [done|]. split; [done|].
  intros cm [= <-]. exists n. apply fix_good; [done|done| |done]. destruct (cg_room _ _ Hg). unfold arr_ok. simpl. lia.
Qed.
End Load.

(** ** The manager is ready for routing *)

Section Ready.
Context `{H : AudioH, !AudioHOk H}.

(** A loaded stream that can be opened, with sensible paths. *)
Definition stream_usable (s : stream) : Prop :=
  0 <= max_ref_count s ∧ enable_path s ≠ e_path_id_off ∧ disable_path s ≠ e_path_id_on.

Lemma cm_good_loaded n cm h : cm_good n cm → paths h = [] → Forall stream_usable (elems (stream_array cm)) →
  loaded (shape (view (AWorld cm h)).1) (AWorld cm h).
Proof.
  intros Hg Hp Hu. pose proof Hg as [Hm Hd Hs _ _ _ [Hr1 Hr2]]. split; simpl; try done.
  - split; simpl; [done| |].
    + eapply Forall_impl; [exact Hd|]. intros d (_ & _ & HF). eapply Forall_impl; [exact HF|]. by intros p [_ ?].
    + eapply Forall_impl; [exact Hs|]. by intros s (_ & _ & _ & _ & _ & ?).
  - eapply Forall_impl; [exact Hd|]. by intros d (? & _).
  - unfold INT_MAX. lia.
  - apply Forall_forall. intros s Hin. pose proof (proj1 (Forall_forall _ _) Hs _ Hin) as (Er & Ec & Hmax & _).
    destruct (proj1 (Forall_forall _ _) Hu _ Hin) as (? & ? & ?). split_and!; done || lia.
Qed.

(** C15: loading a configuration.  When memory does not run out and the
    documents are well-formed XML with numeric <ctl> indices: reading them is
    defined (no access outside the parse stack, no null object, for any
    nesting and any attributes) and applies no path of a device; a manager
    that results is well formed (types from the device table, each device
    once, path identifiers and names in range and unique, controls that fit
    the card, all counters zero), and if its layout has distinct device bits
    and balanced paths and its streams are usable, it is the start state of
    the routing invariant. *)
Theorem audio_config_loads `{A : Alsa, !AlsaOk A} `{!Files} fuel h : malloc_ok →
  (∀ name evs status, read_xml name = Some (evs, status) → doc_ok evs) → paths h = [] →
  ∃ r h', init_audio_config fuel h = Some (r, h') ∧ paths h' = [] ∧
    ∀ cm, r = Some (Some cm) → (∃ n, cm_good n cm) ∧
      let sh := shape (view (AWorld cm h')).1 in
      (layout_wf sh → Forall stream_usable (elems (stream_array cm)) → loaded sh (AWorld cm h') ∧ Inv sh (AWorld cm h')).
Proof.
  intros Hmem Hdocs Hp. destruct (init_audio_config_ok Hmem Hdocs fuel h) as (r & h' & E & Hp' & Hg). exists r, h'.
  split; [done|]. rewrite Hp in Hp'. split; [done|]. intros cm Er. destruct (Hg cm Er) as [n Hn]. split; [by exists n|].
  intros sh Hl Hu. assert (loaded sh (AWorld cm h')) as Hld by (by eapply cm_good_loaded). split; [done|]. by apply loaded_inv.
Qed.
End Ready.
