(* ===== verification/AudioLoadDemo.v ===== *)
(** * Loading concrete configurations

    A small configuration file is loaded and routed; a file with an index that
    is no number leads the parser to free part of an array. *)

From S2P Require Import Prelude Monad Mixer DynArray Params AudioConfig AudioRoute AudioMachine AudioRouteSpec AudioStreams AudioDemo AudioParse AudioParseSpec AudioHandlers AudioLoad AudioLoadSpec.

#[local] Open Scope string_scope.
#[local] Open Scope list_scope.
#[local] Open Scope Z_scope.

#[local] Existing Instance android.
#[local] Existing Instance demo_card.

(** An element with its content. *)
Definition elt (name : string) (attribs : list (string * string)) (content : list xml_event) : list xml_event :=
  XStart name attribs :: content ++ [XEnd name].

Definition one_file (evs : list xml_event) : Files := {|
  read_xml := λ name, if bool_decide (name = "/vendor/etc/audio.mocha.xml") then Some (evs, 0) else None;
  probe_line := λ _, None; ro_product_device := "mocha"; uninit := 0 |}.

Definition ctl_elt (v : string) : list xml_event := elt "ctl" [("name", "Switch"); ("val", v)] [].

Definition small_file : list xml_event :=
  elt "audiohal" [] (
    elt "mixer" [("card", "0")] (elt "init" [] (ctl_elt "0")) ++
    elt "device" [("name", "speaker")] (elt "path" [("name", "on")] (ctl_elt "1") ++ elt "path" [("name", "off")] (ctl_elt "0")) ++
    elt "stream" [("type", "pcm"); ("dir", "out")] (elt "usecase" [("name", "u")] (elt "case" [("name", "c")] (ctl_elt "1")))).

Lemma small_loads : ∃ cm h, @init_audio_config demo_card android (one_file small_file) 1 [] = Some (Some (Some cm), h) ∧
  types cm = [2] ∧ (path_id <$> (elems (device_array cm) ≫= λ d, elems (path_array d))) = [1; 0] ∧ length (elems (stream_array cm)) = 1%nat.
Proof. eexists _, _. split; [vm_compute; reflexivity|]. vm_compute. done. Qed.

Lemma small_doc_ok name evs status : @read_xml (one_file small_file) name = Some (evs, status) → doc_ok evs.
Proof.
  simpl. case_bool_decide; [|done]. intros [= <- <-]. split; [vm_compute; done|].
  assert (forallb (λ ev, match ev with XStart _ a => bool_decide ("index" ∉ a.*1) | XEnd _ => true end) small_file = true) as Hall
    by (vm_compute; reflexivity).
  rewrite forallb_forall in Hall. apply Forall_forall. intros [n a|n] Hin; [|done]. apply list_elem_of_In in Hin.
  specialize (Hall _ Hin). apply bool_decide_eq_true in Hall. intros _ v Hv. destruct Hall. by apply (list_elem_of_fmap_2 fst _ ("index", v)).
Qed.

Lemma audio_config_loads_witness : ∃ cm h', @init_audio_config demo_card android (one_file small_file) 1 [] = Some (Some (Some cm), h') ∧
  Inv (shape (view (AWorld cm h')).1) (AWorld cm h').
Proof.
  destruct (@audio_config_loads android demo_card demo_card_ok (one_file small_file) 1 []) as (r & h' & E & _ & Hg);
    [by intros h|exact small_doc_ok|done|].
  destruct small_loads as (cm & h & E' & _). rewrite E' in E. injection E as <- <-.
  exists cm, h. split; [exact E'|]. destruct (Hg cm eq_refl) as [_ Hl]. apply Hl.
  - vm_compute in E'. injection E' as <- <-. split.
    + intros j t ids Hj Ht. cbn in Hj. ld_cases. split; reflexivity.
    + intros i j t t' ids ids' Hi Hj _ _ Hne. cbn in Hi, Hj. ld_cases; done.
    + intros j t ids Hj. cbn in Hj. ld_cases. split; intros _; unfold e_path_id_on, e_path_id_off; rewrite !elem_of_cons; auto.
  - vm_compute in E'. injection E' as <- <-. repeat constructor; by vm_compute.
Defined.

(** A second control whose index is no number: an element inside an array is
    passed to [free]. *)
Theorem bad_index_frees_interior : @init_audio_config demo_card android (one_file (
  elt "audiohal" [] (elt "mixer" [] [] ++ elt "device" [("name", "speaker")] (elt "path" [("name", "on")] (
    ctl_elt "1" ++ elt "ctl" [("name", "Switch"); ("val", "1"); ("index", "first")] []))))) 1 [] = None.
Proof. vm_compute. reflexivity. Qed.
